(* ===== verification/_CoqProject ===== *)
-Q . S2P
Prelude.v
Bytes.v
Vm.v
Dll.v
Sync.v
PageAlloc.v
PageInv.v
PageProofs.v
PageSpec.v
PageAdd.v
PageDmap.v
PageTheorems.v
PageCount.v
Slab.v
SlabInv.v
SlabLists.v
SlabRep.v
SlabProofs.v
SlabDmap.v
SlabTheorems.v
Mapper.v
MapperSpec.v
MapperProofs.v
MapperTheorems.v
MapperFrame.v
TableAlloc.v
Registers.v
Volatile.v
GicRegs.v
Lpi.v
Gic.v
GicProofs.v
GicTheorems.v
Block.v
BlockTheorems.v
Sched.v
SchedTheorems.v
UserVm.v
UserProofs.v
UserLock.v
UserCursor.v
UserTheorems.v
Process.v
Cpu.v
Device.v
Aml.v
AmlProofs.v
AmlDevice.v
AmlTheorems.v
Acpi.v
Pcie.v
PcieCap.v
PcieProofs.v
PcieScan.v
PcieLists.v
PcieMsix.v
PcieTheorems.v
AcpiInit.v
AcpiProofs.v
AcpiGic.v
AcpiPci.v
AcpiTheorems.v
Asm.v
AsmTheorems.v
EarlyMem.v
EarlyDmap.v
EarlyMmap.v
EarlyPopulate.v
EarlyMemTheorems.v
Vfs.v
VfsTheorems.v
SysRegs.v
Elf.v
ElfTheorems.v
Loader.v
LoaderTheorems.v
Timer.v
TimerTheorems.v
Startup.v
StartupTheorems.v
