(* ===== verification/Prelude.v ===== *)
(** * Mars: a verification library for the Mars AArch64 kernel

    Mars is a small kernel with a UEFI boot loader.  The boot loader hands
    the kernel a memory map and the ACPI tables; early initialisation builds
    the page allocator, the slab allocator and the page tables, discovers
    the devices from ACPI, AML and PCI Express, and starts the scheduler.
    This library models those parts as Rocq definitions that can be run and
    proves what makes each of them correct.  Source paths below are relative
    to [src/].

    ** How code is modelled

    Integers are [Z] with the wrap-around or the overflow check of the
    source written out.  Code with effects is a function of the monad [M S]
    of this file: it takes a state and returns [Done] with a value and a new
    state, or a [Fault]: [Panic], [BadDeref] (an unsafe access to an address
    without an object), [Deadlock] (a lock taken again by its holder) or
    [OutOfFuel].  [Result] is [result].  [wp] is total correctness: a theorem
    about [wp] says that the code returns.  Loops and recursions that are not
    structural have fuel; each file says what fuel its definitions give, and
    the theorems show that it is enough.  Page tables, slabs and zones live
    in stores keyed by physical address and are reached through an
    [AddressTranslator], as in the code.  Hardware, firmware and third-party
    code are classes or arguments, with their documented behaviour as laws;
    every law has an instance in the witnesses.

    ** The components

    - [Prelude]: the monad, [wp] and its tactics, machine integers, bits.
      [Bytes]: little-endian bytes, strings, UTF-8, and [KernelPtr48] of
      [klib/src/strange.rs].
    - [Vm]: page constants, alignment, the direct map and region types of
      [klib/src/vm/mod.rs], the address translators.
    - [Dll]: doubly linked lists through memory, shared by the allocators.
    - [Sync]: the spin lock, ticket lock and reader-writer lock of
      [klib/src/sync.rs] as step relations over any number of threads.
    - [PageAlloc] models [klib/src/pm/page/mod.rs], the buddy allocator.
      [PageInv], [PageProofs], [PageSpec], [PageAdd] and [PageDmap] hold its
      invariant and the proofs of its operations, [PageTheorems] the
      results.
    - [Slab] models [klib/src/vm/slab.rs] over the interface [PageSource] of
      [klib/src/vm/page_allocator.rs], which the page allocator implements.
      [SlabInv], [SlabLists], [SlabRep], [SlabProofs] and [SlabDmap] relate
      it to an abstract heap, [SlabTheorems] has the results.
    - [Mapper] models [klib/src/pm/page/mapper.rs] over a [TableAllocator];
      [MapperSpec] and [MapperProofs] relate the tables to a translation
      function, [MapperTheorems] has the results.
    - [Registers] models the register and field types of
      [klib/models/src/memory/registers]; [GicRegs] the registers of
      [klib/src/interrupt/gicv3/registers].
    - [Lpi] models [lpi_alloc.rs] and [Gic] the driver
      [klib/src/interrupt/gicv3/mod.rs]; [GicProofs], [GicTheorems].
    - [Block], [BlockTheorems]: the block layer of [klib/src/block].
    - [Sched], [SchedTheorems]: [klib/src/scheduler.rs], [thread.rs],
      [context.rs] and the sleeping mutex of [sync.rs].
    - [UserVm] models [klib/src/vm/user]: address spaces, page descriptors
      and cursors over [Mapper]; [UserProofs], [UserLock], [UserCursor],
      [UserTheorems].
    - [Device] models [klib/src/hardware]: the arena of devices and the
      binding of drivers.
    - [Aml] and [AmlDevice] model [kernel/drivers/acpi-aml/src]: the parser
      and the construction of devices from its terms; [AmlProofs],
      [AmlTheorems].
    - [Pcie] and [PcieCap] model [kernel/drivers/pcie/src]: configuration
      space, base address registers, enumeration into the arena of [Device],
      capabilities and MSI-X; [PcieProofs],
      [PcieScan], [PcieLists] and [PcieMsix] prove enumeration, the
      capability lists and MSI-X, [PcieTheorems] has the results.
    - [Volatile]: the traits and the seven kinds of register of
      [klib/models/src/memory/registers/volatile.rs], as classes and
      instances.
    - [PageCount]: the pages of the page allocator are conserved.
      [TableAlloc]: [kernel/src/allocator/mod.rs], the table allocator over
      the slab allocator, as an instance of the interface of [Mapper].
      [MapperFrame]: what a table operation leaves alone in memory.
    - [Process]: [klib/src/process.rs] and the first thread of a core,
      [kernel/src/earlyinit/idle.rs].
    - [Cpu]: core numbers and per-CPU data, [klib/src/cpu_interface.rs] and
      [klib/src/per_cpu], with PSCI of [klib/src/smccc.rs].
    - [Acpi] models the tables of [kernel/drivers/acpi/src], read byte by byte
      from firmware memory, and [AcpiInit] the discovery in
      [kernel/src/earlyinit/acpi.rs] over [Device], [Aml], [Mapper] and
      [Pcie]; [AcpiProofs], [AcpiGic], [AcpiPci], [AcpiTheorems].
    - [Asm]: the instructions of the exception entry and exit of
      [klib/src/exception.rs] and of the trampoline of the other cores in
      [kernel/src/earlyinit/smp.rs], run on a machine with registers and
      memory; [AsmTheorems].
    - [EarlyMem] models [kernel/src/earlyinit/mem.rs]: the memory map, the
      filling of the allocators and the direct map; [EarlyMmap], [EarlyDmap],
      [EarlyPopulate], [EarlyMemTheorems].
    - [Vfs] models [klib/src/vfs] over a class of file systems;
      [VfsTheorems] has the results and a file system in memory.
    - [SysRegs]: the translation and system registers of
      [bootloader/src/page.rs], [bootloader/src/main.rs] and
      [kernel/src/earlyinit/mmu.rs].
      [Elf] models [bootloader/src/elf.rs] and [Loader] the boot loader's
      [main.rs], from the firmware's services to the entry of the kernel;
      [ElfTheorems], [LoaderTheorems].
    - [Timer]: [kernel/drivers/generic-timer/src], and the interrupt handler
      of [kernel/src/earlyinit/exception.rs] over [Gic], [Timer] and [Sched];
      [TimerTheorems].
    - [Startup]: the boot information tokens and the order of initialisation
      of [kernel/src/earlyinit/platform.rs], waking the other cores
      ([smp.rs]), stacks, cache maintenance and the interrupt guard;
      [StartupTheorems].

    ** What the theorems show

    - Allocators: blocks handed out are disjoint, aligned and inside the
      memory given to the allocator; freeing merges; operations return on
      every state of the invariant, errors included; the move to the direct
      map preserves the allocator; the slab allocator over the page
      allocator leaks nothing.
    - Page tables: mapping and unmapping change the translation of the given
      pages and of nothing else; tables are allocated and freed exactly.
    - Locks: mutual exclusion, first-come order and progress, by induction
      over reachable states.
    - Scheduler: the thread table and the run queue stay consistent; what
      [schedule] and the sleeping mutex do, with the panics and the deadlock
      that the code has.
    - Interrupts: events, LPIs and the command queue of the ITS agree;
      register fields are independent.
    - User address spaces: mapped pages are found by [query], locking and
      dropping a cursor restores the descriptors, and the deadlock of a
      second mapping in a populated table.
    - AML: the parser is total, and parsing is the inverse of an encoder; the
      devices built from any terms form a forest.
    - Boot: from firmware that keeps its promises, the boot loader places
      every byte of the kernel's image, builds mappings that translate the
      kernel and the identity range, and enters the kernel at its entry
      point with the registers set up; images it cannot load are refused.
    - Early memory: the copied memory map describes the same memory without
      the pages of the copy; the allocators get the usable regions; the
      direct map maps exactly the described pages, each with the attributes
      of one of its descriptors.
    - ACPI: the checks of the root pointer accept exactly the valid ones and
      name the first error; discovery visits the tables in order; devices,
      cores and PCI segments reach the device tree.
    - PCIe: accesses stay in the window of the segment; probing finds the
      regions and restores the registers; enumeration finds exactly the
      functions reachable over bridges and returns even when the bridges
      form a cycle; capability walks return on any contents; MSI-X leaves
      every vector masked on an error.
    - Exceptions, timer, cores: entry and exit restore the interrupted
      registers; durations convert exactly or are refused; [sleep] returns
      when the counter reaches the deadline; another core starts with the
      registers of the first one and its stack is freed after it is ready.
    - Files: lookup implements the resolution of paths in the abstract tree
      of the file system, the cache never changes its result, and a created
      file is the one that is found; permissions and sizes.
    - Processes: threads are removed by their id; the lock is not recursive.
      Boot information: at most one token exists, and using it never reads
      unset memory.

    ** Not modelled

    Barriers and TLB maintenance, which have no effect on the modelled
    state.  Log output, the console and [Debug] implementations.  The
    [macro_rules] of [klib/models], whose expansions are modelled where they
    are used.  Weak memory: the locks are proved under sequential
    consistency and the other components run one operation at a time.  The
    sequence of calls of [uefi_arm64_bootstrap], whose steps are modelled one
    by one over different states, and the mapping of the GIC's registers in
    [kernel/src/earlyinit/gicv3.rs].  The dump of a page table and the stack
    check in [mem.rs].  [kernel/src/acpi/mod.rs], which no crate includes,
    [bytes_to_human_readable], which nothing calls, and the runner, a host
    program that starts the emulator.
*)

From Stdlib Require Export ZArith Lia.
From stdpp Require Export base tactics numbers option list gmap relations.

#[global] Open Scope Z_scope.

(** ** Outcomes and the state monad of the model

    Rust code that can panic, dereference a pointer that is not backed by an
    object of the store, or run a loop past its fuel is a function from the
    store to an [outcome].  [Panic] is an [assert!], [expect], [unwrap],
    arithmetic overflow or out-of-bounds index of the source; [BadDeref] is
    an access the source performs under [unsafe] at an address that holds no
    object; [Deadlock] is a lock taken again by its holder; [OutOfFuel] is a
    loop that did not finish within the fuel the definition gives it. *)

Inductive fault := Panic | BadDeref | Deadlock | OutOfFuel.

Inductive outcome (A : Type) :=
| Done (a : A)
| Fault (f : fault).
Arguments Done {A} a.
Arguments Fault {A} f.

#[global] Instance fault_eq_dec : EqDecision fault.
Proof. solve_decision. Defined.

Definition M (S A : Type) := S → outcome (A * S).

Definition ret {S A} (a : A) : M S A := λ s, Done (a, s).
Definition bind {S A B} (c : M S A) (k : A → M S B) : M S B := λ s,
  match c s with
  | Done (a, s') => k a s'
  | Fault f => Fault f
  end.
Definition fail {S A} (f : fault) : M S A := λ _, Fault f.
Definition get {S} : M S S := λ s, Done (s, s).
Definition gets {S A} (f : S → A) : M S A := λ s, Done (f s, s).
Definition modify {S} (f : S → S) : M S unit := λ s, Done (tt, f s).
Definition assert {S} (b : bool) : M S unit := λ s,
  if b then Done (tt, s) else Fault Panic.
(** Lifts a partial computation that panics on [None]. *)
Definition expect {S A} (o : option A) : M S A := λ s,
  match o with Some a => Done (a, s) | None => Fault Panic end.

Declare Scope rust_scope.
Delimit Scope rust_scope with rust.
Notation "'let*' x ':=' c 'in' k" := (bind c (λ x, k))
  (at level 10, x name, c at level 100, k at level 200,
   format "'[v' 'let*'  x  ':='  c  'in' '/' k ']'") : rust_scope.
Notation "'let*' ' x ':=' c 'in' k" := (bind c (λ x, k))
  (at level 10, x strict pattern, c at level 100, k at level 200) : rust_scope.
Notation "c ';;' k" := (bind c (λ _, k))
  (at level 100, k at level 200, right associativity) : rust_scope.
#[global] Open Scope rust_scope.

(** Rust's [Result] and its question mark operator. *)
Inductive result (E A : Type) := Ok (a : A) | Err (e : E).
Arguments Ok {E A} a.
Arguments Err {E A} e.
Definition try_ {S E A B} (c : M S (result E A)) (k : A → M S (result E B)) : M S (result E B) :=
  bind c (λ r, match r with Ok a => k a | Err e => ret (Err e) end).
Notation "'try' x ':=' c 'in' k" := (try_ c (λ x, k))
  (at level 10, x name, c at level 100, k at level 200) : rust_scope.
Notation "c ';?' k" := (try_ c (λ _, k)) (at level 100, k at level 200, right associativity) : rust_scope.

(** Total-correctness weakest precondition: the computation returns. *)
Definition wp {S A} (c : M S A) (Q : A → S → Prop) (s : S) : Prop :=
  match c s with
  | Done (a, s') => Q a s'
  | Fault _ => False
  end.

Section wp_rules.
Context {S : Type}.

Lemma wp_ret {A} (a : A) (Q : A → S → Prop) s : Q a s → wp (ret a) Q s.
Proof. done. Qed.

Lemma wp_bind {A B} (c : M S A) (k : A → M S B) Q s :
  wp c (λ a, wp (k a) Q) s → wp (bind c k) Q s.
Proof. unfold wp, bind. by destruct (c s) as [[a s']|]. Qed.

Lemma wp_assoc {A B C} (a : M S A) (b : A → M S B) (k : B → M S C) Q s :
  wp (bind a b) (λ x, wp (k x) Q) s → wp (bind a (λ x, bind (b x) k)) Q s.
Proof.
  unfold wp, bind. destruct (a s) as [[x s']|]; [|done]. by destruct (b x s') as [[y s'']|].
Qed.

Lemma wp_mono {A} (c : M S A) (Q Q' : A → S → Prop) s :
  wp c Q s → (∀ a s', Q a s' → Q' a s') → wp c Q' s.
Proof. unfold wp. destruct (c s) as [[a s']|]; naive_solver. Qed.

Lemma wp_ext {A} (c c' : M S A) (Q : A → S → Prop) s : c s = c' s → wp c' Q s → wp c Q s.
Proof. unfold wp. by intros ->. Qed.

Lemma wp_get (Q : S → S → Prop) s : Q s s → wp get Q s.
Proof. done. Qed.

Lemma wp_gets {A} (f : S → A) (Q : A → S → Prop) s : Q (f s) s → wp (gets f) Q s.
Proof. done. Qed.

Lemma wp_modify (f : S → S) (Q : unit → S → Prop) s :
  Q tt (f s) → wp (modify f) Q s.
Proof. done. Qed.

Lemma wp_assert (b : bool) (Q : unit → S → Prop) s :
  b = true → Q tt s → wp (assert b) Q s.
Proof. by intros ->. Qed.

Lemma wp_expect {A} (o : option A) a (Q : A → S → Prop) s :
  o = Some a → Q a s → wp (expect o) Q s.
Proof. by intros ->. Qed.

Lemma wp_try {E A B} (c : M S (result E A)) (k : A → M S (result E B)) Q s :
  wp c (λ r s', match r with Ok a => wp (k a) Q s' | Err e => Q (Err e) s' end) s → wp (try_ c k) Q s.
Proof.
  intros Hc. unfold try_. apply wp_bind. eapply wp_mono; [exact Hc|]. by intros [a|e] s' Hr.
Qed.

(** A computation with a precondition returns, and its result is one of
    those the postcondition allows. *)
Lemma wp_run {A} (c : M S A) (Q : A → S → Prop) s :
  wp c Q s ↔ ∃ a s', c s = Done (a, s') ∧ Q a s'.
Proof.
  unfold wp. destruct (c s) as [[a s']|f].
  - split; [eauto|]. by intros (? & ? & [= <- <-] & ?).
  - split; [done|]. by intros (? & ? & ? & ?).
Qed.

(** What a computation does, together with the run that does it. *)
Lemma wp_keep {A} (c : M S A) (P Q : A → S → Prop) s : wp c P s → (∀ x s', c s = Done (x, s') → P x s' → Q x s') → wp c Q s.
Proof. intros Hw HQ. apply wp_run. apply wp_run in Hw as (x & s' & E & HP). eauto. Qed.

(** [faults c f s]: the computation stops with [f]. *)
Definition faults {A} (c : M S A) (f : fault) (s : S) : Prop := c s = Fault f.

Lemma faults_bind {A B} (c : M S A) (k : A → M S B) f s :
  wp c (λ a, faults (k a) f) s → faults (bind c k) f s.
Proof. unfold faults, wp, bind. by destruct (c s) as [[a s']|]. Qed.

Lemma faults_here {A B} (c : M S A) (k : A → M S B) f s :
  faults c f s → faults (bind c k) f s.
Proof. unfold faults, bind. by intros ->. Qed.

Lemma faults_assert (b : bool) s : b = false → faults (assert b) Panic s.
Proof. by intros ->. Qed.
End wp_rules.

Create HintDb wp discriminated.

(** One step of symbolic execution; [wp_steps] runs the straight-line prefix. *)
Ltac wp_step :=
  lazymatch goal with
  | |- wp (bind _ _) _ _ => apply wp_bind
  | |- wp (ret _) _ _ => apply wp_ret
  | |- wp get _ _ => apply wp_get
  | |- wp (gets _) _ _ => apply wp_gets
  | |- wp (modify _) _ _ => apply wp_modify
  end.
Ltac wp_steps := repeat wp_step.

(** ** Machine integers

    A [w]-bit unsigned integer is a [Z] in [0, 2^w).  [unot] is Rust's [!],
    [wrap] the reduction of a wrapping operation, [checked_add] and
    [checked_sub] the operations of the same name (and the overflow check of
    [+] and [-] in a build with overflow checks). *)

Definition wrap (w x : Z) : Z := x mod 2 ^ w.
Definition unot (w x : Z) : Z := Z.lxor x (Z.ones w).
Definition in_range (w x : Z) : bool := (0 <=? x) && (x <? 2 ^ w).
Definition checked_add (w x y : Z) : option Z :=
  if x + y <? 2 ^ w then Some (x + y) else None.
Definition checked_mul (w x y : Z) : option Z :=
  if x * y <? 2 ^ w then Some (x * y) else None.
Definition checked_sub (x y : Z) : option Z :=
  if y <=? x then Some (x - y) else None.

(** [usize::trailing_zeros] and [usize::ilog2] (the latter on a non-zero
    argument, as in the source). *)
Fixpoint pos_trailing_zeros (p : positive) : Z :=
  match p with xO p' => 1 + pos_trailing_zeros p' | _ => 0 end.
Definition trailing_zeros (w x : Z) : Z :=
  match x with Zpos p => pos_trailing_zeros p | _ => w end.
Definition ilog2 (x : Z) : Z := Z.log2 x.

Lemma wrap_range w x : 0 ≤ w → 0 ≤ wrap w x < 2 ^ w.
Proof. intros. apply Z.mod_pos_bound. lia. Qed.

Lemma wrap_small w x : 0 ≤ x < 2 ^ w → wrap w x = x.
Proof. apply Z.mod_small. Qed.

Lemma wrap_add_l w x y : wrap w (wrap w x + y) = wrap w (x + y).
Proof. unfold wrap. apply Zplus_mod_idemp_l. Qed.

(** Offsets below the modulus from one base do not collide after wrapping. *)
Lemma wrap_add_inj w u a b : 0 ≤ w → 0 ≤ a < 2 ^ w → 0 ≤ b < 2 ^ w →
  wrap w (u + a) = wrap w (u + b) → a = b.
Proof.
  intros Hw Ha Hb E. pose proof (Z.pow_pos_nonneg 2 w ltac:(lia) Hw).
  assert (wrap w (wrap w (u + a) + - u) = wrap w (wrap w (u + b) + - u)) as E' by by rewrite E.
  rewrite !wrap_add_l in E'.
  replace (u + a + - u) with a in E' by lia. replace (u + b + - u) with b in E' by lia.
  by rewrite !wrap_small in E'.
Qed.

Lemma testbit_above x w i : 0 ≤ x < 2 ^ w → w ≤ i → Z.testbit x i = false.
Proof.
  intros Hx Hi. destruct (decide (x = 0)) as [->|]; [apply Z.bits_0|].
  apply Z.bits_above_log2; [lia|].
  assert (Z.log2 x < w); [|lia]. apply Z.log2_lt_pow2; lia.
Qed.

Lemma unot_spec w x i : 0 ≤ i → 0 ≤ w →
  Z.testbit (unot w x) i = if decide (i < w) then negb (Z.testbit x i) else Z.testbit x i.
Proof.
  intros Hi Hw. unfold unot. rewrite Z.lxor_spec. case_decide.
  - rewrite Z.ones_spec_low by lia. apply xorb_true_r.
  - rewrite Z.ones_spec_high by lia. apply xorb_false_r.
Qed.

(** [x & !m] keeps the bits of [x] that are not in [m]. *)
Lemma land_unot w x m : 0 ≤ w → 0 ≤ x < 2 ^ w →
  Z.land x (unot w m) = Z.ldiff x m.
Proof.
  intros Hw Hx. apply Z.bits_inj'. intros i Hi.
  rewrite Z.land_spec, unot_spec, Z.ldiff_spec by done.
  case_decide; [done|]. by rewrite (testbit_above x w) by lia.
Qed.

Lemma ldiff_ones_eq x k : 0 ≤ k → Z.ldiff x (Z.ones k) = 2 ^ k * (x / 2 ^ k).
Proof.
  intros. rewrite Z.ldiff_ones_r, Z.shiftl_mul_pow2, Z.shiftr_div_pow2 by done. lia.
Qed.

Lemma ldiff_mask_eq x k : 0 ≤ k → Z.ldiff x (2 ^ k - 1) = 2 ^ k * (x / 2 ^ k).
Proof. intros. rewrite <- ldiff_ones_eq, Z.ones_equiv by done. f_equal. Qed.

Lemma land_mask_eq x k : 0 ≤ k → Z.land x (2 ^ k - 1) = x mod 2 ^ k.
Proof. intros. rewrite <- Z.land_ones, Z.ones_equiv by done. f_equal. Qed.

Lemma shiftl_1 k : 0 ≤ k → Z.shiftl 1 k = 2 ^ k.
Proof. intros. rewrite Z.shiftl_mul_pow2 by done. lia. Qed.

Lemma pow2_pos k : 0 ≤ k → 0 < 2 ^ k.
Proof. intros. apply Z.pow_pos_nonneg; lia. Qed.

Lemma pow2_le a b : 0 ≤ a ≤ b → 2 ^ a ≤ 2 ^ b.
Proof. intros. apply Z.pow_le_mono_r; lia. Qed.

Lemma pow2_S k : 0 ≤ k → 2 ^ (k + 1) = 2 * 2 ^ k.
Proof. intros. rewrite Z.pow_add_r by lia. lia. Qed.

Lemma pow2_divide a b : 0 ≤ a ≤ b → (2 ^ a | 2 ^ b).
Proof.
  intros. exists (2 ^ (b - a)). rewrite <- Z.pow_add_r by lia. f_equal; lia.
Qed.

#[export] Hint Resolve pow2_pos pow2_le pow2_divide : core.

(** Or-ing a value into the bits above another one is an addition. *)
Lemma lor_shiftl_add a b k : 0 ≤ k → 0 ≤ a < 2 ^ k →
  Z.lor a (Z.shiftl b k) = a + b * 2 ^ k.
Proof.
  intros Hk Ha. rewrite <- Z.add_nocarry_lor; [by rewrite Z.shiftl_mul_pow2|].
  apply Z.bits_inj'. intros i Hi.
  rewrite Z.land_spec, Z.bits_0. destruct (decide (i < k)).
  - rewrite Z.shiftl_spec_low by lia. apply andb_false_r.
  - by rewrite (testbit_above a k) by lia.
Qed.

(** ** Buddies

    Two ranges of [2^o] units are buddies when they are the halves of an
    aligned range of [2^(o+1)] units; flipping bit [o] of the index of one
    gives the other, clearing it gives the union. *)

Lemma lxor_double_1 k : Z.lxor (2 * k) 1 = 2 * k + 1.
Proof.
  rewrite <- Z.add_nocarry_lxor; [done|]. apply Z.bits_inj'. intros [|n|] ?; [| |lia].
  - by rewrite Z.land_spec, Z.testbit_even_0.
  - by rewrite Z.land_spec, Z.bits_0, andb_comm.
Qed.

Lemma lxor_1 q : Z.lxor q 1 = if Z.odd q then q - 1 else q + 1.
Proof.
  pose proof (Z.div2_odd q) as E. rewrite E at 1. destruct (Z.odd q); simpl Z.b2z.
  - rewrite <- lxor_double_1, Z.lxor_assoc, Z.lxor_nilpotent, Z.lxor_0_r. simpl Z.b2z in E. lia.
  - rewrite Z.add_0_r, lxor_double_1. simpl Z.b2z in E. lia.
Qed.

Lemma ldiff_1 q : Z.ldiff q 1 = if Z.odd q then q - 1 else q.
Proof.
  change 1 with (2 ^ 1 - 1) at 1. rewrite ldiff_mask_eq by lia.
  pose proof (Zmod_odd q) as Hm. change (2 ^ 1) with 2.
  pose proof (Z.div_mod q 2 ltac:(lia)). destruct (Z.odd q); lia.
Qed.

Lemma testbit_divide i o : 0 ≤ o → (2 ^ o | i) → Z.testbit i o = Z.odd (i / 2 ^ o).
Proof. intros Ho _. rewrite Z.testbit_odd, Z.shiftr_div_pow2 by done. done. Qed.

Lemma lxor_buddy i o : 0 ≤ o → (2 ^ o | i) →
  Z.lxor i (2 ^ o) = if Z.testbit i o then i - 2 ^ o else i + 2 ^ o.
Proof.
  intros Ho Hd. rewrite testbit_divide by done. destruct Hd as [q ->].
  rewrite Z.div_mul by (pose proof (pow2_pos o Ho); lia).
  rewrite <- (Z.mul_1_l (2 ^ o)) at 2. rewrite <- !Z.shiftl_mul_pow2, <- Z.shiftl_lxor by done.
  rewrite lxor_1, !Z.shiftl_mul_pow2 by done. destruct (Z.odd q); lia.
Qed.

Lemma ldiff_buddy i o : 0 ≤ o → (2 ^ o | i) →
  Z.ldiff i (2 ^ o) = if Z.testbit i o then i - 2 ^ o else i.
Proof.
  intros Ho Hd. rewrite testbit_divide by done. destruct Hd as [q ->].
  rewrite Z.div_mul by (pose proof (pow2_pos o Ho); lia).
  rewrite <- (Z.mul_1_l (2 ^ o)) at 2. rewrite <- !Z.shiftl_mul_pow2, <- Z.shiftl_ldiff by done.
  rewrite ldiff_1, !Z.shiftl_mul_pow2 by done. destruct (Z.odd q); lia.
Qed.

Lemma testbit_divide_S i o : 0 ≤ o → (2 ^ o | i) →
  Z.testbit i o = false ↔ (2 ^ (o + 1) | i).
Proof.
  intros Ho Hd. rewrite testbit_divide by done. destruct Hd as [q ->].
  pose proof (pow2_pos o Ho). rewrite Z.div_mul by lia. rewrite pow2_S by done. split.
  - intros Eo. pose proof (Zmod_odd q) as Hm. rewrite Eo in Hm.
    exists (q / 2). pose proof (Z.div_mod q 2 ltac:(lia)). nia.
  - intros [k Hk]. assert (q = 2 * k) as -> by nia. by rewrite Z.odd_mul.
Qed.

(** [trailing_zeros] is the exponent of the largest power of two that
    divides the argument. *)
Lemma trailing_zeros_spec w x k : 0 < x → 0 ≤ k →
  0 ≤ trailing_zeros w x ∧ ((2 ^ k | x) ↔ k ≤ trailing_zeros w x).
Proof.
  destruct x as [|p|]; [lia| |lia]. intros _. simpl. revert k.
  induction p as [p _|p IH|]; intros k Hk; simpl.
  - split; [done|]. split; [|intros; replace k with 0 by lia; apply Z.divide_1_l].
    intros [q Hq]. destruct (decide (k = 0)); [lia|].
    assert (k = (k - 1) + 1) as E by lia. rewrite E, pow2_S in Hq by lia. lia.
  - destruct (IH 0) as [H0 _]; [done|]. split; [lia|].
    destruct (decide (k = 0)) as [->|Hk0]; [split; [lia|intros; apply Z.divide_1_l]|].
    destruct (IH (k - 1)) as [_ Hi]; [lia|].
    assert (k = (k - 1) + 1) as E by lia. rewrite E at 1. rewrite pow2_S by lia.
    change (Z.pos p~0) with (2 * Z.pos p). rewrite Z.mul_divide_cancel_l, Hi by lia. lia.
  - split; [done|]. split; [|intros; replace k with 0 by lia; apply Z.divide_1_l].
    intros [q Hq]. destruct (decide (k = 0)); [lia|].
    assert (k = (k - 1) + 1) as E by lia. rewrite E, pow2_S in Hq by lia. lia.
Qed.

(** ** Bit fields *)

Definition get_bits (lo w x : Z) : Z := Z.land (Z.shiftr x lo) (Z.ones w).
Definition set_bits (lo w v x : Z) : Z :=
  Z.lor (Z.ldiff x (Z.shiftl (Z.ones w) lo)) (Z.shiftl (Z.land v (Z.ones w)) lo).

Lemma testbit_ones w i : 0 ≤ w → 0 ≤ i → Z.testbit (Z.ones w) i = (i <? w).
Proof.
  intros Hw Hi. destruct (Z.ltb_spec i w); [by apply Z.ones_spec_low|].
  by apply Z.ones_spec_high.
Qed.

Lemma testbit_get_bits lo w x i : 0 ≤ lo → 0 ≤ w → 0 ≤ i →
  Z.testbit (get_bits lo w x) i = (i <? w) && Z.testbit x (i + lo).
Proof.
  intros Hlo Hw Hi. unfold get_bits. rewrite Z.land_spec, Z.shiftr_spec, testbit_ones by lia.
  apply andb_comm.
Qed.

Lemma testbit_set_bits lo w v x i : 0 ≤ lo → 0 ≤ w → 0 ≤ i →
  Z.testbit (set_bits lo w v x) i =
  if (lo <=? i) && (i <? lo + w) then Z.testbit v (i - lo) else Z.testbit x i.
Proof.
  intros Hlo Hw Hi. unfold set_bits. rewrite Z.lor_spec, Z.ldiff_spec, !Z.shiftl_spec, Z.land_spec by lia.
  destruct (Z.leb_spec lo i) as [Hl|Hl]; simpl.
  - rewrite testbit_ones by lia.
    destruct (Z.ltb_spec (i - lo) w), (Z.ltb_spec i (lo + w)); simpl; try lia.
    + by rewrite andb_false_r, andb_true_r.
    + by rewrite andb_false_r, andb_true_r, orb_false_r.
  - rewrite !(Z.testbit_neg_r _ (i - lo)) by lia. by rewrite andb_true_r, orb_false_r.
Qed.

Lemma get_bits_mod lo w x : 0 ≤ w → get_bits lo w x = Z.shiftr x lo mod 2 ^ w.
Proof. intros Hw. unfold get_bits. by rewrite Z.land_ones. Qed.

Lemma get_bits_range lo w x : 0 ≤ w → 0 ≤ get_bits lo w x < 2 ^ w.
Proof. intros Hw. rewrite get_bits_mod by done. apply Z.mod_pos_bound, pow2_pos. done. Qed.

Lemma get_set_bits lo w v x : 0 ≤ lo → 0 ≤ w → get_bits lo w (set_bits lo w v x) = v mod 2 ^ w.
Proof.
  intros Hlo Hw. rewrite <- Z.land_ones by done. apply Z.bits_inj'. intros i Hi.
  rewrite testbit_get_bits, testbit_set_bits, Z.land_spec, testbit_ones by lia.
  rewrite Z.add_simpl_r.
  destruct (Z.ltb_spec i w), (Z.leb_spec lo (i + lo)), (Z.ltb_spec (i + lo) (lo + w));
    rewrite ?andb_true_r, ?andb_false_r; simpl; (done || lia).
Qed.

Lemma get_set_bits_other lo w v x lo' w' : 0 ≤ lo → 0 ≤ w → 0 ≤ lo' → 0 ≤ w' →
  lo + w ≤ lo' ∨ lo' + w' ≤ lo → get_bits lo' w' (set_bits lo w v x) = get_bits lo' w' x.
Proof.
  intros Hlo Hw Hlo' Hw' Hd. apply Z.bits_inj'. intros i Hi.
  rewrite !testbit_get_bits, testbit_set_bits by lia.
  destruct (Z.ltb_spec i w'); simpl; [|done].
  destruct (Z.leb_spec lo (i + lo')), (Z.ltb_spec (i + lo') (lo + w)); simpl; (done || lia).
Qed.

Lemma set_bits_range lo w v x n : 0 ≤ lo → 0 ≤ w → lo + w ≤ n → 0 ≤ x < 2 ^ n →
  0 ≤ set_bits lo w v x < 2 ^ n.
Proof.
  intros Hlo Hw Hn Hx.
  assert (0 ≤ set_bits lo w v x) as H0.
  { unfold set_bits. apply Z.lor_nonneg. split.
    - apply Z.ldiff_nonneg. lia.
    - apply Z.shiftl_nonneg, Z.land_nonneg. right. pose proof (Z.ones_equiv w).
      pose proof (pow2_pos w Hw). lia. }
  split; [done|]. destruct (decide (set_bits lo w v x = 0)) as [->|Hne]; [lia|].
  apply Z.log2_lt_pow2; [lia|]. destruct (Z.lt_ge_cases (Z.log2 (set_bits lo w v x)) n) as [|Hge]; [done|].
  pose proof (Z.bit_log2 (set_bits lo w v x) ltac:(lia)) as Hb.
  pose proof (Z.log2_nonneg (set_bits lo w v x)).
  rewrite testbit_set_bits in Hb by lia.
  destruct (Z.leb_spec lo (Z.log2 (set_bits lo w v x))), (Z.ltb_spec (Z.log2 (set_bits lo w v x)) (lo + w));
    simpl in Hb; try lia; by rewrite testbit_above with (w := n) in Hb by lia.
Qed.

Lemma set_set_bits lo w v v' x : 0 ≤ lo → 0 ≤ w →
  set_bits lo w v (set_bits lo w v' x) = set_bits lo w v x.
Proof.
  intros Hlo Hw. apply Z.bits_inj'. intros i Hi. rewrite !testbit_set_bits by lia.
  by destruct ((lo <=? i) && (i <? lo + w)).
Qed.

Lemma set_bits_comm lo w v lo' w' v' x : 0 ≤ lo → 0 ≤ w → 0 ≤ lo' → 0 ≤ w' →
  lo + w ≤ lo' ∨ lo' + w' ≤ lo →
  set_bits lo w v (set_bits lo' w' v' x) = set_bits lo' w' v' (set_bits lo w v x).
Proof.
  intros Hlo Hw Hlo' Hw' Hd. apply Z.bits_inj'. intros i Hi. rewrite !testbit_set_bits by lia.
  destruct (Z.leb_spec lo i), (Z.ltb_spec i (lo + w)), (Z.leb_spec lo' i), (Z.ltb_spec i (lo' + w'));
    simpl; (done || lia).
Qed.

(** ** Counting the values of a finite map

    The invariants of the lock protocols count the threads in a state. *)

Section count.
Context `{Countable K} {V : Type} (P : V → Prop) `{∀ v, Decision (P v)}.

Definition count (m : gmap K V) : nat := size (filter (λ kv, P kv.2) m).

Lemma count_empty : count ∅ = 0%nat.
Proof. unfold count. by rewrite map_filter_empty, map_size_empty. Qed.

Lemma count_insert_None m k v : m !! k = None →
  count (<[k := v]> m) = (if decide (P v) then S (count m) else count m).
Proof.
  intros Hk. unfold count. rewrite map_filter_insert. simpl. case_decide.
  - rewrite map_size_insert_None; [done|]. apply map_lookup_filter_None. by left.
  - by rewrite delete_id.
Qed.

Lemma count_delete m k v : m !! k = Some v →
  count m = (if decide (P v) then S (count (delete k m)) else count (delete k m)).
Proof.
  intros Hk. rewrite <- (insert_id m k v Hk) at 1. rewrite <- insert_delete_eq.
  apply count_insert_None, lookup_delete_eq.
Qed.

(** Moving one key from value [v] to [v'] shifts the count accordingly. *)
Lemma count_insert m k v v' : m !! k = Some v →
  ((if decide (P v) then 1 else 0) + count (<[k := v']> m) =
   (if decide (P v') then 1 else 0) + count m)%nat.
Proof.
  intros Hk. rewrite <- (insert_delete_eq m).
  rewrite (count_insert_None (delete k m)) by apply lookup_delete_eq.
  rewrite (count_delete m k v Hk). repeat case_decide; lia.
Qed.

Lemma count_pos m k v : m !! k = Some v → P v → (0 < count m)%nat.
Proof. intros Hk Hv. rewrite (count_delete m k v Hk), decide_True by done. lia. Qed.

Lemma count_two m k1 k2 v1 v2 : k1 ≠ k2 →
  m !! k1 = Some v1 → m !! k2 = Some v2 → P v1 → P v2 → (1 < count m)%nat.
Proof.
  intros Hne H1 H2 HP1 HP2. rewrite (count_delete m k1 v1 H1), decide_True by done.
  assert (0 < count (delete k1 m))%nat; [|lia].
  eapply (count_pos _ k2); [|done]. by rewrite lookup_delete_ne.
Qed.

Lemma count_none m : (∀ k v, m !! k = Some v → ¬ P v) → count m = 0%nat.
Proof.
  intros Hm. unfold count. apply map_size_empty_iff, map_empty. intros k.
  apply map_lookup_filter_None. right. naive_solver.
Qed.

Lemma count_pos_inv m : (0 < count m)%nat → ∃ k v, m !! k = Some v ∧ P v.
Proof.
  intros Hc. destruct (map_choose (filter (λ kv, P kv.2) m)) as (k & v & Hk).
  { intros E. unfold count in Hc. rewrite E, map_size_empty in Hc. lia. }
  apply map_lookup_filter_Some in Hk. naive_solver.
Qed.
End count.

Lemma count_mono `{Countable K} {V} (P Q : V → Prop) `{∀ v, Decision (P v)} `{∀ v, Decision (Q v)}
    (m : gmap K V) : (∀ v, P v → Q v) → (count P m ≤ count Q m)%nat.
Proof.
  intros HPQ. induction m as [|k v m Hk IH] using map_ind.
  - by rewrite !count_empty.
  - rewrite !count_insert_None by done. repeat case_decide; try lia. naive_solver.
Qed.

(** A duplicate-free list of numbers below [n] has at most [n] elements. *)
(** ** Sums over a finite map *)

Section msum.
Context `{Countable K} {V : Type} (f : V → Z).

Definition msum (m : gmap K V) : Z := map_fold (λ _ v acc, f v + acc) 0 m.

Lemma msum_empty : msum ∅ = 0.
Proof. done. Qed.

Lemma msum_insert m k v : m !! k = None → msum (<[k := v]> m) = f v + msum m.
Proof.
  intros Hk. unfold msum. rewrite map_fold_insert_L; [done| |done].
  intros. lia.
Qed.

Lemma msum_delete m k v : m !! k = Some v → msum m = f v + msum (delete k m).
Proof.
  intros Hk. rewrite <- (insert_delete_id m k v Hk) at 1.
  apply msum_insert, lookup_delete_eq.
Qed.
End msum.

Lemma msum_le `{Countable K} {V} (f g : V → Z) (m : gmap K V) :
  (∀ k v, m !! k = Some v → 0 ≤ f v ≤ g v) → 0 ≤ msum f m ≤ msum g m.
Proof.
  induction m as [|k v m Hk IH] using map_ind; intros Hf; [by rewrite !msum_empty|].
  rewrite !msum_insert by done.
  pose proof (Hf k v (lookup_insert_eq _ _ _)).
  assert (0 ≤ msum f m ≤ msum g m); [|lia].
  apply IH. intros k' v' Hk'. apply (Hf k'). rewrite lookup_insert_ne; congruence.
Qed.

(** Distinct keys of a map are no more than its size. *)
Lemma NoDup_keys_size `{Countable K} {V} (m : gmap K V) (l : list K) :
  NoDup l → (∀ k, k ∈ l → is_Some (m !! k)) → (length l ≤ size m)%nat.
Proof.
  intros Hnd Hl. rewrite <- (size_list_to_set (C := gset K)), <- size_dom by done.
  apply subseteq_size. intros k Hk%elem_of_list_to_set. by apply elem_of_dom, Hl.
Qed.

Lemma NoDup_bounded_length (q : list nat) n :
  NoDup q → (∀ τ, τ ∈ q → (τ < n)%nat) → (length q ≤ n)%nat.
Proof.
  intros Hq Hn. rewrite <- (length_seq n 0). apply submseteq_length, NoDup_submseteq; [done|].
  intros τ Hτ. apply elem_of_seq. specialize (Hn τ Hτ). lia.
Qed.
