(* ===== verification/Bytes.v ===== *)
(** * Bytes and strings

    What the kernel uses of Rust's byte slices and strings: little-endian
    integers, ranges of a slice, UTF-8, and the number formatting and parsing
    of the standard library.  A byte is a [Z] in [0, 256); a [str] is the list
    of its UTF-8 bytes.  Positions in a slice are [nat]: a slice has at most
    [isize::MAX] bytes, so that a position plus a length of the source does
    not wrap.

    The last section is [KernelPtr48] of [klib/src/strange.rs]. *)

From Stdlib Require String Ascii.
From S2P Require Import Prelude.
Export String.StringSyntax.
Delimit Scope string_scope with string.

Definition byte_ok (b : Z) : Prop := 0 ≤ b < 256.
#[global] Instance byte_ok_dec b : Decision (byte_ok b).
Proof. unfold byte_ok. apply _. Defined.
Abbreviation bytes_ok := (Forall byte_ok).
Abbreviation str := (list Z) (only parsing).

(** ** Little-endian integers *)

(** [uN::from_le_bytes] and [to_le_bytes]. *)
Fixpoint from_le (l : list Z) : Z :=
  match l with
  | [] => 0
  | b :: l' => b + 256 * from_le l'
  end.
Fixpoint to_le (n : nat) (x : Z) : list Z :=
  match n with
  | O => []
  | S n' => x mod 256 :: to_le n' (x / 256)
  end.

Lemma length_to_le n x : length (to_le n x) = n.
Proof. revert x. induction n as [|n IH]; intros x; cbn; [done|by rewrite IH]. Qed.

Lemma to_le_ok n x : bytes_ok (to_le n x).
Proof. revert x. induction n as [|n IH]; intros x; constructor; [by apply Z.mod_pos_bound|apply IH]. Qed.

Lemma pow256_S n : 2 ^ (8 * Z.of_nat (S n)) = 256 * 2 ^ (8 * Z.of_nat n).
Proof. replace (8 * Z.of_nat (S n)) with (8 + 8 * Z.of_nat n) by lia. by rewrite Z.pow_add_r by lia. Qed.

Lemma from_le_range l : bytes_ok l → 0 ≤ from_le l < 2 ^ (8 * Z.of_nat (length l)).
Proof.
  induction 1 as [|b l Hb Hl IH]; [done|]. cbn [from_le length]. rewrite pow256_S. unfold byte_ok in Hb. lia.
Qed.

Lemma from_to_le n x : 0 ≤ x < 2 ^ (8 * Z.of_nat n) → from_le (to_le n x) = x.
Proof.
  revert x. induction n as [|n IH]; intros x Hx; [change (2 ^ (8 * Z.of_nat 0)) with 1 in Hx; cbn; lia|].
  rewrite pow256_S in Hx. cbn [to_le from_le]. rewrite IH; Z.div_mod_to_equations; lia.
Qed.

Lemma to_from_le l : bytes_ok l → to_le (length l) (from_le l) = l.
Proof.
  induction 1 as [|b l Hb Hl IH]; [done|]. cbn [length from_le to_le]. unfold byte_ok in Hb.
  replace (b + 256 * from_le l) with (b + from_le l * 256) by lia.
  rewrite Z.mod_add, Z.div_add by done. by rewrite Z.mod_small, Z.div_small, Z.add_0_l, IH by lia.
Qed.

Lemma from_le_app l k : from_le (l ++ k) = from_le l + 2 ^ (8 * Z.of_nat (length l)) * from_le k.
Proof.
  induction l as [|b l IH]; [cbn; lia|]. cbn [app from_le length]. rewrite IH, pow256_S. lia.
Qed.

(** ** Ranges *)

(** [slice.get(a..b)], [slice.get(a..)] and [&slice[a..b]]. *)
Definition get_range {A} (l : list A) (a b : nat) : option (list A) :=
  if decide (a ≤ b ∧ b ≤ length l)%nat then Some (take (b - a) (drop a l)) else None.
Definition get_from {A} (l : list A) (a : nat) : option (list A) := get_range l a (length l).

Lemma get_range_some {A} (l : list A) a b k : get_range l a b = Some k → length k = (b - a)%nat ∧ (a ≤ b ≤ length l)%nat.
Proof. unfold get_range. case_decide; [|done]. intros [= <-]. rewrite length_take, length_drop. lia. Qed.

Lemma get_range_ok {A} (l : list A) a b : (a ≤ b)%nat → (b ≤ length l)%nat → get_range l a b = Some (take (b - a) (drop a l)).
Proof. intros. unfold get_range. by rewrite decide_True. Qed.

Lemma get_range_app {A} (pre k post : list A) : get_range (pre ++ k ++ post) (length pre) (length pre + length k) = Some k.
Proof.
  rewrite get_range_ok by (rewrite ?length_app; lia). rewrite drop_app_length.
  replace (length pre + length k - length pre)%nat with (length k) by lia. by rewrite take_app_length.
Qed.

(** [bytes_ok] of a part. *)
Lemma get_range_bytes l a b k : bytes_ok l → get_range l a b = Some k → bytes_ok k.
Proof. unfold get_range. case_decide; [|done]. intros Hb [= <-]. by apply Forall_take, Forall_drop. Qed.

(** ** UTF-8 *)

Definition cont (b : Z) : bool := (0x80 <=? b) && (b <=? 0xBF).
Definition within (lo hi b : Z) : bool := (lo <=? b) && (b <=? hi).

(** [core::str::from_utf8(..).is_ok()]: the well-formed sequences of the
    Unicode standard. *)
Fixpoint utf8_valid (l : list Z) : bool :=
  match l with
  | [] => true
  | b :: l1 =>
      if b <? 0x80 then utf8_valid l1
      else match l1 with
      | [] => false
      | c1 :: l2 =>
          if within 0xC2 0xDF b then cont c1 && utf8_valid l2
          else match l2 with
          | [] => false
          | c2 :: l3 =>
              if (b =? 0xE0) then within 0xA0 0xBF c1 && cont c2 && utf8_valid l3
              else if within 0xE1 0xEC b || within 0xEE 0xEF b then cont c1 && cont c2 && utf8_valid l3
              else if b =? 0xED then within 0x80 0x9F c1 && cont c2 && utf8_valid l3
              else match l3 with
              | [] => false
              | c3 :: l4 =>
                  (if b =? 0xF0 then within 0x90 0xBF c1
                   else if within 0xF1 0xF3 b then cont c1
                   else if b =? 0xF4 then within 0x80 0x8F c1 else false)
                  && cont c2 && cont c3 && utf8_valid l4
              end
          end
      end
  end.

Lemma ascii_utf8 l : Forall (λ b, 0 ≤ b < 0x80) l → utf8_valid l = true.
Proof. induction 1 as [|b l Hb Hl IH]; [done|]. cbn [utf8_valid]. by rewrite (proj2 (Z.ltb_lt _ _)) by lia. Qed.

(** ** Numbers as text *)

(** [{:04X}] of a [u16]. *)
Definition hex_digit (d : Z) : Z := if d <? 10 then 48 + d else 55 + d.
Definition hex4 (p : Z) : str := (λ i, hex_digit (Z.shiftr p (4 * i) mod 16)) <$> [3; 2; 1; 0].

(** [str::parse::<u64>().ok()]: an optional [+], at least one digit, no
    overflow. *)
Fixpoint parse_digits (acc : Z) (l : str) : option Z :=
  match l with
  | [] => Some acc
  | b :: l' =>
      if within 48 57 b then
        let acc' := acc * 10 + (b - 48) in
        if acc' <? 2 ^ 64 then parse_digits acc' l' else None
      else None
  end.
Definition parse_u64 (l : str) : option Z :=
  match l with
  | [] => None
  | b :: l' => if b =? 43 then match l' with [] => None | _ => parse_digits 0 l' end else parse_digits 0 l
  end.

(** ** Text *)

(** [ends_with], [starts_with] and [trim_start_matches] of a character. *)
Definition ends_with (l suffix : str) : bool := bool_decide (suffix `suffix_of` l).
Definition starts_with (l prefix : str) : bool := bool_decide (prefix `prefix_of` l).
Fixpoint trim_start (c : Z) (l : str) : str :=
  match l with
  | b :: l' => if b =? c then trim_start c l' else l
  | [] => []
  end.

(** ASCII text in the source. *)
Fixpoint ascii (s : String.string) : str :=
  match s with
  | String.EmptyString => []
  | String.String a s' => Z.of_N (Ascii.N_of_ascii a) :: ascii s'
  end.

(** ** 48-bit function pointers *)

Module KernelPtr48.

Record t := { bytes : list Z }.

Inductive Error := Ineligible.

Definition new (f : Z) : result Error t :=
  let bytes := to_le 8 f in
  match get_range bytes 6 8 with
  | None => Err Ineligible
  | Some top_bytes =>
      if negb (from_le top_bytes =? 0xFFFF) then Err Ineligible
      else Ok {| bytes := take 6 bytes |}
  end.

Definition get (p : t) : Z := from_le (bytes p ++ [0xFF; 0xFF]).

(** [new] accepts exactly the addresses whose top 16 bits are set, and [get]
    returns the address that was stored. *)
Theorem new_get f : 0 ≤ f < 2 ^ 64 →
  match new f with
  | Ok p => 0xFFFF * 2 ^ 48 ≤ f ∧ get p = f ∧ length (bytes p) = 6%nat
  | Err _ => f < 0xFFFF * 2 ^ 48
  end.
Proof.
  intros Hf. unfold new, get. set (l := to_le 8 f).
  assert (length l = 8%nat) as Hl by apply length_to_le. assert (bytes_ok l) as Hb by apply to_le_ok.
  assert (from_le l = f) as Ef by (by apply from_to_le).
  rewrite get_range_ok by lia. change (8 - 6)%nat with 2%nat. rewrite take_ge by (rewrite length_drop; lia).
  pose proof (from_le_app (take 6 l) (drop 6 l)) as E. rewrite take_drop, Ef, length_take, Hl in E.
  change (8 * Z.of_nat (6 `min` 8)) with 48 in E.
  assert (0 ≤ from_le (take 6 l) < 2 ^ 48) as Hlow.
  { pose proof (from_le_range (take 6 l) (Forall_take _ _ _ Hb)) as H. by rewrite length_take, Hl in H. }
  assert (0 ≤ from_le (drop 6 l) < 2 ^ 16) as Hhigh.
  { pose proof (from_le_range (drop 6 l) (Forall_drop _ _ _ Hb)) as H. by rewrite length_drop, Hl in H. }
  destruct (Z.eqb_spec (from_le (drop 6 l)) 0xFFFF) as [Et|Et]; cbn [negb bytes]; [|lia].
  rewrite from_le_app, length_take, Hl. change (8 * Z.of_nat (6 `min` 8)) with 48.
  change (from_le [0xFF; 0xFF]) with 0xFFFF. split_and!; lia.
Qed.
End KernelPtr48.
