(* ===== verification/Vm.v ===== *)
(** * Address arithmetic of the virtual-memory layer

    Models [klib/src/vm/mod.rs], the index helpers of
    [klib/src/vm/user/mod.rs] and the address translators of
    [klib/src/allocator_support.rs], [kernel/src/earlyinit/mem.rs] and
    [bootloader/src/page.rs]. *)

From S2P Require Import Prelude.

(** ** Constants

    [LEVEL3_PAGE_SIZE] is the page size of the 16 KiB translation granule;
    the comments of the source fix it (16 KiB pages, 32 MiB, 64 GiB and
    128 TiB blocks). *)

Definition LEVEL3_PAGE_SIZE : Z := 16384.
Definition TABLE_ENTRIES : Z := LEVEL3_PAGE_SIZE / 8.
Definition VA_WIDTH : Z := 48.
Definition DMAP_START : Z := wrap 64 (Z.shiftl 65535 VA_WIDTH).
Definition PAGE_INDEX_BITS : Z := trailing_zeros 64 TABLE_ENTRIES.
Definition PAGE_SHIFT : Z := 14.
Definition L2_BLOCK_SHIFT : Z := PAGE_SHIFT + PAGE_INDEX_BITS.
Definition L1_BLOCK_SHIFT : Z := L2_BLOCK_SHIFT + PAGE_INDEX_BITS.
Definition L0_BLOCK_SHIFT : Z := L1_BLOCK_SHIFT + PAGE_INDEX_BITS.
Definition PAGE_SIZE : Z := Z.shiftl 1 PAGE_SHIFT.
Definition L2_BLOCK_SIZE : Z := Z.shiftl 1 L2_BLOCK_SHIFT.
Definition L1_BLOCK_SIZE : Z := Z.shiftl 1 L1_BLOCK_SHIFT.
Definition L0_BLOCK_SIZE : Z := Z.shiftl 1 L0_BLOCK_SHIFT.
Definition PAGE_MASK : Z := PAGE_SIZE - 1.

(** ** Alignment

    [addr + align - 1] is checked: the addition overflows for addresses in
    the last [align] bytes of the address space. *)

Definition align_down (addr align : Z) : Z := Z.land addr (unot 64 (align - 1)).
Definition align_up (addr align : Z) : option Z :=
  a ← checked_add 64 addr align;
  Some (Z.land (a - 1) (unot 64 (align - 1))).

(** ** Memory regions of the boot protocol *)

Inductive MemoryRegionType :=
| Corrupt | KernelCode | KernelRwData | KernelRoData | KernelStack | Mmio
| BootloaderReclaim | FirmwareReclaim | AcpiTables | AcpiNvs | PageTable
| RtFirmwareCode | RtFirmwareData | Normal | Unknown.

#[global] Instance MemoryRegionType_eq_dec : EqDecision MemoryRegionType.
Proof. solve_decision. Defined.

Definition MemoryRegionType_from_bits (bits : Z) : MemoryRegionType :=
  match bits with
  | 1 => KernelCode
  | 2 => KernelRwData
  | 3 => KernelRoData
  | 4 => KernelStack
  | 5 => Mmio
  | 6 => BootloaderReclaim
  | 7 => FirmwareReclaim
  | 8 => AcpiTables
  | 9 => AcpiNvs
  | 10 => PageTable
  | 11 => RtFirmwareCode
  | 12 => RtFirmwareData
  | 13 => Normal
  | 255 => Unknown
  | _ => Corrupt
  end.

(** The discriminants of the [repr(u8)] enum. *)
Definition MemoryRegionType_as_bits (t : MemoryRegionType) : Z :=
  match t with
  | Corrupt => 0 | KernelCode => 1 | KernelRwData => 2 | KernelRoData => 3
  | KernelStack => 4 | Mmio => 5 | BootloaderReclaim => 6 | FirmwareReclaim => 7
  | AcpiTables => 8 | AcpiNvs => 9 | PageTable => 10 | RtFirmwareCode => 11
  | RtFirmwareData => 12 | Normal => 13 | Unknown => 255
  end.

Record MemoryRegion := {
  region_base : Z;
  region_size : Z;
  region_type : MemoryRegionType
}.

Definition region_end (r : MemoryRegion) : Z := region_base r + region_size r.

Definition can_merge (self other : MemoryRegion) : bool :=
  bool_decide (region_type self = region_type other)
  && negb ((region_end self <? region_base other) || (region_end other <? region_base self)).

Definition merge (self other : MemoryRegion) : MemoryRegion :=
  let start := region_base self `min` region_base other in
  let end_ := region_end self `max` region_end other in
  {| region_base := start; region_size := end_ - start; region_type := region_type self |}.

Definition is_normal (r : MemoryRegion) : bool := bool_decide (region_type r = Normal).

Definition is_usable (r : MemoryRegion) : bool :=
  match region_type r with
  | Normal | BootloaderReclaim | FirmwareReclaim => true
  | _ => false
  end.

(** ** The direct map *)

Definition is_kernel_address (addr : Z) : bool := Z.land (Z.shiftr addr 48) 1 =? 1.

Definition phys_addr_to_dmap (phys_addr : Z) : Z :=
  if is_kernel_address phys_addr then phys_addr else Z.lor phys_addr DMAP_START.

Definition dmap_addr_to_phys (dmap_addr : Z) : Z := Z.land dmap_addr (unot 64 DMAP_START).

Definition bsize_for_level (level : Z) : Z :=
  let exp := Z.max 0 (3 - level) in
  PAGE_SIZE * TABLE_ENTRIES ^ exp.

(** ** Index arithmetic of the user page-table walker (level 0 is the leaf) *)

Definition entry_index (addr level : Z) : Z :=
  Z.land (Z.shiftr addr (PAGE_SHIFT + level * PAGE_INDEX_BITS)) (TABLE_ENTRIES - 1).

Definition entry_cover (level : Z) : Z := Z.shiftl 1 (PAGE_SHIFT + level * PAGE_INDEX_BITS).

(** ** Address translators

    The trait [AddressTranslator] as a class of operations; its laws are what
    the page allocator and the page-table code rely on.  The laws are stated
    for physical addresses, those below [2^VA_WIDTH]. *)

Class AddressTranslator := {
  phys_to_dmap : Z → Z;
  dmap_to_phys : Z → Z
}.

Definition phys_addr (p : Z) : Prop := 0 ≤ p < 2 ^ VA_WIDTH.

Class AddressTranslatorLaws (T : AddressTranslator) := {
  dmap_phys_dmap p : phys_addr p → dmap_to_phys (phys_to_dmap p) = p;
  dmap_phys_id p : phys_addr p → dmap_to_phys p = p;
  phys_dmap_add p i : phys_addr p → phys_addr (p + i) →
    phys_to_dmap (p + i) = phys_to_dmap p + i;
  phys_dmap_range p : phys_addr p → 0 ≤ phys_to_dmap p < 2 ^ 64;
  phys_dmap_aligned p : phys_addr p → (PAGE_SIZE | p) → (PAGE_SIZE | phys_to_dmap p)
}.

Definition KernelAddressTranslator : AddressTranslator := {|
  phys_to_dmap := phys_addr_to_dmap;
  dmap_to_phys := dmap_addr_to_phys
|}.

(** [IdentityTranslator] of the early kernel and [UefiAddressTranslator] of
    the boot loader. *)
Definition IdentityTranslator : AddressTranslator := {|
  phys_to_dmap := λ phys, phys;
  dmap_to_phys := λ virt, virt
|}.
Definition UefiAddressTranslator : AddressTranslator := {|
  phys_to_dmap := λ phys, phys;
  dmap_to_phys := λ virt, virt
|}.

(** ** Lemmas *)

Lemma PAGE_SIZE_eq : PAGE_SIZE = 2 ^ 14.
Proof. done. Qed.

Lemma align_down_eq addr k : 0 ≤ addr < 2 ^ 64 → 0 ≤ k →
  align_down addr (2 ^ k) = 2 ^ k * (addr / 2 ^ k).
Proof. intros ??. unfold align_down. by rewrite land_unot, ldiff_mask_eq by lia. Qed.

Lemma align_up_eq addr k : 0 ≤ addr → 0 ≤ k →
  align_up addr (2 ^ k) =
    if addr + 2 ^ k <? 2 ^ 64 then Some (2 ^ k * ((addr + 2 ^ k - 1) / 2 ^ k)) else None.
Proof.
  intros Ha Hk. unfold align_up, checked_add.
  destruct (Z.ltb_spec (addr + 2 ^ k) (2 ^ 64)); [|done]; simpl.
  pose proof (pow2_pos k Hk). rewrite land_unot, ldiff_mask_eq by lia. done.
Qed.

Lemma mod_PAGE_SIZE_mask x : Z.land x PAGE_MASK = x mod PAGE_SIZE.
Proof. apply (land_mask_eq x 14). lia. Qed.

Lemma is_kernel_address_testbit a : is_kernel_address a = Z.testbit a 48.
Proof.
  unfold is_kernel_address. change 1 with (Z.ones 1) at 1.
  rewrite Z.land_ones by lia. change (2 ^ 1) with 2.
  rewrite <- Z.bit0_mod, Z.shiftr_spec by lia.
  by destruct (Z.testbit a _).
Qed.

Lemma phys_not_kernel p : phys_addr p → is_kernel_address p = false.
Proof.
  intros Hp. rewrite is_kernel_address_testbit. by apply (testbit_above _ VA_WIDTH).
Qed.

Lemma DMAP_START_spec i : 0 ≤ i →
  Z.testbit DMAP_START i = bool_decide (48 ≤ i < 64).
Proof.
  intros Hi. change DMAP_START with (Z.shiftl (Z.ones 16) 48).
  rewrite Z.shiftl_spec by lia. destruct (decide (i < 48)).
  - rewrite Z.testbit_neg_r, bool_decide_eq_false_2 by lia. done.
  - destruct (decide (i < 64)).
    + rewrite Z.ones_spec_low, bool_decide_eq_true_2 by lia. done.
    + rewrite Z.ones_spec_high, bool_decide_eq_false_2 by lia. done.
Qed.

Lemma dmap_addr_to_phys_mod a : 0 ≤ a < 2 ^ 64 → dmap_addr_to_phys a = a mod 2 ^ 48.
Proof.
  intros Ha. unfold dmap_addr_to_phys. rewrite <- Z.land_ones by lia.
  apply Z.bits_inj'. intros i Hi.
  rewrite !Z.land_spec, unot_spec, DMAP_START_spec by lia.
  destruct (decide (i < 48)).
  - rewrite Z.ones_spec_low, decide_True, bool_decide_eq_false_2 by lia. done.
  - rewrite Z.ones_spec_high by lia. case_decide.
    + rewrite bool_decide_eq_true_2 by lia. done.
    + by rewrite (testbit_above a 64) by lia.
Qed.

Lemma phys_addr_to_dmap_add p : phys_addr p → phys_addr_to_dmap p = p + DMAP_START.
Proof.
  intros Hp. unfold phys_addr_to_dmap. rewrite phys_not_kernel by done.
  change DMAP_START with (Z.shiftl 65535 48) at 1.
  rewrite lor_shiftl_add by (done || lia). done.
Qed.

Lemma dmap_idempotent p : phys_addr p →
  phys_addr_to_dmap (phys_addr_to_dmap p) = phys_addr_to_dmap p.
Proof.
  intros Hp. assert (is_kernel_address (phys_addr_to_dmap p) = true) as Hk.
  { unfold phys_addr_to_dmap. rewrite (phys_not_kernel p Hp), is_kernel_address_testbit, Z.lor_spec.
    by rewrite DMAP_START_spec, orb_true_r by lia. }
  set (x := phys_addr_to_dmap p) in *. unfold phys_addr_to_dmap. by rewrite Hk.
Qed.

#[global] Instance KernelAddressTranslatorLaws :
  AddressTranslatorLaws KernelAddressTranslator.
Proof.
  assert (DMAP_START = 65535 * 2 ^ 48) as HD by done.
  split; unfold phys_to_dmap, dmap_to_phys, KernelAddressTranslator; intros p;
    [intros Hp|intros Hp|intros i Hp Hi|intros Hp|intros Hp Hal]; pose proof Hp as [??]; unfold VA_WIDTH in *.
  - rewrite phys_addr_to_dmap_add, dmap_addr_to_phys_mod by (done || lia).
    rewrite HD, Z_mod_plus_full. by apply Z.mod_small.
  - rewrite dmap_addr_to_phys_mod by lia. by apply Z.mod_small.
  - rewrite !phys_addr_to_dmap_add by done. lia.
  - rewrite phys_addr_to_dmap_add, HD by done. lia.
  - rewrite phys_addr_to_dmap_add by done. apply Z.divide_add_r; [done|]. by exists 1125882726973440%Z.
Qed.

#[global] Instance IdentityTranslatorLaws : AddressTranslatorLaws IdentityTranslator.
Proof. split; unfold phys_addr, VA_WIDTH; simpl; (lia || done). Qed.

#[global] Instance UefiAddressTranslatorLaws : AddressTranslatorLaws UefiAddressTranslator.
Proof. split; unfold phys_addr, VA_WIDTH; simpl; (lia || done). Qed.

(** What clients derive from the translator laws. *)
Section translator.
Context {T : AddressTranslator} {TL : AddressTranslatorLaws T}.

Lemma phys_to_dmap_inj p q : phys_addr p → phys_addr q →
  phys_to_dmap p = phys_to_dmap q → p = q.
Proof.
  intros Hp Hq E. rewrite <- (dmap_phys_dmap p), <- (dmap_phys_dmap q) by done.
  by rewrite E.
Qed.

Lemma phys_to_dmap_nonzero p : phys_addr p → p ≠ 0 → phys_to_dmap p ≠ 0.
Proof.
  intros Hp H0 E. apply H0. rewrite <- (dmap_phys_dmap p) by done.
  rewrite E. apply dmap_phys_id. by split.
Qed.
End translator.

Lemma entry_index_div addr level : 0 ≤ addr → 0 ≤ level →
  entry_index addr level = addr / 2 ^ (14 + level * 11) mod 2 ^ 11.
Proof.
  intros. unfold entry_index. change (TABLE_ENTRIES - 1) with (2 ^ 11 - 1).
  rewrite land_mask_eq, Z.shiftr_div_pow2 by (unfold PAGE_SHIFT; change PAGE_INDEX_BITS with 11; lia).
  done.
Qed.

(** ** Properties *)

(** [align_up] returns the least multiple of a power-of-two alignment
    that is not below the address, and it panics (addition overflow) exactly
    when [addr + align] does not fit in a [usize]. *)
Theorem align_up_spec addr k : 0 ≤ addr < 2 ^ 64 → 0 ≤ k < 64 →
  match align_up addr (2 ^ k) with
  | Some r => (2 ^ k | r) ∧ addr ≤ r < addr + 2 ^ k ∧ r < 2 ^ 64
  | None => 2 ^ 64 ≤ addr + 2 ^ k
  end.
Proof.
  intros Ha Hk. rewrite align_up_eq by lia. pose proof (pow2_pos k ltac:(lia)).
  destruct (Z.ltb_spec (addr + 2 ^ k) (2 ^ 64)); [|done].
  split; [apply Z.divide_factor_l|].
  pose proof (Z.div_mod (addr + 2 ^ k - 1) (2 ^ k)).
  pose proof (Z.mod_pos_bound (addr + 2 ^ k - 1) (2 ^ k)). lia.
Qed.

Lemma align_up_spec_witness :
  match align_up 1000 (2 ^ 14) with
  | Some r => (2 ^ 14 | r) ∧ 1000 ≤ r < 1000 + 2 ^ 14 ∧ r < 2 ^ 64
  | None => 2 ^ 64 ≤ 1000 + 2 ^ 14
  end.
Proof. apply (align_up_spec 1000 14); lia. Defined.

(** the indices the page-table walker computes at the four levels,
    weighted by the memory each level's entry covers, decompose every 48-bit
    virtual address: no two pages share all four indices, and the level-3
    index of such an address is 0 or 1. *)
Theorem entry_index_decompose va : phys_addr va →
  va = entry_index va 3 * entry_cover 3 + entry_index va 2 * entry_cover 2
       + entry_index va 1 * entry_cover 1 + entry_index va 0 * entry_cover 0
       + va mod PAGE_SIZE
  ∧ 0 ≤ entry_index va 3 < 2.
Proof.
  intros [H0 H1]. unfold VA_WIDTH in *. rewrite !entry_index_div by lia.
  change (entry_cover 3) with (2 ^ 47). change (entry_cover 2) with (2 ^ 36).
  change (entry_cover 1) with (2 ^ 25). change (entry_cover 0) with (2 ^ 14).
  change PAGE_SIZE with (2 ^ 14). simpl Z.add. simpl Z.mul.
  Z.div_mod_to_equations. lia.
Qed.

Lemma entry_index_decompose_witness :
  0x123456789abc =
    entry_index 0x123456789abc 3 * entry_cover 3 + entry_index 0x123456789abc 2 * entry_cover 2
    + entry_index 0x123456789abc 1 * entry_cover 1 + entry_index 0x123456789abc 0 * entry_cover 0
    + 0x123456789abc mod PAGE_SIZE
  ∧ 0 ≤ entry_index 0x123456789abc 3 < 2.
Proof. apply entry_index_decompose. by split. Defined.

(** [MemoryRegion::merge] of two regions that [can_merge] covers exactly
    the bytes of the two regions, and keeps their type. *)
Theorem merge_covers a b x : 0 ≤ region_size a → 0 ≤ region_size b →
  can_merge a b = true →
  region_type (merge a b) = region_type a ∧ region_type a = region_type b ∧
  (region_base (merge a b) ≤ x < region_end (merge a b) ↔
   region_base a ≤ x < region_end a ∨ region_base b ≤ x < region_end b).
Proof.
  unfold can_merge, merge, region_end. destruct a as [ba sa ta], b as [bb sb tb]; simpl.
  rewrite andb_true_iff, bool_decide_eq_true, negb_true_iff, orb_false_iff, !Z.ltb_ge.
  intros. split; [done|]. split; [tauto|]. lia.
Qed.

Lemma merge_covers_witness :
  let a := {| region_base := 0x4000; region_size := 0x4000; region_type := Normal |} in
  let b := {| region_base := 0x8000; region_size := 0x1000; region_type := Normal |} in
  region_type (merge a b) = Normal ∧ Normal = Normal ∧
  (region_base (merge a b) ≤ 0x8500 < region_end (merge a b) ↔
   region_base a ≤ 0x8500 < region_end a ∨ region_base b ≤ 0x8500 < region_end b).
Proof. intros a b. apply (merge_covers a b 0x8500); done. Defined.

(** the byte encoding of region types round-trips, and decoding any
    byte and encoding it again yields the byte or the [Corrupt] marker. *)
Theorem region_type_roundtrip t b :
  MemoryRegionType_from_bits (MemoryRegionType_as_bits t) = t ∧
  (MemoryRegionType_as_bits (MemoryRegionType_from_bits b) = b ∨
   MemoryRegionType_from_bits b = Corrupt).
Proof.
  split; [by destruct t|]. unfold MemoryRegionType_from_bits.
  repeat case_match; simpl; tauto.
Qed.
