(* ===== verification/Dll.v ===== *)
(** * Intrusive doubly-linked lists

    The buddy allocator and the slab allocator keep their blocks and slab
    headers in doubly-linked lists whose nodes live in the managed memory.
    This file is the shared theory: a node type with [next] and [prev]
    pointers, a store from physical addresses to nodes, and an embedding of
    addresses into the pointers the program stores (the identity before the
    direct map is entered, [phys_to_dmap] after).  The null pointer is 0. *)

From S2P Require Import Prelude.

Class DllNode (N : Type) := {
  node_next : N → Z;
  node_prev : N → Z;
  node_set_next : Z → N → N;
  node_set_prev : Z → N → N;
  node_next_set_next v n : node_next (node_set_next v n) = v;
  node_prev_set_next v n : node_prev (node_set_next v n) = node_prev n;
  node_next_set_prev v n : node_next (node_set_prev v n) = node_next n;
  node_prev_set_prev v n : node_prev (node_set_prev v n) = v
}.

Section dll.
Context {Nd : Type} `{DllNode Nd} (e : Z → Z).
Implicit Types (m : gmap Z Nd) (L : list Z).

(** [dseg m pp p q qn L]: the nodes at [L] form a segment whose first node
    is pointed to by [p] and has [prev = pp], and whose last node is pointed
    to by [q] and has [next = qn]. *)
Fixpoint dseg m (pp p q qn : Z) L : Prop :=
  match L with
  | [] => p = qn ∧ pp = q
  | a :: L' => p = e a ∧ ∃ n, m !! a = Some n ∧ node_prev n = pp ∧
                 dseg m (e a) (node_next n) q qn L'
  end.

(** A whole list: no predecessor, no successor. *)
Definition dll m (head : Z) L : Prop := ∃ q, dseg m 0 head q 0 L.

Lemma dseg_app m pp p q qn L1 L2 :
  dseg m pp p q qn (L1 ++ L2) ↔ ∃ j jn, dseg m pp p j jn L1 ∧ dseg m j jn q qn L2.
Proof.
  revert pp p. induction L1 as [|a L1 IH]; intros pp p; simpl.
  - split; [intros; eauto|]. by intros (? & ? & [-> ->] & ?).
  - split.
    + intros (-> & n & Hn & Hp & (j & jn & ? & ?)%IH). exists j, jn. eauto 10.
    + intros (j & jn & (-> & n & ? & ? & ?) & ?). split; [done|].
      exists n. repeat split; try done. apply IH. eauto.
Qed.

Lemma dseg_frame m m' pp p q qn L :
  (∀ a, a ∈ L → m' !! a = m !! a) → dseg m pp p q qn L → dseg m' pp p q qn L.
Proof.
  revert pp p. induction L as [|a L IH]; intros pp p Hm; simpl; [done|].
  intros (-> & n & Hn & Hp & Hs). split; [done|]. exists n.
  rewrite Hm by set_solver. repeat split; try done. apply IH; [|done]. set_solver.
Qed.

Lemma dseg_insert_ne m a n pp p q qn L :
  a ∉ L → dseg m pp p q qn L → dseg (<[a := n]> m) pp p q qn L.
Proof. intros Ha. apply dseg_frame. intros b Hb. rewrite lookup_insert_ne; set_solver. Qed.

Lemma dll_frame m m' h L :
  (∀ a, a ∈ L → m' !! a = m !! a) → dll m h L → dll m' h L.
Proof. intros ? [q ?]. exists q. eauto using dseg_frame. Qed.

(** Changes to a node that keep its links keep the lists it is in. *)
Lemma dseg_alter m f b pp p q qn L :
  (∀ n, node_next (f n) = node_next n ∧ node_prev (f n) = node_prev n) →
  dseg m pp p q qn L → dseg (alter f b m) pp p q qn L.
Proof.
  intros Hf. revert pp p. induction L as [|a L IH]; intros pp p; [done|]. cbn [dseg].
  intros (-> & n & Hn & Hp & Hs). split; [done|]. destruct (Hf n) as [Hfn Hfp].
  destruct (decide (a = b)) as [->|Hne].
  - exists (f n). rewrite lookup_alter_eq, Hn, Hfn, Hfp. auto.
  - exists n. rewrite lookup_alter_ne by done. auto.
Qed.

Lemma dll_alter m f b h L :
  (∀ n, node_next (f n) = node_next n ∧ node_prev (f n) = node_prev n) →
  dll m h L → dll (alter f b m) h L.
Proof. intros Hf [q Hs]. exists q. by apply dseg_alter. Qed.

(** Re-targeting the ends of a segment. *)
Lemma dseg_set_first_prev m pp pp' p q qn a n L :
  a ∉ L → m !! a = Some n → dseg m pp p q qn (a :: L) →
  dseg (<[a := node_set_prev pp' n]> m) pp' p q qn (a :: L).
Proof.
  intros Ha Hn (-> & n' & Hn' & _ & Hs). simplify_eq. split; [done|].
  exists (node_set_prev pp' n). rewrite lookup_insert_eq, node_prev_set_prev, node_next_set_prev.
  repeat split; try done. by apply dseg_insert_ne.
Qed.

Lemma dseg_set_last_next m pp p q qn qn' a n L :
  a ∉ L → m !! a = Some n → dseg m pp p q qn (L ++ [a]) →
  dseg (<[a := node_set_next qn' n]> m) pp p q qn' (L ++ [a]) ∧ q = e a.
Proof.
  intros Ha Hn (j & jn & H1 & (-> & n' & Hn' & Hp & [Hnn <-]))%dseg_app. simplify_eq.
  split; [|done]. apply dseg_app. exists (node_prev n), (e a). split; [by apply dseg_insert_ne|].
  simpl. split; [done|]. exists (node_set_next qn' n).
  rewrite lookup_insert_eq, node_prev_set_next, node_next_set_next. done.
Qed.

(** Every node of a list is in the store, and the head is null only for the
    empty list when addresses embed to non-null pointers. *)
Lemma dseg_lookup m pp p q qn L a : a ∈ L → dseg m pp p q qn L → is_Some (m !! a).
Proof.
  revert pp p. induction L as [|b L IH]; intros pp p Ha; [set_solver|].
  simpl. intros (_ & n & Hn & _ & Hs). apply elem_of_cons in Ha as [->|]; eauto.
Qed.

Lemma dll_head m h L : dll m h L → h = 0 → Forall (λ a, e a ≠ 0) L → L = [].
Proof. intros [q Hs] -> HF. destruct L as [|a L]; [done|]. destruct Hs as [E _]. by inversion_clear HF. Qed.

Lemma dll_nil m h : dll m h [] → h = 0.
Proof. intros [q [-> _]]. done. Qed.

(** ** The list operations of the allocators

    [redirect o f m] updates the node at [o], if there is one. *)

Definition redirect (o : option Z) (f : Nd → Nd) m : gmap Z Nd :=
  match o with Some b => alter f b m | None => m end.

Lemma redirect_lookup_ne o f m b : o ≠ Some b → redirect o f m !! b = m !! b.
Proof. intros Hb. destruct o as [c|]; [|done]. simpl. apply lookup_alter_ne. congruence. Qed.

Lemma dseg_head m pp p q qn L : dseg m pp p q qn L → p = from_option e qn (head L).
Proof. destruct L; simpl; tauto. Qed.

Lemma dseg_last m pp p q qn L : dseg m pp p q qn L → q = from_option e pp (last L).
Proof.
  destruct L as [|a L] using rev_ind; [by intros [_ ->]|].
  intros (j & jn & _ & (_ & n & _ & _ & _ & <-))%dseg_app. by rewrite last_snoc.
Qed.

Lemma dll_head_ptr m h L : dll m h L → h = from_option e 0 (head L).
Proof. intros [q ?%dseg_head]. done. Qed.

(** A segment survives a new predecessor for its first node. *)
Lemma dseg_redirect_prev m pp pp' p q qn L :
  NoDup L → L ≠ [] → dseg m pp p q qn L →
  dseg (redirect (head L) (node_set_prev pp') m) pp' p q qn L.
Proof.
  intros HL Hne Hs. destruct L as [|a L]; [done|]. pose proof Hs as (_ & n & Hn & _).
  apply NoDup_cons in HL as [Ha _]. simpl redirect. unfold head.
  replace (alter (node_set_prev pp') a m) with (<[a := node_set_prev pp' n]> m).
  - by apply (dseg_set_first_prev _ pp).
  - apply map_eq. intros b. destruct (decide (a = b)) as [->|].
    + by rewrite lookup_insert_eq, lookup_alter_eq, Hn.
    + by rewrite lookup_insert_ne, lookup_alter_ne.
Qed.

(** ... and a new successor for its last one. *)
Lemma dseg_redirect_next m pp p q qn qn' L :
  NoDup L → L ≠ [] → dseg m pp p q qn L →
  dseg (redirect (last L) (node_set_next qn') m) pp p q qn' L.
Proof.
  intros HL Hne Hs. destruct L as [|a L] using rev_ind; [done|]. clear IHL.
  apply NoDup_app in HL as (_ & Ha & _). rewrite last_snoc. simpl.
  assert (a ∉ L) as HaL by set_solver.
  destruct (dseg_lookup m pp p q qn (L ++ [a]) a) as [n Hn]; [set_solver|done|].
  replace (alter (node_set_next qn') a m) with (<[a := node_set_next qn' n]> m).
  - by apply (dseg_set_last_next m pp p q qn).
  - apply map_eq. intros b. destruct (decide (a = b)) as [->|].
    + by rewrite lookup_insert_eq, lookup_alter_eq, Hn.
    + by rewrite lookup_insert_ne, lookup_alter_ne.
Qed.

(** Push: a new node in front, the old head's [prev] redirected to it. *)
Lemma dll_push m h L a n :
  NoDup (a :: L) → dll m h L → node_next n = h → node_prev n = 0 →
  dll (redirect (head L) (node_set_prev (e a)) (<[a := n]> m)) (e a) (a :: L).
Proof.
  intros [Ha HL]%NoDup_cons [q Hs] Hnext Hprev.
  assert (dseg (redirect (head L) (node_set_prev (e a)) (<[a := n]> m))
            (e a) h (from_option e (e a) (last L)) 0 L) as Hs'.
  { destruct (decide (L = [])) as [->|Hne]; [by destruct Hs as [-> _]|].
    rewrite (dseg_last _ _ _ _ _ _ Hs) in Hs.
    replace (from_option e (e a) (last L)) with (from_option e 0 (last L)).
    - by apply (dseg_redirect_prev _ 0), dseg_insert_ne.
    - destruct (last L) eqn:E; [done|]. by apply last_None in E. }
  eexists. simpl. split; [done|]. exists n.
  rewrite redirect_lookup_ne, lookup_insert_eq.
  - rewrite Hnext. repeat split; [done|]. exact Hs'.
  - by intros ?%head_Some_elem_of.
Qed.

(** Unlink: a node anywhere in the list is taken out by redirecting its
    neighbours, or the head pointer when it has no predecessor. *)
Lemma dll_unlink m h L1 a L2 n :
  NoDup (L1 ++ a :: L2) → dll m h (L1 ++ a :: L2) → m !! a = Some n →
  node_prev n = from_option e 0 (last L1) ∧
  node_next n = from_option e 0 (head L2) ∧
  dll (redirect (head L2) (node_set_prev (node_prev n))
         (redirect (last L1) (node_set_next (node_next n)) m))
      (if last L1 is Some _ then h else node_next n) (L1 ++ L2).
Proof.
  intros Hnd [q (j & jn & H1 & (-> & n' & Hn' & Hp & H2))%dseg_app] Hn.
  assert (n' = n) as -> by congruence. subst j.
  pose proof (dseg_last _ _ _ _ _ _ H1) as Hj. pose proof (dseg_head _ _ _ _ _ _ H2) as Hnx.
  split; [done|]. split; [done|].
  apply NoDup_app in Hnd as (Hnd1 & Hd & [Ha2 Hnd2]%NoDup_cons).
  exists (from_option e (node_prev n) (last L2)).
  apply dseg_app. exists (node_prev n), (node_next n). split.
  - apply (dseg_frame (redirect (last L1) (node_set_next (node_next n)) m)).
    + intros b Hb. apply redirect_lookup_ne. intros E%head_Some_elem_of.
      apply (Hd b); set_solver.
    + destruct (decide (L1 = [])) as [->|Hne].
      * simpl in *. destruct H1 as [_ <-]. done.
      * destruct (last L1) eqn:E; [|by apply last_None in E].
        rewrite <- E. by apply (dseg_redirect_next m 0 h _ (e a)).
  - assert (dseg (redirect (last L1) (node_set_next (node_next n)) m)
              (e a) (node_next n) q 0 L2) as H2'.
    { apply (dseg_frame m); [|done]. intros b Hb. apply redirect_lookup_ne. intros E.
      apply last_Some_elem_of in E. apply (Hd b); set_solver. }
    destruct (decide (L2 = [])) as [->|Hne].
    + destruct H2' as [E _]. simpl. done.
    + rewrite (dseg_last _ _ _ _ _ _ H2') in H2'.
      destruct (last L2) eqn:E; [|by apply last_None in E].
      by apply (dseg_redirect_prev _ (e a)).
Qed.

(** Pop: the front node leaves, its successor becomes the head. *)
Lemma dll_pop m h a L n :
  NoDup (a :: L) → dll m h (a :: L) → m !! a = Some n →
  h = e a ∧ node_prev n = 0 ∧ node_next n = from_option e 0 (head L) ∧
  dll (redirect (head L) (node_set_prev 0) m) (node_next n) L.
Proof.
  intros Hnd Hl Hn. pose proof (dll_head_ptr _ _ _ Hl) as Hh. simpl in Hh.
  destruct (dll_unlink m h [] a L n Hnd Hl Hn) as (Hp & Hnx & Hl').
  simpl in *. rewrite Hp in Hl'. done.
Qed.
End dll.
