(* ===== verification/Sync.v ===== *)
(** * Locks

    Models [klib/src/sync.rs]: [TicketLock] (and [FairSpinlock], which wraps
    it), [UnfairSpinlock] and [RwLock] as transition systems in which every
    atomic access of the source is one step of one thread; [SleepingMutex]
    is modelled in [Sched], over the scheduler.
    Threads are numbered; a thread that is not in the map of program counters
    does not exist.  Memory orderings are not modelled: steps interleave. *)

From S2P Require Import Prelude.

(** ** TicketLock *)

Module TicketLock.

Record TicketLock := { ticket : Z; users : Z }.

Definition new : TicketLock := {| ticket := 0; users := 0 |}.

(** [ticket.fetch_add(1)] (wrapping). *)
Definition take_ticket (l : TicketLock) : Z * TicketLock :=
  (ticket l, {| ticket := wrap 64 (ticket l + 1); users := users l |}).

(** The condition of the spin loop of [lock]. *)
Definition may_enter (l : TicketLock) (t : Z) : bool := users l =? t.

(** [unlock]: [users.fetch_add(1)] (wrapping). *)
Definition unlock (l : TicketLock) : TicketLock :=
  {| ticket := ticket l; users := wrap 64 (users l + 1) |}.

(** [lock] run by a CPU that nobody else interferes with: when the ticket is
    not served at once it never will be. *)
Definition lock_alone (l : TicketLock) : option TicketLock :=
  let '(t, l') := take_ticket l in if may_enter l' t then Some l' else None.

(** [FairSpinlock::steal]: takes a ticket and serves it at once. *)
Definition steal (l : TicketLock) : TicketLock :=
  let '(t, l') := take_ticket l in {| ticket := ticket l'; users := t |}.

Inductive pc := Idle | Waiting (t : Z) | Holding (t : Z).

#[global] Instance pc_eq_dec : EqDecision pc.
Proof. solve_decision. Defined.

Record config := { lk : TicketLock; pcs : gmap nat pc }.

Inductive step : config → config → Prop :=
| step_take c τ : pcs c !! τ = Some Idle →
    step c {| lk := (take_ticket (lk c)).2;
              pcs := <[τ := Waiting (take_ticket (lk c)).1]> (pcs c) |}
| step_enter c τ t : pcs c !! τ = Some (Waiting t) → may_enter (lk c) t = true →
    step c {| lk := lk c; pcs := <[τ := Holding t]> (pcs c) |}
| step_spin c τ t : pcs c !! τ = Some (Waiting t) → may_enter (lk c) t = false →
    step c c
| step_unlock c τ t : pcs c !! τ = Some (Holding t) →
    step c {| lk := unlock (lk c); pcs := <[τ := Idle]> (pcs c) |}.

(** [n] threads, none of which has touched the lock. *)
Definition initial (n : nat) : config :=
  {| lk := new; pcs := gset_to_gmap Idle (set_seq 0 n) |}.

(** The abstract lock: the queue of threads that drew a ticket, in order;
    the front thread is the one being served. *)
Definition ticket_of (p : pc) : option Z :=
  match p with Idle => None | Waiting t | Holding t => Some t end.

Record inv (n : nat) (c : config) (q : list nat) : Prop := {
  inv_dom τ : is_Some (pcs c !! τ) ↔ (τ < n)%nat;
  inv_nodup : NoDup q;
  inv_users : 0 ≤ users (lk c) < 2 ^ 64;
  inv_ticket : ticket (lk c) = wrap 64 (users (lk c) + Z.of_nat (length q));
  inv_queue k τ : q !! k = Some τ →
    ∃ p, pcs c !! τ = Some p ∧ ticket_of p = Some (wrap 64 (users (lk c) + Z.of_nat k)) ∧
         (k ≠ 0%nat → p = Waiting (wrap 64 (users (lk c) + Z.of_nat k)));
  inv_idle τ : pcs c !! τ = Some Idle ↔ (τ < n)%nat ∧ τ ∉ q
}.

Section invariant.
Context (n : nat) (Hn : Z.of_nat n < 2 ^ 64).
Implicit Types (c : config) (q : list nat).

Lemma inv_queue_bound c q : inv n c q → (length q ≤ n)%nat.
Proof.
  intros I. apply NoDup_bounded_length; [apply I|]. intros τ [k Hk]%list_elem_of_lookup.
  destruct (inv_queue _ _ _ I k τ Hk) as (p & Hp & _). apply (inv_dom _ _ _ I). by eexists.
Qed.

(** A thread that drew a ticket is in the queue, at the distance of its
    ticket from the one being served. *)
Lemma inv_position c q τ p t : inv n c q → pcs c !! τ = Some p → ticket_of p = Some t →
  ∃ k, q !! k = Some τ ∧ t = wrap 64 (users (lk c) + Z.of_nat k) ∧ (k < n)%nat ∧
       (k ≠ 0%nat → p = Waiting t).
Proof.
  intros I Hp Ht. destruct (decide (τ ∈ q)) as [[k Hk]%list_elem_of_lookup|Hq].
  - destruct (inv_queue _ _ _ I k τ Hk) as (p' & Hp' & Ht' & Hw). simplify_eq.
    exists k. pose proof (lookup_lt_Some _ _ _ Hk). pose proof (inv_queue_bound c q I).
    repeat split; [done| lia | done].
  - assert (pcs c !! τ = Some Idle) as Hi.
    { apply (inv_idle _ _ _ I). split; [|done]. apply (inv_dom _ _ _ I). by eexists. }
    by simplify_eq.
Qed.

Lemma inv_served c q τ p t : inv n c q → pcs c !! τ = Some p → ticket_of p = Some t →
  t = users (lk c) → q !! 0%nat = Some τ.
Proof.
  intros I Hp Ht Hu. destruct (inv_position c q τ p t I Hp Ht) as (k & Hk & E & Hkn & _).
  assert (Z.of_nat k = 0); [|by replace 0%nat with k by lia].
  apply (wrap_add_inj 64 (users (lk c))); [lia..|].
  rewrite <- E, Hu, Z.add_0_r. symmetry. apply wrap_small, I.
Qed.

Lemma inv_holder c q τ t : inv n c q → pcs c !! τ = Some (Holding t) →
  q !! 0%nat = Some τ ∧ t = users (lk c).
Proof.
  intros I Hp. destruct (inv_position c q τ _ t I Hp eq_refl) as (k & Hk & E & _ & Hw).
  destruct (decide (k = 0%nat)) as [->|Hk0]; [|by specialize (Hw Hk0)].
  rewrite Z.add_0_r, wrap_small in E by apply I. done.
Qed.

Lemma inv_take c q τ : inv n c q → pcs c !! τ = Some Idle →
  inv n {| lk := (take_ticket (lk c)).2;
           pcs := <[τ := Waiting (take_ticket (lk c)).1]> (pcs c) |} (q ++ [τ]).
Proof.
  intros I Hi. pose proof (proj1 (inv_idle _ _ _ I τ) Hi) as [Hτn Hτq]. split; simpl.
  - intros τ'. rewrite lookup_insert. case_decide; subst; [naive_solver|apply I].
  - apply NoDup_app. split; [apply I|]. split; [set_solver|apply NoDup_singleton].
  - apply I.
  - rewrite (inv_ticket _ _ _ I), wrap_add_l, length_app. f_equal. simpl. lia.
  - intros k τ' [Hk|[Hk E]]%lookup_app_Some.
    + rewrite lookup_insert_ne; [by apply I|]. intros <-. apply Hτq, list_elem_of_lookup. eauto.
    + assert (k - length q = 0 ∧ τ' = τ)%nat as [Hk' ->].
      { destruct (k - length q)%nat eqn:?; simplify_list_eq; done. }
      rewrite lookup_insert_eq. eexists. split; [done|]. simpl.
      rewrite (inv_ticket _ _ _ I). replace k with (length q) by lia. done.
  - intros τ'. rewrite lookup_insert. case_decide; subst; [set_solver|].
    rewrite (inv_idle _ _ _ I). set_solver.
Qed.

Lemma inv_enter c q τ t : inv n c q → pcs c !! τ = Some (Waiting t) →
  may_enter (lk c) t = true →
  inv n {| lk := lk c; pcs := <[τ := Holding t]> (pcs c) |} q.
Proof.
  intros I Hw He%Z.eqb_eq. pose proof (inv_served c q τ _ t I Hw eq_refl (eq_sym He)) as H0.
  split; simpl; [|apply I|apply I|apply I| |].
  - intros τ'. rewrite lookup_insert. case_decide; subst; [|apply I].
    rewrite <- (inv_dom _ _ _ I), Hw. naive_solver.
  - intros k τ' Hk. destruct (decide (τ' = τ)) as [->|].
    + assert (k = 0%nat) as ->.
      { apply (NoDup_lookup q k 0 τ); [apply I|done..]. }
      rewrite lookup_insert_eq. eexists. split; [done|]. simpl.
      rewrite Z.add_0_r, wrap_small, He by apply I. done.
    + rewrite lookup_insert_ne by done. by apply I.
  - intros τ'. rewrite lookup_insert. case_decide; subst; [|apply I].
    split; [done|]. intros [_ []]. apply list_elem_of_lookup. eauto.
Qed.

Lemma inv_release c q τ t : inv n c q → pcs c !! τ = Some (Holding t) →
  ∃ q', inv n {| lk := unlock (lk c); pcs := <[τ := Idle]> (pcs c) |} q'.
Proof.
  intros I Hh. destruct (inv_holder c q τ t I Hh) as [H0 ->].
  destruct q as [|τ0 q]; simplify_eq/=. exists q.
  pose proof (inv_nodup _ _ _ I) as [Hτq Hq]%NoDup_cons. split; simpl.
  - intros τ'. rewrite lookup_insert. case_decide; subst; [|apply I].
    rewrite <- (inv_dom _ _ _ I), Hh. naive_solver.
  - done.
  - by apply wrap_range.
  - rewrite (inv_ticket _ _ _ I), wrap_add_l. f_equal. simpl. lia.
  - intros k τ' Hk. rewrite lookup_insert_ne by (intros <-; apply Hτq, list_elem_of_lookup; eauto).
    destruct (inv_queue _ _ _ I (S k) τ' Hk) as (p & Hp & Ht & Hw). exists p.
    rewrite wrap_add_l. replace (users (lk c) + 1 + Z.of_nat k)
      with (users (lk c) + Z.of_nat (S k)) by lia. naive_solver.
  - intros τ'. rewrite lookup_insert. case_decide; subst.
    + split; [|done]. intros _. split; [|done]. apply (inv_dom _ _ _ I). by eexists.
    + rewrite (inv_idle _ _ _ I). set_solver.
Qed.

Lemma ticket_inv_step c c' q : inv n c q → step c c' → ∃ q', inv n c' q'.
Proof.
  intros I. inversion 1; subst; eauto using inv_take, inv_enter, inv_release.
Qed.

Lemma ticket_inv_initial : inv n (initial n) [].
Proof.
  assert (∀ τ p, pcs (initial n) !! τ = Some p ↔ (τ < n)%nat ∧ p = Idle) as Hl.
  { intros τ p. simpl. rewrite lookup_gset_to_gmap_Some, elem_of_set_seq.
    split; [intros [? <-]; split; [lia|done]|intros [? ->]; split; [lia|done]]. }
  split; try done.
  - intros τ. split; [intros [p [? _]%Hl]; done|]. intros. exists Idle. by apply Hl.
  - apply NoDup_nil_2.
  - intros τ. rewrite Hl. set_solver.
Qed.

Lemma ticket_reachable_inv c : rtc step (initial n) c → ∃ q, inv n c q.
Proof.
  intros Hr. remember (initial n) as c0 eqn:E.
  assert (∃ q, inv n c0 q) as HI by (subst; eauto using ticket_inv_initial). clear E.
  induction Hr as [|c0 c1 c2 Hs Hr IH]; [done|].
  apply IH. destruct HI as [q I]. eauto using ticket_inv_step.
Qed.
End invariant.

(** C27: [TicketLock] (and [FairSpinlock]) is mutually exclusive and fair for
    any number of threads below [2^64], the ticket counters wrapping around:
    at most one thread holds the lock, and every waiting thread drew its
    ticket after the holder did, fewer than [n] tickets later. *)
Theorem ticketlock_mutex_fifo n c : Z.of_nat n < 2 ^ 64 → rtc step (initial n) c →
  (∀ τ1 τ2 t1 t2, pcs c !! τ1 = Some (Holding t1) → pcs c !! τ2 = Some (Holding t2) → τ1 = τ2) ∧
  (∀ τ1 τ2 t1 t2, pcs c !! τ1 = Some (Holding t1) → pcs c !! τ2 = Some (Waiting t2) →
     ∃ k, 0 < k < Z.of_nat n ∧ t2 = wrap 64 (t1 + k)).
Proof.
  intros Hn [q I]%(ticket_reachable_inv n Hn). split.
  - intros τ1 τ2 t1 t2 [H1 _]%(inv_holder n c q _ _ I) [H2 _]%(inv_holder n c q _ _ I).
    congruence.
  - intros τ1 τ2 t1 t2 H1 H2. destruct (inv_holder n c q _ _ I H1) as [H0 ->].
    destruct (inv_position n c q _ _ _ I H2 eq_refl) as (k & Hk & -> & Hkn & _).
    exists (Z.of_nat k). split; [|done]. destruct k; [|lia]. simplify_eq.
Qed.

(** Thread 0 holds the lock while thread 1 of three waits. *)
Definition held_and_waiting : config :=
  {| lk := {| ticket := 2; users := 0 |};
     pcs := <[0%nat := Holding 0]> (<[1%nat := Waiting 1]> (<[0%nat := Waiting 0]> (pcs (initial 3)))) |}.

Lemma held_and_waiting_reachable : rtc step (initial 3) held_and_waiting.
Proof.
  eapply rtc_l; [exact (step_take (initial 3) 0%nat eq_refl)|].
  eapply rtc_l; [apply (step_take _ 1%nat); reflexivity|].
  eapply rtc_l; [apply (step_enter _ 0%nat 0); reflexivity|]. apply rtc_refl.
Qed.

Lemma ticketlock_mutex_fifo_witness :
  ∃ k, 0 < k < Z.of_nat 3 ∧ 1 = wrap 64 (0 + k).
Proof.
  apply (proj2 (ticketlock_mutex_fifo 3 held_and_waiting ltac:(done) held_and_waiting_reachable)
           0%nat 1%nat 0 1); reflexivity.
Defined.

(** C36: no ticket is ever skipped: whenever some thread waits, either a
    thread holds the lock or the thread whose ticket is being served can
    enter now. *)
Theorem ticketlock_progress n c τ t : Z.of_nat n < 2 ^ 64 → rtc step (initial n) c →
  pcs c !! τ = Some (Waiting t) →
  ∃ τ' t', pcs c !! τ' = Some (Holding t') ∨
           (pcs c !! τ' = Some (Waiting t') ∧ may_enter (lk c) t' = true).
Proof.
  intros Hn [q I]%(ticket_reachable_inv n Hn) Hw.
  destruct (inv_position n c q _ _ _ I Hw eq_refl) as (k & Hk & _).
  destruct q as [|τ' q]; [done|]. exists τ', (users (lk c)).
  destruct (inv_queue _ _ _ I 0 τ' eq_refl) as (p & Hp & Ht & _).
  rewrite Z.add_0_r, wrap_small in Ht by apply I. unfold may_enter. rewrite Z.eqb_refl.
  destruct p; simplify_eq/=; eauto.
Qed.

(** One thread of two has drawn its ticket. *)
Definition one_waiting : config :=
  {| lk := {| ticket := 1; users := 0 |}; pcs := <[0%nat := Waiting 0]> (pcs (initial 2)) |}.

Lemma one_waiting_reachable : rtc step (initial 2) one_waiting.
Proof. eapply rtc_l; [|apply rtc_refl]. exact (step_take (initial 2) 0%nat eq_refl). Qed.

Lemma ticketlock_progress_witness :
  ∃ τ' t', pcs one_waiting !! τ' = Some (Holding t') ∨
    (pcs one_waiting !! τ' = Some (Waiting t') ∧ may_enter (lk one_waiting) t' = true).
Proof.
  apply (ticketlock_progress 2 one_waiting 0 0); [done|exact one_waiting_reachable|reflexivity].
Defined.

End TicketLock.

(** ** UnfairSpinlock *)

Module UnfairSpinlock.

Inductive pc := Idle | Spinning | Holding.

#[global] Instance pc_eq_dec : EqDecision pc.
Proof. solve_decision. Defined.

Record config := { locked : bool; pcs : gmap nat pc }.

(** [lock]: [compare_exchange(false, true)] until it succeeds; [unlock]:
    [store(false)]. *)
Inductive step : config → config → Prop :=
| step_start c τ : pcs c !! τ = Some Idle →
    step c {| locked := locked c; pcs := <[τ := Spinning]> (pcs c) |}
| step_cas_ok c τ : pcs c !! τ = Some Spinning → locked c = false →
    step c {| locked := true; pcs := <[τ := Holding]> (pcs c) |}
| step_cas_fail c τ : pcs c !! τ = Some Spinning → locked c = true → step c c
| step_unlock c τ : pcs c !! τ = Some Holding →
    step c {| locked := false; pcs := <[τ := Idle]> (pcs c) |}.

Definition initial (n : nat) : config :=
  {| locked := false; pcs := gset_to_gmap Idle (set_seq 0 n) |}.

Definition holders (c : config) : nat := count (λ p, p = Holding) (pcs c).

(** The flag is set exactly while one thread holds the lock. *)
Definition inv (c : config) : Prop := holders c = (if locked c then 1 else 0)%nat.

Lemma spin_inv_step c c' : inv c → step c c' → inv c'.
Proof.
  unfold inv, holders. intros I Hs; inversion Hs as [? τ H|? τ H Hl|? τ H Hl|? τ H]; subst; simpl;
    try pose proof (count_insert (λ p, p = Holding) _ τ _ Spinning H) as E1;
    try pose proof (count_insert (λ p, p = Holding) _ τ _ Holding H) as E2;
    try pose proof (count_insert (λ p, p = Holding) _ τ _ Idle H) as E3;
    try rewrite Hl in *; repeat case_decide; try congruence; try lia.
  destruct (locked c); lia.
Qed.

Lemma spin_inv_initial n : inv (initial n).
Proof.
  apply count_none. intros τ p [_ <-]%lookup_gset_to_gmap_Some. done.
Qed.

Lemma spin_reachable_inv n c : rtc step (initial n) c → inv c.
Proof.
  intros Hr. pose proof (spin_inv_initial n) as I. induction Hr; [done|]. eauto using spin_inv_step.
Qed.

(** [UnfairSpinlock] is mutually exclusive, and its flag is set exactly
    while a guard exists. *)
Theorem spinlock_mutex n c : rtc step (initial n) c →
  (∀ τ1 τ2, pcs c !! τ1 = Some Holding → pcs c !! τ2 = Some Holding → τ1 = τ2) ∧
  (locked c = true ↔ ∃ τ, pcs c !! τ = Some Holding).
Proof.
  intros I%spin_reachable_inv. unfold inv, holders in I. split.
  - intros τ1 τ2 H1 H2. destruct (decide (τ1 = τ2)) as [|Hne]; [done|].
    pose proof (count_two (λ p, p = Holding) _ _ _ _ _ Hne H1 H2 eq_refl eq_refl).
    destruct (locked c); lia.
  - split.
    + intros El. rewrite El in I.
      destruct (count_pos_inv (λ p, p = Holding) (pcs c)) as (τ & p & Hp & ->); [lia|]. eauto.
    + intros [τ Hτ]. pose proof (count_pos (λ p, p = Holding) _ _ _ Hτ eq_refl).
      destruct (locked c); [done|lia].
Qed.

Definition one_holding : config := {| locked := true; pcs := <[0%nat := Holding]> (<[0%nat := Spinning]> (pcs (initial 2))) |}.

Lemma one_holding_reachable : rtc step (initial 2) one_holding.
Proof.
  eapply rtc_l; [exact (step_start (initial 2) 0%nat eq_refl)|].
  eapply rtc_l; [apply (step_cas_ok _ 0%nat); reflexivity|]. apply rtc_refl.
Qed.

Lemma spinlock_mutex_witness : locked one_holding = true ↔ ∃ τ, pcs one_holding !! τ = Some Holding.
Proof. apply (spinlock_mutex 2 one_holding one_holding_reachable). Defined.

End UnfairSpinlock.

(** ** RwLock *)

Module RwLock.

(** [LockState] is an [i32]: [WRITER] is its sign bit, [READERS] the largest
    reader count. *)
Definition WRITER : Z := - 2 ^ 31.
Definition READERS : Z := 2 ^ 31 - 1.

(** [swrap]: the two's complement reduction of wrapping [i32] arithmetic. *)
Definition swrap (x : Z) : Z := (x + 2 ^ 31) mod 2 ^ 32 - 2 ^ 31.

Inductive pc :=
| Idle
| RLoop (s : Z)   (* [read]: last loaded state *)
| Reading         (* holds a read guard *)
| WLoop (s : Z)   (* [write]: last loaded state *)
| WDrain          (* [write]: set [WRITER], waits for the readers to leave *)
| Writing.        (* holds a write guard *)

#[global] Instance pc_eq_dec : EqDecision pc.
Proof. solve_decision. Defined.

Record config := { state : Z; pcs : gmap nat pc }.

Definition go (c : config) (τ : nat) (p : pc) (s : Z) : config :=
  {| state := s; pcs := <[τ := p]> (pcs c) |}.

(** One constructor per atomic access; [compare_exchange_weak] may fail
    spuriously, so its failure step has no condition on the state. *)
Inductive step : config → config → Prop :=
| read_load c τ : pcs c !! τ = Some Idle → step c (go c τ (RLoop (state c)) (state c))
| read_cas_ok c τ s : pcs c !! τ = Some (RLoop s) →
    Z.land s WRITER = 0 → s ≠ READERS → state c = s →
    step c (go c τ Reading (s + 1))
| read_cas_fail c τ s : pcs c !! τ = Some (RLoop s) →
    Z.land s WRITER = 0 → s ≠ READERS →
    step c (go c τ (RLoop (state c)) (state c))
| read_wait c τ s : pcs c !! τ = Some (RLoop s) →
    (Z.land s WRITER ≠ 0 ∨ s = READERS) →
    step c (go c τ (RLoop (state c)) (state c))
| read_drop c τ : pcs c !! τ = Some Reading →
    step c (go c τ Idle (swrap (state c - 1)))
| write_load c τ : pcs c !! τ = Some Idle → step c (go c τ (WLoop (state c)) (state c))
| write_cas_ok c τ s : pcs c !! τ = Some (WLoop s) →
    Z.land s WRITER = 0 → state c = s →
    step c (go c τ (if s =? 0 then Writing else WDrain) (Z.lor s WRITER))
| write_cas_fail c τ s : pcs c !! τ = Some (WLoop s) →
    Z.land s WRITER = 0 →
    step c (go c τ (WLoop (state c)) (state c))
| write_reload c τ s : pcs c !! τ = Some (WLoop s) →
    Z.land s WRITER ≠ 0 →
    step c (go c τ (WLoop (state c)) (state c))
| write_drained c τ : pcs c !! τ = Some WDrain → state c = WRITER →
    step c (go c τ Writing (state c))
| write_draining c τ : pcs c !! τ = Some WDrain → state c ≠ WRITER →
    step c (go c τ WDrain (state c))
| write_drop c τ : pcs c !! τ = Some Writing → step c (go c τ Idle 0).

Definition initial (n : nat) : config :=
  {| state := 0; pcs := gset_to_gmap Idle (set_seq 0 n) |}.

Definition readers (c : config) : nat := count (λ p, p = Reading) (pcs c).
Definition writers (c : config) : nat := count (λ p, p = Writing ∨ p = WDrain) (pcs c).
Definition writing (c : config) : nat := count (λ p, p = Writing) (pcs c).

(** The state word counts the read guards; its sign bit is set while a
    writer owns or drains the lock, and a writer that owns it is alone. *)
Record inv (c : config) : Prop := {
  inv_readers : Z.of_nat (readers c) ≤ READERS;
  inv_writers : (writers c ≤ 1)%nat;
  inv_state : state c = Z.of_nat (readers c) + (if decide (writers c = 0%nat) then 0 else WRITER);
  inv_writing : writing c ≠ 0%nat → readers c = 0%nat
}.

Lemma land_WRITER s : - 2 ^ 31 ≤ s < 2 ^ 31 → Z.land s WRITER = 0 ↔ 0 ≤ s.
Proof.
  intros Hs. change WRITER with (Z.lnot (Z.ones 31)). rewrite <- Z.ldiff_land, ldiff_ones_eq by lia.
  destruct (decide (0 ≤ s)).
  - rewrite Z.div_small by lia. lia.
  - assert (s / 2 ^ 31 = -1) as -> by (Z.div_mod_to_equations; lia). lia.
Qed.

Lemma lor_WRITER s : 0 ≤ s < 2 ^ 31 → Z.lor s WRITER = s + WRITER.
Proof.
  intros Hs. change WRITER with (Z.shiftl (-1) 31). by rewrite lor_shiftl_add.
Qed.

Definition is_reading (p : pc) : nat := match p with Reading => 1 | _ => 0 end.
Definition is_writer (p : pc) : nat := match p with Writing | WDrain => 1 | _ => 0 end.
Definition is_writing (p : pc) : nat := match p with Writing => 1 | _ => 0 end.

(** A step of one thread moves each count by that thread's contribution. *)
Lemma go_moved c τ p p' s : pcs c !! τ = Some p →
  (is_reading p + readers (go c τ p' s) = is_reading p' + readers c ∧
   is_writer p + writers (go c τ p' s) = is_writer p' + writers c ∧
   is_writing p + writing (go c τ p' s) = is_writing p' + writing c)%nat.
Proof.
  intros H. unfold readers, writers, writing. simpl.
  pose proof (count_insert (λ p, p = Reading) _ _ _ p' H) as E1.
  pose proof (count_insert (λ p, p = Writing ∨ p = WDrain) _ _ _ p' H) as E2.
  pose proof (count_insert (λ p, p = Writing) _ _ _ p' H) as E3.
  split_and!; [clear E2 E3|clear E1 E3|clear E1 E2]; destruct p, p'; simpl;
    repeat case_decide; try lia; intuition congruence.
Qed.

Lemma writing_le_writers c : (writing c ≤ writers c)%nat.
Proof. apply count_mono. auto. Qed.

Lemma inv_state_range c : inv c → - 2 ^ 31 ≤ state c < 2 ^ 31.
Proof.
  intros [Ir _ Es _]. rewrite Es. unfold READERS, WRITER in *. case_decide; lia.
Qed.

Lemma inv_not_writer c : inv c → 0 ≤ state c → writers c = 0%nat.
Proof.
  intros [Ir _ Es _] Hs. rewrite Es in Hs. case_decide as E; [done|].
  unfold READERS, WRITER in *. lia.
Qed.

(** The invariant only needs the changed counts and the changed word. *)
Lemma inv_go c τ p p' s : inv c → pcs c !! τ = Some p →
  (is_reading p' + readers c ≤ is_reading p + Z.to_nat READERS)%nat →
  (is_writer p' + writers c ≤ is_writer p + 1)%nat →
  s = Z.of_nat (readers (go c τ p' s)) + (if decide (writers (go c τ p' s) = 0%nat) then 0 else WRITER) →
  (writing (go c τ p' s) ≠ 0%nat → readers (go c τ p' s) = 0%nat) →
  inv (go c τ p' s).
Proof.
  intros I H Hr Hw Es Hww. destruct (go_moved c τ p p' s H) as (M1 & M2 & _).
  split; [unfold READERS in *; lia|lia|exact Es|exact Hww].
Qed.

(** A step that changes neither the word nor the guards. *)
Lemma inv_go_same c τ p p' : inv c → pcs c !! τ = Some p →
  is_reading p = is_reading p' → is_writer p = is_writer p' → is_writing p = is_writing p' →
  inv (go c τ p' (state c)).
Proof.
  intros I H E1 E2 E3. destruct (go_moved c τ p p' (state c) H) as (M1 & M2 & M3).
  destruct I as [Ir Iw Es Iww].
  assert (readers (go c τ p' (state c)) = readers c) as Rr by lia.
  assert (writers (go c τ p' (state c)) = writers c) as Rw by lia.
  assert (writing (go c τ p' (state c)) = writing c) as Rww by lia.
  split; rewrite ?Rr, ?Rw, ?Rww; done.
Qed.

Lemma inv_read_ok c τ : inv c → pcs c !! τ = Some (RLoop (state c)) →
  0 ≤ state c → state c ≠ READERS → inv (go c τ Reading (state c + 1)).
Proof.
  intros I H Hs Hne. pose proof (inv_not_writer c I Hs) as W0.
  destruct (go_moved c τ _ Reading (state c + 1) H) as (M1 & M2 & M3).
  pose proof (writing_le_writers c) as Hle. pose proof I as [Ir Iw Es Iww].
  rewrite decide_True in Es by done. unfold READERS in *. simpl in *.
  apply (inv_go c τ _ _ _ I H); unfold READERS; simpl; try lia.
  rewrite decide_True by lia. lia.
Qed.

Lemma inv_read_drop c τ : inv c → pcs c !! τ = Some Reading →
  inv (go c τ Idle (swrap (state c - 1))).
Proof.
  intros I H. pose proof (count_pos (λ p, p = Reading) _ _ _ H eq_refl) as Hpos.
  fold (readers c) in Hpos. pose proof I as [Ir Iw Es Iww]. unfold READERS in *.
  assert (swrap (state c - 1) = state c - 1) as ->.
  { unfold swrap. rewrite Z.mod_small; [lia|]. rewrite Es. unfold WRITER. case_decide; lia. }
  destruct (go_moved c τ _ Idle (state c - 1) H) as (M1 & M2 & M3). simpl in *.
  apply (inv_go c τ _ _ _ I H); unfold READERS; simpl; try lia.
  rewrite (decide_ext (writers _ = 0%nat) (writers c = 0%nat)) by lia. lia.
Qed.

Lemma inv_write_ok c τ : inv c → pcs c !! τ = Some (WLoop (state c)) → 0 ≤ state c →
  inv (go c τ (if state c =? 0 then Writing else WDrain) (Z.lor (state c) WRITER)).
Proof.
  intros I H Hs. pose proof (inv_state_range c I). pose proof (inv_not_writer c I Hs) as W0.
  rewrite lor_WRITER by lia. set (p' := if state c =? 0 then Writing else WDrain).
  destruct (go_moved c τ _ p' (state c + WRITER) H) as (M1 & M2 & M3).
  pose proof (writing_le_writers c) as Hle. pose proof I as [Ir Iw Es Iww].
  rewrite decide_True in Es by done. simpl in *.
  assert (is_reading p' = 0%nat ∧ is_writer p' = 1%nat ∧
          (is_writing p' ≠ 0%nat → state c = 0)) as (Ep1 & Ep2 & Ep3).
  { unfold p'. destruct (Z.eqb_spec (state c) 0); simpl; lia. }
  apply (inv_go c τ _ _ _ I H); unfold READERS in *; simpl; try lia.
  rewrite decide_False by lia. lia.
Qed.

Lemma inv_write_drained c τ : inv c → pcs c !! τ = Some WDrain → state c = WRITER →
  inv (go c τ Writing (state c)).
Proof.
  intros I H Hs. destruct (go_moved c τ _ Writing (state c) H) as (M1 & M2 & M3).
  pose proof I as [Ir Iw Es Iww]. simpl in *.
  assert (readers c = 0%nat) by (rewrite Hs in Es; unfold READERS, WRITER in *; case_decide; lia).
  apply (inv_go c τ _ _ _ I H); unfold READERS in *; simpl; try lia.
  rewrite (decide_ext (writers _ = 0%nat) (writers c = 0%nat)) by lia. lia.
Qed.

Lemma inv_write_drop c τ : inv c → pcs c !! τ = Some Writing → inv (go c τ Idle 0).
Proof.
  intros I H. destruct (go_moved c τ _ Idle 0 H) as (M1 & M2 & M3).
  pose proof (writing_le_writers c) as Hle. pose proof I as [Ir Iw Es Iww]. simpl in *.
  assert (readers c = 0%nat) by (apply Iww; lia).
  apply (inv_go c τ _ _ _ I H); unfold READERS in *; simpl; try lia.
  rewrite decide_True by lia. lia.
Qed.

Lemma rw_inv_step c c' : inv c → step c c' → inv c'.
Proof.
  intros I Hs. pose proof (inv_state_range c I) as Hr.
  inversion Hs; subst; repeat match goal with
    | H : Z.land (state c) WRITER = 0 |- _ => apply land_WRITER in H; [|done]
    end; eauto using inv_read_ok, inv_read_drop, inv_write_ok, inv_write_drained, inv_write_drop;
    by eapply inv_go_same.
Qed.

Lemma rw_inv_initial n : inv (initial n).
Proof.
  assert (∀ P `{∀ p, Decision (P p)}, ¬ P Idle → count P (pcs (initial n)) = 0%nat) as Hz.
  { intros P ? HP. apply count_none. intros τ p [_ <-]%lookup_gset_to_gmap_Some. done. }
  assert (readers (initial n) = 0%nat) as Er by (by apply Hz).
  assert (writers (initial n) = 0%nat) as Ew by (apply Hz; intuition congruence).
  split; rewrite ?Er, ?Ew; unfold READERS; simpl; try done; lia.
Qed.

Lemma rw_reachable_inv n c : rtc step (initial n) c → inv c.
Proof.
  intros Hr. pose proof (rw_inv_initial n) as I. induction Hr; [done|]. eauto using rw_inv_step.
Qed.

(** C26: under every interleaving of the atomic accesses of [read], [write]
    and the guard drops, a write guard excludes every other guard, the reader
    count never reaches the writer bit, and once all guards are dropped and no
    writer drains the state word is back to zero. *)
Theorem rwlock_exclusion n c : rtc step (initial n) c →
  (∀ τ, pcs c !! τ = Some Writing →
     ∀ τ' p', pcs c !! τ' = Some p' → p' = Reading ∨ p' = Writing → τ' = τ) ∧
  (0 ≤ state c ≤ READERS ∨ WRITER ≤ state c < 0) ∧
  (readers c = 0%nat → writers c = 0%nat → state c = 0).
Proof.
  intros I%rw_reachable_inv. pose proof (inv_state_range c I) as Hrange.
  pose proof (writing_le_writers c) as Hle. destruct I as [Ir Iw Es Iww]. split_and!.
  - intros τ H τ' p' H' Hp. destruct (decide (τ' = τ)) as [|Hne]; [done|exfalso].
    pose proof (count_pos (λ p, p = Writing) _ _ _ H eq_refl) as Hpos. fold (writing c) in Hpos.
    destruct Hp as [-> | ->].
    + pose proof (count_pos (λ p, p = Reading) _ _ _ H' eq_refl) as Hpos'. fold (readers c) in Hpos'.
      lia.
    + pose proof (count_two (λ p, p = Writing) _ _ _ _ _ Hne H' H eq_refl eq_refl) as H2.
      fold (writing c) in H2. lia.
  - unfold READERS, WRITER. lia.
  - intros E1 E2. rewrite Es, E1, decide_True by done. done.
Qed.

(** Thread 0 reads while thread 1 has announced itself and drains. *)
Definition reading_and_draining : config :=
  go (go (go (go (initial 2) 0 (RLoop 0) 0) 0 Reading 1) 1 (WLoop 1) 1) 1 WDrain (1 + WRITER).

Lemma reading_and_draining_reachable : rtc step (initial 2) reading_and_draining.
Proof.
  eapply rtc_l; [apply (read_load (initial 2) 0%nat); reflexivity|].
  eapply rtc_l; [apply (read_cas_ok _ 0%nat 0); [reflexivity|reflexivity|discriminate|reflexivity]|].
  eapply rtc_l; [apply (write_load _ 1%nat); reflexivity|].
  eapply rtc_l; [apply (write_cas_ok _ 1%nat 1); reflexivity|]. apply rtc_refl.
Qed.

Lemma rwlock_exclusion_witness :
  0 ≤ state reading_and_draining ≤ READERS ∨ WRITER ≤ state reading_and_draining < 0.
Proof. apply (rwlock_exclusion 2 reading_and_draining reading_and_draining_reachable). Defined.

End RwLock.
