(* ===== verification/PageAlloc.v ===== *)
(** * The buddy page allocator

    Models [klib/src/pm/page/mod.rs].  The allocator keeps its data in the
    memory it manages: a zone header and one metadata byte per page in the
    reserved pages of each added range, and a [FreeBlock] header in the first
    page of each free block.  The store has one map per kind of object, keyed
    by physical address; every access the source makes through a pointer
    goes through the translator's [dmap_to_phys], so that the same physical
    object is reached by its physical and by its direct-map address, and an
    access where no object lives is a [BadDeref].  Arithmetic on [usize] is
    checked ([usize]), as in a build with overflow checks, and
    [debug_assert!] is on. *)

From S2P Require Import Prelude Vm Sync.

Definition MAX_ORDER : Z := 11.
Definition FREE_FLAG : Z := Z.shiftl 1 7.

(** [next] and [prev] are pointers to blocks, [block_zone] one to a zone. *)
Record FreeBlock := { next : Z; prev : Z; block_zone : Z; page_index : Z }.

Record Zone := { meta_array : Z; data_base : Z; zone_pages : Z; zone_next : Z }.

(** [size_of::<Zone>()]: four words. *)
Definition SIZE_OF_ZONE : Z := 32.

(** The allocator's fields, and the memory it reaches. *)
Record PageAllocator := {
  lock : TicketLock.TicketLock;
  zone_head : Z;
  free_area : list Z;
  total_pages : Z;
  allocated_pages : Z;
  lowest_address : Z;
  is_dmap : bool;
  blocks : gmap Z FreeBlock;
  zones : gmap Z Zone;
  meta : gmap Z Z
}.

(** ** Field updates *)

Definition set_next (v : Z) (b : FreeBlock) : FreeBlock :=
  {| next := v; prev := prev b; block_zone := block_zone b; page_index := page_index b |}.
Definition set_prev (v : Z) (b : FreeBlock) : FreeBlock :=
  {| next := next b; prev := v; block_zone := block_zone b; page_index := page_index b |}.

Definition set_lock v s := {| lock := v; zone_head := zone_head s; free_area := free_area s;
  total_pages := total_pages s; allocated_pages := allocated_pages s;
  lowest_address := lowest_address s; is_dmap := is_dmap s;
  blocks := blocks s; zones := zones s; meta := meta s |}.
Definition set_zone_head v s := {| lock := lock s; zone_head := v; free_area := free_area s;
  total_pages := total_pages s; allocated_pages := allocated_pages s;
  lowest_address := lowest_address s; is_dmap := is_dmap s;
  blocks := blocks s; zones := zones s; meta := meta s |}.
Definition set_free_area v s := {| lock := lock s; zone_head := zone_head s; free_area := v;
  total_pages := total_pages s; allocated_pages := allocated_pages s;
  lowest_address := lowest_address s; is_dmap := is_dmap s;
  blocks := blocks s; zones := zones s; meta := meta s |}.
Definition set_total_pages v s := {| lock := lock s; zone_head := zone_head s;
  free_area := free_area s; total_pages := v; allocated_pages := allocated_pages s;
  lowest_address := lowest_address s; is_dmap := is_dmap s;
  blocks := blocks s; zones := zones s; meta := meta s |}.
Definition set_allocated_pages v s := {| lock := lock s; zone_head := zone_head s;
  free_area := free_area s; total_pages := total_pages s; allocated_pages := v;
  lowest_address := lowest_address s; is_dmap := is_dmap s;
  blocks := blocks s; zones := zones s; meta := meta s |}.
Definition set_lowest_address v s := {| lock := lock s; zone_head := zone_head s;
  free_area := free_area s; total_pages := total_pages s;
  allocated_pages := allocated_pages s; lowest_address := v; is_dmap := is_dmap s;
  blocks := blocks s; zones := zones s; meta := meta s |}.
Definition set_is_dmap v s := {| lock := lock s; zone_head := zone_head s;
  free_area := free_area s; total_pages := total_pages s;
  allocated_pages := allocated_pages s; lowest_address := lowest_address s; is_dmap := v;
  blocks := blocks s; zones := zones s; meta := meta s |}.
Definition set_blocks v s := {| lock := lock s; zone_head := zone_head s;
  free_area := free_area s; total_pages := total_pages s;
  allocated_pages := allocated_pages s; lowest_address := lowest_address s;
  is_dmap := is_dmap s; blocks := v; zones := zones s; meta := meta s |}.
Definition set_zones v s := {| lock := lock s; zone_head := zone_head s;
  free_area := free_area s; total_pages := total_pages s;
  allocated_pages := allocated_pages s; lowest_address := lowest_address s;
  is_dmap := is_dmap s; blocks := blocks s; zones := v; meta := meta s |}.
Definition set_meta v s := {| lock := lock s; zone_head := zone_head s;
  free_area := free_area s; total_pages := total_pages s;
  allocated_pages := allocated_pages s; lowest_address := lowest_address s;
  is_dmap := is_dmap s; blocks := blocks s; zones := zones s; meta := v |}.

(** ** Accesses *)

Section operations.
Context `{T : AddressTranslator}.

(** [usize] arithmetic with overflow checks. *)
Definition usize (x : Z) : M PageAllocator Z := λ s,
  if in_range 64 x then Done (x, s) else Fault Panic.
(** [1 << order] on [usize]: a shift by the width or more overflows. *)
Definition shl1 (order : Z) : M PageAllocator Z := λ s,
  if (0 <=? order) && (order <? 64) then Done (Z.shiftl 1 order, s) else Fault Panic.

Definition deref_block (p : Z) : M PageAllocator FreeBlock := λ s,
  match blocks s !! dmap_to_phys p with Some b => Done (b, s) | None => Fault BadDeref end.
Definition update_block (p : Z) (f : FreeBlock → FreeBlock) : M PageAllocator unit :=
  deref_block p ;; modify (λ s, set_blocks (alter f (dmap_to_phys p) (blocks s)) s).
(** The four field writes that turn a page into a block header. *)
Definition init_block (p : Z) (b : FreeBlock) : M PageAllocator unit :=
  modify (λ s, set_blocks (<[dmap_to_phys p := b]> (blocks s)) s).

Definition deref_zone (p : Z) : M PageAllocator Zone := λ s,
  match zones s !! dmap_to_phys p with Some z => Done (z, s) | None => Fault BadDeref end.
Definition write_zone (p : Z) (z : Zone) : M PageAllocator unit :=
  modify (λ s, set_zones (<[dmap_to_phys p := z]> (zones s)) s).

Definition read_meta (p : Z) : M PageAllocator Z := λ s,
  match meta s !! dmap_to_phys p with Some v => Done (v, s) | None => Fault BadDeref end.
Definition write_meta (p v : Z) : M PageAllocator unit :=
  read_meta p ;; modify (λ s, set_meta (<[dmap_to_phys p := v]> (meta s)) s).

Definition get_free_area (order : Z) : M PageAllocator Z :=
  let* fa := gets free_area in expect (fa !! Z.to_nat order).
Definition set_free_head (order v : Z) : M PageAllocator unit :=
  get_free_area order ;;
  modify (λ s, set_free_area (<[Z.to_nat order := v]> (free_area s)) s).

(** The loops [for p in 0..n { *ptr.add(p) = v }] and [ptr::write_bytes];
    the latter gives the bytes their first value. *)
Fixpoint fill_meta (ptr : Z) (n : nat) (v : Z) : M PageAllocator unit :=
  match n with
  | O => ret tt
  | S n' => write_meta ptr v ;; fill_meta (ptr + 1) n' v
  end.
Fixpoint write_bytes (ptr v : Z) (n : nat) : M PageAllocator unit :=
  match n with
  | O => ret tt
  | S n' => modify (λ s, set_meta (<[dmap_to_phys ptr := v]> (meta s)) s) ;;
            write_bytes (ptr + 1) v n'
  end.

(** [self.lock.lock()] on a CPU that nobody else interferes with: it spins
    forever when the lock is held. *)
Definition lock_pages : M PageAllocator unit := λ s,
  match TicketLock.lock_alone (lock s) with
  | Some l => Done (tt, set_lock l s)
  | None => Fault Deadlock
  end.
Definition unlock_pages : M PageAllocator unit :=
  modify (λ s, set_lock (TicketLock.unlock (lock s)) s).

(** ** Allocation *)

(** The code that puts a block in front of its free list, which [add_range],
    [alloc_pages] and [free_block_in_zone] share. *)
Definition push_free (zone block index order : Z) : M PageAllocator unit :=
  let* old_head := get_free_area order in
  init_block block {| next := old_head; prev := 0; block_zone := zone; page_index := index |} ;;
  (if old_head =? 0 then ret tt else update_block old_head (set_prev block)) ;;
  set_free_head order block.

(** [(order as u8) | FREE_FLAG]. *)
Definition free_meta (order : Z) : Z := Z.lor (wrap 8 order) FREE_FLAG.

Fixpoint split_loop (fuel : nat) (zone meta_ptr page_i split_order target_order : Z) :
    M PageAllocator unit :=
  if split_order <=? target_order then ret tt
  else match fuel with
  | O => fail OutOfFuel
  | S fuel' =>
      let split_order := split_order - 1 in
      let* split_pages := shl1 split_order in
      let* split_i := usize (page_i + split_pages) in
      fill_meta (meta_ptr + split_i) (Z.to_nat split_pages) (free_meta split_order) ;;
      let* z := deref_zone zone in
      let* block := usize (data_base z + split_i * PAGE_SIZE) in
      push_free zone block split_i split_order ;;
      split_loop fuel' zone meta_ptr page_i split_order target_order
  end.

(** The body of the order loop for a non-empty list. *)
Definition alloc_from (head current_order target_order : Z) : M PageAllocator Z :=
  let* b := deref_block head in
  set_free_head current_order (next b) ;;
  (if next b =? 0 then ret tt else update_block (next b) (set_prev 0)) ;;
  let* b := deref_block head in
  let zone := block_zone b in
  let page_i := page_index b in
  let* z := deref_zone zone in
  let meta_ptr := meta_array z in
  let* pages := shl1 target_order in
  fill_meta (meta_ptr + page_i) (Z.to_nat pages) (wrap 8 target_order) ;;
  split_loop (Z.to_nat MAX_ORDER) zone meta_ptr page_i current_order target_order ;;
  modify (λ s, set_allocated_pages (wrap 64 (allocated_pages s + pages)) s) ;;
  unlock_pages ;;
  let* z := deref_zone zone in
  usize (data_base z + page_i * PAGE_SIZE).

Fixpoint alloc_scan (orders : list Z) (target_order : Z) : M PageAllocator Z :=
  match orders with
  | [] => unlock_pages ;; ret 0
  | current_order :: orders' =>
      let* head := get_free_area current_order in
      if head =? 0 then alloc_scan orders' target_order
      else alloc_from head current_order target_order
  end.

Definition alloc_pages (target_order : Z) : M PageAllocator Z :=
  if MAX_ORDER <=? target_order then ret 0
  else lock_pages ;; alloc_scan (seqZ target_order (MAX_ORDER - target_order)) target_order.

Definition alloc_page : M PageAllocator Z := alloc_pages 0.

(** ** Freeing *)

Fixpoint merge_loop (fuel : nat) (z : Zone) (index order : Z) : M PageAllocator (Z * Z) :=
  if MAX_ORDER - 1 <=? order then ret (index, order)
  else match fuel with
  | O => fail OutOfFuel
  | S fuel' =>
      let* bit := shl1 order in
      let buddy := Z.lxor index bit in
      if zone_pages z <=? buddy then ret (index, order) else
      let* buddy_end := usize (buddy + bit) in
      if zone_pages z <? buddy_end then ret (index, order) else
      let* meta_val := read_meta (meta_array z + buddy) in
      if (Z.land meta_val FREE_FLAG =? 0) ||
         negb (Z.land meta_val (unot 8 FREE_FLAG) =? wrap 8 order)
      then ret (index, order) else
      let* block := usize (data_base z + buddy * PAGE_SIZE) in
      let* b := deref_block block in
      (if prev b =? 0 then set_free_head order (next b)
       else update_block (prev b) (set_next (next b))) ;;
      (if next b =? 0 then ret tt else update_block (next b) (set_prev (prev b))) ;;
      merge_loop fuel' z (Z.land index (unot 64 bit)) (order + 1)
  end.

Definition free_block_in_zone (zone_ptr index order : Z) : M PageAllocator unit :=
  let* z := deref_zone zone_ptr in
  let* ' (index, order) := merge_loop (Z.to_nat MAX_ORDER) z index order in
  let* pages := shl1 order in
  fill_meta (meta_array z + index) (Z.to_nat pages) (free_meta order) ;;
  let* block := usize (data_base z + index * PAGE_SIZE) in
  push_free zone_ptr block index order.

(** The zone loop of [free_pages]; [handled] is the returned boolean. *)
Fixpoint free_walk (fuel : nat) (zone_ptr addr : Z) : M PageAllocator bool :=
  if zone_ptr =? 0 then ret false
  else match fuel with
  | O => fail OutOfFuel
  | S fuel' =>
      let* z := deref_zone zone_ptr in
      let data_start := data_base z in
      let* data_end := usize (data_start + zone_pages z * PAGE_SIZE) in
      if (data_start <=? addr) && (addr <? data_end) then
        let off := addr - data_start in
        assert (off mod PAGE_SIZE =? 0) ;;
        let index := off / PAGE_SIZE in
        let* meta_val := read_meta (meta_array z + index) in
        assert (Z.land meta_val FREE_FLAG =? 0) ;;
        let order := Z.land meta_val (unot 8 FREE_FLAG) in
        let* pages := shl1 order in
        modify (λ s, set_allocated_pages (wrap 64 (allocated_pages s - pages)) s) ;;
        free_block_in_zone zone_ptr index order ;;
        ret true
      else free_walk fuel' (zone_next z) addr
  end.

Definition free_pages (pages_ptr : Z) : M PageAllocator unit :=
  if pages_ptr =? 0 then ret tt
  else
    lock_pages ;;
    let* s := get in
    let* handled := free_walk (S (size (zones s))) (zone_head s) pages_ptr in
    assert handled ;;
    unlock_pages.

(** ** Adding memory *)

(** The search for the number of pages to reserve for the zone header and
    the metadata of the pages that remain. *)
Fixpoint reserve_loop (fuel : nat) (total_pages_reg reserved_pages : Z) : M PageAllocator Z :=
  match fuel with
  | O => fail OutOfFuel
  | S fuel' =>
      let* usable := expect (checked_sub total_pages_reg reserved_pages) in
      let* needed_bytes := expect (checked_add 64 usable SIZE_OF_ZONE) in
      let* rounded := usize (needed_bytes + PAGE_SIZE - 1) in
      let needed_reserved := rounded / PAGE_SIZE in
      if needed_reserved =? reserved_pages then ret reserved_pages
      else reserve_loop fuel' total_pages_reg needed_reserved
  end.

(** The order of the next block of a fresh zone. *)
Definition populate_order (current_index usable_pages : Z) : Z :=
  let remaining := usable_pages - current_index in
  let align_order :=
    if current_index =? 0 then MAX_ORDER - 1 else trailing_zeros 64 current_index in
  let size_order := ilog2 remaining in
  Z.min (Z.min align_order size_order) (MAX_ORDER - 1).

Fixpoint populate_loop (fuel : nat) (zone_ptr meta_ptr base current_index usable_pages : Z) :
    M PageAllocator unit :=
  if usable_pages <=? current_index then ret tt
  else match fuel with
  | O => fail OutOfFuel
  | S fuel' =>
      let order := populate_order current_index usable_pages in
      let* pages := shl1 order in
      fill_meta (meta_ptr + current_index) (Z.to_nat pages) (free_meta order) ;;
      let* block := usize (base + current_index * PAGE_SIZE) in
      push_free zone_ptr block current_index order ;;
      populate_loop fuel' zone_ptr meta_ptr base (current_index + pages) usable_pages
  end.

(** The fuel of the reservation search; it is enough for every region below
    [2^VA_WIDTH] on which the search ends at all. *)
Definition RESERVE_FUEL : nat := 5.

(** The part of [add_range] from the update of [lowest_address] on: the zone
    header and the metadata are written and the zone is populated. *)
Definition install_zone (meta_base reserved_bytes base usable_pages : Z) : M PageAllocator unit :=
  let* s := get in
  (if (lowest_address s =? 0) || (base <? lowest_address s)
   then modify (set_lowest_address base) else ret tt) ;;
  let* zone_ptr := usize (meta_base + reserved_bytes - SIZE_OF_ZONE) in
  write_bytes meta_base 0 (Z.to_nat usable_pages) ;;
  write_zone zone_ptr {| meta_array := meta_base; data_base := base;
                         zone_pages := usable_pages; zone_next := zone_head s |} ;;
  modify (set_zone_head zone_ptr) ;;
  modify (λ s, set_total_pages (wrap 64 (total_pages s + usable_pages)) s) ;;
  populate_loop (Z.to_nat usable_pages) zone_ptr meta_base base 0 usable_pages.

Definition add_range (start end_ : Z) : M PageAllocator unit :=
  let* s := get in
  assert (eqb (is_kernel_address start) (is_dmap s)) ;;
  assert (start <? end_) ;;
  assert (Z.land start PAGE_MASK =? 0) ;;
  assert (Z.land end_ PAGE_MASK =? 0) ;;
  lock_pages ;;
  let total_pages_reg := (end_ - start) / PAGE_SIZE in
  if total_pages_reg =? 0 then unlock_pages else
  let* reserved_pages := reserve_loop RESERVE_FUEL total_pages_reg 0 in
  let* usable_pages := expect (checked_sub total_pages_reg reserved_pages) in
  assert (0 <? usable_pages) ;;
  let* reserved_bytes := usize (reserved_pages * PAGE_SIZE) in
  let* base := usize (start + reserved_bytes) in
  install_zone start reserved_bytes base usable_pages ;;
  unlock_pages.

(** ** Moving to the direct map *)

Definition to_dmap (p : Z) : Z := if p =? 0 then p else phys_to_dmap p.

Fixpoint transition_zones (fuel : nat) (zone_phys : Z) : M PageAllocator unit :=
  if zone_phys =? 0 then ret tt
  else match fuel with
  | O => fail OutOfFuel
  | S fuel' =>
      let zone_dmap := to_dmap zone_phys in
      let* z := deref_zone zone_dmap in
      write_zone zone_dmap {| meta_array := to_dmap (meta_array z);
                              data_base := to_dmap (data_base z);
                              zone_pages := zone_pages z;
                              zone_next := to_dmap (zone_next z) |} ;;
      transition_zones fuel' (zone_next z)
  end.

(** One block header with its pointers moved. *)
Definition block_to_dmap (b : FreeBlock) : FreeBlock :=
  {| next := to_dmap (next b); prev := to_dmap (prev b);
     block_zone := to_dmap (block_zone b); page_index := page_index b |}.

Fixpoint transition_blocks (fuel : nat) (block_phys : Z) : M PageAllocator unit :=
  if block_phys =? 0 then ret tt
  else match fuel with
  | O => fail OutOfFuel
  | S fuel' =>
      let block_dmap := to_dmap block_phys in
      let* b := deref_block block_dmap in
      update_block block_dmap block_to_dmap ;;
      transition_blocks fuel' (next b)
  end.

Fixpoint transition_orders (orders : list Z) : M PageAllocator unit :=
  match orders with
  | [] => ret tt
  | order :: orders' =>
      let* block_phys := get_free_area order in
      set_free_head order (to_dmap block_phys) ;;
      let* s := get in
      transition_blocks (S (size (blocks s))) block_phys ;;
      transition_orders orders'
  end.

Definition transition_dmap : M PageAllocator unit :=
  lock_pages ;;
  let* s := get in
  assert (negb (is_dmap s)) ;;
  modify (set_lowest_address (to_dmap (lowest_address s))) ;;
  modify (set_zone_head (to_dmap (zone_head s))) ;;
  transition_zones (S (size (zones s))) (zone_head s) ;;
  transition_orders (seqZ 0 MAX_ORDER) ;;
  modify (set_is_dmap true) ;;
  unlock_pages.

(** ** Queries and reset *)

Fixpoint overlap_walk (fuel : nat) (zone_ptr start end_ : Z) : M PageAllocator (option (Z * Z)) :=
  if dmap_to_phys zone_ptr =? 0 then ret None
  else match fuel with
  | O => fail OutOfFuel
  | S fuel' =>
      let* z := deref_zone zone_ptr in
      let zone_start := dmap_to_phys (meta_array z) in
      let* data_end := usize (data_base z + zone_pages z * PAGE_SIZE) in
      let zone_end := dmap_to_phys data_end in
      if (start <? zone_end) && (zone_start <? end_) then ret (Some (zone_start, zone_end))
      else overlap_walk fuel' (zone_next z) start end_
  end.

Definition overlapping_range (start end_ : Z) : M PageAllocator (option (Z * Z)) :=
  if end_ <=? start then ret None
  else
    lock_pages ;;
    let* s := get in
    let* result := overlap_walk (S (size (zones s))) (zone_head s) start end_ in
    unlock_pages ;;
    ret result.

Definition wipe : M PageAllocator unit :=
  lock_pages ;;
  modify (set_zone_head 0) ;;
  modify (set_lowest_address 0) ;;
  modify (λ s, set_free_area (replicate (Z.to_nat MAX_ORDER) 0) s) ;;
  modify (set_total_pages 0) ;;
  modify (set_allocated_pages 0) ;;
  unlock_pages.

Fixpoint max_walk (fuel : nat) (zone_ptr max : Z) : M PageAllocator Z :=
  if zone_ptr =? 0 then ret max
  else match fuel with
  | O => fail OutOfFuel
  | S fuel' =>
      let* z := deref_zone zone_ptr in
      let* end_ := usize (data_base z + zone_pages z * PAGE_SIZE) in
      max_walk fuel' (zone_next z) (if max <? end_ then end_ else max)
  end.

Definition max_address : M PageAllocator Z :=
  let* s := get in max_walk (S (size (zones s))) (zone_head s) 0.

Definition min_address : M PageAllocator Z := gets lowest_address.

(** The page interfaces the virtual-memory code uses; both always return
    [Ok], the null page included. *)
Definition alloc_phys_page : M PageAllocator Z :=
  let* page_addr := alloc_page in
  let* s := get in
  ret (if is_dmap s then dmap_to_phys page_addr else page_addr).

Definition free_phys_page (pa : Z) : M PageAllocator unit :=
  let* s := get in free_pages (if is_dmap s then phys_to_dmap pa else pa).

Definition alloc_dmap_page : M PageAllocator Z :=
  let* page_addr := alloc_page in
  let* s := get in
  ret (if is_dmap s then page_addr else phys_to_dmap page_addr).

Definition free_dmap_page (va : Z) : M PageAllocator unit :=
  let* s := get in free_pages (if is_dmap s then va else dmap_to_phys va).

End operations.

Definition new : PageAllocator := {|
  lock := TicketLock.new; zone_head := 0; free_area := replicate (Z.to_nat MAX_ORDER) 0;
  total_pages := 0; allocated_pages := 0; lowest_address := 0; is_dmap := false;
  blocks := ∅; zones := ∅; meta := ∅
|}.
