(* ===== verification/PageInv.v ===== *)
(** * The invariant of the page allocator

    The abstract state of the allocator is a list of zones and a map of
    blocks, keyed by physical address: each block belongs to a zone, is
    aligned to its size within it and is free or used.  The blocks tile the
    zones, except for a hole while an operation is under way.  [inv] ties the
    concrete store of [PageAlloc] to that state: the zone list, the metadata
    bytes, the free lists and the counters. *)

From S2P Require Import Prelude Vm Sync PageAlloc Dll.

(** ** Abstract state *)

(** A zone by its physical addresses: header, metadata array, first data
    page, and its number of pages. *)
Record zinfo := { zi_ptr : Z; zi_meta : Z; zi_base : Z; zi_pages : Z }.

Inductive kind := Free | Used.

Record binfo := { b_zone : zinfo; b_idx : Z; b_order : Z; b_kind : kind }.

#[global] Instance zinfo_eq_dec : EqDecision zinfo.
Proof. solve_decision. Defined.
#[global] Instance kind_eq_dec : EqDecision kind.
Proof. solve_decision. Defined.
#[global] Instance binfo_eq_dec : EqDecision binfo.
Proof. solve_decision. Defined.

Definition zaddr (z : zinfo) (i : Z) : Z := zi_base z + i * PAGE_SIZE.

(** A zone's layout: the metadata bytes end before the header, which ends
    where the data pages begin; everything is below [2^VA_WIDTH]. *)
Record zwf (z : zinfo) : Prop := {
  zwf_meta : 0 ≤ zi_meta z;
  zwf_pages : 0 < zi_pages z;
  zwf_ptr : zi_meta z + zi_pages z ≤ zi_ptr z;
  zwf_base : zi_ptr z + SIZE_OF_ZONE = zi_base z;
  zwf_end : zaddr z (zi_pages z) < 2 ^ VA_WIDTH;
  zwf_align : (PAGE_SIZE | zi_base z)
}.

Definition zdisj (z1 z2 : zinfo) : Prop :=
  zaddr z1 (zi_pages z1) ≤ zi_meta z2 ∨ zaddr z2 (zi_pages z2) ≤ zi_meta z1.

Record zones_wf (zs : list zinfo) : Prop := {
  zs_wf z : z ∈ zs → zwf z;
  zs_nodup : NoDup zs;
  zs_disj z1 z2 : z1 ∈ zs → z2 ∈ zs → z1 = z2 ∨ zdisj z1 z2
}.

Definition b_size (b : binfo) : Z := 2 ^ b_order b.
Definition b_end (b : binfo) : Z := b_idx b + b_size b.
(** Page [i] of zone [z] is in block [b]. *)
Definition in_block (b : binfo) (z : zinfo) (i : Z) : Prop :=
  b_zone b = z ∧ b_idx b ≤ i < b_end b.

Record bwf (zs : list zinfo) (a : Z) (b : binfo) : Prop := {
  bwf_zone : b_zone b ∈ zs;
  bwf_addr : a = zaddr (b_zone b) (b_idx b);
  bwf_order : 0 ≤ b_order b < MAX_ORDER;
  bwf_idx : 0 ≤ b_idx b;
  bwf_align : (b_size b | b_idx b);
  bwf_end : b_end b ≤ zi_pages (b_zone b)
}.

Definition buddies (b1 b2 : binfo) : Prop :=
  b_zone b1 = b_zone b2 ∧ b_order b1 = b_order b2 ∧ b_idx b2 = Z.lxor (b_idx b1) (b_size b1).

(** The blocks tile the pages of the zones outside the hole [U], and no two
    free buddies below the largest order are left unmerged. *)
Record tiling (zs : list zinfo) (bl : gmap Z binfo) (U : zinfo → Z → Prop) : Prop := {
  t_bwf a b : bl !! a = Some b → bwf zs a b;
  t_disj a1 b1 a2 b2 z i : bl !! a1 = Some b1 → bl !! a2 = Some b2 →
    in_block b1 z i → in_block b2 z i → a1 = a2;
  t_cover z i : z ∈ zs → 0 ≤ i < zi_pages z → ¬ U z i →
    ∃ a b, bl !! a = Some b ∧ in_block b z i;
  t_hole a b z i : bl !! a = Some b → in_block b z i → ¬ U z i;
  t_coalesced a1 b1 a2 b2 : bl !! a1 = Some b1 → bl !! a2 = Some b2 →
    b_kind b1 = Free → b_kind b2 = Free → b_order b1 < MAX_ORDER - 1 → ¬ buddies b1 b2
}.

Definition no_hole : zinfo → Z → Prop := λ _ _, False.
Definition hole (z : zinfo) (lo hi : Z) : zinfo → Z → Prop := λ z' i, z' = z ∧ lo ≤ i < hi.

(** ** Lemmas on zones and blocks *)

(** Linear arithmetic with the layout constants unfolded. *)
Ltac zone_lia :=
  unfold zdisj, phys_addr, b_end, zaddr, SIZE_OF_ZONE, MAX_ORDER, VA_WIDTH in *;
  change PAGE_SIZE with 16384 in *; lia.

Lemma b_size_pos zs a b : bwf zs a b → 0 < b_size b ≤ 1024.
Proof.
  intros W. pose proof (bwf_order _ _ _ W). unfold MAX_ORDER in *. split; [apply pow2_pos; lia|].
  change 1024 with (2 ^ 10). apply pow2_le. lia.
Qed.

Lemma buddies_sym b1 b2 : buddies b1 b2 → buddies b2 b1.
Proof.
  intros (Ez & Eo & Ei). split; [done|]. split; [done|].
  assert (b_size b2 = b_size b1) as -> by (unfold b_size; congruence).
  by rewrite Ei, Z.lxor_assoc, Z.lxor_nilpotent, Z.lxor_0_r.
Qed.

Lemma zaddr_inj z i j : zaddr z i = zaddr z j → i = j.
Proof. zone_lia. Qed.

Section zones.
Context (zs : list zinfo) (ZW : zones_wf zs).

(** Addresses of pages determine zone and index. *)
Lemma zaddr_zone_inj z1 z2 i1 i2 : z1 ∈ zs → z2 ∈ zs →
  0 ≤ i1 < zi_pages z1 → 0 ≤ i2 < zi_pages z2 → zaddr z1 i1 = zaddr z2 i2 → z1 = z2 ∧ i1 = i2.
Proof.
  intros H1 H2 Hi1 Hi2 E. destruct (zs_disj _ ZW z1 z2 H1 H2) as [->|D].
  - split; [done|]. by apply zaddr_inj in E.
  - destruct (zs_wf _ ZW _ H1), (zs_wf _ ZW _ H2).
  zone_lia.
Qed.

Lemma meta_zone_inj z1 z2 i1 i2 : z1 ∈ zs → z2 ∈ zs →
  0 ≤ i1 < zi_pages z1 → 0 ≤ i2 < zi_pages z2 →
  zi_meta z1 + i1 = zi_meta z2 + i2 → z1 = z2 ∧ i1 = i2.
Proof.
  intros H1 H2 Hi1 Hi2 E. destruct (zs_disj _ ZW z1 z2 H1 H2) as [->|D]; [split; [done|lia]|].
  destruct (zs_wf _ ZW _ H1), (zs_wf _ ZW _ H2).
  zone_lia.
Qed.

Lemma ptr_zone_inj z1 z2 : z1 ∈ zs → z2 ∈ zs → zi_ptr z1 = zi_ptr z2 → z1 = z2.
Proof.
  intros H1 H2 E. destruct (zs_disj _ ZW z1 z2 H1 H2) as [->|D]; [done|].
  destruct (zs_wf _ ZW _ H1), (zs_wf _ ZW _ H2).
  zone_lia.
Qed.

Lemma zaddr_phys z i : z ∈ zs → 0 ≤ i ≤ zi_pages z → phys_addr (zaddr z i) ∧ zaddr z i ≠ 0.
Proof.
  intros H Hi. destruct (zs_wf _ ZW _ H).
  zone_lia.
Qed.

Lemma meta_phys z i : z ∈ zs → 0 ≤ i ≤ zi_pages z → phys_addr (zi_meta z + i).
Proof.
  intros H Hi. destruct (zs_wf _ ZW _ H).
  zone_lia.
Qed.

Lemma ptr_phys z : z ∈ zs → phys_addr (zi_ptr z) ∧ zi_ptr z ≠ 0.
Proof.
  intros H. destruct (zs_wf _ ZW _ H).
  zone_lia.
Qed.

Lemma pages_bound z : z ∈ zs → 0 < zi_pages z < 2 ^ 34.
Proof.
  intros H. destruct (zs_wf _ ZW _ H).
  zone_lia.
Qed.

(** ** Ghost moves: a block leaves the tiling or enters the hole *)

Section moves.
Context (bl : gmap Z binfo) (U : zinfo → Z → Prop) (Ti : tiling zs bl U).

Lemma tiling_first a b : bl !! a = Some b → in_block b (b_zone b) (b_idx b).
Proof.
  intros Hb. pose proof (b_size_pos _ _ _ (t_bwf _ _ _ Ti _ _ Hb)).
  unfold in_block, b_end. split; [done|lia].
Qed.

Lemma block_phys a b : bl !! a = Some b → phys_addr a ∧ a ≠ 0.
Proof.
  intros Hb. pose proof (t_bwf _ _ _ Ti _ _ Hb) as W. destruct (b_size_pos _ _ _ W).
  destruct W as [Hz -> _ Hi _ He]. apply zaddr_phys; [done|]. unfold b_end in He. lia.
Qed.

(** The block that contains a page is found at its own address. *)
Lemma tiling_lookup a b z i : bl !! a = Some b → z ∈ zs → 0 ≤ i < zi_pages z →
  a = zaddr z i → b_zone b = z ∧ b_idx b = i.
Proof.
  intros Hb Hz Hi ->. pose proof (t_bwf _ _ _ Ti _ _ Hb) as W. destruct (b_size_pos _ _ _ W).
  destruct W as [Hz' Ea _ Hi' _ He]. unfold b_end in He.
  destruct (zaddr_zone_inj z (b_zone b) i (b_idx b)); (done || lia || auto).
Qed.

Lemma tiling_remove a b : bl !! a = Some b →
  tiling zs (delete a bl) (λ z i, U z i ∨ in_block b z i).
Proof.
  intros Hb. split.
  - intros a' b' [_ H]%lookup_delete_Some. by apply Ti.
  - intros a1 b1 a2 b2 z i [_ H1]%lookup_delete_Some [_ H2]%lookup_delete_Some.
    by apply (t_disj _ _ _ Ti).
  - intros z i Hz Hi HU. destruct (t_cover _ _ _ Ti z i Hz Hi) as (a' & b' & Hb' & Hin); [tauto|].
    exists a', b'. split; [|done]. rewrite lookup_delete_ne; [done|]. intros ->.
    simplify_eq. tauto.
  - intros a' b' z i [Hne H]%lookup_delete_Some Hin [HU|Hin'].
    + by apply (t_hole _ _ _ Ti a' b' z i).
    + apply Hne. by apply (t_disj _ _ _ Ti a b a' b' z i).
  - intros a1 b1 a2 b2 [_ H1]%lookup_delete_Some [_ H2]%lookup_delete_Some.
    by apply (t_coalesced _ _ _ Ti a1 b1 a2 b2).
Qed.

Lemma tiling_hole_absent z i : z ∈ zs → 0 ≤ i < zi_pages z → U z i → bl !! zaddr z i = None.
Proof.
  intros Hz Hi HU. destruct (bl !! zaddr z i) as [b|] eqn:Hb; [exfalso|done].
  destruct (tiling_lookup _ _ z i Hb Hz Hi eq_refl) as [<- <-].
  by apply (t_hole _ _ _ Ti _ b _ _ Hb (tiling_first _ _ Hb)).
Qed.

Lemma tiling_add a b : bwf zs a b → (∀ z i, in_block b z i → U z i) →
  (b_kind b = Free → b_order b < MAX_ORDER - 1 →
   ∀ a' b', bl !! a' = Some b' → b_kind b' = Free → ¬ buddies b b') →
  bl !! a = None ∧ tiling zs (<[a := b]> bl) (λ z i, U z i ∧ ¬ in_block b z i).
Proof.
  intros W HU Hco. destruct (b_size_pos _ _ _ W).
  assert (in_block b (b_zone b) (b_idx b)) as Hfst by (unfold in_block, b_end; split; [done|lia]).
  assert (bl !! a = None) as Ha.
  { destruct W as [Hz -> _ Hi _ He]. unfold b_end in He. apply tiling_hole_absent; auto; lia. }
  split; [done|]. split.
  - intros a' b' [[<- <-]|[_ H']]%lookup_insert_Some; [done|by apply Ti].
  - intros a1 b1 a2 b2 z i [[<- <-]|[_ H1]]%lookup_insert_Some
      [[<- <-]|[_ H2]]%lookup_insert_Some Hi1 Hi2; [done| | |by apply (t_disj _ _ _ Ti _ b1 _ b2 z i)];
      exfalso; eapply (t_hole _ _ _ Ti); eauto.
  - intros z i Hz Hi HU'. destruct (decide (b_zone b = z ∧ b_idx b ≤ i < b_end b)) as [Hin|Hin].
    + exists a, b. by rewrite lookup_insert_eq.
    + destruct (t_cover _ _ _ Ti z i Hz Hi) as (a' & b' & Hb' & Hin').
      { intros Hu. apply HU'. split; [done|]. exact Hin. }
      exists a', b'. split; [|done]. rewrite lookup_insert_ne; congruence.
  - intros a' b' z i [[<- <-]|[_ H']]%lookup_insert_Some Hin [Hu Hn]; [done|].
    by apply (t_hole _ _ _ Ti a' b' z i).
  - intros a1 b1 a2 b2 [[<- <-]|[_ H1]]%lookup_insert_Some
      [[<- <-]|[_ H2]]%lookup_insert_Some K1 K2 Ho; [| | |by apply (t_coalesced _ _ _ Ti a1 b1 a2 b2)].
    + intros (_ & _ & E). pose proof (f_equal (Z.lxor (b_idx b)) E) as E'.
      rewrite <- Z.lxor_assoc, !Z.lxor_nilpotent, Z.lxor_0_l in E'. lia.
    + by apply (Hco K1 Ho a2).
    + intros Hbd. pose proof Hbd as (_ & Eo & _).
      apply (Hco K2 ltac:(lia) a1 b1 H1 K1). by apply buddies_sym.
Qed.
End moves.

Lemma tiling_hole_ext bl U U' : tiling zs bl U →
  (∀ z i, z ∈ zs → 0 ≤ i < zi_pages z → U z i ↔ U' z i) → tiling zs bl U'.
Proof.
  intros Ti HU. split; try apply Ti.
  - intros z i Hz Hi Hn. apply (t_cover _ _ _ Ti z i Hz Hi). by rewrite HU.
  - intros a b z i Hb Hin. rewrite <- HU; [by apply (t_hole _ _ _ Ti a b)| |];
      destruct (t_bwf _ _ _ Ti _ _ Hb), Hin as [<- ?]; [done|lia].
Qed.
End zones.

(** ** The concrete representation *)

#[global] Program Instance FreeBlock_node : DllNode FreeBlock := {|
  node_next := next; node_prev := prev; node_set_next := set_next; node_set_prev := set_prev
|}.
Solve Obligations with done.

Section representation.
Context {T : AddressTranslator} {TL : AddressTranslatorLaws T}.
Implicit Types (zs : list zinfo) (bl : gmap Z binfo) (d : bool).

(** How a physical address is stored as a pointer, before and after
    [transition_dmap]. *)
Definition emb (d : bool) (p : Z) : Z := if d then to_dmap p else p.

Definition zone_rec d (z : zinfo) (nx : Z) : Zone := {|
  meta_array := emb d (zi_meta z); data_base := emb d (zi_base z);
  zone_pages := zi_pages z; zone_next := nx |}.

Fixpoint zlist d (m : gmap Z Zone) (p : Z) zs : Prop :=
  match zs with
  | [] => p = 0
  | z :: zs' => p = emb d (zi_ptr z) ∧
      ∃ nx, m !! zi_ptr z = Some (zone_rec d z nx) ∧ zlist d m nx zs'
  end.

(** The metadata byte of each page of a block. *)
Definition b_meta (b : binfo) : Z :=
  if decide (b_kind b = Free) then free_meta (b_order b) else b_order b.

Record meta_ok zs bl (m : gmap Z Z) : Prop := {
  m_block a b i : bl !! a = Some b → b_idx b ≤ i < b_end b →
    m !! (zi_meta (b_zone b) + i) = Some (b_meta b);
  m_dom z i : z ∈ zs → 0 ≤ i < zi_pages z → is_Some (m !! (zi_meta z + i))
}.

Definition is_free (bl : gmap Z binfo) (a o : Z) : Prop :=
  ∃ b, bl !! a = Some b ∧ b_kind b = Free ∧ b_order b = o.

(** [L o] is the free list of order [o]. *)
Record free_ok d bl (fa : list Z) (m : gmap Z FreeBlock) (L : Z → list Z) : Prop := {
  f_len : length fa = Z.to_nat MAX_ORDER;
  f_dll o : 0 ≤ o < MAX_ORDER → ∃ h, fa !! Z.to_nat o = Some h ∧ dll (emb d) m h (L o);
  f_nodup o : 0 ≤ o < MAX_ORDER → NoDup (L o);
  f_mem o a : 0 ≤ o < MAX_ORDER → a ∈ L o ↔ is_free bl a o;
  f_node a b : bl !! a = Some b → b_kind b = Free →
    ∃ n, m !! a = Some n ∧ block_zone n = emb d (zi_ptr (b_zone b)) ∧ page_index n = b_idx b
}.

(** Pages in used blocks. *)
Definition used_size (b : binfo) : Z := if decide (b_kind b = Used) then b_size b else 0.

Definition lowest_base zs : Z := foldr (λ z acc, if decide (acc = 0) then zi_base z
                                                 else Z.min (zi_base z) acc) 0 zs.

Record inv zs bl (U : zinfo → Z → Prop) (s : PageAllocator) : Prop := {
  i_zones : zones_wf zs;
  i_zlist : zlist (is_dmap s) (zones s) (zone_head s) zs;
  i_tiling : tiling zs bl U;
  i_meta : meta_ok zs bl (meta s);
  i_free : ∃ L, free_ok (is_dmap s) bl (free_area s) (blocks s) L;
  i_total : total_pages s = wrap 64 (foldr (λ z acc, zi_pages z + acc) 0 zs);
  i_allocated : allocated_pages s = wrap 64 (msum used_size bl);
  i_lowest : lowest_address s = emb (is_dmap s) (lowest_base zs)
}.

(** The lock is free: the next ticket is the one being served. *)
Definition unlocked (s : PageAllocator) : Prop :=
  TicketLock.users (lock s) = TicketLock.ticket (lock s) ∧ 0 ≤ TicketLock.ticket (lock s) < 2 ^ 64.
Definition locked (s : PageAllocator) : Prop :=
  TicketLock.ticket (lock s) = wrap 64 (TicketLock.users (lock s) + 1) ∧
  0 ≤ TicketLock.users (lock s) < 2 ^ 64.

(** *** Pointers *)

Lemma to_dmap_nonzero p : p ≠ 0 → to_dmap p = phys_to_dmap p.
Proof. intros. unfold to_dmap. by rewrite (proj2 (Z.eqb_neq p 0)). Qed.

Lemma emb_zero d p : phys_addr p → emb d p = 0 ↔ p = 0.
Proof.
  intros Hp. destruct d; simpl; [|done]. split; [|by intros ->].
  intros E. destruct (decide (p = 0)) as [|H0]; [done|].
  rewrite to_dmap_nonzero in E by done. by apply phys_to_dmap_nonzero in E.
Qed.

Lemma emb_phys d p : phys_addr p → dmap_to_phys (emb d p) = p.
Proof.
  intros Hp. destruct d; simpl; [|by apply dmap_phys_id].
  destruct (decide (p = 0)) as [->|]; [by apply dmap_phys_id|].
  rewrite to_dmap_nonzero by done. by apply dmap_phys_dmap.
Qed.

Lemma emb_inj d p q : phys_addr p → phys_addr q → emb d p = emb d q → p = q.
Proof. intros Hp Hq E. rewrite <- (emb_phys d p), <- (emb_phys d q) by done. by f_equal. Qed.

Lemma emb_add d p i : phys_addr p → phys_addr (p + i) → p ≠ 0 → p + i ≠ 0 →
  emb d (p + i) = emb d p + i.
Proof.
  intros. destruct d; simpl; [|done]. rewrite !to_dmap_nonzero by done. by apply phys_dmap_add.
Qed.

(** Metadata pointers, whose array may start at the null address. *)
Lemma emb_phys_add d p i : phys_addr p → phys_addr (p + i) → dmap_to_phys (emb d p + i) = p + i.
Proof.
  intros Hp Hpi. destruct d; simpl; [|by apply dmap_phys_id].
  destruct (decide (p = 0)) as [->|]; [by apply dmap_phys_id|].
  rewrite to_dmap_nonzero by done. rewrite <- phys_dmap_add by done. by apply dmap_phys_dmap.
Qed.

Lemma emb_range d p : phys_addr p → 0 ≤ emb d p < 2 ^ 64.
Proof.
  intros Hp. pose proof Hp as [??]. unfold VA_WIDTH in *. destruct d; simpl; [|lia].
  destruct (decide (p = 0)) as [->|]; [by unfold to_dmap|].
  rewrite to_dmap_nonzero by done. by apply phys_dmap_range.
Qed.

Lemma emb_zaddr zs d z i : zones_wf zs → z ∈ zs → 0 ≤ i ≤ zi_pages z →
  emb d (zi_base z) + i * PAGE_SIZE = emb d (zaddr z i).
Proof.
  intros ZW Hz Hi. pose proof (zs_wf _ ZW _ Hz) as [].
  destruct (zaddr_phys _ ZW z 0 Hz) as [H0 H0']; [lia|].
  destruct (zaddr_phys _ ZW z i Hz Hi).
  unfold zaddr in *. rewrite Z.mul_0_l, Z.add_0_r in *. symmetry. by apply emb_add.
Qed.

Lemma emb_meta zs d z i : zones_wf zs → z ∈ zs → 0 ≤ i ≤ zi_pages z →
  dmap_to_phys (emb d (zi_meta z) + i) = zi_meta z + i.
Proof.
  intros ZW Hz Hi. apply emb_phys_add; [|by apply (meta_phys zs)].
  rewrite <- (Z.add_0_r (zi_meta z)). apply (meta_phys zs); [done..|lia].
Qed.

(** *** Lock *)

Lemma wp_lock s (Q : unit → PageAllocator → Prop) : unlocked s →
  (∀ l, locked (set_lock l s) → Q tt (set_lock l s)) → wp lock_pages Q s.
Proof.
  intros [E Hr] HQ. unfold wp, lock_pages, TicketLock.lock_alone. simpl.
  unfold TicketLock.may_enter. simpl. rewrite E, Z.eqb_refl. apply HQ.
  split; simpl; congruence.
Qed.

Lemma wp_unlock s (Q : unit → PageAllocator → Prop) : locked s →
  (∀ l, unlocked (set_lock l s) → Q tt (set_lock l s)) → wp unlock_pages Q s.
Proof.
  intros [E Hr] HQ. unfold unlock_pages. wp_steps. apply HQ. split; simpl; [by rewrite E|].
  rewrite E. by apply wrap_range.
Qed.

Lemma inv_set_lock zs bl U l s : inv zs bl U (set_lock l s) ↔ inv zs bl U s.
Proof. split; intros []; split; done. Qed.

Lemma wp_usize x (Q : Z → PageAllocator → Prop) s : 0 ≤ x < 2 ^ 64 → Q x s → wp (usize x) Q s.
Proof.
  intros Hx HQ. unfold wp, usize, in_range.
  by rewrite (proj2 (Z.leb_le _ _)), (proj2 (Z.ltb_lt _ _)) by lia.
Qed.

Lemma wp_shl1 o (Q : Z → PageAllocator → Prop) s : 0 ≤ o < 64 → Q (2 ^ o) s → wp (shl1 o) Q s.
Proof.
  intros Ho HQ. unfold wp, shl1.
  rewrite (proj2 (Z.leb_le _ _)), (proj2 (Z.ltb_lt _ _)) by lia. simpl.
  by rewrite shiftl_1 by lia.
Qed.
End representation.
