(* ===== verification/PageProofs.v ===== *)
(** * Correctness of the page allocator's operations

    Each operation of [PageAlloc] against the invariant of [PageInv]: the
    accesses and the list operations first, then [alloc_pages],
    [free_pages] and the queries. *)

From S2P Require Import Prelude Vm Sync PageAlloc Dll PageInv.

(** ** Metadata writes *)

Fixpoint fill (m : gmap Z Z) (a : Z) (n : nat) (v : Z) : gmap Z Z :=
  match n with
  | O => m
  | S n' => fill (<[a := v]> m) (a + 1) n' v
  end.

Lemma fill_lookup m a n v k :
  fill m a n v !! k = if decide (a ≤ k < a + Z.of_nat n) then Some v else m !! k.
Proof.
  revert m a. induction n as [|n IH]; intros m a; simpl.
  - rewrite decide_False by lia. done.
  - rewrite IH. destruct (decide (k = a)) as [->|Hk].
    + rewrite lookup_insert_eq. repeat case_decide; (done || lia).
    + rewrite lookup_insert_ne by done. repeat case_decide; (done || lia).
Qed.

Section proofs.
Context {T : AddressTranslator} {TL : AddressTranslatorLaws T}.
Implicit Types (zs : list zinfo) (bl : gmap Z binfo) (d : bool) (s : PageAllocator).

Lemma wp_fill_meta ptr a n v s (Q : unit → PageAllocator → Prop) :
  (∀ k, 0 ≤ k < Z.of_nat n → dmap_to_phys (ptr + k) = a + k ∧ is_Some (meta s !! (a + k))) →
  Q tt (set_meta (fill (meta s) a n v) s) → wp (fill_meta ptr n v) Q s.
Proof.
  revert ptr a s. induction n as [|n IH]; intros ptr a s Hk HQ; simpl.
  - by destruct s.
  - destruct (Hk 0) as [Ep [v0 Hv]]; [lia|]. rewrite !Z.add_0_r in *.
    unfold write_meta. wp_steps. unfold wp at 1, read_meta. rewrite Ep, Hv. wp_steps.
    apply (IH _ (a + 1)); [|done].
    intros k Hkn. destruct (Hk (1 + k)) as [Ep' Hv']; [lia|]. simpl.
    replace (ptr + 1 + k) with (ptr + (1 + k)) by lia.
    replace (a + 1 + k) with (a + (1 + k)) by lia.
    split; [done|]. by rewrite lookup_insert_ne by lia.
Qed.

Lemma wp_write_bytes ptr a n v s (Q : unit → PageAllocator → Prop) :
  (∀ k, 0 ≤ k < Z.of_nat n → dmap_to_phys (ptr + k) = a + k) →
  Q tt (set_meta (fill (meta s) a n v) s) → wp (write_bytes ptr v n) Q s.
Proof.
  revert ptr a s. induction n as [|n IH]; intros ptr a s Hk HQ; simpl.
  - by destruct s.
  - pose proof (Hk 0) as Ep. rewrite !Z.add_0_r in Ep. specialize (Ep ltac:(lia)). wp_steps.
    apply (IH _ (a + 1)); [|by rewrite Ep].
    intros k Hkn. replace (ptr + 1 + k) with (ptr + (1 + k)) by lia.
    replace (a + 1 + k) with (a + (1 + k)) by lia. apply Hk. lia.
Qed.

(** Bytes of the hole may be rewritten. *)
Lemma meta_ok_fill zs bl U m z i n v :
  zones_wf zs → tiling zs bl U → meta_ok zs bl m → z ∈ zs → 0 ≤ i → i + Z.of_nat n ≤ zi_pages z →
  (∀ j, i ≤ j < i + Z.of_nat n → U z j) → meta_ok zs bl (fill m (zi_meta z + i) n v).
Proof.
  intros ZW Ti [Mb Md] Hz Hi Hn HU. split.
  - intros a b j Hb Hj. rewrite fill_lookup, decide_False; [by apply (Mb a)|]. intros Hin.
    pose proof (t_bwf _ _ _ Ti _ _ Hb) as [].
    destruct (meta_zone_inj _ ZW (b_zone b) z j (zi_meta (b_zone b) + j - zi_meta z)) as [Ez Ej];
      [done|done|lia|lia|lia|].
    apply (t_hole _ _ _ Ti a b z j Hb); [split; [done|lia]|]. apply HU. rewrite Ez in *. lia.
  - intros z' j Hz' Hj. rewrite fill_lookup. case_decide; [by eexists|]. by apply Md.
Qed.

Lemma meta_ok_delete zs bl m a : meta_ok zs bl m → meta_ok zs (delete a bl) m.
Proof. intros [Mb Md]. split; [|done]. intros a' b j [_ Hb]%lookup_delete_Some. by apply (Mb a'). Qed.

Lemma meta_ok_insert zs bl m a b : meta_ok zs bl m →
  (∀ i, b_idx b ≤ i < b_end b → m !! (zi_meta (b_zone b) + i) = Some (b_meta b)) →
  meta_ok zs (<[a := b]> bl) m.
Proof.
  intros [Mb Md] Hb. split; [|done].
  intros a' b' j [[<- <-]|[_ Hb']]%lookup_insert_Some; [apply Hb|by apply (Mb a')].
Qed.

(** ** Zones *)

Lemma zlist_lookup d m p zs z : zlist d m p zs → z ∈ zs →
  ∃ nx, m !! zi_ptr z = Some (zone_rec d z nx).
Proof.
  revert p. induction zs as [|z' zs IH]; intros p Hl Hz; [set_solver|].
  destruct Hl as (_ & nx & Hm & Hl). apply elem_of_cons in Hz as [->|]; eauto.
Qed.

Lemma zlist_insert d m p zs a r : (∀ z, z ∈ zs → zi_ptr z ≠ a) →
  zlist d m p zs → zlist d (<[a := r]> m) p zs.
Proof.
  revert p. induction zs as [|z zs IH]; intros p Hne Hl; [done|].
  destruct Hl as (-> & nx & Hm & Hl). split; [done|]. exists nx.
  rewrite lookup_insert_ne by (apply not_eq_sym, Hne; set_solver). split; [done|].
  apply IH; [|done]. intros z' Hz'. apply Hne. set_solver.
Qed.

Lemma wp_deref_zone zs bl U z s (Q : Zone → PageAllocator → Prop) : inv zs bl U s → z ∈ zs →
  (∀ nx, Q (zone_rec (is_dmap s) z nx) s) → wp (deref_zone (emb (is_dmap s) (zi_ptr z))) Q s.
Proof.
  intros I Hz HQ. destruct (zlist_lookup _ _ _ _ z (i_zlist _ _ _ _ I) Hz) as [nx Hm].
  unfold wp, deref_zone. rewrite emb_phys by (by apply (ptr_phys _ (i_zones _ _ _ _ I))).
  by rewrite Hm.
Qed.

(** ** Free lists *)

(** What an update through a possibly null pointer does. *)
Definition upd (p : Z) (f : FreeBlock → FreeBlock) (m : gmap Z FreeBlock) : gmap Z FreeBlock :=
  if p =? 0 then m else alter f (dmap_to_phys p) m.

Lemma upd_redirect d o f m : (∀ a, o = Some a → phys_addr a ∧ a ≠ 0) →
  upd (from_option (emb d) 0 o) f m = redirect o f m.
Proof.
  intros Ho. unfold upd. destruct o as [a|]; [|done]. destruct (Ho a eq_refl) as [Ha Ha0]. simpl.
  destruct (Z.eqb_spec (emb d a) 0) as [E|_]; [by apply emb_zero in E|]. by rewrite emb_phys.
Qed.

Lemma set_blocks_id s : set_blocks (blocks s) s = s.
Proof. by destruct s. Qed.

Lemma wp_upd p f s (Q : unit → PageAllocator → Prop) :
  (p ≠ 0 → is_Some (blocks s !! dmap_to_phys p)) → Q tt (set_blocks (upd p f (blocks s)) s) →
  wp (if p =? 0 then ret tt else update_block p f) Q s.
Proof.
  intros Hp HQ. unfold upd in HQ. destruct (Z.eqb_spec p 0).
  - wp_steps. by rewrite set_blocks_id in HQ.
  - destruct (Hp n) as [b Hb]. unfold update_block. wp_steps. unfold wp at 1, deref_block.
    rewrite Hb. by wp_steps.
Qed.

Lemma wp_get_free_area o h s (Q : Z → PageAllocator → Prop) :
  free_area s !! Z.to_nat o = Some h → Q h s → wp (get_free_area o) Q s.
Proof. intros Hh HQ. unfold get_free_area. wp_steps. by apply (wp_expect _ h). Qed.

Lemma wp_set_free_head o v s (Q : unit → PageAllocator → Prop) :
  is_Some (free_area s !! Z.to_nat o) →
  Q tt (set_free_area (<[Z.to_nat o := v]> (free_area s)) s) → wp (set_free_head o v) Q s.
Proof.
  intros [h Hh] HQ. unfold set_free_head. wp_steps. apply (wp_get_free_area _ h); [done|].
  by wp_steps.
Qed.

(** Redirecting a neighbour keeps the payload of every node. *)
Definition payload_eq (n n' : FreeBlock) : Prop :=
  block_zone n = block_zone n' ∧ page_index n = page_index n'.

Lemma redirect_payload o f m a n : (∀ n, payload_eq n (f n)) → m !! a = Some n →
  ∃ n', redirect o f m !! a = Some n' ∧ payload_eq n n'.
Proof.
  intros Hf Ha. destruct (decide (o = Some a)) as [->|Hne].
  - simpl. rewrite lookup_alter_eq, Ha. eexists. split; [done|]. apply Hf.
  - rewrite redirect_lookup_ne by done. by eexists.
Qed.

Definition set_list (L : Z → list Z) (o : Z) (l : list Z) : Z → list Z :=
  λ o', if decide (o' = o) then l else L o'.

Lemma set_list_eq L o l : set_list L o l o = l.
Proof. unfold set_list. by rewrite decide_True. Qed.
Lemma set_list_ne L o l o' : o' ≠ o → set_list L o l o' = L o'.
Proof. intros. unfold set_list. by rewrite decide_False. Qed.

Lemma is_free_insert bl a b a' o : bl !! a = None → b_kind b = Free →
  is_free (<[a := b]> bl) a' o ↔ (a' = a ∧ o = b_order b) ∨ is_free bl a' o.
Proof.
  intros Ha Hk. unfold is_free. split.
  - intros (b' & [[<- <-]|[Hne Hb']]%lookup_insert_Some & Hk' & <-); [by left|]. right. eauto.
  - intros [[-> ->]|(b' & Hb' & Hk' & <-)].
    + exists b. by rewrite lookup_insert_eq.
    + exists b'. rewrite lookup_insert_ne by congruence. done.
Qed.

Lemma is_free_delete bl a b a' o : bl !! a = Some b → b_kind b = Free →
  is_free (delete a bl) a' o ↔ is_free bl a' o ∧ ¬ (a' = a ∧ o = b_order b).
Proof.
  intros Ha Hk. unfold is_free. split.
  - intros (b' & [Hne Hb']%lookup_delete_Some & Hk' & <-). split; [eauto|]. naive_solver.
  - intros [(b' & Hb' & Hk' & <-) Hn]. exists b'. split; [|done].
    rewrite lookup_delete_ne; [done|]. intros ->. simplify_eq. tauto.
Qed.

Section lists.
Context (d : bool) (bl : gmap Z binfo) (fa : list Z) (m : gmap Z FreeBlock) (L : Z → list Z).
Context (F : free_ok d bl fa m L).
Context (Hphys : ∀ a b, bl !! a = Some b → phys_addr a ∧ a ≠ 0).
Context (Hord : ∀ a b, bl !! a = Some b → 0 ≤ b_order b < MAX_ORDER).

Lemma list_phys o a : 0 ≤ o < MAX_ORDER → a ∈ L o → phys_addr a ∧ a ≠ 0.
Proof. intros Ho Ha. apply (f_mem _ _ _ _ _ F) in Ha as (b & Hb & _); eauto. Qed.

Lemma list_order o a b : 0 ≤ o < MAX_ORDER → a ∈ L o → bl !! a = Some b → b_order b = o.
Proof. intros Ho (b' & Hb' & _ & Eo)%(f_mem _ _ _ _ _ F) Hb; [|done]. congruence. Qed.

Lemma list_other o o' a : 0 ≤ o < MAX_ORDER → 0 ≤ o' < MAX_ORDER → o ≠ o' → a ∈ L o → a ∉ L o'.
Proof.
  intros Ho Ho' Hne Ha Ha'. pose proof Ha as (b & Hb & _)%(f_mem _ _ _ _ _ F); [|done].
  pose proof (list_order o a b Ho Ha Hb). pose proof (list_order o' a b Ho' Ha' Hb). lia.
Qed.

Lemma list_absent o a : 0 ≤ o < MAX_ORDER → bl !! a = None → a ∉ L o.
Proof. intros Ho Hn (b & Hb & _)%(f_mem _ _ _ _ _ F); [|done]. congruence. Qed.

Lemma free_head o h : 0 ≤ o < MAX_ORDER → fa !! Z.to_nat o = Some h →
  h = from_option (emb d) 0 (head (L o)) ∧ dll (emb d) m h (L o).
Proof.
  intros Ho Hh. destruct (f_dll _ _ _ _ _ F o Ho) as (h' & Hh' & Hl). simplify_eq.
  split; [|done]. by apply (dll_head_ptr (emb d) m).
Qed.

Lemma list_node o a : 0 ≤ o < MAX_ORDER → a ∈ L o → is_Some (m !! a).
Proof.
  intros Ho Ha. destruct (f_dll _ _ _ _ _ F o Ho) as (h & _ & q & Hs).
  by eapply dseg_lookup.
Qed.

(** A new free block in front of its list. *)
Lemma free_ok_push a b h : bl !! a = None → b_kind b = Free → 0 ≤ b_order b < MAX_ORDER →
  fa !! Z.to_nat (b_order b) = Some h →
  free_ok d (<[a := b]> bl) (<[Z.to_nat (b_order b) := emb d a]> fa)
    (redirect (head (L (b_order b))) (set_prev (emb d a))
       (<[a := {| next := h; prev := 0; block_zone := emb d (zi_ptr (b_zone b));
                  page_index := b_idx b |}]> m))
    (set_list L (b_order b) (a :: L (b_order b))).
Proof.
  intros Ha Hk Ho Hh. set (o := b_order b) in *. destruct (free_head o h Ho Hh) as [_ Hl].
  set (nd := {| next := h; prev := 0; block_zone := emb d (zi_ptr (b_zone b));
                page_index := b_idx b |}).
  pose proof (lookup_lt_Some _ _ _ Hh) as Hlen.
  assert (∀ o', 0 ≤ o' < MAX_ORDER → a ∉ L o') as Ha' by (intros; by apply list_absent).
  assert (∀ o' c, 0 ≤ o' < MAX_ORDER → o' ≠ o → c ∈ L o' → c ≠ a ∧ head (L o) ≠ Some c) as Hoth.
  { intros o' c Ho' Hne Hc. split; [by intros ->; eapply Ha'|].
    intros E%head_Some_elem_of. by apply (list_other o o' c). }
  split.
  - by rewrite length_insert, (f_len _ _ _ _ _ F).
  - intros o' Ho'. destruct (decide (o' = o)) as [->|Hne].
    + exists (emb d a). rewrite set_list_eq, list_lookup_insert_eq by done. split; [done|].
      refine (dll_push (emb d) m h (L o) a nd _ Hl eq_refl eq_refl).
      apply NoDup_cons. split; [by apply Ha'|]. by apply (f_nodup _ _ _ _ _ F).
    + destruct (f_dll _ _ _ _ _ F o' Ho') as (h' & Hh' & Hl'). exists h'.
      rewrite set_list_ne, list_lookup_insert_ne by lia. split; [done|].
      apply (dll_frame (emb d) m); [|done]. intros c Hc. destruct (Hoth o' c Ho' Hne Hc).
      rewrite redirect_lookup_ne, lookup_insert_ne by done. done.
  - intros o' Ho'. unfold set_list. case_decide; [subst|by apply (f_nodup _ _ _ _ _ F)].
    apply NoDup_cons. split; [by apply Ha'|]. by apply (f_nodup _ _ _ _ _ F).
  - intros o' c Ho'. rewrite is_free_insert, <- (f_mem _ _ _ _ _ F) by done.
    unfold set_list. case_decide; [subst|]; set_solver.
  - intros c b' Hb' Hk'. destruct (decide (c = a)) as [->|Hne].
    + rewrite lookup_insert_eq in Hb'. simplify_eq.
      rewrite redirect_lookup_ne, lookup_insert_eq; [by eexists|].
      intros E%head_Some_elem_of. by apply (Ha' o Ho).
    + rewrite lookup_insert_ne in Hb' by done.
      destruct (f_node _ _ _ _ _ F c b' Hb' Hk') as (n & Hn & E1 & E2).
      destruct (redirect_payload (head (L o)) (set_prev (emb d a)) (<[a := nd]> m) c n) as (n' & Hn' & P1 & P2);
        [done|by rewrite lookup_insert_ne|].
      exists n'. rewrite <- P1, <- P2. done.
Qed.

Lemma emb_eqb_zero o1 : (∀ a, o1 = Some a → phys_addr a ∧ a ≠ 0) →
  (from_option (emb d) 0 o1 =? 0) = bool_decide (o1 = None).
Proof.
  intros Ho. destruct o1 as [c|]; [|done]. destruct (Ho c eq_refl). simpl.
  apply Z.eqb_neq. by rewrite emb_zero.
Qed.

(** A free block leaves its list; [upd] are the writes of the code. *)
Lemma free_ok_unlink a b n : bl !! a = Some b → b_kind b = Free → m !! a = Some n →
  let o := b_order b in
  (prev n ≠ 0 → is_Some (m !! dmap_to_phys (prev n))) ∧
  (next n ≠ 0 → is_Some (upd (prev n) (set_next (next n)) m !! dmap_to_phys (next n))) ∧
  ∃ L', free_ok d (delete a bl) (if prev n =? 0 then <[Z.to_nat o := next n]> fa else fa)
          (upd (next n) (set_prev (prev n)) (upd (prev n) (set_next (next n)) m)) L'.
Proof.
  intros Hb Hk Hn o. pose proof (Hord a b Hb) as Ho. fold o in Ho.
  assert (a ∈ L o) as Hin by (apply (f_mem _ _ _ _ _ F); [done|]; by exists b).
  destruct (list_elem_of_split _ _ Hin) as (L1 & L2 & EL).
  destruct (f_dll _ _ _ _ _ F o Ho) as (h & Hh & Hl). pose proof (f_nodup _ _ _ _ _ F o Ho) as Hnd.
  rewrite EL in Hl, Hnd.
  destruct (dll_unlink (emb d) m h L1 a L2 n Hnd Hl Hn) as (Ep & En & Hl'). simpl in Ep, En.
  assert (∀ c, c ∈ L1 ++ L2 → c ∈ L o ∧ c ≠ a) as Hsub.
  { intros c Hc. rewrite EL. apply NoDup_app in Hnd as (_ & Hd & [Ha2 _]%NoDup_cons).
    split; [set_solver|]. intros ->. apply elem_of_app in Hc as [Hc|Hc]; [|done].
    apply (Hd a Hc). set_solver. }
  assert (∀ c, last L1 = Some c → c ∈ L o) as Hlast.
  { intros c E%last_Some_elem_of. apply Hsub. set_solver. }
  assert (∀ c, head L2 = Some c → c ∈ L o) as Hhead.
  { intros c E%head_Some_elem_of. apply Hsub. set_solver. }
  assert (upd (prev n) (set_next (next n)) m = redirect (last L1) (set_next (next n)) m) as E1.
  { rewrite Ep. apply upd_redirect. intros c Hc. by apply (list_phys o), Hlast. }
  assert (∀ f m', upd (next n) f m' = redirect (head L2) f m') as E2.
  { intros f m'. rewrite En. apply upd_redirect. intros c Hc. by apply (list_phys o), Hhead. }
  rewrite E1, E2.
  split; [|split].
  - rewrite Ep. intros H0. destruct (last L1) as [c|] eqn:E; [|done]. simpl.
    rewrite emb_phys by (by apply (list_phys o), Hlast). by apply (list_node o), Hlast.
  - intros H0. rewrite En. rewrite En in H0. destruct (head L2) as [c|] eqn:E; [|done]. simpl.
    rewrite emb_phys by (by apply (list_phys o), Hhead).
    destruct (list_node o c) as [nc Hnc]; [done|by apply Hhead|].
    destruct (redirect_payload (last L1) (set_next (emb d c)) m c nc) as (? & -> & _); [done..|].
    by eexists.
  - exists (set_list L o (L1 ++ L2)).
    assert ((prev n =? 0) = bool_decide (last L1 = None)) as Eb.
    { rewrite Ep. apply emb_eqb_zero. intros c Hc. by apply (list_phys o), Hlast. }
    split.
    + destruct (prev n =? 0); rewrite ?length_insert; apply F.
    + intros o' Ho'. destruct (decide (o' = o)) as [->|Hne].
      * exists (if last L1 is Some _ then h else next n). rewrite set_list_eq. split; [|exact Hl'].
        rewrite Eb. destruct (last L1); simpl; [done|].
        apply list_lookup_insert_eq. by eapply lookup_lt_Some.
      * destruct (f_dll _ _ _ _ _ F o' Ho') as (h' & Hh' & Hl2). exists h'.
        rewrite set_list_ne by done. split.
        { destruct (prev n =? 0); [|done]. rewrite list_lookup_insert_ne by lia. done. }
        apply (dll_frame (emb d) m); [|done]. intros c Hc.
        rewrite !redirect_lookup_ne; [done| |]; intros E;
          (eapply (list_other o' o c); [done..|auto]).
    + intros o' Ho'. unfold set_list. case_decide; [|by apply (f_nodup _ _ _ _ _ F)].
      apply NoDup_app in Hnd as (N1 & Hd & [_ N2]%NoDup_cons). apply NoDup_app.
      split; [done|]. split; [set_solver|done].
    + intros o' c Ho'. rewrite (is_free_delete bl a b) by done. fold o.
      rewrite <- (f_mem _ _ _ _ _ F) by done.
      unfold set_list. case_decide as Eo; [subst o'|]; [|tauto]. rewrite EL.
      split; [|set_solver]. intros Hc. destruct (Hsub c Hc) as [Hc1 Hc2]. rewrite <- EL. tauto.
    + intros c b' [Hne Hb']%lookup_delete_Some Hk'.
      destruct (f_node _ _ _ _ _ F c b' Hb' Hk') as (nc & Hnc & P1 & P2).
      destruct (redirect_payload (last L1) (set_next (next n)) m c nc)
        as (n1 & Hn1 & Q1 & Q2); [done..|].
      destruct (redirect_payload (head L2) (set_prev (prev n)) _ c n1 ltac:(done) Hn1)
        as (n2 & Hn2 & R1 & R2).
      exists n2. split; [exact Hn2|]. split; congruence.
Qed.
End lists.

(** ** The ghost moves on the whole invariant *)

Lemma inv_list_facts zs bl U s : inv zs bl U s →
  (∀ a b, bl !! a = Some b → phys_addr a ∧ a ≠ 0) ∧
  (∀ a b, bl !! a = Some b → 0 ≤ b_order b < MAX_ORDER).
Proof.
  intros I. split; intros a b Hb.
  - by eapply block_phys; [apply I|apply I|].
  - by eapply bwf_order, t_bwf; [apply I|].
Qed.

Lemma used_size_free b : b_kind b = Free → used_size b = 0.
Proof. intros E. unfold used_size. by rewrite E. Qed.

Lemma wp_fill_hole zs bl U s z i n v (Q : unit → PageAllocator → Prop) :
  inv zs bl U s → z ∈ zs → 0 ≤ i → 0 ≤ n → i + n ≤ zi_pages z →
  (∀ j, i ≤ j < i + n → U z j) →
  (inv zs bl U (set_meta (fill (meta s) (zi_meta z + i) (Z.to_nat n) v) s) →
   Q tt (set_meta (fill (meta s) (zi_meta z + i) (Z.to_nat n) v) s)) →
  wp (fill_meta (emb (is_dmap s) (zi_meta z) + i) (Z.to_nat n) v) Q s.
Proof.
  intros I Hz Hi Hn Hin HU HQ. pose proof (i_zones _ _ _ _ I) as ZW.
  apply (wp_fill_meta _ (zi_meta z + i)).
  - intros k Hk. rewrite <- !Z.add_assoc. split.
    + apply (emb_meta zs); (done || lia).
    + apply (m_dom _ _ _ (i_meta _ _ _ _ I)); [done|lia].
  - apply HQ. split; try apply I. simpl.
    apply (meta_ok_fill _ _ U); try apply I; try done; [lia|]. intros j Hj. apply HU. lia.
Qed.

Lemma wp_push_free zs bl U s a b (Q : unit → PageAllocator → Prop) :
  inv zs bl U s → bwf zs a b → b_kind b = Free → (∀ z i, in_block b z i → U z i) →
  (b_order b < MAX_ORDER - 1 →
   ∀ a' b', bl !! a' = Some b' → b_kind b' = Free → ¬ buddies b b') →
  (∀ i, b_idx b ≤ i < b_end b →
     meta s !! (zi_meta (b_zone b) + i) = Some (free_meta (b_order b))) →
  (∀ fa m, bl !! a = None → inv zs (<[a := b]> bl) (λ z i, U z i ∧ ¬ in_block b z i)
                (set_free_area fa (set_blocks m s)) → Q tt (set_free_area fa (set_blocks m s))) →
  wp (push_free (emb (is_dmap s) (zi_ptr (b_zone b))) (emb (is_dmap s) a) (b_idx b) (b_order b)) Q s.
Proof.
  intros I W Hk HU Hco Hm HQ. destruct (inv_list_facts _ _ _ _ I) as [Hph Hor].
  destruct (tiling_add zs (i_zones _ _ _ _ I) bl U (i_tiling _ _ _ _ I) a b W HU) as [Ha Ti'];
    [auto|]. pose proof (bwf_order _ _ _ W) as Ho.
  destruct (i_free _ _ _ _ I) as [L F]. destruct (f_dll _ _ _ _ _ F _ Ho) as (h & Hh & Hl).
  destruct (free_head _ _ _ _ _ F _ h Ho Hh) as [Eh _].
  assert (phys_addr a) as Hpa.
  { rewrite (bwf_addr _ _ _ W). apply (zaddr_phys _ (i_zones _ _ _ _ I)); [apply W|].
    pose proof (bwf_idx _ _ _ W). pose proof (bwf_end _ _ _ W). pose proof (b_size_pos _ _ _ W).
    unfold b_end in *. lia. }
  unfold push_free. wp_step. apply (wp_get_free_area _ h); [done|]. unfold init_block. wp_steps.
  rewrite emb_phys by done.
  assert (∀ c, head (L (b_order b)) = Some c → c ∈ L (b_order b)) as Hin.
  { intros c. apply head_Some_elem_of. }
  apply wp_upd; simpl.
  { rewrite Eh. intros H0. destruct (head (L (b_order b))) as [c|] eqn:Ec; [|done]. simpl.
    rewrite emb_phys by (by eapply list_phys; eauto). apply lookup_insert_is_Some'. right.
    eapply list_node; eauto. }
  apply wp_set_free_head; simpl; [by eexists|].
  rewrite Eh at 1. rewrite upd_redirect by (intros; eapply list_phys; eauto).
  apply (HQ _ _ Ha). split; try apply I; simpl; [done| | |].
  - apply meta_ok_insert; [apply I|]. intros i Hi. rewrite Hm by done.
    unfold b_meta. by rewrite Hk.
  - eexists. by apply free_ok_push.
  - rewrite msum_insert, used_size_free by done. apply I.
Qed.

(** A free block leaves the tiling when its list node is unlinked. *)
Lemma inv_unlink zs bl U s a b n :
  inv zs bl U s → bl !! a = Some b → b_kind b = Free → blocks s !! a = Some n →
  (prev n ≠ 0 → is_Some (blocks s !! dmap_to_phys (prev n))) ∧
  (next n ≠ 0 → is_Some (upd (prev n) (set_next (next n)) (blocks s) !! dmap_to_phys (next n))) ∧
  inv zs (delete a bl) (λ z i, U z i ∨ in_block b z i)
    (set_blocks (upd (next n) (set_prev (prev n)) (upd (prev n) (set_next (next n)) (blocks s)))
      (set_free_area (if prev n =? 0 then <[Z.to_nat (b_order b) := next n]> (free_area s)
                      else free_area s) s)).
Proof.
  intros I Hb Hk Hn. destruct (inv_list_facts _ _ _ _ I) as [Hph Hor].
  destruct (i_free _ _ _ _ I) as [L F].
  destruct (free_ok_unlink _ _ _ _ _ F Hph Hor a b n Hb Hk Hn) as (H1 & H2 & L' & F').
  split; [done|]. split; [done|]. split; try apply I; simpl.
  - apply tiling_remove; [apply I|done].
  - apply meta_ok_delete, I.
  - by exists L'.
  - rewrite (i_allocated _ _ _ _ I), (msum_delete _ bl a b Hb), used_size_free by done. done.
Qed.

Lemma free_node zs bl U s a b : inv zs bl U s → bl !! a = Some b → b_kind b = Free →
  ∃ n, blocks s !! a = Some n ∧
    block_zone n = emb (is_dmap s) (zi_ptr (b_zone b)) ∧ page_index n = b_idx b.
Proof. intros I Hb Hk. destruct (i_free _ _ _ _ I) as [L F]. by apply (f_node _ _ _ _ _ F). Qed.

(** A used block enters the hole it fits, or leaves the tiling. *)
Lemma inv_add_used zs bl U s a b :
  inv zs bl U s → bwf zs a b → b_kind b = Used → (∀ z i, in_block b z i → U z i) →
  (∀ i, b_idx b ≤ i < b_end b → meta s !! (zi_meta (b_zone b) + i) = Some (b_order b)) →
  bl !! a = None ∧ inv zs (<[a := b]> bl) (λ z i, U z i ∧ ¬ in_block b z i)
    (set_allocated_pages (wrap 64 (allocated_pages s + b_size b)) s).
Proof.
  intros I W Hk HU Hm.
  destruct (tiling_add zs (i_zones _ _ _ _ I) bl U (i_tiling _ _ _ _ I) a b W HU) as [Ha Ti'];
    [congruence|]. split; [done|]. split; try apply I; simpl; [done| | |].
  - apply meta_ok_insert; [apply I|]. intros i Hi. rewrite Hm by done. unfold b_meta. by rewrite Hk.
  - destruct (i_free _ _ _ _ I) as [L F]. exists L. split; try apply F.
    + intros o c Ho. rewrite (f_mem _ _ _ _ _ F) by done. unfold is_free. split.
      * intros (b' & Hb' & ?). exists b'. rewrite lookup_insert_ne; [done|]. congruence.
      * intros (b' & [[<- <-]|[_ Hb']]%lookup_insert_Some & ?); [destruct_and?; congruence|eauto].
    + intros c b' [[<- <-]|[_ Hb']]%lookup_insert_Some Hk'; [congruence|].
      by apply (f_node _ _ _ _ _ F).
  - rewrite (i_allocated _ _ _ _ I), msum_insert, wrap_add_l by done. unfold used_size at 2.
    rewrite decide_True by done. f_equal. lia.
Qed.

Lemma inv_remove_used zs bl U s a b :
  inv zs bl U s → bl !! a = Some b → b_kind b = Used →
  inv zs (delete a bl) (λ z i, U z i ∨ in_block b z i)
    (set_allocated_pages (wrap 64 (allocated_pages s - b_size b)) s).
Proof.
  intros I Hb Hk. split; try apply I; simpl.
  - apply tiling_remove; [apply I|done].
  - apply meta_ok_delete, I.
  - destruct (i_free _ _ _ _ I) as [L F]. exists L. split; try apply F.
    + intros o c Ho. rewrite (f_mem _ _ _ _ _ F) by done. unfold is_free. split.
      * intros (b' & Hb' & ?). exists b'. rewrite lookup_delete_ne; [done|]. intros <-.
        destruct_and?. congruence.
      * intros (b' & [_ Hb']%lookup_delete_Some & ?). eauto.
    + intros c b' [_ Hb']%lookup_delete_Some Hk'. by apply (f_node _ _ _ _ _ F).
  - rewrite (i_allocated _ _ _ _ I), (msum_delete _ bl a b Hb).
    unfold Z.sub. rewrite wrap_add_l. unfold used_size at 1. rewrite decide_True by done.
    f_equal. lia.
Qed.

Lemma inv_hole_ext zs bl U U' s : inv zs bl U s →
  (∀ z i, z ∈ zs → 0 ≤ i < zi_pages z → U z i ↔ U' z i) → inv zs bl U' s.
Proof. intros I HU. split; try apply I. by eapply tiling_hole_ext; [apply I|]. Qed.

(** ** What the client owns

    Address and order of each used block. *)
Definition owned (bl : gmap Z binfo) : gmap Z Z :=
  omap (λ b, if decide (b_kind b = Used) then Some (b_order b) else None) bl.

Lemma owned_lookup bl a o : owned bl !! a = Some o ↔
  ∃ b, bl !! a = Some b ∧ b_kind b = Used ∧ b_order b = o.
Proof.
  unfold owned. rewrite lookup_omap_Some. split.
  - intros (b & E & Hb). case_decide; [|done]. naive_solver.
  - intros (b & Hb & Hk & <-). exists b. by rewrite decide_True.
Qed.

Lemma owned_insert_free bl a b : bl !! a = None → b_kind b = Free →
  owned (<[a := b]> bl) = owned bl.
Proof.
  intros Ha Hk. unfold owned. rewrite omap_insert, decide_False by congruence.
  apply delete_id. by rewrite lookup_omap, Ha.
Qed.

Lemma owned_delete_free bl a b : bl !! a = Some b → b_kind b = Free →
  owned (delete a bl) = owned bl.
Proof.
  intros Ha Hk. unfold owned. rewrite omap_delete. apply delete_id.
  rewrite lookup_omap, Ha. simpl. by rewrite Hk.
Qed.

Lemma owned_insert_used bl a b : b_kind b = Used →
  owned (<[a := b]> bl) = <[a := b_order b]> (owned bl).
Proof. intros Hk. unfold owned. by rewrite omap_insert, decide_True. Qed.

Lemma owned_delete bl a : owned (delete a bl) = delete a (owned bl).
Proof. apply omap_delete. Qed.
End proofs.
