(* ===== verification/PageSpec.v ===== *)
(** * Specifications of [alloc_pages] and [free_pages]

    The client's view of the allocator is the map [owned] from the physical
    address of each allocated block to its order.  [alloc_pages] adds a block
    to it that overlaps no other, [free_pages] removes the block it is given;
    neither ever faults on a state that satisfies the invariant. *)

From S2P Require Import Prelude Vm Sync PageAlloc Dll PageInv PageProofs.

Section spec.
Context {T : AddressTranslator} {TL : AddressTranslatorLaws T}.
Implicit Types (zs : list zinfo) (bl : gmap Z binfo) (d : bool) (s : PageAllocator).

(** A block built from its parts. *)
Definition mk_block (z : zinfo) (i o : Z) (k : kind) : binfo :=
  {| b_zone := z; b_idx := i; b_order := o; b_kind := k |}.

Lemma mk_block_wf zs z i o k : z ∈ zs → 0 ≤ o < MAX_ORDER → 0 ≤ i → (2 ^ o | i) →
  i + 2 ^ o ≤ zi_pages z → bwf zs (zaddr z i) (mk_block z i o k).
Proof. intros. split; simpl; done. Qed.

Lemma wp_page_addr zs bl U s z i (Q : Z → PageAllocator → Prop) : inv zs bl U s → z ∈ zs →
  0 ≤ i ≤ zi_pages z → Q (emb (is_dmap s) (zaddr z i)) s →
  wp (usize (emb (is_dmap s) (zi_base z) + i * PAGE_SIZE)) Q s.
Proof.
  intros I Hz Hi HQ. pose proof (i_zones _ _ _ _ I) as ZW.
  rewrite (emb_zaddr zs) by done. apply wp_usize; [|done].
  apply emb_range. by apply (zaddr_phys _ ZW).
Qed.

(** ** Splitting *)

(** The upper half of a hole has its buddy, the lower half, in the hole. *)
Lemma split_no_buddy zs bl z i o hi a b : zones_wf zs → tiling zs bl (hole z i hi) → i < hi →
  0 ≤ o → (2 ^ (o + 1) | i) → bl !! a = Some b → ¬ buddies (mk_block z (i + 2 ^ o) o Free) b.
Proof.
  intros ZW Ti Hhi Ho Hd Hb (Ez & Eo & Ei). simpl in *.
  assert (2 ^ o | i) as Hd' by (etrans; [|exact Hd]; apply pow2_divide; lia).
  assert (Z.lxor i (2 ^ o) = i + 2 ^ o) as E.
  { rewrite lxor_buddy by done. by rewrite (proj2 (testbit_divide_S i o Ho Hd')). }
  rewrite <- E in Ei. unfold b_size in Ei. simpl in Ei.
  rewrite Z.lxor_assoc, Z.lxor_nilpotent, Z.lxor_0_r in Ei.
  apply (t_hole _ _ _ Ti a b z i Hb); [|split; [done|lia]].
  pose proof (tiling_first zs bl _ Ti a b Hb) as Hin. by rewrite <- Ez, Ei in Hin.
Qed.

Lemma wp_split_loop zs z i target fuel so bl s (Q : unit → PageAllocator → Prop) :
  z ∈ zs → 0 ≤ target → 0 ≤ i →
  so - target ≤ Z.of_nat fuel → target ≤ so < MAX_ORDER →
  inv zs bl (hole z i (i + 2 ^ so)) s → (2 ^ so | i) → i + 2 ^ so ≤ zi_pages z →
  (∀ k, i ≤ k < i + 2 ^ target → meta s !! (zi_meta z + k) = Some target) →
  (∀ bl' s', inv zs bl' (hole z i (i + 2 ^ target)) s' → owned bl' = owned bl →
     lock s' = lock s → is_dmap s' = is_dmap s →
     (∀ k, i ≤ k < i + 2 ^ target → meta s' !! (zi_meta z + k) = Some target) → Q tt s') →
  wp (split_loop fuel (emb (is_dmap s) (zi_ptr z)) (emb (is_dmap s) (zi_meta z)) i so target) Q s.
Proof.
  intros Hz Ht Hi. revert so bl s. induction fuel as [|fuel IH];
    intros so bl s Hf Hso I Hd He Hm HQ; simpl; destruct (Z.leb_spec so target); try lia.
  1,2: assert (so = target) as -> by lia; wp_steps; by apply (HQ bl).
  pose proof (i_zones _ _ _ _ I) as ZW. pose proof (pages_bound _ ZW z Hz).
  set (o := so - 1) in *. assert (so = o + 1) as E by lia. clearbody o. subst so.
  pose proof (pow2_pos o ltac:(lia)). rewrite pow2_S in I, He by lia.
  pose proof (pow2_le target o ltac:(lia)).
  wp_step. apply wp_shl1; [unfold MAX_ORDER in *; lia|].
  wp_step. apply wp_usize; [lia|].
  wp_step. eapply (wp_fill_hole zs bl _ _ z _ (2 ^ o)); [exact I|done|lia|lia|lia| |].
  { intros j Hj. split; [done|lia]. }
  intros I1. wp_step. apply (wp_deref_zone _ _ _ z _ _ I1 Hz). intros nx. simpl.
  wp_step. apply (wp_page_addr _ _ _ _ z _ _ I1 Hz); [lia|]. simpl.
  wp_step. apply (wp_push_free zs bl _ _ _ (mk_block z (i + 2 ^ o) o Free) _ I1).
  - apply mk_block_wf; [done|lia|lia| |lia].
    apply Z.divide_add_r; [|done]. etrans; [|exact Hd]. apply pow2_divide. lia.
  - done.
  - intros z' j [<- Hj]. unfold b_end, b_size in Hj. simpl in Hj. split; [done|]. simpl. lia.
  - intros Hlt a' b' Hb' _. apply (split_no_buddy zs bl z i o (i + 2 * 2 ^ o) a'); try done;
      [apply I|lia|lia].
  - intros j Hj. unfold b_end, b_size in Hj. simpl in *. rewrite fill_lookup, decide_True by lia. done.
  - intros fa m Ha I2. lazymatch goal with |- wp _ _ ?s' =>
      apply (IH o (<[zaddr z (i + 2 ^ o) := mk_block z (i + 2 ^ o) o Free]> bl) s') end; simpl.
    + lia.
    + lia.
    + eapply inv_hole_ext; [exact I2|]. intros z' j _ _. unfold hole, in_block, b_end, b_size. simpl.
      split; [|intuition lia]. intros [[-> ?] Hn]. split; [done|].
      destruct (decide (j < i + 2 ^ o)); [lia|]. exfalso. apply Hn. split; [done|lia].
    + etrans; [|exact Hd]. apply pow2_divide. lia.
    + lia.
    + intros k Hk. rewrite fill_lookup, decide_False by lia. by apply Hm.
    + intros bl' s' I3 Eo. rewrite owned_insert_free in Eo by done. by apply (HQ bl').
Qed.

(** ** Allocation *)

Lemma wp_deref_block d a n s (Q : FreeBlock → PageAllocator → Prop) : phys_addr a →
  blocks s !! a = Some n → Q n s → wp (deref_block (emb d a)) Q s.
Proof. intros Ha Hn HQ. unfold wp, deref_block. by rewrite emb_phys, Hn. Qed.

Lemma upd_payload p f m a n : (∀ n, payload_eq n (f n)) → m !! a = Some n →
  ∃ n', upd p f m !! a = Some n' ∧ payload_eq n n'.
Proof.
  intros Hf Ha. unfold upd. destruct (p =? 0); [by exists n|].
  by apply (redirect_payload (Some (dmap_to_phys p))).
Qed.

(** The first block of a free list is taken out. *)
Lemma wp_alloc_from zs bl s a b n target (Q : Z → PageAllocator → Prop) :
  inv zs bl no_hole s → locked s → bl !! a = Some b → b_kind b = Free →
  blocks s !! a = Some n → prev n = 0 → 0 ≤ target ≤ b_order b →
  (∀ bl' s', inv zs bl' no_hole s' → unlocked s' → is_dmap s' = is_dmap s →
     owned bl !! a = None → owned bl' = <[a := target]> (owned bl) → Q (emb (is_dmap s) a) s') →
  wp (alloc_from (emb (is_dmap s) a) (b_order b) target) Q s.
Proof.
  intros I Hlk Hb Hk Hn Hp Ht HQ. pose proof (i_zones _ _ _ _ I) as ZW.
  pose proof (t_bwf _ _ _ (i_tiling _ _ _ _ I) a b Hb) as W. pose proof W as [Hz Ea Ho Hi Hd He].
  destruct (inv_list_facts _ _ _ _ I) as [Hph _]. destruct (Hph a b Hb) as [Hpa _].
  destruct (inv_unlink _ _ _ _ a b n I Hb Hk Hn) as (_ & Hnx & I1).
  destruct (free_node _ _ _ _ a b I Hb Hk) as (n0 & Hn0 & Ez & Eidx).
  assert (n0 = n) as -> by congruence. rewrite Hp in I1, Hnx.
  destruct (upd_payload (next n) (set_prev 0) (blocks s) a n) as (n' & Hn' & P1 & P2); [done..|].
  set (z := b_zone b) in *. set (i := b_idx b) in *. unfold b_end, b_size in *. simpl in I1.
  pose proof (pow2_le target (b_order b) Ht). pose proof (pow2_pos target ltac:(lia)).
  unfold alloc_from. wp_step. apply (wp_deref_block _ a n); [done..|].
  wp_step. apply wp_set_free_head.
  { destruct (i_free _ _ _ _ I) as [L F]. destruct (f_dll _ _ _ _ _ F _ Ho) as (h & Hh & _). by eexists. }
  wp_step. apply wp_upd; [exact Hnx|]. simpl.
  wp_step. apply (wp_deref_block _ a n'); [done|done|].
  rewrite <- P1, <- P2, Ez, Eidx. fold z i.
  wp_step. apply (wp_deref_zone _ _ _ z _ _ I1 Hz). intros nx. simpl.
  wp_step. apply wp_shl1; [unfold MAX_ORDER in *; lia|].
  wp_step. eapply (wp_fill_hole _ _ _ _ z i (2 ^ target) _ _ I1 Hz); [lia|lia|lia| |].
  { intros j Hj. right. split; [done|]. unfold b_end, b_size. fold i. lia. }
  intros I2. wp_step. rewrite wrap_small in * by (unfold MAX_ORDER in *; lia).
  lazymatch goal with |- wp _ _ ?s' =>
    apply (wp_split_loop zs z i target (Z.to_nat MAX_ORDER) (b_order b) (delete a bl) s') end;
    [done|lia|done|unfold MAX_ORDER in *; lia|lia| |done|lia| |].
  { eapply inv_hole_ext; [exact I2|]. intros z' j _ _. unfold no_hole, hole, in_block, b_end, b_size.
    fold z i. naive_solver. }
  { intros k Hk'. simpl. rewrite fill_lookup, decide_True by lia. done. }
  intros bl' s' I3 Eo El Ed Hm. simpl in El, Ed. wp_steps.
  destruct (inv_add_used zs bl' _ s' a (mk_block z i target Used) I3) as [Ha I4].
  { rewrite Ea. apply mk_block_wf; [done|lia|done| |lia]. etrans; [|exact Hd]. apply pow2_divide. lia. }
  { done. }
  { intros z' j [<- Hj]. unfold b_end, b_size in Hj. simpl in *. by split. }
  { intros j Hj. unfold b_end, b_size in Hj. simpl in *. by apply Hm. }
  apply wp_unlock; [by unfold locked; simpl; rewrite El|]. intros l Hl.
  assert (inv zs (<[a := mk_block z i target Used]> bl') no_hole
    (set_lock l (set_allocated_pages (wrap 64 (allocated_pages s' + 2 ^ target)) s'))) as I5.
  { apply inv_set_lock. eapply inv_hole_ext; [exact I4|]. intros z' j _ _.
    unfold no_hole, hole, in_block, b_end, b_size. simpl. naive_solver. }
  wp_step. rewrite <- Ed. apply (wp_deref_zone _ _ _ z _ _ I5 Hz). intros nx'. simpl.
  apply (wp_page_addr _ _ _ _ z _ _ I5 Hz); [lia|]. simpl.
  rewrite <- Ea, Ed. rewrite (owned_delete_free bl a b) in Eo by done.
  eapply (HQ _ _ I5 Hl Ed).
  - rewrite <- Eo. destruct (owned bl' !! a) as [o'|] eqn:E; [|done].
    apply owned_lookup in E as (? & ? & _). congruence.
  - by rewrite owned_insert_used, Eo.
Qed.

(** The head pointer of a free list. *)
Lemma free_list_head zs bl U s o : inv zs bl U s → 0 ≤ o < MAX_ORDER →
  (free_area s !! Z.to_nat o = Some 0 ∧ ∀ a, ¬ is_free bl a o) ∨
  (∃ a b n, free_area s !! Z.to_nat o = Some (emb (is_dmap s) a) ∧ emb (is_dmap s) a ≠ 0 ∧
     bl !! a = Some b ∧ b_kind b = Free ∧ b_order b = o ∧ blocks s !! a = Some n ∧ prev n = 0).
Proof.
  intros I Ho. destruct (inv_list_facts _ _ _ _ I) as [Hph _].
  destruct (i_free _ _ _ _ I) as [L F]. destruct (f_dll _ _ _ _ _ F o Ho) as (h & Hh & Hl).
  pose proof (f_mem _ _ _ _ _ F o) as Hmem.
  destruct (L o) as [|a l] eqn:EL.
  - left. rewrite (dll_nil _ _ _ Hl) in Hh. split; [done|]. intros a Ha.
    apply Hmem in Ha; [|done]. set_solver.
  - right. destruct (proj1 (Hmem a Ho)) as (b & Hb & Hk & Eo); [set_solver|].
    pose proof (f_nodup _ _ _ _ _ F o Ho) as Hnd. rewrite EL in Hnd.
    destruct (f_node _ _ _ _ _ F a b Hb Hk) as (n & Hn & _).
    destruct (dll_pop _ _ _ _ _ _ Hnd Hl Hn) as (-> & Hp & _).
    exists a, b, n. destruct (Hph a b Hb). rewrite emb_zero by done. done.
Qed.

Lemma wp_alloc_scan zs bl s target k o (Q : Z → PageAllocator → Prop) :
  inv zs bl no_hole s → locked s → 0 ≤ target ≤ o → o + Z.of_nat k = MAX_ORDER →
  (∀ a o', target ≤ o' < o → ¬ is_free bl a o') →
  (∀ l, unlocked (set_lock l s) → (∀ a o', target ≤ o' < MAX_ORDER → ¬ is_free bl a o') →
     Q 0 (set_lock l s)) →
  (∀ a bl' s', inv zs bl' no_hole s' → unlocked s' → is_dmap s' = is_dmap s →
     (∃ o', target ≤ o' ∧ is_free bl a o') →
     owned bl !! a = None → owned bl' = <[a := target]> (owned bl) → Q (emb (is_dmap s) a) s') →
  wp (alloc_scan (seqZ o (Z.of_nat k)) target) Q s.
Proof.
  intros I Hlk. revert o. induction k as [|k IH]; intros o Hto Hk Hnone HQ0 HQ.
  - simpl. wp_steps. apply wp_unlock; [done|]. intros l Hl. wp_steps. apply HQ0; [done|].
    intros a o' Ho'. apply Hnone. lia.
  - rewrite seqZ_cons by lia. simpl alloc_scan. wp_step.
    replace (Z.pred (Z.of_nat (S k))) with (Z.of_nat k) by lia.
    destruct (free_list_head _ _ _ _ o I) as [[Hh Hno]|(a & b & n & Hh & H0 & Hb & Hk' & Eo & Hn & Hp)];
      [unfold MAX_ORDER in *; lia| |].
    + apply (wp_get_free_area _ _ _ _ Hh). simpl. apply IH; [lia|lia| |done|done].
      intros a o' Ho'. destruct (decide (o' = o)) as [->|]; [apply Hno|apply Hnone; lia].
    + apply (wp_get_free_area _ _ _ _ Hh). destruct (Z.eqb_spec (emb (is_dmap s) a) 0); [done|].
      rewrite <- Eo in *. apply (wp_alloc_from zs bl s a b n); try done.
      intros bl' s' I' Hl Ed. apply (HQ a bl'); [done..|]. exists (b_order b). split; [lia|].
      by exists b.
Qed.

(** ** Blocks in terms of addresses *)

(** The invariant between operations. *)
Definition Inv zs bl s : Prop := inv zs bl no_hole s ∧ unlocked s.

(** [2^o] pages from [a]. *)
Definition span (o : Z) : Z := 2 ^ o * PAGE_SIZE.

Lemma blocks_disjoint zs bl U a1 b1 a2 b2 : zones_wf zs → tiling zs bl U →
  bl !! a1 = Some b1 → bl !! a2 = Some b2 → a1 ≠ a2 →
  a1 + span (b_order b1) ≤ a2 ∨ a2 + span (b_order b2) ≤ a1.
Proof.
  intros ZW Ti H1 H2 Hne.
  pose proof (t_bwf _ _ _ Ti _ _ H1) as W1. pose proof (t_bwf _ _ _ Ti _ _ H2) as W2.
  pose proof (b_size_pos _ _ _ W1). pose proof (b_size_pos _ _ _ W2).
  destruct W1 as [Hz1 Ea1 Ho1 Hi1 _ He1], W2 as [Hz2 Ea2 Ho2 Hi2 _ He2].
  unfold span, b_end, b_size in *.
  destruct (zs_disj _ ZW _ _ Hz1 Hz2) as [E|D].
  - assert (b_end b1 ≤ b_idx b2 ∨ b_end b2 ≤ b_idx b1) as Hd.
    { destruct (decide (b_end b1 ≤ b_idx b2)), (decide (b_end b2 ≤ b_idx b1)); auto.
      exfalso. apply Hne. unfold b_end, b_size in *.
      apply (t_disj _ _ _ Ti a1 b1 a2 b2 (b_zone b1) (Z.max (b_idx b1) (b_idx b2)));
        [done..| |]; unfold in_block, b_end, b_size; split; (done || lia). }
    rewrite E in *. unfold b_end, b_size in *. zone_lia.
  - pose proof (zs_wf _ ZW _ Hz1) as []. pose proof (zs_wf _ ZW _ Hz2) as []. zone_lia.
Qed.

(** A block lies in the data pages of one zone. *)
Lemma block_in_zone zs bl U a b : zones_wf zs → tiling zs bl U → bl !! a = Some b →
  b_zone b ∈ zs ∧ zi_base (b_zone b) ≤ a ∧
  a + span (b_order b) ≤ zaddr (b_zone b) (zi_pages (b_zone b)) ∧ (PAGE_SIZE | a).
Proof.
  intros ZW Ti Hb. pose proof (t_bwf _ _ _ Ti _ _ Hb) as [Hz -> Ho Hi _ He].
  pose proof (zs_wf _ ZW _ Hz) as []. unfold span, b_end, b_size in *. split_and!; [done|zone_lia..|].
  apply Z.divide_add_r; [done|]. apply Z.divide_factor_r.
Qed.

(** ** Freeing *)

(** The unlinking code of [free_block_in_zone]. *)
Lemma wp_unlink {A} zs bl U s a b n (k : M PageAllocator A) (Q : A → PageAllocator → Prop) :
  inv zs bl U s → bl !! a = Some b → b_kind b = Free → blocks s !! a = Some n →
  (∀ fa m, inv zs (delete a bl) (λ z i, U z i ∨ in_block b z i)
             (set_blocks m (set_free_area fa s)) → wp k Q (set_blocks m (set_free_area fa s))) →
  wp ((if prev n =? 0 then set_free_head (b_order b) (next n)
       else update_block (prev n) (set_next (next n))) ;;
      (if next n =? 0 then ret tt else update_block (next n) (set_prev (prev n))) ;; k) Q s.
Proof.
  intros I Hb Hk Hn HQ. destruct (inv_unlink _ _ _ _ a b n I Hb Hk Hn) as (Hp & Hnx & I').
  destruct (inv_list_facts _ _ _ _ I) as [_ Hor]. wp_step.
  destruct (Z.eqb_spec (prev n) 0) as [E|E].
  - apply wp_set_free_head.
    { destruct (i_free _ _ _ _ I) as [L F].
      destruct (f_dll _ _ _ _ _ F _ (Hor a b Hb)) as (h & Hh & _). by eexists. }
    rewrite E in *. wp_step. apply wp_upd; [exact Hnx|]. apply HQ. exact I'.
  - assert ((if prev n =? 0 then ret tt else update_block (prev n) (set_next (next n))) =
            update_block (prev n) (set_next (next n))) as Eu by (by rewrite (proj2 (Z.eqb_neq _ _))).
    rewrite <- Eu. apply wp_upd; [exact Hp|]. wp_step. apply wp_upd; [exact Hnx|].
    assert (∀ m m', set_blocks m (set_blocks m' s) = set_blocks m (set_free_area (free_area s) s)) as Es.
    { intros m m'. by destruct s. }
    simpl. rewrite Es. apply HQ. exact I'.
Qed.

(** The fields of a metadata byte. *)
Lemma b_meta_decode b : 0 ≤ b_order b < MAX_ORDER →
  (Z.land (b_meta b) FREE_FLAG =? 0) = bool_decide (b_kind b = Used) ∧
  Z.land (b_meta b) (unot 8 FREE_FLAG) = b_order b.
Proof.
  intros Ho. unfold b_meta, MAX_ORDER in *. generalize dependent (b_order b). intros o Ho.
  assert (o ∈ seqZ 0 11) as Hin by (apply elem_of_seqZ; lia).
  destruct (b_kind b); simpl decide; revert o Ho Hin; 
    (intros o _ Hin; repeat (apply elem_of_cons in Hin as [->|Hin]; [by vm_compute|]); set_solver).
Qed.

Lemma aligned_block_unique k i j : 0 < k → (k | i) → (k | j) → i ≤ j < i + k → i = j.
Proof. intros Hk [x ->] [y ->] H. assert (x = y); [nia|congruence]. Qed.

(** The buddy of an aligned range, and their union. *)
Lemma buddy_cases i o : 0 ≤ i < 2 ^ 64 → 0 ≤ o → (2 ^ o | i) →
  (2 ^ o | Z.lxor i (2 ^ o)) ∧ (2 ^ (o + 1) | Z.land i (unot 64 (2 ^ o))) ∧
  ((Z.lxor i (2 ^ o) = i + 2 ^ o ∧ Z.land i (unot 64 (2 ^ o)) = i) ∨
   (Z.lxor i (2 ^ o) = i - 2 ^ o ∧ Z.land i (unot 64 (2 ^ o)) = i - 2 ^ o ∧ 2 ^ o ≤ i)).
Proof.
  intros Hi Ho Hd. pose proof (pow2_pos o Ho). rewrite land_unot by lia.
  rewrite lxor_buddy, ldiff_buddy by done. destruct (Z.testbit i o) eqn:Eb.
  - assert (2 ^ (o + 1) | i - 2 ^ o) as Hd2.
    { apply testbit_divide_S; [done| |].
      - apply Z.divide_sub_r; [done|]. apply Z.divide_refl.
      - replace (i - 2 ^ o) with (Z.lxor i (2 ^ o)) by (by rewrite lxor_buddy, Eb).
        by rewrite Z.lxor_spec, Eb, Z.pow2_bits_true. }
    split; [|split; [done|]].
    + apply Z.divide_sub_r; [done|apply Z.divide_refl].
    + right. split; [done|]. split; [done|]. destruct Hd as [q ->].
      assert (q ≠ 0); [|nia]. intros ->. by rewrite Z.mul_0_l, Z.bits_0 in Eb.
  - split; [|split; [by apply testbit_divide_S|by left]].
    apply Z.divide_add_r; [done|apply Z.divide_refl].
Qed.

(** The break condition on the metadata byte of the buddy. *)
Definition not_free_at (v o : Z) : bool :=
  (Z.land v FREE_FLAG =? 0) || negb (Z.land v (unot 8 FREE_FLAG) =? wrap 8 o).

Lemma not_free_at_b_meta b o : 0 ≤ b_order b < MAX_ORDER → 0 ≤ o < MAX_ORDER →
  not_free_at (b_meta b) o = false ↔ b_kind b = Free ∧ b_order b = o.
Proof.
  intros Hb Ho. destruct (b_meta_decode b Hb) as [E1 E2]. unfold not_free_at. rewrite E1, E2.
  rewrite wrap_small by (unfold MAX_ORDER in *; lia).
  rewrite orb_false_iff, negb_false_iff, Z.eqb_eq, bool_decide_eq_false.
  destruct (b_kind b); naive_solver.
Qed.

(** What the byte at the buddy index tells about the buddy. *)
Lemma find_buddy zs bl s z i o : inv zs bl (hole z i (i + 2 ^ o)) s → z ∈ zs →
  0 ≤ i → 0 ≤ o < MAX_ORDER → (2 ^ o | i) → i + 2 ^ o ≤ zi_pages z →
  Z.lxor i (2 ^ o) + 2 ^ o ≤ zi_pages z →
  ∃ v, meta s !! (zi_meta z + Z.lxor i (2 ^ o)) = Some v ∧
    if not_free_at v o
    then ∀ a b, bl !! a = Some b → b_kind b = Free → ¬ buddies (mk_block z i o Free) b
    else bl !! zaddr z (Z.lxor i (2 ^ o)) = Some (mk_block z (Z.lxor i (2 ^ o)) o Free).
Proof.
  intros I Hz Hi Ho Hd He Hj. pose proof (pow2_pos o ltac:(lia)) as Hpos.
  pose proof (pages_bound _ (i_zones _ _ _ _ I) z Hz).
  pose proof (i_tiling _ _ _ _ I) as Ti. pose proof (i_meta _ _ _ _ I) as Mo.
  destruct (buddy_cases i o) as (Hdj & _ & Hcase); [lia|lia|done|].
  set (j := Z.lxor i (2 ^ o)) in *.
  destruct (t_cover _ _ _ Ti z j Hz ltac:(lia)) as (a & b & Hb & [Ez Hin]).
  { unfold hole. lia. }
  exists (b_meta b). split; [by rewrite <- Ez; apply (m_block _ _ _ Mo a)|].
  pose proof (t_bwf _ _ _ Ti a b Hb) as [_ Ea Hob Hib Hdb _].
  pose proof (not_free_at_b_meta b o Hob Ho) as Hdec. destruct (not_free_at (b_meta b) o) eqn:Ev.
  - intros a' b' Hb' Hk' (Ez' & Eo' & Ei'). simpl in *. unfold b_size in Ei'. simpl in Ei'. fold j in Ei'.
    assert (a = a') as <-.
    { apply (t_disj _ _ _ Ti a b a' b' z j); [done..|]. split; [done|].
      unfold b_end, b_size. rewrite <- Eo', Ei'. lia. }
    simplify_eq. by assert (true = false) by (by apply Hdec).
  - destruct (proj1 Hdec eq_refl) as [Hk Eo]. unfold b_end, b_size in *. rewrite Eo in *.
    assert (b_idx b = j) as Ej by (by apply (aligned_block_unique (2 ^ o))).
    rewrite Ea, Ez, Ej in Hb. rewrite Hb. destruct b; simpl in *. by subst.
Qed.

Lemma wp_merge_loop zs z nx fuel i o bl s (Q : Z * Z → PageAllocator → Prop) :
  z ∈ zs → 0 ≤ i → 0 ≤ o < MAX_ORDER → MAX_ORDER - 1 - o ≤ Z.of_nat fuel →
  inv zs bl (hole z i (i + 2 ^ o)) s → (2 ^ o | i) → i + 2 ^ o ≤ zi_pages z →
  (∀ i' o' bl' s', 0 ≤ i' → 0 ≤ o' < MAX_ORDER → (2 ^ o' | i') → i' + 2 ^ o' ≤ zi_pages z →
     inv zs bl' (hole z i' (i' + 2 ^ o')) s' → owned bl' = owned bl →
     lock s' = lock s → is_dmap s' = is_dmap s →
     (o' < MAX_ORDER - 1 → ∀ a b, bl' !! a = Some b → b_kind b = Free →
        ¬ buddies (mk_block z i' o' Free) b) → Q (i', o') s') →
  wp (merge_loop fuel (zone_rec (is_dmap s) z nx) i o) Q s.
Proof.
  intros Hz. revert i o bl s. induction fuel as [|fuel IH]; intros i o bl s Hi Ho Hf I Hd He HQ;
    simpl merge_loop; destruct (Z.leb_spec (MAX_ORDER - 1) o); try lia;
    try (wp_steps; eapply HQ; eauto; lia).
  pose proof (i_zones _ _ _ _ I) as ZW. pose proof (pages_bound _ ZW z Hz).
  pose proof (pow2_pos o ltac:(lia)). pose proof (buddy_cases i o ltac:(lia) ltac:(lia) Hd) as (_ & Hd' & Hc).
  assert (zi_pages z < Z.lxor i (2 ^ o) + 2 ^ o →
    ∀ a b, bl !! a = Some b → b_kind b = Free → ¬ buddies (mk_block z i o Free) b) as Hout.
  { intros Hlt a b Hb _ (Ez & Eo & Ei). unfold b_size in Ei. simpl in *.
    pose proof (bwf_end _ _ _ (t_bwf _ _ _ (i_tiling _ _ _ _ I) a b Hb)) as Hend.
    unfold b_end, b_size in Hend. rewrite <- Eo, <- Ez, Ei in Hend. lia. }
  wp_step. apply wp_shl1; [unfold MAX_ORDER in *; lia|].
  set (j := Z.lxor i (2 ^ o)) in *.
  destruct (Z.leb_spec (zi_pages z) j); [wp_steps; eapply HQ; eauto with lia|].
  wp_step. apply wp_usize; [lia|].
  destruct (Z.ltb_spec (zi_pages z) (j + 2 ^ o)); [wp_steps; eapply HQ; eauto with lia|].
  destruct (find_buddy zs bl s z i o I Hz Hi Ho Hd He) as (v & Hv & Hfree); [done|]. fold j in Hv, Hfree.
  wp_step. unfold wp at 1, read_meta. rewrite (emb_meta zs), Hv by (done || lia).
  change (_ || _) with (not_free_at v o). destruct (not_free_at v o).
  { wp_steps. by apply (HQ i o bl). }
  wp_step. apply (wp_page_addr _ _ _ _ z _ _ I Hz); [lia|].
  destruct (free_node _ _ _ _ _ _ I Hfree eq_refl) as (n & Hn & _).
  wp_step. apply (wp_deref_block _ (zaddr z j) n); [apply (zaddr_phys _ ZW); [done|lia]|done|].
  apply (wp_unlink _ _ _ _ _ _ _ _ _ I Hfree eq_refl Hn). intros fa m I'.
  eapply (IH _ _ (delete (zaddr z j) bl) (set_blocks m (set_free_area fa s)));
    [lia|unfold MAX_ORDER in *; lia|lia| |done| |].
  - eapply inv_hole_ext; [exact I'|]. intros z' k _ _. unfold hole, in_block, b_end, b_size. simpl.
    rewrite pow2_S by lia. split; [intros [[-> ?]|[<- ?]]; split; (done || lia)|].
    intros [-> ?]. destruct (decide (i ≤ k < i + 2 ^ o)); [left|right]; split; (done || lia).
  - rewrite pow2_S by lia. lia.
  - intros i' o' bl' s' Hi' Ho' Hd2 He' I2 Eow. rewrite (owned_delete_free bl _ _ Hfree eq_refl) in Eow.
    by apply HQ.
Qed.

Lemma wp_free_block zs bl s z i o (Q : unit → PageAllocator → Prop) :
  z ∈ zs → 0 ≤ i → 0 ≤ o < MAX_ORDER → inv zs bl (hole z i (i + 2 ^ o)) s →
  (2 ^ o | i) → i + 2 ^ o ≤ zi_pages z →
  (∀ bl' s', inv zs bl' no_hole s' → owned bl' = owned bl → lock s' = lock s →
     is_dmap s' = is_dmap s → Q tt s') →
  wp (free_block_in_zone (emb (is_dmap s) (zi_ptr z)) i o) Q s.
Proof.
  intros Hz Hi Ho I Hd He HQ. unfold free_block_in_zone.
  wp_step. apply (wp_deref_zone _ _ _ z _ _ I Hz). intros nx.
  wp_step. apply (wp_merge_loop zs z nx _ i o bl s); try done; [unfold MAX_ORDER in *; lia|].
  clear dependent i o. intros i o bl1 s1 Hi Ho Hd He I1 Eo El Ed Hco.
  pose proof (pow2_pos o ltac:(lia)). rewrite <- Ed.
  wp_step. apply wp_shl1; [unfold MAX_ORDER in *; lia|].
  wp_step. apply (wp_fill_hole _ _ _ _ z i (2 ^ o) _ _ I1 Hz); [lia|lia|lia| |].
  { intros j Hj. by split. }
  intros I2. wp_step. apply (wp_page_addr _ _ _ _ z _ _ I2 Hz); [lia|].
  apply (wp_push_free _ _ _ _ _ (mk_block z i o Free) _ I2).
  - by apply mk_block_wf.
  - done.
  - intros z' j [<- Hj]. by split.
  - done.
  - intros j Hj. unfold b_end, b_size in Hj. simpl in *. by rewrite fill_lookup, decide_True by lia.
  - intros fa m Ha I3. apply (HQ (<[zaddr z i := mk_block z i o Free]> bl1)); simpl; try done.
    + eapply inv_hole_ext; [exact I3|]. intros z' j _ _.
      unfold no_hole, hole, in_block, b_end, b_size. simpl. naive_solver.
    + by rewrite owned_insert_free.
Qed.

(** ** The walk over the zones *)

(** A pointer compares with the bounds of a zone as its address does. *)
Lemma emb_in_zone zs d z a : zones_wf zs → z ∈ zs → phys_addr a →
  (emb d (zi_base z) ≤ emb d a < emb d (zi_base z) + zi_pages z * PAGE_SIZE) ↔
  (zi_base z ≤ a < zaddr z (zi_pages z)).
Proof.
  intros ZW Hz Ha. pose proof (zs_wf _ ZW z Hz) as [].
  assert (∀ k, 0 ≤ k < zi_pages z * PAGE_SIZE → emb d (zi_base z + k) = emb d (zi_base z) + k) as Hadd.
  { intros k Hk. apply emb_add; zone_lia. }
  split.
  - intros Hr. assert (a = zi_base z + (emb d a - emb d (zi_base z))); [|unfold zaddr; lia].
    apply (emb_inj d); [done|zone_lia|]. rewrite Hadd; lia.
  - unfold zaddr. intros Hr. replace a with (zi_base z + (a - zi_base z)) by lia.
    rewrite Hadd; lia.
Qed.

Lemma zlist_size d m p zs : zones_wf zs → zlist d m p zs → (length zs ≤ size m)%nat.
Proof.
  intros ZW Hl. assert (NoDup (zi_ptr <$> zs)) as Hnd.
  { apply NoDup_fmap_2_strong; [|apply ZW]. intros z1 z2 H1 H2. by apply (ptr_zone_inj _ ZW). }
  rewrite <- (length_fmap zi_ptr). apply NoDup_keys_size; [done|].
  intros a (z & -> & Hz)%list_elem_of_fmap.
  destruct (zlist_lookup _ _ _ _ z Hl Hz) as [nx ->]. by eexists.
Qed.
End spec.
