(* ===== verification/PageAdd.v ===== *)
(** * Adding memory to the page allocator

    [add_range]: the search for the pages to reserve (its fixed point, how
    fast it is reached, and the sizes for which there is none), and the
    population of a fresh zone with aligned free blocks. *)

From S2P Require Import Prelude Vm Sync PageAlloc Dll PageInv PageProofs PageSpec.

(** ** The reservation search *)

Definition ceil_pages (bytes : Z) : Z := (bytes + PAGE_SIZE - 1) / PAGE_SIZE.

Lemma ceil_unique x r : (r - 1) * 16384 < x ≤ r * 16384 → ceil_pages x = r.
Proof. intros H. unfold ceil_pages. change PAGE_SIZE with 16384. Z.div_mod_to_equations. lia. Qed.

Lemma ceil_spec x : (ceil_pages x - 1) * 16384 < x ≤ ceil_pages x * 16384.
Proof. unfold ceil_pages. change PAGE_SIZE with 16384. Z.div_mod_to_equations. lia. Qed.

(** One round of the search maps [r] to [ceil_pages (T - r + 32)]. *)
Lemma reserve_round fuel T r s : 0 ≤ r ≤ T → T < 2 ^ 34 →
  reserve_loop (S fuel) T r s =
  let r' := ceil_pages (T - r + SIZE_OF_ZONE) in
  if r' =? r then Done (r, s) else reserve_loop fuel T r' s.
Proof.
  intros Hr HT. simpl. unfold bind at 1, expect at 1, checked_sub.
  rewrite (proj2 (Z.leb_le r T)) by lia. unfold bind at 1, expect at 1, checked_add, SIZE_OF_ZONE.
  rewrite (proj2 (Z.ltb_lt _ _)) by lia. unfold bind at 1, usize, in_range.
  change PAGE_SIZE with 16384. unfold ceil_pages. change PAGE_SIZE with 16384.
  rewrite (proj2 (Z.leb_le _ _)), (proj2 (Z.ltb_lt _ _)) by lia. simpl.
  by destruct (_ =? r).
Qed.

(** Written as [T + 32 = 16385 q + m], the iterates are within one page of
    [q] from the second round on. *)
Section reserve.
Context (T q m : Z) (HT : 2 ≤ T < 2 ^ 34) (Hm : 0 ≤ m < 16385).
Context (E : T + 32 = 16385 * q + m).

Lemma reserve_first : let r1 := ceil_pages (T - 0 + 32) in 1 ≤ r1 ≤ T ∧ q ≤ r1 ≤ q + 200.
Proof. simpl. pose proof (ceil_spec (T - 0 + 32)). lia. Qed.

Lemma reserve_second : let r1 := ceil_pages (T - 0 + 32) in
  let r2 := ceil_pages (T - r1 + 32) in (r2 = q ∨ r2 = q + 1) ∧ 0 ≤ r2 ≤ T.
Proof.
  simpl. pose proof (ceil_spec (T - 0 + 32)). set (r1 := ceil_pages (T - 0 + 32)) in *.
  pose proof (ceil_spec (T - r1 + 32)). lia.
Qed.

Lemma reserve_at_q : ceil_pages (T - q + 32) = if decide (m = 0) then q else q + 1.
Proof. case_decide; apply ceil_unique; lia. Qed.

Lemma reserve_at_q1 : ceil_pages (T - (q + 1) + 32) = if decide (m ≤ 1) then q else q + 1.
Proof. case_decide; apply ceil_unique; lia. Qed.
End reserve.

(** The search ends within the fuel unless the region has [16385 k - 31]
    pages; the reserved pages hold the header and the metadata exactly. *)
Lemma reserve_done T s : 2 ≤ T < 2 ^ 34 → (T + 31) mod 16385 ≠ 0 →
  ∃ r, reserve_loop RESERVE_FUEL T 0 s = Done (r, s) ∧ 1 ≤ r < T ∧
       (r - 1) * PAGE_SIZE < T - r + SIZE_OF_ZONE ≤ r * PAGE_SIZE.
Proof.
  intros HT Hne. set (q := (T + 32) / 16385). set (m := (T + 32) mod 16385).
  assert (T + 32 = 16385 * q + m) as E by (apply Z.div_mod; lia).
  assert (0 ≤ m < 16385) as Hm by (apply Z.mod_pos_bound; lia).
  assert (m ≠ 1) as Hm1.
  { intros E1. apply Hne. replace (T + 31) with (q * 16385) by lia. by apply Z.mod_mul. }
  pose proof (reserve_first T q m HT Hm E) as [H1 _].
  pose proof (reserve_second T q m HT Hm E) as [H2 H2'].
  pose proof (reserve_at_q T q m Hm E) as Eq. pose proof (reserve_at_q1 T q m Hm E) as Eq1.
  simpl in H1, H2, H2'. unfold RESERVE_FUEL, SIZE_OF_ZONE. change PAGE_SIZE with 16384.
  set (fin := if decide (m = 0) then q else q + 1).
  assert (ceil_pages (T - fin + 32) = fin) as Efin.
  { unfold fin. repeat case_decide; lia. }
  assert (0 ≤ fin ≤ T) as Hfin by (unfold fin; repeat case_decide; lia).
  assert (∀ r, r = q ∨ r = q + 1 → ceil_pages (T - r + 32) = fin) as Hstep.
  { intros r [-> | ->]; unfold fin; repeat case_decide; lia. }
  exists fin. split; [|pose proof (ceil_spec (T - fin + 32)) as Hc; rewrite Efin in Hc; lia].
  assert (∀ f, reserve_loop (S f) T fin s = Done (fin, s)) as Hend.
  { intros f. rewrite reserve_round by lia. unfold SIZE_OF_ZONE. simpl. by rewrite Efin, Z.eqb_refl. }
  rewrite reserve_round by lia. unfold SIZE_OF_ZONE. cbv zeta.
  destruct (Z.eqb_spec (ceil_pages (T - 0 + 32)) 0); [lia|].
  set (r1 := ceil_pages (T - 0 + 32)) in *.
  rewrite reserve_round by lia. unfold SIZE_OF_ZONE. cbv zeta.
  set (r2 := ceil_pages (T - r1 + 32)) in *.
  destruct (Z.eqb_spec r2 r1) as [E12|_].
  { rewrite <- E12 in *. f_equal. f_equal. rewrite <- (Hstep r2 H2). rewrite E12 at 2.
    fold r2. done. }
  rewrite reserve_round by lia. unfold SIZE_OF_ZONE. cbv zeta. rewrite (Hstep r2 H2).
  destruct (Z.eqb_spec fin r2) as [E2|_]; [by rewrite E2|]. apply Hend.
Qed.

(** For a region of [16385 k - 31] pages the search alternates between two
    values for ever. *)
Lemma reserve_diverges_lemma k s fuel : 1 ≤ k → 16385 * k - 31 < 2 ^ 34 →
  reserve_loop fuel (16385 * k - 31) 0 s = Fault OutOfFuel.
Proof.
  intros Hk HT. set (T := 16385 * k - 31) in *.
  assert (T + 32 = 16385 * k + 1) as E by lia. assert (2 ≤ T < 2 ^ 34) as HT' by lia.
  pose proof (reserve_first T k 1 HT' ltac:(lia) E) as [H1 H1'].
  pose proof (reserve_second T k 1 HT' ltac:(lia) E) as [H2 H2'].
  pose proof (reserve_at_q T k 1 ltac:(lia) E) as Eq. pose proof (reserve_at_q1 T k 1 ltac:(lia) E) as Eq1.
  rewrite decide_False in Eq by lia. rewrite decide_True in Eq1 by lia. simpl in H1, H2, H2'.
  assert (∀ f r, r = k ∨ r = k + 1 → reserve_loop f T r s = Fault OutOfFuel) as Hloop.
  { induction f as [|f IH]; [done|]. intros r Hr. rewrite reserve_round by lia. unfold SIZE_OF_ZONE.
    cbv zeta. destruct Hr as [-> | ->]; [rewrite Eq|rewrite Eq1];
      (rewrite (proj2 (Z.eqb_neq _ _)) by lia; apply IH; lia). }
  destruct fuel as [|fuel]; [done|]. rewrite reserve_round by lia. unfold SIZE_OF_ZONE. cbv zeta.
  rewrite (proj2 (Z.eqb_neq _ _)) by lia. set (r1 := ceil_pages (T - 0 + 32)) in *.
  destruct fuel as [|fuel]; [done|]. rewrite reserve_round by lia. unfold SIZE_OF_ZONE. cbv zeta.
  set (r2 := ceil_pages (T - r1 + 32)) in *.
  destruct (Z.eqb_spec r2 r1) as [E12|_]; [exfalso|by apply Hloop].
  assert (ceil_pages (T - r2 + 32) = r2) as Efix by (rewrite E12 at 1; done).
  destruct H2 as [E2|E2]; rewrite E2 in Efix; lia.
Qed.

(** ** Populating a zone *)

Lemma populate_order_spec i n : 0 ≤ i < n → let o := populate_order i n in
  0 ≤ o < MAX_ORDER ∧ (2 ^ o | i) ∧ i + 2 ^ o ≤ n.
Proof.
  intros Hi. unfold populate_order, ilog2, MAX_ORDER. cbv zeta.
  set (al := if i =? 0 then 11 - 1 else trailing_zeros 64 i).
  assert (0 ≤ al ∧ ∀ k, 0 ≤ k ≤ al → (2 ^ k | i)) as [Hal Hdiv].
  { unfold al. destruct (Z.eqb_spec i 0) as [->|H0].
    - split; [lia|]. intros k _. apply Z.divide_0_r.
    - destruct (trailing_zeros_spec 64 i 0 ltac:(lia) ltac:(lia)) as [Hnn _]. split; [done|].
      intros k Hk. destruct (trailing_zeros_spec 64 i k ltac:(lia) ltac:(lia)) as [_ ->]. lia. }
  pose proof (Z.log2_nonneg (n - i)). set (o := Z.min _ _).
  assert (0 ≤ o ≤ al ∧ o ≤ Z.log2 (n - i) ∧ o < 11) as (? & ? & ?) by lia.
  split; [lia|]. split; [apply Hdiv; lia|].
  pose proof (Z.log2_spec (n - i) ltac:(lia)). pose proof (pow2_le o (Z.log2 (n - i)) ltac:(lia)). lia.
Qed.

(** The greedy order never leaves room for a larger aligned block. *)
Lemma populate_order_max i n o : 0 ≤ i → 0 ≤ o < MAX_ORDER → (2 ^ o | i) → i + 2 ^ o ≤ n →
  o ≤ populate_order i n.
Proof.
  intros Hi Ho Hd Hn. unfold populate_order, ilog2, MAX_ORDER in *. cbv zeta.
  assert (o ≤ Z.log2 (n - i)).
  { rewrite <- (Z.log2_pow2 o) by lia. apply Z.log2_le_mono. lia. }
  destruct (Z.eqb_spec i 0); [lia|].
  destruct (trailing_zeros_spec 64 i o ltac:(lia) ltac:(lia)) as [_ Hk]. apply Hk in Hd. lia.
Qed.

Section add.
Context {T : AddressTranslator} {TL : AddressTranslatorLaws T}.
Implicit Types (zs : list zinfo) (bl : gmap Z binfo) (d : bool) (s : PageAllocator).

(** The blocks of zone [z] are those the population loop places. *)
Definition populated (z : zinfo) bl : Prop :=
  ∀ a b, bl !! a = Some b → b_zone b = z → b_order b = populate_order (b_idx b) (zi_pages z).

Lemma populate_no_buddy zs bl z i : zones_wf zs → z ∈ zs → populated z bl → 0 ≤ i < zi_pages z →
  tiling zs bl (hole z i (zi_pages z)) → let o := populate_order i (zi_pages z) in
  o < MAX_ORDER - 1 → ∀ a b, bl !! a = Some b → ¬ buddies (mk_block z i o Free) b.
Proof.
  intros ZW Hz Hpop Hi Ti o Hlt a b Hb (Ez & Eo & Ei). unfold b_size in Ei. simpl in *.
  destruct (populate_order_spec i (zi_pages z) Hi) as (Ho & Hd & Hn). fold o in Ho, Hd, Hn.
  pose proof (pow2_pos o ltac:(lia)). pose proof (pages_bound _ ZW z Hz).
  destruct (buddy_cases i o ltac:(lia) ltac:(lia) Hd) as (_ & Hd2 & [[Ej _]|(Ej & El & Hge)]).
  - apply (t_hole _ _ _ Ti a b z (b_idx b) Hb).
    + pose proof (tiling_first zs bl _ Ti a b Hb) as Hf. by rewrite <- Ez in Hf.
    + pose proof (t_bwf _ _ _ Ti a b Hb) as W. pose proof (b_size_pos _ _ _ W).
      pose proof (bwf_end _ _ _ W) as Hend. unfold b_end in Hend. rewrite <- Ez in Hend.
      split; [done|]. lia.
  - assert (o + 1 ≤ populate_order (i - 2 ^ o) (zi_pages z)).
    { apply populate_order_max; [lia|lia|by rewrite El in Hd2|]. rewrite pow2_S by lia. lia. }
    pose proof (Hpop a b Hb (eq_sym Ez)) as Ho'. rewrite Ei, Ej in Ho'. lia.
Qed.

Lemma wp_populate_loop zs z fuel i bl s (Q : unit → PageAllocator → Prop) :
  z ∈ zs → 0 ≤ i ≤ zi_pages z → zi_pages z - i ≤ Z.of_nat fuel →
  inv zs bl (hole z i (zi_pages z)) s → populated z bl →
  (∀ bl' s', inv zs bl' no_hole s' → owned bl' = owned bl → lock s' = lock s →
     is_dmap s' = is_dmap s → (∀ a b, bl' !! a = Some b → b_zone b ≠ z → bl !! a = Some b) →
     Q tt s') →
  wp (populate_loop fuel (emb (is_dmap s) (zi_ptr z)) (emb (is_dmap s) (zi_meta z))
        (emb (is_dmap s) (zi_base z)) i (zi_pages z)) Q s.
Proof.
  intros Hz. revert i bl s. induction fuel as [|fuel IH]; intros i bl s Hi Hf I Hpop HQ;
    simpl populate_loop; destruct (Z.leb_spec (zi_pages z) i); try lia.
  1,2: wp_steps; apply (HQ bl); try done; eapply inv_hole_ext; [exact I|]; intros z' j _ _;
    unfold no_hole, hole; split; [intros [_ ?]; lia|done].
  pose proof (i_zones _ _ _ _ I) as ZW. pose proof (pages_bound _ ZW z Hz).
  destruct (populate_order_spec i (zi_pages z)) as (Ho & Hd & Hn); [lia|].
  pose proof (populate_no_buddy zs bl z i ZW Hz Hpop ltac:(lia) (i_tiling _ _ _ _ I)) as Hnb.
  simpl in Hnb. set (o := populate_order i (zi_pages z)) in *. pose proof (pow2_pos o ltac:(lia)).
  wp_step. apply wp_shl1; [unfold MAX_ORDER in *; lia|].
  wp_step. apply (wp_fill_hole _ _ _ _ z i (2 ^ o) _ _ I Hz); [lia|lia|lia| |].
  { intros j Hj. split; [done|lia]. }
  intros I1. wp_step. apply (wp_page_addr _ _ _ _ z _ _ I1 Hz); [lia|]. simpl.
  wp_step. apply (wp_push_free _ _ _ _ _ (mk_block z i o Free) _ I1).
  - apply mk_block_wf; (done || lia).
  - done.
  - intros z' j [<- Hj]. unfold b_end, b_size in Hj. simpl in *. split; [done|lia].
  - intros Hlt a' b' Hb' _. by apply (Hnb Hlt a').
  - intros j Hj. unfold b_end, b_size in Hj. simpl in *. by rewrite fill_lookup, decide_True by lia.
  - intros fa m Ha I2. lazymatch goal with |- wp _ _ ?s' =>
      apply (IH (i + 2 ^ o) (<[zaddr z i := mk_block z i o Free]> bl) s') end; simpl; [lia|lia| | |].
    + eapply inv_hole_ext; [exact I2|]. intros z' j _ _. unfold hole, in_block, b_end, b_size. simpl.
      split; [|intuition lia]. intros [[-> ?] Hnot]. split; [done|].
      destruct (decide (i + 2 ^ o ≤ j)); [lia|]. exfalso. apply Hnot. split; [done|lia].
    + intros a b [[<- <-]|[_ Hb]]%lookup_insert_Some Ez; [done|by apply Hpop with a].
    + intros bl' s' I3 Eo El Ed Hold. rewrite owned_insert_free in Eo by done.
      apply (HQ bl'); try done. intros a b Hb Hne. specialize (Hold a b Hb Hne).
      apply lookup_insert_Some in Hold as [[_ <-]|[_ Hold]]; [done|done].
Qed.

(** ** A new zone *)

Lemma emb_lt d a b : phys_addr a → phys_addr b → a ≠ 0 → b ≠ 0 → emb d a < emb d b ↔ a < b.
Proof.
  intros Ha Hb Ha0 Hb0. replace b with (a + (b - a)) by lia.
  rewrite emb_add by (done || by replace (a + (b - a)) with b by lia). lia.
Qed.

Lemma lowest_base_phys zs : zones_wf zs → phys_addr (lowest_base zs).
Proof.
  intros ZW. assert (∀ z, z ∈ zs → phys_addr (zi_base z)) as Hz.
  { intros z Hz. pose proof (zs_wf _ ZW z Hz) as []. zone_lia. }
  clear ZW. induction zs as [|z zs IH]; simpl; [done|].
  pose proof (Hz z ltac:(set_solver)) as [].
  destruct IH as []; [intros; apply Hz; set_solver|].
  unfold phys_addr. case_decide; [lia|]. destruct (Z.min_spec (zi_base z) (lowest_base zs)); lia.
Qed.

Section new_zone.
Context (zs : list zinfo) (bl : gmap Z binfo) (s : PageAllocator) (z : zinfo).
Context (I : inv zs bl no_hole s) (Hwf : zwf z) (Hdis : ∀ z', z' ∈ zs → zdisj z z').

Lemma new_zone_fresh : z ∉ zs.
Proof. intros Hz. destruct Hwf. specialize (Hdis z Hz). zone_lia. Qed.

Lemma new_zones_wf : zones_wf (z :: zs).
Proof.
  pose proof (i_zones _ _ _ _ I) as ZW. split.
  - intros z' [->|Hz']%elem_of_cons; [done|by apply ZW].
  - apply NoDup_cons. split; [apply new_zone_fresh|apply ZW].
  - intros z1 z2 [->|H1]%elem_of_cons [->|H2]%elem_of_cons; [by left| | |by apply ZW].
    + right. by apply Hdis.
    + right. destruct (Hdis z1 H1); [by right|by left].
Qed.

Lemma new_zone_tiling : tiling (z :: zs) bl (hole z 0 (zi_pages z)).
Proof.
  pose proof (i_tiling _ _ _ _ I) as Ti. split.
  - intros a b Hb. destruct (t_bwf _ _ _ Ti a b Hb). split; try done. set_solver.
  - apply Ti.
  - intros z' i [->|Hz']%elem_of_cons Hi HU; [exfalso; by apply HU|].
    apply (t_cover _ _ _ Ti); (done || by intros []).
  - intros a b z' i Hb [<- _] [E _].
    apply new_zone_fresh. rewrite <- E. by apply (bwf_zone _ _ _ (t_bwf _ _ _ Ti a b Hb)).
  - apply Ti.
Qed.

Lemma new_zone_meta : meta_ok (z :: zs) bl (fill (meta s) (zi_meta z) (Z.to_nat (zi_pages z)) 0).
Proof.
  pose proof (i_meta _ _ _ _ I) as [Mb Md]. pose proof (i_zones _ _ _ _ I) as ZW.
  pose proof (i_tiling _ _ _ _ I) as Ti. destruct Hwf. split.
  - intros a b i Hb Hi. rewrite fill_lookup, decide_False; [by apply (Mb a)|].
    pose proof (t_bwf _ _ _ Ti a b Hb) as [Hz _ _ Hi0 _ He]. pose proof (zs_wf _ ZW _ Hz) as [].
    specialize (Hdis _ Hz). zone_lia.
  - intros z' i [->|Hz']%elem_of_cons Hi; rewrite fill_lookup.
    + rewrite decide_True by lia. by eexists.
    + case_decide; [by eexists|by apply Md].
Qed.

(** The state [add_range] reaches before it populates the zone. *)
Lemma inv_new_zone :
  inv (z :: zs) bl (hole z 0 (zi_pages z))
    (set_total_pages (wrap 64 (total_pages s + zi_pages z))
      (set_zone_head (emb (is_dmap s) (zi_ptr z))
        (set_zones (<[zi_ptr z := zone_rec (is_dmap s) z (zone_head s)]> (zones s))
          (set_meta (fill (meta s) (zi_meta z) (Z.to_nat (zi_pages z)) 0)
            (set_lowest_address (emb (is_dmap s) (lowest_base (z :: zs))) s))))).
Proof.
  split; simpl.
  - apply new_zones_wf.
  - split; [done|]. eexists. rewrite lookup_insert_eq. split; [done|].
    apply zlist_insert; [|apply I]. intros z' Hz' E.
    apply new_zone_fresh. rewrite <- (ptr_zone_inj _ new_zones_wf z' z); (done || set_solver).
  - apply new_zone_tiling.
  - apply new_zone_meta.
  - apply I.
  - rewrite (i_total _ _ _ _ I), wrap_add_l. f_equal. lia.
  - apply I.
  - done.
Qed.
End new_zone.

(** The pages of the new zone, when [r] of [n] pages are reserved. *)
Definition new_zinfo (p0 n r : Z) : zinfo := {|
  zi_ptr := p0 + r * PAGE_SIZE - SIZE_OF_ZONE; zi_meta := p0;
  zi_base := p0 + r * PAGE_SIZE; zi_pages := n - r |}.

Lemma new_zinfo_wf p0 n r : 0 ≤ p0 → (PAGE_SIZE | p0) → 1 ≤ r < n →
  n - r + SIZE_OF_ZONE ≤ r * PAGE_SIZE → p0 + n * PAGE_SIZE < 2 ^ VA_WIDTH → zwf (new_zinfo p0 n r).
Proof.
  intros Hp Ha Hr Hfit Hend. split; unfold zaddr; simpl; try zone_lia.
  apply Z.divide_add_r; [done|]. apply Z.divide_factor_r.
Qed.

Lemma set_lowest_address_id s : set_lowest_address (lowest_address s) s = s.
Proof. by destruct s. Qed.

Lemma lowest_update d zs z : zones_wf zs → zwf z →
  (if (emb d (lowest_base zs) =? 0) || (emb d (zi_base z) <? emb d (lowest_base zs))
   then emb d (zi_base z) else emb d (lowest_base zs)) = emb d (lowest_base (z :: zs)).
Proof.
  intros ZW Hwf. pose proof (lowest_base_phys zs ZW) as Hp. destruct Hwf.
  assert (phys_addr (zi_base z) ∧ zi_base z ≠ 0) as [Hb Hb0] by zone_lia. simpl.
  destruct (decide (lowest_base zs = 0)) as [E|E].
  - rewrite E. by destruct d.
  - rewrite (proj2 (Z.eqb_neq _ _)) by (by rewrite emb_zero). simpl.
    destruct (Z.ltb_spec (emb d (zi_base z)) (emb d (lowest_base zs))) as [Hlt|Hge].
    + apply emb_lt in Hlt; [|done..]. f_equal. lia.
    + f_equal. assert (¬ zi_base z < lowest_base zs); [|lia].
      intros Hlt. apply (emb_lt d) in Hlt; [lia|done..].
Qed.

Lemma wp_set_lowest zs bl s z (Q : unit → PageAllocator → Prop) : inv zs bl no_hole s → zwf z →
  Q tt (set_lowest_address (emb (is_dmap s) (lowest_base (z :: zs))) s) →
  wp (if (lowest_address s =? 0) || (emb (is_dmap s) (zi_base z) <? lowest_address s)
      then modify (set_lowest_address (emb (is_dmap s) (zi_base z))) else ret tt) Q s.
Proof.
  intros I Hwf HQ. pose proof (lowest_update (is_dmap s) zs z (i_zones _ _ _ _ I) Hwf) as Elow.
  rewrite <- (i_lowest _ _ _ _ I) in Elow. rewrite <- Elow in HQ. destruct (_ || _); wp_steps; [done|].
  by rewrite set_lowest_address_id in HQ.
Qed.

(** A zone whose header ends [rb] bytes after its metadata begin. *)
Lemma wp_install_zone zs bl s z rb (Q : unit → PageAllocator → Prop) :
  inv zs bl no_hole s → zwf z → (∀ z', z' ∈ zs → zdisj z z') →
  emb (is_dmap s) (zi_meta z) + rb - SIZE_OF_ZONE = emb (is_dmap s) (zi_ptr z) →
  (∀ bl' s', inv (z :: zs) bl' no_hole s' → owned bl' = owned bl → lock s' = lock s →
     is_dmap s' = is_dmap s → Q tt s') →
  wp (install_zone (emb (is_dmap s) (zi_meta z)) rb (emb (is_dmap s) (zi_base z)) (zi_pages z)) Q s.
Proof.
  intros I Hwf Hdis Eptr HQ. pose proof (new_zones_wf _ _ _ _ I Hwf Hdis) as ZW.
  assert (z ∈ z :: zs) as Hz by set_solver. destruct (ptr_phys _ ZW z Hz) as [Hpz _].
  pose proof (inv_new_zone zs bl s z I Hwf Hdis) as I1. destruct Hwf as [] eqn:Ewf.
  unfold install_zone. wp_step. wp_step. wp_step. eapply wp_set_lowest; [done|exact Hwf|].
  wp_step. rewrite Eptr. apply wp_usize; [by apply emb_range|].
  wp_step. apply (wp_write_bytes _ (zi_meta z)).
  { intros k Hk. apply (emb_meta _ _ _ _ ZW Hz). lia. }
  unfold write_zone. wp_steps. rewrite emb_phys by done.
  lazymatch goal with |- wp _ _ ?s' =>
    apply (wp_populate_loop (z :: zs) z (Z.to_nat (zi_pages z)) 0 bl s' Q) end;
    [done|lia|lia|exact I1| |].
  - intros a b Hb Ez. exfalso. apply (new_zone_fresh zs z Hwf Hdis). rewrite <- Ez.
    by apply (bwf_zone _ _ _ (t_bwf _ _ _ (i_tiling _ _ _ _ I) a b Hb)).
  - intros bl' s' I2 Eo El Ed _. by apply (HQ bl').
Qed.

Definition add_post zs bl s (p0 n : Z) (_ : unit) (s' : PageAllocator) : Prop :=
  ∃ r bl', Inv (new_zinfo p0 n r :: zs) bl' s' ∧ is_dmap s' = is_dmap s ∧
    owned bl' = owned bl ∧ 1 ≤ r < n ∧
    (r - 1) * PAGE_SIZE < n - r + SIZE_OF_ZONE ≤ r * PAGE_SIZE.

Lemma land_page_mask x : (PAGE_SIZE | x) → (Z.land x PAGE_MASK =? 0) = true.
Proof. intros Hx. rewrite mod_PAGE_SIZE_mask. by apply Z.eqb_eq, Z.mod_divide. Qed.

Lemma wp_add_range zs bl s p0 n : Inv zs bl s →
  let start := emb (is_dmap s) p0 in
  is_kernel_address start = is_dmap s → (PAGE_SIZE | start) → (PAGE_SIZE | p0) → 0 ≤ p0 →
  2 ≤ n → (n + 31) mod 16385 ≠ 0 → p0 + n * PAGE_SIZE < 2 ^ VA_WIDTH →
  (∀ z, z ∈ zs → p0 + n * PAGE_SIZE ≤ zi_meta z ∨ zaddr z (zi_pages z) ≤ p0) →
  wp (add_range start (start + n * PAGE_SIZE)) (add_post zs bl s p0 n) s.
Proof.
  intros [I Hl] start Hk Hal Hal0 Hp0 Hn Hnd Hend Hdis. pose proof (i_zones _ _ _ _ I) as ZW.
  assert (∀ k, 0 ≤ k ≤ n * PAGE_SIZE → p0 + k ≠ 0 → emb (is_dmap s) (p0 + k) = start + k) as Hadd.
  { intros k Hk0 Hne. unfold start. destruct (is_dmap s) eqn:Ed; [|done].
    apply emb_add; [zone_lia|zone_lia| |done]. intros ->. by vm_compute in Hk. }
  unfold add_range. wp_steps. apply wp_assert; [rewrite Hk; by destruct (is_dmap s)|].
  wp_step. apply wp_assert; [change PAGE_SIZE with 16384; lia|].
  wp_step. apply wp_assert; [by apply land_page_mask|].
  wp_step. apply wp_assert; [apply land_page_mask, Z.divide_add_r; [done|apply Z.divide_factor_r]|].
  wp_step. apply wp_lock; [done|]. intros l Hlk.
  rewrite Z.add_simpl_l, Z.div_mul, (proj2 (Z.eqb_neq n 0)) by (done || lia).
  destruct (reserve_done n (set_lock l s)) as (r & Er & Hr & Hfit); [zone_lia|done|].
  wp_step. unfold wp at 1. rewrite Er.
  wp_step. apply (wp_expect _ (n - r)); [unfold checked_sub; by rewrite (proj2 (Z.leb_le _ _)) by lia|].
  wp_step. apply wp_assert; [lia|]. wp_step. apply wp_usize; [zone_lia|].
  set (z := new_zinfo p0 n r). assert (zwf z) as Hwf by (apply new_zinfo_wf; (done || lia)).
  assert (start + r * PAGE_SIZE = emb (is_dmap s) (zi_base z)) as ->.
  { symmetry. apply Hadd; zone_lia. }
  wp_step. apply wp_usize; [apply emb_range; destruct Hwf; zone_lia|].
  wp_step. apply (wp_install_zone zs bl (set_lock l s) z); [by apply inv_set_lock|done| | |].
  - intros z' Hz'. unfold zdisj, zaddr at 1. simpl. destruct (Hdis z' Hz'); [left|right]; zone_lia.
  - simpl. fold start. rewrite <- !Z.add_sub_assoc. symmetry. apply Hadd; zone_lia.
  - intros bl' s' I' Eo El Ed. apply wp_unlock; [by unfold locked; rewrite El|]. intros l' Hl'.
    exists r, bl'. split; [split; [by apply inv_set_lock|done]|]. done.
Qed.
End add.
