(* ===== verification/PageDmap.v ===== *)
(** * Moving the page allocator to the direct map

    [transition_dmap] rewrites every pointer of the allocator's data
    structures from physical to direct-map addresses; the abstract state is
    unchanged.  Also the walks over the zones that only read:
    [overlapping_range] and [max_address]. *)

From S2P Require Import Prelude Vm Sync PageAlloc Dll PageInv PageProofs PageSpec.

Section dmap.
Context {T : AddressTranslator} {TL : AddressTranslatorLaws T}.
Implicit Types (zs : list zinfo) (bl : gmap Z binfo) (s : PageAllocator).

Lemma to_dmap_phys p : phys_addr p → dmap_to_phys (to_dmap p) = p.
Proof. apply (emb_phys true). Qed.

Ltac in_cons := apply elem_of_cons; auto.

(** ** Zones *)

Lemma wp_transition_zones zs fuel p s (Q : unit → PageAllocator → Prop) :
  (∀ z, z ∈ zs → phys_addr (zi_ptr z) ∧ zi_ptr z ≠ 0) → NoDup (zi_ptr <$> zs) →
  zlist false (zones s) p zs → (length zs ≤ fuel)%nat →
  (∀ m, zlist true m (to_dmap p) zs →
        (∀ a, a ∉ zi_ptr <$> zs → m !! a = zones s !! a) → Q tt (set_zones m s)) →
  wp (transition_zones fuel p) Q s.
Proof.
  revert fuel p s. induction zs as [|z zs IH]; intros fuel p s Hph Hnd Hl Hf HQ; simpl in Hl.
  - subst p. assert (wp (ret tt) Q s) as Hr.
    { wp_steps. specialize (HQ (zones s)).
      assert (set_zones (zones s) s = s) as Es by by destruct s. rewrite Es in HQ.
      by apply HQ. }
    by destruct fuel.
  - destruct Hl as (-> & nx & Hm & Hl). destruct fuel as [|fuel]; [simpl in Hf; lia|].
    change (emb false (zi_ptr z)) with (zi_ptr z) in *.
    destruct (Hph z ltac:(in_cons)) as [Hp Hp0]. apply NoDup_cons in Hnd as [Hz Hnd].
    simpl transition_zones. rewrite (proj2 (Z.eqb_neq _ _) Hp0).
    wp_step. unfold wp at 1, deref_zone. rewrite to_dmap_phys, Hm by done.
    unfold write_zone. wp_steps. rewrite to_dmap_phys by done. simpl.
    apply IH; simpl zones; [intros; apply Hph; in_cons|done| |simpl in Hf; lia|].
    + apply zlist_insert; [|done]. intros z' Hz' E. apply Hz. rewrite <- E.
      by apply list_elem_of_fmap_2.
    + intros m Hl' Hfr. apply (HQ m).
      * split; [done|]. exists (to_dmap nx). split; [|done].
        rewrite Hfr by done. by rewrite lookup_insert_eq.
      * intros a [Ha1 Ha2]%not_elem_of_cons. rewrite Hfr by done. by rewrite lookup_insert_ne.
Qed.

(** ** Free lists *)

Definition moved (L : list Z) (m : gmap Z FreeBlock) : gmap Z FreeBlock :=
  foldl (λ m a, alter block_to_dmap a m) m L.

Lemma moved_lookup L m a : NoDup L →
  moved L m !! a = if decide (a ∈ L) then block_to_dmap <$> m !! a else m !! a.
Proof.
  revert m. induction L as [|b L IH]; intros m Hnd; [done|].
  apply NoDup_cons in Hnd as [Hb Hnd].
  change (moved (b :: L) m) with (moved L (alter block_to_dmap b m)). rewrite IH by done.
  destruct (decide (a = b)) as [->|Hne].
  - rewrite decide_False, decide_True by set_solver. apply lookup_alter_eq.
  - rewrite lookup_alter_ne by done. repeat case_decide; set_solver.
Qed.

Lemma dseg_moved m m' pp p q L : (∀ a, a ∈ L → m' !! a = block_to_dmap <$> m !! a) →
  dseg (emb false) m pp p q 0 L → dseg (emb true) m' (to_dmap pp) (to_dmap p) (to_dmap q) 0 L.
Proof.
  revert pp p. induction L as [|a L IH]; intros pp p Hm; simpl.
  - by intros [-> ->].
  - intros (-> & n & Hn & Hp & Hs). split; [done|]. exists (block_to_dmap n).
    rewrite Hm, Hn by set_solver. split; [done|]. split; [simpl; by f_equal|].
    apply (IH a (next n)); [set_solver|done].
Qed.

Lemma wp_transition_blocks L fuel pp p q s (Q : unit → PageAllocator → Prop) :
  (∀ a, a ∈ L → phys_addr a ∧ a ≠ 0) → NoDup L → dseg (emb false) (blocks s) pp p q 0 L →
  (length L ≤ fuel)%nat → Q tt (set_blocks (moved L (blocks s)) s) →
  wp (transition_blocks fuel p) Q s.
Proof.
  revert fuel pp p s. induction L as [|a L IH]; intros fuel pp p s Hph Hnd Hs Hf HQ.
  - destruct Hs as [-> _]. assert (wp (ret tt) Q s) as Hr by (by destruct s). by destruct fuel.
  - destruct Hs as (-> & n & Hn & _ & Hs). destruct fuel as [|fuel]; [simpl in Hf; lia|].
    change (emb false a) with a in *.
    destruct (Hph a ltac:(in_cons)) as [Hp Hp0]. apply NoDup_cons in Hnd as [Ha Hnd].
    simpl transition_blocks. rewrite (proj2 (Z.eqb_neq _ _) Hp0).
    wp_step. unfold wp at 1, deref_block. rewrite to_dmap_phys, Hn by done.
    unfold update_block. wp_step. wp_step. unfold wp at 1, deref_block. rewrite to_dmap_phys, Hn by done.
    wp_steps.
    apply (IH fuel a (next n)); [intros b Hb; apply Hph; in_cons|done| |simpl in Hf; lia|by destruct s].
    apply (dseg_frame _ (blocks s)); [|done]. intros b Hb. apply lookup_alter_ne. congruence.
Qed.

(** The loop over the orders; the lists are disjoint. *)
Lemma wp_transition_orders os (L : Z → list Z) s (Q : unit → PageAllocator → Prop) :
  NoDup os → (∀ o, o ∈ os → 0 ≤ o) →
  (∀ o a, o ∈ os → a ∈ L o → phys_addr a ∧ a ≠ 0) → (∀ o, o ∈ os → NoDup (L o)) →
  (∀ o o' a, o ∈ os → o' ∈ os → a ∈ L o → a ∈ L o' → o = o') →
  (∀ o, o ∈ os → ∃ h, free_area s !! Z.to_nat o = Some h ∧ dll (emb false) (blocks s) h (L o)) →
  (∀ fa m, length fa = length (free_area s) →
     (∀ o, o ∈ os → ∃ h, fa !! Z.to_nat o = Some h ∧ dll (emb true) m h (L o)) →
     (∀ o, 0 ≤ o → o ∉ os → fa !! Z.to_nat o = free_area s !! Z.to_nat o) →
     (∀ o a, o ∈ os → a ∈ L o → m !! a = block_to_dmap <$> blocks s !! a) →
     (∀ a, (∀ o, o ∈ os → a ∉ L o) → m !! a = blocks s !! a) →
     Q tt (set_blocks m (set_free_area fa s))) →
  wp (transition_orders os) Q s.
Proof.
  revert s. induction os as [|o os IH]; intros s Hnd Hpos Hph Hndl Hdis Hdll HQ; cbn [transition_orders].
  - wp_steps. specialize (HQ (free_area s) (blocks s)).
    assert (set_blocks (blocks s) (set_free_area (free_area s) s) = s) as Es by by destruct s.
    rewrite Es in HQ.
    apply HQ; try done; intros; exfalso; by eapply not_elem_of_nil.
  - apply NoDup_cons in Hnd as [Ho Hnd].
    destruct (Hdll o ltac:(in_cons)) as (h & Hh & q & Hs).
    wp_step. apply (wp_get_free_area _ h); [done|].
    wp_step. apply wp_set_free_head; [by eexists|]. wp_steps.
    apply (wp_transition_blocks (L o) _ 0 h q); [intros; apply (Hph o); [in_cons|done]|apply Hndl; in_cons|done| |]; simpl.
    { assert (length (L o) ≤ size (blocks s))%nat; [|lia].
      apply NoDup_keys_size; [apply Hndl; in_cons|]. intros a Ha. by eapply dseg_lookup. }
    assert (∀ o', o' ∈ os → ∀ a, a ∈ L o' → moved (L o) (blocks s) !! a = blocks s !! a) as Hfr.
    { intros o' Ho' a Ha. rewrite moved_lookup by (apply Hndl; in_cons). apply decide_False. intros Ha'.
      apply Ho. rewrite (Hdis o o' a); try done; in_cons. }
    apply IH; simpl; [done|intros; apply Hpos; in_cons|intros o' a ? ?; apply (Hph o'); [in_cons|done]
      |intros; apply Hndl; in_cons|intros o1 o2 a ? ? ? ?; apply (Hdis o1 o2 a); try done; in_cons| |].
    + intros o' Ho'. destruct (Hdll o' ltac:(in_cons)) as (h' & Hh' & Hl'). exists h'. split.
      * rewrite list_lookup_insert_ne; [done|]. intros E. apply Ho.
        replace o with o'; [done|]. pose proof (Hpos o ltac:(in_cons)).
        pose proof (Hpos o' ltac:(in_cons)). lia.
      * apply (dll_frame _ (blocks s)); [|done]. by apply Hfr.
    + intros fa m Hlen Hd1 Hd2 Hm1 Hm2. pose proof (lookup_lt_Some _ _ _ Hh) as Hlt.
      assert (∀ a, a ∈ L o → m !! a = block_to_dmap <$> blocks s !! a) as Hmo.
      { intros a Ha. rewrite Hm2.
        - rewrite moved_lookup by (apply Hndl; in_cons). by apply decide_True.
        - intros o' Ho' Ha'. apply Ho. rewrite (Hdis o o' a); try done; in_cons. }
      eapply (HQ fa m).
      * by rewrite Hlen, length_insert.
      * intros o' [->|Ho']%elem_of_cons; [|by apply Hd1]. exists (to_dmap h). split.
        { rewrite Hd2, list_lookup_insert_eq by (done || apply Hpos; in_cons). done. }
        exists (to_dmap q). change 0 with (to_dmap 0) at 1. by eapply dseg_moved.
      * intros o' Ho0 [Hne Ho']%not_elem_of_cons. rewrite Hd2 by done.
        apply list_lookup_insert_ne. pose proof (Hpos o ltac:(in_cons)). lia.
      * intros o' a [->|Ho']%elem_of_cons Ha; [by apply Hmo|].
        rewrite (Hm1 o' a) by done. by rewrite (Hfr o').
      * intros a Ha. rewrite Hm2 by (intros; apply Ha; in_cons). rewrite moved_lookup by (apply Hndl; in_cons).
        apply decide_False, Ha. in_cons.
Qed.

Lemma wp_transition_dmap zs bl s : Inv zs bl s → is_dmap s = false →
  wp transition_dmap (λ _ s', Inv zs bl s' ∧ is_dmap s' = true) s.
Proof.
  intros [I Hl] Ed. pose proof (i_zones _ _ _ _ I) as ZW. unfold transition_dmap.
  wp_step. apply wp_lock; [done|]. intros l Hlk. wp_steps. apply wp_assert; [simpl; by rewrite Ed|].
  wp_steps. apply (wp_transition_zones zs); cbn -[transition_orders seqZ].
  { intros z Hz. by apply (ptr_phys _ ZW). }
  { apply NoDup_fmap_2_strong; [|apply ZW]. intros z1 z2 H1 H2. by apply (ptr_zone_inj _ ZW). }
  { pose proof (i_zlist _ _ _ _ I) as Hz. by rewrite Ed in Hz. }
  { pose proof (zlist_size _ _ _ zs ZW (i_zlist _ _ _ _ I)). lia. }
  intros zm Hzl _. destruct (i_free _ _ _ _ I) as [L F]. rewrite Ed in F.
  destruct (inv_list_facts _ _ _ _ I) as [Hph _].
  wp_step. apply (wp_transition_orders _ L); simpl.
  { apply NoDup_seqZ. }
  { intros o Ho%elem_of_seqZ. lia. }
  { intros o a Ho%elem_of_seqZ. by apply (list_phys _ _ _ _ _ F Hph). }
  { intros o Ho%elem_of_seqZ. by apply (f_nodup _ _ _ _ _ F). }
  { intros o o' a Ho%elem_of_seqZ Ho'%elem_of_seqZ Ha Ha'. destruct (decide (o = o')) as [|Hne]; [done|].
    by destruct (list_other _ _ _ _ _ F o o' a Ho Ho' Hne Ha). }
  { intros o Ho%elem_of_seqZ. by apply (f_dll _ _ _ _ _ F). }
  intros fa m Hlen Hd1 _ Hm1 _. wp_steps. apply wp_unlock; [done|]. intros l' Hl'.
  split; [|done]. split; [|done]. apply inv_set_lock. split; simpl; try apply I; [done| |].
  - exists L. split.
    + by rewrite Hlen, (f_len _ _ _ _ _ F).
    + intros o Ho. apply Hd1, elem_of_seqZ. lia.
    + apply (f_nodup _ _ _ _ _ F).
    + apply (f_mem _ _ _ _ _ F).
    + intros a b Hb Hk. destruct (f_node _ _ _ _ _ F a b Hb Hk) as (n & Hn & Ez & Ei).
      pose proof (bwf_order _ _ _ (t_bwf _ _ _ (i_tiling _ _ _ _ I) a b Hb)) as Ho.
      exists (block_to_dmap n). rewrite (Hm1 (b_order b)), Hn.
      * split; [done|]. simpl. by rewrite Ez.
      * apply elem_of_seqZ. lia.
      * apply (f_mem _ _ _ _ _ F); [done|]. by exists b.
  - rewrite (i_lowest _ _ _ _ I), Ed. done.
Qed.

(** ** Walks that only read *)

(** One zone record, and the end of its data. *)
Lemma wp_zone_end zs bl U s z nx (Q : Z → PageAllocator → Prop) : inv zs bl U s → z ∈ zs →
  Q (emb (is_dmap s) (zaddr z (zi_pages z))) s →
  wp (usize (data_base (zone_rec (is_dmap s) z nx) + zone_pages (zone_rec (is_dmap s) z nx) * PAGE_SIZE)) Q s.
Proof.
  intros I Hz HQ. simpl. apply (wp_page_addr _ _ _ _ z _ _ I Hz); [|done].
  pose proof (pages_bound _ (i_zones _ _ _ _ I) z Hz). lia.
Qed.

Definition overlaps (z : zinfo) (start end_ : Z) : Prop :=
  start < zaddr z (zi_pages z) ∧ zi_meta z < end_.

Definition overlap_post zs (start end_ : Z) (r : option (Z * Z)) : Prop :=
  match r with
  | Some (a, b) => ∃ z, z ∈ zs ∧ overlaps z start end_ ∧ a = zi_meta z ∧ b = zaddr z (zi_pages z)
  | None => ∀ z, z ∈ zs → ¬ overlaps z start end_
  end.

Lemma wp_overlap_walk zs bl U s start end_ zs' fuel p : inv zs bl U s → (∀ z, z ∈ zs' → z ∈ zs) →
  zlist (is_dmap s) (zones s) p zs' → (length zs' ≤ fuel)%nat →
  wp (overlap_walk fuel p start end_) (λ r s', s' = s ∧ overlap_post zs' start end_ r) s.
Proof.
  intros I. pose proof (i_zones _ _ _ _ I) as ZW.
  revert fuel p. induction zs' as [|z zs' IH]; intros fuel p Hsub Hl Hf.
  - simpl in Hl. subst p. assert (wp (ret None) (λ r s', s' = s ∧ overlap_post [] start end_ r) s) as Hr.
    { split; [done|]. intros z Hz. set_solver. }
    destruct fuel; simpl; by rewrite dmap_phys_id by done.
  - destruct Hl as (-> & nx & Hm & Hl). destruct fuel as [|fuel]; [simpl in Hf; lia|].
    assert (z ∈ zs) as Hz by (apply Hsub; set_solver). destruct (ptr_phys _ ZW z Hz) as [Hp Hp0].
    simpl overlap_walk. rewrite emb_phys, (proj2 (Z.eqb_neq _ _) Hp0) by done.
    wp_step. unfold wp at 1, deref_zone. rewrite emb_phys, Hm by done.
    wp_step. apply (wp_zone_end zs bl U s z nx _ I Hz).
    pose proof (pages_bound _ ZW z Hz).
    assert (dmap_to_phys (meta_array (zone_rec (is_dmap s) z nx)) = zi_meta z) as ->.
    { simpl. pose proof (emb_meta _ (is_dmap s) z 0 ZW Hz ltac:(lia)) as E. by rewrite !Z.add_0_r in E. }
    rewrite emb_phys by (apply (zaddr_phys _ ZW); [done|lia]).
    destruct ((start <? zaddr z (zi_pages z)) && (zi_meta z <? end_)) eqn:Eo.
    + apply andb_true_iff in Eo as [?%Z.ltb_lt ?%Z.ltb_lt]. wp_steps. split; [done|].
      exists z. split; [set_solver|]. done.
    + eapply wp_mono; [apply (IH fuel nx); [set_solver|done|simpl in Hf; lia]|].
      intros r s' [-> Hr]. split; [done|]. destruct r as [[a b]|]; simpl in *.
      * destruct Hr as (z' & Hz' & ?). exists z'. split; [set_solver|done].
      * intros z' [->|Hz']%elem_of_cons; [|by apply Hr]. intros [H1 H2].
        apply Z.ltb_lt in H1, H2. by rewrite H1, H2 in Eo.
Qed.

Lemma wp_overlapping_range zs bl s start end_ : Inv zs bl s → start < end_ →
  wp (overlapping_range start end_) (λ r s', Inv zs bl s' ∧ is_dmap s' = is_dmap s ∧ overlap_post zs start end_ r) s.
Proof.
  intros [I Hl] Hlt. unfold overlapping_range. rewrite (proj2 (Z.leb_gt _ _)) by lia.
  wp_step. apply wp_lock; [done|]. intros l Hlk. wp_steps.
  eapply wp_mono; [eapply (wp_overlap_walk zs bl no_hole _ _ _ zs)|].
  - by apply inv_set_lock.
  - done.
  - apply I.
  - pose proof (zlist_size _ _ _ zs (i_zones _ _ _ _ I) (i_zlist _ _ _ _ I)). simpl. lia.
  - intros r s' [-> Hr]. wp_step. apply wp_unlock; [done|]. intros l' Hl'. wp_steps.
    split; [|by split]. split; [by apply inv_set_lock, inv_set_lock|done].
Qed.

Lemma wp_max_walk zs bl U s zs' fuel p mx : inv zs bl U s → (∀ z, z ∈ zs' → z ∈ zs) →
  zlist (is_dmap s) (zones s) p zs' → (length zs' ≤ fuel)%nat →
  wp (max_walk fuel p mx) (λ r s', s' = s ∧ mx ≤ r ∧
    (∀ z, z ∈ zs' → emb (is_dmap s) (zaddr z (zi_pages z)) ≤ r) ∧
    (r = mx ∨ ∃ z, z ∈ zs' ∧ r = emb (is_dmap s) (zaddr z (zi_pages z)))) s.
Proof.
  intros I. pose proof (i_zones _ _ _ _ I) as ZW.
  revert fuel p mx. induction zs' as [|z zs' IH]; intros fuel p mx Hsub Hl Hf.
  - simpl in Hl. subst p. destruct fuel; (split; [done|]; split; [lia|]; split; [set_solver|by left]).
  - destruct Hl as (-> & nx & Hm & Hl). destruct fuel as [|fuel]; [simpl in Hf; lia|].
    assert (z ∈ zs) as Hz by (apply Hsub; set_solver). destruct (ptr_phys _ ZW z Hz) as [Hp Hp0].
    simpl max_walk. rewrite (proj2 (Z.eqb_neq _ _)) by (by rewrite emb_zero).
    wp_step. unfold wp at 1, deref_zone. rewrite emb_phys, Hm by done.
    wp_step. apply (wp_zone_end zs bl U s z nx _ I Hz). set (e := emb _ (zaddr z _)).
    eapply wp_mono; [apply (IH fuel nx); [set_solver|done|simpl in Hf; lia]|].
    simpl. intros r s' (-> & Hge & Hall & Hex).
    destruct (Z.ltb_spec mx e); (split; [done|]; split; [lia|]; split;
      [intros z' [->|Hz']%elem_of_cons; [lia|by apply Hall]|]).
    + right. destruct Hex as [->|(z' & Hz' & ->)]; [exists z|exists z']; (split; [set_solver|done]).
    + destruct Hex as [->|(z' & Hz' & ->)]; [by left|]. right. exists z'. split; [set_solver|done].
Qed.
End dmap.
