(* ===== verification/PageTheorems.v ===== *)
(** * What the page allocator guarantees

    The contract of [alloc_pages] and [free_pages] for a client, the safety
    of arbitrary sequences of calls interleaved with client writes to owned
    pages, the rejection of bad pointers, the absence of permanent
    fragmentation and the counters. *)

From S2P Require Import Prelude Vm Sync PageAlloc Dll PageInv PageProofs PageSpec PageAdd PageDmap.

Section theorems.
Context {T : AddressTranslator} {TL : AddressTranslatorLaws T}.
Implicit Types (zs : list zinfo) (bl : gmap Z binfo) (d : bool) (s : PageAllocator).

(** ** The zone walk of [free_pages] *)

Lemma zone_end_in_range zs d z : zones_wf zs → z ∈ zs →
  in_range 64 (emb d (zi_base z) + zi_pages z * PAGE_SIZE) = true.
Proof.
  intros ZW Hz. pose proof (zs_wf _ ZW z Hz) as []. rewrite (emb_zaddr zs) by (done || lia).
  pose proof (emb_range d _ (proj1 (zaddr_phys _ ZW z (zi_pages z) Hz ltac:(lia)))).
  unfold in_range. lia.
Qed.

(** One iteration at a zone whose data pages do not contain the address. *)
Lemma free_walk_skip zs bl U s z nx fuel addr : inv zs bl U s → z ∈ zs →
  zones s !! zi_ptr z = Some (zone_rec (is_dmap s) z nx) →
  ¬ (emb (is_dmap s) (zi_base z) ≤ addr < emb (is_dmap s) (zi_base z) + zi_pages z * PAGE_SIZE) →
  free_walk (S fuel) (emb (is_dmap s) (zi_ptr z)) addr s = free_walk fuel nx addr s.
Proof.
  intros I Hz Hm Hn. pose proof (i_zones _ _ _ _ I) as ZW.
  destruct (ptr_phys _ ZW z Hz) as [Hp Hp0]. simpl free_walk.
  rewrite (proj2 (Z.eqb_neq _ 0)) by (by rewrite emb_zero).
  unfold bind at 1, deref_zone. rewrite emb_phys, Hm by done. simpl. unfold bind at 1, usize.
  rewrite (zone_end_in_range zs) by done.
  destruct (Z.leb_spec (emb (is_dmap s) (zi_base z)) addr); [|done].
  destruct (Z.ltb_spec addr (emb (is_dmap s) (zi_base z) + zi_pages z * PAGE_SIZE)); [lia|done].
Qed.

(** The iteration at the zone that contains the address. *)
Definition free_here (zone_ptr addr : Z) (z : Zone) : M PageAllocator bool :=
  let off := addr - data_base z in
  assert (off mod PAGE_SIZE =? 0) ;;
  let* meta_val := read_meta (meta_array z + off / PAGE_SIZE) in
  assert (Z.land meta_val FREE_FLAG =? 0) ;;
  let* pages := shl1 (Z.land meta_val (unot 8 FREE_FLAG)) in
  modify (λ s, set_allocated_pages (wrap 64 (allocated_pages s - pages)) s) ;;
  free_block_in_zone zone_ptr (off / PAGE_SIZE) (Z.land meta_val (unot 8 FREE_FLAG)) ;;
  ret true.

Lemma free_walk_hit zs bl U s z nx fuel addr : inv zs bl U s → z ∈ zs →
  zones s !! zi_ptr z = Some (zone_rec (is_dmap s) z nx) →
  emb (is_dmap s) (zi_base z) ≤ addr < emb (is_dmap s) (zi_base z) + zi_pages z * PAGE_SIZE →
  free_walk (S fuel) (emb (is_dmap s) (zi_ptr z)) addr s =
  free_here (emb (is_dmap s) (zi_ptr z)) addr (zone_rec (is_dmap s) z nx) s.
Proof.
  intros I Hz Hm Hin. pose proof (i_zones _ _ _ _ I) as ZW.
  destruct (ptr_phys _ ZW z Hz) as [Hp Hp0]. simpl free_walk.
  rewrite (proj2 (Z.eqb_neq _ 0)) by (by rewrite emb_zero).
  unfold bind at 1, deref_zone. rewrite emb_phys, Hm by done. simpl. unfold bind at 1, usize.
  rewrite (zone_end_in_range zs) by done.
  by rewrite (proj2 (Z.leb_le _ _)), (proj2 (Z.ltb_lt _ _)) by lia.
Qed.

(** The walk reaches the zone that contains the address, or the end. *)
Lemma free_walk_find zs bl U s addr fuel p zs' : inv zs bl U s →
  (∀ z, z ∈ zs' → z ∈ zs) → zlist (is_dmap s) (zones s) p zs' → (length zs' ≤ fuel)%nat →
  (∃ z nx, z ∈ zs' ∧
     emb (is_dmap s) (zi_base z) ≤ addr < emb (is_dmap s) (zi_base z) + zi_pages z * PAGE_SIZE ∧
     free_walk fuel p addr s =
     free_here (emb (is_dmap s) (zi_ptr z)) addr (zone_rec (is_dmap s) z nx) s) ∨
  ((∀ z, z ∈ zs' → ¬ (emb (is_dmap s) (zi_base z) ≤ addr <
                      emb (is_dmap s) (zi_base z) + zi_pages z * PAGE_SIZE)) ∧
   free_walk fuel p addr s = Done (false, s)).
Proof.
  intros I. revert fuel p. induction zs' as [|z zs' IH]; intros fuel p Hsub Hl Hf.
  - right. split; [set_solver|]. simpl in Hl. subst. by destruct fuel.
  - destruct Hl as (-> & nx & Hm & Hl). destruct fuel as [|fuel]; [simpl in Hf; lia|].
    assert (z ∈ zs) as Hz by (apply Hsub; set_solver).
    destruct (decide (emb (is_dmap s) (zi_base z) ≤ addr <
                      emb (is_dmap s) (zi_base z) + zi_pages z * PAGE_SIZE)) as [Hin|Hout].
    + left. exists z, nx. split; [set_solver|]. split; [done|]. by eapply free_walk_hit.
    + rewrite (free_walk_skip zs bl U s z nx) by done.
      destruct (IH fuel nx) as [(z' & nx' & Hz' & Hin & E)|[Hno E]];
        [set_solver|done|simpl in Hf; lia| |].
      * left. exists z', nx'. split; [set_solver|]. done.
      * right. split; [|done]. intros z' [->|Hz']%elem_of_cons; [done|by apply Hno].
Qed.

(** Freeing the first page of a used block. *)
Lemma wp_free_here zs bl s a b nx (Q : bool → PageAllocator → Prop) :
  inv zs bl no_hole s → bl !! a = Some b → b_kind b = Used →
  (∀ bl' s', inv zs bl' no_hole s' → owned bl' = delete a (owned bl) → lock s' = lock s →
     is_dmap s' = is_dmap s → Q true s') →
  wp (free_here (emb (is_dmap s) (zi_ptr (b_zone b))) (emb (is_dmap s) a)
        (zone_rec (is_dmap s) (b_zone b) nx)) Q s.
Proof.
  intros I Hb Hk HQ. pose proof (i_zones _ _ _ _ I) as ZW.
  pose proof (t_bwf _ _ _ (i_tiling _ _ _ _ I) a b Hb) as W. pose proof (b_size_pos _ _ _ W).
  pose proof W as [Hz Ea Ho Hi Hd He]. unfold b_end in He.
  set (z := b_zone b) in *. set (i := b_idx b) in *.
  assert (emb (is_dmap s) a - emb (is_dmap s) (zi_base z) = i * PAGE_SIZE) as Eoff.
  { rewrite Ea, <- (emb_zaddr zs) by (done || lia). lia. }
  unfold free_here. simpl. rewrite Eoff, Z.mod_mul, Z.div_mul by done.
  wp_step. apply wp_assert; [done|].
  wp_step. unfold wp at 1, read_meta.
  pose proof (m_block _ _ _ (i_meta _ _ _ _ I) a b i Hb) as Hm. unfold b_end in Hm. fold z i in Hm.
  rewrite (emb_meta zs), Hm by (done || lia).
  destruct (b_meta_decode b Ho) as [-> ->]. rewrite Hk.
  wp_step. apply wp_assert; [done|]. wp_step. apply wp_shl1; [unfold MAX_ORDER in *; lia|]. wp_steps.
  pose proof (inv_remove_used _ _ _ _ _ _ I Hb Hk) as I'. unfold b_size in *.
  lazymatch goal with |- wp _ _ ?s' =>
    apply (wp_free_block zs (delete a bl) s' z i (b_order b)) end; try done.
  - eapply inv_hole_ext; [exact I'|]. intros z' j _ _. unfold no_hole, hole, in_block, b_end, b_size.
    fold z i. naive_solver.
  - intros bl' s' I2 Eow El Ed. wp_steps. apply (HQ bl'); try done. by rewrite Eow, owned_delete.
Qed.

(** ** The contract *)

(** The result of an allocation: nothing suitable was free and nothing
    changed, or a block that was not owned is now. *)
Definition alloc_post zs bl s (target : Z) (p : Z) (s' : PageAllocator) : Prop :=
  is_dmap s' = is_dmap s ∧
  ((p = 0 ∧ Inv zs bl s' ∧ ∀ a o, target ≤ o < MAX_ORDER → ¬ is_free bl a o) ∨
   (∃ a bl', p = emb (is_dmap s) a ∧ phys_addr a ∧ a ≠ 0 ∧ Inv zs bl' s' ∧
      (∃ o, target ≤ o ∧ is_free bl a o) ∧
      owned bl !! a = None ∧ owned bl' = <[a := target]> (owned bl))).

Lemma wp_alloc_pages zs bl s target : Inv zs bl s → 0 ≤ target →
  wp (alloc_pages target) (alloc_post zs bl s target) s.
Proof.
  intros [I Hl] Ht. unfold alloc_pages. destruct (Z.leb_spec MAX_ORDER target).
  - wp_steps. split; [done|]. left. split; [done|]. split; [done|]. lia.
  - wp_step. apply wp_lock; [done|]. intros l Hlk.
    replace (MAX_ORDER - target) with (Z.of_nat (Z.to_nat (MAX_ORDER - target))) by lia.
    apply (wp_alloc_scan zs bl); [by apply inv_set_lock|done|lia|lia|lia| |].
    + intros l' Hl' Hno. split; [done|]. left. split; [done|]. split; [|done].
      split; [by apply inv_set_lock, inv_set_lock|done].
    + intros a bl' s' I' Hl' Ed Hf Hn Eo. split; [done|]. right. exists a, bl'.
      destruct Hf as (o & Hto & b & Hb & Hk).
      destruct (inv_list_facts _ _ _ _ I) as [Hph _]. destruct (Hph a b Hb).
      split_and!; try done. exists o. split; [done|]. by exists b.
Qed.

Definition free_post zs bl s (a : Z) (_ : unit) (s' : PageAllocator) : Prop :=
  is_dmap s' = is_dmap s ∧ ∃ bl', Inv zs bl' s' ∧ owned bl' = delete a (owned bl).

Lemma wp_free_pages zs bl s a o : Inv zs bl s → owned bl !! a = Some o →
  wp (free_pages (emb (is_dmap s) a)) (free_post zs bl s a) s.
Proof.
  intros [I Hl] (b & Hb & Hk & _)%owned_lookup. pose proof (i_zones _ _ _ _ I) as ZW.
  destruct (inv_list_facts _ _ _ _ I) as [Hph _]. destruct (Hph a b Hb) as [Hpa Ha0].
  unfold free_pages. rewrite (proj2 (Z.eqb_neq _ 0)) by (by rewrite emb_zero).
  wp_step. apply wp_lock; [done|]. intros l Hlk. wp_steps.
  set (s1 := set_lock l s) in *. assert (inv zs bl no_hole s1) as I1 by by apply inv_set_lock.
  destruct (block_in_zone zs bl no_hole a b ZW (i_tiling _ _ _ _ I) Hb) as (Hz & Hlo & Hhi & _).
  pose proof (b_size_pos _ _ _ (t_bwf _ _ _ (i_tiling _ _ _ _ I) a b Hb)) as Hsz.
  assert (zi_base (b_zone b) ≤ a < zaddr (b_zone b) (zi_pages (b_zone b))) as Hin.
  { unfold span, b_size in *. zone_lia. }
  destruct (free_walk_find zs bl no_hole s1 (emb (is_dmap s) a) (S (size (zones s1))) (zone_head s1) zs I1)
    as [(z & nx & Hz' & Hr & E)|[Hno _]]; [done|apply I1| | |].
  - pose proof (zlist_size _ _ _ zs ZW (i_zlist _ _ _ _ I1)). lia.
  - apply (wp_ext _ _ _ _ E). change (is_dmap s) with (is_dmap s1) in Hr |- *.
    apply (emb_in_zone zs) in Hr; [|done..].
    assert (z = b_zone b) as ->.
    { destruct (zs_disj _ ZW z (b_zone b) Hz' Hz) as [|D]; [done|].
      pose proof (zs_wf _ ZW _ Hz') as []. pose proof (zs_wf _ ZW _ Hz) as []. zone_lia. }
    apply (wp_free_here zs bl s1 a b nx); try done. intros bl' s' I' Eo El Ed.
    wp_step. apply wp_assert; [done|]. apply wp_unlock; [by unfold locked; rewrite El|].
    intros l' Hl'. split; [done|]. exists bl'. split; [|done]. split; [by apply inv_set_lock|done].
  - exfalso. apply (Hno _ Hz). by apply (emb_in_zone zs).
Qed.

(** ** Clients *)

(** A client allocates, frees what it owns, and writes anywhere in the pages
    it owns (which is where stale block headers live). *)
Inductive client_step : PageAllocator * gmap Z Z → PageAllocator * gmap Z Z → Prop :=
| client_alloc s own o p s' : 0 ≤ o → alloc_pages o s = Done (p, s') → p ≠ 0 →
    client_step (s, own) (s', <[dmap_to_phys p := o]> own)
| client_alloc_null s own o s' : 0 ≤ o → alloc_pages o s = Done (0, s') →
    client_step (s, own) (s', own)
| client_free s own a o s' : own !! a = Some o →
    free_pages (emb (is_dmap s) a) s = Done (tt, s') → client_step (s, own) (s', delete a own)
| client_write s own m :
    (∀ x, (∀ a o, own !! a = Some o → ¬ (a ≤ x < a + span o)) → m !! x = blocks s !! x) →
    client_step (s, own) (set_blocks m s, own).

Lemma inv_client_write zs bl s m : inv zs bl no_hole s →
  (∀ x, (∀ a o, owned bl !! a = Some o → ¬ (a ≤ x < a + span o)) → m !! x = blocks s !! x) →
  inv zs bl no_hole (set_blocks m s).
Proof.
  intros I Hm. pose proof (i_zones _ _ _ _ I) as ZW.
  assert (∀ a b, bl !! a = Some b → b_kind b = Free → m !! a = blocks s !! a) as Heq.
  { intros a b Hb Hk. apply Hm. intros a' o' (b' & Hb' & Hk' & <-)%owned_lookup Hin.
    pose proof (b_size_pos _ _ _ (t_bwf _ _ _ (i_tiling _ _ _ _ I) a b Hb)).
    destruct (blocks_disjoint zs bl _ a b a' b' ZW (i_tiling _ _ _ _ I) Hb Hb');
      [congruence| |]; unfold span, b_size in *; zone_lia. }
  split; try apply I. simpl. destruct (i_free _ _ _ _ I) as [L F]. exists L.
  split; try apply F.
  - intros o Ho. destruct (f_dll _ _ _ _ _ F o Ho) as (h & Hh & Hl). exists h. split; [done|].
    apply (dll_frame _ (blocks s)); [|done]. intros a (b & Hb & Hk & _)%(f_mem _ _ _ _ _ F); eauto.
  - intros a b Hb Hk. rewrite (Heq a b) by done. by apply (f_node _ _ _ _ _ F).
Qed.

Lemma client_step_inv zs bl s own s' own' : Inv zs bl s → own = owned bl →
  client_step (s, own) (s', own') → ∃ bl', Inv zs bl' s' ∧ own' = owned bl'.
Proof.
  intros I -> Hs. inversion Hs as [? ? o p ? Ho E Hp|? ? o ? Ho E|? ? a o ? Ha E|? ? m Hm]; subst.
  - pose proof (wp_alloc_pages zs bl s o I Ho) as Hw. unfold wp in Hw. rewrite E in Hw.
    destruct Hw as [_ [(-> & _)|(a & bl' & -> & Hpa & _ & I' & _ & _ & Eo)]]; [done|].
    exists bl'. split; [done|]. by rewrite emb_phys.
  - pose proof (wp_alloc_pages zs bl s o I Ho) as Hw. unfold wp in Hw. rewrite E in Hw.
    destruct Hw as [_ [(_ & I' & _)|(a & bl' & E0 & Hpa & Ha0 & _)]]; [by exists bl|].
    symmetry in E0. by apply emb_zero in E0.
  - pose proof (wp_free_pages zs bl s a o I Ha) as Hw. unfold wp in Hw. rewrite E in Hw.
    destruct Hw as (_ & bl' & I' & Eo). by exists bl'.
  - destruct I as [I Hl]. exists bl. split; [|done]. split; [by apply inv_client_write|done].
Qed.

Lemma client_reachable_inv zs bl s own s' own' : Inv zs bl s → own = owned bl →
  rtc client_step (s, own) (s', own') → ∃ bl', Inv zs bl' s' ∧ own' = owned bl'.
Proof.
  intros I Eo Hr. remember (s, own) as c eqn:Ec. remember (s', own') as c' eqn:Ec'.
  revert bl s own I Eo Ec. induction Hr as [c|c [s1 own1] c' Hst Hr IH]; intros bl s own I Eo ->.
  - simplify_eq. by exists bl.
  - destruct (client_step_inv _ _ _ _ _ _ I Eo Hst) as (bl1 & I1 & Eo1). by eapply IH.
Qed.

(** ** Bad pointers *)

(** The pointer is outside every zone, or inside one but not the start of a
    page, or in a page of a free block. *)
Definition bad_pointer zs bl d (p : Z) : Prop :=
  (∀ z, z ∈ zs → ¬ (emb d (zi_base z) ≤ p < emb d (zi_base z) + zi_pages z * PAGE_SIZE)) ∨
  ∃ z, z ∈ zs ∧ emb d (zi_base z) ≤ p < emb d (zi_base z) + zi_pages z * PAGE_SIZE ∧
    ((p - emb d (zi_base z)) mod PAGE_SIZE ≠ 0 ∨
     ∃ a b, bl !! a = Some b ∧ b_kind b = Free ∧ in_block b z ((p - emb d (zi_base z)) / PAGE_SIZE)).

(** Two zones do not share a pointer. *)
Lemma emb_zone_unique zs d z1 z2 p : zones_wf zs → z1 ∈ zs → z2 ∈ zs →
  emb d (zi_base z1) ≤ p < emb d (zi_base z1) + zi_pages z1 * PAGE_SIZE →
  emb d (zi_base z2) ≤ p < emb d (zi_base z2) + zi_pages z2 * PAGE_SIZE → z1 = z2.
Proof.
  intros ZW H1 H2 R1 R2. destruct (zs_disj _ ZW z1 z2 H1 H2) as [|D]; [done|exfalso].
  pose proof (zs_wf _ ZW _ H1) as []. pose proof (zs_wf _ ZW _ H2) as [].
  set (k := p - emb d (zi_base z1)). assert (emb d (zi_base z1 + k) = p) as E.
  { rewrite emb_add; [lia|zone_lia..]. }
  rewrite <- E in R2. apply (emb_in_zone zs) in R2; [|done|done|zone_lia]. zone_lia.
Qed.

Lemma free_here_faults zs bl s z nx p : inv zs bl no_hole s → z ∈ zs →
  emb (is_dmap s) (zi_base z) ≤ p < emb (is_dmap s) (zi_base z) + zi_pages z * PAGE_SIZE →
  bad_pointer zs bl (is_dmap s) p →
  faults (free_here (emb (is_dmap s) (zi_ptr z)) p (zone_rec (is_dmap s) z nx)) Panic s.
Proof.
  intros I Hz Hr [Hno|(z' & Hz' & Hr' & Hbad)]; [by destruct (Hno z Hz)|].
  pose proof (i_zones _ _ _ _ I) as ZW.
  assert (z' = z) as -> by (by eapply emb_zone_unique). clear Hz' Hr'. unfold free_here. simpl.
  set (off := p - emb (is_dmap s) (zi_base z)) in *.
  destruct (Z.eqb_spec (off mod PAGE_SIZE) 0) as [E0|E0];
    [|by apply faults_here, faults_assert].
  destruct Hbad as [|(a & b & Hb & Hk & <- & Hin)]; [done|].
  pose proof (t_bwf _ _ _ (i_tiling _ _ _ _ I) a b Hb) as [_ _ Ho Hi _ He].
  apply faults_bind. apply wp_assert; [done|]. apply faults_bind. unfold wp, read_meta.
  rewrite (emb_meta zs), (m_block _ _ _ (i_meta _ _ _ _ I) a b) by (done || lia).
  apply faults_here, faults_assert. destruct (b_meta_decode b Ho) as [-> _]. by rewrite Hk.
Qed.

Lemma free_pages_faults zs bl s p : Inv zs bl s → p ≠ 0 → bad_pointer zs bl (is_dmap s) p →
  faults (free_pages p) Panic s.
Proof.
  intros [I Hl] Hp Hbad. pose proof (i_zones _ _ _ _ I) as ZW. unfold free_pages.
  rewrite (proj2 (Z.eqb_neq _ _) Hp).
  apply faults_bind, wp_lock; [done|]. intros l _. apply faults_bind. wp_step.
  set (s1 := set_lock l s). assert (inv zs bl no_hole s1) as I1 by by apply inv_set_lock.
  destruct (free_walk_find zs bl no_hole s1 p (S (size (zones s1))) (zone_head s1) zs I1)
    as [(z & nx & Hz & Hr & E)|[Hno E]]; [done|apply I1| | |].
  - pose proof (zlist_size _ _ _ zs ZW (i_zlist _ _ _ _ I1)). lia.
  - apply faults_here. unfold faults. rewrite E. by apply (free_here_faults zs bl s1).
  - apply faults_bind. unfold wp. rewrite E. by apply faults_here, faults_assert.
Qed.

(** ** No permanent fragmentation *)

(** A block that ends in the middle of an aligned range is its lower half. *)
Lemma order_at_middle o i o' x : 0 ≤ o → 0 ≤ o' → (2 ^ (o + 1) | i) → (2 ^ o' | x) →
  x = i + 2 ^ o → o' ≤ o.
Proof.
  intros Ho Ho' Hi Hx ->. destruct (decide (o < o')); [exfalso|lia].
  pose proof (pow2_pos o Ho). assert (2 ^ (o + 1) | 2 ^ o) as Hd.
  { apply (Z.divide_add_cancel_r _ i); [done|]. etrans; [|exact Hx]. apply pow2_divide. lia. }
  apply Z.divide_pos_le in Hd; [|lia]. rewrite pow2_S in Hd by done. lia.
Qed.

(** Different blocks that contain the two halves of an aligned range are the
    halves. *)
Lemma halves_buddies zs bl U z o i a1 b1 a2 b2 : tiling zs bl U →
  bl !! a1 = Some b1 → bl !! a2 = Some b2 → a1 ≠ a2 → b_zone b1 = z → b_zone b2 = z →
  0 ≤ o → (2 ^ (o + 1) | i) → b_idx b1 ≤ i → i + 2 ^ o ≤ b_end b1 →
  b_idx b2 ≤ i + 2 ^ o → i + 2 ^ o + 2 ^ o ≤ b_end b2 → b_order b1 = o ∧ buddies b1 b2.
Proof.
  intros Ti Hb1 Hb2 Hne Ez1 Ez2 Ho Hd Hlo1 Hhi1 Hlo2 Hhi2. pose proof (pow2_pos o Ho).
  assert (2 ^ o | i) as Hd' by (etrans; [|exact Hd]; apply pow2_divide; lia).
  pose proof (t_bwf _ _ _ Ti _ _ Hb1) as [_ _ Ho1 Hi1 Hd1 _].
  pose proof (t_bwf _ _ _ Ti _ _ Hb2) as [_ _ Ho2 Hi2 Hd2 _].
  assert (∀ j, b_idx b1 ≤ j < b_end b1 → b_idx b2 ≤ j < b_end b2 → False) as Hsep.
  { intros j H1 H2. apply Hne. by apply (t_disj _ _ _ Ti a1 b1 a2 b2 z j). }
  assert (b_end b1 = i + 2 ^ o) as Eend.
  { destruct (decide (i + 2 ^ o < b_end b1)); [exfalso; apply (Hsep (i + 2 ^ o)); lia|lia]. }
  assert (b_idx b2 = i + 2 ^ o) as Estart.
  { destruct (decide (b_idx b2 < i + 2 ^ o)); [exfalso; apply (Hsep (i + 2 ^ o - 1)); lia|lia]. }
  unfold b_end, b_size in *.
  assert (b_order b1 ≤ o).
  { apply (order_at_middle o i _ (b_idx b1 + 2 ^ b_order b1)); try done; [lia|].
    apply Z.divide_add_r; [done|apply Z.divide_refl]. }
  assert (b_order b2 ≤ o) by (apply (order_at_middle o i _ (b_idx b2)); (done || lia)).
  pose proof (pow2_le (b_order b1) o ltac:(lia)). pose proof (pow2_le (b_order b2) o ltac:(lia)).
  assert (b_order b1 = o) as E1 by (apply (Z.pow_inj_r 2); lia).
  assert (b_order b2 = o) as E2 by (apply (Z.pow_inj_r 2); lia).
  split; [done|]. split; [congruence|]. split; [congruence|]. unfold b_size. rewrite E1 in *.
  assert (b_idx b1 = i) as -> by lia. rewrite lxor_buddy by (done || lia).
  by rewrite (proj2 (testbit_divide_S i o ltac:(lia) Hd')).
Qed.

(** When every block is free, each aligned range of pages is inside one. *)
Lemma all_free_covers zs bl z o i : zones_wf zs → tiling zs bl no_hole →
  (∀ a b, bl !! a = Some b → b_kind b = Free) → z ∈ zs → 0 ≤ o < MAX_ORDER →
  0 ≤ i → (2 ^ o | i) → i + 2 ^ o ≤ zi_pages z →
  ∃ a b, bl !! a = Some b ∧ b_zone b = z ∧ b_idx b ≤ i ∧ i + 2 ^ o ≤ b_end b.
Proof.
  intros ZW Ti Hfree Hz Ho. replace o with (Z.of_nat (Z.to_nat o)) in * by lia.
  generalize (Z.to_nat o) as k, Ho. clear o Ho. intros k. revert i.
  induction k as [|k IH]; intros i Ho Hi Hd He.
  - change (2 ^ Z.of_nat 0) with 1 in *.
    destruct (t_cover _ _ _ Ti z i Hz ltac:(lia)) as (a & b & Hb & Ez & Hin); [by intros []|].
    exists a, b. split_and!; (done || lia).
  - rewrite Nat2Z.inj_succ, <- Z.add_1_r in *. set (o := Z.of_nat k) in *.
    pose proof (pow2_pos o ltac:(lia)). rewrite pow2_S in He by lia. rewrite pow2_S by lia.
    assert (2 ^ o | i) as Hd' by (etrans; [|exact Hd]; apply pow2_divide; lia).
    destruct (IH i) as (a1 & b1 & Hb1 & Ez1 & Hlo1 & Hhi1); [lia|done|done|lia|].
    destruct (IH (i + 2 ^ o)) as (a2 & b2 & Hb2 & Ez2 & Hlo2 & Hhi2); [lia|lia| |lia|].
    { apply Z.divide_add_r; [done|apply Z.divide_refl]. }
    destruct (decide (a1 = a2)) as [->|Hne].
    { exists a2, b1. assert (b1 = b2) as -> by congruence. split_and!; (done || lia). }
    destruct (halves_buddies zs bl no_hole z o i a1 b1 a2 b2) as [Eo Hbd]; (done || lia || auto).
    exfalso. apply (t_coalesced _ _ _ Ti a1 b1 a2 b2 Hb1 Hb2); [by eapply Hfree..|lia|done].
Qed.

Lemma alloc_after_all_freed zs bl s z o : Inv zs bl s → owned bl = ∅ → z ∈ zs →
  0 ≤ o < MAX_ORDER → 2 ^ o ≤ zi_pages z → wp (alloc_pages o) (λ p _, p ≠ 0) s.
Proof.
  intros I Hown Hz Ho Hsz. pose proof I as [I0 _].
  assert (∀ a b, bl !! a = Some b → b_kind b = Free) as Hfree.
  { intros a b Hb. destruct (b_kind b) eqn:Hk; [done|].
    assert (owned bl !! a = Some (b_order b)) as E by (apply owned_lookup; by exists b).
    by rewrite Hown, lookup_empty in E. }
  destruct (all_free_covers zs bl z o 0) as (a & b & Hb & _ & Hlo & Hhi);
    [apply I0|apply I0|done..|apply Z.divide_0_r|lia|].
  pose proof (t_bwf _ _ _ (i_tiling _ _ _ _ I0) a b Hb) as [_ _ Hob Hib _ _].
  assert (o ≤ b_order b).
  { unfold b_end, b_size in Hhi. apply (Z.pow_le_mono_r_iff 2); lia. }
  eapply wp_mono; [by apply (wp_alloc_pages zs bl s o I); lia|].
  intros p s' [_ [(-> & _ & Hno)|(a' & bl' & -> & Hp & Hp0 & _)]].
  - exfalso. apply (Hno a (b_order b)); [lia|]. exists b. eauto.
  - by rewrite emb_zero.
Qed.
End theorems.

(** ** Counters and bounds *)

Section bounds.
Context {T : AddressTranslator} {TL : AddressTranslatorLaws T}.
Implicit Types (zs : list zinfo) (bl : gmap Z binfo) (s : PageAllocator).

Lemma msum_owned bl : msum used_size bl = msum (λ o, 2 ^ o) (owned bl).
Proof.
  induction bl as [|a b bl Ha IH] using map_ind; [done|].
  rewrite msum_insert by done. unfold used_size at 1. case_decide as Hk.
  - rewrite owned_insert_used, msum_insert; [by rewrite IH| |done].
    unfold owned. by rewrite lookup_omap, Ha.
  - rewrite owned_insert_free; [by rewrite IH|done|]. by destruct (b_kind b).
Qed.

Lemma lowest_base_min zs z : zones_wf zs → z ∈ zs → 0 < lowest_base zs ≤ zi_base z.
Proof.
  intros ZW. assert (∀ z, z ∈ zs → 0 < zi_base z) as Hpos.
  { intros z' Hz'. pose proof (zs_wf _ ZW z' Hz') as []. zone_lia. }
  clear ZW. revert z. induction zs as [|z' zs IH]; intros z Hz; [by apply elem_of_nil in Hz|].
  pose proof (Hpos z' (list_elem_of_here _ _)). simpl.
  destruct (decide (lowest_base zs = 0)) as [E|E].
  - apply elem_of_cons in Hz as [->|Hz]; [lia|].
    destruct (IH (λ z Hz, Hpos z (list_elem_of_further _ _ _ Hz)) z Hz). lia.
  - destruct zs as [|z2 zs]; [done|].
    destruct (IH (λ z Hz, Hpos z (list_elem_of_further _ _ _ Hz)) z2 (list_elem_of_here _ _)).
    apply elem_of_cons in Hz as [->|Hz]; [lia|].
    destruct (IH (λ z Hz, Hpos z (list_elem_of_further _ _ _ Hz)) z Hz). lia.
Qed.

Lemma emb_le d a b : phys_addr a → phys_addr b → a ≠ 0 → b ≠ 0 → a ≤ b → emb d a ≤ emb d b.
Proof.
  intros Ha Hb Ha0 Hb0 Hle. destruct (decide (a = b)) as [->|]; [done|].
  assert (emb d a < emb d b) by (apply emb_lt; (done || lia)). lia.
Qed.

Lemma owned_bounds zs bl s a o lo hi : inv zs bl no_hole s → owned bl !! a = Some o →
  lo = lowest_address s → (∀ z, z ∈ zs → emb (is_dmap s) (zaddr z (zi_pages z)) ≤ hi) →
  lo ≤ emb (is_dmap s) a ∧ emb (is_dmap s) a + span o ≤ hi.
Proof.
  intros I (b & Hb & Hk & <-)%owned_lookup -> Hhi. pose proof (i_zones _ _ _ _ I) as ZW.
  destruct (block_in_zone zs bl no_hole a b ZW (i_tiling _ _ _ _ I) Hb) as (Hz & Hlo & Hend & _).
  pose proof (lowest_base_min zs _ ZW Hz). pose proof (lowest_base_phys zs ZW) as Hlp.
  pose proof (b_size_pos _ _ _ (t_bwf _ _ _ (i_tiling _ _ _ _ I) a b Hb)) as Hsz.
  pose proof (zs_wf _ ZW _ Hz) as []. unfold b_size in Hsz.
  rewrite (i_lowest _ _ _ _ I). split.
  - apply emb_le; unfold span in *; zone_lia.
  - specialize (Hhi _ Hz). etrans; [|exact Hhi].
    rewrite <- emb_add by (unfold span in *; zone_lia). apply emb_le; unfold span in *; zone_lia.
Qed.
End bounds.

(** ** Example states *)

(** The allocator of the kernel after one range of eight pages has been
    added, and after one page has been allocated from it. *)
Section examples.
Local Existing Instance KernelAddressTranslator.

Definition demo_start : Z := 1073741824.

Definition demo : PageAllocator :=
  match add_range demo_start (demo_start + 8 * PAGE_SIZE) new with
  | Done (_, s) => s
  | Fault _ => new
  end.

Definition demo_page : Z := match alloc_pages 0 demo with Done (p, _) => p | Fault _ => 0 end.

Definition demo1 : PageAllocator :=
  match alloc_pages 0 demo with Done (_, s) => s | Fault _ => new end.

Lemma new_Inv : Inv [] ∅ new.
Proof.
  split; [|done]. split; simpl; try done.
  - split; [by intros ? ?%elem_of_nil|apply NoDup_nil_2|by intros ? ? ?%elem_of_nil].
  - split; try done. by intros ? ? ?%elem_of_nil.
  - split; [done|]. by intros ? ? ?%elem_of_nil.
  - exists (λ _, []). split; simpl; try done.
    + intros o Ho. exists 0. split; [|by exists 0]. unfold MAX_ORDER in *.
      apply (lookup_replicate_2 11). lia.
    + intros o Ho. apply NoDup_nil_2.
    + intros o a Ho. unfold is_free. split; [by intros ?%elem_of_nil|by intros (? & ? & _)].
Qed.

Lemma demo_add : wp (add_range demo_start (demo_start + 8 * PAGE_SIZE)) (add_post [] ∅ new demo_start 8) new.
Proof.
  pose proof (wp_add_range (TL := KernelAddressTranslatorLaws) [] ∅ new demo_start 8 new_Inv) as Hw.
  cbv zeta in Hw. change (emb (is_dmap new) demo_start) with demo_start in Hw.
  apply Hw; clear Hw; [reflexivity|by exists 65536|by exists 65536|by vm_compute..|].
  by intros ? ?%elem_of_nil.
Qed.

Definition demo_zone : zinfo := new_zinfo demo_start 8 1.

Lemma demo_Inv : ∃ bl, Inv [demo_zone] bl demo ∧ owned bl = ∅ ∧ is_dmap demo = false.
Proof.
  pose proof demo_add as Hw. destruct (proj1 (wp_run _ _ _) Hw) as ([] & s & E & r & bl & I & Ed & Eo & Hr & Hfit).
  clear Hw. unfold demo. rewrite E. clear E. unfold SIZE_OF_ZONE in Hfit. change PAGE_SIZE with 16384 in Hfit.
  assert (r = 1) as -> by lia. exists bl. by split.
Qed.

Lemma demo_page_nonzero : demo_page ≠ 0.
Proof. vm_compute. discriminate. Qed.

Lemma demo1_Inv : ∃ bl a, Inv [demo_zone] bl demo1 ∧ is_dmap demo1 = false ∧
  demo_page = a ∧ owned bl = {[ a := 0 ]}.
Proof.
  destruct demo_Inv as (bl & I & Eo & Ed).
  pose proof (wp_alloc_pages (TL := KernelAddressTranslatorLaws) _ _ _ 0 I ltac:(done)) as Hw.
  destruct (proj1 (wp_run _ _ _) Hw) as (p & s & E & Ed' & [(-> & _ & _)|(a & bl' & -> & _ & _ & I' & _ & _ & Eo')]).
  all: clear Hw.
  - exfalso. apply demo_page_nonzero. unfold demo_page. rewrite E. reflexivity.
  - exists bl', a. unfold demo1, demo_page. rewrite E. clear E. split; [done|]. split; [congruence|].
    split; [by rewrite Ed|]. by rewrite Eo', Eo.
Qed.
End examples.

(** ** The properties *)

Section properties.
Context {T : AddressTranslator} {TL : AddressTranslatorLaws T}.
Implicit Types (zs : list zinfo) (bl : gmap Z binfo) (s : PageAllocator).

(** C2: whatever sequence of allocations, frees of owned blocks and writes to
    owned pages a client performs, no later call to [alloc_pages] or
    [free_pages] faults (no panic, no wild access, no deadlock, no endless
    loop), the blocks it owns are page-aligned, lie in the data pages of a
    zone and never overlap. *)
Theorem page_allocator_safe zs bl s0 s own : Inv zs bl s0 →
  rtc client_step (s0, owned bl) (s, own) →
  (∀ o, 0 ≤ o → ∃ p s', alloc_pages o s = Done (p, s')) ∧
  (∀ a o, own !! a = Some o → ∃ s', free_pages (emb (is_dmap s) a) s = Done (tt, s')) ∧
  (∀ a1 o1 a2 o2, own !! a1 = Some o1 → own !! a2 = Some o2 → a1 ≠ a2 →
     a1 + span o1 ≤ a2 ∨ a2 + span o2 ≤ a1) ∧
  (∀ a o, own !! a = Some o → (PAGE_SIZE | a) ∧
     ∃ z, z ∈ zs ∧ zi_base z ≤ a ∧ a + span o ≤ zaddr z (zi_pages z)).
Proof.
  intros I Hr. destruct (client_reachable_inv _ _ _ _ _ _ I eq_refl Hr) as (bl' & I' & ->).
  pose proof I' as [I0 _]. pose proof (i_zones _ _ _ _ I0) as ZW. split_and!.
  - intros o Ho. destruct (proj1 (wp_run _ _ _) (wp_alloc_pages zs bl' s o I' Ho)) as (p & s' & E & _).
    eauto.
  - intros a o Ha. destruct (proj1 (wp_run _ _ _) (wp_free_pages zs bl' s a o I' Ha)) as ([] & s' & E & _).
    eauto.
  - intros a1 o1 a2 o2 (b1 & Hb1 & _ & <-)%owned_lookup (b2 & Hb2 & _ & <-)%owned_lookup Hne.
    by apply (blocks_disjoint zs bl' no_hole); try apply I0.
  - intros a o (b & Hb & _ & <-)%owned_lookup.
    destruct (block_in_zone zs bl' no_hole a b ZW (i_tiling _ _ _ _ I0) Hb) as (Hz & ? & ? & ?). eauto.
Qed.

(** C6: [alloc_pages target] always returns.  It returns null, leaving the
    allocator unchanged, exactly when [target] is too large or no free block
    of order at least [target] exists; otherwise it returns a block that was
    free, now owned with order [target], and that overlaps nothing owned. *)
Theorem alloc_pages_spec zs bl s target : Inv zs bl s → 0 ≤ target →
  wp (alloc_pages target) (λ p s', alloc_post zs bl s target p s' ∧
    (p ≠ 0 → ∀ a o, owned bl !! a = Some o →
       dmap_to_phys p + span target ≤ a ∨ a + span o ≤ dmap_to_phys p)) s.
Proof.
  intros I Ht. eapply wp_mono; [by apply (wp_alloc_pages zs bl)|]. intros p s' Hpost.
  split; [done|]. intros Hp a o Ha.
  destruct Hpost as [_ [(-> & _)|(a' & bl' & -> & Hpa & _ & [I' _] & _ & Hn & Eo)]]; [done|].
  rewrite emb_phys by done.
  assert (owned bl' !! a' = Some target) as (b1 & Hb1 & _ & <-)%owned_lookup.
  { by rewrite Eo, lookup_insert_eq. }
  assert (owned bl' !! a = Some o) as (b2 & Hb2 & _ & <-)%owned_lookup.
  { rewrite Eo, lookup_insert_ne; [done|]. congruence. }
  apply (blocks_disjoint zs bl' no_hole); try apply I'; try done. congruence.
Qed.

(** C12: [free_pages] of an owned block returns, the block is no longer owned
    and every other block still is. *)
Theorem free_pages_spec zs bl s a o : Inv zs bl s → owned bl !! a = Some o →
  wp (free_pages (emb (is_dmap s) a)) (free_post zs bl s a) s.
Proof. apply wp_free_pages. Qed.

(** [free_pages] panics on a pointer outside the managed pages, on one
    that is not the start of a page, and on a page that is already free. *)
Theorem free_pages_rejects zs bl s p : Inv zs bl s → p ≠ 0 → bad_pointer zs bl (is_dmap s) p →
  faults (free_pages p) Panic s.
Proof. apply free_pages_faults. Qed.

(** merging loses nothing: when no block is owned, an allocation of any
    order that fits into some zone succeeds. *)
Theorem no_permanent_fragmentation zs bl s z o : Inv zs bl s → owned bl = ∅ → z ∈ zs →
  0 ≤ o < MAX_ORDER → 2 ^ o ≤ zi_pages z → wp (alloc_pages o) (λ p _, p ≠ 0) s.
Proof. apply alloc_after_all_freed. Qed.

(** [add_range] of a page-aligned region of [n] pages that overlaps no
    zone returns; the allocator gains one zone with as few reserved pages as
    the header and the metadata need, and owned blocks stay owned. *)
Theorem add_range_spec zs bl s p0 n : Inv zs bl s →
  is_kernel_address (emb (is_dmap s) p0) = is_dmap s → (PAGE_SIZE | emb (is_dmap s) p0) →
  (PAGE_SIZE | p0) → 0 ≤ p0 → 2 ≤ n → (n + 31) mod 16385 ≠ 0 →
  p0 + n * PAGE_SIZE < 2 ^ VA_WIDTH →
  (∀ z, z ∈ zs → p0 + n * PAGE_SIZE ≤ zi_meta z ∨ zaddr z (zi_pages z) ≤ p0) →
  wp (add_range (emb (is_dmap s) p0) (emb (is_dmap s) p0 + n * PAGE_SIZE)) (add_post zs bl s p0 n) s.
Proof. apply wp_add_range. Qed.

(** for a region of [16385 k - 31] pages (255.5 MiB for [k = 1]) the
    search of [add_range] for the number of reserved pages never ends. *)
Theorem reserve_loop_diverges k s fuel : 1 ≤ k → 16385 * k - 31 < 2 ^ 34 →
  reserve_loop fuel (16385 * k - 31) 0 s = Fault OutOfFuel.
Proof. apply reserve_diverges_lemma. Qed.

(** [transition_dmap] moves every pointer to the direct map and changes
    nothing else: the same zones, blocks and owned pages are represented. *)
Theorem transition_dmap_preserves zs bl s : Inv zs bl s → is_dmap s = false →
  wp transition_dmap (λ _ s', Inv zs bl s' ∧ is_dmap s' = true) s.
Proof. apply wp_transition_dmap. Qed.

(** [overlapping_range] finds a zone that overlaps the range if there is
    one, and reports its physical bounds. *)
Theorem overlapping_range_spec zs bl s start end_ : Inv zs bl s → start < end_ →
  wp (overlapping_range start end_) (λ r s', Inv zs bl s' ∧ overlap_post zs start end_ r) s.
Proof. intros I Hl. eapply wp_mono; [by apply wp_overlapping_range|]. intros r s' (I' & _ & Hr). by split. Qed.

(** every owned block lies between [min_address] and [max_address]. *)
Theorem address_bounds zs bl s a o : Inv zs bl s → owned bl !! a = Some o →
  wp (let* lo := min_address in let* hi := max_address in ret (lo, hi))
     (λ '(lo, hi) s', s' = s ∧ lo ≤ emb (is_dmap s) a ∧ emb (is_dmap s) a + span o ≤ hi) s.
Proof.
  intros [I _] Ha. unfold min_address, max_address. wp_steps.
  eapply wp_mono; [apply (wp_max_walk zs bl no_hole s zs); [done|done|apply I|]|].
  - pose proof (zlist_size _ _ _ zs (i_zones _ _ _ _ I) (i_zlist _ _ _ _ I)). lia.
  - intros hi s' (-> & _ & Hhi & _). wp_steps. split; [done|]. by apply (owned_bounds zs bl).
Qed.

(** the page counters: [total_pages] is the number of usable pages of
    the zones, [allocated_pages] the number of pages in owned blocks. *)
Theorem counters_exact zs bl s : Inv zs bl s →
  total_pages s = wrap 64 (foldr (λ z acc, zi_pages z + acc) 0 zs) ∧
  allocated_pages s = wrap 64 (msum (λ o, 2 ^ o) (owned bl)).
Proof. intros [I _]. rewrite <- msum_owned. split; apply I. Qed.

(** when memory is exhausted [alloc_phys_page] reports success with the
    null page: its [Result] is never an error. *)
Theorem alloc_phys_page_exhausted zs bl s : Inv zs bl s → (∀ a o, ¬ is_free bl a o) →
  wp alloc_phys_page (λ pa s', pa = 0 ∧ Inv zs bl s') s.
Proof.
  intros I Hno. unfold alloc_phys_page, alloc_page. wp_step.
  eapply wp_mono; [by apply (wp_alloc_pages zs bl)|].
  intros p s' [Ed [(-> & I' & _)|(a & bl' & _ & _ & _ & _ & (o & _ & Hf) & _)]];
    [|by destruct (Hno a o)].
  wp_steps. split; [|done]. destruct (is_dmap s'); [|done]. by apply dmap_phys_id.
Qed.
End properties.

(** ** Witnesses *)

Section witnesses.
Local Existing Instance KernelAddressTranslator.

Lemma demo_alloc : alloc_pages 0 demo = Done (demo_page, demo1).
Proof.
  assert (match alloc_pages 0 demo with Done _ => true | Fault _ => false end = true) as Hd.
  { vm_compute. reflexivity. }
  unfold demo_page, demo1. destruct (alloc_pages 0 demo) as [[p s]|]; [reflexivity|discriminate].
Qed.

Lemma demo_page_phys : dmap_to_phys demo_page = demo_page.
Proof. vm_compute. reflexivity. Qed.

Lemma demo_step own : client_step (demo, own) (demo1, <[demo_page := 0]> own).
Proof.
  rewrite <- demo_page_phys at 1.
  exact (client_alloc demo own 0 demo_page demo1 (Z.le_refl 0) demo_alloc demo_page_nonzero).
Qed.

Lemma page_allocator_safe_witness :
  ∃ s', free_pages (emb (is_dmap demo1) demo_page) demo1 = Done (tt, s').
Proof.
  destruct demo_Inv as (bl & I & Eo & Ed).
  destruct (page_allocator_safe [demo_zone] bl demo demo1 (<[demo_page := 0]> (owned bl)) I
              (rtc_once _ _ (demo_step _))) as (_ & Hf & _).
  exact (Hf demo_page 0 (lookup_insert_eq _ _ _)).
Defined.

Lemma alloc_pages_spec_witness : ∃ zs bl, wp (alloc_pages 1) (λ p s',
  alloc_post zs bl demo1 1 p s' ∧ (p ≠ 0 → ∀ a o, owned bl !! a = Some o →
    dmap_to_phys p + span 1 ≤ a ∨ a + span o ≤ dmap_to_phys p)) demo1.
Proof.
  destruct demo1_Inv as (bl & a & I & _). exists [demo_zone], bl.
  apply (alloc_pages_spec [demo_zone] bl demo1 1 I). discriminate.
Defined.

Lemma free_pages_spec_witness : ∃ zs bl a, wp (free_pages (emb (is_dmap demo1) a)) (free_post zs bl demo1 a) demo1.
Proof.
  destruct demo1_Inv as (bl & a & I & _ & _ & Eo). exists [demo_zone], bl, a.
  apply (free_pages_spec [demo_zone] bl demo1 a 0 I). rewrite Eo. apply lookup_singleton_eq.
Defined.

Lemma free_pages_rejects_witness : faults (free_pages 4096) Panic demo1.
Proof.
  destruct demo1_Inv as (bl & a & I & Ed & _).
  apply (free_pages_rejects [demo_zone] bl demo1 4096 I); [discriminate|]. left.
  intros z ->%list_elem_of_singleton. rewrite Ed. vm_compute. intros [H _]. by apply H.
Defined.

Lemma no_permanent_fragmentation_witness : wp (alloc_pages 2) (λ p _, p ≠ 0) demo.
Proof.
  destruct demo_Inv as (bl & I & Eo & _).
  apply (no_permanent_fragmentation [demo_zone] bl demo demo_zone 2 I Eo); [|done|done].
  by apply list_elem_of_singleton.
Defined.

Lemma add_range_spec_witness :
  wp (add_range demo_start (demo_start + 8 * PAGE_SIZE)) (add_post [] ∅ new demo_start 8) new.
Proof.
  apply (add_range_spec [] ∅ new demo_start 8 new_Inv);
    [reflexivity|by exists 65536|by exists 65536|by vm_compute..|].
  by intros ? ?%elem_of_nil.
Defined.

Lemma reserve_loop_diverges_witness : reserve_loop 1000 16354 0 new = Fault OutOfFuel.
Proof. apply (reserve_loop_diverges 1 new 1000); lia. Defined.

Lemma transition_dmap_preserves_witness :
  ∃ zs bl, wp transition_dmap (λ _ s', Inv zs bl s' ∧ is_dmap s' = true) demo1.
Proof.
  destruct demo1_Inv as (bl & a & I & Ed & _). exists [demo_zone], bl.
  apply (transition_dmap_preserves [demo_zone] bl demo1 I Ed).
Defined.

Lemma overlapping_range_spec_witness :
  ∃ bl, wp (overlapping_range 0 demo_start) (λ r s', Inv [demo_zone] bl s' ∧
             overlap_post [demo_zone] 0 demo_start r) demo.
Proof.
  destruct demo_Inv as (bl & I & _). exists bl.
  apply (overlapping_range_spec [demo_zone] bl demo 0 demo_start I). reflexivity.
Defined.

Lemma address_bounds_witness : ∃ a,
  wp (let* lo := min_address in let* hi := max_address in ret (lo, hi))
     (λ '(lo, hi) s', s' = demo1 ∧ lo ≤ emb (is_dmap demo1) a ∧
                      emb (is_dmap demo1) a + span 0 ≤ hi) demo1.
Proof.
  destruct demo1_Inv as (bl & a & I & _ & _ & Eo). exists a.
  apply (address_bounds [demo_zone] bl demo1 a 0 I). rewrite Eo. apply lookup_singleton_eq.
Defined.

Lemma counters_exact_witness : ∃ bl, total_pages demo1 = wrap 64 7 ∧
  allocated_pages demo1 = wrap 64 (msum (λ o, 2 ^ o) (owned bl)).
Proof.
  destruct demo1_Inv as (bl & a & I & _). exists bl.
  apply (counters_exact [demo_zone] bl demo1 I).
Defined.

Lemma alloc_phys_page_exhausted_witness : wp alloc_phys_page (λ pa s', pa = 0 ∧ Inv [] ∅ s') new.
Proof.
  apply (alloc_phys_page_exhausted [] ∅ new new_Inv). by intros a o (b & Hb & _).
Defined.
End witnesses.
