(* ===== verification/PageCount.v ===== *)
(** * Counting pages

    The blocks of the page allocator tile its zones, so the counters of the
    allocator say exactly how many pages are free; a single page can be
    allocated as long as one is. *)

From S2P Require Import Prelude Vm Sync PageAlloc PageInv PageProofs PageSpec PageTheorems.

(** ** Sets of pages *)

Definition pages_at (z : zinfo) (lo n : Z) : gset Z := list_to_set (zaddr z <$> seqZ lo n).

Lemma elem_of_pages_at z lo n p : p ∈ pages_at z lo n ↔ ∃ i, p = zaddr z i ∧ lo ≤ i < lo + n.
Proof.
  unfold pages_at. rewrite elem_of_list_to_set, list_elem_of_fmap. split.
  - intros (i & -> & Hi%elem_of_seqZ). exists i. split; [done|lia].
  - intros (i & -> & Hi). exists i. split; [done|]. apply elem_of_seqZ. lia.
Qed.

Lemma size_pages_at z lo n : 0 ≤ n → Z.of_nat (size (pages_at z lo n)) = n.
Proof.
  intros Hn. unfold pages_at. rewrite size_list_to_set.
  - rewrite length_fmap, length_seqZ. lia.
  - apply NoDup_fmap_2_strong; [|apply NoDup_seqZ]. intros i j _ _ E. by apply zaddr_inj in E.
Qed.

Definition block_pages (b : binfo) : gset Z := pages_at (b_zone b) (b_idx b) (b_size b).
Definition all_block_pages (bl : gmap Z binfo) : gset Z := map_fold (λ _ b acc, block_pages b ∪ acc) ∅ bl.
Definition zone_pages_set (zs : list zinfo) : gset Z := ⋃ ((λ z, pages_at z 0 (zi_pages z)) <$> zs).

Lemma all_block_pages_insert bl a b : bl !! a = None → all_block_pages (<[a := b]> bl) = block_pages b ∪ all_block_pages bl.
Proof. intros Ha. unfold all_block_pages. rewrite map_fold_insert_L; [done| |done]. intros. set_solver. Qed.

Lemma elem_of_all_block_pages bl p : p ∈ all_block_pages bl ↔ ∃ a b, bl !! a = Some b ∧ p ∈ block_pages b.
Proof.
  induction bl as [|a b bl Ha IH] using map_ind.
  - unfold all_block_pages. rewrite map_fold_empty. split; [set_solver|]. by intros (? & ? & ?%lookup_empty_Some & _).
  - rewrite all_block_pages_insert, elem_of_union, IH by done. split.
    + intros [Hp|(a' & b' & Hb & Hp)]; [exists a, b; by rewrite lookup_insert_eq|]. exists a', b'.
      rewrite lookup_insert_ne by congruence. done.
    + intros (a' & b' & [[-> ->]|[Hne Hb]]%lookup_insert_Some & Hp); [by left|right; eauto].
Qed.

(** Blocks whose pages are disjoint. *)
Lemma size_all_block_pages bl : (∀ a b, bl !! a = Some b → 0 ≤ b_size b) →
  (∀ a1 b1 a2 b2, bl !! a1 = Some b1 → bl !! a2 = Some b2 → a1 ≠ a2 → block_pages b1 ## block_pages b2) →
  Z.of_nat (size (all_block_pages bl)) = msum b_size bl.
Proof.
  induction bl as [|a b bl Ha IH] using map_ind; intros Hs Hd.
  - unfold all_block_pages. by rewrite map_fold_empty, msum_empty, size_empty.
  - rewrite all_block_pages_insert, msum_insert by done. rewrite size_union.
    + rewrite Nat2Z.inj_add, IH.
      * f_equal. apply size_pages_at. apply (Hs a). apply lookup_insert_eq.
      * intros a' b' Hb. apply (Hs a'). rewrite lookup_insert_ne by congruence. done.
      * intros a1 b1 a2 b2 H1 H2. apply (Hd a1 b1 a2 b2); by rewrite lookup_insert_ne by congruence.
    + intros p Hp (a' & b' & Hb & Hp')%elem_of_all_block_pages.
      apply (Hd a b a' b' ltac:(apply lookup_insert_eq) ltac:(by rewrite lookup_insert_ne by congruence) ltac:(congruence) p Hp Hp').
Qed.

Lemma size_zone_pages zs : zones_wf zs → Z.of_nat (size (zone_pages_set zs)) = foldr (λ z acc, zi_pages z + acc) 0 zs.
Proof.
  intros ZW. assert (∀ zs', NoDup zs' → (∀ z, z ∈ zs' → z ∈ zs) → Z.of_nat (size (zone_pages_set zs')) = foldr (λ z acc, zi_pages z + acc) 0 zs') as H;
    [|apply H; [apply ZW|done]].
  induction zs' as [|z zs' IH]; intros Hnd Hsub; [change (zone_pages_set []) with (∅ : gset Z); by rewrite size_empty|].
  apply NoDup_cons in Hnd as [Hz Hnd]. unfold zone_pages_set in *. rewrite fmap_cons, union_list_cons. cbn [foldr]. rewrite size_union.
  - rewrite Nat2Z.inj_add, IH; [|done|set_solver]. f_equal. apply size_pages_at.
    destruct (zs_wf _ ZW z); [apply Hsub; set_solver|lia].
  - intros p (i & -> & Hi)%elem_of_pages_at (X & (z' & -> & Hz')%list_elem_of_fmap & (j & E & Hj)%elem_of_pages_at)%elem_of_union_list.
    destruct (zaddr_zone_inj zs ZW z z' i j) as [-> _]; try done; try lia; apply Hsub; set_solver.
Qed.

(** ** The counters *)

Section counters.
Context {T : AddressTranslator} {TL : AddressTranslatorLaws T}.
Implicit Types (zs : list zinfo) (bl : gmap Z binfo) (s : PageAllocator).

(** The blocks tile the zones, so their sizes add up to the pages. *)
Lemma tiling_count zs bl : zones_wf zs → tiling zs bl no_hole → msum b_size bl = foldr (λ z acc, zi_pages z + acc) 0 zs.
Proof.
  intros ZW Ti. rewrite <- size_zone_pages by done. rewrite <- size_all_block_pages.
  - do 2 f_equal. apply set_eq. intros p. rewrite elem_of_all_block_pages. unfold zone_pages_set. rewrite elem_of_union_list. split.
    + intros (a & b & Hb & (i & -> & Hi)%elem_of_pages_at). destruct (t_bwf _ _ _ Ti a b Hb) as [Hz _ _ H0 _ He]. unfold b_end in He.
      eexists. split; [apply list_elem_of_fmap; eexists; split; [reflexivity|exact Hz]|]. apply elem_of_pages_at. exists i. split; [done|lia].
    + intros (X & (z & -> & Hz)%list_elem_of_fmap & (i & -> & Hi)%elem_of_pages_at).
      destruct (t_cover _ _ _ Ti z i Hz ltac:(lia) ltac:(intros [])) as (a & b & Hb & <- & Hin). exists a, b. split; [done|].
      apply elem_of_pages_at. exists i. split; [done|]. unfold b_end in Hin. lia.
  - intros a b Hb. destruct (t_bwf _ _ _ Ti a b Hb) as [_ _ Ho _ _ _]. unfold b_size. pose proof (pow2_pos (b_order b) ltac:(lia)). lia.
  - intros a1 b1 a2 b2 H1 H2 Hne p (i & -> & Hi)%elem_of_pages_at (j & E & Hj)%elem_of_pages_at.
    destruct (t_bwf _ _ _ Ti a1 b1 H1) as [Z1 _ _ I1 _ E1], (t_bwf _ _ _ Ti a2 b2 H2) as [Z2 _ _ I2 _ E2]. unfold b_end in *.
    destruct (zaddr_zone_inj zs ZW _ _ i j Z1 Z2 ltac:(lia) ltac:(lia) E) as [Ez ->]. apply Hne.
    apply (t_disj _ _ _ Ti a1 b1 a2 b2 (b_zone b1) j H1 H2); split; (done || unfold b_end; lia).
Qed.

(** All pages are below [2 ^ VA_WIDTH]. *)
Lemma total_bound zs : zones_wf zs → 0 ≤ foldr (λ z acc, zi_pages z + acc) 0 zs ≤ 2 ^ 34.
Proof.
  intros ZW. rewrite <- size_zone_pages by done. split; [lia|]. assert (∃ N, N = 2 ^ 34 ∧ 0 ≤ N) as (N & EN & HN) by by eexists. rewrite <- EN.
  rewrite <- (size_pages_at {| zi_ptr := 0; zi_meta := 0; zi_base := 0; zi_pages := 0 |} 0 N HN).
  apply Nat2Z.inj_le, subseteq_size. intros p (X & (z & -> & Hz)%list_elem_of_fmap & (i & -> & Hi)%elem_of_pages_at)%elem_of_union_list.
  destruct (zs_wf _ ZW z Hz) as [? ? ? ? Hend [k Hk]]. apply elem_of_pages_at. exists (k + i). unfold zaddr in *. cbn [zi_base].
  split; [rewrite Hk; lia|]. rewrite Hk in *. change (2 ^ VA_WIDTH) with (2 ^ 34 * PAGE_SIZE) in Hend. rewrite <- EN in Hend.
  change PAGE_SIZE with 16384 in *. unfold SIZE_OF_ZONE in *. lia.
Qed.

(** Pages in free blocks. *)
Definition free_size (b : binfo) : Z := if decide (b_kind b = Used) then 0 else b_size b.

Lemma msum_split bl : msum b_size bl = msum used_size bl + msum free_size bl.
Proof.
  induction bl as [|a b bl Ha IH] using map_ind; [done|]. rewrite !msum_insert, IH by done. unfold used_size, free_size at 2. case_decide; lia.
Qed.

Lemma msum_nonneg (f : binfo → Z) bl : (∀ a b, bl !! a = Some b → 0 ≤ f b) → 0 ≤ msum f bl.
Proof.
  induction bl as [|a b bl Ha IH] using map_ind; intros Hf; [by rewrite msum_empty|]. rewrite msum_insert by done.
  pose proof (Hf a b ltac:(apply lookup_insert_eq)). assert (0 ≤ msum f bl); [|lia]. apply IH. intros a' b' Hb. apply (Hf a').
  rewrite lookup_insert_ne by congruence. done.
Qed.

Lemma msum_pos (f : binfo → Z) bl : (∀ a b, bl !! a = Some b → 0 ≤ f b) → 0 < msum f bl → ∃ a b, bl !! a = Some b ∧ 0 < f b.
Proof.
  induction bl as [|a b bl Ha IH] using map_ind; intros Hf Hp; [by rewrite msum_empty in Hp|]. rewrite msum_insert in Hp by done.
  destruct (decide (0 < f b)) as [|Hn]; [exists a, b; by rewrite lookup_insert_eq|].
  destruct IH as (a' & b' & Hb & Hp'); [|lia|].
  - intros a' b' Hb. apply (Hf a'). rewrite lookup_insert_ne by congruence. done.
  - exists a', b'. rewrite lookup_insert_ne by congruence. done.
Qed.

(** The number of free pages, by the counters. *)
Definition free_pages_count s : nat := Z.to_nat (total_pages s - allocated_pages s).

Lemma b_size_nonneg zs bl U a b : tiling zs bl U → bl !! a = Some b → 0 < b_size b.
Proof. intros Ti Hb. destruct (t_bwf _ _ _ Ti a b Hb) as [_ _ Ho _ _ _]. unfold b_size. apply pow2_pos. lia. Qed.

Lemma counters_split zs bl s : Inv zs bl s → allocated_pages s = msum used_size bl ∧ total_pages s = msum used_size bl + msum free_size bl.
Proof.
  intros [I _]. pose proof (i_zones _ _ _ _ I) as ZW. pose proof (i_tiling _ _ _ _ I) as Ti.
  pose proof (tiling_count zs bl ZW Ti) as Ec. pose proof (total_bound zs ZW). rewrite msum_split in Ec.
  assert (0 ≤ msum used_size bl ∧ 0 ≤ msum free_size bl) as [Hu Hf].
  { split; apply msum_nonneg; intros a b Hb; pose proof (b_size_nonneg _ _ _ _ _ Ti Hb); unfold used_size, free_size; case_decide; lia. }
  rewrite (i_allocated _ _ _ _ I), (i_total _ _ _ _ I). rewrite !wrap_small by lia. split; [done|lia].
Qed.

(** As long as the counters leave a page, some block is free. *)
Lemma free_block_exists zs bl s : Inv zs bl s → (0 < free_pages_count s)%nat → ∃ a o, 0 ≤ o < MAX_ORDER ∧ is_free bl a o.
Proof.
  intros I Hp. destruct (counters_split _ _ _ I) as [Ea Et]. unfold free_pages_count in Hp. destruct I as [I _]. pose proof (i_tiling _ _ _ _ I) as Ti.
  destruct (msum_pos free_size bl) as (a & b & Hb & Hfb); [|lia|].
  - intros a b Hb. pose proof (b_size_nonneg _ _ _ _ _ Ti Hb). unfold free_size. case_decide; lia.
  - unfold free_size in Hfb. case_decide as Hk; [lia|]. exists a, (b_order b). split; [apply (t_bwf _ _ _ Ti a b Hb)|].
    exists b. split_and!; [done| |done]. by destruct (b_kind b).
Qed.

(** What an allocation of one page does to the number of free pages. *)
Lemma alloc_page_result zs bl s : Inv zs bl s →
  wp alloc_page (λ p s', is_dmap s' = is_dmap s ∧
    ((p = 0 ∧ Inv zs bl s' ∧ free_pages_count s = 0%nat) ∨
     ∃ a bl', p = emb (is_dmap s) a ∧ phys_addr a ∧ (PAGE_SIZE | a) ∧ a ≠ 0 ∧ Inv zs bl' s' ∧
       owned bl !! a = None ∧ owned bl' = <[a := 0]> (owned bl) ∧ free_pages_count s = S (free_pages_count s'))) s.
Proof.
  intros I. unfold alloc_page. eapply wp_mono; [by apply (wp_alloc_pages zs bl)|].
  intros p s' [Ed [(-> & I' & Hno)|(a & bl' & -> & Hpa & Ha & I' & _ & Hn & Eo)]]; (split; [done|]).
  - left. split_and!; try done. destruct (decide (free_pages_count s = 0%nat)) as [|Hne]; [done|exfalso].
    destruct (free_block_exists zs bl s I ltac:(lia)) as (a0 & o0 & Ho0 & Hf0). apply (Hno a0 o0); [lia|done].
  - right. exists a, bl'. destruct (counters_split _ _ _ I) as [Ea Et], (counters_split _ _ _ I') as [Ea' Et'].
    assert (total_pages s' = total_pages s) as Etot by (rewrite (i_total _ _ _ _ (proj1 I)), (i_total _ _ _ _ (proj1 I')); done).
    assert (0 ≤ msum free_size bl').
    { apply msum_nonneg. intros a' b Hb. pose proof (b_size_nonneg _ _ _ _ _ (i_tiling _ _ _ _ (proj1 I')) Hb). unfold free_size. case_decide; lia. }
    assert (PAGE_SIZE | a) as Hal.
    { assert (owned bl' !! a = Some 0) as (b & Hb & _)%owned_lookup by (by rewrite Eo, lookup_insert_eq).
      destruct (t_bwf _ _ _ (i_tiling _ _ _ _ (proj1 I')) a b Hb) as [Hz -> _ _ _ _]. unfold zaddr.
      apply Z.divide_add_r; [apply (zs_wf _ (i_zones _ _ _ _ (proj1 I')) _ Hz)|apply Z.divide_factor_r]. }
    split_and!; try done. rewrite msum_owned, Eo, msum_insert in Ea', Et' by done. rewrite msum_owned in Ea, Et. unfold free_pages_count.
    change (2 ^ 0) with 1 in *. lia.
Qed.

(** the page allocator gives out single pages until none is left: with
    [free_pages_count] free pages by its counters an allocation of one page
    succeeds, and exactly one page less is free afterwards. *)
Theorem alloc_page_available zs bl s : Inv zs bl s → (0 < free_pages_count s)%nat →
  wp alloc_page (λ p s', ∃ a bl', p = emb (is_dmap s) a ∧ a ≠ 0 ∧ Inv zs bl' s' ∧ is_dmap s' = is_dmap s ∧
    owned bl !! a = None ∧ owned bl' = <[a := 0]> (owned bl) ∧ free_pages_count s = S (free_pages_count s')) s.
Proof.
  intros I Hp. eapply wp_mono; [by apply (alloc_page_result zs bl)|]. intros p s' [Ed [(_ & _ & E0)|(a & bl' & -> & _ & _ & Ha & I' & Hn & Eo & Ec)]]; [lia|].
  by exists a, bl'.
Qed.

(** Freeing a page makes it available again. *)
Lemma free_page_available zs bl s a : Inv zs bl s → owned bl !! a = Some 0 →
  wp (PageAlloc.free_pages (emb (is_dmap s) a)) (λ _ s', ∃ bl', Inv zs bl' s' ∧ is_dmap s' = is_dmap s ∧ owned bl' = delete a (owned bl) ∧
    free_pages_count s' = S (free_pages_count s)) s.
Proof.
  intros I Ha. eapply wp_mono; [by apply (wp_free_pages zs bl s a 0)|]. intros [] s' (Ed & bl' & I' & Eo). exists bl'. split_and!; try done.
  destruct (counters_split _ _ _ I) as [Ea Et], (counters_split _ _ _ I') as [Ea' Et'].
  assert (total_pages s' = total_pages s) as Etot by (rewrite (i_total _ _ _ _ (proj1 I)), (i_total _ _ _ _ (proj1 I')); done).
  rewrite msum_owned, Eo in Ea'. rewrite msum_owned, (msum_delete _ _ _ _ Ha) in Ea. change (2 ^ 0) with 1 in Ea.
  assert (0 ≤ msum free_size bl).
  { apply msum_nonneg. intros a' b Hb. pose proof (b_size_nonneg _ _ _ _ _ (i_tiling _ _ _ _ (proj1 I)) Hb). unfold free_size. case_decide; lia. }
  rewrite msum_owned, (msum_delete _ _ _ _ Ha) in Et. change (2 ^ 0) with 1 in Et. unfold free_pages_count. lia.
Qed.
End counters.

Section witness.
#[local] Existing Instance KernelAddressTranslator.

Lemma alloc_page_available_witness : ∃ zs bl, (0 < free_pages_count demo1)%nat ∧
  wp alloc_page (λ p s', ∃ a bl', p = emb (is_dmap demo1) a ∧ a ≠ 0 ∧ Inv zs bl' s' ∧ is_dmap s' = is_dmap demo1 ∧
    owned bl !! a = None ∧ owned bl' = <[a := 0]> (owned bl) ∧ free_pages_count demo1 = S (free_pages_count s')) demo1.
Proof.
  destruct demo1_Inv as (bl & a & I & _). exists [demo_zone], bl. assert (0 < free_pages_count demo1)%nat as Hc by (vm_compute; lia).
  split; [exact Hc|]. exact (alloc_page_available [demo_zone] bl demo1 I Hc).
Defined.
End witness.
