(* ===== verification/Slab.v ===== *)
(** * The slab allocator

    Models [klib/src/vm/slab.rs], the kernel's global allocator.  Small
    objects come from slabs: pages that start with a [Header], followed by
    objects of one size class whose free ones are linked through their first
    word; the slabs of a class that have free objects form a doubly-linked
    list.  Everything else is a block of pages.  The allocator uses the page
    allocator through the class [PageSource].  As in [PageAlloc], memory is
    keyed by physical address and reached through the translator. *)

From S2P Require Import Prelude Vm Sync PageAlloc.

(** ** The page allocator as the slab allocator sees it *)

Class PageSource (P : Type) := {
  src_alloc_pages : Z → M P Z;
  src_alloc_phys_page : M P Z;
  src_alloc_dmap_page : M P Z;
  src_free_pages : Z → M P unit;
  src_free_phys_page : Z → M P unit;
  src_free_dmap_page : Z → M P unit;
  src_transition_dmap : M P unit;
  src_total_pages : P → Z;
  src_allocated_pages : P → Z
}.

#[global] Instance page_allocator_source `{T : AddressTranslator} : PageSource PageAllocator := {|
  src_alloc_pages := alloc_pages;
  src_alloc_phys_page := alloc_phys_page;
  src_alloc_dmap_page := alloc_dmap_page;
  src_free_pages := free_pages;
  src_free_phys_page := free_phys_page;
  src_free_dmap_page := free_dmap_page;
  src_transition_dmap := PageAlloc.transition_dmap;
  src_total_pages := total_pages;
  src_allocated_pages := allocated_pages
|}.

(** ** Size classes *)

Definition build_class_sizes : list Z := [2 ^ 3; 2 ^ 4; 2 ^ 5; 2 ^ 6; 2 ^ 7; 2 ^ 8; 2 ^ 9; 2 ^ 10; 2 ^ 11].
Definition CLASS_SIZES : list Z := build_class_sizes.

Fixpoint first_class (i : nat) (sizes : list Z) (size : Z) : option nat :=
  match sizes with
  | [] => None
  | s :: sizes' => if size <=? s then Some i else first_class (S i) sizes' size
  end.
Definition size_class_index (size : Z) : option nat := first_class 0 CLASS_SIZES size.

(** ** State *)

Record Header := {
  hdr_next : Z;
  hdr_prev : Z;
  free_list : Z;
  free_count : Z;
  size_class_i : Z
}.
(** Three words and two half-words, padded to the alignment of a word. *)
Definition SIZE_OF_HEADER : Z := 32.

Definition set_hdr_next (v : Z) (h : Header) : Header :=
  {| hdr_next := v; hdr_prev := hdr_prev h; free_list := free_list h; free_count := free_count h;
     size_class_i := size_class_i h |}.
Definition set_hdr_prev (v : Z) (h : Header) : Header :=
  {| hdr_next := hdr_next h; hdr_prev := v; free_list := free_list h; free_count := free_count h;
     size_class_i := size_class_i h |}.
Definition set_free_list (v : Z) (h : Header) : Header :=
  {| hdr_next := hdr_next h; hdr_prev := hdr_prev h; free_list := v; free_count := free_count h;
     size_class_i := size_class_i h |}.
Definition set_free_count (v : Z) (h : Header) : Header :=
  {| hdr_next := hdr_next h; hdr_prev := hdr_prev h; free_list := free_list h; free_count := v;
     size_class_i := size_class_i h |}.

(** [core::alloc::Layout]. *)
Record Layout := { layout_size : Z; layout_align : Z }.

(** [caches] has the [plist] of each cache.  [words] is memory at word
    granularity. *)
Record SlabAllocator (P : Type) := {
  pages : P;
  page_alloc_ptr : Z;
  used_bytes : Z;
  caches : list Z;
  slab_lock : TicketLock.TicketLock;
  slab_dmap : bool;
  headers : gmap Z Header;
  words : gmap Z Z
}.
Arguments pages {P}. Arguments page_alloc_ptr {P}. Arguments used_bytes {P}. Arguments caches {P}.
Arguments slab_lock {P}. Arguments slab_dmap {P}. Arguments headers {P}. Arguments words {P}.

Definition build_caches : list Z := replicate 9 0.

Section slab.
Context {P : Type} `{T : AddressTranslator} `{PS : PageSource P}.
#[local] Abbreviation Slab := (SlabAllocator P).

Definition slab_new (page_alloc : P) (ptr : Z) : Slab :=
  {| pages := page_alloc; page_alloc_ptr := ptr; used_bytes := 0; caches := build_caches;
     slab_lock := TicketLock.new; slab_dmap := false; headers := ∅; words := ∅ |}.

Definition set_pages (v : P) (s : Slab) : Slab :=
  {| pages := v; page_alloc_ptr := page_alloc_ptr s; used_bytes := used_bytes s; caches := caches s;
     slab_lock := slab_lock s; slab_dmap := slab_dmap s; headers := headers s; words := words s |}.
Definition set_page_alloc_ptr (v : Z) (s : Slab) : Slab :=
  {| pages := pages s; page_alloc_ptr := v; used_bytes := used_bytes s; caches := caches s;
     slab_lock := slab_lock s; slab_dmap := slab_dmap s; headers := headers s; words := words s |}.
Definition set_used_bytes (v : Z) (s : Slab) : Slab :=
  {| pages := pages s; page_alloc_ptr := page_alloc_ptr s; used_bytes := v; caches := caches s;
     slab_lock := slab_lock s; slab_dmap := slab_dmap s; headers := headers s; words := words s |}.
Definition set_caches (v : list Z) (s : Slab) : Slab :=
  {| pages := pages s; page_alloc_ptr := page_alloc_ptr s; used_bytes := used_bytes s; caches := v;
     slab_lock := slab_lock s; slab_dmap := slab_dmap s; headers := headers s; words := words s |}.
Definition set_slab_lock (v : TicketLock.TicketLock) (s : Slab) : Slab :=
  {| pages := pages s; page_alloc_ptr := page_alloc_ptr s; used_bytes := used_bytes s; caches := caches s;
     slab_lock := v; slab_dmap := slab_dmap s; headers := headers s; words := words s |}.
Definition set_slab_dmap (v : bool) (s : Slab) : Slab :=
  {| pages := pages s; page_alloc_ptr := page_alloc_ptr s; used_bytes := used_bytes s; caches := caches s;
     slab_lock := slab_lock s; slab_dmap := v; headers := headers s; words := words s |}.
Definition set_headers (v : gmap Z Header) (s : Slab) : Slab :=
  {| pages := pages s; page_alloc_ptr := page_alloc_ptr s; used_bytes := used_bytes s; caches := caches s;
     slab_lock := slab_lock s; slab_dmap := slab_dmap s; headers := v; words := words s |}.
Definition set_words (v : gmap Z Z) (s : Slab) : Slab :=
  {| pages := pages s; page_alloc_ptr := page_alloc_ptr s; used_bytes := used_bytes s; caches := caches s;
     slab_lock := slab_lock s; slab_dmap := slab_dmap s; headers := headers s; words := v |}.

(** ** Accesses *)

Definition on_pages {A} (c : M P A) : M Slab A := λ s,
  match c (pages s) with Done (a, p) => Done (a, set_pages p s) | Fault f => Fault f end.

(** [page_alloc()] and [page_alloc_mut()] check the pointer. *)
Definition page_alloc : M Slab unit := let* s := get in assert (negb (page_alloc_ptr s =? 0)).

Definition deref_header (p : Z) : M Slab Header := λ s,
  match headers s !! dmap_to_phys p with Some h => Done (h, s) | None => Fault BadDeref end.
Definition update_header (p : Z) (f : Header → Header) : M Slab unit :=
  deref_header p ;; modify (λ s, set_headers (alter f (dmap_to_phys p) (headers s)) s).
Definition init_header (p : Z) (h : Header) : M Slab unit :=
  modify (λ s, set_headers (<[dmap_to_phys p := h]> (headers s)) s).
Definition read_word (p : Z) : M Slab Z := λ s,
  match words s !! dmap_to_phys p with Some w => Done (w, s) | None => Fault BadDeref end.
Definition write_word (p v : Z) : M Slab unit :=
  modify (λ s, set_words (<[dmap_to_phys p := v]> (words s)) s).

Definition get_plist (i : nat) : M Slab Z := let* s := get in expect (caches s !! i).
Definition set_plist (i : nat) (v : Z) : M Slab unit :=
  get_plist i ;; modify (λ s, set_caches (<[i := v]> (caches s)) s).

Definition lock_slab : M Slab unit := λ s,
  match TicketLock.lock_alone (slab_lock s) with
  | Some l => Done (tt, set_slab_lock l s)
  | None => Fault Deadlock
  end.
Definition unlock_slab : M Slab unit :=
  modify (λ s, set_slab_lock (TicketLock.unlock (slab_lock s)) s).

(** ** Allocation *)

(** An object from the first slab of the list of class [i]; [plist] is not
    null. *)
Definition alloc_partial (i : nat) (plist : Z) : M Slab Z :=
  let* header := deref_header plist in
  let obj := free_list header in
  let* nxt := read_word obj in
  update_header plist (set_free_list nxt) ;;
  let* count := expect (checked_sub (free_count header) 1) in
  update_header plist (set_free_count count) ;;
  (if count =? 0 then
     let* header := deref_header plist in
     set_plist i (hdr_next header) ;;
     (if hdr_next header =? 0 then ret tt else update_header (hdr_next header) (set_hdr_prev 0)) ;;
     update_header plist (set_hdr_next 0) ;;
     update_header plist (set_hdr_prev 0)
   else ret tt) ;;
  unlock_slab ;;
  ret obj.

(** [for i in 1..cap]: links each object to the next one; returns the last. *)
Fixpoint link_loop (n : nat) (i page start_off size_class prev : Z) : M Slab Z :=
  match n with
  | O => ret prev
  | S n' =>
      let next := page + (start_off + i * size_class) in
      write_word prev next ;;
      link_loop n' (i + 1) page start_off size_class next
  end.

(** Links the objects of a page and returns what the header's free list gets,
    the successor of the first object. *)
Definition link_objects (page start_off size_class cap : Z) : M Slab Z :=
  let first_obj := page + start_off in
  let* last := link_loop (Z.to_nat (cap - 1)) 1 page start_off size_class first_obj in
  write_word last 0 ;;
  read_word first_obj.

(** The header of a new slab, in front of the list of its class. *)
Definition push_header (i : nat) (header free count : Z) : M Slab unit :=
  let* plist := get_plist i in
  init_header header {| hdr_next := plist; hdr_prev := 0; free_list := free; free_count := count;
                        size_class_i := Z.of_nat i |} ;;
  (if plist =? 0 then ret tt else update_header plist (set_hdr_prev header)) ;;
  set_plist i header.

(** A page of its own for class [i], with one object taken from it. *)
Definition alloc_new_slab (i : nat) : M Slab Z :=
  let* s := get in
  let* page := (if slab_dmap s then on_pages src_alloc_dmap_page else on_pages src_alloc_phys_page) in
  assert (negb (page =? 0)) ;;
  let* size_class := expect (CLASS_SIZES !! i) in
  let* start_off := expect (align_up SIZE_OF_HEADER size_class) in
  let* room := expect (checked_sub PAGE_SIZE start_off) in
  let cap := room / size_class in
  let* free := link_objects page start_off size_class cap in
  let* count := expect (checked_sub (wrap 16 cap) 1) in
  (if 1 <? cap then lock_slab ;; push_header i page free count ;; unlock_slab
   else init_header page {| hdr_next := 0; hdr_prev := 0; free_list := free; free_count := count;
                            size_class_i := Z.of_nat i |}) ;;
  ret (page + start_off).

(** [usize::next_power_of_two], whose result must fit. *)
Definition next_power_of_two (n : Z) : option Z :=
  let p := if n <=? 1 then 1 else 2 ^ Z.log2_up n in
  if p <? 2 ^ 64 then Some p else None.

Definition order_for (bytes : Z) : M Slab Z :=
  let* b := expect (checked_add 64 bytes PAGE_SIZE) in
  let req_pages := (b - 1) / PAGE_SIZE in
  let* p := expect (next_power_of_two req_pages) in
  ret (trailing_zeros 64 p).

(** An alignment above the page size needs a larger block, whose address is
    kept in the word before the object. *)
Definition alloc_over_aligned (size align : Z) : M Slab Z :=
  let* sa := expect (checked_add 64 size align) in
  let* total_bytes := expect (checked_add 64 sa 8) in
  let* order := order_for total_bytes in
  let* ptr := on_pages (src_alloc_pages order) in
  if ptr =? 0 then ret 0 else
  let* p8 := expect (checked_add 64 ptr 8) in
  let* aligned := expect (align_up p8 align) in
  write_word (aligned - 8) ptr ;;
  ret aligned.

(** Blocks of pages; the first order is computed and not used. *)
Definition alloc_large (layout : Layout) : M Slab Z :=
  let size := Z.max (layout_size layout) (layout_align layout) in
  let* req := expect (align_up size PAGE_SIZE) in
  let* _ := expect (next_power_of_two (req / PAGE_SIZE)) in
  if layout_align layout <=? PAGE_SIZE then
    let* order := order_for size in
    on_pages (src_alloc_pages order)
  else alloc_over_aligned size (layout_align layout).

Definition alloc_impl (layout : Layout) : M Slab Z :=
  let size := Z.max (layout_size layout) (layout_align layout) in
  page_alloc ;;
  let* ptr := (match size_class_index size with
    | Some i =>
        lock_slab ;;
        let* plist := get_plist i in
        if negb (plist =? 0) then alloc_partial i plist
        else unlock_slab ;; alloc_new_slab i
    | None => alloc_large layout
    end) in
  (if ptr =? 0 then ret tt
   else modify (λ s, set_used_bytes (wrap 64 (used_bytes s + layout_size layout)) s)) ;;
  ret ptr.

(** ** Freeing *)

(** Takes the slab at [header] out of the list of class [i]. *)
Definition unlink_header (i : nat) (header : Z) : M Slab unit :=
  let* h := deref_header header in
  let next := hdr_next h in
  let prev := hdr_prev h in
  (if prev =? 0 then set_plist i next else update_header prev (set_hdr_next next)) ;;
  (if next =? 0 then ret tt else update_header next (set_hdr_prev prev)).

Definition free_small (ptr : Z) : M Slab unit :=
  let header := align_down ptr PAGE_SIZE in
  lock_slab ;;
  let* h := deref_header header in
  let i := Z.to_nat (size_class_i h) in
  let* _ := get_plist i in
  write_word ptr (free_list h) ;;
  update_header header (set_free_list ptr) ;;
  let was_full := free_count h =? 0 in
  let* count := expect (checked_add 16 (free_count h) 1) in
  update_header header (set_free_count count) ;;
  let* size_class := expect (CLASS_SIZES !! i) in
  let* start_off := expect (align_up SIZE_OF_HEADER size_class) in
  let* room := expect (checked_sub PAGE_SIZE start_off) in
  let cap := room / size_class in
  if count =? wrap 16 cap then
    (if was_full then ret tt else unlink_header i header) ;;
    unlock_slab ;;
    on_pages (src_free_pages header)
  else
    (if was_full then
       let* plist := get_plist i in
       update_header header (set_hdr_next plist) ;;
       (if plist =? 0 then ret tt else update_header plist (set_hdr_prev header)) ;;
       set_plist i header
     else ret tt) ;;
    unlock_slab.

Definition free_impl (ptr : Z) (layout : Layout) : M Slab unit :=
  if ptr =? 0 then ret tt else
  page_alloc ;;
  let size := Z.max (layout_size layout) (layout_align layout) in
  match size_class_index size with
  | None =>
      if layout_align layout <=? PAGE_SIZE then on_pages (src_free_pages ptr)
      else let* block := read_word (ptr - 8) in on_pages (src_free_pages block)
  | Some _ => free_small ptr
  end ;;
  modify (λ s, set_used_bytes (wrap 64 (used_bytes s - layout_size layout)) s).

(** [GlobalAlloc]. *)
Definition slab_alloc (layout : Layout) : M Slab Z := alloc_impl layout.
Definition slab_dealloc (ptr : Z) (layout : Layout) : M Slab unit := free_impl ptr layout.

(** ** Moving to the direct map *)

Fixpoint transition_objects (fuel : nat) (obj_phys : Z) : M Slab unit :=
  if obj_phys =? 0 then ret tt
  else match fuel with
  | O => fail OutOfFuel
  | S fuel' =>
      let next_ptr := to_dmap obj_phys in
      let* phys_next := read_word next_ptr in
      write_word next_ptr (to_dmap phys_next) ;;
      transition_objects fuel' phys_next
  end.

Fixpoint transition_headers (fuel : nat) (hdr_phys : Z) : M Slab unit :=
  if hdr_phys =? 0 then ret tt
  else match fuel with
  | O => fail OutOfFuel
  | S fuel' =>
      let header_dmap := to_dmap hdr_phys in
      let* h := deref_header header_dmap in
      update_header header_dmap (λ h, set_hdr_next (to_dmap (hdr_next h)) h) ;;
      update_header header_dmap (λ h, set_hdr_prev (to_dmap (hdr_prev h)) h) ;;
      update_header header_dmap (λ h, set_free_list (to_dmap (free_list h)) h) ;;
      let* s := get in
      transition_objects (S (size (words s))) (free_list h) ;;
      transition_headers fuel' (hdr_next h)
  end.

Fixpoint transition_caches (ids : list nat) : M Slab unit :=
  match ids with
  | [] => ret tt
  | i :: ids' =>
      let* hdr_phys := get_plist i in
      set_plist i (to_dmap hdr_phys) ;;
      let* s := get in
      transition_headers (S (size (headers s))) hdr_phys ;;
      transition_caches ids'
  end.

Definition slab_transition_dmap : M Slab unit :=
  lock_slab ;;
  let* s := get in
  assert (negb (slab_dmap s)) ;;
  modify (set_page_alloc_ptr (phys_to_dmap (page_alloc_ptr s))) ;;
  page_alloc ;;
  on_pages src_transition_dmap ;;
  transition_caches (seq 0 9) ;;
  modify (set_slab_dmap true) ;;
  unlock_slab.

(** ** The page interfaces and the counters *)

Definition free_page (va : Z) : M Slab unit := page_alloc ;; on_pages (src_free_pages va).
Definition slab_alloc_phys_page : M Slab Z := page_alloc ;; on_pages src_alloc_phys_page.
Definition slab_free_phys_page (pa : Z) : M Slab unit := page_alloc ;; on_pages (src_free_phys_page pa).
Definition slab_alloc_dmap_page : M Slab Z := page_alloc ;; on_pages src_alloc_dmap_page.
Definition slab_free_dmap_page (va : Z) : M Slab unit := page_alloc ;; on_pages (src_free_dmap_page va).

Definition capacity : M Slab Z :=
  page_alloc ;; let* s := get in expect (checked_mul 64 (src_total_pages (pages s)) PAGE_SIZE).
Definition heap_usage : M Slab Z := let* s := get in ret (used_bytes s).
Definition page_usage : M Slab Z :=
  page_alloc ;; let* s := get in expect (checked_mul 64 (src_allocated_pages (pages s)) PAGE_SIZE).
End slab.
