(* ===== verification/SlabInv.v ===== *)
(** * The invariant of the slab allocator

    What the slab allocator needs from its page source, the geometry of
    slabs, and the representation of the abstract state: the slabs with their
    free objects, and the live allocations. *)

From S2P Require Import Prelude Vm Sync PageAlloc Dll PageInv PageSpec Slab.

(** ** The contract of the page source

    [owns p own]: the blocks at the physical addresses of [own] are handed
    out, with their orders; [src_dmap] says whether pointers are those of the
    direct map. *)
Class PageSourceLaws (P : Type) `{T : AddressTranslator} `{PS : PageSource P} := {
  owns : P → gmap Z Z → Prop;
  src_dmap : P → bool;
  owns_block p own a o : owns p own → own !! a = Some o →
    0 < a ∧ a + span o ≤ 2 ^ VA_WIDTH ∧ (PAGE_SIZE | a) ∧ 0 ≤ o;
  owns_disjoint p own a o b o' : owns p own → own !! a = Some o → own !! b = Some o' → a ≠ b →
    a + span o ≤ b ∨ b + span o' ≤ a;
  src_alloc_ok p own o : owns p own → 0 ≤ o →
    wp (src_alloc_pages o) (λ r p', src_dmap p' = src_dmap p ∧
      ((r = 0 ∧ owns p' own) ∨
       ∃ a, r = emb (src_dmap p) a ∧ own !! a = None ∧ owns p' (<[a := o]> own))) p;
  src_phys_page_ok p own : owns p own →
    wp src_alloc_phys_page (λ r p', src_dmap p' = src_dmap p ∧
      ((r = 0 ∧ owns p' own) ∨ (own !! r = None ∧ owns p' (<[r := 0]> own)))) p;
  src_dmap_page_ok p own : owns p own → src_dmap p = true →
    wp src_alloc_dmap_page (λ r p', src_dmap p' = true ∧
      ((r = 0 ∧ owns p' own) ∨
       ∃ a, r = emb true a ∧ own !! a = None ∧ owns p' (<[a := 0]> own))) p;
  src_free_ok p own a o : owns p own → own !! a = Some o →
    wp (src_free_pages (emb (src_dmap p) a)) (λ _ p', src_dmap p' = src_dmap p ∧ owns p' (delete a own)) p;
  src_free_phys_ok p own a o : owns p own → own !! a = Some o →
    wp (src_free_phys_page a) (λ _ p', src_dmap p' = src_dmap p ∧ owns p' (delete a own)) p;
  src_free_dmap_ok p own a o : owns p own → own !! a = Some o →
    wp (src_free_dmap_page (emb true a)) (λ _ p', src_dmap p' = src_dmap p ∧ owns p' (delete a own)) p;
  src_transition_ok p own : owns p own → src_dmap p = false →
    wp src_transition_dmap (λ _ p', src_dmap p' = true ∧ owns p' own) p
}.

(** The page a new slab is made of. *)
Lemma src_page_ok `{PL : PageSourceLaws P} p own : owns p own →
  wp (if src_dmap p then src_alloc_dmap_page else src_alloc_phys_page) (λ r p', src_dmap p' = src_dmap p ∧
    ((r = 0 ∧ owns p' own) ∨
     ∃ a, r = emb (src_dmap p) a ∧ own !! a = None ∧ owns p' (<[a := 0]> own))) p.
Proof.
  intros Ho. destruct (src_dmap p) eqn:Ed; [by apply src_dmap_page_ok|].
  eapply wp_mono; [by apply src_phys_page_ok|]. cbn beta. rewrite Ed. naive_solver.
Qed.

(** ** Slabs *)

Definition class_size (i : nat) : Z := 2 ^ (3 + Z.of_nat i).
Definition start_off (i : nat) : Z := Z.max SIZE_OF_HEADER (class_size i).
Definition cap (i : nat) : Z := (PAGE_SIZE - start_off i) / class_size i.

Record class_geom (i : nat) : Prop := {
  cg_lookup : CLASS_SIZES !! i = Some (class_size i);
  cg_align : align_up SIZE_OF_HEADER (class_size i) = Some (start_off i);
  cg_size : 8 ≤ class_size i ≤ 2048;
  cg_start : SIZE_OF_HEADER ≤ start_off i ≤ 2048;
  cg_div : (class_size i | start_off i);
  cg_cap : 2 ≤ cap i < 2 ^ 16;
  cg_fits : start_off i + cap i * class_size i ≤ PAGE_SIZE
}.

Lemma class_facts i : (i < 9)%nat → class_geom i.
Proof.
  intros Hi. do 9 (destruct i as [|i]; [split; vm_compute; first [done|split; done|by eexists 1|by eexists 2|by eexists 4]|]).
  lia.
Qed.

Definition obj (a : Z) (i : nat) (k : Z) : Z := a + start_off i + k * class_size i.
Definition is_obj (a : Z) (i : nat) (x : Z) : Prop := ∃ k, 0 ≤ k < cap i ∧ x = obj a i k.

(** Objects lie between the header and the end of the page. *)
Lemma is_obj_range a i x : (i < 9)%nat → is_obj a i x →
  a + SIZE_OF_HEADER ≤ x ∧ x + class_size i ≤ a + PAGE_SIZE.
Proof.
  intros [] %class_facts (k & Hk & ->). unfold obj. pose proof (Z.mul_le_mono_nonneg_r (k + 1) (cap i) (class_size i)). lia.
Qed.

(** Two objects of a slab do not overlap. *)
Lemma is_obj_disjoint a i x y : (i < 9)%nat → is_obj a i x → is_obj a i y → x ≠ y →
  x + class_size i ≤ y ∨ y + class_size i ≤ x.
Proof.
  intros [] %class_facts (k & Hk & ->) (j & Hj & ->) Hne. unfold obj in *.
  assert (k < j ∨ j < k) as [Hkj|Hkj] by (destruct (decide (k = j)); [congruence|lia]).
  - pose proof (Z.mul_le_mono_nonneg_r (k + 1) j (class_size i)). lia.
  - pose proof (Z.mul_le_mono_nonneg_r (j + 1) k (class_size i)). lia.
Qed.

(** A request that has a class fits an object of it and is served by an
    object of sufficient alignment. *)
Lemma size_class_index_spec size : 0 ≤ size →
  match size_class_index size with
  | Some i => (i < 9)%nat ∧ size ≤ class_size i
  | None => 2048 < size
  end.
Proof.
  intros Hs. unfold size_class_index, CLASS_SIZES, build_class_sizes. cbn [first_class].
  repeat (match goal with |- context [size <=? ?b] => destruct (Z.leb_spec size b) end;
    [split; [lia|unfold class_size; cbn; lia]|]).
  lia.
Qed.

(** Free objects of a slab and its class. *)
Record sinfo := { s_class : nat; s_free : list Z }.

(** Live allocations: their layout, and the slab or block that holds them. *)
Record ainfo := { a_layout : Layout; a_block : Z }.
Definition a_size (ai : ainfo) : Z := Z.max (layout_size (a_layout ai)) (layout_align (a_layout ai)).
Definition a_class (ai : ainfo) : option nat := size_class_index (a_size ai).

(** What [Layout] guarantees, and that no allocation is empty. *)
Record layout_ok (l : Layout) : Prop := {
  lo_size : 0 < layout_size l < 2 ^ 63;
  lo_align : ∃ k, 0 ≤ k < 63 ∧ layout_align l = 2 ^ k
}.

(** The free list from the pointer [p]: each object's first word points to
    the next one. *)
Section representation.
Context `{T : AddressTranslator} {TL : AddressTranslatorLaws T}.
Implicit Types (w : gmap Z Z) (hs : gmap Z Header) (d : bool).

Fixpoint chain d w (p : Z) (l : list Z) : Prop :=
  match l with
  | [] => p = 0
  | x :: l' => p = emb d x ∧ ∃ nx, w !! x = Some nx ∧ chain d w nx l'
  end.

Lemma chain_frame d w w' p l : (∀ x, x ∈ l → w' !! x = w !! x) → chain d w p l → chain d w' p l.
Proof.
  revert p. induction l as [|x l IH]; intros p Hw; [done|]. cbn [chain].
  intros (-> & nx & Hx & Hc). split; [done|]. exists nx. rewrite Hw by set_solver. split; [done|].
  apply IH; [set_solver|done].
Qed.

Lemma chain_insert d w x v p l : x ∉ l → chain d w p l → chain d (<[x := v]> w) p l.
Proof. intros Hx. apply chain_frame. intros y Hy. apply lookup_insert_ne. congruence. Qed.

#[global] Program Instance Header_node : DllNode Header := {|
  node_next := hdr_next; node_prev := hdr_prev; node_set_next := set_hdr_next; node_set_prev := set_hdr_prev
|}.
Solve Obligations with done.

(** What a header says about its slab, apart from its neighbours. *)
Definition payload (h : Header) : Z * Z * Z := (free_list h, free_count h, size_class_i h).

(** The header and the free list of a slab. *)
Record slab_ok d hs w (a : Z) (si : sinfo) : Prop := {
  so_class : (s_class si < 9)%nat;
  so_nodup : NoDup (s_free si);
  so_obj x : x ∈ s_free si → is_obj a (s_class si) x;
  so_count : Z.of_nat (length (s_free si)) < cap (s_class si);
  so_header : ∃ h, hs !! a = Some h ∧
    payload h = (free_list h, Z.of_nat (length (s_free si)), Z.of_nat (s_class si)) ∧
    chain d w (free_list h) (s_free si) ∧ (s_free si = [] → hdr_next h = 0 ∧ hdr_prev h = 0)
}.

(** [L i]: the slabs of class [i] that have a free object. *)
Record lists_ok d hs (cs : list Z) (sl : gmap Z sinfo) (L : nat → list Z) : Prop := {
  ls_len : length cs = 9%nat;
  ls_dll i : (i < 9)%nat → ∃ p, cs !! i = Some p ∧ dll (emb d) hs p (L i);
  ls_nodup i : (i < 9)%nat → NoDup (L i);
  ls_mem i a : (i < 9)%nat → a ∈ L i ↔ ∃ si, sl !! a = Some si ∧ s_class si = i ∧ s_free si ≠ []
}.

(** Where a live allocation is. *)
Definition placed d w (sl : gmap Z sinfo) (own : gmap Z Z) (x : Z) (ai : ainfo) : Prop :=
  match a_class ai with
  | Some i => ∃ si, sl !! a_block ai = Some si ∧ s_class si = i ∧ is_obj (a_block ai) i x ∧ x ∉ s_free si
  | None => sl !! a_block ai = None ∧ ∃ o, own !! a_block ai = Some o ∧
      a_block ai ≤ x ∧ x + a_size ai ≤ a_block ai + span o ∧
      if layout_align (a_layout ai) <=? PAGE_SIZE then x = a_block ai
      else a_block ai + 8 ≤ x ∧ w !! (x - 8) = Some (emb d (a_block ai)) ∧ (layout_align (a_layout ai) | emb d x)
  end.

(** Header updates that keep what other headers say; [full] headers, which
    are on no list, stay as they are. *)
Definition keeps hs hs' (b : Z) (full : Prop) : Prop := ∀ h, hs !! b = Some h →
  ∃ h', hs' !! b = Some h' ∧ payload h' = payload h ∧ (full → h' = h).

Lemma keeps_refl hs b full : keeps hs hs b full.
Proof. intros h Hh. by exists h. Qed.

Lemma keeps_trans hs hs' hs'' b full : keeps hs hs' b full → keeps hs' hs'' b full → keeps hs hs'' b full.
Proof.
  intros H1 H2 h Hh. destruct (H1 h Hh) as (h1 & Hh1 & E1 & F1). destruct (H2 h1 Hh1) as (h2 & Hh2 & E2 & F2).
  exists h2. split; [done|]. split; [congruence|]. intros Hf. rewrite F2, F1; done.
Qed.

Lemma keeps_alter hs f a b full : a ≠ b → keeps hs (alter f a hs) b full.
Proof. intros Hne h Hh. exists h. by rewrite lookup_alter_ne. Qed.

Lemma keeps_insert hs h' a b full : a ≠ b → keeps hs (<[a := h']> hs) b full.
Proof. intros Hne h Hh. exists h. by rewrite lookup_insert_ne. Qed.

Lemma keeps_redirect hs o f b full : (∀ h, payload (f h) = payload h) → (full → o ≠ Some b) →
  keeps hs (redirect o f hs) b full.
Proof.
  intros Hf Ho h Hh. destruct (decide (o = Some b)) as [->|Hne].
  - exists (f h). cbn. rewrite lookup_alter_eq, Hh. naive_solver.
  - exists h. by rewrite redirect_lookup_ne.
Qed.

(** A slab is unaffected by changes elsewhere. *)
Lemma slab_ok_frame d hs w hs' w' b si : slab_ok d hs w b si → keeps hs hs' b (s_free si = []) →
  (∀ x, is_obj b (s_class si) x → w' !! x = w !! x) → slab_ok d hs' w' b si.
Proof.
  intros [H1 H2 H3 H4 (h & Hh & Hp & Hc & Hl)] Hk Hw. split; try done.
  destruct (Hk h Hh) as (h' & Hh' & Ep & Ef). exists h'. split; [done|].
  unfold payload in Ep, Hp. injection Ep as E1 E2 E3. unfold payload. rewrite E1, E2, E3.
  split; [done|]. split; [|intros Hn; rewrite Ef; auto].
  apply (chain_frame _ w); [|done]. intros x Hx. by apply Hw, H3.
Qed.

(** The list heads, and where the nodes of a list are. *)
Lemma lists_head d hs cs sl L i p : lists_ok d hs cs sl L → (i < 9)%nat → cs !! i = Some p →
  p = from_option (emb d) 0 (head (L i)) ∧ dll (emb d) hs p (L i).
Proof.
  intros F Hi Hp. destruct (ls_dll _ _ _ _ _ F i Hi) as (p' & Hp' & Hl). simplify_eq.
  split; [|done]. by apply (dll_head_ptr (emb d) hs).
Qed.

Lemma lists_other d hs cs sl L i j a : lists_ok d hs cs sl L → (i < 9)%nat → (j < 9)%nat →
  a ∈ L i → a ∈ L j → i = j.
Proof.
  intros F Hi Hj (si & Hs & <- & _)%(ls_mem _ _ _ _ _ F) (sj & Hs' & <- & _)%(ls_mem _ _ _ _ _ F);
    [by simplify_eq|done|done].
Qed.
End representation.
