(* ===== verification/SlabLists.v ===== *)
(** * The slab lists

    How the lists of partial slabs change when a slab becomes full, gets a
    free object again, appears or goes away. *)

From S2P Require Import Prelude Vm Sync PageAlloc Dll PageInv PageSpec Slab SlabInv.

Section lists.
Context `{T : AddressTranslator} {TL : AddressTranslatorLaws T}.

(** What an update through a possibly null pointer does. *)
Definition hupd (p : Z) (f : Header → Header) (m : gmap Z Header) : gmap Z Header :=
  if p =? 0 then m else alter f (dmap_to_phys p) m.

Lemma hupd_redirect d o f m : (∀ a, o = Some a → phys_addr a ∧ a ≠ 0) →
  hupd (from_option (emb d) 0 o) f m = redirect o f m.
Proof.
  intros Ho. unfold hupd. destruct o as [a|]; [|done]. destruct (Ho a eq_refl) as [Ha Ha0]. cbn.
  destruct (Z.eqb_spec (emb d a) 0) as [E|_]; [by apply emb_zero in E|]. by rewrite emb_phys.
Qed.

Context (d : bool) (hs : gmap Z Header) (cs : list Z) (sl : gmap Z sinfo) (L : nat → list Z).
Context (F : lists_ok d hs cs sl L).
Context (Hphys : ∀ a si, sl !! a = Some si → phys_addr a ∧ a ≠ 0).

Definition put_list (i : nat) (l : list Z) : nat → list Z := λ j, if decide (j = i) then l else L j.

Lemma put_list_eq i l : put_list i l i = l.
Proof. unfold put_list. by rewrite decide_True. Qed.
Lemma put_list_ne i l j : j ≠ i → put_list i l j = L j.
Proof. intros. unfold put_list. by rewrite decide_False. Qed.

Lemma member_phys i a : (i < 9)%nat → a ∈ L i → phys_addr a ∧ a ≠ 0.
Proof. intros Hi (si & Hs & _)%(ls_mem _ _ _ _ _ F); eauto. Qed.

Lemma member_header i a : (i < 9)%nat → a ∈ L i → is_Some (hs !! a).
Proof. intros Hi Ha. destruct (ls_dll _ _ _ _ _ F i Hi) as (p & _ & q & Hs). by eapply dseg_lookup. Qed.

(** The free objects of a listed slab change and it stays listed. *)
Lemma lists_payload a si si' g : sl !! a = Some si → s_free si ≠ [] → s_class si' = s_class si →
  s_free si' ≠ [] → (∀ h, hdr_next (g h) = hdr_next h ∧ hdr_prev (g h) = hdr_prev h) →
  lists_ok d (alter g a hs) cs (<[a := si']> sl) L.
Proof.
  intros Ha Hne Hc Hne' Hg. split; try apply F.
  - intros i Hi. destruct (ls_dll _ _ _ _ _ F i Hi) as (p & Hp & Hl). exists p. split; [done|].
    by apply dll_alter.
  - intros i b Hi. rewrite (ls_mem _ _ _ _ _ F) by done. destruct (decide (b = a)) as [->|Hb].
    + rewrite lookup_insert_eq. split; intros (sj & Hj & Hci & Hfr); simplify_eq; eauto.
    + by rewrite lookup_insert_ne.
Qed.

(** Changes of headers that keep the links, or of headers on no list. *)
Lemma lists_alter a g : (∀ h, hdr_next (g h) = hdr_next h ∧ hdr_prev (g h) = hdr_prev h) →
  lists_ok d (alter g a hs) cs sl L.
Proof.
  intros Hg. split; try apply F. intros i Hi. destruct (ls_dll _ _ _ _ _ F i Hi) as (p & Hp & Hl).
  exists p. split; [done|]. by apply dll_alter.
Qed.

Lemma lists_alter_out a g : (∀ i, (i < 9)%nat → a ∉ L i) → lists_ok d (alter g a hs) cs sl L.
Proof.
  intros Ha. split; try apply F. intros i Hi. destruct (ls_dll _ _ _ _ _ F i Hi) as (p & Hp & Hl).
  exists p. split; [done|]. apply (dll_frame (emb d) hs); [|done]. intros b Hb. apply lookup_alter_ne.
  intros ->. by apply (Ha i).
Qed.

(** The first slab of a list has no predecessor. *)
Lemma lists_first i a l h : (i < 9)%nat → L i = a :: l → hs !! a = Some h → hdr_prev h = 0.
Proof.
  intros Hi EL Hh. destruct (ls_dll _ _ _ _ _ F i Hi) as (p & _ & q & Hl). rewrite EL in Hl.
  destruct Hl as (_ & n & Hn & Hp & _). simplify_eq. done.
Qed.

(** Redirecting a listed neighbour keeps the other headers. *)
Lemma keeps_hupd m i p f b sb : (∀ h, payload (f h) = payload h) → (i < 9)%nat →
  (p ≠ 0 → dmap_to_phys p ∈ L i) → sl !! b = Some sb → keeps m (hupd p f m) b (s_free sb = []).
Proof.
  intros Hf Hi Hp Hb. unfold hupd. destruct (Z.eqb_spec p 0) as [|Hn]; [apply keeps_refl|].
  apply (keeps_redirect m (Some (dmap_to_phys p))); [done|]. intros Hfull [= E].
  apply Hp, (ls_mem _ _ _ _ _ F) in Hn as (sj & Hj & _ & Hne); [|done]. rewrite E in Hj. by simplify_eq.
Qed.

(** A slab leaves its list, as [unlink_header] does it. *)
Lemma lists_unlink i a h sl' : (i < 9)%nat → a ∈ L i → hs !! a = Some h →
  (∀ b, b ≠ a → sl' !! b = sl !! b) → (∀ si, sl' !! a = Some si → s_free si = []) →
  ∃ L', lists_ok d (hupd (hdr_next h) (set_hdr_prev (hdr_prev h)) (hupd (hdr_prev h) (set_hdr_next (hdr_next h)) hs))
          (if hdr_prev h =? 0 then <[i := hdr_next h]> cs else cs) sl' L' ∧
        (∀ j b, (j < 9)%nat → b ∈ L' j → b ∈ L j ∧ b ≠ a) ∧
        (hdr_next h ≠ 0 → dmap_to_phys (hdr_next h) ∈ L i ∧ dmap_to_phys (hdr_next h) ≠ a) ∧
        (hdr_prev h ≠ 0 → dmap_to_phys (hdr_prev h) ∈ L i ∧ dmap_to_phys (hdr_prev h) ≠ a).
Proof.
  intros Hi Hin Hh Hsl Ha'. destruct (list_elem_of_split _ _ Hin) as (L1 & L2 & EL).
  destruct (ls_dll _ _ _ _ _ F i Hi) as (p & Hp & Hl). pose proof (ls_nodup _ _ _ _ _ F i Hi) as Hnd.
  rewrite EL in Hl, Hnd.
  destruct (dll_unlink (emb d) hs p L1 a L2 h Hnd Hl Hh) as (Ep & En & Hl'). cbn [node_prev node_next Header_node] in Ep, En.
  assert (∀ c, c ∈ L1 ++ L2 → c ∈ L i ∧ c ≠ a) as Hsub.
  { intros c Hc. rewrite EL. apply NoDup_app in Hnd as (_ & Hd & [Ha2 _]%NoDup_cons).
    split; [set_solver|]. intros ->. apply elem_of_app in Hc as [Hc|Hc]; [|done].
    apply (Hd a Hc). set_solver. }
  assert (∀ c, last L1 = Some c → c ∈ L i ∧ c ≠ a) as Hlast.
  { intros c E%last_Some_elem_of. apply Hsub. set_solver. }
  assert (∀ c, head L2 = Some c → c ∈ L i ∧ c ≠ a) as Hhead.
  { intros c E%head_Some_elem_of. apply Hsub. set_solver. }
  assert (∀ o c, o = Some c → (c ∈ L i ∧ c ≠ a) → emb d c ≠ 0 ∧ dmap_to_phys (emb d c) = c) as Hemb.
  { intros o c _ [Hc _]. destruct (member_phys i c Hi Hc). by rewrite emb_zero, emb_phys. }
  rewrite Ep, En, !hupd_redirect by (intros c Hc; apply (member_phys i); [done|first [exact (proj1 (Hlast c Hc))|exact (proj1 (Hhead c Hc))]]).
  cbn [node_set_next node_set_prev Header_node node_next node_prev] in Hl'. rewrite Ep, En in Hl'.
  exists (put_list i (L1 ++ L2)). split; [|split; [|split]].
  - split.
    + destruct (_ =? 0); [rewrite length_insert|]; apply F.
    + intros j Hj. destruct (decide (j = i)) as [->|Hne].
      * rewrite put_list_eq. destruct (last L1) as [c|] eqn:E; cbn [from_option].
        -- destruct (Hemb _ c E (Hlast c eq_refl)) as [Hc0 _]. rewrite (proj2 (Z.eqb_neq _ _) Hc0). by exists p.
        -- rewrite Z.eqb_refl. eexists. rewrite list_lookup_insert_eq; [done|]. by apply lookup_lt_Some in Hp.
      * rewrite put_list_ne by done. destruct (ls_dll _ _ _ _ _ F j Hj) as (p' & Hp' & Hlj). exists p'.
        split; [destruct (_ =? 0); [rewrite list_lookup_insert_ne by done|]; done|].
        apply (dll_frame (emb d) hs); [|done]. intros c Hc.
        assert (∀ e, e ∈ L i → e ≠ c) as Hd.
        { intros e He ->. by destruct (Hne (lists_other _ _ _ _ _ j i c F Hj Hi Hc He)). }
        rewrite !redirect_lookup_ne; [done|intros E; by destruct (Hd c (proj1 (Hlast c E)))|
          intros E; by destruct (Hd c (proj1 (Hhead c E)))].
    + intros j Hj. unfold put_list. case_decide; [|by apply F]. apply NoDup_app in Hnd as (N1 & Nd & [Na N2]%NoDup_cons).
      apply NoDup_app. split; [done|]. split; [|done]. intros c Hc Hc2. apply (Nd c Hc). set_solver.
    + intros j b Hj. destruct (decide (b = a)) as [->|Hb].
      * split; [|intros (si & Hs & _ & Hf); by rewrite (Ha' si Hs) in Hf].
        unfold put_list. case_decide as Ej; [intros Hc; by destruct (Hsub a Hc)|].
        intros Hc. by destruct (Ej (lists_other _ _ _ _ _ j i a F Hj Hi Hc Hin)).
      * rewrite Hsl by done. rewrite <- (ls_mem _ _ _ _ _ F) by done. unfold put_list. case_decide; [|done].
        subst. rewrite EL. set_solver.
  - intros j b Hj. unfold put_list. case_decide as Ej; [subst; apply Hsub|]. intros Hb. split; [done|].
    intros ->. by destruct (Ej (lists_other _ _ _ _ _ j i a F Hj Hi Hb Hin)).
  - destruct (head L2) as [c|] eqn:E; [|done]. intros _. cbn [from_option].
    destruct (Hemb _ c E (Hhead c eq_refl)) as [_ ->]. by apply Hhead.
  - destruct (last L1) as [c|] eqn:E; [|done]. intros _. cbn [from_option].
    destruct (Hemb _ c E (Hlast c eq_refl)) as [_ ->]. by apply Hlast.
Qed.

(** A slab enters the front of its list. *)
Lemma lists_push i a p n si hs1 sl' : (i < 9)%nat → cs !! i = Some p → (∀ j, (j < 9)%nat → a ∉ L j) →
  hs1 !! a = Some n → hdr_next n = p → hdr_prev n = 0 → (∀ b, b ≠ a → hs1 !! b = hs !! b) →
  (∀ b, b ≠ a → sl' !! b = sl !! b) → sl' !! a = Some si → s_class si = i → s_free si ≠ [] →
  lists_ok d (hupd p (set_hdr_prev (emb d a)) hs1) (<[i := emb d a]> cs) sl' (put_list i (a :: L i)) ∧
  (p ≠ 0 → dmap_to_phys p ∈ L i).
Proof.
  intros Hi Hp Ha Hn Hnx Hpv Hhs Hsl Hsa Hc Hf. destruct (lists_head _ _ _ _ _ _ _ F Hi Hp) as [Ep Hl].
  assert (∀ c, head (L i) = Some c → c ∈ L i) as Hhd by (intros c E%head_Some_elem_of; done).
  rewrite Ep, hupd_redirect by (intros c E; apply (member_phys i); auto).
  assert (hs1 = <[a := n]> hs) as ->.
  { apply map_eq. intros b. destruct (decide (b = a)) as [->|Hb]; [by rewrite lookup_insert_eq|].
    rewrite lookup_insert_ne by done. by apply Hhs. }
  split; cycle 1.
  { destruct (head (L i)) as [c|] eqn:E; [|done]. cbn. intros _. destruct (member_phys i c Hi (Hhd c eq_refl)).
    rewrite emb_phys by done. by apply Hhd. }
  split.
  - rewrite length_insert. apply F.
  - intros j Hj. destruct (decide (j = i)) as [->|Hne].
    + exists (emb d a). rewrite put_list_eq, list_lookup_insert_eq by (by apply lookup_lt_Some in Hp). split; [done|].
      refine (dll_push (emb d) hs p (L i) a n _ Hl Hnx Hpv). apply NoDup_cons. split; [by apply Ha|by apply F].
    + destruct (ls_dll _ _ _ _ _ F j Hj) as (p' & Hp' & Hlj). exists p'.
      rewrite put_list_ne, list_lookup_insert_ne by done. split; [done|].
      apply (dll_frame (emb d) hs); [|done]. intros c Hcj.
      rewrite redirect_lookup_ne, lookup_insert_ne; [done|intros ->; by apply (Ha j)|].
      intros E. by destruct (Hne (lists_other _ _ _ _ _ j i c F Hj Hi Hcj (Hhd c E))).
  - intros j Hj. unfold put_list. case_decide; [subst|by apply F]. apply NoDup_cons. split; [by apply Ha|by apply F].
  - intros j b Hj. destruct (decide (b = a)) as [->|Hb].
    + unfold put_list. case_decide as Ej; [subst; split; [eauto|set_solver]|].
      split; [intros Hin; by apply Ha in Hin|]. intros (sj & Hs & Hcj & _). simplify_eq.
    + rewrite Hsl by done. rewrite <- (ls_mem _ _ _ _ _ F) by done. unfold put_list. case_decide; [subst|done]. set_solver.
Qed.
End lists.
