(* ===== verification/SlabRep.v ===== *)
(** * The abstract state of the slab allocator

    The representation invariant and, for each way the code changes it, the
    lemma that the abstract state changes accordingly. *)

From S2P Require Import Prelude Vm Sync PageAlloc Dll PageInv PageSpec Slab SlabInv.

Section rep.
Context `{T : AddressTranslator} {TL : AddressTranslatorLaws T}.
Implicit Types (sl : gmap Z sinfo) (al : gmap Z ainfo) (own ext : gmap Z Z).

(** Owned blocks, as the page source guarantees them. *)
Record own_geom own : Prop := {
  og_block a o : own !! a = Some o → 0 < a ∧ a + span o ≤ 2 ^ VA_WIDTH ∧ (PAGE_SIZE | a) ∧ 0 ≤ o;
  og_disjoint a o b o' : own !! a = Some o → own !! b = Some o' → a ≠ b →
    a + span o ≤ b ∨ b + span o' ≤ a
}.

(** [sl] are the slabs, [al] the live allocations, [ext] the pages that were
    handed out whole, [own] all blocks taken from the page source. *)
Record rep (d : bool) (hs : gmap Z Header) (w : gmap Z Z) (cs : list Z) own sl al ext : Prop := {
  r_slabs a si : sl !! a = Some si → own !! a = Some 0 ∧ slab_ok d hs w a si;
  r_lists : ∃ L, lists_ok d hs cs sl L;
  r_alloc x ai : al !! x = Some ai → layout_ok (a_layout ai) ∧ placed d w sl own x ai;
  r_live a si x : sl !! a = Some si → is_obj a (s_class si) x → x ∉ s_free si →
    ∃ ai, al !! x = Some ai ∧ a_block ai = a ∧ a_class ai = Some (s_class si);
  r_uniq x y ai aj : al !! x = Some ai → al !! y = Some aj → a_class ai = None → a_class aj = None →
    a_block ai = a_block aj → x = y;
  r_pages a o : own !! a = Some o → is_Some (sl !! a) ∨
    (∃ x ai, al !! x = Some ai ∧ a_class ai = None ∧ a_block ai = a) ∨ ext !! a = Some o;
  r_ext a o : ext !! a = Some o → own !! a = Some o ∧ sl !! a = None ∧
    (∀ x ai, al !! x = Some ai → a_class ai = None → a_block ai ≠ a)
}.

Section facts.
Context (d : bool) (hs : gmap Z Header) (w : gmap Z Z) (cs : list Z) (own : gmap Z Z) (sl : gmap Z sinfo) (al : gmap Z ainfo) (ext : gmap Z Z).
Context (G : own_geom own) (R : rep d hs w cs own sl al ext).

Lemma span_0 : span 0 = PAGE_SIZE.
Proof. unfold span. lia. Qed.

Lemma span_pos o : 0 ≤ o → PAGE_SIZE ≤ span o.
Proof. intros Ho. unfold span. pose proof (pow2_pos o Ho). change PAGE_SIZE with 16384. lia. Qed.

(** An address is in at most one block. *)
Lemma same_block a o b o' x : own !! a = Some o → own !! b = Some o' →
  a ≤ x < a + span o → b ≤ x < b + span o' → a = b.
Proof.
  intros Ha Hb Hxa Hxb. destruct (decide (a = b)) as [|Hne]; [done|].
  destruct (og_disjoint _ G a o b o' Ha Hb Hne); lia.
Qed.

Lemma owned_phys a o k : own !! a = Some o → 0 ≤ k < span o → phys_addr (a + k) ∧ a + k ≠ 0.
Proof. intros Ha Hk. destruct (og_block _ G a o Ha) as (? & ? & ? & ?). unfold phys_addr. lia. Qed.

Lemma block_emb a o k : own !! a = Some o → 0 ≤ k < span o → emb d (a + k) = emb d a + k.
Proof.
  intros Ha Hk. destruct (owned_phys a o k Ha Hk), (owned_phys a o 0 Ha ltac:(lia)). rewrite Z.add_0_r in *.
  by apply emb_add.
Qed.

Lemma slab_phys a si : sl !! a = Some si → phys_addr a ∧ a ≠ 0.
Proof.
  intros [Ho _]%(r_slabs _ _ _ _ _ _ _ _ R). rewrite <- (Z.add_0_r a). apply (owned_phys a 0); [done|].
  by rewrite span_0.
Qed.

(** The objects of a slab are in its page. *)
Lemma obj_in_page a si x : sl !! a = Some si → is_obj a (s_class si) x →
  a + SIZE_OF_HEADER ≤ x ∧ x + class_size (s_class si) ≤ a + span 0 ∧ 8 ≤ class_size (s_class si) ∧
  phys_addr x ∧ x ≠ 0 ∧ emb d x = emb d a + (x - a).
Proof.
  intros Ha Hx. destruct (r_slabs _ _ _ _ _ _ _ _ R a si Ha) as [Ho [Hc _ _ _ _]].
  destruct (is_obj_range a _ x Hc Hx). destruct (class_facts _ Hc). rewrite span_0.
  unfold SIZE_OF_HEADER in *. assert (0 ≤ x - a < span 0) as Hk by (rewrite span_0; lia).
  destruct (owned_phys a 0 (x - a) Ho Hk) as [Hp Hp0]. pose proof (block_emb a 0 (x - a) Ho Hk) as He.
  replace (a + (x - a)) with x in Hp, Hp0, He by lia. split_and!; (done || lia).
Qed.

(** A live allocation lies in its block. *)
Lemma live_in_block x ai : al !! x = Some ai → ∃ o, own !! a_block ai = Some o ∧
  a_block ai ≤ x ∧ x + a_size ai ≤ a_block ai + span o ∧ 0 < a_size ai.
Proof.
  intros Hx. destruct (r_alloc _ _ _ _ _ _ _ _ R x ai Hx) as [[Hl _] Hp]. unfold placed in Hp.
  pose proof (size_class_index_spec (a_size ai)) as Hs. unfold a_class in Hp.
  assert (0 < a_size ai) as Hpos by (unfold a_size; lia).
  destruct (size_class_index (a_size ai)) as [i|].
  - destruct Hp as (si & Hsl & <- & Ho & _). exists 0. pose proof (obj_in_page _ _ _ Hsl Ho) as (? & ? & ?).
    unfold SIZE_OF_HEADER in *. split; [by eapply (r_slabs _ _ _ _ _ _ _ _ R)|]. lia.
  - destruct Hp as (_ & o & Ho & ? & ? & _). eauto.
Qed.

(** Free objects are not live. *)
Lemma free_not_live a si x : sl !! a = Some si → x ∈ s_free si → al !! x = None.
Proof.
  intros Ha Hx. destruct (al !! x) as [ai|] eqn:E; [|done]. exfalso.
  destruct (r_slabs _ _ _ _ _ _ _ _ R a si Ha) as [Ho S].
  pose proof (obj_in_page a si x Ha (so_obj _ _ _ _ _ S x Hx)) as (? & ? & ? & _). unfold SIZE_OF_HEADER in *.
  destruct (live_in_block x ai E) as (o & Hb & ? & ? & ?).
  assert (a_block ai = a) as Eb by (apply (same_block _ o _ 0 x); (done || lia)).
  destruct (r_alloc _ _ _ _ _ _ _ _ R x ai E) as [_ Hp]. unfold placed in Hp. rewrite Eb, Ha in Hp.
  destruct (a_class ai); [|naive_solver]. destruct Hp as (si' & [= <-] & _ & _ & Hn). done.
Qed.

(** Two live allocations do not overlap. *)
Lemma live_disjoint x y ai aj : al !! x = Some ai → al !! y = Some aj → x ≠ y →
  x + a_size ai ≤ y ∨ y + a_size aj ≤ x.
Proof.
  intros Hx Hy Hne. destruct (live_in_block x ai Hx) as (o & Ho & ? & ? & ?).
  destruct (live_in_block y aj Hy) as (o' & Ho' & ? & ? & ?).
  destruct (decide (a_block ai = a_block aj)) as [E|Hb]; cycle 1.
  { destruct (og_disjoint _ G _ _ _ _ Ho Ho' Hb); lia. }
  destruct (r_alloc _ _ _ _ _ _ _ _ R x ai Hx) as [_ Px]. destruct (r_alloc _ _ _ _ _ _ _ _ R y aj Hy) as [_ Py].
  unfold placed in Px, Py. rewrite <- E in Py. pose proof (size_class_index_spec (a_size ai)).
  pose proof (size_class_index_spec (a_size aj)).
  destruct (a_class ai) as [i|] eqn:Ei, (a_class aj) as [j|] eqn:Ej; unfold a_class in Ei, Ej; rewrite ?Ei, ?Ej in *.
  - destruct Px as (si & Hs & <- & Ox & _), Py as (sj & Hs' & <- & Oy & _). simplify_eq.
    destruct (r_slabs _ _ _ _ _ _ _ _ R _ _ Hs) as [_ [Hc _ _ _ _]].
    destruct (is_obj_disjoint _ _ x y Hc Ox Oy Hne); lia.
  - naive_solver.
  - naive_solver.
  - exfalso. by apply Hne, (r_uniq _ _ _ _ _ _ _ _ R x y ai aj).
Qed.

(** The words that the code reads are outside what changes elsewhere. *)
Lemma placed_frame sl' own' w' y aj : al !! y = Some aj →
  (∀ si, sl !! a_block aj = Some si → ∃ si', sl' !! a_block aj = Some si' ∧ s_class si' = s_class si ∧
     (y ∉ s_free si → y ∉ s_free si')) →
  (sl !! a_block aj = None → sl' !! a_block aj = None ∧ own' !! a_block aj = own !! a_block aj) →
  (∀ o, own !! a_block aj = Some o → sl !! a_block aj = None → a_block aj ≤ y - 8 < a_block aj + span o →
     w' !! (y - 8) = w !! (y - 8)) →
  placed d w' sl' own' y aj.
Proof.
  intros Hy Hs Hn Hw. destruct (r_alloc _ _ _ _ _ _ _ _ R y aj Hy) as [_ Hp].
  destruct (live_in_block y aj Hy) as (o' & Ho' & ? & ? & ?). unfold placed in *. destruct (a_class aj) as [i|].
  - destruct Hp as (si & Hsl & Hc & Ho & Hf). destruct (Hs si Hsl) as (si' & Hsl' & Hc' & Hf').
    exists si'. split; [done|]. split; [congruence|]. auto.
  - destruct Hp as (Hsl & o & Ho & ? & ? & Hb). destruct (Hn Hsl) as [Hsl' Hown]. split; [done|]. exists o.
    split; [congruence|]. split; [done|]. split; [done|]. destruct (_ <=? _); [done|]. destruct Hb as [? Hb].
    split; [done|]. rewrite (Hw o) by (done || lia). done.
Qed.

(** An allocation takes the first free object of a slab. *)
Lemma rep_take a si x f hs' cs' l (si' := {| s_class := s_class si; s_free := f |})
    (ai := {| a_layout := l; a_block := a |}) :
  sl !! a = Some si → s_free si = x :: f → a_class ai = Some (s_class si) → layout_ok l →
  slab_ok d hs' w a si' → (∀ b sb, b ≠ a → sl !! b = Some sb → keeps hs hs' b (s_free sb = [])) →
  (∃ L', lists_ok d hs' cs' (<[a := si']> sl) L') →
  rep d hs' w cs' own (<[a := si']> sl) (<[x := ai]> al) ext.
Proof.
  intros Ha Hf Hcl Hl Hok Hk HL. destruct (r_slabs _ _ _ _ _ _ _ _ R a si Ha) as [Ho S].
  pose proof (so_nodup _ _ _ _ _ S) as Hnd. rewrite Hf in Hnd. apply NoDup_cons in Hnd as [Hx Hnd].
  assert (is_obj a (s_class si) x) as Hobj by (apply (so_obj _ _ _ _ _ S); rewrite Hf; set_solver).
  pose proof (free_not_live a si x Ha ltac:(rewrite Hf; set_solver)) as Hnl. split.
  - intros b sb [[<- <-]|[Hne Hb]]%lookup_insert_Some; [done|].
    destruct (r_slabs _ _ _ _ _ _ _ _ R b sb Hb) as [Hob Sb]. split; [done|]. eapply slab_ok_frame; eauto.
  - done.
  - intros y aj [[<- <-]|[Hne Hy]]%lookup_insert_Some.
    + split; [done|]. unfold placed. rewrite Hcl. exists si'. rewrite lookup_insert_eq. done.
    + split; [by eapply (r_alloc _ _ _ _ _ _ _ _ R)|]. apply placed_frame; [done|..|done].
      * intros sb Hb. destruct (decide (a_block aj = a)) as [E|Hneb].
        -- rewrite E in *. simplify_eq. exists si'. rewrite lookup_insert_eq, Hf. set_solver.
        -- exists sb. by rewrite lookup_insert_ne.
      * intros Hb. rewrite lookup_insert_ne by congruence. done.
  - intros b sb y [[<- <-]|[Hne Hb]]%lookup_insert_Some Hoy Hfy.
    + destruct (decide (y = x)) as [->|Hyx]; [exists ai; by rewrite lookup_insert_eq|].
      rewrite lookup_insert_ne by done. apply (r_live _ _ _ _ _ _ _ _ R a si y Ha Hoy). rewrite Hf. set_solver.
    + destruct (r_live _ _ _ _ _ _ _ _ R b sb y Hb Hoy Hfy) as (aj & Hy & E). exists aj.
      rewrite lookup_insert_ne by congruence. done.
  - intros y z aj ak [[<- <-]|[Hne Hy]]%lookup_insert_Some [[<- <-]|[Hne' Hz]]%lookup_insert_Some Hcj Hck;
      try congruence. by apply (r_uniq _ _ _ _ _ _ _ _ R).
  - intros b o Hb. destruct (r_pages _ _ _ _ _ _ _ _ R b o Hb) as [H|[(y & aj & Hy & Hc & E)|H]]; [left|right; left|by right; right].
    + by rewrite lookup_insert_is_Some'; right.
    + exists y, aj. rewrite lookup_insert_ne by congruence. done.
  - intros b o Hb. destruct (r_ext _ _ _ _ _ _ _ _ R b o Hb) as (Hob & Hsb & Hn). split; [done|].
    split; [rewrite lookup_insert_ne; congruence|].
    intros y aj [[<- <-]|[Hne Hy]]%lookup_insert_Some Hc; [congruence|by apply (Hn y)].
Qed.

(** An object goes back to its slab, which keeps other live objects. *)
Lemma rep_give x ai a si hs' w' cs' (si' := {| s_class := s_class si; s_free := x :: s_free si |}) :
  al !! x = Some ai → a_class ai = Some (s_class si) → a_block ai = a → sl !! a = Some si →
  slab_ok d hs' w' a si' → (∀ b sb, b ≠ a → sl !! b = Some sb → keeps hs hs' b (s_free sb = [])) →
  (∀ y, y ≠ x → w' !! y = w !! y) → (∃ L', lists_ok d hs' cs' (<[a := si']> sl) L') →
  rep d hs' w' cs' own (<[a := si']> sl) (delete x al) ext.
Proof.
  intros Hx Hcl Hblk Ha Hok Hk Hw HL. destruct (r_slabs _ _ _ _ _ _ _ _ R a si Ha) as [Ho S].
  assert (is_obj a (s_class si) x) as Hobj by (apply (so_obj _ _ _ _ _ Hok); cbn; set_solver).
  pose proof (obj_in_page a si x Ha Hobj) as (? & ? & ? & _). unfold SIZE_OF_HEADER in *. split.
  - intros b sb [[<- <-]|[Hne Hb]]%lookup_insert_Some; [done|].
    destruct (r_slabs _ _ _ _ _ _ _ _ R b sb Hb) as [Hob Sb]. split; [done|]. eapply slab_ok_frame; eauto.
    intros y Hy. apply Hw. intros ->. pose proof (obj_in_page b sb x Hb Hy) as (? & ? & ? & _). unfold SIZE_OF_HEADER in *.
    apply Hne, (same_block a 0 b 0 x); (done || lia).
  - done.
  - intros y aj [Hne Hy]%lookup_delete_Some. split; [by eapply (r_alloc _ _ _ _ _ _ _ _ R)|]. apply placed_frame; [done|..].
    + intros sb Hb. destruct (decide (a_block aj = a)) as [E|Hneb].
      * rewrite E in *. simplify_eq. exists si'. rewrite lookup_insert_eq. cbn. set_solver.
      * exists sb. by rewrite lookup_insert_ne.
    + intros Hb. rewrite lookup_insert_ne by congruence. done.
    + intros o Hoo Hn Hr. apply Hw. intros E. assert (a = a_block aj); [|congruence].
      apply (same_block a 0 _ o x); (done || lia).
  - intros b sb y [[<- <-]|[Hne Hb]]%lookup_insert_Some Hoy Hfy.
    + cbn in Hoy, Hfy. rewrite lookup_delete_ne by set_solver. apply (r_live _ _ _ _ _ _ _ _ R a si y Ha Hoy). set_solver.
    + destruct (r_live _ _ _ _ _ _ _ _ R b sb y Hb Hoy Hfy) as (aj & Hy & E). exists aj.
      rewrite lookup_delete_ne by (intros <-; naive_solver). done.
  - intros y z aj ak [_ Hy]%lookup_delete_Some [_ Hz]%lookup_delete_Some. by apply (r_uniq _ _ _ _ _ _ _ _ R).
  - intros b o Hb. destruct (r_pages _ _ _ _ _ _ _ _ R b o Hb) as [H'|[(y & aj & Hy & Hc & E)|H']]; [left|right; left|by right; right].
    + by rewrite lookup_insert_is_Some'; right.
    + exists y, aj. rewrite lookup_delete_ne by congruence. done.
  - intros b o Hb. destruct (r_ext _ _ _ _ _ _ _ _ R b o Hb) as (Hob & Hsb & Hn). split; [done|].
    split; [rewrite lookup_insert_ne; congruence|]. intros y aj [_ Hy]%lookup_delete_Some. by apply (Hn y).
Qed.

(** A slab with every object free but one, which is being freed. *)
Lemma slab_full a i l : (i < 9)%nat → NoDup l → (∀ x, x ∈ l → is_obj a i x) → Z.of_nat (length l) = cap i →
  ∀ x, is_obj a i x → x ∈ l.
Proof.
  intros Hi Hnd Hob Hlen x (k & Hk & ->). set (all := obj a i <$> seqZ 0 (cap i)).
  assert (l ⊆+ all) as Hsub.
  { apply NoDup_submseteq; [done|]. intros y (j & Hj & ->)%Hob. apply list_elem_of_fmap. exists j.
    split; [done|]. apply elem_of_seqZ. lia. }
  apply submseteq_length_Permutation in Hsub.
  - rewrite Hsub. apply list_elem_of_fmap. exists k. split; [done|]. apply elem_of_seqZ. lia.
  - unfold all. rewrite length_fmap, length_seqZ. lia.
Qed.

Lemma rep_drop x ai a si hs' w' cs' :
  al !! x = Some ai → a_class ai = Some (s_class si) → a_block ai = a → sl !! a = Some si →
  Z.of_nat (length (x :: s_free si)) = cap (s_class si) →
  (∀ b sb, b ≠ a → sl !! b = Some sb → keeps hs hs' b (s_free sb = [])) →
  (∀ y, y ≠ x → w' !! y = w !! y) → (∃ L', lists_ok d hs' cs' (delete a sl) L') →
  rep d hs' w' cs' (delete a own) (delete a sl) (delete x al) ext.
Proof.
  intros Hx Hcl Hblk Ha Hlen Hk Hw HL. destruct (r_slabs _ _ _ _ _ _ _ _ R a si Ha) as [Ho S].
  destruct (r_alloc _ _ _ _ _ _ _ _ R x ai Hx) as [_ Hpl]. unfold placed in Hpl. rewrite Hcl, Hblk in Hpl.
  destruct Hpl as (si0 & Ha0 & _ & Hobj & Hnf). assert (si0 = si) as -> by congruence.
  pose proof (obj_in_page _ _ _ Ha Hobj) as (? & ? & ? & _). unfold SIZE_OF_HEADER in *.
  assert (∀ y aj, y ≠ x → al !! y = Some aj → a_block aj ≠ a) as Hoth.
  { intros y aj Hne Hy E. destruct (r_alloc _ _ _ _ _ _ _ _ R y aj Hy) as [_ Hp]. unfold placed in Hp.
    rewrite E, Ha in Hp. destruct (a_class aj); [|naive_solver]. destruct Hp as (sj & [= <-] & <- & Hoy & Hny).
    assert (y ∈ x :: s_free si) as Hin; [|set_solver].
    apply (slab_full a (s_class si)); [apply S| | |done|done].
    - apply NoDup_cons. split; [done|apply S].
    - intros z [->|Hz]%elem_of_cons; [done|by apply S]. }
  split.
  - intros b sb [Hne Hb]%lookup_delete_Some. destruct (r_slabs _ _ _ _ _ _ _ _ R b sb Hb) as [Hob Sb].
    rewrite lookup_delete_ne by done. split; [done|]. eapply slab_ok_frame; eauto.
    intros y Hy. apply Hw. intros ->. pose proof (obj_in_page b sb x Hb Hy) as (? & ? & ? & _). unfold SIZE_OF_HEADER in *.
    apply Hne, (same_block a 0 b 0 x); (done || lia).
  - done.
  - intros y aj [Hne Hy]%lookup_delete_Some. specialize (Hoth y aj ltac:(done) Hy).
    split; [by eapply (r_alloc _ _ _ _ _ _ _ _ R)|]. apply placed_frame; [done|..].
    + intros sb Hb. exists sb. by rewrite lookup_delete_ne.
    + intros Hb. by rewrite !lookup_delete_ne.
    + intros o Hoo Hn Hr. apply Hw. intros E. apply Hoth. symmetry. apply (same_block a 0 _ o x); (done || lia).
  - intros b sb y [Hne Hb]%lookup_delete_Some Hoy Hfy.
    destruct (r_live _ _ _ _ _ _ _ _ R b sb y Hb Hoy Hfy) as (aj & Hy & E & ?). exists aj.
    rewrite lookup_delete_ne; [done|]. intros <-. apply Hne. congruence.
  - intros y z aj ak [_ Hy]%lookup_delete_Some [_ Hz]%lookup_delete_Some. by apply (r_uniq _ _ _ _ _ _ _ _ R).
  - intros b o [Hne Hb]%lookup_delete_Some.
    destruct (r_pages _ _ _ _ _ _ _ _ R b o Hb) as [H'|[(y & aj & Hy & Hc & E)|H']]; [left|right; left|by right; right].
    + by rewrite lookup_delete_ne.
    + exists y, aj. rewrite lookup_delete_ne by congruence. done.
  - intros b o Hb. destruct (r_ext _ _ _ _ _ _ _ _ R b o Hb) as (Hob & Hsb & Hn).
    rewrite !lookup_delete_ne by congruence. split; [done|].
    split; [done|]. intros y aj [_ Hy]%lookup_delete_Some. by apply (Hn y).
Qed.

(** The page source hands out a new block; [in_new] are its addresses. *)
Section grow.
Context (a o : Z) (Hnew : own !! a = None) (G' : own_geom (<[a := o]> own)).

Lemma old_outside b o' x : own !! b = Some o' → b ≤ x < b + span o' → ¬ (a ≤ x < a + span o).
Proof.
  intros Hb Hx Hxa. assert (b ≠ a) by congruence.
  destruct (og_disjoint _ G' a o b o'); [by rewrite lookup_insert_eq|by rewrite lookup_insert_ne|done|lia|lia].
Qed.

Lemma old_block_ne x aj : al !! x = Some aj → a_block aj ≠ a.
Proof. intros Hx E. destruct (live_in_block x aj Hx) as (o' & Ho & _). congruence. Qed.

Lemma old_object_ne x y aj : al !! x = Some aj → a ≤ y < a + span o → x ≠ y.
Proof.
  intros Hx Hy ->. destruct (live_in_block y aj Hx) as (o' & Ho & ? & ? & ?).
  apply (old_outside _ o' y Ho); [lia|done].
Qed.

(** What is there already is unaffected by changes inside the new block. *)
Lemma grow_slab hs' w' b sb : sl !! b = Some sb → keeps hs hs' b (s_free sb = []) →
  (∀ y, ¬ (a ≤ y < a + span o) → w' !! y = w !! y) →
  <[a := o]> own !! b = Some 0 ∧ slab_ok d hs' w' b sb.
Proof.
  intros Hb Hk Hw. destruct (r_slabs _ _ _ _ _ _ _ _ R b sb Hb) as [Hob Sb].
  split; [rewrite lookup_insert_ne by congruence; done|]. eapply slab_ok_frame; eauto.
  intros y Hy. apply Hw. pose proof (obj_in_page b sb y Hb Hy) as (? & ? & ? & _). unfold SIZE_OF_HEADER in *.
  apply (old_outside b 0); [done|lia].
Qed.

Lemma grow_placed sl' w' y aj : al !! y = Some aj → (∀ b, b ≠ a → sl' !! b = sl !! b) →
  (∀ y, ¬ (a ≤ y < a + span o) → w' !! y = w !! y) → placed d w' sl' (<[a := o]> own) y aj.
Proof.
  intros Hy Hsl Hw. pose proof (old_block_ne y aj Hy) as Hne. apply placed_frame; [done|..].
  - intros sb Hb. exists sb. by rewrite Hsl.
  - intros Hb. rewrite Hsl, lookup_insert_ne by done. done.
  - intros o' Ho' _ Hr. apply Hw. by apply (old_outside (a_block aj) o').
Qed.

(** A new slab with its first object taken. *)
Lemma rep_new_slab si hs' w' cs' l (ai := {| a_layout := l; a_block := a |}) : o = 0 →
  a_class ai = Some (s_class si) → layout_ok l → s_free si = obj a (s_class si) <$> seqZ 1 (cap (s_class si) - 1) →
  slab_ok d hs' w' a si → (∀ b sb, b ≠ a → sl !! b = Some sb → keeps hs hs' b (s_free sb = [])) →
  (∀ y, ¬ (a ≤ y < a + span o) → w' !! y = w !! y) → (∃ L', lists_ok d hs' cs' (<[a := si]> sl) L') →
  rep d hs' w' cs' (<[a := o]> own) (<[a := si]> sl) (<[obj a (s_class si) 0 := ai]> al) ext ∧
  al !! obj a (s_class si) 0 = None.
Proof.
  intros Ho0 Hcl Hl Hf S Hk Hw HL. pose proof (so_class _ _ _ _ _ S) as Hc. destruct (class_facts _ Hc).
  set (x := obj a (s_class si) 0) in *. assert (is_obj a (s_class si) x) as Hobj by (exists 0; split; [lia|done]).
  destruct (is_obj_range _ _ _ Hc Hobj). unfold SIZE_OF_HEADER in *.
  assert (a ≤ x < a + span o) as Hxr by (rewrite Ho0, span_0; lia).
  assert (al !! x = None) as Hnl.
  { destruct (al !! x) as [aj|] eqn:E; [|done]. by destruct (old_object_ne x x aj E Hxr). }
  assert (∀ b sb, sl !! b = Some sb → b ≠ a) as Hsne.
  { intros b sb Hb ->. destruct (r_slabs _ _ _ _ _ _ _ _ R a sb Hb). congruence. }
  assert (x ∉ s_free si) as Hxf.
  { rewrite Hf, list_elem_of_fmap. intros (k & Ek & Hkr%elem_of_seqZ). unfold x, obj in Ek. nia. }
  split; [|done]. split.
  - intros b sb [[<- <-]|[Hne Hb]]%lookup_insert_Some; [by rewrite lookup_insert_eq, Ho0|].
    apply grow_slab; try done. by apply Hk.
  - done.
  - intros y aj [[<- <-]|[Hne Hy]]%lookup_insert_Some.
    + split; [done|]. unfold placed. rewrite Hcl. exists si. by rewrite lookup_insert_eq.
    + split; [by eapply (r_alloc _ _ _ _ _ _ _ _ R)|]. apply grow_placed; [done| |done].
      intros b Hb. by rewrite lookup_insert_ne.
  - intros b sb y [[<- <-]|[Hne Hb]]%lookup_insert_Some Hoy Hfy.
    + destruct Hoy as (k & Hkr & ->). destruct (decide (k = 0)) as [->|Hk0]; [exists ai; by rewrite lookup_insert_eq|].
      exfalso. apply Hfy. rewrite Hf. apply list_elem_of_fmap. exists k. split; [done|]. apply elem_of_seqZ. lia.
    + destruct (r_live _ _ _ _ _ _ _ _ R b sb y Hb Hoy Hfy) as (aj & Hy & E). exists aj.
      rewrite lookup_insert_ne by congruence. done.
  - intros y z aj ak [[<- <-]|[Hne Hy]]%lookup_insert_Some [[<- <-]|[Hne' Hz]]%lookup_insert_Some Hcj Hck;
      try congruence. by apply (r_uniq _ _ _ _ _ _ _ _ R).
  - intros b o' [[<- <-]|[Hne Hb]]%lookup_insert_Some; [left; by rewrite lookup_insert_eq|].
    destruct (r_pages _ _ _ _ _ _ _ _ R b o' Hb) as [H'|[(y & aj & Hy & Hcj & E)|H']]; [left|right; left|by right; right].
    + by rewrite lookup_insert_is_Some'; right.
    + exists y, aj. rewrite lookup_insert_ne by congruence. done.
  - intros b o' Hb. destruct (r_ext _ _ _ _ _ _ _ _ R b o' Hb) as (Hob & Hsb & Hn).
    rewrite !lookup_insert_ne by congruence. split; [done|]. split; [done|].
    intros y aj [[<- <-]|[Hne Hy]]%lookup_insert_Some Hcj; [congruence|by apply (Hn y)].
Qed.

(** The new block becomes a large allocation. *)
Lemma rep_large x w' l (ai := {| a_layout := l; a_block := a |}) : layout_ok l → a_class ai = None →
  a ≤ x → x + a_size ai ≤ a + span o →
  (if layout_align l <=? PAGE_SIZE then x = a else a + 8 ≤ x ∧ w' !! (x - 8) = Some (emb d a) ∧ (layout_align l | emb d x)) →
  (∀ y, ¬ (a ≤ y < a + span o) → w' !! y = w !! y) →
  rep d hs w' cs (<[a := o]> own) sl (<[x := ai]> al) ext ∧ al !! x = None.
Proof.
  intros Hl Hcl Hx1 Hx2 Hbk Hw.
  assert (0 < a_size ai) as Hpos by (destruct Hl; unfold a_size, ai in *; cbn in *; lia).
  assert (al !! x = None) as Hnl.
  { destruct (al !! x) as [aj|] eqn:E; [|done]. destruct (old_object_ne x x aj E); [lia|done]. }
  assert (sl !! a = None) as Hsa.
  { destruct (sl !! a) as [sb|] eqn:E; [|done]. destruct (r_slabs _ _ _ _ _ _ _ _ R a sb E). congruence. }
  split; [|done]. split.
  - intros b sb Hb. apply grow_slab; try done. apply keeps_refl.
  - apply R.
  - intros y aj [[<- <-]|[Hne Hy]]%lookup_insert_Some.
    + split; [done|]. unfold placed. rewrite Hcl. split; [done|]. exists o. rewrite lookup_insert_eq. done.
    + split; [by eapply (r_alloc _ _ _ _ _ _ _ _ R)|]. by apply grow_placed.
  - intros b sb y Hb Hoy Hfy. destruct (r_live _ _ _ _ _ _ _ _ R b sb y Hb Hoy Hfy) as (aj & Hy & E). exists aj.
    rewrite lookup_insert_ne by congruence. done.
  - intros y z aj ak [[<- <-]|[Hne Hy]]%lookup_insert_Some [[<- <-]|[Hne' Hz]]%lookup_insert_Some Hcj Hck Eb; try done.
    + symmetry in Eb. by destruct (old_block_ne z ak Hz).
    + by destruct (old_block_ne y aj Hy).
    + by apply (r_uniq _ _ _ _ _ _ _ _ R y z aj ak).
  - intros b o' [[<- <-]|[Hne Hb]]%lookup_insert_Some; [right; left; exists x, ai; by rewrite lookup_insert_eq|].
    destruct (r_pages _ _ _ _ _ _ _ _ R b o' Hb) as [H'|[(y & aj & Hy & Hcj & E)|H']]; [by left|right; left|by right; right].
    exists y, aj. rewrite lookup_insert_ne by congruence. done.
  - intros b o' Hb. destruct (r_ext _ _ _ _ _ _ _ _ R b o' Hb) as (Hob & Hsb & Hn).
    rewrite lookup_insert_ne by congruence. split; [done|]. split; [done|].
    intros y aj [[<- <-]|[Hne Hy]]%lookup_insert_Some Hcj; [cbn; congruence|by apply (Hn y)].
Qed.

(** The new block is handed out as it is. *)
Lemma rep_hand_out : rep d hs w cs (<[a := o]> own) sl al (<[a := o]> ext).
Proof.
  split; try apply R.
  - intros b sb Hb. apply grow_slab; try done. apply keeps_refl.
  - intros y aj Hy. split; [by eapply (r_alloc _ _ _ _ _ _ _ _ R)|]. by apply grow_placed.
  - intros b o' [[<- <-]|[Hne Hb]]%lookup_insert_Some; [right; right; by rewrite lookup_insert_eq|].
    rewrite lookup_insert_ne by done. by apply (r_pages _ _ _ _ _ _ _ _ R).
  - intros b o' [[<- <-]|[Hne Hb]]%lookup_insert_Some.
    + rewrite lookup_insert_eq. split; [done|]. split; [|intros x ai Hx _; by apply (old_block_ne x)].
      destruct (sl !! a) as [sb|] eqn:E; [|done]. destruct (r_slabs _ _ _ _ _ _ _ _ R a sb E). congruence.
    + rewrite lookup_insert_ne by done. by apply (r_ext _ _ _ _ _ _ _ _ R).
Qed.
End grow.

(** A large allocation is freed, and its block goes back. *)
Lemma rep_unlarge x ai : al !! x = Some ai → a_class ai = None →
  rep d hs w cs (delete (a_block ai) own) sl (delete x al) ext.
Proof.
  intros Hx Hcl. destruct (r_alloc _ _ _ _ _ _ _ _ R x ai Hx) as [_ Hp]. unfold placed in Hp. rewrite Hcl in Hp.
  destruct Hp as [Hsa _]. set (a := a_block ai) in *. split.
  - intros b sb Hb. rewrite lookup_delete_ne by congruence. by apply (r_slabs _ _ _ _ _ _ _ _ R).
  - apply R.
  - intros y aj [Hne Hy]%lookup_delete_Some. split; [by eapply (r_alloc _ _ _ _ _ _ _ _ R)|].
    destruct (decide (a_block aj = a)) as [E|Hb].
    + destruct (r_alloc _ _ _ _ _ _ _ _ R y aj Hy) as [_ Hpy]. unfold placed in *. rewrite E, Hsa in Hpy.
      destruct (a_class aj) as [j|] eqn:Ej; [naive_solver|].
      by destruct (Hne (r_uniq _ _ _ _ _ _ _ _ R x y ai aj Hx Hy Hcl Ej (eq_sym E))).
    + apply placed_frame; [done|eauto| |done]. intros Hb'. by rewrite lookup_delete_ne.
  - intros b sb y Hb Hoy Hfy. destruct (r_live _ _ _ _ _ _ _ _ R b sb y Hb Hoy Hfy) as (aj & Hy & E). exists aj.
    rewrite lookup_delete_ne; [done|]. intros <-. naive_solver.
  - intros y z aj ak [_ Hy]%lookup_delete_Some [_ Hz]%lookup_delete_Some. by apply (r_uniq _ _ _ _ _ _ _ _ R).
  - intros b o' [Hne Hb]%lookup_delete_Some.
    destruct (r_pages _ _ _ _ _ _ _ _ R b o' Hb) as [H'|[(y & aj & Hy & Hcj & E)|H']]; [by left|right; left|by right; right].
    exists y, aj. rewrite lookup_delete_ne by (intros <-; unfold a in Hne; congruence). done.
  - intros b o' Hb. destruct (r_ext _ _ _ _ _ _ _ _ R b o' Hb) as (Hob & Hsb & Hn).
    pose proof (Hn x ai Hx Hcl). rewrite lookup_delete_ne by done. split; [done|]. split; [done|].
    intros y aj [_ Hy]%lookup_delete_Some. by apply (Hn y).
Qed.

Lemma rep_hand_back a o : ext !! a = Some o → rep d hs w cs (delete a own) sl al (delete a ext).
Proof.
  intros Ha. destruct (r_ext _ _ _ _ _ _ _ _ R a o Ha) as (Ho & Hsa & Hn). split; try apply R.
  - intros b sb Hb. rewrite lookup_delete_ne by congruence. by apply (r_slabs _ _ _ _ _ _ _ _ R).
  - intros y aj Hy. split; [by eapply (r_alloc _ _ _ _ _ _ _ _ R)|]. apply placed_frame; [done|eauto| |done].
    intros Hb. split; [done|]. apply lookup_delete_ne. intros Ea. destruct (a_class aj) eqn:E; [|by apply (Hn y aj)].
    destruct (r_alloc _ _ _ _ _ _ _ _ R y aj Hy) as [_ Hp]. unfold placed in Hp. rewrite E, Hb in Hp. naive_solver.
  - intros b o' [Hne Hb]%lookup_delete_Some. rewrite lookup_delete_ne by done. by apply (r_pages _ _ _ _ _ _ _ _ R).
  - intros b o' [Hne Hb]%lookup_delete_Some. rewrite lookup_delete_ne by done. by apply (r_ext _ _ _ _ _ _ _ _ R).
Qed.

(** Clients write to what they own: the words that overlap a live allocation
    or a page that was handed out, and headers there, may change. *)
Definition outside (y n : Z) : Prop :=
  (∀ x ai, al !! x = Some ai → y + n ≤ x ∨ x + layout_size (a_layout ai) ≤ y) ∧
  (∀ a o, ext !! a = Some o → y + n ≤ a ∨ a + span o ≤ y).

(** Free objects and slab headers are outside. *)
Lemma free_outside b sb y : sl !! b = Some sb → y ∈ s_free sb → outside y 8.
Proof.
  intros Hb Hy. destruct (r_slabs _ _ _ _ _ _ _ _ R b sb Hb) as [Hob S].
  pose proof (so_obj _ _ _ _ _ S y Hy) as Hobj. pose proof (obj_in_page b sb y Hb Hobj) as (? & ? & ? & _).
  unfold SIZE_OF_HEADER in *. split.
  - intros x ai Hx. destruct (live_in_block x ai Hx) as (o & Ho & ? & ? & ?).
    assert (layout_size (a_layout ai) ≤ a_size ai) by (unfold a_size; lia).
    destruct (decide (b = a_block ai)) as [E|Hne]; [|destruct (og_disjoint _ G _ _ _ _ Hob Ho Hne); lia].
    destruct (r_alloc _ _ _ _ _ _ _ _ R x ai Hx) as [_ Hp]. unfold placed in Hp. rewrite <- E, Hb in Hp.
    pose proof (size_class_index_spec (a_size ai)) as Hsz.
    destruct (a_class ai) as [i|] eqn:Ei; [|naive_solver]. unfold a_class in Ei. rewrite Ei in Hsz.
    destruct Hp as (si' & [= <-] & <- & Hox & Hfx).
    destruct (is_obj_disjoint b _ y x (so_class _ _ _ _ _ S) Hobj Hox); [congruence|lia|lia].
  - intros a o Ha. destruct (r_ext _ _ _ _ _ _ _ _ R a o Ha) as (Ho & Hsa & _).
    destruct (og_disjoint _ G b 0 a o Hob Ho); [congruence|lia|lia].
Qed.

Lemma header_outside b sb : sl !! b = Some sb → outside b SIZE_OF_HEADER.
Proof.
  intros Hb. destruct (r_slabs _ _ _ _ _ _ _ _ R b sb Hb) as [Hob S]. unfold SIZE_OF_HEADER. split.
  - intros x ai Hx. destruct (live_in_block x ai Hx) as (o & Ho & ? & ? & ?).
    assert (layout_size (a_layout ai) ≤ a_size ai) by (unfold a_size; lia).
    destruct (decide (b = a_block ai)) as [E|Hne].
    + destruct (r_alloc _ _ _ _ _ _ _ _ R x ai Hx) as [_ Hp]. unfold placed in Hp. rewrite <- E, Hb in Hp.
      destruct (a_class ai) as [i|]; [|naive_solver]. destruct Hp as (si' & [= <-] & <- & Hox & Hfx).
      pose proof (obj_in_page b sb x Hb Hox) as (? & _). unfold SIZE_OF_HEADER in *. lia.
    + destruct (og_disjoint _ G _ _ _ _ Hob Ho Hne) as [Hd|Hd]; [rewrite span_0 in Hd; change PAGE_SIZE with 16384 in Hd|]; lia.
  - intros a o Ha. destruct (r_ext _ _ _ _ _ _ _ _ R a o Ha) as (Ho & Hsa & _).
    destruct (og_disjoint _ G b 0 a o Hob Ho) as [Hd|Hd]; [congruence|rewrite span_0 in Hd; change PAGE_SIZE with 16384 in Hd; lia|lia].
Qed.

(** So is the word before an over-aligned allocation. *)
Lemma backing_outside x ai : al !! x = Some ai → a_class ai = None →
  (layout_align (a_layout ai) <=? PAGE_SIZE) = false → outside (x - 8) 8.
Proof.
  intros Hx Hcl Hal. destruct (live_in_block x ai Hx) as (o & Ho & Hlo & Hhi & Hpos).
  assert (a_block ai + 8 ≤ x) as H8.
  { destruct (r_alloc _ _ _ _ _ _ _ _ R x ai Hx) as [_ Hp]. unfold placed in Hp. rewrite Hcl, Hal in Hp. naive_solver. }
  split.
  - intros y aj Hy. destruct (live_in_block y aj Hy) as (o' & Ho' & ? & ? & ?).
    assert (layout_size (a_layout aj) ≤ a_size aj) by (unfold a_size; lia).
    destruct (decide (y = x)) as [->|Hne]; [lia|].
    destruct (decide (a_block ai = a_block aj)) as [E|Hnb].
    + destruct (r_alloc _ _ _ _ _ _ _ _ R x ai Hx) as [_ Hp]. destruct (r_alloc _ _ _ _ _ _ _ _ R y aj Hy) as [_ Hp'].
      unfold placed in Hp, Hp'. rewrite Hcl in Hp. rewrite <- E in Hp'. destruct Hp as [Hs _]. rewrite Hs in Hp'.
      destruct (a_class aj) eqn:Ej; [naive_solver|]. exfalso. by apply Hne, (r_uniq _ _ _ _ _ _ _ _ R y x aj ai).
    + destruct (og_disjoint _ G _ _ _ _ Ho Ho' Hnb); lia.
  - intros a o' Ha. destruct (r_ext _ _ _ _ _ _ _ _ R a o' Ha) as (Ho' & Hsa & Hn).
    destruct (og_disjoint _ G _ _ _ _ Ho Ho'); [by apply (Hn x)|lia|lia].
Qed.

Lemma rep_write hs' w' : (∀ y, outside y 8 → w' !! y = w !! y) →
  (∀ b, outside b SIZE_OF_HEADER → hs' !! b = hs !! b) → rep d hs' w' cs own sl al ext.
Proof.
  intros Hw Hh. split; try apply R.
  - intros b sb Hb. destruct (r_slabs _ _ _ _ _ _ _ _ R b sb Hb) as [Hob [S1 S2 S3 S4 (h & Hhd & S5 & S6 & S7)]].
    split; [done|]. split; try done. exists h. rewrite Hh by (by eapply header_outside). split; [done|]. split; [done|].
    split; [|done]. apply (chain_frame _ w); [|done]. intros y Hy. by eapply Hw, free_outside.
  - destruct (r_lists _ _ _ _ _ _ _ _ R) as [L F]. exists L. split; try apply F. intros i Hi.
    destruct (ls_dll _ _ _ _ _ F i Hi) as (p & Hp & Hl). exists p. split; [done|].
    apply (dll_frame _ hs); [|done]. intros b (sb & Hb & _)%(ls_mem _ _ _ _ _ F); [|done]. by eapply Hh, header_outside.
  - intros y aj Hy. split; [by eapply (r_alloc _ _ _ _ _ _ _ _ R)|]. pose proof (r_alloc _ _ _ _ _ _ _ _ R y aj Hy) as [_ Hp].
    unfold placed in *. destruct (a_class aj) eqn:Ej; [done|]. destruct Hp as (Hs & o & ? & ? & ? & Hb).
    split; [done|]. exists o. split_and!; try done. destruct (_ <=? _) eqn:Ea; [done|].
    rewrite Hw by (by eapply backing_outside). done.
Qed.
End facts.
End rep.
