(* ===== verification/SlabProofs.v ===== *)
(** * The operations of the slab allocator

    Symbolic execution of [Slab] against the representation of [SlabRep]. *)

From S2P Require Import Prelude Vm Sync PageAlloc Dll PageInv PageSpec Slab SlabInv SlabLists SlabRep.

Section proofs.
Context {P : Type} `{T : AddressTranslator} {TL : AddressTranslatorLaws T} `{PS : PageSource P} {PL : PageSourceLaws P}.
#[local] Abbreviation Slab := (SlabAllocator P).
Implicit Types (sl : gmap Z sinfo) (al : gmap Z ainfo) (own ext : gmap Z Z) (s : Slab).

Definition lock_free (l : TicketLock.TicketLock) : Prop :=
  TicketLock.users l = TicketLock.ticket l ∧ 0 ≤ TicketLock.ticket l < 2 ^ 64.
Definition lock_held (l : TicketLock.TicketLock) : Prop :=
  TicketLock.ticket l = wrap 64 (TicketLock.users l + 1) ∧ 0 ≤ TicketLock.users l < 2 ^ 64.

(** The allocator apart from its lock and its counter. *)
Record slab_core sl al ext own s : Prop := {
  v_owns : owns (pages s) own;
  v_dmap : src_dmap (pages s) = slab_dmap s;
  v_ptr : ∃ pa, phys_addr pa ∧ pa ≠ 0 ∧ page_alloc_ptr s = emb (slab_dmap s) pa;
  v_rep : rep (slab_dmap s) (headers s) (words s) (caches s) own sl al ext
}.

(** Between operations. *)
Record slab_inv sl al ext own s : Prop := {
  v_core : slab_core sl al ext own s;
  v_lock : lock_free (slab_lock s);
  v_used : used_bytes s = wrap 64 (msum (λ ai, layout_size (a_layout ai)) al)
}.

Lemma owns_geom p own : owns p own → own_geom own.
Proof. intros Ho. split; [intros; by eapply owns_block|intros; by eapply owns_disjoint]. Qed.

(** *** Accesses *)

Lemma wp_lock_slab s (Q : unit → Slab → Prop) : lock_free (slab_lock s) →
  (∀ l, lock_held l → Q tt (set_slab_lock l s)) → wp lock_slab Q s.
Proof.
  intros [E Hr] HQ. unfold wp, lock_slab, TicketLock.lock_alone. cbn [TicketLock.take_ticket].
  unfold TicketLock.may_enter. cbn. rewrite E, Z.eqb_refl. apply HQ. split; cbn; congruence.
Qed.

Lemma wp_unlock_slab s (Q : unit → Slab → Prop) : lock_held (slab_lock s) →
  (∀ l, lock_free l → Q tt (set_slab_lock l s)) → wp unlock_slab Q s.
Proof.
  intros [E Hr] HQ. unfold unlock_slab. wp_steps. apply HQ. split; cbn; [by rewrite E|].
  rewrite E. by apply wrap_range.
Qed.

(** Locking and unlocking at once changes nothing else. *)
Lemma lock_slab_runs s : lock_free (slab_lock s) → ∃ lk1 lk2, lock_slab s = Done (tt, set_slab_lock lk1 s) ∧
  unlock_slab (set_slab_lock lk1 s) = Done (tt, set_slab_lock lk2 s) ∧ lock_free lk2.
Proof.
  intros Hlf. assert (wp lock_slab (λ _ s1, ∃ l, s1 = set_slab_lock l s ∧ lock_held l) s) as Hw
    by (apply wp_lock_slab; eauto). apply wp_run in Hw as ([] & s1 & E1 & lk1 & -> & Hlk1).
  assert (wp unlock_slab (λ _ s1, ∃ l, s1 = set_slab_lock l s ∧ lock_free l) (set_slab_lock lk1 s)) as Hw
    by (apply wp_unlock_slab; eauto). apply wp_run in Hw as ([] & s2 & E2 & lk2 & -> & Hlk2). eauto 6.
Qed.

Lemma wp_on_pages {A} (c : M P A) s (Q : A → Slab → Prop) :
  wp c (λ a p, Q a (set_pages p s)) (pages s) → wp (on_pages c) Q s.
Proof. unfold wp, on_pages. by destruct (c (pages s)) as [[a p]|]. Qed.

Lemma wp_deref_header s p h (Q : Header → Slab → Prop) : headers s !! dmap_to_phys p = Some h → Q h s →
  wp (deref_header p) Q s.
Proof. intros Hh HQ. unfold wp, deref_header. by rewrite Hh. Qed.

Lemma wp_update_header s p f (Q : unit → Slab → Prop) : is_Some (headers s !! dmap_to_phys p) →
  Q tt (set_headers (alter f (dmap_to_phys p) (headers s)) s) → wp (update_header p f) Q s.
Proof. intros [h Hh] HQ. unfold update_header. wp_step. apply (wp_deref_header _ _ h); [done|]. by wp_steps. Qed.

Lemma is_Some_alter (f : Header → Header) a b (m : gmap Z Header) : is_Some (m !! b) → is_Some (alter f a m !! b).
Proof. intros [h Hh]. rewrite lookup_alter. case_decide; subst; rewrite Hh; by eexists. Qed.

Lemma wp_hupd s p f (Q : unit → Slab → Prop) : (p ≠ 0 → is_Some (headers s !! dmap_to_phys p)) →
  Q tt (set_headers (hupd p f (headers s)) s) → wp (if p =? 0 then ret tt else update_header p f) Q s.
Proof.
  intros Hp HQ. unfold hupd in HQ. destruct (Z.eqb_spec p 0) as [|Hn].
  - wp_steps. by destruct s.
  - by apply wp_update_header; [apply Hp|].
Qed.

Lemma wp_read_word s p v (Q : Z → Slab → Prop) : words s !! dmap_to_phys p = Some v → Q v s → wp (read_word p) Q s.
Proof. intros Hh HQ. unfold wp, read_word. by rewrite Hh. Qed.

Lemma wp_get_plist s i p (Q : Z → Slab → Prop) : caches s !! i = Some p → Q p s → wp (get_plist i) Q s.
Proof. intros Hp HQ. unfold get_plist. wp_steps. by apply (wp_expect _ p). Qed.

Lemma wp_set_plist s i v (Q : unit → Slab → Prop) : is_Some (caches s !! i) →
  Q tt (set_caches (<[i := v]> (caches s)) s) → wp (set_plist i v) Q s.
Proof. intros [p Hp] HQ. unfold set_plist. wp_step. apply (wp_get_plist _ _ p); [done|]. by wp_steps. Qed.

Lemma wp_page_alloc sl al ext own s (Q : unit → Slab → Prop) : slab_core sl al ext own s → Q tt s → wp page_alloc Q s.
Proof.
  intros I HQ. unfold page_alloc. wp_steps. apply wp_assert; [|done].
  destruct (v_ptr _ _ _ _ _ I) as (pa & Hpa & H0 & ->). apply negb_true_iff, Z.eqb_neq. by rewrite emb_zero.
Qed.

(** Pages and the direct map keep alignment. *)
Lemma emb_aligned d a : phys_addr a → (PAGE_SIZE | a) → (PAGE_SIZE | emb d a).
Proof.
  intros Ha Hd. destruct d; cbn; [|done]. destruct (decide (a = 0)) as [->|H0]; [done|].
  rewrite to_dmap_nonzero by done. by apply phys_dmap_aligned.
Qed.

Lemma class_divides i : (i < 9)%nat → (class_size i | PAGE_SIZE).
Proof. intros Hi. rewrite PAGE_SIZE_eq. apply pow2_divide. lia. Qed.

(** An object is aligned to its class, so it is to any layout of the class. *)
Lemma obj_aligned d own a si x l : own_geom own → own !! a = Some 0 → (s_class si < 9)%nat →
  is_obj a (s_class si) x → layout_ok l → size_class_index (Z.max (layout_size l) (layout_align l)) = Some (s_class si) →
  (layout_align l | emb d x).
Proof.
  intros G Ho Hc (k & Hk & ->) [Hsz (m & Hm & Em)] Hcl.
  pose proof (size_class_index_spec (Z.max (layout_size l) (layout_align l)) ltac:(lia)) as Hle. rewrite Hcl in Hle.
  destruct (class_facts _ Hc). pose proof (class_divides _ Hc).
  destruct (is_obj_range a (s_class si) (obj a (s_class si) k) Hc) as [Hr1 Hr2]; [by exists k|].
  destruct (og_block _ G a 0 Ho) as (? & ? & Hd & _). unfold SIZE_OF_HEADER in *.
  assert (emb d (obj a (s_class si) k) = emb d a + (start_off (s_class si) + k * class_size (s_class si))) as ->.
  { unfold obj in *. rewrite <- (block_emb d own G a 0) by (done || rewrite span_0; lia). f_equal. lia. }
  transitivity (class_size (s_class si)).
  - rewrite Em in *. unfold class_size in *. apply pow2_divide. split; [lia|].
    destruct (decide (m ≤ 3 + Z.of_nat (s_class si))); [done|].
    pose proof (pow2_le (3 + Z.of_nat (s_class si) + 1) m ltac:(lia)). rewrite pow2_S in * by lia.
    pose proof (pow2_pos (3 + Z.of_nat (s_class si)) ltac:(lia)). lia.
  - apply Z.divide_add_r; [|apply Z.divide_add_r; [done|apply Z.divide_factor_r]].
    transitivity PAGE_SIZE; [done|]. apply emb_aligned; [|done]. rewrite <- (Z.add_0_r a).
    by apply (owned_phys own G a 0); [|rewrite span_0].
Qed.

(** ** Allocation from a slab *)

(** [p] is a new object for the layout [l]. *)
Definition served al ext s l (p : Z) s' : Prop :=
  slab_dmap s' = slab_dmap s ∧ lock_free (slab_lock s') ∧ used_bytes s' = used_bytes s ∧
  ∃ x b sl' own', p = emb (slab_dmap s) x ∧ p ≠ 0 ∧ al !! x = None ∧ (layout_align l | p) ∧
    slab_core sl' (<[x := {| a_layout := l; a_block := b |}]> al) ext own' s'.

Section partial.
Context (sl : gmap Z sinfo) (al : gmap Z ainfo) (ext own : gmap Z Z) (s : Slab).
Context (I : slab_core sl al ext own s).
#[local] Abbreviation d := (slab_dmap s).
#[local] Abbreviation R := (v_rep _ _ _ _ _ I).
#[local] Abbreviation G := (owns_geom _ _ (v_owns _ _ _ _ _ I)).

Lemma core_slab_phys a si : sl !! a = Some si → phys_addr a ∧ a ≠ 0 ∧ dmap_to_phys (emb d a) = a ∧ emb d a ≠ 0.
Proof.
  intros Ha. destruct (slab_phys _ _ _ _ _ _ _ _ G R a si Ha). rewrite emb_phys, emb_zero by done. done.
Qed.

Lemma core_slab_header a si : sl !! a = Some si → is_Some (headers s !! a).
Proof.
  intros Ha. destruct (r_slabs _ _ _ _ _ _ _ _ R a si Ha) as [_ [_ _ _ _ (h & Hh & _)]]. by exists h.
Qed.

(** The first slab of a list that is not empty. *)
Lemma core_first_slab i p : (i < 9)%nat → caches s !! i = Some p → p ≠ 0 →
  ∃ L a l si x f h nx, lists_ok d (headers s) (caches s) sl L ∧ L i = a :: l ∧ p = emb d a ∧ sl !! a = Some si ∧
    s_class si = i ∧ s_free si = x :: f ∧ headers s !! a = Some h ∧ free_list h = emb d x ∧
    words s !! x = Some nx ∧ chain d (words s) nx f ∧ free_count h = Z.of_nat (S (length f)) ∧
    size_class_i h = Z.of_nat i ∧ is_obj a i x ∧ x ≠ 0 ∧ phys_addr x.
Proof.
  intros Hi Hp Hp0. destruct (r_lists _ _ _ _ _ _ _ _ R) as [L F].
  destruct (lists_head _ _ _ _ _ _ _ F Hi Hp) as [Ep Hl]. destruct (L i) as [|a l] eqn:EL; [done|].
  assert (a ∈ L i) as Ha by (rewrite EL; set_solver).
  apply (ls_mem _ _ _ _ _ F) in Ha as (si & Hs & Hc & Hne); [|done].
  destruct (s_free si) as [|x f] eqn:Ef; [done|].
  destruct (r_slabs _ _ _ _ _ _ _ _ R a si Hs) as [Ho S]. pose proof S as [_ _ S3 _ (h & Hh & Hpl & Hch & _)].
  rewrite Ef in Hpl, Hch. destruct Hch as (Efl & nx & Hx & Hch). injection Hpl as Efc Esc.
  assert (is_obj a (s_class si) x) as Hobj by (apply S3; rewrite Ef; set_solver).
  destruct (obj_in_page _ _ _ _ _ _ _ _ G R a si x Hs Hobj) as (_ & _ & _ & Hpx & Hx0 & _).
  exists L, a, l, si, x, f, h, nx. subst i. split_and!; done.
Qed.

Lemma hupd_lookup q f (m : gmap Z Header) b : is_Some (hupd q f m !! b) ↔ is_Some (m !! b).
Proof.
  unfold hupd. destruct (q =? 0); [done|]. rewrite lookup_alter. case_decide; [|done]. subst.
  by rewrite fmap_is_Some.
Qed.

(** The slab after its first free object was taken. *)
Lemma taken_slab_ok a si x f hs' nx : sl !! a = Some si → s_free si = x :: f → chain d (words s) nx f →
  (∃ h', hs' !! a = Some h' ∧ payload h' = (nx, Z.of_nat (length f), Z.of_nat (s_class si)) ∧
     (f = [] → hdr_next h' = 0 ∧ hdr_prev h' = 0)) →
  slab_ok d hs' (words s) a {| s_class := s_class si; s_free := f |}.
Proof.
  intros Ha Ef Hch (h' & Hh' & Ep & Eh). destruct (r_slabs _ _ _ _ _ _ _ _ R a si Ha) as [_ [S1 S2 S3 S4 _]].
  rewrite Ef in S2, S4. apply NoDup_cons in S2 as [_ S2]. cbn in S4.
  split; cbn; [done|done|intros y Hy; apply S3; rewrite Ef; set_solver|lia|].
  exists h'. injection Ep as E1 E2 E3. unfold payload. by rewrite E1, E2, E3.
Qed.

(** The end of an allocation from a slab, with what the code did to headers
    and list heads. *)
Lemma wp_serve a si x f l s1 : sl !! a = Some si → s_free si = x :: f → layout_ok l →
  size_class_index (Z.max (layout_size l) (layout_align l)) = Some (s_class si) →
  words s1 = words s → pages s1 = pages s → slab_dmap s1 = d → page_alloc_ptr s1 = page_alloc_ptr s →
  used_bytes s1 = used_bytes s → lock_held (slab_lock s1) →
  slab_ok d (headers s1) (words s) a {| s_class := s_class si; s_free := f |} →
  (∀ b sb, b ≠ a → sl !! b = Some sb → keeps (headers s) (headers s1) b (s_free sb = [])) →
  (∃ L', lists_ok d (headers s1) (caches s1) (<[a := {| s_class := s_class si; s_free := f |}]> sl) L') →
  wp (unlock_slab ;; ret (emb d x)) (served al ext s l) s1.
Proof.
  intros Ha Ef Hl Hcl E3 E4 E5 E6 E7 E8 Sa Kb HL. pose proof R as R0. pose proof G as G0.
  destruct (r_slabs _ _ _ _ _ _ _ _ R0 a si Ha) as [Ho S0].
  assert (is_obj a (s_class si) x) as Hobj by (apply S0; rewrite Ef; set_solver).
  destruct (obj_in_page _ _ _ _ _ _ _ _ G0 R0 a si x Ha Hobj) as (_ & _ & _ & Hpx & Hx0 & _).
  wp_step. apply wp_unlock_slab; [done|]. intros lk Hlf. wp_steps. split; [done|]. split; [done|]. split; [done|].
  exists x, a, (<[a := {| s_class := s_class si; s_free := f |}]> sl), own.
  split; [done|]. split; [by rewrite emb_zero|].
  split; [apply (free_not_live _ _ _ _ _ _ _ _ G0 R0 a si); [done|rewrite Ef; set_solver]|].
  split; [apply (obj_aligned _ own a si); try done; apply S0|].
  split; cbn; rewrite ?E3, ?E4, ?E5, ?E6; try apply I.
  by apply (rep_take _ _ _ _ _ _ _ _ G0 R0 a si x f).
Qed.

(** The last free object: the slab leaves the list. *)
Lemma wp_unlist i a si x h0 hs1 L r (Q : unit → Slab → Prop) (si' := {| s_class := s_class si; s_free := [] |}) :
  lists_ok d hs1 (caches s) sl L → L i = a :: r → (i < 9)%nat → sl !! a = Some si → s_free si = [x] →
  hs1 !! a = Some h0 →
  (∀ hs' cs' L', lists_ok d hs' cs' (<[a := si']> sl) L' →
     hs' !! a = Some (set_hdr_prev 0 (set_hdr_next 0 h0)) →
     (∀ b sb, b ≠ a → sl !! b = Some sb → keeps hs1 hs' b (s_free sb = [])) →
     Q tt (set_headers hs' (set_caches cs' s))) →
  wp (let* header := deref_header (emb d a) in
      set_plist i (hdr_next header) ;;
      (if hdr_next header =? 0 then ret tt else update_header (hdr_next header) (set_hdr_prev 0)) ;;
      update_header (emb d a) (set_hdr_next 0) ;;
      update_header (emb d a) (set_hdr_prev 0)) Q (set_headers hs1 s).
Proof.
  intros F1 EL Hi Ha Ef Hh1 HQ. destruct (core_slab_phys a si Ha) as (Hpa & Ha0 & Ed & _).
  pose proof R as R0. pose proof G as G0.
  destruct (lists_unlink d hs1 (caches s) sl L F1 (slab_phys _ _ _ _ _ _ _ _ G0 R0) i a h0 (<[a := si']> sl))
    as (L' & F' & Hsub & Hnx & Hpv); [done|rewrite EL; set_solver|done|intros; by rewrite lookup_insert_ne| |].
  { intros sj. rewrite lookup_insert_eq. by intros [= <-]. }
  pose proof (lists_first d hs1 _ sl L F1 i a r _ Hi EL Hh1) as Ep0. rewrite Ep0 in F'. cbn [Z.eqb] in F'.
  change (hupd 0 (set_hdr_next (hdr_next h0)) hs1) with hs1 in F'.
  destruct (ls_dll _ _ _ _ _ F1 i Hi) as (p & Hp & _).
  set (hs2 := hupd (hdr_next h0) (set_hdr_prev 0) hs1) in *.
  assert (hs2 !! a = Some h0) as Hh2.
  { unfold hs2, hupd. destruct (Z.eqb_spec (hdr_next h0) 0) as [|Hn]; [done|]. rewrite lookup_alter_ne by (by apply Hnx). done. }
  wp_step. apply (wp_deref_header _ _ h0); [cbn; by rewrite Ed|].
  wp_step. apply wp_set_plist; [by exists p|]. wp_step. apply wp_hupd.
  { intros Hn. destruct (Hnx Hn) as [Hin _]. by apply (member_header d hs1 _ sl L F1 i). }
  cbn [headers set_headers set_caches]. fold hs2.
  wp_step. apply wp_update_header; [cbn; rewrite Ed, Hh2; by eexists|]. cbn [headers set_headers set_caches].
  apply wp_update_header; [cbn; rewrite Ed, lookup_alter_eq, Hh2; by eexists|].
  cbn [headers set_headers set_caches caches]. rewrite Ed.
  apply (HQ (alter (set_hdr_prev 0) a (alter (set_hdr_next 0) a hs2)) (<[i := hdr_next h0]> (caches s)) L').
  - apply lists_alter_out; [apply lists_alter_out; [exact F'|]|]; intros j Hj Hin; by destruct (Hsub j a Hj Hin).
  - by rewrite !lookup_alter_eq, Hh2.
  - intros b sb Hne Hb. eapply keeps_trans; [|by apply keeps_alter]. eapply keeps_trans; [|by apply keeps_alter].
    apply (keeps_hupd d hs1 (caches s) sl L F1 _ i); try done. intros Hn. by apply Hnx.
Qed.

Lemma wp_alloc_partial i p l : (i < 9)%nat → caches s !! i = Some p → p ≠ 0 → layout_ok l →
  size_class_index (Z.max (layout_size l) (layout_align l)) = Some i → lock_held (slab_lock s) →
  wp (alloc_partial i p) (served al ext s l) s.
Proof.
  intros Hi Hp Hp0 Hl Hcl Hlk.
  destruct (core_first_slab i p Hi Hp Hp0) as (L & a & r & si & x & f & h & nx & F & EL & -> & Ha & Hc & Ef & Hh &
    Efl & Hx & Hch & Efc & Esc & Hobj & Hx0 & Hpx).
  destruct (core_slab_phys a si Ha) as (Hpa & Ha0 & Ed & _). subst i.
  set (g1 := set_free_list nx). set (g2 := set_free_count (Z.of_nat (length f))).
  set (hs1 := alter g2 a (alter g1 a (headers s))).
  assert (hs1 !! a = Some (g2 (g1 h))) as Hh1 by (unfold hs1; by rewrite !lookup_alter_eq, Hh).
  assert (lists_ok d hs1 (caches s) sl L) as F1 by (apply lists_alter; [by apply lists_alter|done]).
  assert (∀ b sb, b ≠ a → sl !! b = Some sb → keeps (headers s) hs1 b (s_free sb = [])) as K1.
  { intros b sb Hne _. eapply keeps_trans; by apply keeps_alter. }
  unfold alloc_partial. wp_step. apply (wp_deref_header _ _ h); [by rewrite Ed|]. wp_step.
  apply (wp_read_word _ _ nx); [by rewrite Efl, emb_phys|]. wp_step. apply wp_update_header; [rewrite Ed; by exists h|].
  rewrite Ed, Efc. wp_step. apply (wp_expect _ (Z.of_nat (length f))).
  { unfold checked_sub. rewrite (proj2 (Z.leb_le _ _)) by lia. f_equal. lia. }
  wp_step. apply wp_update_header; [cbn; rewrite Ed, lookup_alter_eq, Hh; by eexists|]. cbn [headers set_headers]. rewrite Ed.
  fold g1 g2 hs1. rewrite Efl. wp_step.
  change (set_headers hs1 (set_headers (alter g1 a (headers s)) s)) with (set_headers hs1 s).
  destruct (decide (f = [])) as [->|Hf].
  - cbn [length Z.of_nat Z.eqb]. apply (wp_unlist _ a si x (g2 (g1 h)) hs1 L r); try done.
    intros hs' cs' L' F' Hh' K'. apply (wp_serve a si x []); try done.
    + apply (taken_slab_ok a si x [] _ nx); try done. eexists. split; [done|]. split; [|done]. unfold payload. cbn. by rewrite Esc.
    + intros b sb Hne Hb. eapply keeps_trans; [by apply (K1 b sb)|by apply (K' b sb)].
    + by exists L'.
  - rewrite (proj2 (Z.eqb_neq _ 0)) by (destruct f; [done|cbn; lia]). wp_steps. apply (wp_serve a si x f); try done.
    + apply (taken_slab_ok a si x f _ nx); try done. exists (g2 (g1 h)). split; [done|].
      split; [unfold payload; cbn; by rewrite Esc|done].
    + exists L. apply (lists_payload d (alter g1 a (headers s)) (caches s) sl L) with (si := si); try done;
        [by apply lists_alter|by rewrite Ef].
Qed.
End partial.

(** ** A new slab *)

Section new_slab.
Context (d : bool) (own : gmap Z Z) (a : Z) (i : nat) (G : own_geom own) (Ho : own !! a = Some 0) (Hi : (i < 9)%nat).

Lemma obj_ptr k : 0 ≤ k < cap i → emb d (obj a i k) = emb d a + (start_off i + k * class_size i) ∧
  phys_addr (obj a i k) ∧ obj a i k ≠ 0 ∧ a ≤ obj a i k < a + span 0.
Proof.
  intros Hk. destruct (is_obj_range a i (obj a i k) Hi) as [H1 H2]; [by exists k|].
  destruct (class_facts _ Hi). unfold SIZE_OF_HEADER in *.
  assert (0 ≤ start_off i + k * class_size i < span 0) as Hr by (rewrite span_0; unfold obj in *; lia).
  destruct (owned_phys own G a 0 _ Ho Hr) as [Hp Hp0]. rewrite <- (block_emb d own G a 0 _ Ho Hr).
  unfold obj. rewrite <- Z.add_assoc. split_and!; try done; lia.
Qed.

Lemma obj_inj k j : obj a i k = obj a i j → k = j.
Proof. destruct (class_facts _ Hi). unfold obj. nia. Qed.

(** The loop links the objects from the one before [k] to the one [n] later. *)
Lemma wp_link_loop n k s (Q : Z → Slab → Prop) : 1 ≤ k → k + Z.of_nat n ≤ cap i →
  (∀ w, (∀ m, k - 1 ≤ m < k - 1 + Z.of_nat n → w !! obj a i m = Some (emb d (obj a i (m + 1)))) →
        (∀ y, (∀ m, k - 1 ≤ m < k - 1 + Z.of_nat n → y ≠ obj a i m) → w !! y = words s !! y) →
        Q (emb d (obj a i (k - 1 + Z.of_nat n))) (set_words w s)) →
  wp (link_loop n k (emb d a) (start_off i) (class_size i) (emb d (obj a i (k - 1)))) Q s.
Proof.
  revert k s. induction n as [|n IH]; intros k s Hk Hn HQ; cbn [link_loop].
  - wp_steps. specialize (HQ (words s)). assert (set_words (words s) s = s) as E by by destruct s.
    rewrite E, Z.add_0_r in HQ. apply HQ; [lia|done].
  - destruct (obj_ptr (k - 1) ltac:(lia)) as (_ & Hp & _). destruct (obj_ptr k ltac:(lia)) as (Ek & _).
    wp_step. unfold write_word. wp_steps. rewrite emb_phys by done.
    replace (emb d a + (start_off i + k * class_size i)) with (emb d (obj a i (k + 1 - 1))) by
      (replace (k + 1 - 1) with k by lia; done).
    apply IH; [lia|lia|]. intros w Hw Hf. replace (k + 1 - 1) with k in * by lia.
    cbn [words set_words] in Hf. replace (k + Z.of_nat n) with (k - 1 + Z.of_nat (S n)) in * by lia.
    apply HQ.
    + intros m Hm. destruct (decide (m = k - 1)) as [->|Hne].
      * rewrite Hf by (intros m' Hm' E%obj_inj; lia). rewrite lookup_insert_eq. do 3 f_equal. lia.
      * apply Hw. lia.
    + intros y Hy. rewrite Hf by (intros m Hm; apply Hy; lia). apply lookup_insert_ne.
      intros E. by apply (Hy (k - 1) ltac:(lia)).
Qed.

Lemma chain_seq w n k : (1 ≤ n)%nat →
  (∀ m, k ≤ m < k + Z.of_nat n - 1 → w !! obj a i m = Some (emb d (obj a i (m + 1)))) →
  w !! obj a i (k + Z.of_nat n - 1) = Some 0 → chain d w (emb d (obj a i k)) (obj a i <$> seqZ k (Z.of_nat n)).
Proof.
  revert k. induction n as [|n IH]; intros k Hn Hw Hl; [lia|]. rewrite seqZ_cons by lia. cbn [fmap list_fmap chain].
  split; [done|]. destruct n as [|n].
  - exists 0. replace (k + Z.of_nat 1 - 1) with k in Hl by lia. split; [done|]. done.
  - exists (emb d (obj a i (Z.succ k))). split; [rewrite Hw by lia; do 3 f_equal; lia|].
    replace (Z.pred (Z.of_nat (S (S n)))) with (Z.of_nat (S n)) by lia. apply IH; [lia| |].
    + intros m Hm. apply Hw. lia.
    + rewrite <- Hl. f_equal. f_equal. lia.
Qed.
End new_slab.

(** The slab that [alloc_new_slab] sets up. *)
Definition new_sinfo (a : Z) (i : nat) : sinfo := {| s_class := i; s_free := obj a i <$> seqZ 1 (cap i - 1) |}.

Lemma new_slab_ok d own a i hs w h : own_geom own → own !! a = Some 0 → (i < 9)%nat →
  hs !! a = Some h → payload h = (emb d (obj a i 1), cap i - 1, Z.of_nat i) →
  (∀ m, 1 ≤ m < cap i - 1 → w !! obj a i m = Some (emb d (obj a i (m + 1)))) →
  w !! obj a i (cap i - 1) = Some 0 → slab_ok d hs w a (new_sinfo a i).
Proof.
  intros G Ho Hi Hh Hp Hw Hl. destruct (class_facts _ Hi).
  assert (length (obj a i <$> seqZ 1 (cap i - 1)) = Z.to_nat (cap i - 1)) as Elen by (by rewrite length_fmap, length_seqZ).
  split; cbn [new_sinfo s_class s_free]; [done| | |rewrite Elen; lia|].
  - apply NoDup_fmap_2_strong; [|apply NoDup_seqZ]. intros k j _ _. by apply obj_inj.
  - intros x (k & -> & Hk%elem_of_seqZ)%list_elem_of_fmap. exists k. split; [lia|done].
  - exists h. injection Hp as E1 E2 E3. split; [done|]. unfold payload. rewrite E1, E2, E3, Elen.
    split; [repeat f_equal; lia|]. split.
    + replace (cap i - 1) with (Z.of_nat (Z.to_nat (cap i - 1))) by lia. apply chain_seq; [done|lia| |].
      * intros m Hm. apply Hw. lia.
      * rewrite <- Hl. f_equal. f_equal. lia.
    + intros E. rewrite E in Elen. cbn in Elen. lia.
Qed.

(** The page source has no page left. *)
Definition no_page s : Prop :=
  ∃ p', (if slab_dmap s then src_alloc_dmap_page else src_alloc_phys_page) (pages s) = Done (0, p').

Lemma page_request s : (if slab_dmap s then on_pages src_alloc_dmap_page else on_pages src_alloc_phys_page) =
  on_pages (P := P) (if slab_dmap s then src_alloc_dmap_page else src_alloc_phys_page).
Proof. by destruct (slab_dmap s). Qed.

(** Linking the objects of a fresh page. *)
Lemma wp_link_slab d own a i s (Q : Z → Slab → Prop) : own_geom own → own !! a = Some 0 → (i < 9)%nat →
  (∀ w, (∀ m, 0 ≤ m < cap i - 1 → w !! obj a i m = Some (emb d (obj a i (m + 1)))) →
     w !! obj a i (cap i - 1) = Some 0 → (∀ y, ¬ (a ≤ y < a + span 0) → w !! y = words s !! y) →
     Q (emb d (obj a i 1)) (set_words w s)) →
  wp (link_objects (emb d a) (start_off i) (class_size i) (cap i)) Q s.
Proof.
  intros G Ho Hi HQ. unfold link_objects. destruct (class_facts _ Hi). destruct (obj_ptr d own a i G Ho Hi 0) as (E0 & Hp0 & _); [lia|].
  rewrite Z.mul_0_l, Z.add_0_r in E0. rewrite <- E0. wp_step.
  change (obj a i 0) with (obj a i (1 - 1)) at 1. apply (wp_link_loop d own a i G Ho Hi); [lia|lia|].
  intros w Hw Hf. replace (1 - 1 + Z.of_nat (Z.to_nat (cap i - 1))) with (cap i - 1) in * by lia.
  destruct (obj_ptr d own a i G Ho Hi (cap i - 1)) as (_ & Hpl & _ & Hrl); [lia|].
  wp_step. unfold write_word. wp_steps. rewrite emb_phys by done.
  assert (∀ m, 0 ≤ m < cap i - 1 → <[obj a i (cap i - 1) := 0]> w !! obj a i m = Some (emb d (obj a i (m + 1)))) as Hw'.
  { intros m Hm. rewrite lookup_insert_ne by (intros E%obj_inj; [lia|done]). apply Hw. lia. }
  apply (wp_read_word _ _ (emb d (obj a i 1))); [cbn; rewrite emb_phys, Hw' by (done || lia); done|].
  apply (HQ (<[obj a i (cap i - 1) := 0]> w)); [done|by rewrite lookup_insert_eq|].
  intros y Hy. rewrite lookup_insert_ne by (intros <-; done). apply Hf.
  intros m Hm ->. apply Hy. destruct (obj_ptr d own a i G Ho Hi m) as (_ & _ & _ & ?); lia.
Qed.

(** Entering the fresh slab in its list. *)
Lemma wp_push_header sl al ext own s w a i free count L (Q : unit → Slab → Prop) :
  rep (slab_dmap s) (headers s) w (caches s) own sl al ext → own_geom own →
  lists_ok (slab_dmap s) (headers s) (caches s) sl L → sl !! a = None → phys_addr a → (i < 9)%nat →
  (∀ hs' cs' L' h, lists_ok (slab_dmap s) hs' cs' (<[a := new_sinfo a i]> sl) L' → hs' !! a = Some h →
     payload h = (free, count, Z.of_nat i) →
     (∀ b sb, b ≠ a → sl !! b = Some sb → keeps (headers s) hs' b (s_free sb = [])) →
     Q tt (set_headers hs' (set_caches cs' s))) →
  wp (push_header i (emb (slab_dmap s) a) free count) Q s.
Proof.
  intros R0 G0 F Hsa Hpa Hi HQ. set (d := slab_dmap s) in *. destruct (class_facts _ Hi).
  destruct (ls_dll _ _ _ _ _ F i Hi) as (p & Hp & _).
  assert (∀ j, (j < 9)%nat → a ∉ L j) as Hout.
  { intros j Hj (sj & Hs & _)%(ls_mem _ _ _ _ _ F); [congruence|done]. }
  unfold push_header. wp_step. apply (wp_get_plist _ _ p); [done|].
  set (h := {| hdr_next := p; hdr_prev := 0; free_list := free; free_count := count; size_class_i := Z.of_nat i |}).
  destruct (lists_push d (headers s) (caches s) sl L F (slab_phys _ _ _ _ _ _ _ _ G0 R0) i a p h (new_sinfo a i)
    (<[a := h]> (headers s)) (<[a := new_sinfo a i]> sl)) as [F' Hin]; try done;
    [by rewrite lookup_insert_eq|intros; by rewrite lookup_insert_ne|intros; by rewrite lookup_insert_ne|
     by rewrite lookup_insert_eq| |].
  { cbn. intros E%(f_equal length). rewrite length_fmap, length_seqZ in E. cbn in E. lia. }
  wp_step. unfold init_header. wp_steps. rewrite emb_phys by done. apply wp_hupd.
  { intros Hp0. cbn [headers set_headers]. rewrite lookup_insert_is_Some'. right.
    by apply (member_header d (headers s) (caches s) sl L F i), Hin. }
  apply wp_set_plist; [by exists p|]. cbn [headers set_headers caches].
  apply (HQ _ _ _ h F'); [|done|].
  - unfold hupd. destruct (Z.eqb_spec p 0) as [|Hp0]; [by rewrite lookup_insert_eq|].
    rewrite lookup_alter_ne, lookup_insert_eq; [done|]. intros E. apply (Hout i Hi). rewrite <- E. by apply Hin.
  - intros b sb Hne Hb. eapply keeps_trans; [by apply (keeps_insert _ h a)|].
    by apply (keeps_hupd d (headers s) (caches s) sl L F _ i).
Qed.

Lemma wp_alloc_new_slab sl al ext own s i l : slab_core sl al ext own s → lock_free (slab_lock s) → (i < 9)%nat →
  layout_ok l → size_class_index (Z.max (layout_size l) (layout_align l)) = Some i →
  (no_page s ∧ faults (alloc_new_slab i) Panic s) ∨ wp (alloc_new_slab i) (served al ext s l) s.
Proof.
  intros I Hlf Hi Hl Hcl. pose proof (v_rep _ _ _ _ _ I) as R0. pose proof (owns_geom _ _ (v_owns _ _ _ _ _ I)) as G0.
  pose proof (v_dmap _ _ _ _ _ I) as Ed. destruct (class_facts _ Hi) as [C1 C2 C3 C4 C5 C6 C7].
  pose proof (src_page_ok _ _ (v_owns _ _ _ _ _ I)) as Hw. rewrite Ed in Hw.
  apply wp_run in Hw as (r & p' & Erun & Ed' & [[-> _]|(a & -> & Hnew & Hown)]).
  { left. split; [by exists p'|]. unfold alloc_new_slab. apply faults_bind. wp_steps. rewrite page_request.
    apply faults_bind. apply wp_on_pages. unfold wp. rewrite Erun. by apply faults_here, faults_assert. }
  right. pose proof (owns_geom _ _ Hown) as G1. assert (<[a := 0]> own !! a = Some 0) as Ho by (by rewrite lookup_insert_eq).
  destruct (og_block _ G1 a 0 Ho) as (Ha0 & Hae & Had & _).
  assert (phys_addr a) as Hpa by (rewrite span_0 in Hae; unfold phys_addr; change PAGE_SIZE with 16384 in Hae; lia).
  assert (sl !! a = None) as Hsa.
  { destruct (sl !! a) as [sb|] eqn:E; [|done]. destruct (r_slabs _ _ _ _ _ _ _ _ R0 a sb E). congruence. }
  unfold alloc_new_slab. wp_step. wp_step. rewrite page_request. wp_step. apply wp_on_pages. unfold wp at 1. rewrite Erun.
  wp_step. apply wp_assert; [apply negb_true_iff, Z.eqb_neq; rewrite emb_zero by done; lia|].
  wp_step. apply (wp_expect _ (class_size i)); [done|]. wp_step. apply (wp_expect _ (start_off i)); [done|].
  wp_step. apply (wp_expect _ (PAGE_SIZE - start_off i)).
  { unfold checked_sub. rewrite (proj2 (Z.leb_le _ _)) by (change PAGE_SIZE with 16384; lia). done. }
  fold (cap i). cbn zeta. wp_step.
  apply (wp_link_slab (slab_dmap s) (<[a := 0]> own) a i); try done. intros w Hw1 Hw2 Hw3. cbn [words set_pages] in Hw3.
  wp_step. apply (wp_expect _ (cap i - 1)).
  { rewrite wrap_small by lia. unfold checked_sub. by rewrite (proj2 (Z.leb_le _ _)) by lia. }
  rewrite (proj2 (Z.ltb_lt 1 (cap i))) by lia. wp_step. wp_step. apply wp_lock_slab; [done|]. intros lk Hlk. wp_step.
  destruct (r_lists _ _ _ _ _ _ _ _ R0) as [L F].
  lazymatch goal with |- wp _ _ ?s1 => apply (wp_push_header sl al ext own s1 (words s) a i _ _ L) end; try done.
  intros hs' cs' L' h F' Hh Hp K. apply wp_unlock_slab; [done|]. intros lk' Hlk'. wp_steps.
  destruct (obj_ptr (slab_dmap s) _ a i G1 Ho Hi 0) as (E0 & Hp0 & Hn0 & _); [lia|]. rewrite Z.mul_0_l, Z.add_0_r in E0.
  rewrite <- E0. destruct (rep_new_slab _ _ _ _ _ _ _ _ G0 R0 a 0 Hnew G1 (new_sinfo a i) hs' w cs' l) as [R1 Hnl]; try done.
  - apply (new_slab_ok _ (<[a := 0]> own) a i hs' w h); try done. intros m Hm. apply Hw1. lia.
  - by exists L'.
  - split; [done|]. split; [done|]. split; [done|]. exists (obj a i 0), a, (<[a := new_sinfo a i]> sl), (<[a := 0]> own).
    split; [done|]. split; [by rewrite emb_zero|]. split; [done|].
    split; [apply (obj_aligned _ (<[a := 0]> own) a (new_sinfo a i)); try done; exists 0; split; [cbn; lia|done]|].
    split; cbn; [done|congruence|apply I|done].
Qed.

(** ** Large allocations *)

Lemma trailing_zeros_pow2 k : 0 ≤ k → trailing_zeros 64 (2 ^ k) = k.
Proof.
  intros Hk. rewrite <- (Z2Nat.id k) by done. induction (Z.to_nat k) as [|n IH]; [done|].
  rewrite Nat2Z.inj_succ, Z.pow_succ_r by lia. unfold trailing_zeros in *.
  pose proof (pow2_pos (Z.of_nat n) ltac:(lia)). destruct (2 ^ Z.of_nat n) as [|p|p] eqn:E; [lia| |lia].
  change (2 * Z.pos p) with (Z.pos p~0). cbn [pos_trailing_zeros]. rewrite IH by lia. lia.
Qed.

Lemma wp_order_for bytes s (Q : Z → Slab → Prop) : 0 < bytes → bytes + PAGE_SIZE < 2 ^ 64 →
  (∀ o, 0 ≤ o → bytes ≤ span o → Q o s) → wp (order_for bytes) Q s.
Proof.
  intros Hb Hm HQ. unfold order_for. wp_step. apply (wp_expect _ (bytes + PAGE_SIZE)).
  { unfold checked_add. by rewrite (proj2 (Z.ltb_lt _ _)). }
  set (n := (bytes + PAGE_SIZE - 1) / PAGE_SIZE). change PAGE_SIZE with 16384 in *.
  assert (1 ≤ n ∧ n < 2 ^ 51 ∧ bytes ≤ n * 16384) as (H1 & H2 & H3).
  { pose proof (Z.div_mod (bytes + 16384 - 1) 16384 ltac:(lia)). pose proof (Z.mod_pos_bound (bytes + 16384 - 1) 16384 ltac:(lia)).
    unfold n. lia. }
  assert (next_power_of_two n = Some (2 ^ Z.log2_up n)) as En.
  { unfold next_power_of_two. assert (Z.log2_up n ≤ 51) by (apply Z.log2_up_le_pow2; lia).
    pose proof (pow2_le (Z.log2_up n) 51 ltac:(split; [apply Z.log2_up_nonneg|done])).
    destruct (Z.leb_spec n 1) as [|]; [assert (n = 1) as -> by lia; done|].
    by rewrite (proj2 (Z.ltb_lt _ _)) by lia. }
  wp_step. apply (wp_expect _ (2 ^ Z.log2_up n)); [done|]. wp_steps.
  rewrite trailing_zeros_pow2 by apply Z.log2_up_nonneg. apply HQ; [apply Z.log2_up_nonneg|].
  unfold span. change PAGE_SIZE with 16384. pose proof (Z.log2_log2_up_spec n ltac:(lia)). lia.
Qed.

(** Nothing was served and nothing changed. *)
Definition refused sl al ext own s (p : Z) s' : Prop :=
  p = 0 ∧ slab_dmap s' = slab_dmap s ∧ lock_free (slab_lock s') ∧ used_bytes s' = used_bytes s ∧
  slab_core sl al ext own s'.

Section large.
Context (sl : gmap Z sinfo) (al : gmap Z ainfo) (ext own : gmap Z Z) (s : Slab) (l : Layout).
Context (I : slab_core sl al ext own s) (Hlf : lock_free (slab_lock s)) (Hl : layout_ok l).
Context (Hcl : size_class_index (Z.max (layout_size l) (layout_align l)) = None).

Lemma wp_block o (Q : Z → Slab → Prop) : 0 ≤ o →
  (∀ p', src_dmap p' = slab_dmap s → owns p' own → Q 0 (set_pages p' s)) →
  (∀ a p', src_dmap p' = slab_dmap s → own !! a = None → owns p' (<[a := o]> own) → Q (emb (slab_dmap s) a) (set_pages p' s)) →
  wp (on_pages (src_alloc_pages o)) Q s.
Proof.
  intros Ho H0 Ha. apply wp_on_pages. eapply wp_mono; [by apply (src_alloc_ok _ own o), Ho; apply I|].
  rewrite (v_dmap _ _ _ _ _ I). cbn beta. intros r p' [Ed [[-> Hown]|(a & -> & Hn & Hown)]]; eauto.
Qed.

Lemma refused_core p' : src_dmap p' = slab_dmap s → owns p' own → refused sl al ext own s 0 (set_pages p' s).
Proof. intros Ed Ho. split; [done|]. split; [done|]. split; [done|]. split; [done|]. split; cbn; try done; apply I. Qed.

Lemma wp_alloc_over_aligned : (layout_align l <=? PAGE_SIZE) = false →
  wp (alloc_over_aligned (Z.max (layout_size l) (layout_align l)) (layout_align l))
    (λ p s', refused sl al ext own s p s' ∨ served al ext s l p s') s.
Proof.
  intros Eal. pose proof Hl as [Hs (k & Hk & Ek)]. pose proof (pow2_le k 62 ltac:(lia)) as Hk2. rewrite <- Ek in Hk2.
  pose proof (pow2_pos k ltac:(lia)) as Hk1. rewrite <- Ek in Hk1. pose proof (v_rep _ _ _ _ _ I) as R0.
  pose proof (owns_geom _ _ (v_owns _ _ _ _ _ I)) as G0. set (d := slab_dmap s) in *.
  unfold alloc_over_aligned. set (sz := Z.max (layout_size l) (layout_align l)) in *.
  wp_step. apply (wp_expect _ (sz + layout_align l)); [unfold checked_add; by rewrite (proj2 (Z.ltb_lt _ _)) by lia|].
  wp_step. apply (wp_expect _ (sz + layout_align l + 8)); [unfold checked_add; by rewrite (proj2 (Z.ltb_lt _ _)) by lia|].
  wp_step. apply wp_order_for; [lia|change PAGE_SIZE with 16384; lia|]. intros o Ho Hso.
  wp_step. apply wp_block; [done|intros; wp_steps; left; by apply refused_core|]. intros a p' Ed Hnew Hown.
  pose proof (owns_geom _ _ Hown) as G1. assert (<[a := o]> own !! a = Some o) as Hoa by (by rewrite lookup_insert_eq).
  destruct (og_block _ G1 a o Hoa) as (Ha0 & Hae & Had & _).
  assert (PAGE_SIZE = 16384) as EP by done. assert (phys_addr a) as Hpa by (unfold phys_addr; lia).
  assert (emb d a + span o ≤ 2 ^ 64 ∧ 0 ≤ emb d a) as [Hend Hpos].
  { pose proof (block_emb d _ G1 a o (span o - 1) Hoa ltac:(lia)) as E.
    pose proof (emb_range d _ (proj1 (owned_phys _ G1 a o (span o - 1) Hoa ltac:(lia)))).
    pose proof (emb_range d a Hpa). lia. }
  rewrite (proj2 (Z.eqb_neq _ 0)) by (rewrite emb_zero by done; lia). fold d.
  wp_step. apply (wp_expect _ (emb d a + 8)); [unfold checked_add; by rewrite (proj2 (Z.ltb_lt _ _)) by lia|].
  wp_step. rewrite Ek in *. set (r := 2 ^ k * ((emb d a + 8 + 2 ^ k - 1) / 2 ^ k)).
  assert (emb d a + 8 ≤ r < emb d a + 8 + 2 ^ k) as Hr.
  { pose proof (Z.div_mod (emb d a + 8 + 2 ^ k - 1) (2 ^ k) ltac:(lia)).
    pose proof (Z.mod_pos_bound (emb d a + 8 + 2 ^ k - 1) (2 ^ k) ltac:(lia)). unfold r. lia. }
  apply (wp_expect _ r); [rewrite align_up_eq by lia; by rewrite (proj2 (Z.ltb_lt _ _)) by lia|].
  wp_step. unfold write_word. wp_steps. right. set (x := a + (r - emb d a)).
  assert (emb d x = r) as Ex by (unfold x; rewrite (block_emb d _ G1 a o) by (done || lia); lia).
  assert (dmap_to_phys (r - 8) = x - 8) as Ex8.
  { replace (r - 8) with (emb d (x - 8)); [apply emb_phys; unfold x, phys_addr; lia|].
    replace (x - 8) with (a + (r - emb d a - 8)) by (unfold x; lia). rewrite (block_emb d _ G1 a o) by (done || lia). lia. }
  rewrite Ex8. destruct (rep_large _ _ _ _ _ _ _ _ G0 R0 a o Hnew G1 x (<[x - 8 := emb d a]> (words s)) l) as [R1 Hnl]; try done.
  - unfold x. lia.
  - unfold a_size. cbn. rewrite Ek. fold sz. unfold x. lia.
  - rewrite Ek, Eal. split; [unfold x; lia|]. rewrite lookup_insert_eq, Ex. split; [done|apply Z.divide_factor_l].
  - intros y Hy. apply lookup_insert_ne. unfold x. lia.
  - split; [done|]. split; [done|]. split; [done|]. exists x, a, sl, (<[a := o]> own).
    split; [done|]. split; [lia|]. split; [done|]. split; [rewrite Ek; apply Z.divide_factor_l|].
    split; cbn; [done|congruence|apply I|done].
Qed.

Lemma wp_alloc_large : wp (alloc_large l) (λ p s', refused sl al ext own s p s' ∨ served al ext s l p s') s.
Proof.
  pose proof Hl as [Hs (k & Hk & Ek)]. pose proof (pow2_le k 62 ltac:(lia)) as Hk2. rewrite <- Ek in Hk2.
  pose proof (pow2_pos k ltac:(lia)) as Hk1. rewrite <- Ek in Hk1. pose proof (v_rep _ _ _ _ _ I) as R0.
  pose proof (owns_geom _ _ (v_owns _ _ _ _ _ I)) as G0. set (d := slab_dmap s) in *.
  unfold alloc_large. set (sz := Z.max (layout_size l) (layout_align l)) in *.
  wp_step. eapply wp_expect; [rewrite PAGE_SIZE_eq, align_up_eq by lia; rewrite (proj2 (Z.ltb_lt _ _)) by lia; done|].
  wp_step. set (n := _ / PAGE_SIZE).
  assert (0 ≤ n < 2 ^ 50) as Hn.
  { unfold n. rewrite PAGE_SIZE_eq, (Z.mul_comm (2 ^ 14)), Z.div_mul by lia. change (2 ^ 14) with 16384.
    pose proof (Z.div_mod (sz + 16384 - 1) 16384 ltac:(lia)). pose proof (Z.mod_pos_bound (sz + 16384 - 1) 16384 ltac:(lia)). lia. }
  assert (∃ q, next_power_of_two n = Some q) as [q Hq].
  { unfold next_power_of_two. assert (Z.log2_up n ≤ 50) by (destruct (decide (n = 0)) as [->|]; [done|apply Z.log2_up_le_pow2; lia]).
    pose proof (pow2_le (Z.log2_up n) 50 ltac:(split; [apply Z.log2_up_nonneg|done])).
    destruct (n <=? 1); [by eexists|]. rewrite (proj2 (Z.ltb_lt _ _)) by lia. by eexists. }
  apply (wp_expect _ q); [done|]. destruct (layout_align l <=? PAGE_SIZE) eqn:Eal.
  - wp_step. apply wp_order_for; [lia|change PAGE_SIZE with 16384; lia|]. intros o Ho Hso.
    apply wp_block; [done|intros; left; by apply refused_core|]. intros a p' Ed Hnew Hown. right.
    pose proof (owns_geom _ _ Hown) as G1. destruct (og_block _ G1 a o) as (Ha0 & Hae & Had & _); [by rewrite lookup_insert_eq|].
    pose proof (span_pos o Ho). assert (PAGE_SIZE = 16384) as EP by done. assert (phys_addr a) as Hpa by (unfold phys_addr; lia).
    destruct (rep_large _ _ _ _ _ _ _ _ G0 R0 a o Hnew G1 a (words s) l) as [R1 Hnl];
      [done|done|lia|unfold a_size; cbn; fold sz; lia|by rewrite Eal|done|].
    split; [done|]. split; [done|]. split; [done|]. exists a, a, sl, (<[a := o]> own).
    split; [done|]. split; [rewrite emb_zero by done; lia|]. split; [done|]. split.
    + transitivity PAGE_SIZE; [|by apply emb_aligned]. rewrite Ek, PAGE_SIZE_eq. apply pow2_divide. split; [lia|].
      destruct (decide (k ≤ 14)); [done|]. pose proof (pow2_le 15 k ltac:(lia)). change (2 ^ 15) with 32768 in *. lia.
    + split; cbn; [done|congruence|apply I|done].
  - by apply wp_alloc_over_aligned.
Qed.
End large.

(** ** Freeing *)

(** After a small object was freed. *)
Definition freed (al : gmap Z ainfo) ext s (x : Z) s' : Prop :=
  slab_dmap s' = slab_dmap s ∧ lock_free (slab_lock s') ∧ used_bytes s' = used_bytes s ∧
  ∃ sl' own', slab_core sl' (delete x al) ext own' s'.

Section free_small.
Context (sl : gmap Z sinfo) (al : gmap Z ainfo) (ext own : gmap Z Z) (s : Slab).
Context (I : slab_core sl al ext own s) (Hlf : lock_free (slab_lock s)).
Context (x : Z) (ai : ainfo) (Hx : al !! x = Some ai) (si : sinfo) (Hcl : a_class ai = Some (s_class si)).
#[local] Abbreviation a := (a_block ai).
#[local] Abbreviation i := (s_class si).
Context (Ha : sl !! a = Some si) (Hobj : is_obj a i x) (Hnf : x ∉ s_free si).
#[local] Abbreviation d := (slab_dmap s).
#[local] Abbreviation R := (v_rep _ _ _ _ _ I).
#[local] Abbreviation G := (owns_geom _ _ (v_owns _ _ _ _ _ I)).

Lemma free_header_ptr : align_down (emb d x) PAGE_SIZE = emb d a.
Proof.
  pose proof R as R0. pose proof G as G0. destruct (r_slabs _ _ _ _ _ _ _ _ R0 _ _ Ha) as [Ho S].
  destruct (obj_in_page _ _ _ _ _ _ _ _ G0 R0 _ _ _ Ha Hobj) as (H1 & H2 & H3 & Hpx & Hx0 & Ee).
  destruct (slab_phys _ _ _ _ _ _ _ _ G0 R0 _ _ Ha) as [Hpa _]. destruct (og_block _ G0 _ _ Ho) as (_ & _ & Hal & _).
  rewrite span_0 in H2. unfold SIZE_OF_HEADER in *.
  pose proof (emb_range d x Hpx). destruct (emb_aligned d _ Hpa Hal) as [q Eq].
  rewrite PAGE_SIZE_eq in *. rewrite align_down_eq by lia. rewrite Ee, Eq.
  rewrite Z.add_comm, Z.div_add, Z.div_small by lia. lia.
Qed.

(** The slab with the object back in front of its free list. *)
Lemma given_slab_ok hs' h h' : headers s !! a = Some h → hs' !! a = Some h' →
  payload h' = (emb d x, Z.of_nat (S (length (s_free si))), Z.of_nat i) →
  Z.of_nat (S (length (s_free si))) < cap i →
  slab_ok d hs' (<[x := free_list h]> (words s)) a {| s_class := i; s_free := x :: s_free si |}.
Proof.
  intros Hh Hh' Hp Hlt. destruct (r_slabs _ _ _ _ _ _ _ _ R _ _ Ha) as [_ [S1 S2 S3 S4 (h0 & Hh0 & Hp0 & Hch & _)]].
  assert (h0 = h) as -> by congruence. injection Hp as E1 E2 E3.
  split; cbn [s_class s_free]; [done|by apply NoDup_cons|intros y [->|Hy]%elem_of_cons; auto|done|].
  exists h'. unfold payload. rewrite E1, E2, E3. split; [done|]. split; [done|]. split; [|done].
  cbn [chain]. split; [done|]. exists (free_list h). rewrite lookup_insert_eq. split; [done|]. by apply chain_insert.
Qed.

(** The end when the slab stays. *)
Lemma wp_freed hs' h cs' s1 : headers s !! a = Some h → words s1 = <[x := free_list h]> (words s) → headers s1 = hs' →
  caches s1 = cs' → pages s1 = pages s → slab_dmap s1 = d → page_alloc_ptr s1 = page_alloc_ptr s →
  used_bytes s1 = used_bytes s → lock_held (slab_lock s1) →
  slab_ok d hs' (<[x := free_list h]> (words s)) a {| s_class := i; s_free := x :: s_free si |} →
  (∀ b sb, b ≠ a → sl !! b = Some sb → keeps (headers s) hs' b (s_free sb = [])) →
  (∃ L', lists_ok d hs' cs' (<[a := {| s_class := i; s_free := x :: s_free si |}]> sl) L') →
  wp unlock_slab (λ _, freed al ext s x) s1.
Proof.
  intros Hh E1 E2 E3 E4 E5 E6 E7 Hlk Sa K HL. apply wp_unlock_slab; [done|]. intros lk Hlf'.
  split; [done|]. split; [done|]. split; [done|]. eexists _, own. split; cbn; rewrite ?E1, ?E2, ?E3, ?E4, ?E5, ?E6; try apply I.
  apply (rep_give _ _ _ _ _ _ _ _ G R x ai a si); try done. intros y Hy. by apply lookup_insert_ne.
Qed.

(** The end when its last object was freed: the page goes back. *)
Lemma wp_dropped hs' h cs' s1 : headers s !! a = Some h → words s1 = <[x := free_list h]> (words s) → headers s1 = hs' →
  caches s1 = cs' → pages s1 = pages s → slab_dmap s1 = d → page_alloc_ptr s1 = page_alloc_ptr s →
  used_bytes s1 = used_bytes s → lock_held (slab_lock s1) → Z.of_nat (S (length (s_free si))) = cap i →
  (∀ b sb, b ≠ a → sl !! b = Some sb → keeps (headers s) hs' b (s_free sb = [])) →
  (∃ L', lists_ok d hs' cs' (delete a sl) L') →
  wp (unlock_slab ;; on_pages (src_free_pages (emb d a))) (λ _, freed al ext s x) s1.
Proof.
  intros Hh E1 E2 E3 E4 E5 E6 E7 Hlk Hlen K HL. destruct (r_slabs _ _ _ _ _ _ _ _ R _ _ Ha) as [Ho _].
  wp_step. apply wp_unlock_slab; [done|]. intros lk Hlf'. apply wp_on_pages. cbn [pages set_slab_lock]. rewrite E4.
  pose proof (src_free_ok _ _ _ _ (v_owns _ _ _ _ _ I) Ho) as Hw. rewrite (v_dmap _ _ _ _ _ I) in Hw.
  eapply wp_mono; [exact Hw|]. cbn beta. intros _ p' [Ed Hown]. split; [done|]. split; [done|]. split; [done|].
  exists (delete a sl), (delete a own). split; cbn; rewrite ?E1, ?E2, ?E3, ?E5, ?E6; [done|done|apply I|].
  apply (rep_drop _ _ _ _ _ _ _ _ G R x ai a si); try done. intros y Hy. by apply lookup_insert_ne.
Qed.

(** Where [free_small] is after it updated the header to [hs1]. *)
Definition back s1 (hs1 : gmap Z Header) (h : Header) : Prop :=
  headers s1 = hs1 ∧ words s1 = <[x := free_list h]> (words s) ∧ caches s1 = caches s ∧ pages s1 = pages s ∧
  slab_dmap s1 = d ∧ page_alloc_ptr s1 = page_alloc_ptr s ∧ used_bytes s1 = used_bytes s ∧ lock_held (slab_lock s1).

Lemma wp_free_last hs1 h h1 L s1 : headers s !! a = Some h → back s1 hs1 h → hs1 !! a = Some h1 →
  lists_ok d hs1 (caches s) sl L → a ∈ L i → Z.of_nat (S (length (s_free si))) = cap i →
  (∀ b sb, b ≠ a → sl !! b = Some sb → keeps (headers s) hs1 b (s_free sb = [])) →
  wp (unlink_header i (emb d a) ;; unlock_slab ;; on_pages (src_free_pages (emb d a))) (λ _, freed al ext s x) s1.
Proof.
  intros Hh (E1 & E2 & E3 & E4 & E5 & E6 & E7 & E8) Hh1 F1 Hin Hlen K1. pose proof R as R0. pose proof G as G0.
  destruct (r_slabs _ _ _ _ _ _ _ _ R0 _ _ Ha) as [_ S]. pose proof (so_class _ _ _ _ _ S) as Hi.
  destruct (core_slab_phys _ _ _ _ _ I _ _ Ha) as (_ & _ & Ed & _).
  destruct (lists_unlink d hs1 (caches s) sl L F1 (slab_phys _ _ _ _ _ _ _ _ G0 R0) i a h1 (delete a sl))
    as (L' & F' & _ & Hnx & Hpv); [done|done|done|intros; by rewrite lookup_delete_ne| |].
  { intros sj. by rewrite lookup_delete_eq. }
  destruct (ls_dll _ _ _ _ _ F1 i Hi) as (p & Hp & _).
  assert (∀ b sb, b ≠ a → sl !! b = Some sb → keeps (headers s) (hupd (hdr_next h1) (set_hdr_prev (hdr_prev h1))
    (hupd (hdr_prev h1) (set_hdr_next (hdr_next h1)) hs1)) b (s_free sb = [])) as K.
  { intros b sb Hne Hb. eapply keeps_trans; [by apply (K1 b sb)|]. eapply keeps_trans;
      apply (keeps_hupd d hs1 (caches s) sl L F1 _ i); try done; intros Hn; [by apply Hpv|by apply Hnx]. }
  wp_step. unfold unlink_header. wp_step. apply (wp_deref_header _ _ h1); [by rewrite E1, Ed|]. wp_step.
  destruct (Z.eqb_spec (hdr_prev h1) 0) as [Ep|Ep].
  - apply wp_set_plist; [rewrite E3; by exists p|]. apply wp_hupd.
    { intros Hn. cbn [headers set_caches]. rewrite E1. by apply (member_header d hs1 (caches s) sl L F1 i), Hnx. }
    assert (hupd (hdr_prev h1) (set_hdr_next (hdr_next h1)) hs1 = hs1) as E0 by (by rewrite Ep). rewrite E0 in F', K.
    eapply (wp_dropped _ h); try done; cbn; rewrite ?E1, ?E3; [done|by exists L'].
  - apply wp_update_header; [rewrite E1; by apply (member_header d hs1 (caches s) sl L F1 i), Hpv|]. apply wp_hupd.
    { intros Hn. cbn [headers set_headers]. rewrite E1. apply is_Some_alter.
      by apply (member_header d hs1 (caches s) sl L F1 i), Hnx. }
    assert (hupd (hdr_prev h1) (set_hdr_next (hdr_next h1)) hs1 = alter (set_hdr_next (hdr_next h1)) (dmap_to_phys (hdr_prev h1)) hs1)
      as E0 by (unfold hupd; by rewrite (proj2 (Z.eqb_neq _ _) Ep)). rewrite E0 in F', K.
    eapply (wp_dropped _ h); try done; cbn; rewrite ?E1, ?E3; [done|by exists L'].
Qed.

Lemma wp_free_full hs1 h h1 L s1 : headers s !! a = Some h → back s1 hs1 h → hs1 !! a = Some h1 →
  payload h1 = (emb d x, Z.of_nat (S (length (s_free si))), Z.of_nat i) → hdr_prev h1 = 0 →
  lists_ok d hs1 (caches s) sl L → s_free si = [] →
  (∀ b sb, b ≠ a → sl !! b = Some sb → keeps (headers s) hs1 b (s_free sb = [])) →
  wp ((let* plist := get_plist i in
       update_header (emb d a) (set_hdr_next plist) ;;
       (if plist =? 0 then ret tt else update_header plist (set_hdr_prev (emb d a))) ;;
       set_plist i (emb d a)) ;; unlock_slab) (λ _, freed al ext s x) s1.
Proof.
  intros Hh (E1 & E2 & E3 & E4 & E5 & E6 & E7 & E8) Hh1 Hp1 Hpv F1 Hfr K1. pose proof R as R0. pose proof G as G0.
  destruct (r_slabs _ _ _ _ _ _ _ _ R0 _ _ Ha) as [_ S]. pose proof (so_class _ _ _ _ _ S) as Hi.
  destruct (core_slab_phys _ _ _ _ _ I _ _ Ha) as (_ & _ & Ed & _). destruct (class_facts _ Hi).
  destruct (ls_dll _ _ _ _ _ F1 i Hi) as (p & Hp & _).
  assert (∀ j, (j < 9)%nat → a ∉ L j) as Hout.
  { intros j Hj (sj & Hs & _ & Hne)%(ls_mem _ _ _ _ _ F1); [|done]. by simplify_eq. }
  set (si' := {| s_class := i; s_free := x :: s_free si |}).
  destruct (lists_push d hs1 (caches s) sl L F1 (slab_phys _ _ _ _ _ _ _ _ G0 R0) i a p (set_hdr_next p h1) si'
    (alter (set_hdr_next p) a hs1) (<[a := si']> sl)) as [F' Hin]; try done;
    [by rewrite lookup_alter_eq, Hh1|intros; by rewrite lookup_alter_ne|intros; by rewrite lookup_insert_ne|by rewrite lookup_insert_eq|].
  wp_step. wp_step. apply (wp_get_plist _ _ p); [by rewrite E3|]. wp_step.
  apply wp_update_header; [rewrite E1, Ed, Hh1; by eexists|]. wp_step. rewrite E1, Ed. apply wp_hupd.
  { intros Hn. cbn [headers set_headers]. rewrite lookup_alter_ne by (intros E; apply (Hout i Hi); rewrite E; by apply Hin).
    by apply (member_header d hs1 (caches s) sl L F1 i), Hin. }
  apply wp_set_plist; [cbn; rewrite E3; by exists p|]. cbn [headers set_headers caches set_caches]. rewrite E3.
  eapply (wp_freed _ h); try done.
  - apply (given_slab_ok _ h (set_hdr_next p h1)); try done.
    + cbn. unfold hupd. destruct (Z.eqb_spec p 0) as [|Hn]; [by rewrite lookup_alter_eq, Hh1|].
      rewrite lookup_alter_ne, lookup_alter_eq, Hh1; [done|]. intros E. apply (Hout i Hi). rewrite <- E. by apply Hin.
    + rewrite Hfr. cbn. lia.
  - intros b sb Hne Hb. eapply keeps_trans; [by apply (K1 b sb)|]. eapply keeps_trans; [by apply keeps_alter|].
    by apply (keeps_hupd d hs1 (caches s) sl L F1 _ i).
  - eexists. exact F'.
Qed.

Lemma wp_free_small : wp (free_small (emb d x)) (λ _, freed al ext s x) s.
Proof.
  pose proof R as R0. pose proof G as G0. destruct (r_slabs _ _ _ _ _ _ _ _ R0 _ _ Ha) as [Ho So].
  pose proof So as [Hi S2 S3 S4 (h & Hh & Hp & Hch & Hfull)]. destruct (class_facts _ Hi) as [C1 C2 C3 C4 C5 C6 C7].
  destruct (core_slab_phys _ _ _ _ _ I _ _ Ha) as (_ & _ & Ed & _). injection Hp as Efc Esc.
  destruct (obj_in_page _ _ _ _ _ _ _ _ G0 R0 _ _ _ Ha Hobj) as (_ & _ & _ & Hpx & _).
  destruct (r_lists _ _ _ _ _ _ _ _ R0) as [L F]. destruct (ls_dll _ _ _ _ _ F i Hi) as (p & Hpl & _).
  set (n := length (s_free si)) in *. set (g1 := set_free_list (emb d x)). set (g2 := set_free_count (Z.of_nat (S n))).
  set (hs1 := alter g2 a (alter g1 a (headers s))).
  assert (hs1 !! a = Some (g2 (g1 h))) as Hh1 by (unfold hs1; by rewrite !lookup_alter_eq, Hh).
  assert (lists_ok d hs1 (caches s) sl L) as F1 by (apply lists_alter; [by apply lists_alter|done]).
  assert (∀ b sb, b ≠ a → sl !! b = Some sb → keeps (headers s) hs1 b (s_free sb = [])) as K1.
  { intros b sb Hne _. eapply keeps_trans; by apply keeps_alter. }
  assert (payload (g2 (g1 h)) = (emb d x, Z.of_nat (S n), Z.of_nat i)) as Hp1 by (unfold payload; cbn; by rewrite Esc).
  unfold free_small. rewrite free_header_ptr. wp_step. apply wp_lock_slab; [done|]. intros lk Hlk.
  wp_step. apply (wp_deref_header _ _ h); [cbn; by rewrite Ed|]. rewrite Esc, Nat2Z.id.
  wp_step. apply (wp_get_plist _ _ p); [done|]. wp_step. unfold write_word. wp_steps. rewrite emb_phys by done.
  apply wp_update_header; [cbn; rewrite Ed; by exists h|]. cbn [headers set_words set_slab_lock]. rewrite Ed, Efc.
  wp_step. apply (wp_expect _ (Z.of_nat (S n))); [unfold checked_add; rewrite (proj2 (Z.ltb_lt _ _)) by lia; f_equal; lia|].
  wp_step. apply wp_update_header; [cbn; rewrite Ed, lookup_alter_eq, Hh; by eexists|].
  cbn [headers set_headers]. rewrite Ed. fold g1 g2 hs1.
  wp_step. apply (wp_expect _ (class_size i)); [done|]. wp_step. apply (wp_expect _ (start_off i)); [done|].
  wp_step. apply (wp_expect _ (PAGE_SIZE - start_off i)).
  { unfold checked_sub. rewrite (proj2 (Z.leb_le _ _)) by (change PAGE_SIZE with 16384; lia). done. }
  fold (cap i). cbn zeta. rewrite (wrap_small 16) by lia.
  lazymatch goal with |- wp _ _ ?t => assert (back t hs1 h) as HB by done; generalize dependent t; intros s1 HB end.
  destruct (Z.eqb_spec (Z.of_nat (S n)) (cap i)) as [El|El].
  - rewrite (proj2 (Z.eqb_neq (Z.of_nat n) 0)) by lia. apply (wp_free_last hs1 h (g2 (g1 h)) L); try done.
    apply (ls_mem _ _ _ _ _ F); [done|]. exists si. split; [done|]. split; [done|]. intros E. unfold n in El. rewrite E in El. cbn in El. lia.
  - destruct (Z.eqb_spec (Z.of_nat n) 0) as [E0|E0].
    + assert (s_free si = []) as Hfr by (apply length_zero_iff_nil; unfold n in E0; lia).
      apply (wp_free_full hs1 h (g2 (g1 h)) L); try done. by apply Hfull.
    + wp_steps. destruct HB as (E1 & E2 & E3 & E4 & E5 & E6 & E7 & E8). eapply (wp_freed _ h); try done.
      * apply (given_slab_ok _ h (g2 (g1 h))); try done. fold n. lia.
      * exists L. apply (lists_payload d (alter g1 a (headers s)) (caches s) sl L) with (si := si); try done;
          [by apply lists_alter|]. intros E. unfold n in E0. by rewrite E in E0.
Qed.
End free_small.

(** ** The two entry points *)

Lemma slab_core_set sl al ext own s lk u : slab_core sl al ext own s → slab_core sl al ext own (set_used_bytes u (set_slab_lock lk s)).
Proof. intros I. split; cbn; apply I. Qed.

(** The page source had no page for a request that needs a new slab. *)
Definition alloc_fails s l : Prop :=
  no_page s ∧ ∃ i, size_class_index (Z.max (layout_size l) (layout_align l)) = Some i ∧ caches s !! i = Some 0.

(** What an allocation gives: nothing for a large request that no block
    could serve, or a fresh, aligned object. *)
Definition allocated sl al ext own s l (p : Z) s' : Prop :=
  slab_dmap s' = slab_dmap s ∧
  ((p = 0 ∧ size_class_index (Z.max (layout_size l) (layout_align l)) = None ∧ slab_inv sl al ext own s') ∨
   ∃ x b sl' own', p = emb (slab_dmap s) x ∧ p ≠ 0 ∧ al !! x = None ∧ (layout_align l | p) ∧
     slab_inv sl' (<[x := {| a_layout := l; a_block := b |}]> al) ext own' s').

(** The end of [alloc_impl]. *)
Definition count_alloc l (ptr : Z) : M Slab Z :=
  (if ptr =? 0 then ret tt
   else modify (λ s, set_used_bytes (wrap 64 (used_bytes s + layout_size l)) s)) ;;
  ret ptr.

Lemma wp_count_served sl al ext own s l p s' : slab_inv sl al ext own s → served al ext s l p s' →
  wp (count_alloc l p) (allocated sl al ext own s l) s'.
Proof.
  intros I (Ed & Hlf & Hu & x & b & sl' & own' & Ep & Hp0 & Hx & Hal & C). unfold count_alloc.
  rewrite (proj2 (Z.eqb_neq p 0)) by done. wp_steps. split; [done|]. right. exists x, b, sl', own'.
  split; [done|]. split; [done|]. split; [done|]. split; [done|].
  split; cbn; [split; cbn; apply C|done|]. rewrite msum_insert by done. rewrite Hu, (v_used _ _ _ _ _ I). cbn.
  rewrite wrap_add_l. f_equal. lia.
Qed.

Lemma wp_count_refused sl al ext own s l p s' : slab_inv sl al ext own s →
  size_class_index (Z.max (layout_size l) (layout_align l)) = None → refused sl al ext own s p s' →
  wp (count_alloc l p) (allocated sl al ext own s l) s'.
Proof.
  intros I Hcl (-> & Ed & Hlf & Hu & C). unfold count_alloc. wp_steps. split; [done|]. left. split; [done|]. split; [done|].
  split; [done|done|]. rewrite Hu. apply I.
Qed.

(** [served] from a state that differs in its lock. *)
Lemma served_lock al ext s l lk p s' : served al ext (set_slab_lock lk s) l p s' → served al ext s l p s'.
Proof. done. Qed.

Lemma wp_alloc_impl sl al ext own s l : slab_inv sl al ext own s → layout_ok l →
  (alloc_fails s l ∧ faults (alloc_impl l) Panic s) ∨ wp (alloc_impl l) (allocated sl al ext own s l) s.
Proof.
  intros I Hl. pose proof (v_core _ _ _ _ _ I) as C. pose proof (v_lock _ _ _ _ _ I) as Hlf.
  pose proof (size_class_index_spec (Z.max (layout_size l) (layout_align l)) ltac:(destruct Hl; lia)) as Hsc.
  unfold alloc_impl. cbn zeta.
  destruct (size_class_index (Z.max (layout_size l) (layout_align l))) as [i|] eqn:Hcl; cycle 1.
  { right. wp_step. eapply wp_page_alloc; [done|]. wp_step. eapply wp_mono; [by apply (wp_alloc_large sl al ext own)|].
    intros p s' [Hr|Hs]; [by apply wp_count_refused|by apply wp_count_served]. }
  destruct Hsc as [Hi _]. destruct (r_lists _ _ _ _ _ _ _ _ (v_rep _ _ _ _ _ C)) as [L F].
  destruct (ls_dll _ _ _ _ _ F i Hi) as (p & Hp & _).
  destruct (Z.eqb_spec p 0) as [E0|E0]; cycle 1.
  { right. wp_step. eapply wp_page_alloc; [done|]. wp_step. wp_step. apply wp_lock_slab; [done|]. intros lk Hlk.
    wp_step. apply (wp_get_plist _ _ p); [done|]. rewrite (proj2 (Z.eqb_neq p 0)) by done. cbn [negb].
    eapply wp_mono; [apply (wp_alloc_partial sl al ext own) with (l := l); try done; by apply (slab_core_set _ _ _ _ _ _ (used_bytes s))|].
    intros q s' Hs. by apply wp_count_served. }
  destruct (lock_slab_runs s Hlf) as (lk1 & lk2 & E1 & E2 & Hlk2).
  destruct (wp_alloc_new_slab sl al ext own (set_slab_lock lk2 s) i l) as [[Hno Hf]|Hw]; try done;
    [by apply (slab_core_set _ _ _ _ _ _ (used_bytes s))|left|right].
  - split; [split; [done|]; exists i; split; [done|]; by rewrite <- E0|].
    apply faults_bind. eapply wp_page_alloc; [done|]. apply faults_here, faults_bind. unfold wp. rewrite E1.
    apply faults_bind. apply (wp_get_plist _ _ p); [done|]. rewrite E0. apply faults_bind. unfold wp. by rewrite E2.
  - wp_step. eapply wp_page_alloc; [done|]. wp_step. wp_step. unfold wp at 1. rewrite E1.
    wp_step. apply (wp_get_plist _ _ p); [done|]. rewrite E0. cbn [negb Z.eqb]. wp_step. unfold wp at 1. rewrite E2.
    eapply wp_mono; [exact Hw|]. intros q s' Hs. by apply wp_count_served.
Qed.

(** What a deallocation leaves. *)
Definition deallocated al ext s (x : Z) s' : Prop :=
  slab_dmap s' = slab_dmap s ∧ ∃ sl' own', slab_inv sl' (delete x al) ext own' s'.

Lemma wp_count_freed sl al ext own s x ai s' : slab_inv sl al ext own s → al !! x = Some ai → freed al ext s x s' →
  wp (modify (λ s, set_used_bytes (wrap 64 (used_bytes s - layout_size (a_layout ai))) s)) (λ _, deallocated al ext s x) s'.
Proof.
  intros I Hx (Ed & Hlf & Hu & sl' & own' & C). wp_steps. split; [done|]. exists sl', own'.
  split; cbn; [split; cbn; apply C|done|]. rewrite Hu, (v_used _ _ _ _ _ I), (msum_delete _ al x ai Hx).
  unfold Z.sub. rewrite wrap_add_l. f_equal. lia.
Qed.

(** The block of a large allocation goes back. *)
Lemma wp_free_large sl al ext own s x ai : slab_core sl al ext own s → lock_free (slab_lock s) → al !! x = Some ai →
  a_class ai = None → wp (on_pages (src_free_pages (emb (slab_dmap s) (a_block ai)))) (λ _, freed al ext s x) s.
Proof.
  intros C Hlf Hx Hcl. pose proof (v_rep _ _ _ _ _ C) as R0. pose proof (owns_geom _ _ (v_owns _ _ _ _ _ C)) as G0.
  destruct (live_in_block _ _ _ _ _ _ _ _ G0 R0 x ai Hx) as (o & Ho & _).
  apply wp_on_pages. pose proof (src_free_ok _ _ _ _ (v_owns _ _ _ _ _ C) Ho) as Hw. rewrite (v_dmap _ _ _ _ _ C) in Hw.
  eapply wp_mono; [exact Hw|]. cbn beta. intros _ p' [Ed Hown]. split; [done|]. split; [done|]. split; [done|].
  exists sl, (delete (a_block ai) own). split; cbn; [done|done|apply C|]. by apply (rep_unlarge _ _ _ _ _ _ _ _ G0 R0).
Qed.

Lemma wp_free_impl sl al ext own s x ai : slab_inv sl al ext own s → al !! x = Some ai →
  wp (free_impl (emb (slab_dmap s) x) (a_layout ai)) (λ _, deallocated al ext s x) s.
Proof.
  intros I Hx. pose proof (v_core _ _ _ _ _ I) as C. pose proof (v_lock _ _ _ _ _ I) as Hlf.
  pose proof (v_rep _ _ _ _ _ C) as R0. pose proof (owns_geom _ _ (v_owns _ _ _ _ _ C)) as G0.
  destruct (live_in_block _ _ _ _ _ _ _ _ G0 R0 x ai Hx) as (o & Ho & Hlo & Hhi & Hpos).
  destruct (owned_phys _ G0 _ _ (x - a_block ai) Ho ltac:(lia)) as [Hpx Hx0].
  replace (a_block ai + (x - a_block ai)) with x in * by lia.
  destruct (r_alloc _ _ _ _ _ _ _ _ R0 x ai Hx) as [Hl Hp]. unfold placed in Hp.
  unfold free_impl. rewrite (proj2 (Z.eqb_neq _ 0)) by (by rewrite emb_zero). cbn zeta.
  wp_step. eapply wp_page_alloc; [done|]. wp_step. fold (a_size ai). fold (a_class ai).
  apply (wp_mono _ (λ _, freed al ext s x)); [|intros [] s1 Hs; by apply (wp_count_freed sl al ext own)].
  destruct (a_class ai) as [i|] eqn:Hcl.
  - destruct Hp as (si & Hs & Hc & Hobj & Hnf). subst i. by apply (wp_free_small sl al ext own) with (ai := ai) (si := si).
  - destruct Hp as (Hs & o' & Ho' & _ & _ & Hbk). destruct (layout_align (a_layout ai) <=? PAGE_SIZE).
    + rewrite Hbk at 1. by apply (wp_free_large sl al ext own).
    + destruct Hbk as (H8 & Hw & _). destruct (og_block _ G0 _ _ Ho) as [Hb0 _]. wp_step. apply (wp_read_word _ _ (emb (slab_dmap s) (a_block ai))).
      * replace (emb (slab_dmap s) x - 8) with (emb (slab_dmap s) (x - 8)); [rewrite emb_phys; [done|unfold phys_addr in *; lia]|].
        replace x with (a_block ai + (x - a_block ai)) at 2 by lia.
        replace (x - 8) with (a_block ai + (x - a_block ai - 8)) by lia. rewrite !(block_emb _ _ G0 _ _ _ Ho) by lia. lia.
      * by apply (wp_free_large sl al ext own).
Qed.
End proofs.
