(* ===== verification/SlabDmap.v ===== *)
(** * Moving the slab allocator to the direct map

    [transition_dmap] rewrites the list heads, the headers on the lists and
    the free lists inside the slabs; slabs without a free object are on no
    list and hold no pointer.  The slabs, the live allocations and the pages
    that were handed out are unchanged. *)

From S2P Require Import Prelude Vm Sync PageAlloc Dll PageInv PageSpec PageDmap Slab SlabInv SlabLists SlabRep SlabProofs.

Section dmap.
Context {P : Type} `{T : AddressTranslator} {TL : AddressTranslatorLaws T} `{PS : PageSource P} {PL : PageSourceLaws P}.
#[local] Abbreviation Slab := (SlabAllocator P).
Implicit Types (sl : gmap Z sinfo) (al : gmap Z ainfo) (own ext w : gmap Z Z) (hs : gmap Z Header) (s : Slab).

Definition header_to_dmap (h : Header) : Header :=
  set_free_list (to_dmap (free_list h)) (set_hdr_prev (to_dmap (hdr_prev h)) (set_hdr_next (to_dmap (hdr_next h)) h)).

(** ** One free list *)

Lemma chain_size d w p l : NoDup l → chain d w p l → (length l ≤ size w)%nat.
Proof.
  intros Hnd Hc. apply NoDup_keys_size; [done|]. intros a Ha. clear Hnd. revert p Hc.
  induction l as [|x l IH]; intros p; [by apply not_elem_of_nil in Ha|]. cbn [chain].
  intros (_ & nx & Hx & Hc). apply elem_of_cons in Ha as [->|Ha]; [by eexists|by eapply IH].
Qed.

Lemma wp_transition_objects l fuel p s (Q : unit → Slab → Prop) :
  (∀ x, x ∈ l → phys_addr x ∧ x ≠ 0) → NoDup l → chain false (words s) p l → (length l ≤ fuel)%nat →
  (∀ w, chain true w (to_dmap p) l → (∀ y, y ∉ l → w !! y = words s !! y) → Q tt (set_words w s)) →
  wp (transition_objects fuel p) Q s.
Proof.
  revert fuel p s. induction l as [|x l IH]; intros fuel p s Hph Hnd Hc Hf HQ.
  - cbn in Hc. subst p. assert (wp (ret tt) Q s) as Hr.
    { wp_steps. specialize (HQ (words s)). assert (set_words (words s) s = s) as Es by by destruct s.
      rewrite Es in HQ. by apply HQ. }
    by destruct fuel.
  - destruct Hc as (-> & nx & Hx & Hc). destruct fuel as [|fuel]; [cbn in Hf; lia|]. change (emb false x) with x in *.
    destruct (Hph x) as [Hp Hp0]; [by apply elem_of_cons; left|]. apply NoDup_cons in Hnd as [Hxl Hnd].
    cbn [transition_objects]. rewrite (proj2 (Z.eqb_neq _ _) Hp0). cbn zeta. wp_step.
    apply (wp_read_word _ _ nx); [by rewrite to_dmap_phys|]. unfold write_word. wp_steps. rewrite to_dmap_phys by done.
    apply IH; cbn [words set_words]; [intros; apply Hph, elem_of_cons; auto|done|by apply chain_insert|cbn in Hf; lia|].
    intros w Hw Hfr. apply (HQ w).
    + cbn [chain]. split; [done|]. exists (to_dmap nx). split; [|done]. rewrite Hfr by done. by rewrite lookup_insert_eq.
    + intros y [Hy1 Hy2]%not_elem_of_cons. rewrite Hfr by done. by rewrite lookup_insert_ne.
Qed.

(** ** The lists of headers *)

Lemma elem_of_lists (L : nat → list Z) ids a : a ∈ concat (L <$> ids) ↔ ∃ i, i ∈ ids ∧ a ∈ L i.
Proof.
  induction ids as [|j ids IH]; cbn; [split; [by intros ?%not_elem_of_nil|by intros (i & ?%not_elem_of_nil & _)]|].
  rewrite elem_of_app, IH. split.
  - intros [Ha|(i & Hi & Ha)]; [exists j|exists i]; split; try done; apply elem_of_cons; auto.
  - intros (i & [->|Hi]%elem_of_cons & Ha); eauto.
Qed.

Section lists.
(** The free objects of each slab. *)
Context (F : Z → list Z) (HFn : ∀ a, NoDup (F a)) (HFp : ∀ a x, x ∈ F a → phys_addr x ∧ x ≠ 0).
Context (HFd : ∀ a b x, x ∈ F a → x ∈ F b → a = b).

(** The headers at [A] and their free lists have moved. *)
Record moves (A : list Z) hs w hs' w' : Prop := {
  mv_in a : a ∈ A → hs' !! a = header_to_dmap <$> hs !! a;
  mv_out a : a ∉ A → hs' !! a = hs !! a;
  mv_chain a h : a ∈ A → hs !! a = Some h → chain true w' (to_dmap (free_list h)) (F a);
  mv_words y : (∀ a, a ∈ A → y ∉ F a) → w' !! y = w !! y
}.

(** Headers that are still to be moved. *)
Definition ready (A : list Z) hs w : Prop := ∀ a, a ∈ A →
  phys_addr a ∧ a ≠ 0 ∧ ∃ h, hs !! a = Some h ∧ chain false w (free_list h) (F a).

Lemma moves_nil hs w : moves [] hs w hs w.
Proof. split; intros; first [done|by exfalso; eapply not_elem_of_nil]. Qed.

Lemma moves_app A B hs w hs1 w1 hs2 w2 : (∀ a, a ∈ A → a ∉ B) → moves A hs w hs1 w1 → moves B hs1 w1 hs2 w2 →
  moves (A ++ B) hs w hs2 w2.
Proof.
  intros Hd M1 M2. split.
  - intros a [Ha|Ha]%elem_of_app.
    + rewrite (mv_out _ _ _ _ _ M2), (mv_in _ _ _ _ _ M1); auto.
    + rewrite (mv_in _ _ _ _ _ M2), (mv_out _ _ _ _ _ M1); [done|intros Ha'; by apply (Hd a)|done].
  - intros a [Ha Hb]%not_elem_of_app. by rewrite (mv_out _ _ _ _ _ M2), (mv_out _ _ _ _ _ M1).
  - intros a h [Ha|Ha]%elem_of_app Hh.
    + apply (chain_frame _ w1); [|by apply (mv_chain _ _ _ _ _ M1)]. intros x Hx. apply (mv_words _ _ _ _ _ M2).
      intros b Hb Hx'. apply (Hd a Ha). by rewrite (HFd a b x).
    + apply (mv_chain _ _ _ _ _ M2); [done|]. rewrite (mv_out _ _ _ _ _ M1); [done|]. intros Ha'. by apply (Hd a).
  - intros y Hy. rewrite (mv_words _ _ _ _ _ M2), (mv_words _ _ _ _ _ M1); [done|..];
      intros a Ha; apply Hy, elem_of_app; auto.
Qed.

Lemma ready_moves A B hs w hs1 w1 : (∀ a, a ∈ A → a ∉ B) → moves A hs w hs1 w1 → ready B hs w → ready B hs1 w1.
Proof.
  intros Hd M Hr a Ha. destruct (Hr a Ha) as (Hp & H0 & h & Hh & Hc). split; [done|]. split; [done|]. exists h. split.
  - rewrite (mv_out _ _ _ _ _ M); [done|]. intros Ha'. by apply (Hd a).
  - apply (chain_frame _ w); [|done]. intros x Hx. apply (mv_words _ _ _ _ _ M). intros b Hb Hx'.
    apply (Hd b Hb). by rewrite (HFd b a x).
Qed.

(** One header. *)
Lemma moves_one a h hs w w' : hs !! a = Some h → chain true w' (to_dmap (free_list h)) (F a) →
  (∀ y, y ∉ F a → w' !! y = w !! y) → moves [a] hs w (<[a := header_to_dmap h]> hs) w'.
Proof.
  intros Hh Hc Hw. split.
  - intros b ->%list_elem_of_singleton. by rewrite lookup_insert_eq, Hh.
  - intros b Hb%not_elem_of_cons. rewrite lookup_insert_ne; naive_solver.
  - intros b h' ->%list_elem_of_singleton Hh'. by simplify_eq.
  - intros y Hy. apply Hw, Hy, list_elem_of_singleton. done.
Qed.

Lemma wp_transition_headers L fuel pp p q s (Q : unit → Slab → Prop) : NoDup L → ready L (headers s) (words s) →
  dseg (emb false) (headers s) pp p q 0 L → (length L ≤ fuel)%nat →
  (∀ hs w, moves L (headers s) (words s) hs w → Q tt (set_words w (set_headers hs s))) →
  wp (transition_headers fuel p) Q s.
Proof.
  revert fuel pp p s. induction L as [|a L IH]; intros fuel pp p s Hnd Hr Hs Hf HQ.
  - destruct Hs as [-> _]. assert (wp (ret tt) Q s) as Hret.
    { wp_steps. specialize (HQ _ _ (moves_nil _ _)). by destruct s. }
    by destruct fuel.
  - destruct Hs as (-> & n & Hn & _ & Hs). destruct fuel as [|fuel]; [cbn in Hf; lia|]. change (emb false a) with a in *.
    destruct (Hr a) as (Hp & Hp0 & h & Hh & Hc); [by apply elem_of_cons; left|]. assert (n = h) as -> by congruence.
    apply NoDup_cons in Hnd as [Ha Hnd]. cbn [transition_headers]. rewrite (proj2 (Z.eqb_neq _ _) Hp0). cbn zeta. wp_step.
    apply (wp_deref_header _ _ h); [by rewrite to_dmap_phys|].
    do 3 (wp_step; apply wp_update_header; rewrite to_dmap_phys by done; [cbn; by rewrite ?lookup_alter_eq, Hh|]).
    cbn [headers set_headers]. rewrite !alter_alter_eq. wp_steps.
    apply (wp_transition_objects (F a)); [by apply HFp|done|done| |].
    { pose proof (chain_size _ _ _ _ (HFn a) Hc). cbn. lia. }
    cbn [words set_headers]. intros w1 Hw1 Hfr.
    lazymatch goal with |- context [alter ?f a (headers s)] =>
      assert (alter f a (headers s) = <[a := header_to_dmap h]> (headers s)) as -> by
        (apply map_eq; intros b; destruct (decide (b = a)) as [->|]; [by rewrite lookup_alter_eq, lookup_insert_eq, Hh|];
         by rewrite lookup_alter_ne, lookup_insert_ne) end.
    pose proof (moves_one a h (headers s) (words s) w1 Hh Hw1 Hfr) as M.
    assert (∀ b, b ∈ [a] → b ∉ L) as Hd by (by intros b ->%list_elem_of_singleton).
    apply (IH fuel a (hdr_next h)); cbn [headers words set_headers set_words]; [done| | |cbn in Hf; lia|].
    + apply (ready_moves [a] L (headers s) (words s)); [done|done|]. intros b Hb. apply Hr, elem_of_cons. auto.
    + by apply dseg_insert_ne.
    + intros hs w M'. apply (HQ hs w). by apply (moves_app [a] L (headers s) (words s) _ _ _ _ Hd M).
Qed.

(** The loop over the size classes. *)
Lemma wp_transition_caches ids (L : nat → list Z) s (Q : unit → Slab → Prop) : NoDup ids →
  (∀ i, i ∈ ids → NoDup (L i)) → (∀ i j a, i ∈ ids → j ∈ ids → a ∈ L i → a ∈ L j → i = j) →
  (∀ i, i ∈ ids → ready (L i) (headers s) (words s)) →
  (∀ i, i ∈ ids → ∃ p, caches s !! i = Some p ∧ dll (emb false) (headers s) p (L i)) →
  (∀ cs hs w, (∀ i, cs !! i = if decide (i ∈ ids) then to_dmap <$> caches s !! i else caches s !! i) →
     moves (concat (L <$> ids)) (headers s) (words s) hs w →
     Q tt (set_words w (set_headers hs (set_caches cs s)))) →
  wp (transition_caches ids) Q s.
Proof.
  revert s. induction ids as [|i ids IH]; intros s Hnd Hndl Hdis Hr Hdll HQ; cbn [transition_caches].
  - wp_steps. specialize (HQ (caches s) _ _ (λ _, eq_refl) (moves_nil _ _)). by destruct s.
  - apply NoDup_cons in Hnd as [Hi Hnd]. assert (i ∈ i :: ids) as Hii by (apply elem_of_cons; auto).
    assert (∀ j, j ∈ ids → j ∈ i :: ids) as Hij by (intros; apply elem_of_cons; auto).
    destruct (Hdll i Hii) as (p & Hp & q & Hs). wp_step. apply (wp_get_plist _ _ p); [done|].
    wp_step. apply wp_set_plist; [by eexists|]. wp_steps.
    apply (wp_transition_headers (L i) _ 0 p q); cbn [headers words set_caches]; [auto|auto|done| |].
    { assert (length (L i) ≤ size (headers s))%nat; [|lia]. apply NoDup_keys_size; [auto|]. intros a Ha. by eapply dseg_lookup. }
    intros hs1 w1 M1. assert (∀ j a, j ∈ ids → a ∈ L i → a ∉ L j) as Hd.
    { intros j a Hj Ha Ha'. apply Hi. by rewrite (Hdis i j a) by auto. }
    apply IH; cbn [headers words caches set_headers set_words set_caches]; [done|auto|eauto| | |].
    + intros j Hj. apply (ready_moves (L i) (L j) (headers s) (words s)); eauto.
    + intros j Hj. destruct (Hdll j (Hij j Hj)) as (pj & Hpj & Hl). exists pj. split.
      * rewrite list_lookup_insert_ne; [done|]. by intros ->.
      * apply (dll_frame _ (headers s)); [|done]. intros a Ha. apply (mv_out _ _ _ _ _ M1). intros Ha'. by eapply Hd.
    + intros cs hs w Hcs M2. apply (HQ cs hs w).
      * intros j. rewrite Hcs. destruct (decide (j = i)) as [->|Hne].
        { rewrite decide_False, list_lookup_insert_eq, decide_True, Hp by (done || by eapply lookup_lt_Some). done. }
        rewrite list_lookup_insert_ne by done. destruct (decide (j ∈ ids)) as [Hj|Hj];
          [by rewrite decide_True by auto|]. rewrite decide_False; [done|]. rewrite elem_of_cons. naive_solver.
      * cbn [fmap list_fmap concat]. apply (moves_app _ _ _ _ hs1 w1); [|done|done].
        intros a Ha (j & Hj & Ha')%elem_of_lists. by apply (Hd j a).
Qed.
End lists.

Lemma dseg_moves hs hs' pp p q L : (∀ a, a ∈ L → hs' !! a = header_to_dmap <$> hs !! a) →
  dseg (emb false) hs pp p q 0 L → dseg (emb true) hs' (to_dmap pp) (to_dmap p) (to_dmap q) 0 L.
Proof.
  revert pp p. induction L as [|a L IH]; intros pp p Hm; cbn [dseg].
  - by intros [-> ->].
  - intros (-> & n & Hn & Hp & Hs). split; [done|]. exists (header_to_dmap n).
    rewrite Hm, Hn by (apply elem_of_cons; auto). split; [done|]. split; [cbn; by f_equal|].
    apply (IH a (hdr_next n)); [|done]. intros; apply Hm, elem_of_cons; auto.
Qed.

(** No live allocation whose backing word holds a pointer. *)
Definition unbacked al : Prop := ∀ x ai, al !! x = Some ai → layout_align (a_layout ai) ≤ PAGE_SIZE.

Section rep.
Context (hs : gmap Z Header) (w : gmap Z Z) (cs : list Z) (own : gmap Z Z) (sl : gmap Z sinfo) (al : gmap Z ainfo) (ext : gmap Z Z).
Context (G : own_geom own) (R : rep false hs w cs own sl al ext).

Definition free_of (a : Z) : list Z := from_option s_free [] (sl !! a).

Lemma free_of_spec a x : x ∈ free_of a ↔ ∃ si, sl !! a = Some si ∧ x ∈ s_free si.
Proof. unfold free_of. destruct (sl !! a) as [si|]; cbn; [naive_solver|]. rewrite elem_of_nil. naive_solver. Qed.

Lemma free_of_nodup a : NoDup (free_of a).
Proof.
  unfold free_of. destruct (sl !! a) as [si|] eqn:Ha; cbn; [|constructor].
  apply (r_slabs _ _ _ _ _ _ _ _ R a si Ha).
Qed.

Lemma free_of_in a x : x ∈ free_of a → own !! a = Some 0 ∧ a ≤ x < a + span 0 ∧ phys_addr x ∧ x ≠ 0.
Proof.
  intros (si & Ha & Hx)%free_of_spec. destruct (r_slabs _ _ _ _ _ _ _ _ R a si Ha) as [Ho S].
  destruct (obj_in_page _ _ _ _ _ _ _ _ G R a si x Ha (so_obj _ _ _ _ _ S x Hx)) as (H1 & H2 & H3 & H4 & H5 & _).
  unfold SIZE_OF_HEADER in *. split; [done|]. split; [lia|done].
Qed.

Lemma free_of_disjoint a b x : x ∈ free_of a → x ∈ free_of b → a = b.
Proof.
  intros (Ha & Hxa & _)%free_of_in (Hb & Hxb & _)%free_of_in. by apply (same_block own G a 0 b 0 x).
Qed.

Lemma lists_ready L i : lists_ok false hs cs sl L → (i < 9)%nat → ready free_of (L i) hs w.
Proof.
  intros F Hi a (si & Ha & Hc & Hne)%(ls_mem _ _ _ _ _ F); [|done].
  destruct (slab_phys _ _ _ _ _ _ _ _ G R a si Ha) as [Hp H0]. split; [done|]. split; [done|].
  destruct (r_slabs _ _ _ _ _ _ _ _ R a si Ha) as [_ [_ _ _ _ (h & Hh & _ & Hch & _)]].
  exists h. split; [done|]. unfold free_of. by rewrite Ha.
Qed.

Lemma rep_moved L cs' hs' w' : lists_ok false hs cs sl L → unbacked al →
  cs' = to_dmap <$> cs → moves free_of (concat (L <$> seq 0 9)) hs w hs' w' →
  rep true hs' w' cs' own sl al ext.
Proof.
  intros F Hub Hcs M.
  assert (∀ a, a ∈ concat (L <$> seq 0 9) ↔ ∃ i, (i < 9)%nat ∧ a ∈ L i) as Hin.
  { intros a. rewrite elem_of_lists. apply exist_proper. intros i. rewrite elem_of_seq. naive_solver lia. }
  split; try apply R.
  - intros a si Ha. destruct (r_slabs _ _ _ _ _ _ _ _ R a si Ha) as [Ho [S1 S2 S3 S4 (h & Hh & Hp & Hch & Hfull)]].
    split; [done|]. split; [done|done|done|done|]. destruct (decide (s_free si = [])) as [E|Hne].
    + exists h. rewrite (mv_out _ _ _ _ _ _ M); [rewrite E in *; done|].
      intros (i & Hi & (sj & Hj & _ & Hn)%(ls_mem _ _ _ _ _ F))%Hin; [|done]. by simplify_eq.
    + assert (a ∈ concat (L <$> seq 0 9)) as Hal.
      { apply Hin. exists (s_class si). split; [done|]. apply (ls_mem _ _ _ _ _ F); [done|]. by exists si. }
      exists (header_to_dmap h). rewrite (mv_in _ _ _ _ _ _ M), Hh by done. unfold payload in *. injection Hp as E1 E2.
      split; [done|]. cbn. split; [by rewrite E1, E2|]. split; [|done].
      pose proof (mv_chain _ _ _ _ _ _ M a h Hal Hh) as Hc. unfold free_of in Hc. by rewrite Ha in Hc.
  - exists L. split; [|..|apply F|apply F].
    + rewrite Hcs, length_fmap. apply F.
    + intros i Hi. destruct (ls_dll _ _ _ _ _ F i Hi) as (p & Hp & q & Hs). exists (to_dmap p).
      rewrite Hcs, list_lookup_fmap, Hp. split; [done|]. exists (to_dmap q). change 0 with (to_dmap 0) at 1.
      apply (dseg_moves hs); [|done]. intros a Ha. apply (mv_in _ _ _ _ _ _ M), Hin. eauto.
  - intros x ai Hx. destruct (r_alloc _ _ _ _ _ _ _ _ R x ai Hx) as [Hl Hp]. split; [done|]. unfold placed in *.
    destruct (a_class ai); [done|]. by rewrite (proj2 (Z.leb_le _ _) (Hub x ai Hx)) in *.
Qed.
End rep.

Lemma wp_slab_transition sl al ext own s : slab_inv sl al ext own s → slab_dmap s = false → unbacked al →
  wp slab_transition_dmap (λ _ s', slab_dmap s' = true ∧ slab_inv sl al ext own s') s.
Proof.
  intros [C Hlf Hu] Ed Hub. pose proof (v_rep _ _ _ _ _ C) as R0. pose proof (owns_geom _ _ (v_owns _ _ _ _ _ C)) as G0.
  rewrite Ed in R0. destruct (r_lists _ _ _ _ _ _ _ _ R0) as [L F]. destruct (v_ptr _ _ _ _ _ C) as (pa & Hpa & Hpa0 & Ep).
  rewrite Ed in Ep. cbn [emb] in Ep. unfold slab_transition_dmap. wp_step. apply wp_lock_slab; [done|]. intros lk Hlk. wp_steps.
  apply wp_assert; [cbn; by rewrite Ed|]. wp_steps. cbn [page_alloc_ptr set_slab_lock]. rewrite Ep, <- (to_dmap_nonzero pa) by done.
  unfold page_alloc. wp_steps. apply wp_assert; [apply negb_true_iff, Z.eqb_neq; intros E; apply Hpa0; by apply (emb_zero true)|].
  wp_step. apply wp_on_pages. pose proof (src_transition_ok _ _ (v_owns _ _ _ _ _ C)) as Hw.
  eapply wp_mono; [apply Hw; by rewrite (v_dmap _ _ _ _ _ C)|]. cbn beta. intros _ p' [Ed' Hown'].
  wp_step. apply (wp_transition_caches (free_of sl)) with (L := L); cbn [headers words caches set_pages set_page_alloc_ptr set_slab_lock].
  { by apply (free_of_nodup (headers s) (words s) (caches s) own sl al ext). }
  { intros a x Hx. by apply (free_of_in (headers s) (words s) (caches s) own sl al ext G0 R0 a x). }
  { by apply (free_of_disjoint (headers s) (words s) (caches s) own sl al ext). }
  { apply NoDup_seq. }
  { intros i Hi%elem_of_seq. apply (ls_nodup _ _ _ _ _ F). lia. }
  { intros i j a Hi%elem_of_seq Hj%elem_of_seq. eapply lists_other; [done|lia|lia]. }
  { intros i Hi%elem_of_seq. apply (lists_ready (headers s) (words s) (caches s) own sl al ext); (done || lia). }
  { intros i Hi%elem_of_seq. apply (ls_dll _ _ _ _ _ F). lia. }
  intros cs hs w Hcs M. wp_steps. apply wp_unlock_slab; [done|]. intros lk' Hlk'. split; [done|].
  split; [|done|done]. split; cbn; [done|done|by exists pa|].
  apply (rep_moved (headers s) (words s) (caches s) own sl al ext) with (L := L); try done.
  apply list_eq. intros i. rewrite Hcs, list_lookup_fmap. case_decide as Hi; [done|]. rewrite elem_of_seq in Hi. rewrite lookup_ge_None_2; [done|].
  rewrite (ls_len _ _ _ _ _ F). lia.
Qed.
End dmap.
