(* ===== verification/SlabTheorems.v ===== *)
(** * Theorems about the slab allocator

    The page allocator discharges the contract of the slab allocator's page
    source; then the behaviour of the heap over any sequence of client
    operations, and of each operation. *)

From S2P Require Import Prelude Vm Sync PageAlloc Dll PageInv PageProofs PageSpec PageDmap PageTheorems.
From S2P Require Import Slab SlabInv SlabLists SlabRep SlabProofs SlabDmap.

(** ** The page allocator is a page source *)

Section source.
Context {T : AddressTranslator} {TL : AddressTranslatorLaws T} (zs : list zinfo).
Implicit Types (p : PageAllocator) (own : gmap Z Z).

Definition pages_owned p own : Prop := ∃ bl, Inv zs bl p ∧ owned bl = own.

Lemma pages_owned_block p own a o : pages_owned p own → own !! a = Some o →
  0 < a ∧ a + span o ≤ 2 ^ VA_WIDTH ∧ (PAGE_SIZE | a) ∧ 0 ≤ o.
Proof.
  intros (bl & [I _] & <-) (b & Hb & _ & <-)%owned_lookup. pose proof (i_zones _ _ _ _ I) as ZW.
  destruct (block_in_zone zs bl no_hole a b ZW (i_tiling _ _ _ _ I) Hb) as (Hz & Hlo & Hhi & Hd).
  pose proof (zs_wf _ ZW _ Hz) as []. destruct (zaddr_phys _ ZW _ (zi_pages (b_zone b)) Hz ltac:(lia)) as [Hp _].
  destruct (inv_list_facts _ _ _ _ I) as [Hph _]. destruct (Hph a b Hb) as [Hpa Ha0]. unfold phys_addr in *.
  pose proof (bwf_order _ _ _ (t_bwf _ _ _ (i_tiling _ _ _ _ I) a b Hb)). split; [lia|]. split; [lia|]. split; [done|lia].
Qed.

Lemma pages_owned_alloc p own o : pages_owned p own → 0 ≤ o →
  wp (alloc_pages o) (λ r p', is_dmap p' = is_dmap p ∧ ((r = 0 ∧ pages_owned p' own) ∨
    ∃ a, r = emb (is_dmap p) a ∧ phys_addr a ∧ own !! a = None ∧ pages_owned p' (<[a := o]> own))) p.
Proof.
  intros (bl & I & <-) Ho. eapply wp_mono; [by apply (wp_alloc_pages zs bl)|].
  intros r p' [Ed [(-> & I' & _)|(a & bl' & -> & Hpa & _ & I' & _ & Hn & Eo)]]; (split; [done|]).
  - left. split; [done|]. by exists bl.
  - right. exists a. split; [done|]. split; [done|]. split; [done|]. by exists bl'.
Qed.

Lemma pages_owned_free p own a o : pages_owned p own → own !! a = Some o →
  wp (free_pages (emb (is_dmap p) a)) (λ _ p', is_dmap p' = is_dmap p ∧ pages_owned p' (delete a own)) p.
Proof.
  intros (bl & I & <-) Ha. eapply wp_mono; [by apply (wp_free_pages zs bl p a o)|].
  intros [] p' (Ed & bl' & I' & Eo). split; [done|]. by exists bl'.
Qed.

#[global] Program Instance page_allocator_laws : PageSourceLaws PageAllocator := {|
  owns := pages_owned; src_dmap := is_dmap
|}.
Next Obligation. apply pages_owned_block. Qed.
Next Obligation.
  intros p own a o b o' (bl & [I _] & <-) (b1 & Hb1 & _ & <-)%owned_lookup (b2 & Hb2 & _ & <-)%owned_lookup Hne.
  by apply (blocks_disjoint zs bl no_hole); try apply I.
Qed.
Next Obligation.
  intros p own o Ho Ho0. eapply wp_mono; [by apply pages_owned_alloc|]. cbn beta. naive_solver.
Qed.
Next Obligation.
  intros p own Ho. cbn. unfold alloc_phys_page, alloc_page. wp_step. eapply wp_mono; [by apply pages_owned_alloc|].
  intros r p' [Ed [[-> Ho']|(a & -> & Hpa & Hn & Ho')]]; wp_steps; (split; [done|]).
  - left. split; [|done]. by destruct (is_dmap p'); [apply dmap_phys_id|].
  - right. rewrite Ed. by destruct (is_dmap p); cbn; [rewrite to_dmap_phys|].
Qed.
Next Obligation.
  intros p own Ho Ed0. cbn in *. unfold alloc_dmap_page, alloc_page. wp_step. eapply wp_mono; [by apply pages_owned_alloc|].
  intros r p' [Ed [[-> Ho']|(a & -> & Hpa & Hn & Ho')]]; wp_steps; rewrite Ed, Ed0; (split; [done|]); [by left|right; by exists a].
Qed.
Next Obligation. apply pages_owned_free. Qed.
Next Obligation.
  intros p own a o Ho Ha. cbn. unfold free_phys_page. wp_steps.
  destruct (pages_owned_block p own a o Ho Ha) as (Ha0 & _).
  replace (if is_dmap p then phys_to_dmap a else a) with (emb (is_dmap p) a); [by eapply pages_owned_free|].
  destruct (is_dmap p); [|done]. cbn. apply to_dmap_nonzero. lia.
Qed.
Next Obligation.
  intros p own a o Ho Ha. cbn [src_free_dmap_page page_allocator_source]. unfold free_dmap_page. wp_steps.
  destruct (pages_owned_block p own a o Ho Ha) as (Ha0 & Hae & _ & Ho0). pose proof (span_pos o Ho0) as Hs.
  assert (phys_addr a) as Hpa by (assert (PAGE_SIZE = 16384) by done; unfold phys_addr; lia).
  rewrite (emb_phys true a Hpa).
  replace (if is_dmap p then emb true a else a) with (emb (is_dmap p) a) by (by destruct (is_dmap p)).
  by eapply pages_owned_free.
Qed.
Next Obligation.
  intros p own (bl & I & <-) Ed. cbn [src_transition_dmap page_allocator_source].
  apply (wp_mono _ (λ _ p', Inv zs bl p' ∧ is_dmap p' = true)); [exact (wp_transition_dmap zs bl p I Ed)|].
  intros [] p' [I' Ed']. split; [done|]. by exists bl.
Qed.
End source.

(** ** Clients of the heap *)

Section heap.
Context {P : Type} `{T : AddressTranslator} {TL : AddressTranslatorLaws T} `{PS : PageSource P} {PL : PageSourceLaws P}.
#[local] Abbreviation Slab := (SlabAllocator P).
Implicit Types (s : Slab) (lv : gmap Z Layout) (ext : gmap Z Z) (al : gmap Z ainfo).

(** The [n] bytes from [y] belong to no client. *)
Definition unowned lv ext (y n : Z) : Prop :=
  (∀ x l, lv !! x = Some l → y + n ≤ x ∨ x + layout_size l ≤ y) ∧
  (∀ a o, ext !! a = Some o → y + n ≤ a ∨ a + span o ≤ y).

(** A step of the clients: the live allocations are known by physical
    address, the pages taken whole by their order.  Clients write freely
    inside what they own. *)
Inductive heap_step : Slab * gmap Z Layout * gmap Z Z → Slab * gmap Z Layout * gmap Z Z → Prop :=
  | heap_alloc s lv ext l p s' : layout_ok l → slab_alloc l s = Done (p, s') → p ≠ 0 →
      heap_step (s, lv, ext) (s', <[dmap_to_phys p := l]> lv, ext)
  | heap_alloc_null s lv ext l s' : layout_ok l → slab_alloc l s = Done (0, s') →
      heap_step (s, lv, ext) (s', lv, ext)
  | heap_dealloc s lv ext x l s' : lv !! x = Some l → slab_dealloc (emb (slab_dmap s) x) l s = Done (tt, s') →
      heap_step (s, lv, ext) (s', delete x lv, ext)
  | heap_take_page s lv ext pa s' : slab_alloc_phys_page s = Done (pa, s') → pa ≠ 0 →
      heap_step (s, lv, ext) (s', lv, <[pa := 0]> ext)
  | heap_give_page s lv ext pa o s' : ext !! pa = Some o → slab_free_phys_page pa s = Done (tt, s') →
      heap_step (s, lv, ext) (s', lv, delete pa ext)
  | heap_write s lv ext hs w : (∀ y, unowned lv ext y 8 → w !! y = words s !! y) →
      (∀ b, unowned lv ext b SIZE_OF_HEADER → hs !! b = headers s !! b) →
      heap_step (s, lv, ext) (set_words w (set_headers hs s), lv, ext)
  | heap_transition s lv ext s' : slab_dmap s = false → (∀ x l, lv !! x = Some l → layout_align l ≤ PAGE_SIZE) →
      slab_transition_dmap s = Done (tt, s') → heap_step (s, lv, ext) (s', lv, ext).

(** The invariant as the clients see it. *)
Definition heap_inv s lv ext : Prop := ∃ sl al own, slab_inv sl al ext own s ∧ lv = a_layout <$> al.

Lemma heap_inv_phys s x ai sl al ext own : slab_inv sl al ext own s → al !! x = Some ai → phys_addr x ∧ x ≠ 0.
Proof.
  intros [C _ _] Hx. pose proof (owns_geom _ _ (v_owns _ _ _ _ _ C)) as G0.
  destruct (live_in_block _ _ _ _ _ _ _ _ G0 (v_rep _ _ _ _ _ C) x ai Hx) as (o & Ho & Hlo & Hhi & Hpos).
  destruct (owned_phys _ G0 _ _ (x - a_block ai) Ho ltac:(lia)) as [Hpx Hx0].
  by replace (a_block ai + (x - a_block ai)) with x in * by lia.
Qed.

Lemma heap_inv_alloc s lv ext l p s' : heap_inv s lv ext → layout_ok l → slab_alloc l s = Done (p, s') →
  slab_dmap s' = slab_dmap s ∧ ((p = 0 ∧ heap_inv s' lv ext) ∨
    (p ≠ 0 ∧ p = emb (slab_dmap s) (dmap_to_phys p) ∧ lv !! dmap_to_phys p = None ∧ (layout_align l | p) ∧
     heap_inv s' (<[dmap_to_phys p := l]> lv) ext)).
Proof.
  intros (sl & al & own & I & ->) Hl E. destruct (wp_alloc_impl sl al ext own s l I Hl) as [[_ Hf]|Hw].
  { unfold faults in Hf. unfold slab_alloc in E. congruence. }
  unfold wp in Hw. unfold slab_alloc in E. rewrite E in Hw. destruct Hw as [Ed [(-> & _ & I')|Hs]]; (split; [done|]).
  - left. split; [done|]. by exists sl, al, own.
  - destruct Hs as (x & b & sl' & own' & -> & Hp0 & Hx & Hal & I'). right.
    destruct (heap_inv_phys s' x _ _ _ _ _ I' (lookup_insert_eq _ _ _)) as [Hpx _]. rewrite emb_phys by done.
    split; [done|]. split; [done|]. split; [by rewrite lookup_fmap, Hx|]. split; [done|].
    eexists sl', _, own'. split; [exact I'|]. by rewrite fmap_insert.
Qed.

Lemma wp_heap_dealloc s lv ext x l : heap_inv s lv ext → lv !! x = Some l →
  wp (slab_dealloc (emb (slab_dmap s) x) l) (λ _ s', slab_dmap s' = slab_dmap s ∧ heap_inv s' (delete x lv) ext) s.
Proof.
  intros (sl & al & own & I & ->). rewrite lookup_fmap. intros (ai & Hx & ->)%fmap_Some.
  eapply wp_mono; [by apply (wp_free_impl sl al ext own)|]. intros [] s' (Ed & sl' & own' & I'). split; [done|].
  exists sl', (delete x al), own'. split; [done|]. by rewrite fmap_delete.
Qed.

Lemma slab_inv_pages sl al ext own s ext' own' p : slab_inv sl al ext own s → src_dmap p = slab_dmap s → owns p own' →
  rep (slab_dmap s) (headers s) (words s) (caches s) own' sl al ext' → slab_inv sl al ext' own' (set_pages p s).
Proof. intros [C Hl Hu] Ed Ho R. split; [|done|done]. split; cbn; [done|done|apply C|done]. Qed.

Lemma wp_heap_take_page s lv ext : heap_inv s lv ext →
  wp slab_alloc_phys_page (λ pa s', slab_dmap s' = slab_dmap s ∧ ((pa = 0 ∧ heap_inv s' lv ext) ∨
    (ext !! pa = None ∧ (PAGE_SIZE | pa) ∧ heap_inv s' lv (<[pa := 0]> ext)))) s.
Proof.
  intros (sl & al & own & I & ->). pose proof (v_core _ _ _ _ _ I) as C. pose proof (v_rep _ _ _ _ _ C) as R0.
  pose proof (owns_geom _ _ (v_owns _ _ _ _ _ C)) as G0. unfold slab_alloc_phys_page. wp_step.
  eapply wp_page_alloc; [done|]. apply wp_on_pages. eapply wp_mono; [by apply src_phys_page_ok, (v_owns _ _ _ _ _ C)|].
  cbn beta. rewrite (v_dmap _ _ _ _ _ C). intros pa p [Ed [[-> Ho]|[Hn Ho]]]; (split; [done|]).
  - left. split; [done|]. exists sl, al, own. split; [|done]. by apply (slab_inv_pages sl al ext own).
  - right. pose proof (owns_geom _ _ Ho) as G1. split; [|split].
    + destruct (ext !! pa) as [o|] eqn:E; [|done]. destruct (r_ext _ _ _ _ _ _ _ _ R0 pa o E). congruence.
    + destruct (og_block _ G1 pa 0) as (_ & _ & ? & _); [by rewrite lookup_insert_eq|done].
    + exists sl, al, (<[pa := 0]> own). split; [|done]. apply (slab_inv_pages sl al ext own); try done.
      by apply rep_hand_out.
Qed.

Lemma wp_heap_give_page s lv ext pa o : heap_inv s lv ext → ext !! pa = Some o →
  wp (slab_free_phys_page pa) (λ _ s', slab_dmap s' = slab_dmap s ∧ heap_inv s' lv (delete pa ext)) s.
Proof.
  intros (sl & al & own & I & ->) Ha. pose proof (v_core _ _ _ _ _ I) as C. pose proof (v_rep _ _ _ _ _ C) as R0.
  destruct (r_ext _ _ _ _ _ _ _ _ R0 pa o Ha) as (Ho & _ & _). unfold slab_free_phys_page. wp_step.
  eapply wp_page_alloc; [done|]. apply wp_on_pages. eapply wp_mono; [by eapply src_free_phys_ok; [apply (v_owns _ _ _ _ _ C)|]|].
  cbn beta. rewrite (v_dmap _ _ _ _ _ C). intros [] p [Ed Ho']. split; [done|].
  exists sl, al, (delete pa own). split; [|done]. apply (slab_inv_pages sl al ext own); try done.
  eapply rep_hand_back; try done. apply (owns_geom _ _ (v_owns _ _ _ _ _ C)).
Qed.

Lemma heap_inv_write s lv ext hs w : heap_inv s lv ext → (∀ y, unowned lv ext y 8 → w !! y = words s !! y) →
  (∀ b, unowned lv ext b SIZE_OF_HEADER → hs !! b = headers s !! b) → heap_inv (set_words w (set_headers hs s)) lv ext.
Proof.
  intros (sl & al & own & [C Hl Hu] & ->) Hw Hh. exists sl, al, own. split; [|done]. split; [|done|done].
  split; cbn; try apply C. assert (∀ y n, outside al ext y n → unowned (a_layout <$> al) ext y n) as Hout.
  { intros y n [H1 H2]. split; [|done]. intros x l. rewrite lookup_fmap. intros (ai & Hx & ->)%fmap_Some. by apply H1. }
  eapply (rep_write _ _ _ _ _ _ _ _ (owns_geom _ _ (v_owns _ _ _ _ _ C)) (v_rep _ _ _ _ _ C)); auto.
Qed.

Lemma wp_heap_transition s lv ext : heap_inv s lv ext → slab_dmap s = false →
  (∀ x l, lv !! x = Some l → layout_align l ≤ PAGE_SIZE) →
  wp slab_transition_dmap (λ _ s', slab_dmap s' = true ∧ heap_inv s' lv ext) s.
Proof.
  intros (sl & al & own & I & ->) Ed Hub. eapply wp_mono; [apply (wp_slab_transition sl al ext own s I Ed)|].
  - intros x ai Hx. apply (Hub x). by rewrite lookup_fmap, Hx.
  - intros [] s' [Ed' I']. split; [done|]. by exists sl, al, own.
Qed.

Lemma heap_step_inv s lv ext s' lv' ext' : heap_inv s lv ext → heap_step (s, lv, ext) (s', lv', ext') → heap_inv s' lv' ext'.
Proof.
  intros I Hs. inversion Hs as [? ? ? l p ? Hl E Hp|? ? ? l ? Hl E|? ? ? x l ? Hx E|? ? ? pa ? E Hp|? ? ? pa o ? Ha E
    |? ? ? hs w Hw Hh|? ? ? ? Ed Hub E]; subst.
  - destruct (heap_inv_alloc s lv ext' l p s' I Hl E) as [_ [[? _]|(_ & _ & _ & _ & I')]]; done.
  - destruct (heap_inv_alloc s lv' ext' l 0 s' I Hl E) as [_ [[_ I']|[? _]]]; done.
  - pose proof (wp_heap_dealloc s lv ext' x l I Hx) as Hw. unfold wp in Hw. rewrite E in Hw. apply Hw.
  - pose proof (wp_heap_take_page s lv' ext I) as Hw. unfold wp in Hw. rewrite E in Hw. naive_solver.
  - pose proof (wp_heap_give_page s lv' ext pa o I Ha) as Hw. unfold wp in Hw. rewrite E in Hw. apply Hw.
  - by apply heap_inv_write.
  - pose proof (wp_heap_transition s lv' ext' I Ed Hub) as Hw. unfold wp in Hw. rewrite E in Hw. apply Hw.
Qed.

Lemma heap_reachable_inv s lv ext s' lv' ext' : heap_inv s lv ext → rtc heap_step (s, lv, ext) (s', lv', ext') → heap_inv s' lv' ext'.
Proof.
  intros I Hr. remember (s, lv, ext) as c eqn:Ec. remember (s', lv', ext') as c' eqn:Ec'.
  revert s lv ext I Ec. induction Hr as [c|c [[s1 lv1] ext1] c' Hst Hr IH]; intros s lv ext I ->; [by simplify_eq|].
  eapply IH; [done| |done]. by eapply heap_step_inv.
Qed.

(** Live allocations are aligned. *)
Lemma live_aligned sl al ext own s x ai : slab_core sl al ext own s → al !! x = Some ai →
  (layout_align (a_layout ai) | emb (slab_dmap s) x).
Proof.
  intros C Hx. pose proof (v_rep _ _ _ _ _ C) as R0. pose proof (owns_geom _ _ (v_owns _ _ _ _ _ C)) as G0.
  destruct (r_alloc _ _ _ _ _ _ _ _ R0 x ai Hx) as [Hl Hp]. unfold placed in Hp. destruct (a_class ai) as [i|] eqn:Hcl.
  - destruct Hp as (si & Hs & <- & Hobj & _). destruct (r_slabs _ _ _ _ _ _ _ _ R0 _ _ Hs) as [Ho S].
    apply (obj_aligned _ own (a_block ai) si x (a_layout ai) G0 Ho (so_class _ _ _ _ _ S) Hobj Hl Hcl).
  - destruct Hp as (_ & o & Ho & _ & _ & Hb). destruct (Z.leb_spec (layout_align (a_layout ai)) PAGE_SIZE) as [Hle|]; [|naive_solver].
    rewrite Hb. destruct (og_block _ G0 _ _ Ho) as (H1 & H2 & H3 & H4). pose proof (span_pos o H4).
    assert (PAGE_SIZE = 16384) as EP by done. transitivity PAGE_SIZE.
    + destruct (lo_align _ Hl) as (k & Hk & Ek). rewrite Ek, PAGE_SIZE_eq in *. apply pow2_divide. split; [lia|].
      destruct (decide (k ≤ 14)); [done|]. pose proof (pow2_le 15 k ltac:(lia)). change (2 ^ 15) with 32768 in *. lia.
    + apply emb_aligned; [unfold phys_addr; lia|done].
Qed.

(** No allocation overlaps a page that was taken whole. *)
Lemma live_page_disjoint sl al ext own s x ai a o : slab_core sl al ext own s → al !! x = Some ai → ext !! a = Some o →
  x + a_size ai ≤ a ∨ a + span o ≤ x.
Proof.
  intros C Hx Ha. pose proof (v_rep _ _ _ _ _ C) as R0. pose proof (owns_geom _ _ (v_owns _ _ _ _ _ C)) as G0.
  destruct (r_ext _ _ _ _ _ _ _ _ R0 a o Ha) as (Ho & Hs & Hn).
  destruct (live_in_block _ _ _ _ _ _ _ _ G0 R0 x ai Hx) as (o' & Ho' & Hlo & Hhi & _).
  destruct (decide (a_block ai = a)) as [E|Hne].
  - destruct (a_class ai) eqn:Hcl; [|by destruct (Hn x ai Hx Hcl)].
    destruct (r_alloc _ _ _ _ _ _ _ _ R0 x ai Hx) as [_ Hp]. unfold placed in Hp. rewrite Hcl, E, Hs in Hp. naive_solver.
  - destruct (og_disjoint _ G0 _ _ _ _ Ho' Ho Hne); lia.
Qed.

(** A slab has at least one live object. *)
Lemma slab_has_live d hs w cs own sl al ext a si : rep d hs w cs own sl al ext → sl !! a = Some si → ∃ x, is_Some (al !! x).
Proof.
  intros R Ha. destruct (r_slabs _ _ _ _ _ _ _ _ R a si Ha) as [_ [Hc Hnd Hob Hlt _]]. destruct (class_facts _ Hc).
  assert (∃ k, 0 ≤ k < cap (s_class si) ∧ obj a (s_class si) k ∉ s_free si) as (k & Hk & Hf).
  { destruct (decide (Exists (λ k, obj a (s_class si) k ∉ s_free si) (seqZ 0 (cap (s_class si))))) as [(k & Hk & Hf)%Exists_exists|Hn].
    { exists k. apply elem_of_seqZ in Hk. split; [lia|done]. }
    exfalso. apply (Z.lt_irrefl (cap (s_class si))). eapply Z.le_lt_trans; [|exact Hlt].
    replace (cap (s_class si)) with (Z.of_nat (length (obj a (s_class si) <$> seqZ 0 (cap (s_class si)))))
      by (rewrite length_fmap, length_seqZ; lia).
    apply inj_le, submseteq_length, NoDup_submseteq.
    - apply NoDup_fmap_2; [|apply NoDup_seqZ]. intros k j. unfold obj. nia.
    - intros y (k & -> & Hk)%list_elem_of_fmap. destruct (decide (obj a (s_class si) k ∈ s_free si)) as [|Hy]; [done|].
      destruct Hn. apply Exists_exists. eauto. }
  destruct (r_live _ _ _ _ _ _ _ _ R a si (obj a (s_class si) k) Ha) as (ai & Hx & _); [by exists k|done|by eexists; eexists].
Qed.

Lemma rep_all_freed d hs w cs own sl ext : rep d hs w cs own sl ∅ ext → own = ext.
Proof.
  intros R. apply map_eq. intros a. destruct (own !! a) as [o|] eqn:Ho.
  - destruct (r_pages _ _ _ _ _ _ _ _ R a o Ho) as [[si Hs]|[(x & ai & Hx & _)|He]]; [|done|done].
    destruct (slab_has_live _ _ _ _ _ _ _ _ a si R Hs) as (x & ai & Hx). done.
  - destruct (ext !! a) as [o|] eqn:He; [|done]. destruct (r_ext _ _ _ _ _ _ _ _ R a o He). congruence.
Qed.

(** A fresh allocator. *)
Lemma heap_new_inv p own pa : owns p own → src_dmap p = false → phys_addr pa → pa ≠ 0 → heap_inv (slab_new p pa) ∅ own.
Proof.
  intros Ho Ed Hpa Hpa0. exists ∅, ∅, own. split; [|done]. split; [|done|done].
  split; [done|done|by exists pa|]. split; [done| |done|done|done|auto|done].
  exists (λ _, []). split; [done| |intros; apply NoDup_nil_2|].
  - intros i Hi. exists 0. split; [by apply lookup_replicate|by exists 0].
  - intros i a Hi. split; [by intros ?%not_elem_of_nil|by intros (si & Hs & _)].
Qed.
End heap.

(** ** Theorems *)

Section theorems.
Context {P : Type} `{T : AddressTranslator} {TL : AddressTranslatorLaws T} `{PS : PageSource P} {PL : PageSourceLaws P}.
#[local] Abbreviation Slab := (SlabAllocator P).
Implicit Types (s : Slab) (lv : gmap Z Layout) (ext : gmap Z Z).


(** C7: [alloc] panics when a slab is needed and no page is left; it returns
    null only for requests above the largest class; otherwise the result is
    an aligned object that was not live, and nothing else changes. *)
Theorem slab_alloc_spec s lv ext l : heap_inv s lv ext → layout_ok l →
  (alloc_fails s l ∧ faults (slab_alloc l) Panic s) ∨
  wp (slab_alloc l) (λ p s', slab_dmap s' = slab_dmap s ∧
    ((p = 0 ∧ 2048 < Z.max (layout_size l) (layout_align l) ∧ heap_inv s' lv ext) ∨
     (p ≠ 0 ∧ p = emb (slab_dmap s) (dmap_to_phys p) ∧ lv !! dmap_to_phys p = None ∧ (layout_align l | p) ∧
      heap_inv s' (<[dmap_to_phys p := l]> lv) ext))) s.
Proof.
  intros I Hl. pose proof I as (sl & al & own & V & Elv). destruct (wp_alloc_impl sl al ext own s l V Hl) as [|Hw]; [by left|right].
  apply wp_run in Hw as (p & s' & E & Hpost). apply wp_run. exists p, s'. split; [done|].
  destruct (heap_inv_alloc s lv ext l p s' I Hl E) as [Ed [[-> I']|Hs]]; (split; [done|]); [left|by right].
  split; [done|]. split; [|done]. destruct Hpost as [_ [(_ & Hcl & _)|(x & b & ? & ? & _ & ? & _)]]; [|done].
  pose proof (size_class_index_spec (Z.max (layout_size l) (layout_align l)) ltac:(destruct Hl; lia)) as Hsc. by rewrite Hcl in Hsc.
Qed.

(** C13: [dealloc] of a live object with its layout returns and ends its life;
    every other object stays as it is. *)
Theorem slab_dealloc_spec s lv ext x l : heap_inv s lv ext → lv !! x = Some l →
  wp (slab_dealloc (emb (slab_dmap s) x) l) (λ _ s', slab_dmap s' = slab_dmap s ∧ heap_inv s' (delete x lv) ext) s.
Proof. apply wp_heap_dealloc. Qed.

(** moving to the direct map keeps every object and page, when no live
    object is aligned to more than a page. *)
Theorem slab_transition_spec s lv ext : heap_inv s lv ext → slab_dmap s = false →
  (∀ x l, lv !! x = Some l → layout_align l ≤ PAGE_SIZE) →
  wp slab_transition_dmap (λ _ s', slab_dmap s' = true ∧ heap_inv s' lv ext) s.
Proof. apply wp_heap_transition. Qed.

Lemma msum_layouts (al : gmap Z ainfo) : msum layout_size (a_layout <$> al) = msum (λ ai, layout_size (a_layout ai)) al.
Proof.
  induction al as [|k ai al Hk IH] using map_ind; [by rewrite fmap_empty|].
  rewrite fmap_insert, !msum_insert, IH; [done|done|]. by rewrite lookup_fmap, Hk.
Qed.

(** [heap_usage] is the sum of the sizes of the live objects. *)
Theorem heap_usage_exact s lv ext : heap_inv s lv ext →
  wp heap_usage (λ n s', s' = s ∧ n = wrap 64 (msum layout_size lv)) s.
Proof.
  intros (sl & al & own & V & ->). unfold heap_usage. wp_steps. split; [done|]. rewrite msum_layouts. apply V.
Qed.
End theorems.

Lemma pages_heap_new {T : AddressTranslator} {TL : AddressTranslatorLaws T} zs bl p pa : Inv zs bl p → is_dmap p = false →
  owned bl = ∅ → phys_addr pa → pa ≠ 0 → heap_inv (PL := page_allocator_laws zs) (slab_new p pa) ∅ ∅.
Proof. intros I Ed Eo Hpa Hpa0. apply heap_new_inv; [by exists bl|done..]. Qed.

(** C14: when every object was freed and every page given back, the page
    allocator is whole again: a block of any order that fits a zone can be
    allocated. *)
Theorem slab_no_leak {T : AddressTranslator} {TL : AddressTranslatorLaws T} zs bl p pa (s : SlabAllocator PageAllocator) z o :
  Inv zs bl p → is_dmap p = false → owned bl = ∅ → phys_addr pa → pa ≠ 0 →
  rtc heap_step (slab_new p pa, ∅, ∅) (s, ∅, ∅) → z ∈ zs → 0 ≤ o < MAX_ORDER → 2 ^ o ≤ zi_pages z →
  wp (alloc_pages o) (λ q _, q ≠ 0) (pages s).
Proof.
  intros I Ed Eo Hpa Hpa0 Hr Hz Ho Hsz.
  pose proof (pages_heap_new zs bl p pa I Ed Eo Hpa Hpa0) as I0.
  destruct (heap_reachable_inv (PL := page_allocator_laws zs) _ _ _ _ _ _ I0 Hr) as (sl & al & own & [C _ _] & Eal).
  symmetry in Eal. apply fmap_empty_iff in Eal. rewrite Eal in C. pose proof (v_rep _ _ _ _ _ C) as R.
  apply rep_all_freed in R. rewrite R in C. destruct (v_owns _ _ _ _ _ C) as (bl' & I' & Eo').
  by apply (alloc_after_all_freed zs bl' (pages s) z o).
Qed.

(** ** A heap on eight pages *)

#[local] Existing Instance KernelAddressTranslator.
#[local] Existing Instance KernelAddressTranslatorLaws.

Definition demo_layout : Layout := {| layout_size := 24; layout_align := 8 |}.
Definition demo_heap : SlabAllocator PageAllocator := slab_new demo 4096.
Definition demo_obj : Z := match slab_alloc demo_layout demo_heap with Done (p, _) => p | Fault _ => 0 end.
Definition demo_heap1 : SlabAllocator PageAllocator :=
  match slab_alloc demo_layout demo_heap with Done (_, s) => s | Fault _ => demo_heap end.
Definition demo_heap2 : SlabAllocator PageAllocator :=
  match slab_dealloc demo_obj demo_layout demo_heap1 with Done (_, s) => s | Fault _ => demo_heap end.

Lemma demo_layout_ok : layout_ok demo_layout.
Proof. split; [done|]. by exists 3. Qed.

Lemma demo_ptr_ok : phys_addr 4096 ∧ 4096 ≠ 0.
Proof. done. Qed.

#[local] Abbreviation demo_inv := (heap_inv (PL := page_allocator_laws [demo_zone])).

Lemma demo_heap_inv : demo_inv demo_heap ∅ ∅.
Proof.
  destruct demo_Inv as (bl & I & Eo & Ed).
  exact (pages_heap_new [demo_zone] bl demo 4096 I Ed Eo (proj1 demo_ptr_ok) (proj2 demo_ptr_ok)).
Qed.

Lemma demo_heap_alloc : slab_alloc demo_layout demo_heap = Done (demo_obj, demo_heap1).
Proof.
  assert (match slab_alloc demo_layout demo_heap with Done _ => true | Fault _ => false end = true) as Hd by (vm_compute; reflexivity).
  unfold demo_obj, demo_heap1. destruct (slab_alloc demo_layout demo_heap) as [[p s]|]; [reflexivity|discriminate].
Qed.

Lemma demo_heap_dealloc : slab_dealloc demo_obj demo_layout demo_heap1 = Done (tt, demo_heap2).
Proof.
  assert (match slab_dealloc demo_obj demo_layout demo_heap1 with Done _ => true | Fault _ => false end = true) as Hd by (vm_compute; reflexivity).
  unfold demo_heap2. destruct (slab_dealloc demo_obj demo_layout demo_heap1) as [[[] s]|]; [reflexivity|discriminate].
Qed.

Lemma demo_obj_facts : demo_obj ≠ 0 ∧ dmap_to_phys demo_obj = demo_obj ∧ slab_dmap demo_heap1 = false.
Proof. vm_compute. split_and!; [discriminate|reflexivity|reflexivity]. Qed.

Lemma demo_heap_step : heap_step (demo_heap, ∅, ∅) (demo_heap1, {[ demo_obj := demo_layout ]}, ∅).
Proof.
  destruct demo_obj_facts as (H0 & E & _). rewrite <- E at 1.
  exact (heap_alloc demo_heap ∅ ∅ demo_layout demo_obj demo_heap1 demo_layout_ok demo_heap_alloc H0).
Qed.

Lemma demo_heap1_inv : demo_inv demo_heap1 {[ demo_obj := demo_layout ]} ∅.
Proof. exact (heap_step_inv _ _ _ _ _ _ demo_heap_inv demo_heap_step). Qed.

Lemma demo_heap_step2 : heap_step (demo_heap1, {[ demo_obj := demo_layout ]}, ∅) (demo_heap2, ∅, ∅).
Proof.
  destruct demo_obj_facts as (_ & _ & Ed).
  assert (slab_dealloc (emb (slab_dmap demo_heap1) demo_obj) demo_layout demo_heap1 = Done (tt, demo_heap2)) as E
    by (rewrite Ed; exact demo_heap_dealloc).
  pose proof (heap_dealloc demo_heap1 {[ demo_obj := demo_layout ]} ∅ demo_obj demo_layout demo_heap2 (lookup_singleton_eq _ _) E) as Hs.
  by rewrite delete_singleton_eq in Hs.
Qed.


Lemma slab_alloc_spec_witness : ∃ lv l, (alloc_fails demo_heap1 l ∧ faults (slab_alloc l) Panic demo_heap1) ∨
  wp (slab_alloc l) (λ p s', slab_dmap s' = slab_dmap demo_heap1 ∧
    ((p = 0 ∧ 2048 < Z.max (layout_size l) (layout_align l) ∧ demo_inv s' lv ∅) ∨
     (p ≠ 0 ∧ p = emb (slab_dmap demo_heap1) (dmap_to_phys p) ∧ lv !! dmap_to_phys p = None ∧ (layout_align l | p) ∧
      demo_inv s' (<[dmap_to_phys p := l]> lv) ∅))) demo_heap1.
Proof.
  exists {[ demo_obj := demo_layout ]}, demo_layout. exact (slab_alloc_spec demo_heap1 _ ∅ demo_layout demo_heap1_inv demo_layout_ok).
Defined.

Lemma slab_dealloc_spec_witness : wp (slab_dealloc (emb (slab_dmap demo_heap1) demo_obj) demo_layout)
  (λ _ s', slab_dmap s' = slab_dmap demo_heap1 ∧ demo_inv s' (delete demo_obj {[ demo_obj := demo_layout ]}) ∅) demo_heap1.
Proof. exact (slab_dealloc_spec demo_heap1 _ ∅ demo_obj demo_layout demo_heap1_inv (lookup_singleton_eq _ _)). Defined.

Lemma slab_transition_spec_witness :
  ∃ lv, wp slab_transition_dmap (λ _ s', slab_dmap s' = true ∧ demo_inv s' lv ∅) demo_heap1.
Proof.
  exists {[ demo_obj := demo_layout ]}. destruct demo_obj_facts as (_ & _ & Ed).
  apply (slab_transition_spec demo_heap1 _ ∅ demo_heap1_inv Ed).
  intros x l [_ <-]%lookup_singleton_Some. by vm_compute.
Defined.

Lemma heap_usage_exact_witness : ∃ n, wp heap_usage (λ m s', s' = demo_heap1 ∧ m = n) demo_heap1.
Proof. eexists. exact (heap_usage_exact demo_heap1 _ ∅ demo_heap1_inv). Defined.

Lemma slab_no_leak_witness : wp (alloc_pages 2) (λ q _, q ≠ 0) (pages demo_heap2).
Proof.
  destruct demo_Inv as (bl & I & Eo & Ed).
  apply (slab_no_leak [demo_zone] bl demo 4096 demo_heap2 demo_zone 2 I Ed Eo (proj1 demo_ptr_ok) (proj2 demo_ptr_ok)
    (rtc_l _ _ _ _ demo_heap_step (rtc_once _ _ demo_heap_step2))).
  - apply list_elem_of_singleton. reflexivity.
  - split; [discriminate|reflexivity].
  - discriminate.
Defined.

(** An object aligned to two pages that is allocated before the move to the
    direct map cannot be freed after it: its backing word still holds the
    physical address. *)
Definition strand : M (SlabAllocator PageAllocator) unit :=
  let l := {| layout_size := 8; layout_align := 32768 |} in
  let* p := slab_alloc l in
  slab_transition_dmap ;;
  slab_dealloc (to_dmap p) l.

Example over_aligned_stranded :
  match add_range demo_start (demo_start + 16 * PAGE_SIZE) new with
  | Done (_, p) => strand (slab_new p 4096) = Fault Panic
  | Fault _ => False
  end.
Proof. vm_compute. reflexivity. Qed.
