(* ===== verification/Mapper.v ===== *)
(** * Page tables

    Models [klib/src/pm/page/mapper.rs]: the four-level page tables of the
    16 KiB granule, [map_page], [map_l2_block], [unmap_page] and the region
    operations, cloning and freeing.  Tables live in a store keyed by
    physical address and are reached through the translator.  The descriptor
    type of [aarch64_cpu_ext] and the table allocator are interfaces: classes
    of operations with the laws the code relies on. *)

From S2P Require Import Prelude Vm.

(** ** Interfaces *)

(** Translation table entries: [aarch64_cpu_ext]'s [TTENATIVE]. *)
Class TTE := {
  tte : Type;
  AccessPermission : Type;
  Shareability : Type;
  tte_zero : tte;
  is_valid : tte → bool;
  is_table : tte → bool;
  address : tte → Z;
  set_is_valid : bool → tte → tte;
  set_is_table : tte → tte;
  set_is_block : tte → tte;
  set_address : Z → tte → tte;
  set_access : tte → tte;
  set_access_permission : AccessPermission → tte → tte;
  set_shareability : Shareability → tte → tte;
  set_attr_index : Z → tte → tte;
  set_executable : bool → tte → tte;
  set_privileged_executable : bool → tte → tte;
  tte_new_table : Z → tte;
  calculate_index : Z → Z → Z
}.

(** An operation that changes neither validity, kind nor address. *)
Definition attr_only {D : TTE} (f : tte → tte) : Prop := ∀ e,
  is_valid (f e) = is_valid e ∧ address (f e) = address e ∧
  (is_valid e = true → is_table (f e) = is_table e).

(** Addresses a descriptor can hold. *)
Definition table_addr (p : Z) : Prop := phys_addr p ∧ (PAGE_SIZE | p).

Class TTELaws (D : TTE) := {
  tte_zero_valid : is_valid tte_zero = false;
  tte_zero_address : address tte_zero = 0;
  set_valid_valid b e : is_valid (set_is_valid b e) = b;
  set_valid_address b e : address (set_is_valid b e) = address e;
  set_table_valid e : is_valid (set_is_table e) = is_valid e;
  set_table_table e : is_valid e = true → is_table (set_is_table e) = true;
  set_table_address e : address (set_is_table e) = address e;
  set_block_valid e : is_valid (set_is_block e) = is_valid e;
  set_block_table e : is_valid e = true → is_table (set_is_block e) = false;
  set_block_address e : address (set_is_block e) = address e;
  set_address_valid a e : is_valid (set_address a e) = is_valid e;
  set_address_table a e : is_valid e = true → is_table (set_address a e) = is_table e;
  set_address_address a e : table_addr a → address (set_address a e) = a;
  set_access_attr : attr_only set_access;
  set_access_permission_attr ap : attr_only (set_access_permission ap);
  set_shareability_attr sh : attr_only (set_shareability sh);
  set_attr_index_attr i : attr_only (set_attr_index i);
  set_executable_attr b : attr_only (set_executable b);
  set_privileged_executable_attr b : attr_only (set_privileged_executable b);
  new_table_valid a : is_valid (tte_new_table a) = true;
  new_table_table a : is_table (tte_new_table a) = true;
  new_table_address a : table_addr a → address (tte_new_table a) = a;
  (** Four levels of the 16 KiB granule: one index bit at level 0 and eleven
      at each of the others. *)
  calculate_index_spec va l : 0 ≤ va → 0 ≤ l ≤ 3 →
    calculate_index va l =
    Z.shiftr va (PAGE_SHIFT + (3 - l) * PAGE_INDEX_BITS) mod
    (if l =? 0 then 2 else TABLE_ENTRIES)
}.

(** The [TableAllocator] trait, over the state [A] of the allocator; the
    pointers are virtual.  A new table is zeroed by every implementation. *)
Class TableAllocator (A : Type) := {
  alloc_table : A → outcome (Z * A);
  free_table : Z → A → outcome A
}.

(** [owns a u]: [u] are the physical addresses of the tables handed out;
    [room a] is a number of tables that can still be allocated. *)
Class TableAllocatorLaws {T : AddressTranslator} (A : Type) {TA : TableAllocator A} := {
  owns : A → gset Z → Prop;
  room : A → nat;
  alloc_table_fresh a u ptr a' : owns a u → alloc_table a = Done (ptr, a') →
    ∃ p, ptr = phys_to_dmap p ∧ table_addr p ∧ p ≠ 0 ∧ (p ∉ u) ∧
         owns a' ({[p]} ∪ u) ∧ (room a ≤ S (room a'))%nat;
  alloc_table_room a u : owns a u → (0 < room a)%nat → ∃ r, alloc_table a = Done r
}.

Lemma alloc_table_ok `{TAL : TableAllocatorLaws A} a u : owns a u → (0 < room a)%nat →
  ∃ p a', alloc_table a = Done (phys_to_dmap p, a') ∧ table_addr p ∧ p ≠ 0 ∧ (p ∉ u) ∧
          owns a' ({[p]} ∪ u) ∧ (room a ≤ S (room a'))%nat.
Proof.
  intros Ho Hr. destruct (alloc_table_room a u Ho Hr) as [[ptr a'] E].
  destruct (alloc_table_fresh a u ptr a' Ho E) as (p & -> & Hp). by exists p, a'.
Qed.

Class TableFreeLaws {T : AddressTranslator} (A : Type) {TA : TableAllocator A} {TAL : TableAllocatorLaws A} := {
  free_table_ok a u p : owns a u → p ∈ u →
    ∃ a', free_table (phys_to_dmap p) a = Done a' ∧ owns a' (u ∖ {[p]}) ∧ (room a ≤ room a')%nat
}.

(** ** State and accesses *)

Record Pt {D : TTE} (A : Type) := { tables : gmap Z (list tte); alloc_state : A }.
Arguments tables {D A} _.
Arguments alloc_state {D A} _.

(** The permissions and attributes of a mapping, as the arguments of the
    mapping functions. *)
Record Attrs {D : TTE} := {
  access : AccessPermission;
  share : Shareability;
  uxn : bool;
  pxn : bool;
  attr_index : Z
}.

Section operations.
Context {T : AddressTranslator} {D : TTE} {A : Type} {TA : TableAllocator A}.

Definition set_tables (m : gmap Z (list tte)) (s : Pt A) : Pt A :=
  {| tables := m; alloc_state := alloc_state s |}.

(** [table.entries[i]] through a table pointer. *)
Definition read_entry (ptr i : Z) : M (Pt A) tte := λ s,
  match tables s !! dmap_to_phys ptr with
  | Some es => match es !! Z.to_nat i with Some e => Done (e, s) | None => Fault Panic end
  | None => Fault BadDeref
  end.
Definition update_entry (ptr i : Z) (f : tte → tte) : M (Pt A) unit :=
  let* e := read_entry ptr i in
  modify (λ s, set_tables (alter (λ es, <[Z.to_nat i := f e]> es) (dmap_to_phys ptr) (tables s)) s).

Definition zero_table : list tte := replicate (Z.to_nat TABLE_ENTRIES) tte_zero.

Definition new_table : M (Pt A) Z := λ s,
  match alloc_table (alloc_state s) with
  | Done (ptr, a) =>
      Done (ptr, {| tables := <[dmap_to_phys ptr := zero_table]> (tables s); alloc_state := a |})
  | Fault f => Fault f
  end.
Definition release_table (ptr : Z) : M (Pt A) unit := λ s,
  match free_table ptr (alloc_state s) with
  | Done a => Done (tt, {| tables := delete (dmap_to_phys ptr) (tables s); alloc_state := a |})
  | Fault f => Fault f
  end.

(** ** Mapping *)

(** The [else] branch of the three walks: a fresh table behind the entry. *)
Definition link_new_table (ptr i : Z) : M (Pt A) Z :=
  let* t := new_table in
  update_entry ptr i (set_is_valid true) ;;
  update_entry ptr i set_is_table ;;
  update_entry ptr i (set_address (dmap_to_phys t)) ;;
  ret t.

(** Levels 0 and 1: [address() != 0 && is_table()]. *)
Definition walk_create (ptr i : Z) : M (Pt A) Z :=
  let* e := read_entry ptr i in
  if negb (address e =? 0) && is_table e then ret (phys_to_dmap (address e))
  else link_new_table ptr i.

(** Level 2 of [map_page]: [is_valid()]. *)
Definition walk_create_l2 (ptr i : Z) : M (Pt A) Z :=
  let* e := read_entry ptr i in
  if is_valid e then ret (phys_to_dmap (address e)) else link_new_table ptr i.

(** The attribute setters shared by both kinds of leaf. *)
Definition set_attrs (at_ : Attrs) (e : tte) : tte :=
  set_privileged_executable (negb (pxn at_)) (set_executable (negb (uxn at_))
    (set_attr_index (attr_index at_) (set_shareability (share at_)
      (set_access_permission (access at_) (set_access e))))).

Definition page_leaf (pa : Z) (at_ : Attrs) (e : tte) : tte :=
  set_attrs at_ (set_address pa (set_is_table (set_is_valid true e))).
Definition block_leaf (pa : Z) (at_ : Attrs) (e : tte) : tte :=
  set_attrs at_ (set_address pa (set_is_block (set_is_valid true e))).

Definition map_page (root pa va : Z) (at_ : Attrs) : M (Pt A) unit :=
  let* l1_table := walk_create root (calculate_index va 0) in
  let* l2_table := walk_create l1_table (calculate_index va 1) in
  let* l3_table := walk_create_l2 l2_table (calculate_index va 2) in
  update_entry l3_table (calculate_index va 3) (page_leaf pa at_).

Definition map_l2_block (root pa va : Z) (at_ : Attrs) : M (Pt A) unit :=
  let* l1_table := walk_create root (calculate_index va 0) in
  let* l2_table := walk_create l1_table (calculate_index va 1) in
  update_entry l2_table (calculate_index va 2) (block_leaf pa at_).

(** [for i in i..i+n]. *)
Fixpoint map_pages_loop (n : nat) (i root pa va : Z) (at_ : Attrs) : M (Pt A) unit :=
  match n with
  | O => ret tt
  | S n' => let* vaddr := expect (checked_add 64 va (Z.shiftl i PAGE_SHIFT)) in
            let* paddr := expect (checked_add 64 pa (Z.shiftl i PAGE_SHIFT)) in
            map_page root paddr vaddr at_ ;;
            map_pages_loop n' (i + 1) root pa va at_
  end.

Definition map_region (root pa va size : Z) (at_ : Attrs) : M (Pt A) unit :=
  assert (Z.land va PAGE_MASK =? 0) ;;
  assert (Z.land pa PAGE_MASK =? 0) ;;
  assert (Z.land size PAGE_MASK =? 0) ;;
  assert (PAGE_SIZE <=? size) ;;
  map_pages_loop (Z.to_nat (Z.shiftr size PAGE_SHIFT)) 0 root pa va at_.

Fixpoint id_map_loop (n : nat) (i root : Z) (at_ : Attrs) : M (Pt A) unit :=
  match n with
  | O => ret tt
  | S n' => map_l2_block root (i * L2_BLOCK_SIZE) (i * L2_BLOCK_SIZE) at_ ;;
            id_map_loop n' (i + 1) root at_
  end.

Definition BLOCKS_NEEDED : Z := L1_BLOCK_SIZE / L2_BLOCK_SIZE.
Definition id_map (root : Z) (at_ : Attrs) : M (Pt A) unit :=
  id_map_loop (Z.to_nat BLOCKS_NEEDED) 0 root at_.

(** ** Unmapping *)

Definition is_table_empty (ptr : Z) : M (Pt A) bool := λ s,
  match tables s !! dmap_to_phys ptr with
  | Some es => Done (forallb (λ e, negb (is_valid e)) es, s)
  | None => Fault BadDeref
  end.

(** [entry.set_is_valid(false); entry.set_address(0)]. *)
Definition clear_entry (ptr i : Z) : M (Pt A) unit :=
  update_entry ptr i (set_is_valid false) ;; update_entry ptr i (set_address 0).

Definition unmap_page (root va : Z) : M (Pt A) unit :=
  let i0 := calculate_index va 0 in
  let i1 := calculate_index va 1 in
  let i2 := calculate_index va 2 in
  let i3 := calculate_index va 3 in
  let* l0_entry := read_entry root i0 in
  if negb (is_valid l0_entry) || negb (is_table l0_entry) then ret tt else
  let l1_table := phys_to_dmap (address l0_entry) in
  let* l1_entry := read_entry l1_table i1 in
  if negb (is_valid l1_entry) || negb (is_table l1_entry) then ret tt else
  let l2_table := phys_to_dmap (address l1_entry) in
  let* l2_entry := read_entry l2_table i2 in
  if negb (is_valid l2_entry) || negb (is_table l2_entry) then ret tt else
  let l3_table := phys_to_dmap (address l2_entry) in
  let* l3_entry := read_entry l3_table i3 in
  if negb (is_valid l3_entry) then ret tt else
  clear_entry l3_table i3 ;;
  let* empty3 := is_table_empty l3_table in
  if negb empty3 then ret tt else
  release_table l3_table ;;
  clear_entry l2_table i2 ;;
  let* empty2 := is_table_empty l2_table in
  if negb empty2 then ret tt else
  release_table l2_table ;;
  clear_entry l1_table i1 ;;
  let* empty1 := is_table_empty l1_table in
  if negb empty1 then ret tt else
  release_table l1_table ;;
  clear_entry root i0.

Fixpoint unmap_pages_loop (n : nat) (i root va : Z) : M (Pt A) unit :=
  match n with
  | O => ret tt
  | S n' => let* vaddr := expect (checked_add 64 va (Z.shiftl i PAGE_SHIFT)) in
            unmap_page root vaddr ;; unmap_pages_loop n' (i + 1) root va
  end.

Definition unmap_region (root va size : Z) : M (Pt A) unit :=
  assert (Z.land va PAGE_MASK =? 0) ;;
  assert (Z.land size PAGE_MASK =? 0) ;;
  unmap_pages_loop (Z.to_nat (Z.shiftr size PAGE_SHIFT)) 0 root va.

(** ** Cloning and freeing whole trees *)

Fixpoint for_range (n : nat) (i : Z) (body : Z → M (Pt A) unit) : M (Pt A) unit :=
  match n with
  | O => ret tt
  | S n' => body i ;; for_range n' (i + 1) body
  end.

(** [clone_l3], [clone_l2], [clone_l1] and [clone_l0] are levels 0 to 3; a
    child table is read at its address without translation, and the clone's
    pointer is stored as it is. *)
Fixpoint clone_level (level : nat) (src : Z) : M (Pt A) Z :=
  let* dst := new_table in
  for_range (Z.to_nat TABLE_ENTRIES) 0 (λ i,
    let* e := read_entry src i in
    match level with
    | O => update_entry dst i (λ _, e)
    | S level' =>
        if negb (is_valid e) then ret tt
        else if is_table e then
          let* child_dst := clone_level level' (address e) in
          update_entry dst i (λ _, set_address child_dst e)
        else update_entry dst i (λ _, e)
    end) ;;
  ret dst.

Definition clone_page_tables (old : Z) : M (Pt A) Z := clone_level 3 old.

(** The loops of [free_tables]: level 0 is an L3 table, whose entries are
    invalidated; the tables below a higher level are freed first. *)
Fixpoint free_level (level : nat) (ptr : Z) : M (Pt A) unit :=
  for_range (Z.to_nat (match level with 3%nat => 2 | _ => TABLE_ENTRIES end)) 0 (λ i,
    let* e := read_entry ptr i in
    if negb (is_valid e) || negb (is_table e) then ret tt
    else match level with
    | O => update_entry ptr i (set_is_valid false)
    | S level' => free_level level' (phys_to_dmap (address e))
    end) ;;
  release_table ptr.

Definition free_tables (root : Z) : M (Pt A) unit := free_level 3 root.

End operations.
