(* ===== verification/MapperSpec.v ===== *)
(** * Correctness of the page-table operations

    What the MMU sees is a function from paths to leaves, computed by
    [descend] from the store.  The invariant [tree] says that the reachable
    tables form a tree without sharing.  Mapping changes exactly the leaf of
    the mapped page, unmapping removes exactly that leaf; intermediate tables
    appear and disappear without changing any translation. *)

From S2P Require Import Prelude Vm Mapper.

Section tree.
Context {D : TTE} {DL : TTELaws D}.
Implicit Types (m : gmap Z (list tte)) (p q : list Z) (e : tte).

(** ** What the MMU sees *)

Definition entry m (t i : Z) : option tte := es ← m !! t; es !! Z.to_nat i.

Definition points e : bool := is_valid e && is_table e.

(** The table reached by following the indices of a path. *)
Fixpoint descend m (t : Z) p : option Z :=
  match p with
  | [] => Some t
  | i :: p' => e ← entry m t i; if points e then descend m (address e) p' else None
  end.

(** The leaf behind a path: a page descriptor in a level 3 table (path of
    three indices), or a block descriptor in a level 2 table. *)
Definition leaf m (root : Z) p (i : Z) : option tte :=
  t ← descend m root p; e ← entry m t i;
  match length p with
  | 3%nat => if is_valid e then Some e else None
  | 2%nat => if is_valid e && negb (is_table e) then Some e else None
  | _ => None
  end.

Definition index_ok (i : Z) : Prop := 0 ≤ i < TABLE_ENTRIES.
Definition path_ok p : Prop := (length p ≤ 3)%nat ∧ Forall index_ok p.

(** Entries of level 0 and 1 tables: the code tests the address, the MMU the
    valid bit. *)
Definition upper_ok e : Prop :=
  if is_valid e then is_table e = true ∧ address e ≠ 0 else address e = 0.

Record tree m (root : Z) : Prop := {
  tr_table p t : path_ok p → descend m root p = Some t →
    table_addr t ∧ ∃ es, m !! t = Some es ∧ length es = Z.to_nat TABLE_ENTRIES;
  tr_inj p1 p2 t : path_ok p1 → path_ok p2 →
    descend m root p1 = Some t → descend m root p2 = Some t → p1 = p2;
  tr_upper p t i e : path_ok p → (length p ≤ 1)%nat → index_ok i →
    descend m root p = Some t → entry m t i = Some e → upper_ok e
}.

(** ** Lookups *)

Lemma path_ok_app p i : path_ok (p ++ [i]) ↔ path_ok p ∧ (length p ≤ 2)%nat ∧ index_ok i.
Proof.
  unfold path_ok. rewrite length_app, Forall_app, Forall_singleton. simpl. intuition lia.
Qed.

Lemma path_ok_prefix p q : path_ok (p ++ q) → path_ok p.
Proof. intros [Hl [HF _]%Forall_app]. rewrite length_app in Hl. split; [lia|done]. Qed.

Lemma descend_app m t p q :
  descend m t (p ++ q) = (t' ← descend m t p; descend m t' q).
Proof.
  revert t. induction p as [|i p IH]; intros t; [done|]. simpl.
  destruct (entry m t i) as [e|]; simpl; [|done]. destruct (points e); [apply IH|done].
Qed.

Lemma descend_snoc m t p i :
  descend m t (p ++ [i]) =
  (t' ← descend m t p; e ← entry m t' i; if points e then Some (address e) else None).
Proof. rewrite descend_app. by destruct (descend m t p). Qed.

Lemma tree_entry m root p t i : tree m root → path_ok p → descend m root p = Some t →
  index_ok i → is_Some (entry m t i).
Proof.
  intros Tr Hp Ht Hi. destruct (tr_table _ _ Tr p t Hp Ht) as (_ & es & Hes & Hlen).
  unfold entry. rewrite Hes. simpl. apply lookup_lt_is_Some. unfold index_ok in Hi. lia.
Qed.

(** One entry replaced. *)
Definition upd_entry m (t i : Z) e : gmap Z (list tte) :=
  alter (λ es, <[Z.to_nat i := e]> es) t m.

Lemma entry_upd_eq m t i e : is_Some (entry m t i) → entry (upd_entry m t i e) t i = Some e.
Proof.
  intros [e0 H]. unfold entry, upd_entry in *. rewrite lookup_alter_eq.
  destruct (m !! t) as [es|]; simpl in *; [|done].
  apply list_lookup_insert_eq. by eapply lookup_lt_Some.
Qed.

Lemma entry_upd_ne m t i e t' i' : 0 ≤ i → 0 ≤ i' → (t', i') ≠ (t, i) →
  entry (upd_entry m t i e) t' i' = entry m t' i'.
Proof.
  intros Hi Hi' Hne. unfold entry, upd_entry. destruct (decide (t' = t)) as [->|Ht].
  - rewrite lookup_alter_eq. destruct (m !! t) as [es|]; simpl; [|done].
    apply list_lookup_insert_ne. intros E. apply Hne. f_equal. lia.
  - by rewrite lookup_alter_ne.
Qed.

Lemma length_upd_entry m t i e t' :
  length <$> (upd_entry m t i e !! t') = length <$> (m !! t').
Proof.
  unfold upd_entry. destruct (decide (t' = t)) as [->|].
  - rewrite lookup_alter_eq. destruct (m !! t); simpl; [by rewrite length_insert|done].
  - by rewrite lookup_alter_ne.
Qed.

(** The stores [m] and [m'] agree on what paths that avoid entry [i] of the
    table at [q] see. *)
Definition agrees m m' (root : Z) q (t i : Z) : Prop :=
  ∀ p t' j, path_ok p → ¬ (q ++ [i]) `prefix_of` p → descend m root p = Some t' → index_ok j →
    (t', j) ≠ (t, i) → entry m' t' j = entry m t' j.

Section change.
Context m m' (root : Z) q (t i : Z).
Context (Tr : tree m root) (Hq : path_ok q) (Ht : descend m root q = Some t).
Context (Hfr : agrees m m' root q t i).

(** Paths that do not pass through the changed entry are unaffected. *)
Lemma descend_frame_aux r pre t' : path_ok (pre ++ r) → descend m root pre = Some t' →
  ¬ (q ++ [i]) `prefix_of` (pre ++ r) → descend m' t' r = descend m t' r.
Proof.
  revert pre t'. induction r as [|j r IH]; intros pre t' Hp Ht' Hnp; [done|].
  assert (path_ok pre) as Hpre by by eapply path_ok_prefix.
  assert (index_ok j) as Hj.
  { destruct Hp as [_ [_ HF]%Forall_app]. by inversion HF. }
  simpl. rewrite (Hfr pre t' j Hpre); try done.
  - destruct (entry m t' j) as [e|] eqn:He; simpl; [|done]. destruct (points e) eqn:Hpt; [|done].
    apply (IH (pre ++ [j])); rewrite <- ?app_assoc; [done| |done].
    rewrite descend_snoc, Ht'. simpl. rewrite He. simpl. by rewrite Hpt.
  - intros Hx. apply Hnp. by apply prefix_app_r.
  - intros [= -> ->]. apply Hnp. rewrite (tr_inj _ _ Tr pre q t Hpre Hq Ht' Ht).
    exists r. by rewrite <- app_assoc.
Qed.

Lemma descend_frame p : path_ok p → ¬ (q ++ [i]) `prefix_of` p →
  descend m' root p = descend m root p.
Proof. intros Hp Hnp. by apply (descend_frame_aux p []). Qed.

Lemma leaf_frame p j : path_ok p → index_ok j → ¬ (q ++ [i]) `prefix_of` p → (p, j) ≠ (q, i) →
  leaf m' root p j = leaf m root p j.
Proof.
  intros Hp Hj Hnp Hne. unfold leaf. rewrite descend_frame by done.
  destruct (descend m root p) as [t'|] eqn:Hd; simpl; [|done].
  rewrite (Hfr p t' j); try done. intros [= -> ->]. apply Hne. f_equal.
  by apply (tr_inj _ _ Tr p q t).
Qed.
End change.

Lemma agrees_upd m root q t i e : index_ok i → agrees m (upd_entry m t i e) root q t i.
Proof.
  intros Hi p t' j _ _ _ Hj Hne. unfold index_ok in *. apply entry_upd_ne; (done || lia).
Qed.

Lemma not_prefix_long q i p : path_ok p → length q = 3%nat → ¬ (q ++ [i]) `prefix_of` p.
Proof. intros [Hl _] Hq Hp%prefix_length. rewrite length_app in Hp. simpl in Hp. lia. Qed.

Lemma tree_tables_kept m m' root : tree m root →
  (∀ p t, path_ok p → descend m' root p = Some t → descend m root p = Some t ∧
     length <$> (m' !! t) = length <$> (m !! t)) →
  (∀ p t i e, path_ok p → (length p ≤ 1)%nat → index_ok i →
     descend m' root p = Some t → entry m' t i = Some e → upper_ok e) → tree m' root.
Proof.
  intros Tr Hd Hu. split; [|intros p1 p2 t H1 H2 D1 D2|done].
  - intros p t Hp Ht. destruct (Hd p t Hp Ht) as [Ht' El].
    destruct (tr_table _ _ Tr p t Hp Ht') as (Ha & es & Hes & Hlen). split; [done|].
    rewrite Hes in El. destruct (m' !! t) as [es'|]; simplify_eq/=. exists es'. split; [done|]. congruence.
  - apply (tr_inj _ _ Tr p1 p2 t); [done|done|by apply Hd|by apply Hd].
Qed.

(** ** Replacing a leaf of a level 3 table *)

Lemma tree_set_leaf m root q t i e : tree m root → path_ok q → length q = 3%nat →
  descend m root q = Some t → index_ok i → let m' := upd_entry m t i e in
  tree m' root ∧ (∀ p, path_ok p → descend m' root p = descend m root p) ∧
  leaf m' root q i = (if is_valid e then Some e else None) ∧
  (∀ p j, path_ok p → index_ok j → (p, j) ≠ (q, i) → leaf m' root p j = leaf m root p j).
Proof.
  intros Tr Hq Hl Ht Hi m'. pose proof (agrees_upd m root q t i e Hi) as Hfr.
  assert (∀ p, path_ok p → descend m' root p = descend m root p) as Hd.
  { intros p Hp. by apply (descend_frame m m' root q t i Tr Hq Ht Hfr p Hp), not_prefix_long. }
  split_and!; [|done| |].
  - apply (tree_tables_kept m); [done| |].
    + intros p t' Hp Ht'. rewrite Hd in Ht' by done. split; [done|]. apply length_upd_entry.
    + intros p t' j e' Hp Hlp Hj Ht' He'. rewrite Hd in Ht' by done.
      apply (tr_upper _ _ Tr p t' j e'); try done. rewrite <- He'. symmetry.
      apply (Hfr p); auto using not_prefix_long. intros [= -> ->].
      rewrite (tr_inj _ _ Tr p q t) in Hlp by done. lia.
  - unfold leaf. rewrite Hd, Ht by done. simpl.
    unfold m'. rewrite entry_upd_eq by (by eapply tree_entry). simpl. by rewrite Hl.
  - intros p j Hp Hj Hne. apply (leaf_frame m m' root q t i Tr Hq Ht Hfr); auto using not_prefix_long.
Qed.

(** ** Writing a block into an entry that is not a table *)

Lemma points_stop m root q t i e r : descend m root q = Some t → entry m t i = Some e →
  points e = false → descend m root ((q ++ [i]) ++ r) = None.
Proof.
  intros Ht He Hp. rewrite descend_app, descend_snoc, Ht. simpl. rewrite He. simpl. by rewrite Hp.
Qed.

Lemma tree_set_block m root q t i e0 e : tree m root → path_ok q → length q = 2%nat →
  descend m root q = Some t → index_ok i → entry m t i = Some e0 → points e0 = false →
  is_valid e = true → is_table e = false → let m' := upd_entry m t i e in
  tree m' root ∧ (∀ p, path_ok p → descend m' root p = descend m root p) ∧
  leaf m' root q i = Some e ∧
  (∀ p j, path_ok p → index_ok j → (p, j) ≠ (q, i) → leaf m' root p j = leaf m root p j).
Proof.
  intros Tr Hq Hl Ht Hi He0 Hp0 Hv Htb m'. pose proof (agrees_upd m root q t i e Hi) as Hfr.
  assert (entry m' t i = Some e) as He by (apply entry_upd_eq; by eexists).
  assert (¬ (q ++ [i]) `prefix_of` q) as Hself.
  { intros Hx%prefix_length. rewrite length_app in Hx. simpl in Hx. lia. }
  pose proof (descend_frame m m' root q t i Tr Hq Ht Hfr) as Hdf.
  assert (∀ p, path_ok p → descend m' root p = descend m root p) as Hd.
  { intros p Hp. destruct (decide ((q ++ [i]) `prefix_of` p)) as [[r ->]|Hnp]; [|by apply Hdf].
    rewrite (points_stop m root q t i e0), (points_stop m' root q t i e); try done.
    - by rewrite Hdf.
    - unfold points. by rewrite Hv, Htb. }
  split_and!; [|done| |].
  - apply (tree_tables_kept m); [done| |].
    + intros p t' Hp Ht'. rewrite Hd in Ht' by done. split; [done|]. apply length_upd_entry.
    + intros p t' j e' Hp Hlp Hj Ht' He'. rewrite Hd in Ht' by done.
      apply (tr_upper _ _ Tr p t' j e'); try done. rewrite <- He'. symmetry.
      apply (Hfr p); try done.
      * intros Hx%prefix_length. rewrite length_app in Hx. simpl in Hx. lia.
      * intros [= -> ->]. rewrite (tr_inj _ _ Tr p q t) in Hlp by done. lia.
  - unfold leaf. rewrite Hd, Ht by done. simpl. rewrite He. simpl. by rewrite Hl, Hv, Htb.
  - intros p j Hp Hj Hne. destruct (decide ((q ++ [i]) `prefix_of` p)) as [[r ->]|Hnp].
    + unfold leaf. rewrite Hd by done. by rewrite (points_stop m root q t i e0).
    + by apply (leaf_frame m m' root q t i Tr Hq Ht Hfr).
Qed.

(** ** Linking a fresh table *)

Lemma prefix_cases q i p : (q ++ [i]) `prefix_of` p → p = q ++ [i] ∨ ∃ j r, p = (q ++ [i]) ++ j :: r.
Proof. intros [r ->]. destruct r as [|j r]; [left; by rewrite app_nil_r|eauto]. Qed.

Lemma zero_table_entry m n j e : m !! n = Some zero_table → entry m n j = Some e →
  e = tte_zero.
Proof.
  intros Hm He. unfold entry in He. rewrite Hm in He. simpl in He.
  by apply lookup_replicate_1 in He as [-> _].
Qed.

Section link.
Context m (root : Z) q (t i n : Z) (e e' : tte).
Context (Tr : tree m root) (Hq : path_ok (q ++ [i])) (Ht : descend m root q = Some t).
Context (He : entry m t i = Some e) (Hinv : is_valid e = false).
Context (Hn : m !! n = None) (Hna : table_addr n) (Hn0 : n ≠ 0).
Context (Hv : is_valid e' = true) (Htb : is_table e' = true) (Ha : address e' = n).

Definition linked : gmap Z (list tte) := upd_entry (<[n := zero_table]> m) t i e'.

Lemma link_q : path_ok q ∧ (length q ≤ 2)%nat ∧ index_ok i.
Proof. by apply path_ok_app. Qed.

Lemma link_t_ne : t ≠ n.
Proof. intros ->. unfold entry in He. by rewrite Hn in He. Qed.

Lemma link_agrees : agrees m linked root q t i.
Proof.
  destruct link_q as (Hq1 & _ & Hi). intros p t' j Hp _ Ht' Hj Hne. unfold linked, index_ok in *.
  rewrite entry_upd_ne by (done || lia). unfold entry. rewrite lookup_insert_ne; [done|].
  intros <-. destruct (tr_table _ _ Tr p n Hp Ht') as (_ & es & Hes & _). congruence.
Qed.

Lemma link_entry : entry linked t i = Some e'.
Proof.
  apply entry_upd_eq. unfold entry. rewrite lookup_insert_ne by apply not_eq_sym, link_t_ne.
  by exists e.
Qed.

Lemma link_new : linked !! n = Some zero_table.
Proof.
  unfold linked, upd_entry. rewrite lookup_alter_ne by apply link_t_ne. apply lookup_insert_eq.
Qed.

Lemma link_descend p : path_ok p → descend linked root p =
  if decide ((q ++ [i]) `prefix_of` p)
  then if decide (p = q ++ [i]) then Some n else None
  else descend m root p.
Proof.
  destruct link_q as (Hq1 & Hq2 & Hi). intros Hp. case_decide as Hpf.
  - assert (descend linked root (q ++ [i]) = Some n) as Hd.
    { rewrite descend_snoc. rewrite (descend_frame m linked root q t i Tr Hq1 Ht link_agrees q Hq1).
      - rewrite Ht. simpl. rewrite link_entry. simpl. unfold points. by rewrite Hv, Htb, Ha.
      - intros Hx%prefix_length. rewrite length_app in Hx. simpl in Hx. lia. }
    destruct (prefix_cases q i p Hpf) as [->|(j & r & ->)]; [by rewrite decide_True|].
    rewrite decide_False by (intros Hx%(f_equal length); rewrite !length_app in Hx; simpl in Hx; lia).
    rewrite descend_app, Hd. simpl. destruct (entry linked n j) as [e0|] eqn:He0; simpl; [|done].
    rewrite (zero_table_entry _ _ _ _ link_new He0). unfold points. by rewrite tte_zero_valid.
  - by apply (descend_frame m linked root q t i Tr Hq1 Ht link_agrees).
Qed.

Lemma link_before p : (q ++ [i]) `prefix_of` p → descend m root p = None.
Proof.
  intros [r ->]. rewrite descend_app, descend_snoc, Ht. simpl. rewrite He. simpl.
  unfold points. by rewrite Hinv.
Qed.

Lemma link_tree : tree linked root.
Proof.
  destruct link_q as (Hq1 & Hq2 & Hi).
  assert (∀ p t', path_ok p → descend linked root p = Some t' →
    (p = q ++ [i] ∧ t' = n) ∨ (¬ (q ++ [i]) `prefix_of` p ∧ descend m root p = Some t' ∧ t' ≠ n)) as Hc.
  { intros p t' Hp Hd. rewrite link_descend in Hd by done. repeat case_decide; simplify_eq; [by left|].
    right. split; [done|]. split; [done|]. intros E.
    destruct (tr_table _ _ Tr p t' Hp Hd) as (_ & es & Hes & _). congruence. }
  split.
  - intros p t' Hp Hd. destruct (Hc p t' Hp Hd) as [[-> ->]|(_ & Hd' & Hne)].
    + split; [done|]. exists zero_table. split; [apply link_new|]. apply length_replicate.
    + destruct (tr_table _ _ Tr p t' Hp Hd') as (Ht' & es & Hes & Hlen). split; [done|].
      pose proof (length_upd_entry (<[n := zero_table]> m) t i e' t') as El. fold linked in El.
      rewrite lookup_insert_ne, Hes in El by congruence.
      destruct (linked !! t') as [es'|]; simplify_eq/=. exists es'. split; [done|]. congruence.
  - intros p1 p2 t' Hp1 Hp2 D1 D2.
    destruct (Hc p1 t' Hp1 D1) as [[E1 E1']|(_ & D1' & N1)],
             (Hc p2 t' Hp2 D2) as [[E2 E2']|(_ & D2' & N2)]; [congruence|done|done|].
    by apply (tr_inj _ _ Tr p1 p2 t').
  - intros p t' j e0 Hp Hl Hj Hd He0. destruct (Hc p t' Hp Hd) as [[-> ->]|(Hnp & Hd' & Hne)].
    + rewrite (zero_table_entry _ _ _ _ link_new He0). unfold upper_ok.
      rewrite tte_zero_valid. apply tte_zero_address.
    + destruct (decide ((t', j) = (t, i))) as [[= -> ->]|Hne'].
      * rewrite link_entry in He0. simplify_eq. unfold upper_ok. rewrite Hv. split; congruence.
      * rewrite (link_agrees p t' j) in He0 by done. by apply (tr_upper _ _ Tr p t' j).
Qed.

Lemma link_leaf p j : path_ok p → index_ok j → leaf linked root p j = leaf m root p j.
Proof.
  destruct link_q as (Hq1 & Hq2 & Hi). intros Hp Hj.
  destruct (decide ((q ++ [i]) `prefix_of` p)) as [Hpf|Hnp].
  - unfold leaf. rewrite link_before, link_descend, decide_True by done. simpl. case_decide; [|done].
    simpl. destruct (entry linked n j) as [e0|] eqn:He0; [|done]. simpl.
    rewrite (zero_table_entry _ _ _ _ link_new He0), tte_zero_valid.
    by destruct (length p) as [|[|[|[|]]]].
  - destruct (decide ((p, j) = (q, i))) as [[= -> ->]|Hne].
    + unfold leaf. rewrite link_descend, decide_False, Ht by done. simpl.
      rewrite link_entry, He. simpl. rewrite Hv, Htb, Hinv.
      by destruct (length q) as [|[|[|[|]]]]; [..|lia|lia].
    + by apply (leaf_frame m linked root q t i Tr Hq1 Ht link_agrees).
Qed.
End link.

(** ** Unlinking an empty table *)

Definition all_invalid m (n : Z) : Prop := ∀ j e, index_ok j → entry m n j = Some e → is_valid e = false.

Section unlink.
Context m (root : Z) q (t i n : Z) (e e' : tte).
Context (Tr : tree m root) (Hq : path_ok (q ++ [i])) (Ht : descend m root q = Some t).
Context (He : entry m t i = Some e) (Hpt : points e = true) (Ha : address e = n).
Context (Hemp : all_invalid m n) (Hv : is_valid e' = false) (Ha' : address e' = 0).

Definition unlinked : gmap Z (list tte) := upd_entry (delete n m) t i e'.

Lemma unlink_q : path_ok q ∧ (length q ≤ 2)%nat ∧ index_ok i.
Proof. by apply path_ok_app. Qed.

Lemma unlink_n : descend m root (q ++ [i]) = Some n.
Proof. rewrite descend_snoc, Ht. simpl. rewrite He. simpl. by rewrite Hpt, Ha. Qed.

Lemma unlink_t_ne : t ≠ n.
Proof.
  intros E. destruct unlink_q as (Hq1 & _ & _).
  assert (q = q ++ [i]) as Hx%(f_equal length).
  { apply (tr_inj _ _ Tr _ _ n); [done|done|by rewrite Ht, E|apply unlink_n]. }
  rewrite length_app in Hx. simpl in Hx. lia.
Qed.

Lemma unlink_agrees : agrees m unlinked root q t i.
Proof.
  destruct unlink_q as (Hq1 & _ & Hi). intros p t' j Hp Hnp Ht' Hj Hne. unfold unlinked, index_ok in *.
  rewrite entry_upd_ne by (done || lia). unfold entry. rewrite lookup_delete_ne; [done|].
  intros E. apply Hnp. rewrite (tr_inj _ _ Tr p (q ++ [i]) n); [done|done|done|congruence|apply unlink_n].
Qed.

Lemma unlink_entry : entry unlinked t i = Some e'.
Proof.
  apply entry_upd_eq. unfold entry. rewrite lookup_delete_ne by apply not_eq_sym, unlink_t_ne.
  by exists e.
Qed.

Lemma unlink_descend p : path_ok p → descend unlinked root p =
  if decide ((q ++ [i]) `prefix_of` p) then None else descend m root p.
Proof.
  destruct unlink_q as (Hq1 & Hq2 & Hi). intros Hp. case_decide as Hpf.
  - destruct Hpf as [r ->]. rewrite descend_app, descend_snoc.
    rewrite (descend_frame m unlinked root q t i Tr Hq1 Ht unlink_agrees q Hq1).
    + rewrite Ht. simpl. rewrite unlink_entry. simpl. unfold points. by rewrite Hv.
    + intros Hx%prefix_length. rewrite length_app in Hx. simpl in Hx. lia.
  - by apply (descend_frame m unlinked root q t i Tr Hq1 Ht unlink_agrees).
Qed.

Lemma unlink_tree : tree unlinked root.
Proof.
  destruct unlink_q as (Hq1 & Hq2 & Hi). apply (tree_tables_kept m); [done| |].
  - intros p t' Hp Hd. rewrite unlink_descend in Hd by done. case_decide as Hnp; [done|].
    split; [done|]. unfold unlinked. rewrite length_upd_entry, lookup_delete_ne; [done|].
    intros E. apply Hnp. rewrite (tr_inj _ _ Tr p (q ++ [i]) n); [done|done|done|congruence|apply unlink_n].
  - intros p t' j e0 Hp Hl Hj Hd He0. rewrite unlink_descend in Hd by done. case_decide as Hnp; [done|].
    destruct (decide ((t', j) = (t, i))) as [[= -> ->]|Hne].
    + rewrite unlink_entry in He0. simplify_eq. unfold upper_ok. by rewrite Hv.
    + rewrite (unlink_agrees p t' j) in He0 by done. by apply (tr_upper _ _ Tr p t' j).
Qed.

(** The empty table and everything behind it showed nothing. *)
Lemma unlink_before p j : path_ok p → index_ok j → (q ++ [i]) `prefix_of` p → leaf m root p j = None.
Proof.
  intros Hp Hj Hpf. unfold leaf. destruct (prefix_cases q i p Hpf) as [->|(k & r & ->)].
  - rewrite unlink_n. simpl. destruct (entry m n j) as [e0|] eqn:He0; simpl; [|done].
    rewrite (Hemp j e0 Hj He0). by destruct (length (q ++ [i])) as [|[|[|[|]]]].
  - assert (index_ok k) as Hk.
    { destruct Hp as [_ [_ HF]%Forall_app]. by inversion HF. }
    rewrite descend_app, unlink_n. simpl. destruct (entry m n k) as [e0|] eqn:He0; simpl; [|done].
    unfold points. by rewrite (Hemp k e0 Hk He0).
Qed.

Lemma unlink_leaf p j : path_ok p → index_ok j → leaf unlinked root p j = leaf m root p j.
Proof.
  destruct unlink_q as (Hq1 & Hq2 & Hi). intros Hp Hj.
  destruct (decide ((q ++ [i]) `prefix_of` p)) as [Hpf|Hnp].
  - rewrite unlink_before by done. unfold leaf. by rewrite unlink_descend, decide_True.
  - destruct (decide ((p, j) = (q, i))) as [[= -> ->]|Hne].
    + unfold leaf. rewrite unlink_descend, decide_False, Ht by done. simpl.
      rewrite unlink_entry, He. simpl. unfold points in Hpt. apply andb_true_iff in Hpt as [Hp1 Hp2].
      rewrite Hv, Hp1, Hp2. by destruct (length q) as [|[|[|[|]]]]; [..|lia|lia].
    + by apply (leaf_frame m unlinked root q t i Tr Hq1 Ht unlink_agrees).
Qed.
End unlink.
End tree.
