(* ===== verification/MapperProofs.v ===== *)
(** * Mapping and unmapping pages

    The operations of [Mapper] executed against the tree invariant of
    [MapperSpec], against any table allocator that satisfies
    [TableAllocatorLaws], and the resulting contracts in terms of virtual
    addresses. *)

From S2P Require Import Prelude Vm Mapper MapperSpec.

Section ops.
Context {T : AddressTranslator} {TL : AddressTranslatorLaws T}.
Context {D : TTE} {DL : TTELaws D}.
Context {A : Type} {TA : TableAllocator A} {TAL : TableAllocatorLaws A}.
Implicit Types (s : Pt A) (q : list Z) (e : tte).

Record pt_inv (root : Z) s : Prop := {
  pi_tree : tree (tables s) root;
  pi_owns : owns (alloc_state s) (dom (tables s))
}.

(** Nothing that any path sees has changed. *)
Definition same_leaves (root : Z) s s' : Prop :=
  ∀ p j, path_ok p → index_ok j → leaf (tables s') root p j = leaf (tables s) root p j.

Lemma same_leaves_trans root s1 s2 s3 :
  same_leaves root s1 s2 → same_leaves root s2 s3 → same_leaves root s1 s3.
Proof. intros H1 H2 p j Hp Hj. by rewrite H2, H1. Qed.

(** ** Accesses *)

Lemma wp_read_entry ptr t i e s (Q : tte → Pt A → Prop) : dmap_to_phys ptr = t →
  entry (tables s) t i = Some e → Q e s → wp (read_entry ptr i) Q s.
Proof.
  intros Ep He HQ. unfold wp, read_entry. rewrite Ep. unfold entry in He.
  destruct (tables s !! t) as [es|]; simpl in He; [|done]. by rewrite He.
Qed.

Lemma wp_update_entry ptr t i e f s (Q : unit → Pt A → Prop) : dmap_to_phys ptr = t →
  entry (tables s) t i = Some e →
  Q tt (set_tables (upd_entry (tables s) t i (f e)) s) → wp (update_entry ptr i f) Q s.
Proof.
  intros Ep He HQ. unfold update_entry. wp_step. eapply wp_read_entry; [done..|]. wp_steps.
  by rewrite Ep.
Qed.

Lemma upd_entry_twice (m : gmap Z (list tte)) t i e1 e2 :
  upd_entry (upd_entry m t i e1) t i e2 = upd_entry m t i e2.
Proof.
  unfold upd_entry. rewrite alter_alter_eq. apply alter_ext. intros es _. simpl.
  apply list_insert_insert_eq.
Qed.

Lemma dom_upd_entry (m : gmap Z (list tte)) t i e : dom (upd_entry m t i e) = dom m.
Proof. apply dom_alter_L. Qed.

Lemma table_ptr root q t s : tree (tables s) root → path_ok q → descend (tables s) root q = Some t →
  dmap_to_phys (phys_to_dmap t) = t.
Proof. intros Tr Hq Ht. apply dmap_phys_dmap. by destruct (tr_table _ _ Tr q t Hq Ht) as [[? _] _]. Qed.

(** ** Walking down, creating tables *)

Definition link_entry_of n e : tte := set_address n (set_is_table (set_is_valid true e)).

Lemma link_entry_of_spec n e : table_addr n →
  is_valid (link_entry_of n e) = true ∧ is_table (link_entry_of n e) = true ∧
  address (link_entry_of n e) = n.
Proof.
  intros Hn. unfold link_entry_of.
  assert (is_valid (set_is_valid true e) = true) as Hv by apply set_valid_valid.
  assert (is_valid (set_is_table (set_is_valid true e)) = true) as Hv2 by by rewrite set_table_valid.
  split_and!.
  - by rewrite set_address_valid.
  - rewrite set_address_table by done. by apply set_table_table.
  - by apply set_address_address.
Qed.

(** Tables were only added. *)
Record extends (root : Z) s s' : Prop := {
  ext_keep p t : path_ok p → descend (tables s) root p = Some t → descend (tables s') root p = Some t;
  ext_new p t : path_ok p → descend (tables s') root p = Some t →
    descend (tables s) root p = Some t ∨ t ∉ dom (tables s);
  ext_dom : dom (tables s) ⊆ dom (tables s')
}.

Lemma extends_refl root s : extends root s s.
Proof. split; auto. Qed.

Lemma extends_trans root s1 s2 s3 : extends root s1 s2 → extends root s2 s3 → extends root s1 s3.
Proof.
  intros [K1 N1 D1] [K2 N2 D2]. split; [auto| |by etrans]. intros p t Hp Hd.
  destruct (N2 p t Hp Hd) as [Hd2|Hn]; [by apply N1|right; set_solver].
Qed.

(** The number of tables, one or none, that a walk to [q] has to add at [q]. *)
Definition missing (root : Z) q s : nat := if decide (descend (tables s) root q = None) then 1 else 0.

Lemma missing_le root q s : (missing root q s ≤ 1)%nat.
Proof. unfold missing. case_decide; lia. Qed.

Lemma missing_extends root q s s' : path_ok q → extends root s s' → (missing root q s' ≤ missing root q s)%nat.
Proof.
  intros Hq [K _ _]. unfold missing. repeat case_decide; try lia. destruct (descend (tables s) root q) as [t|] eqn:E; [|done].
  by rewrite (K q t Hq E) in *.
Qed.

(** At most the table at [q] is new. *)
Record grown (root : Z) q s s' : Prop := {
  gr_only p t : path_ok p → descend (tables s') root p = Some t → p = q ∨ descend (tables s) root p = Some t;
  gr_ext : extends root s s'
}.

(** A fresh table linked into an empty entry. *)
Lemma linked_grown root q t i n e e' a' s : pt_inv root s → path_ok (q ++ [i]) → descend (tables s) root q = Some t →
  entry (tables s) t i = Some e → is_valid e = false → table_addr n → n ≠ 0 → tables s !! n = None →
  is_valid e' = true → is_table e' = true → address e' = n → owns a' ({[n]} ∪ dom (tables s)) →
  let s' := {| tables := linked (tables s) t i n e'; alloc_state := a' |} in
  pt_inv root s' ∧ descend (tables s') root (q ++ [i]) = Some n ∧ same_leaves root s s' ∧ grown root (q ++ [i]) s s'.
Proof.
  intros [Tr Ow] Hq Ht He Hinv Hna Hn0 Hn Hv Htb Had Ow' s'.
  assert (∀ p t', path_ok p → descend (tables s') root p = Some t' →
    (p = q ++ [i] ∧ t' = n) ∨ descend (tables s) root p = Some t') as Hd.
  { intros p t' Hp. unfold s'. cbn [tables]. rewrite (link_descend (tables s) root q t i n e) by done. repeat case_decide; naive_solver. }
  split_and!; unfold s' in *; simpl in *.
  - split; simpl; [by apply (link_tree _ _ q _ _ _ e)|].
    unfold linked. by rewrite dom_upd_entry, dom_insert_L.
  - rewrite (link_descend (tables s) root q t i n e) by done. by rewrite !decide_True.
  - intros p j Hp Hj. by apply (link_leaf (tables s) root q t i n e).
  - split; simpl; [intros p t' Hp Hd'; destruct (Hd p t' Hp Hd'); naive_solver|]. split; simpl.
    + intros p t' Hp Hd'. rewrite (link_descend (tables s) root q t i n e) by done. rewrite decide_False; [done|].
      intros Hpf. by rewrite (link_before (tables s) root q t i e) in Hd'.
    + intros p t' Hp Hd'. destruct (Hd p t' Hp Hd') as [[_ ->]|?]; [right; by apply not_elem_of_dom|auto].
    + unfold linked. rewrite dom_upd_entry, dom_insert_L. set_solver.
Qed.

Lemma wp_link_new_table root q t i e ptr s (Q : Z → Pt A → Prop) :
  pt_inv root s → path_ok (q ++ [i]) → descend (tables s) root q = Some t →
  dmap_to_phys ptr = t → entry (tables s) t i = Some e → is_valid e = false →
  (0 < room (alloc_state s))%nat →
  (∀ n s', pt_inv root s' → descend (tables s') root (q ++ [i]) = Some n →
     same_leaves root s s' → (room (alloc_state s) ≤ S (room (alloc_state s')))%nat →
     grown root (q ++ [i]) s s' → Q (phys_to_dmap n) s') →
  wp (link_new_table ptr i) Q s.
Proof.
  intros I Hq Ht Ep He Hinv Hroom HQ.
  destruct (alloc_table_ok _ _ (pi_owns _ _ I) Hroom) as (n & a' & Ea & Hna & Hn0 & Hnu & Ow' & Hr).
  assert (tables s !! n = None) as Hn by by apply not_elem_of_dom.
  assert (dmap_to_phys (phys_to_dmap n) = n) as En by (apply dmap_phys_dmap; apply Hna).
  assert (t ≠ n) as Htn by (intros ->; unfold entry in He; by rewrite Hn in He).
  unfold link_new_table. wp_step. unfold wp at 1, new_table. rewrite Ea, En.
  set (m1 := <[n := zero_table]> (tables s)).
  assert (entry m1 t i = Some e) as He1 by (unfold entry, m1; by rewrite lookup_insert_ne).
  wp_step. eapply (wp_update_entry _ t i e); [done|exact He1|]. simpl.
  wp_step. eapply (wp_update_entry _ t i); [done|simpl; apply entry_upd_eq; by eexists|]. simpl.
  rewrite upd_entry_twice.
  wp_step. eapply (wp_update_entry _ t i); [done|simpl; apply entry_upd_eq; by eexists|]. simpl.
  rewrite upd_entry_twice. wp_steps.
  destruct (link_entry_of_spec n e Hna) as (Hv & Htb & Had).
  change (set_address n _) with (link_entry_of n e).
  change (upd_entry m1 t i (link_entry_of n e)) with (linked (tables s) t i n (link_entry_of n e)).
  destruct (linked_grown root q t i n e (link_entry_of n e) a' s) as (G1 & G2 & G3 & G4); try done. by apply HQ.
Qed.

(** What one level of the walk establishes. *)
Definition walked (root : Z) q s (n : Z) s' : Prop :=
  pt_inv root s' ∧ descend (tables s') root q = Some n ∧ same_leaves root s s' ∧
  (room (alloc_state s) ≤ missing root q s + room (alloc_state s'))%nat ∧ grown root q s s'.

Lemma walked_present root q s n : pt_inv root s → descend (tables s) root q = Some n →
  walked root q s n s.
Proof. intros I Hd. split_and!; [done|done|by intros ?|lia|]. split; [auto|apply extends_refl]. Qed.

(** An existing table is found again. *)
Lemma wp_walk_present root q t i n ptr s (Q : Z → Pt A → Prop) :
  pt_inv root s → path_ok (q ++ [i]) → (length q ≤ 1)%nat → descend (tables s) root q = Some t →
  dmap_to_phys ptr = t → descend (tables s) root (q ++ [i]) = Some n →
  Q (phys_to_dmap n) s → wp (walk_create ptr i) Q s.
Proof.
  intros I Hq Hl Ht Ep Hn HQ. pose proof (proj1 (path_ok_app _ _) Hq) as (Hq1 & _ & Hi).
  rewrite descend_snoc, Ht in Hn. simpl in Hn. destruct (entry (tables s) t i) as [e|] eqn:He; simplify_eq/=.
  destruct (points e) eqn:Hp; simplify_eq. pose proof Hp as Hp'. unfold points in Hp.
  apply andb_true_iff in Hp as [Hv Htb].
  pose proof (tr_upper _ _ (pi_tree _ _ I) q _ i e Hq1 Hl Hi Ht He) as Hu. unfold upper_ok in Hu.
  rewrite Hv in Hu. destruct Hu as [_ Ha]. unfold walk_create. wp_step. eapply wp_read_entry; [done..|].
  rewrite (proj2 (Z.eqb_neq _ _) Ha), Htb. simpl. by wp_steps.
Qed.

Lemma missing_new root q t i e s : descend (tables s) root q = Some t → entry (tables s) t i = Some e → is_valid e = false →
  missing root (q ++ [i]) s = 1%nat.
Proof. intros Ht He Hv. unfold missing. rewrite descend_snoc, Ht. simpl. rewrite He. simpl. unfold points. by rewrite Hv. Qed.

Lemma wp_walk_create root q t i ptr s (Q : Z → Pt A → Prop) :
  pt_inv root s → path_ok (q ++ [i]) → (length q ≤ 1)%nat → descend (tables s) root q = Some t →
  dmap_to_phys ptr = t → (missing root (q ++ [i]) s ≤ room (alloc_state s))%nat →
  (∀ n s', walked root (q ++ [i]) s n s' → Q (phys_to_dmap n) s') →
  wp (walk_create ptr i) Q s.
Proof.
  intros I Hq Hl Ht Ep Hroom HQ. pose proof (pi_tree _ _ I) as Tr.
  pose proof (proj1 (path_ok_app _ _) Hq) as (Hq1 & _ & Hi).
  destruct (tree_entry _ _ _ _ _ Tr Hq1 Ht Hi) as [e He].
  pose proof (tr_upper _ _ Tr q t i e Hq1 Hl Hi Ht He) as Hu. unfold upper_ok in Hu.
  unfold walk_create. wp_step. eapply wp_read_entry; [done..|].
  destruct (is_valid e) eqn:Hv.
  - destruct Hu as [Htb Ha]. rewrite (proj2 (Z.eqb_neq _ _) Ha), Htb. simpl. wp_steps.
    apply HQ, walked_present; [done|].
    rewrite descend_snoc, Ht. simpl. rewrite He. simpl. unfold points. by rewrite Hv, Htb.
  - rewrite Hu. simpl. pose proof (missing_new _ _ _ _ _ _ Ht He Hv) as Hm. eapply wp_link_new_table; eauto; [lia|].
    intros n s' I' Hd Hs Hr Hg. apply HQ. split_and!; auto. lia.
Qed.

Lemma wp_walk_create_l2 root q t i ptr s (Q : Z → Pt A → Prop) :
  pt_inv root s → path_ok (q ++ [i]) → length q = 2%nat → descend (tables s) root q = Some t →
  leaf (tables s) root q i = None →
  dmap_to_phys ptr = t → (missing root (q ++ [i]) s ≤ room (alloc_state s))%nat →
  (∀ n s', walked root (q ++ [i]) s n s' → Q (phys_to_dmap n) s') →
  wp (walk_create_l2 ptr i) Q s.
Proof.
  intros I Hq Hl Ht Hleaf Ep Hroom HQ. pose proof (pi_tree _ _ I) as Tr.
  pose proof (proj1 (path_ok_app _ _) Hq) as (Hq1 & _ & Hi).
  destruct (tree_entry _ _ _ _ _ Tr Hq1 Ht Hi) as [e He].
  unfold leaf in Hleaf. rewrite Ht in Hleaf. simpl in Hleaf. rewrite He in Hleaf. simpl in Hleaf.
  rewrite Hl in Hleaf.
  unfold walk_create_l2. wp_step. eapply wp_read_entry; [done..|].
  destruct (is_valid e) eqn:Hv.
  - destruct (is_table e) eqn:Htb; [|done]. wp_steps.
    apply HQ, walked_present; [done|].
    rewrite descend_snoc, Ht. simpl. rewrite He. simpl. unfold points. by rewrite Hv, Htb.
  - pose proof (missing_new _ _ _ _ _ _ Ht He Hv) as Hm. eapply wp_link_new_table; eauto; [lia|].
    intros n s' I' Hd Hs Hr Hg. apply HQ. split_and!; auto. lia.
Qed.

(** ** Leaves *)

Lemma attr_only_compose f g : attr_only f → attr_only g → attr_only (λ e, f (g e)).
Proof.
  intros Hf Hg e. destruct (Hf (g e)) as (F1 & F2 & F3), (Hg e) as (G1 & G2 & G3).
  split_and!; [congruence|congruence|]. intros Hv. rewrite F3 by congruence. by apply G3.
Qed.

Lemma set_attrs_attr at_ : attr_only (set_attrs at_).
Proof.
  unfold set_attrs.
  apply (attr_only_compose (set_privileged_executable _)); [apply set_privileged_executable_attr|].
  apply (attr_only_compose (set_executable _)); [apply set_executable_attr|].
  apply (attr_only_compose (set_attr_index _)); [apply set_attr_index_attr|].
  apply (attr_only_compose (set_shareability _)); [apply set_shareability_attr|].
  apply (attr_only_compose (set_access_permission _)); [apply set_access_permission_attr|].
  apply set_access_attr.
Qed.

Lemma page_leaf_spec pa at_ e : table_addr pa →
  is_valid (page_leaf pa at_ e) = true ∧ is_table (page_leaf pa at_ e) = true ∧
  address (page_leaf pa at_ e) = pa.
Proof.
  intros Hpa. destruct (link_entry_of_spec pa e Hpa) as (Hv & Htb & Ha).
  unfold page_leaf. destruct (set_attrs_attr at_ (link_entry_of pa e)) as (E1 & E2 & E3).
  fold (link_entry_of pa e). rewrite E1, E2, E3 by done. done.
Qed.

(** ** Indices of a virtual address *)

Definition idx (va l : Z) : Z := calculate_index va l.
Definition path2 (va : Z) : list Z := [idx va 0; idx va 1].
Definition path3 (va : Z) : list Z := [idx va 0; idx va 1; idx va 2].

(** The virtual page: the 34 bits above the page offset. *)
Definition vpn (va : Z) : Z := Z.shiftr va PAGE_SHIFT mod 2 ^ 34.

Lemma idx_div va l : 0 ≤ va → 0 ≤ l ≤ 3 →
  idx va l = va / 2 ^ (14 + (3 - l) * 11) mod (if l =? 0 then 2 else 2048).
Proof.
  intros Hva Hl. unfold idx. rewrite calculate_index_spec by done.
  change PAGE_SHIFT with 14. change PAGE_INDEX_BITS with 11. change TABLE_ENTRIES with 2048.
  rewrite Z.shiftr_div_pow2 by lia. done.
Qed.

Lemma idx_ok va l : 0 ≤ va → 0 ≤ l ≤ 3 → index_ok (idx va l).
Proof.
  intros Hva Hl. rewrite idx_div by done. unfold index_ok. change TABLE_ENTRIES with 2048.
  destruct (l =? 0); (pose proof (Z.mod_pos_bound (va / 2 ^ (14 + (3 - l) * 11))) as H); [specialize (H 2)|specialize (H 2048)]; lia.
Qed.

Lemma vpn_digits va : 0 ≤ va →
  vpn va = idx va 0 * 2 ^ 33 + idx va 1 * 2 ^ 22 + idx va 2 * 2 ^ 11 + idx va 3.
Proof.
  intros Hva. rewrite !idx_div by lia. unfold vpn. change PAGE_SHIFT with 14.
  rewrite Z.shiftr_div_pow2 by lia. simpl (_ =? _). cbv iota.
  change (14 + (3 - 3) * 11) with 14. change (14 + (3 - 2) * 11) with (14 + 11).
  change (14 + (3 - 1) * 11) with (14 + 22). change (14 + (3 - 0) * 11) with (14 + 33).
  rewrite !(Z.pow_add_r 2 14) by lia.
  rewrite <- !Z.div_div by lia. set (x := va / 2 ^ 14).
  change (2 ^ 34) with 17179869184. change (2 ^ 33) with 8589934592.
  change (2 ^ 22) with 4194304. change (2 ^ 11) with 2048.
  Z.div_mod_to_equations. lia.
Qed.

Lemma path_of_va va : 0 ≤ va → path_ok (path2 va) ∧ path_ok (path3 va) ∧
  index_ok (idx va 0) ∧ index_ok (idx va 1) ∧ index_ok (idx va 2) ∧ index_ok (idx va 3).
Proof.
  intros Hva. pose proof (idx_ok va 0 Hva ltac:(lia)). pose proof (idx_ok va 1 Hva ltac:(lia)).
  pose proof (idx_ok va 2 Hva ltac:(lia)). pose proof (idx_ok va 3 Hva ltac:(lia)).
  split_and!; try done; (split; [simpl; lia|unfold path2, path3; rewrite !Forall_cons; auto]).
Qed.

(** Different pages have different leaves. *)
Lemma vpn_path va va' : 0 ≤ va → 0 ≤ va' → vpn va ≠ vpn va' →
  (path3 va', idx va' 3) ≠ (path3 va, idx va 3).
Proof.
  intros H H' Hne [= E0 E1 E2 E3]. apply Hne. rewrite !vpn_digits by done. by rewrite E0, E1, E2, E3.
Qed.

(** ** [map_page] *)

(** Only the leaf of the page has changed, to [e]. *)
Definition leaf_changed (root va : Z) s s' (o : option tte) : Prop :=
  leaf (tables s') root (path3 va) (idx va 3) = o ∧
  (∀ p j, path_ok p → index_ok j → (p, j) ≠ (path3 va, idx va 3) →
     leaf (tables s') root p j = leaf (tables s) root p j).

(** The tables that a mapping of [va] has to add. *)
Definition tables_needed (root va : Z) s : nat := missing root [idx va 0] s + missing root (path2 va) s + missing root (path3 va) s.

Lemma tables_needed_le root va s : (tables_needed root va s ≤ 3)%nat.
Proof. unfold tables_needed. pose proof (missing_le root [idx va 0] s). pose proof (missing_le root (path2 va) s). pose proof (missing_le root (path3 va) s). lia. Qed.

Lemma wp_map_page root rptr pa va at_ s : pt_inv root s → dmap_to_phys rptr = root → 0 ≤ va →
  table_addr pa → leaf (tables s) root (path2 va) (idx va 2) = None →
  (tables_needed root va s ≤ room (alloc_state s))%nat →
  wp (map_page rptr pa va at_) (λ _ s', pt_inv root s' ∧
    (∃ e, leaf_changed root va s s' (Some (page_leaf pa at_ e))) ∧
    (room (alloc_state s) ≤ tables_needed root va s + room (alloc_state s'))%nat ∧ extends root s s' ∧
    is_Some (descend (tables s') root (path3 va))) s.
Proof.
  intros I Hr Hva Hpa Hblk Hroom.
  destruct (path_of_va va Hva) as (Hp2 & Hp3 & H0 & H1 & H2 & H3).
  assert (path_ok ([] ++ [idx va 0])) as Hp1 by (eapply (path_ok_prefix _ [idx va 1]); exact Hp2).
  unfold tables_needed in *. unfold map_page. fold (idx va 0) (idx va 1) (idx va 2) (idx va 3). wp_step.
  apply (wp_walk_create root [] root); try done; [simpl; lia|cbn [app]; lia|].
  intros n1 s1 (I1 & D1 & L1 & R1 & G1). cbn [app] in R1.
  pose proof (missing_extends _ _ _ _ Hp2 (gr_ext _ _ _ _ G1)) as M2. pose proof (missing_extends _ _ _ _ Hp3 (gr_ext _ _ _ _ G1)) as M3.
  wp_step. apply (wp_walk_create root [idx va 0] n1); try done;
    [by eapply table_ptr; [apply I1|exact Hp1|]|change ([idx va 0] ++ [idx va 1]) with (path2 va); lia|].
  intros n2 s2 (I2 & D2 & L2 & R2 & G2). change ([idx va 0] ++ [idx va 1]) with (path2 va) in R2.
  pose proof (missing_extends _ _ _ _ Hp3 (gr_ext _ _ _ _ G2)) as M3'.
  assert (leaf (tables s2) root (path2 va) (idx va 2) = None) as Hblk2 by by rewrite L2, L1.
  wp_step. apply (wp_walk_create_l2 root (path2 va) n2); try done;
    [by eapply table_ptr; [apply I2|exact Hp2|]|change (path2 va ++ [idx va 2]) with (path3 va); lia|].
  intros n3 s3 (I3 & D3 & L3 & R3 & G3). change (path2 va ++ [idx va 2]) with (path3 va) in R3.
  destruct (tree_entry _ _ _ _ _ (pi_tree _ _ I3) Hp3 D3 H3) as [e He].
  eapply wp_update_entry; [by eapply table_ptr; [apply I3|exact Hp3|]|exact He|].
  destruct (tree_set_leaf _ _ _ _ _ (page_leaf pa at_ e) (pi_tree _ _ I3) Hp3 eq_refl D3 H3)
    as (Tr' & Hdesc & Hleaf & Hoth).
  destruct (page_leaf_spec pa at_ e Hpa) as (Hv & _).
  split_and!; cbn [tables set_tables alloc_state].
  - split; simpl; [done|]. rewrite dom_upd_entry. apply I3.
  - exists e. split; simpl.
    + rewrite Hleaf, Hv. done.
    + intros p j Hp Hj Hne. rewrite Hoth by done. by rewrite L3, L2, L1.
  - lia.
  - eapply extends_trans; [apply G1|]. eapply extends_trans; [apply G2|]. eapply extends_trans; [apply G3|].
    split; simpl; [intros; by rewrite Hdesc|intros; left; by rewrite <- Hdesc|by rewrite dom_upd_entry].
  - rewrite Hdesc by done. by eexists.
Qed.

(** ** [unmap_page] *)

Definition cleared e : tte := set_address 0 (set_is_valid false e).

Lemma cleared_spec e : is_valid (cleared e) = false ∧ address (cleared e) = 0.
Proof.
  unfold cleared. rewrite set_address_valid, set_valid_valid. split; [done|].
  apply set_address_address. split; [done|]. apply Z.divide_0_r.
Qed.

Lemma wp_clear_entry ptr t i e s (Q : unit → Pt A → Prop) : dmap_to_phys ptr = t →
  entry (tables s) t i = Some e →
  Q tt (set_tables (upd_entry (tables s) t i (cleared e)) s) → wp (clear_entry ptr i) Q s.
Proof.
  intros Ep He HQ. unfold clear_entry. wp_step. eapply wp_update_entry; [exact Ep|exact He|].
  eapply wp_update_entry; [exact Ep|simpl; apply entry_upd_eq; by eexists|]. simpl.
  by rewrite upd_entry_twice.
Qed.

Lemma wp_is_table_empty ptr t s (Q : bool → Pt A → Prop) : dmap_to_phys ptr = t →
  is_Some (tables s !! t) →
  (∀ b, (b = true → all_invalid (tables s) t) → Q b s) → wp (is_table_empty ptr) Q s.
Proof.
  intros Ep [es Hes] HQ. unfold wp, is_table_empty. rewrite Ep, Hes. apply HQ.
  rewrite forallb_forall. intros Hall j e _ He. unfold entry in He. rewrite Hes in He. simpl in He.
  apply negb_true_iff, Hall. apply list_elem_of_In. by eapply list_elem_of_lookup_2.
Qed.

(** Removing a mapping also needs the allocator to take tables back. *)
Context {TFL : TableFreeLaws A}.

(** An empty table is freed and its entry cleared. *)
Lemma wp_free_empty root q t i n e ptr s (Q : unit → Pt A → Prop) :
  pt_inv root s → path_ok (q ++ [i]) → descend (tables s) root q = Some t →
  dmap_to_phys ptr = t → entry (tables s) t i = Some e → points e = true → address e = n →
  all_invalid (tables s) n →
  (∀ s', pt_inv root s' → descend (tables s') root q = Some t → same_leaves root s s' →
     (∀ p, path_ok p → ¬ (q ++ [i]) `prefix_of` p → descend (tables s') root p = descend (tables s) root p) →
     (∀ p t' j, path_ok p → ¬ (q ++ [i]) `prefix_of` p → descend (tables s) root p = Some t' →
        index_ok j → (t', j) ≠ (t, i) → entry (tables s') t' j = entry (tables s) t' j) →
     (room (alloc_state s) ≤ room (alloc_state s'))%nat → Q tt s') →
  wp (release_table (phys_to_dmap n) ;; clear_entry ptr i) Q s.
Proof.
  intros I Hq Ht Ep He Hpt Ha Hemp HQ. destruct I as [Tr Ow].
  pose proof (unlink_n _ _ _ _ _ _ _ Ht He Hpt Ha) as Hn.
  pose proof (unlink_t_ne _ _ _ _ _ _ _ Tr Hq Ht He Hpt Ha) as Htn.
  pose proof (proj1 (path_ok_app _ _) Hq) as (Hq1 & Hl & Hi).
  destruct (tr_table _ _ Tr _ _ Hq Hn) as ([Hph _] & es & Hes & _).
  assert (n ∈ dom (tables s)) as Hdom by (apply elem_of_dom; by eexists).
  destruct (free_table_ok _ _ _ Ow Hdom) as (a' & Ef & Ow' & Hr).
  wp_step. unfold wp at 1, release_table. rewrite Ef, dmap_phys_dmap by done.
  eapply (wp_clear_entry _ t i e); [done|simpl; unfold entry; by rewrite lookup_delete_ne|].
  simpl. destruct (cleared_spec e) as [Hcv Hca].
  change (upd_entry (delete n (tables s)) t i (cleared e)) with (unlinked (tables s) t i n (cleared e)).
  assert (¬ (q ++ [i]) `prefix_of` q) as Hself.
  { intros Hx%prefix_length. rewrite length_app in Hx. simpl in Hx. lia. }
  apply HQ; simpl.
  - split; simpl; [by apply (unlink_tree _ _ q _ _ _ e)|].
    unfold unlinked. by rewrite dom_upd_entry, dom_delete_L.
  - rewrite (unlink_descend (tables s) root q t i n e) by done. by rewrite decide_False.
  - intros p j Hp Hj. by apply (unlink_leaf (tables s) root q t i n e).
  - intros p Hp Hnp. rewrite (unlink_descend (tables s) root q t i n e) by done. by rewrite decide_False.
  - by apply (unlink_agrees _ _ _ _ _ _ e).
  - done.
Qed.

Lemma leaf_unreached m root p j : descend m root p = None → leaf m root p j = None.
Proof. intros E. unfold leaf. by rewrite E. Qed.

Lemma descend_stop m root q t i r e : descend m root q = Some t → entry m t i = Some e →
  points e = false → descend m root (q ++ i :: r) = None.
Proof. intros Ht He Hp. rewrite descend_app, Ht. simpl. rewrite He. simpl. by rewrite Hp. Qed.

Lemma leaf_changed_none root va s : leaf (tables s) root (path3 va) (idx va 3) = None →
  leaf_changed root va s s None.
Proof. intros E. by split. Qed.

Lemma leaf_changed_same root va s s1 s2 o : 0 ≤ va → leaf_changed root va s s1 o →
  same_leaves root s1 s2 → leaf_changed root va s s2 o.
Proof.
  intros Hva [E1 E2] Hs. destruct (path_of_va va Hva) as (_ & Hp3 & _ & _ & _ & H3).
  split; [by rewrite Hs|]. intros p j Hp Hj Hne. by rewrite Hs, E2.
Qed.

(** The tables on the way to a page are all different. *)
Lemma descend_distinct root s q1 q2 t1 t2 : tree (tables s) root → path_ok q1 → path_ok q2 →
  length q1 ≠ length q2 → descend (tables s) root q1 = Some t1 →
  descend (tables s) root q2 = Some t2 → t1 ≠ t2.
Proof. intros Tr H1 H2 Hl D1 D2 ->. apply Hl. by rewrite (tr_inj _ _ Tr q1 q2 t2). Qed.

Lemma path_ok_nil : path_ok [].
Proof. split; [simpl; lia|apply Forall_nil_2]. Qed.

Lemma not_prefix_shorter (q p : list Z) i : (length p ≤ length q)%nat → ¬ (q ++ [i]) `prefix_of` p.
Proof. intros Hl Hx%prefix_length. rewrite length_app in Hx. simpl in Hx. lia. Qed.

Definition unmapped root va s s' : Prop :=
  pt_inv root s' ∧ leaf_changed root va s s' None ∧ (room (alloc_state s) ≤ room (alloc_state s'))%nat.

(** The second half of [unmap_page]: empty tables are freed bottom-up. *)
Section cleanup.
Context (root rptr va : Z) (s0 : Pt A) (t1 t2 t3 : Z) (e0 e1 e2 : tte).
Context (Hva : 0 ≤ va) (Er : dmap_to_phys rptr = root).
Context (P0 : points e0 = true) (P1 : points e1 = true) (P2 : points e2 = true).
Context (A1 : address e0 = t1) (A2 : address e1 = t2) (A3 : address e2 = t3).

(** The chain of tables down to level [l]. *)
Definition chain1 s : Prop := entry (tables s) root (idx va 0) = Some e0.
Definition chain2 s : Prop := chain1 s ∧ entry (tables s) t1 (idx va 1) = Some e1.
Definition chain3 s : Prop := chain2 s ∧ entry (tables s) t2 (idx va 2) = Some e2.

Lemma chain1_descend s : chain1 s → descend (tables s) root [idx va 0] = Some t1.
Proof. intros H. simpl. rewrite H. simpl. by rewrite P0, A1. Qed.
Lemma chain2_descend s : chain2 s → descend (tables s) root (path2 va) = Some t2.
Proof.
  intros [H1 H2]. change (path2 va) with ([idx va 0] ++ [idx va 1]).
  rewrite descend_snoc, chain1_descend by done. simpl. rewrite H2. simpl. by rewrite P1, A2.
Qed.
Lemma chain3_descend s : chain3 s → descend (tables s) root (path3 va) = Some t3.
Proof.
  intros [H1 H2]. change (path3 va) with (path2 va ++ [idx va 2]).
  rewrite descend_snoc, chain2_descend by done. simpl. rewrite H2. simpl. by rewrite P2, A3.
Qed.

Lemma chain_paths : path_ok [idx va 0] ∧ path_ok (path2 va) ∧ path_ok (path3 va) ∧
  index_ok (idx va 0) ∧ index_ok (idx va 1) ∧ index_ok (idx va 2) ∧ index_ok (idx va 3).
Proof.
  destruct (path_of_va va Hva) as (Hp2 & Hp3 & H). split; [|done].
  by apply (path_ok_prefix _ [idx va 1]).
Qed.

Lemma table_present s q t : pt_inv root s → path_ok q → descend (tables s) root q = Some t →
  dmap_to_phys (phys_to_dmap t) = t ∧ is_Some (tables s !! t).
Proof.
  intros I Hq Ht. split; [by eapply table_ptr; [apply I|exact Hq|]|].
  destruct (tr_table _ _ (pi_tree _ _ I) q t Hq Ht) as (_ & es & Hes & _). by eexists.
Qed.

Lemma wp_cleanup1 s : pt_inv root s → chain1 s → unmapped root va s0 s →
  wp (let* empty1 := is_table_empty (phys_to_dmap t1) in
      if negb empty1 then ret tt else
      release_table (phys_to_dmap t1) ;; clear_entry rptr (idx va 0)) (λ _, unmapped root va s0) s.
Proof.
  intros I C U. destruct chain_paths as (Hp1 & Hp2 & Hp3 & H0 & _).
  pose proof (chain1_descend s C) as D1. destruct (table_present s _ t1 I Hp1 D1) as [E1 Ex].
  wp_step. apply (wp_is_table_empty _ t1); [done|done|]. intros b Hb.
  destruct b; simpl; [|by wp_steps]. specialize (Hb eq_refl).
  apply (wp_free_empty root [] root (idx va 0) t1 e0); try done.
  intros s' I' _ Hs _ _ Hr. destruct U as (_ & L & R). split; [done|].
  split; [by eapply leaf_changed_same|lia].
Qed.

Lemma wp_cleanup2 s : pt_inv root s → chain2 s → unmapped root va s0 s →
  wp (let* empty2 := is_table_empty (phys_to_dmap t2) in
      if negb empty2 then ret tt else
      release_table (phys_to_dmap t2) ;;
      clear_entry (phys_to_dmap t1) (idx va 1) ;;
      let* empty1 := is_table_empty (phys_to_dmap t1) in
      if negb empty1 then ret tt else
      release_table (phys_to_dmap t1) ;; clear_entry rptr (idx va 0)) (λ _, unmapped root va s0) s.
Proof.
  intros I C U. destruct chain_paths as (Hp1 & Hp2 & Hp3 & H0 & H1 & _).
  pose proof (chain2_descend s C) as D2. destruct C as [C1 C2]. pose proof (chain1_descend s C1) as D1.
  destruct (table_present s _ t2 I Hp2 D2) as [E2 Ex]. destruct (table_present s _ t1 I Hp1 D1) as [E1 _].
  wp_step. apply (wp_is_table_empty _ t2); [done|done|]. intros b Hb.
  destruct b; simpl; [|by wp_steps]. specialize (Hb eq_refl). apply wp_assoc.
  apply (wp_free_empty root [idx va 0] t1 (idx va 1) t2 e1); try done.
  intros s' I' _ Hs _ Hag Hr. apply wp_cleanup1; [done| |].
  - unfold chain1. rewrite (Hag [] root (idx va 0)); try done;
      [apply path_ok_nil|apply not_prefix_shorter; simpl; lia|].
    intros [= E _]. by apply (descend_distinct root s [] [idx va 0] root t1); [apply I|apply path_ok_nil|..].
  - destruct U as (_ & L & R). split; [done|]. split; [by eapply leaf_changed_same|lia].
Qed.

Lemma wp_cleanup3 s : pt_inv root s → chain3 s → unmapped root va s0 s →
  wp (let* empty3 := is_table_empty (phys_to_dmap t3) in
      if negb empty3 then ret tt else
      release_table (phys_to_dmap t3) ;;
      clear_entry (phys_to_dmap t2) (idx va 2) ;;
      let* empty2 := is_table_empty (phys_to_dmap t2) in
      if negb empty2 then ret tt else
      release_table (phys_to_dmap t2) ;;
      clear_entry (phys_to_dmap t1) (idx va 1) ;;
      let* empty1 := is_table_empty (phys_to_dmap t1) in
      if negb empty1 then ret tt else
      release_table (phys_to_dmap t1) ;; clear_entry rptr (idx va 0)) (λ _, unmapped root va s0) s.
Proof.
  intros I C U. destruct chain_paths as (Hp1 & Hp2 & Hp3 & H0 & H1 & H2 & _).
  pose proof (chain3_descend s C) as D3. destruct C as [C2 C3].
  pose proof (chain2_descend s C2) as D2. destruct C2 as [C1 C2]. pose proof (chain1_descend s C1) as D1.
  destruct (table_present s _ t3 I Hp3 D3) as [E3 Ex]. destruct (table_present s _ t2 I Hp2 D2) as [E2 _].
  wp_step. apply (wp_is_table_empty _ t3); [done|done|]. intros b Hb.
  destruct b; simpl; [|by wp_steps]. specialize (Hb eq_refl). apply wp_assoc.
  apply (wp_free_empty root (path2 va) t2 (idx va 2) t3 e2); try done.
  intros s' I' _ Hs _ Hag Hr. pose proof (pi_tree _ _ I) as Tr. apply wp_cleanup2; [done| |].
  - split.
    + unfold chain1. rewrite (Hag [] root (idx va 0)); try done;
        [apply path_ok_nil|apply not_prefix_shorter; simpl; lia|].
      intros [= E _]. by apply (descend_distinct root s [] (path2 va) root t2 Tr path_ok_nil Hp2).
    + rewrite (Hag [idx va 0] t1 (idx va 1)); try done; [apply not_prefix_shorter; simpl; lia|].
      intros [= E _]. by apply (descend_distinct root s [idx va 0] (path2 va) t1 t2 Tr Hp1 Hp2).
  - destruct U as (_ & L & R). split; [done|]. split; [by eapply leaf_changed_same|lia].
Qed.
End cleanup.

Lemma wp_unmap_page root rptr va s : pt_inv root s → dmap_to_phys rptr = root → 0 ≤ va →
  wp (unmap_page rptr va) (λ _, unmapped root va s) s.
Proof.
  intros I Er Hva. pose proof (pi_tree _ _ I) as Tr.
  destruct (chain_paths va Hva) as (Hp1 & Hp2 & Hp3 & H0 & H1 & H2 & H3).
  assert (∀ q t i r e, path3 va = q ++ i :: r → descend (tables s) root q = Some t →
    entry (tables s) t i = Some e → points e = false → unmapped root va s s) as Hstop.
  { intros q t i r e Eq Ht He Hp. split; [done|]. split; [|lia]. apply leaf_changed_none, leaf_unreached.
    rewrite Eq. by eapply descend_stop. }
  destruct (tree_entry _ _ [] root _ Tr path_ok_nil eq_refl H0) as [e0 C1].
  unfold unmap_page. fold (idx va 0) (idx va 1) (idx va 2) (idx va 3).
  wp_step. apply (wp_read_entry _ root _ e0); [done..|]. rewrite <- negb_andb. fold (points e0).
  destruct (points e0) eqn:P0; simpl; [|wp_steps; by eapply (Hstop [] root)].
  set (t1 := address e0). pose proof (chain1_descend root va t1 e0 P0 eq_refl s C1) as D1.
  destruct (tree_entry _ _ _ _ _ Tr Hp1 D1 H1) as [e1 C2].
  destruct (table_present root s _ t1 I Hp1 D1) as [E1 _].
  wp_step. apply (wp_read_entry _ t1 _ e1); [done..|]. rewrite <- negb_andb. fold (points e1).
  destruct (points e1) eqn:P1; simpl; [|wp_steps; by eapply (Hstop [idx va 0] t1)].
  set (t2 := address e1).
  pose proof (chain2_descend root va t1 t2 e0 e1 P0 P1 eq_refl eq_refl s (conj C1 C2)) as D2.
  destruct (tree_entry _ _ _ _ _ Tr Hp2 D2 H2) as [e2 C3].
  destruct (table_present root s _ t2 I Hp2 D2) as [E2 _].
  wp_step. apply (wp_read_entry _ t2 _ e2); [done..|]. rewrite <- negb_andb. fold (points e2).
  destruct (points e2) eqn:P2; simpl; [|wp_steps; by eapply (Hstop (path2 va) t2)].
  set (t3 := address e2).
  assert (chain3 root va t1 t2 e0 e1 e2 s) as C by (by split; [split|]).
  pose proof (chain3_descend root va t1 t2 t3 e0 e1 e2 P0 P1 P2 eq_refl eq_refl eq_refl s C) as D3.
  destruct (tree_entry _ _ _ _ _ Tr Hp3 D3 H3) as [e3 He3].
  destruct (table_present root s _ t3 I Hp3 D3) as [E3 _].
  wp_step. apply (wp_read_entry _ t3 _ e3); [done..|].
  destruct (is_valid e3) eqn:Hv; simpl.
  2:{ wp_steps. split; [done|]. split; [|lia]. apply leaf_changed_none. unfold leaf.
      rewrite D3. simpl. rewrite He3. simpl. by rewrite Hv. }
  destruct (cleared_spec e3) as [Hcv _].
  destruct (tree_set_leaf _ _ _ _ _ (cleared e3) Tr Hp3 eq_refl D3 H3) as (Tr' & _ & Hleaf & Hoth).
  wp_step. eapply (wp_clear_entry _ t3 _ e3); [done..|].
  set (s1 := set_tables _ s).
  assert (pt_inv root s1) as I1.
  { split; simpl; [done|]. rewrite dom_upd_entry. apply I. }
  assert (∀ q t i, path_ok q → (length q < 3)%nat → descend (tables s) root q = Some t → index_ok i →
            entry (tables s1) t i = entry (tables s) t i) as Hkeep.
  { intros q t i Hq Hl Ht Hi. simpl. unfold index_ok in *. apply entry_upd_ne; [lia|lia|].
    intros [= E _]. apply (descend_distinct root s q (path3 va) t t3 Tr Hq Hp3); (done || simpl; lia). }
  apply (wp_cleanup3 root rptr va s t1 t2 t3 e0 e1 e2); try done.
  - split; [split|].
    + unfold chain1. rewrite (Hkeep [] root); try done; [apply path_ok_nil|simpl; lia].
    + rewrite (Hkeep [idx va 0] t1); try done. simpl. lia.
    + rewrite (Hkeep (path2 va) t2); try done. simpl. lia.
  - split; [done|]. split; [|simpl; lia]. split; simpl; [by rewrite Hleaf, Hcv|done].
Qed.
End ops.
