(* ===== verification/MapperTheorems.v ===== *)
(** * Contracts of the page-table operations

    The MMU's view of a page table as a function on virtual addresses, and
    what each operation of [Mapper] does to that function.  The contracts hold
    for every translator, descriptor format and table allocator that satisfy
    their laws; the last section instantiates all three. *)

From S2P Require Import Prelude Vm Mapper MapperSpec MapperProofs.

Section contracts.
Context {T : AddressTranslator} {TL : AddressTranslatorLaws T}.
Context {D : TTE} {DL : TTELaws D}.
Context {A : Type} {TA : TableAllocator A} {TAL : TableAllocatorLaws A}.
Implicit Types (s : Pt A).

(** The descriptor of a block or page that covers an address. *)
Definition block_of s (root va : Z) : option tte := leaf (tables s) root (path2 va) (idx va 2).
Definition page_of s (root va : Z) : option tte := leaf (tables s) root (path3 va) (idx va 3).

(** The walk of the MMU. *)
Definition translate s (root va : Z) : option Z :=
  match block_of s root va with
  | Some e => Some (address e + va mod L2_BLOCK_SIZE)
  | None => match page_of s root va with
            | Some e => Some (address e + va mod PAGE_SIZE)
            | None => None
            end
  end.

(** The bits of an address that the walk looks at. *)
Definition canon (va : Z) : Z := va mod 2 ^ VA_WIDTH.

Lemma vpn_canon va : vpn va = canon va / PAGE_SIZE.
Proof.
  unfold vpn, canon. change PAGE_SHIFT with 14. change VA_WIDTH with 48. change PAGE_SIZE with 16384.
  rewrite Z.shiftr_div_pow2 by lia. change (2 ^ 34) with 17179869184. change (2 ^ 14) with 16384.
  change (2 ^ 48) with 281474976710656. Z.div_mod_to_equations. lia.
Qed.

Lemma idx_bound va l : 0 ≤ va → 1 ≤ l ≤ 3 → 0 ≤ idx va l < 2048.
Proof.
  intros Hva Hl. rewrite idx_div by lia. destruct (Z.eqb_spec l 0); [lia|]. by apply Z.mod_pos_bound.
Qed.

(** Addresses of one page share all indices; those of one block share the
    first three. *)
Lemma vpn_idx va va' : 0 ≤ va → 0 ≤ va' → vpn va = vpn va' →
  path3 va = path3 va' ∧ idx va 3 = idx va' 3.
Proof.
  intros H H'. rewrite !vpn_digits by done. unfold path3.
  pose proof (idx_bound va 1 H ltac:(lia)). pose proof (idx_bound va 2 H ltac:(lia)).
  pose proof (idx_bound va 3 H ltac:(lia)). pose proof (idx_bound va' 1 H' ltac:(lia)).
  pose proof (idx_bound va' 2 H' ltac:(lia)). pose proof (idx_bound va' 3 H' ltac:(lia)).
  intros E.
  assert (idx va 3 = idx va' 3 ∧ idx va 2 = idx va' 2 ∧ idx va 1 = idx va' 1 ∧ idx va 0 = idx va' 0)
    as (-> & -> & -> & ->) by (split_and!; lia).
  done.
Qed.

Lemma vpn_path2 va va' : 0 ≤ va → 0 ≤ va' → vpn va = vpn va' →
  path2 va = path2 va' ∧ idx va 2 = idx va' 2.
Proof. intros H H' E. by destruct (vpn_idx va va' H H' E) as [[= E0 E1 E2] _]; unfold path2; rewrite E0, E1, E2. Qed.

(** ** From leaves to translations *)

Lemma block_kept root va s s' o va' : 0 ≤ va' → leaf_changed root va s s' o →
  block_of s' root va' = block_of s root va'.
Proof.
  intros H [_ Ho]. destruct (path_of_va va' H) as (Hp2 & _ & _ & _ & H2 & _). by apply Ho.
Qed.

Lemma page_changed root va s s' o va' : 0 ≤ va → 0 ≤ va' → leaf_changed root va s s' o →
  page_of s' root va' = if decide (vpn va' = vpn va) then o else page_of s root va'.
Proof.
  intros Hva H [Hl Ho]. case_decide as E.
  - destruct (vpn_idx va' va H Hva E) as [E1 E2]. unfold page_of. by rewrite E1, E2.
  - destruct (path_of_va va' H) as (_ & Hp3 & _ & _ & _ & H3). apply Ho; [done|done|].
    apply vpn_path; [done|done|congruence].
Qed.

Lemma block_of_same root s va va' : 0 ≤ va → 0 ≤ va' → vpn va' = vpn va →
  block_of s root va' = block_of s root va.
Proof. intros H H' E. unfold block_of. by destruct (vpn_path2 va' va H' H E) as [-> ->]. Qed.

(** How one changed page descriptor changes the translation. *)
Lemma translate_changed root va s s' o va' : 0 ≤ va → 0 ≤ va' → leaf_changed root va s s' o →
  block_of s root va = None →
  translate s' root va' =
    if decide (vpn va' = vpn va) then (λ e, address e + va' mod PAGE_SIZE) <$> o
    else translate s root va'.
Proof.
  intros Hva H Hc Hb. unfold translate. rewrite (block_kept root va s s' o), (page_changed root va s s' o) by done.
  case_decide as E; [|done]. rewrite (block_of_same root s va va') by done. rewrite Hb. by destruct o.
Qed.

(** ** Changed ranges

    [remapped root lo hi g s s']: in [s'] the canonical addresses of
    [lo, hi) translate according to [g], all others as in [s]; no block
    mapping has changed. *)
Record remapped (root lo hi : Z) (g : Z → option Z) s s' : Prop := {
  rm_inv : pt_inv root s';
  rm_block va : 0 ≤ va → block_of s' root va = block_of s root va;
  rm_translate va : 0 ≤ va → translate s' root va =
    if decide (lo ≤ canon va < hi) then g (canon va) else translate s root va
}.

Lemma remapped_empty root lo hi g s : hi ≤ lo → pt_inv root s → remapped root lo hi g s s.
Proof. intros H I. split; [done|done|]. intros va _. case_decide; [lia|done]. Qed.

Lemma remapped_app root lo mid hi g s1 s2 s3 : lo ≤ mid ≤ hi →
  remapped root lo mid g s1 s2 → remapped root mid hi g s2 s3 → remapped root lo hi g s1 s3.
Proof.
  intros H R1 R2. split; [apply R2| |]; intros va Hva.
  - rewrite (rm_block _ _ _ _ _ _ R2), (rm_block _ _ _ _ _ _ R1); done.
  - rewrite (rm_translate _ _ _ _ _ _ R2), (rm_translate _ _ _ _ _ _ R1) by done.
    repeat case_decide; (done || lia).
Qed.

Lemma remapped_ext root lo hi g g' s s' : (∀ c, lo ≤ c < hi → g c = g' c) →
  remapped root lo hi g s s' → remapped root lo hi g' s s'.
Proof.
  intros H [I B Tr]. split; [done|done|]. intros va Hva. rewrite Tr by done.
  case_decide; [by apply H|done].
Qed.

Lemma canon_page va : (PAGE_SIZE | va) → (PAGE_SIZE | canon va).
Proof.
  intros [k ->]. exists (k mod 2 ^ 34). unfold canon. change PAGE_SIZE with (2 ^ 14).
  change (2 ^ VA_WIDTH) with (2 ^ 34 * 2 ^ 14). by rewrite Z.mul_mod_distr_r.
Qed.

Lemma canon_mod va : canon va mod PAGE_SIZE = va mod PAGE_SIZE.
Proof.
  unfold canon. change PAGE_SIZE with 16384. change (2 ^ VA_WIDTH) with 281474976710656.
  Z.div_mod_to_equations. lia.
Qed.

Lemma same_page va va' : (PAGE_SIZE | va) →
  vpn va' = vpn va ↔ canon va ≤ canon va' < canon va + PAGE_SIZE.
Proof.
  intros [k Hk]%canon_page. rewrite !vpn_canon, Hk. change PAGE_SIZE with 16384.
  rewrite Z.div_mul by lia. Z.div_mod_to_equations. lia.
Qed.

(** Addresses of a region do not wrap around. *)
Lemma canon_add va i : 0 ≤ i → canon va + i < 2 ^ VA_WIDTH → canon (va + i) = canon va + i.
Proof.
  unfold canon. intros Hi Hlt. pose proof (Z.mod_pos_bound va (2 ^ VA_WIDTH) eq_refl).
  rewrite <- Z.add_mod_idemp_l by done. rewrite Z.mod_small by lia. done.
Qed.

Lemma remapped_page root va s s' o : 0 ≤ va → (PAGE_SIZE | va) → pt_inv root s' →
  leaf_changed root va s s' o → block_of s root va = None →
  remapped root (canon va) (canon va + PAGE_SIZE) (λ c, (λ e, address e + c mod PAGE_SIZE) <$> o) s s'.
Proof.
  intros Hva Hal I Hc Hb. split; [done|intros; by eapply block_kept|].
  intros va' H. rewrite (translate_changed root va s s' o va') by done. rewrite canon_mod.
  pose proof (same_page va va' Hal). by repeat case_decide; try tauto.
Qed.

(** ** One page *)

(** A page aligned address and the pages it covers. *)
Definition page_addr (va : Z) : Prop := 0 ≤ va < 2 ^ 64 ∧ (PAGE_SIZE | va).

Lemma wp_map_page_va root rptr pa va at_ s : pt_inv root s → dmap_to_phys rptr = root →
  page_addr va → table_addr pa → block_of s root va = None → (3 ≤ room (alloc_state s))%nat →
  wp (map_page rptr pa va at_) (λ _ s',
    remapped root (canon va) (canon va + PAGE_SIZE) (λ c, Some (pa + (c - canon va))) s s' ∧
    (∃ e, page_of s' root va = Some (page_leaf pa at_ e)) ∧
    (room (alloc_state s) ≤ 3 + room (alloc_state s'))%nat ∧ extends root s s') s.
Proof.
  intros I Er [Hva Hal] Hpa Hb Hr. pose proof (tables_needed_le root va s). eapply wp_mono; [apply (wp_map_page root); [done|done|lia|done|done|lia]|].
  intros _ s' (I' & [e Hc] & Hr' & Hx & _). split; [|split; [exists e; apply Hc|split; [lia|done]]].
  eapply remapped_ext; [|apply remapped_page; [lia|done|done|exact Hc|done]].
  intros c Hin. simpl. destruct (page_leaf_spec pa at_ e Hpa) as (_ & _ & ->). f_equal. f_equal.
  destruct (canon_page va Hal) as [k Hk]. rewrite Hk in *. change PAGE_SIZE with 16384 in *.
  Z.div_mod_to_equations. lia.
Qed.

(** Removing a mapping also needs the allocator to take tables back. *)
Context {TFL : TableFreeLaws A}.

Lemma wp_unmap_page_va root rptr va s : pt_inv root s → dmap_to_phys rptr = root →
  page_addr va → block_of s root va = None →
  wp (unmap_page rptr va) (λ _ s',
    remapped root (canon va) (canon va + PAGE_SIZE) (λ _, None) s s' ∧
    (room (alloc_state s) ≤ room (alloc_state s'))%nat) s.
Proof.
  intros I Er [Hva Hal] Hb. eapply wp_mono; [apply (wp_unmap_page root); [done|done|lia]|].
  intros _ s' (I' & Hc & Hr'). split; [|done].
  by apply (remapped_page root va s s' None); [lia|..].
Qed.

(** ** Regions *)

(** A region of [n] pages that stays within the address space. *)
Record region_ok (root va n : Z) s : Prop := {
  ro_va : page_addr va;
  ro_canon : canon va + n * PAGE_SIZE ≤ 2 ^ VA_WIDTH;
  ro_64 : va + n * PAGE_SIZE ≤ 2 ^ 64;
  ro_block k : 0 ≤ k < n → block_of s root (va + k * PAGE_SIZE) = None
}.

Lemma shiftl_page i : Z.shiftl i PAGE_SHIFT = i * PAGE_SIZE.
Proof. change PAGE_SHIFT with 14. by rewrite Z.shiftl_mul_pow2. Qed.

Lemma region_page root va n s i : region_ok root va n s → 0 ≤ i < n →
  page_addr (va + i * PAGE_SIZE) ∧ canon (va + i * PAGE_SIZE) = canon va + i * PAGE_SIZE ∧
  checked_add 64 va (Z.shiftl i PAGE_SHIFT) = Some (va + i * PAGE_SIZE).
Proof.
  intros [[Hva Hal] Hc H64 _] Hi. rewrite shiftl_page. change PAGE_SIZE with 16384 in *.
  split_and!.
  - split; [lia|]. apply Z.divide_add_r; [done|]. apply Z.divide_factor_r.
  - apply canon_add; lia.
  - unfold checked_add, in_range. case_match eqn:E; [done|]. lia.
Qed.

Lemma region_block root va n s lo hi g s' k : region_ok root va n s → remapped root lo hi g s s' →
  0 ≤ k < n → block_of s' root (va + k * PAGE_SIZE) = None.
Proof.
  intros R Hm Hk. destruct (region_page _ _ _ _ k R Hk) as ([H _] & _).
  rewrite (rm_block _ _ _ _ _ _ Hm) by lia. by apply (ro_block _ _ _ _ R).
Qed.

Lemma phys_page pa n i : table_addr pa → pa + n * PAGE_SIZE ≤ 2 ^ VA_WIDTH → 0 ≤ i < n →
  table_addr (pa + i * PAGE_SIZE) ∧
  checked_add 64 pa (Z.shiftl i PAGE_SHIFT) = Some (pa + i * PAGE_SIZE).
Proof.
  intros [Hp Hal] Hle Hi. rewrite shiftl_page. unfold phys_addr in *. change PAGE_SIZE with 16384 in *.
  change (2 ^ VA_WIDTH) with 281474976710656 in *. split.
  - split; [unfold phys_addr; change (2 ^ VA_WIDTH) with 281474976710656; lia|].
    apply Z.divide_add_r; [done|]. apply Z.divide_factor_r.
  - unfold checked_add, in_range. case_match eqn:E; [done|]. lia.
Qed.

(** The loops, from any page of the region on. *)
Lemma wp_map_pages_loop n i root rptr pa va at_ s0 s N : dmap_to_phys rptr = root →
  region_ok root va N s0 → table_addr pa → pa + N * PAGE_SIZE ≤ 2 ^ VA_WIDTH →
  0 ≤ i → i + Z.of_nat n = N → (3 * n ≤ room (alloc_state s))%nat →
  let g := λ c, Some (pa + (c - canon va)) in
  remapped root (canon va) (canon va + i * PAGE_SIZE) g s0 s →
  wp (map_pages_loop n i rptr pa va at_) (λ _ s',
    remapped root (canon va) (canon va + N * PAGE_SIZE) g s0 s' ∧
    (room (alloc_state s) ≤ 3 * n + room (alloc_state s'))%nat) s.
Proof.
  intros Er R Hpa Hple. revert i s. induction n as [|n IH]; intros i s Hi Hn Hroom g Hm; cbn [map_pages_loop].
  { wp_steps. replace N with i by lia. split; [done|lia]. }
  destruct (region_page _ _ _ _ i R ltac:(lia)) as (Hpg & Ec & E1).
  destruct (phys_page pa N i Hpa Hple ltac:(lia)) as [Hpi E2].
  wp_step. eapply wp_expect; [exact E1|]. wp_step. eapply wp_expect; [exact E2|]. wp_step.
  eapply wp_mono; [apply (wp_map_page_va root); [apply Hm|done|done|done| |lia]|].
  { eapply region_block; [done..|lia]. }
  intros _ s' (Hm' & _ & Hr' & _). rewrite Ec in Hm'.
  eapply wp_mono; [apply (IH (i + 1)); [lia|lia|lia|]|].
  - replace (canon va + (i + 1) * PAGE_SIZE) with (canon va + i * PAGE_SIZE + PAGE_SIZE) by lia.
    change PAGE_SIZE with 16384 in *. eapply remapped_app; [|exact Hm|]; [lia|].
    eapply remapped_ext; [|exact Hm']. intros c _. unfold g. f_equal. lia.
  - intros _ s'' [Hd Hr'']. split; [done|lia].
Qed.

Lemma wp_unmap_pages_loop n i root rptr va s0 s N : dmap_to_phys rptr = root →
  region_ok root va N s0 → 0 ≤ i → i + Z.of_nat n = N →
  remapped root (canon va) (canon va + i * PAGE_SIZE) (λ _, None) s0 s →
  wp (unmap_pages_loop n i rptr va) (λ _ s',
    remapped root (canon va) (canon va + N * PAGE_SIZE) (λ _, None) s0 s' ∧
    (room (alloc_state s) ≤ room (alloc_state s'))%nat) s.
Proof.
  intros Er R. revert i s. induction n as [|n IH]; intros i s Hi Hn Hm; cbn [unmap_pages_loop].
  { wp_steps. replace N with i by lia. split; [done|lia]. }
  destruct (region_page _ _ _ _ i R ltac:(lia)) as (Hpg & Ec & E1).
  wp_step. eapply wp_expect; [exact E1|]. wp_step.
  eapply wp_mono; [apply (wp_unmap_page_va root); [apply Hm|done|done|]|].
  { eapply region_block; [done..|lia]. }
  intros _ s' (Hm' & Hr'). rewrite Ec in Hm'.
  eapply wp_mono; [apply (IH (i + 1)); [lia|lia|]|].
  - replace (canon va + (i + 1) * PAGE_SIZE) with (canon va + i * PAGE_SIZE + PAGE_SIZE) by lia.
    change PAGE_SIZE with 16384 in *. eapply remapped_app; [|exact Hm|exact Hm']. lia.
  - intros _ s'' [Hd Hr'']. split; [done|lia].
Qed.

Lemma page_mask_0 x : (PAGE_SIZE | x) → (Z.land x PAGE_MASK =? 0) = true.
Proof.
  intros [k ->]. unfold PAGE_MASK. change PAGE_SIZE with (2 ^ 14). rewrite land_mask_eq by lia.
  by rewrite Z.mod_mul.
Qed.

Lemma page_count n : 0 ≤ n → Z.shiftr (n * PAGE_SIZE) PAGE_SHIFT = n.
Proof. intros Hn. change PAGE_SHIFT with 14. rewrite Z.shiftr_div_pow2 by lia. by apply Z.div_mul. Qed.

Lemma wp_map_region root rptr pa va n at_ s : pt_inv root s → dmap_to_phys rptr = root →
  region_ok root va n s → table_addr pa → pa + n * PAGE_SIZE ≤ 2 ^ VA_WIDTH → 0 < n →
  3 * n ≤ Z.of_nat (room (alloc_state s)) →
  wp (map_region rptr pa va (n * PAGE_SIZE) at_) (λ _ s',
    remapped root (canon va) (canon va + n * PAGE_SIZE) (λ c, Some (pa + (c - canon va))) s s' ∧
    Z.of_nat (room (alloc_state s)) ≤ 3 * n + Z.of_nat (room (alloc_state s'))) s.
Proof.
  intros I Er R Hpa Hle Hn Hr. unfold map_region.
  rewrite !page_mask_0 by (apply Hpa || apply (ro_va _ _ _ _ R) || apply Z.divide_factor_r).
  wp_step. apply wp_assert; [done|]. wp_step. apply wp_assert; [done|]. wp_step. apply wp_assert; [done|].
  wp_step. apply wp_assert; [change PAGE_SIZE with 16384; lia|]. rewrite page_count by lia.
  eapply wp_mono; [apply (wp_map_pages_loop _ 0 root rptr pa va at_ s s n); try done; [lia|lia|]|].
  - apply remapped_empty; [lia|done].
  - intros _ s' [Hm Hr']. split; [done|lia].
Qed.

Lemma wp_unmap_region root rptr va n s : pt_inv root s → dmap_to_phys rptr = root →
  region_ok root va n s → 0 ≤ n →
  wp (unmap_region rptr va (n * PAGE_SIZE)) (λ _ s',
    remapped root (canon va) (canon va + n * PAGE_SIZE) (λ _, None) s s' ∧
    (room (alloc_state s) ≤ room (alloc_state s'))%nat) s.
Proof.
  intros I Er R Hn. unfold unmap_region.
  rewrite !page_mask_0 by (apply (ro_va _ _ _ _ R) || apply Z.divide_factor_r).
  wp_step. apply wp_assert; [done|]. wp_step. apply wp_assert; [done|]. rewrite page_count by lia.
  apply (wp_unmap_pages_loop _ 0 root rptr va s s n); try done; [lia|].
  apply remapped_empty; [lia|done].
Qed.

(** ** Blocks *)

Lemma block_leaf_spec pa at_ e : table_addr pa →
  is_valid (block_leaf pa at_ e) = true ∧ is_table (block_leaf pa at_ e) = false ∧
  address (block_leaf pa at_ e) = pa.
Proof.
  intros Hpa. set (e1 := set_address pa (set_is_block (set_is_valid true e))).
  assert (is_valid (set_is_valid true e) = true) as Hv0 by apply set_valid_valid.
  assert (is_valid (set_is_block (set_is_valid true e)) = true) as Hv1 by by rewrite set_block_valid.
  assert (is_valid e1 = true) as Hv by (unfold e1; by rewrite set_address_valid).
  destruct (set_attrs_attr at_ e1) as (E1 & E2 & E3). unfold block_leaf. fold e1.
  rewrite E1, E2, E3 by done. split_and!; [done| |by apply set_address_address].
  unfold e1. rewrite set_address_table by done. by apply set_block_table.
Qed.

(** The 32 MiB block of an address. *)
Definition vbn (va : Z) : Z := canon va / L2_BLOCK_SIZE.

Lemma vbn_digits va : 0 ≤ va → vbn va = idx va 0 * 2 ^ 22 + idx va 1 * 2 ^ 11 + idx va 2.
Proof.
  intros H. pose proof (vpn_digits va H) as E. pose proof (idx_bound va 3 H ltac:(lia)) as B.
  rewrite vpn_canon in E. unfold vbn. change L2_BLOCK_SIZE with (PAGE_SIZE * 2048).
  rewrite <- Z.div_div, E by done. change (2 ^ 33) with 8589934592. change (2 ^ 22) with 4194304.
  change (2 ^ 11) with 2048. Z.div_mod_to_equations. lia.
Qed.

Lemma vbn_idx va va' : 0 ≤ va → 0 ≤ va' →
  vbn va = vbn va' ↔ (path2 va, idx va 2) = (path2 va', idx va' 2).
Proof.
  intros H H'. rewrite !vbn_digits by done. unfold path2.
  pose proof (idx_bound va 1 H ltac:(lia)). pose proof (idx_bound va 2 H ltac:(lia)).
  pose proof (idx_bound va' 1 H' ltac:(lia)). pose proof (idx_bound va' 2 H' ltac:(lia)).
  split; [|by intros [= -> -> ->]]. intros E.
  assert (idx va 2 = idx va' 2 ∧ idx va 1 = idx va' 1 ∧ idx va 0 = idx va' 0)
    as (-> & -> & ->) by (split_and!; lia). done.
Qed.

(** What a block mapping does, apart from the tables it creates. *)
Record block_mapped (root pa va : Z) (at_ : Attrs) s s' : Prop := {
  bm_inv : pt_inv root s';
  bm_path : is_Some (descend (tables s') root (path2 va));
  bm_tables p t : path_ok p → length p = 3%nat → descend (tables s') root p = Some t →
    descend (tables s) root p = Some t;
  bm_block : ∃ e, block_of s' root va = Some (block_leaf pa at_ e);
  bm_leaf p j : path_ok p → index_ok j → (p, j) ≠ (path2 va, idx va 2) →
    leaf (tables s') root p j = leaf (tables s) root p j
}.

Lemma block_mapped_translate root pa va at_ s s' va' : 0 ≤ va → 0 ≤ va' → table_addr pa →
  block_mapped root pa va at_ s s' →
  translate s' root va' =
    if decide (vbn va' = vbn va) then Some (pa + va' mod L2_BLOCK_SIZE) else translate s root va'.
Proof.
  intros H H' Hpa Hm. pose proof (vbn_idx va' va H' H) as Hv.
  destruct (path_of_va va' H') as (Hp2 & Hp3 & _ & _ & H2 & H3). unfold translate. case_decide as E.
  - apply Hv in E as [= E1 E2 E3]. destruct (bm_block _ _ _ _ _ _ Hm) as [e He].
    unfold block_of, path2 in *. rewrite E1, E2, E3, He.
    by destruct (block_leaf_spec pa at_ e Hpa) as (_ & _ & ->).
  - unfold block_of, page_of. rewrite !(bm_leaf _ _ _ _ _ _ Hm); try done. tauto.
Qed.

(** The last step of [map_l2_block], at an entry that is not a table. *)
Lemma wp_set_block root ptr t pa va at_ s0 s : pt_inv root s → 0 ≤ va → table_addr pa →
  descend (tables s) root (path2 va) = Some t → dmap_to_phys ptr = t →
  descend (tables s) root (path3 va) = None → same_leaves root s0 s →
  (∀ p t', path_ok p → length p = 3%nat → descend (tables s) root p = Some t' →
     descend (tables s0) root p = Some t') →
  wp (update_entry ptr (idx va 2) (block_leaf pa at_)) (λ _ s',
    block_mapped root pa va at_ s0 s' ∧ alloc_state s' = alloc_state s ∧
    descend (tables s') root (path2 va) = Some t) s.
Proof.
  intros I Hva Hpa Ht Ep Hno HL Htb. destruct (path_of_va va Hva) as (Hp2 & _ & _ & _ & H2 & _).
  destruct (tree_entry _ _ _ _ _ (pi_tree _ _ I) Hp2 Ht H2) as [e He].
  assert (points e = false) as Hpt.
  { unfold path3 in Hno. change [idx va 0; idx va 1; idx va 2] with (path2 va ++ [idx va 2]) in Hno.
    rewrite descend_snoc, Ht in Hno. simpl in Hno. rewrite He in Hno. simpl in Hno. by destruct (points e). }
  destruct (block_leaf_spec pa at_ e Hpa) as (Hv & Hb & _).
  destruct (tree_set_block _ _ _ _ _ _ (block_leaf pa at_ e) (pi_tree _ _ I) Hp2 eq_refl Ht H2 He Hpt Hv Hb)
    as (Tr' & Hd & Hleaf & Hoth).
  eapply wp_update_entry; [exact Ep|exact He|]. split; [|split; [done|by rewrite <- Ht; apply Hd]].
  split; cbn [tables set_tables].
  - split; simpl; [done|]. rewrite dom_upd_entry. apply I.
  - rewrite Hd by done. by eexists.
  - intros p t' Hp Hl. rewrite Hd by done. by apply Htb.
  - by exists e.
  - intros p j Hp Hj Hne. rewrite Hoth by done. by apply HL.
Qed.

Lemma wp_map_l2_block root rptr pa va at_ s : pt_inv root s → dmap_to_phys rptr = root → 0 ≤ va →
  table_addr pa → descend (tables s) root (path3 va) = None → (2 ≤ room (alloc_state s))%nat →
  wp (map_l2_block rptr pa va at_) (λ _ s', block_mapped root pa va at_ s s' ∧
    (room (alloc_state s) ≤ 2 + room (alloc_state s'))%nat) s.
Proof.
  intros I Hr Hva Hpa Hno Hroom. destruct (path_of_va va Hva) as (Hp2 & Hp3 & _ & _ & H2 & _).
  assert (path_ok ([] ++ [idx va 0])) as Hp1 by (eapply (path_ok_prefix _ [idx va 1]); exact Hp2).
  pose proof (missing_le root [idx va 0] s). unfold map_l2_block. fold (idx va 0) (idx va 1) (idx va 2). wp_step.
  apply (wp_walk_create root [] root); try done; [simpl; lia|cbn [app]; lia|].
  intros n1 s1 (I1 & D1 & L1 & R1 & G1). cbn [app] in R1. pose proof (missing_le root (path2 va) s1).
  wp_step. apply (wp_walk_create root [idx va 0] n1); try done;
    [by eapply table_ptr; [apply I1|exact Hp1|]|change ([idx va 0] ++ [idx va 1]) with (path2 va); lia|].
  intros n2 s2 (I2 & D2 & L2 & R2 & G2). change ([idx va 0] ++ [idx va 1]) with (path2 va) in R2.
  assert (∀ p t, path_ok p → length p = 3%nat → descend (tables s2) root p = Some t →
    descend (tables s) root p = Some t) as Hgr.
  { intros p t Hp Hl Hd. destruct (gr_only _ _ _ _ G2 p t Hp Hd) as [->|Hd1]; [done|].
    by destruct (gr_only _ _ _ _ G1 p t Hp Hd1) as [->|?]. }
  eapply wp_mono; [apply (wp_set_block root _ n2 pa va at_ s); try done|].
  - by eapply table_ptr; [apply I2|exact Hp2|].
  - destruct (descend (tables s2) root (path3 va)) as [t|] eqn:E; [|done].
    by rewrite (Hgr _ t Hp3 eq_refl E) in Hno.
  - by eapply same_leaves_trans.
  - intros _ s' (Hm & Ea & _). split; [done|]. rewrite Ea. lia.
Qed.

(** No table is needed when the level 2 table exists. *)
Lemma wp_map_l2_block_present root rptr pa va t2 at_ s : pt_inv root s → dmap_to_phys rptr = root →
  0 ≤ va → table_addr pa → descend (tables s) root (path3 va) = None →
  descend (tables s) root (path2 va) = Some t2 →
  wp (map_l2_block rptr pa va at_) (λ _ s', block_mapped root pa va at_ s s' ∧
    alloc_state s' = alloc_state s) s.
Proof.
  intros I Hr Hva Hpa Hno Ht2. destruct (path_of_va va Hva) as (Hp2 & Hp3 & _ & _ & H2 & _).
  assert (path_ok ([] ++ [idx va 0])) as Hp1 by (eapply (path_ok_prefix _ [idx va 1]); exact Hp2).
  destruct (descend (tables s) root [idx va 0]) as [t1|] eqn:Ht1.
  2:{ unfold path2 in Ht2. change [idx va 0; idx va 1] with ([idx va 0] ++ [idx va 1]) in Ht2.
      rewrite descend_app, Ht1 in Ht2. done. }
  unfold map_l2_block. wp_step. apply (wp_walk_present root [] root _ t1); try done; [simpl; lia|].
  wp_step. apply (wp_walk_present root [idx va 0] t1 _ t2); try done;
    [by eapply table_ptr; [apply I|exact Hp1|]|].
  eapply wp_mono; [apply (wp_set_block root _ t2 pa va at_ s); try done|].
  - by eapply table_ptr; [apply I|exact Hp2|].
  - intros _ s' (Hm & Ea & _). by split.
Qed.

Definition after {B} (c : M (Pt A) B) s : Pt A :=
  match c s with Done (_, s') => s' | Fault _ => s end.

Lemma wp_after {B} (c : M (Pt A) B) (Q : B → Pt A → Prop) s : wp c Q s → ∃ b, Q b (after c s).
Proof. unfold wp, after. destruct (c s) as [[b s']|]; [eauto|done]. Qed.

Lemma after_map_l2_block root rptr pa va at_ s : pt_inv root s → dmap_to_phys rptr = root → 0 ≤ va →
  table_addr pa → descend (tables s) root (path3 va) = None → (2 ≤ room (alloc_state s))%nat →
  block_mapped root pa va at_ s (after (map_l2_block rptr pa va at_) s).
Proof.
  intros I Er Hva Hpa Hno Hr. by destruct (wp_after _ _ _ (wp_map_l2_block _ _ _ _ at_ _ I Er Hva Hpa Hno Hr)) as (? & ? & _).
Qed.

(** ** The identity map *)

Lemma idx_block k : 0 ≤ k < BLOCKS_NEEDED →
  path2 (k * L2_BLOCK_SIZE) = [0; 0] ∧ idx (k * L2_BLOCK_SIZE) 2 = k.
Proof.
  change BLOCKS_NEEDED with 2048. change L2_BLOCK_SIZE with 33554432. intros Hk. unfold path2.
  rewrite !idx_div by lia. simpl (_ =? _). cbv iota.
  change (2 ^ (14 + (3 - 0) * 11)) with 140737488355328. change (2 ^ (14 + (3 - 1) * 11)) with 68719476736.
  change (2 ^ (14 + (3 - 2) * 11)) with 33554432. rewrite Z.div_mul, (Z.mod_small k) by lia.
  rewrite !(Z.div_small (k * 33554432)) by lia. done.
Qed.

Lemma vbn_block k : 0 ≤ k < BLOCKS_NEEDED → vbn (k * L2_BLOCK_SIZE) = k.
Proof.
  change BLOCKS_NEEDED with 2048. unfold vbn, canon. change L2_BLOCK_SIZE with 33554432.
  change (2 ^ VA_WIDTH) with 281474976710656. intros Hk. rewrite Z.mod_small by lia. by apply Z.div_mul.
Qed.

Lemma canon_block va : 0 ≤ va → vbn va * L2_BLOCK_SIZE + va mod L2_BLOCK_SIZE = canon va.
Proof.
  unfold vbn, canon. change L2_BLOCK_SIZE with 33554432. change (2 ^ VA_WIDTH) with 281474976710656.
  intros. Z.div_mod_to_equations. lia.
Qed.

(** After [i] iterations. *)
Record id_mapped (root i : Z) s0 s : Prop := {
  im_inv : pt_inv root s;
  im_tables k : 0 ≤ k < BLOCKS_NEEDED → descend (tables s) root [0; 0; k] = None;
  im_translate va : 0 ≤ va → translate s root va =
    if decide (vbn va < i) then Some (canon va) else translate s0 root va
}.

Lemma block_table_addr k : 0 ≤ k < BLOCKS_NEEDED → table_addr (k * L2_BLOCK_SIZE).
Proof.
  change BLOCKS_NEEDED with 2048. intros Hk. split.
  - unfold phys_addr. change L2_BLOCK_SIZE with 33554432. change (2 ^ VA_WIDTH) with 281474976710656. lia.
  - change L2_BLOCK_SIZE with (2048 * PAGE_SIZE). rewrite Z.mul_assoc. apply Z.divide_factor_r.
Qed.

Lemma block_path_ok k : 0 ≤ k < BLOCKS_NEEDED → path_ok [0; 0; k].
Proof.
  change BLOCKS_NEEDED with TABLE_ENTRIES. intros Hk. split; [simpl; lia|].
  by repeat apply Forall_cons_2.
Qed.

Lemma id_mapped_step root i at_ s0 s s' : 0 ≤ i < BLOCKS_NEEDED → id_mapped root i s0 s →
  block_mapped root (i * L2_BLOCK_SIZE) (i * L2_BLOCK_SIZE) at_ s s' → id_mapped root (i + 1) s0 s'.
Proof.
  intros Hi Hm Hb. split; [apply Hb| |].
  - intros k Hk. destruct (descend (tables s') root [0; 0; k]) as [t|] eqn:E; [|done].
    apply (bm_tables _ _ _ _ _ _ Hb) in E; [|by apply block_path_ok|done].
    by rewrite (im_tables _ _ _ _ Hm) in E.
  - intros va Hva. assert (0 ≤ i * L2_BLOCK_SIZE) as H0 by (change L2_BLOCK_SIZE with 33554432; lia).
    rewrite (block_mapped_translate root _ _ at_ s s' va H0 Hva (block_table_addr i Hi) Hb).
    rewrite (im_translate _ _ _ _ Hm) by done. rewrite vbn_block by done.
    pose proof (canon_block va Hva). repeat case_decide; try lia; [..|done]; f_equal; subst i; lia.
Qed.

Lemma wp_id_map_loop n i root rptr at_ s0 s : dmap_to_phys rptr = root → 0 ≤ i →
  i + Z.of_nat n = BLOCKS_NEEDED → id_mapped root i s0 s →
  is_Some (descend (tables s) root [0; 0]) ∨ (2 ≤ room (alloc_state s))%nat →
  wp (id_map_loop n i rptr at_) (λ _ s', id_mapped root BLOCKS_NEEDED s0 s') s.
Proof.
  intros Er. revert i s. induction n as [|n IH]; intros i s Hi Hn Hm Hr; cbn [id_map_loop].
  { wp_steps. by replace BLOCKS_NEEDED with i by lia. }
  assert (0 ≤ i < BLOCKS_NEEDED) as Hib by lia. destruct (idx_block i Hib) as [E1 E2].
  assert (0 ≤ i * L2_BLOCK_SIZE) as Hva by (change L2_BLOCK_SIZE with 33554432; lia).
  assert (path3 (i * L2_BLOCK_SIZE) = [0; 0; i]) as E3.
  { unfold path3, path2 in *. injection E1 as -> ->. by rewrite E2. }
  pose proof (im_tables _ _ _ _ Hm i Hib) as Hno. rewrite <- E3 in Hno.
  wp_step. apply (wp_mono _ (λ _ s', block_mapped root (i * L2_BLOCK_SIZE) (i * L2_BLOCK_SIZE) at_ s s')).
  - destruct Hr as [[t2 Ht2]|Hr].
    + eapply wp_mono; [apply (wp_map_l2_block_present root _ _ _ t2 at_ s)|intros _ s' [Hb _]; exact Hb];
        [apply Hm|done|done|by apply block_table_addr|done|by rewrite E1].
    + eapply wp_mono; [apply (wp_map_l2_block root)|intros _ s' [Hb _]; exact Hb];
        [apply Hm|done|done|by apply block_table_addr|done|done].
  - intros _ s' Hb. apply IH; [lia|lia|by eapply id_mapped_step|]. left.
    pose proof (bm_path _ _ _ _ _ _ Hb) as Hp. by rewrite E1 in Hp.
Qed.

(** ** The contracts *)

(** C3: mapping a page of a well-formed page table, where no block covers
    the address and three tables can be allocated, returns; afterwards the
    page translates to the given physical page with a descriptor built from
    the given attributes, every other address translates as before, and the
    page table is well-formed. *)
Theorem map_page_spec root rptr pa va at_ s : pt_inv root s → dmap_to_phys rptr = root →
  page_addr va → table_addr pa → block_of s root va = None → (3 ≤ room (alloc_state s))%nat →
  ∃ s', map_page rptr pa va at_ s = Done (tt, s') ∧ pt_inv root s' ∧
    (∃ e, page_of s' root va = Some (page_leaf pa at_ e)) ∧
    (∀ va', 0 ≤ va' → translate s' root va' =
       if decide (canon va ≤ canon va' < canon va + PAGE_SIZE)
       then Some (pa + (canon va' - canon va)) else translate s root va').
Proof.
  intros I Er Hva Hpa Hb Hr.
  destruct (proj1 (wp_run _ _ _) (wp_map_page_va root rptr pa va at_ s I Er Hva Hpa Hb Hr))
    as ([] & s' & Hs & Hm & He & _).
  exists s'. split_and!; [done|apply Hm|done|apply Hm].
Qed.


(** mapping a region and unmapping it again: both return, in between the
    region translates linearly to the physical range and every other address
    as before, and afterwards a table in which the region was not mapped
    translates every address as it did at the start. *)
Theorem map_unmap_region root rptr pa va n at_ s : pt_inv root s → dmap_to_phys rptr = root →
  region_ok root va n s → table_addr pa → pa + n * PAGE_SIZE ≤ 2 ^ VA_WIDTH → 0 < n →
  3 * n ≤ Z.of_nat (room (alloc_state s)) →
  (∀ va', 0 ≤ va' → canon va ≤ canon va' < canon va + n * PAGE_SIZE → translate s root va' = None) →
  ∃ s1 s2, map_region rptr pa va (n * PAGE_SIZE) at_ s = Done (tt, s1) ∧
    unmap_region rptr va (n * PAGE_SIZE) s1 = Done (tt, s2) ∧ pt_inv root s2 ∧
    (∀ va', 0 ≤ va' → translate s1 root va' =
       if decide (canon va ≤ canon va' < canon va + n * PAGE_SIZE)
       then Some (pa + (canon va' - canon va)) else translate s root va') ∧
    (∀ va', 0 ≤ va' → translate s2 root va' = translate s root va').
Proof.
  intros I Er R Hpa Hle Hn Hr Hnone.
  destruct (proj1 (wp_run _ _ _) (wp_map_region root rptr pa va n at_ s I Er R Hpa Hle Hn Hr))
    as ([] & s1 & Hs1 & Hm1 & _).
  assert (region_ok root va n s1) as R1.
  { split; [apply R..|]. intros k Hk. by eapply region_block. }
  destruct (proj1 (wp_run _ _ _) (wp_unmap_region root rptr va n s1 (rm_inv _ _ _ _ _ _ Hm1) Er R1 ltac:(lia)))
    as ([] & s2 & Hs2 & Hm2 & _).
  exists s1, s2. split_and!; [done|done|apply Hm2|apply Hm1|]. intros va' H'.
  rewrite (rm_translate _ _ _ _ _ _ Hm2), (rm_translate _ _ _ _ _ _ Hm1) by done.
  case_decide; [by rewrite Hnone|done].
Qed.

Lemma id_map_run root rptr at_ s : pt_inv root s → dmap_to_phys rptr = root →
  (∀ k, 0 ≤ k < BLOCKS_NEEDED → descend (tables s) root [0; 0; k] = None) →
  (2 ≤ room (alloc_state s))%nat →
  ∃ s', id_map rptr at_ s = Done (tt, s') ∧ pt_inv root s' ∧
    (∀ va, 0 ≤ va → translate s' root va =
       if decide (canon va < L1_BLOCK_SIZE) then Some (canon va) else translate s root va).
Proof.
  intros I Er Hno Hr.
  assert (id_mapped root 0 s s) as H0.
  { split; [done|done|]. intros va Hva. case_decide as Hlt; [|done]. unfold vbn, canon in Hlt.
    pose proof (Z.div_pos (va mod 2 ^ VA_WIDTH) L2_BLOCK_SIZE). 
    pose proof (Z.mod_pos_bound va (2 ^ VA_WIDTH) eq_refl). 
    change L2_BLOCK_SIZE with 33554432 in *. lia. }
  destruct (proj1 (wp_run _ _ _) (wp_id_map_loop (Z.to_nat BLOCKS_NEEDED) 0 root rptr at_ s s Er ltac:(lia)
    eq_refl H0 (or_intror Hr))) as ([] & s' & Hs & Hm).
  exists s'. split_and!; [done|apply Hm|]. intros va Hva. rewrite (im_translate _ _ _ _ Hm) by done.
  assert (vbn va < BLOCKS_NEEDED ↔ canon va < L1_BLOCK_SIZE) as Hiff.
  { unfold vbn. change L1_BLOCK_SIZE with (BLOCKS_NEEDED * L2_BLOCK_SIZE).
    change BLOCKS_NEEDED with 2048. change L2_BLOCK_SIZE with 33554432. Z.div_mod_to_equations. lia. }
  repeat case_decide; tauto || done.
Qed.

(** the identity map of the boot loader returns with two tables to
    spare, maps the first 64 GiB to themselves and changes nothing else. *)
Theorem id_map_spec root rptr at_ s : pt_inv root s → dmap_to_phys rptr = root →
  (∀ k, 0 ≤ k < BLOCKS_NEEDED → descend (tables s) root [0; 0; k] = None) →
  (2 ≤ room (alloc_state s))%nat →
  ∃ s', id_map rptr at_ s = Done (tt, s') ∧ pt_inv root s' ∧
    (∀ va, 0 ≤ va → translate s' root va =
       if decide (canon va < L1_BLOCK_SIZE) then Some (canon va) else translate s root va).
Proof. apply id_map_run. Qed.

(** at level 2 the code tests only the valid bit, so mapping a page under
    a block takes the block's memory for a table: the access is to memory
    that is no page table. *)
Theorem map_page_under_block root rptr pa va at_ s e : pt_inv root s → dmap_to_phys rptr = root →
  0 ≤ va → block_of s root va = Some e → table_addr (address e) →
  tables s !! address e = None →
  faults (map_page rptr pa va at_) BadDeref s.
Proof.
  intros I Er Hva Hb Ha Hno. destruct (path_of_va va Hva) as (Hp2 & _ & _ & _ & H2 & _).
  assert (path_ok ([] ++ [idx va 0])) as Hp1 by (eapply (path_ok_prefix _ [idx va 1]); exact Hp2).
  unfold block_of, leaf in Hb. destruct (descend (tables s) root (path2 va)) as [t2|] eqn:Ht2; [|done].
  simpl in Hb. destruct (entry (tables s) t2 (idx va 2)) as [e'|] eqn:He; [|done]. simpl in Hb.
  destruct (is_valid e') eqn:Hv; [|done]. destruct (is_table e'); [done|]. injection Hb as ->.
  destruct (descend (tables s) root [idx va 0]) as [t1|] eqn:Ht1.
  2:{ unfold path2 in Ht2. change [idx va 0; idx va 1] with ([idx va 0] ++ [idx va 1]) in Ht2.
      by rewrite descend_app, Ht1 in Ht2. }
  unfold map_page. apply faults_bind. apply (wp_walk_present root [] root _ t1); try done; [simpl; lia|].
  apply faults_bind. apply (wp_walk_present root [idx va 0] t1 _ t2); try done;
    [by eapply table_ptr; [apply I|exact Hp1|]|].
  apply faults_bind. unfold walk_create_l2. wp_step.
  apply (wp_read_entry _ t2 _ e); [by eapply table_ptr; [apply I|exact Hp2|]|done|].
  rewrite Hv. wp_steps. apply faults_here. unfold faults, read_entry.
  rewrite dmap_phys_dmap by apply Ha. by rewrite Hno.
Qed.
End contracts.

(** ** Instances

    Descriptors with the stage 1 layout of the 16 KiB granule, and a table
    allocator that hands out consecutive pages. *)

#[global] Instance arm_tte : TTE := {|
  tte := Z;
  AccessPermission := Z;
  Shareability := Z;
  tte_zero := 0;
  is_valid e := Z.testbit e 0;
  is_table e := Z.testbit e 1;
  address e := Z.shiftl (get_bits 14 34 e) 14;
  set_is_valid b := set_bits 0 1 (Z.b2z b);
  set_is_table := set_bits 1 1 1;
  set_is_block := set_bits 1 1 0;
  set_address a := set_bits 14 34 (Z.shiftr a 14);
  set_access := set_bits 10 1 1;
  set_access_permission := set_bits 6 2;
  set_shareability := set_bits 8 2;
  set_attr_index := set_bits 2 3;
  set_executable b := set_bits 54 1 (Z.b2z (negb b));
  set_privileged_executable b := set_bits 53 1 (Z.b2z (negb b));
  tte_new_table a := set_bits 14 34 (Z.shiftr a 14) 3;
  calculate_index va l :=
    Z.shiftr va (PAGE_SHIFT + (3 - l) * PAGE_INDEX_BITS) mod (if l =? 0 then 2 else TABLE_ENTRIES)
|}.

Ltac arm_simpl := cbn [is_valid is_table address set_is_valid set_is_table set_is_block set_address
  set_access set_access_permission set_shareability set_attr_index set_executable
  set_privileged_executable tte_new_table calculate_index tte_zero arm_tte].

Lemma set_bits_attr lo w v : 2 ≤ lo → 0 ≤ w → lo + w ≤ 14 ∨ 48 ≤ lo →
  attr_only (set_bits lo w v : tte → tte).
Proof.
  intros Hlo Hw Hd e. arm_simpl. rewrite !testbit_set_bits, get_set_bits_other by lia.
  by rewrite !(proj2 (Z.leb_gt lo _)) by lia.
Qed.

Lemma table_addr_bits a e : table_addr a → Z.shiftl (get_bits 14 34 (set_bits 14 34 (Z.shiftr a 14) e)) 14 = a.
Proof.
  intros [Hp [k ->]]. rewrite get_set_bits by lia. unfold phys_addr in Hp.
  change PAGE_SIZE with (2 ^ 14) in *. change (2 ^ VA_WIDTH) with (2 ^ 34 * 2 ^ 14) in Hp.
  rewrite Z.shiftr_div_pow2, Z.div_mul, Z.shiftl_mul_pow2 by lia. rewrite Z.mod_small; [done|]. lia.
Qed.

#[global] Instance arm_tte_laws : TTELaws arm_tte.
Proof.
  split; arm_simpl; intros; try done;
    try (by rewrite testbit_set_bits by lia; try destruct b);
    try (by rewrite get_set_bits_other by lia);
    try (apply set_bits_attr; lia); by apply table_addr_bits.
Qed.

(** Tables are the pages from [next] up to [limit]. *)
Record Bump := { next : nat; limit : nat }.

Section bump.
Context {T : AddressTranslator}.
Definition bump_page (n : nat) : Z := Z.of_nat n * PAGE_SIZE.

#[global] Instance bump_tables : TableAllocator Bump := {|
  alloc_table a :=
    if decide (next a < limit a)%nat
    then Done (phys_to_dmap (bump_page (next a)), {| next := S (next a); limit := limit a |})
    else Fault Panic;
  free_table _ a := Done a
|}.

Definition bump_owns (a : Bump) (u : gset Z) : Prop :=
  (0 < next a)%nat ∧ (next a ≤ limit a)%nat ∧ bump_page (limit a) ≤ 2 ^ VA_WIDTH ∧
  ∀ p, p ∈ u → p < bump_page (next a).

#[global] Program Instance bump_laws : TableAllocatorLaws Bump := {|
  owns := bump_owns;
  room a := (limit a - next a)%nat
|}.
Next Obligation.
  intros a u ptr a' (H0 & Hn & Hl & Hu) E. simpl in E. case_decide; simplify_eq. exists (bump_page (next a)).
  unfold bump_page in *. change PAGE_SIZE with 16384 in *. split_and!; [done| | | | |].
  - split; [unfold phys_addr; lia|apply Z.divide_factor_r].
  - lia.
  - intros Hp%Hu. lia.
  - split_and!; simpl; [lia|lia|done|]. intros p [->%elem_of_singleton|Hp%Hu]%elem_of_union;
      unfold bump_page; change PAGE_SIZE with 16384; lia.
  - simpl. lia.
Qed.
Next Obligation. intros a u _ Hr. simpl in *. rewrite decide_True by lia. by eexists. Qed.

#[global] Instance bump_free_laws : TableFreeLaws Bump.
Proof.
  split. intros a u p (H0 & Hn & Hl & Hu) _. exists a. split_and!; [done| |done].
  split_and!; try done. intros q [Hq _]%elem_of_difference. by apply Hu.
Qed.
End bump.

(** A zeroed root is a well-formed page table that maps nothing. *)
Section zero_root.
Context {T : AddressTranslator} {TL : AddressTranslatorLaws T} {D : TTE} {DL : TTELaws D}.
Context {A : Type} {TA : TableAllocator A} {TAL : TableAllocatorLaws A}.

Definition zero_root (root : Z) (a : A) : Pt A :=
  {| tables := {[root := zero_table]}; alloc_state := a |}.

Lemma zero_root_entry root i e : entry {[root := zero_table]} root i = Some e → e = tte_zero.
Proof. apply zero_table_entry, lookup_singleton_eq. Qed.

Lemma zero_root_descend root a p : p ≠ [] → descend (tables (zero_root root a)) root p = None.
Proof.
  destruct p as [|i p]; [done|]. intros _. simpl.
  destruct (entry _ root i) as [e|] eqn:E; simpl; [|done]. rewrite (zero_root_entry _ _ _ E). unfold points. by rewrite tte_zero_valid.
Qed.

Lemma zero_root_inv root a : table_addr root → owns a {[root]} → pt_inv root (zero_root root a).
Proof.
  intros Hr Ho. assert (∀ p t, descend (tables (zero_root root a)) root p = Some t → p = [] ∧ t = root) as Hd.
  { intros p t Hp. destruct (decide (p = [])) as [->|Hne]; [by simplify_eq/=|].
    by rewrite zero_root_descend in Hp. }
  split; [split|simpl; by rewrite dom_singleton_L].
  - intros p t _ [-> ->]%Hd. split; [done|]. exists zero_table.
    split; [apply lookup_singleton_eq|apply length_replicate].
  - intros p1 p2 t _ _ [-> _]%Hd [-> _]%Hd. done.
  - intros p t i e _ _ _ [-> ->]%Hd He. rewrite (zero_root_entry _ _ _ He). unfold upper_ok. rewrite tte_zero_valid. apply tte_zero_address.
Qed.

Lemma zero_root_leaf root a p i : p ≠ [] → leaf (tables (zero_root root a)) root p i = None.
Proof. intros Hp. unfold leaf. by rewrite zero_root_descend. Qed.

Lemma zero_root_translate root a va : translate (zero_root root a) root va = None.
Proof. unfold translate, block_of, page_of. by rewrite !zero_root_leaf. Qed.
End zero_root.

(** ** Witnesses *)

Section witnesses.
Local Existing Instance KernelAddressTranslator.

Definition demo_root : Z := PAGE_SIZE.
Definition demo_ptr : Z := phys_to_dmap demo_root.
Definition demo_pt : Pt Bump := zero_root demo_root {| next := 2; limit := 100 |}.
Definition demo_attrs : Attrs := {| access := 0; share := 3; uxn := true; pxn := false; attr_index := 1 |}.

Lemma demo_inv : pt_inv demo_root demo_pt.
Proof.
  apply zero_root_inv; [split; [done|by exists 1]|]. split_and!; [simpl; lia|simpl; lia|done|].
  by intros p ->%elem_of_singleton.
Qed.

Lemma demo_block va : block_of demo_pt demo_root va = None.
Proof. by apply zero_root_leaf. Qed.

Lemma map_page_spec_witness : ∃ s',
  map_page demo_ptr (8 * PAGE_SIZE) (DMAP_START + 5 * PAGE_SIZE) demo_attrs demo_pt = Done (tt, s') ∧
  translate s' demo_root (DMAP_START + 5 * PAGE_SIZE + 7) = Some (8 * PAGE_SIZE + 7) ∧
  translate s' demo_root (DMAP_START + 6 * PAGE_SIZE) = None.
Proof.
  destruct (map_page_spec demo_root demo_ptr (8 * PAGE_SIZE) (DMAP_START + 5 * PAGE_SIZE) demo_attrs demo_pt)
    as (s' & Hs & _ & _ & Ht).
  - apply demo_inv.
  - done.
  - split; [done|]. by exists (DMAP_START / PAGE_SIZE + 5).
  - split; [done|]. by exists 8.
  - apply demo_block.
  - simpl. lia.
  - exists s'. split_and!; [exact Hs|rewrite Ht by done; reflexivity|]. rewrite Ht by done. apply zero_root_translate.
Defined.


Lemma map_unmap_region_witness : ∃ s1 s2,
  map_region demo_ptr (8 * PAGE_SIZE) (DMAP_START + 2047 * PAGE_SIZE) (3 * PAGE_SIZE) demo_attrs demo_pt
    = Done (tt, s1) ∧
  unmap_region demo_ptr (DMAP_START + 2047 * PAGE_SIZE) (3 * PAGE_SIZE) s1 = Done (tt, s2) ∧
  translate s1 demo_root (DMAP_START + 2048 * PAGE_SIZE) = Some (9 * PAGE_SIZE).
Proof.
  destruct (map_unmap_region demo_root demo_ptr (8 * PAGE_SIZE) (DMAP_START + 2047 * PAGE_SIZE) 3 demo_attrs demo_pt)
    as (s1 & s2 & H1 & H2 & _ & Ht & _).
  - apply demo_inv.
  - done.
  - split; [|done..|intros; apply demo_block]. split; [done|]. by exists (DMAP_START / PAGE_SIZE + 2047).
  - split; [done|]. by exists 8.
  - done.
  - done.
  - done.
  - intros va' _ _. apply zero_root_translate.
  - exists s1, s2. split_and!; [exact H1|exact H2|]. rewrite Ht by done. reflexivity.
Defined.

Lemma id_map_spec_witness : ∃ s', id_map demo_ptr demo_attrs demo_pt = Done (tt, s') ∧
  translate s' demo_root 12345678 = Some 12345678.
Proof.
  destruct (id_map_spec demo_root demo_ptr demo_attrs demo_pt) as (s' & Hs & _ & Ht).
  - apply demo_inv.
  - done.
  - intros k _. by apply zero_root_descend.
  - simpl. lia.
  - exists s'. split; [exact Hs|]. rewrite Ht by done. reflexivity.
Defined.

(** A page table with one block, mapped by the code itself. *)
Definition demo_with_block : Pt Bump :=
  after (map_l2_block demo_ptr L2_BLOCK_SIZE L2_BLOCK_SIZE demo_attrs) demo_pt.

Lemma map_page_under_block_witness :
  faults (map_page demo_ptr (8 * PAGE_SIZE) (L2_BLOCK_SIZE + PAGE_SIZE) demo_attrs) BadDeref demo_with_block.
Proof.
  assert (table_addr L2_BLOCK_SIZE) as Hpa by (split; [done|by exists 2048]).
  assert (tables demo_with_block !! L2_BLOCK_SIZE = None) as Hno by (by vm_compute).
  assert (block_mapped demo_root L2_BLOCK_SIZE L2_BLOCK_SIZE demo_attrs demo_pt demo_with_block) as Hm.
  { apply after_map_l2_block; [apply demo_inv|reflexivity|discriminate|exact Hpa| |simpl; lia].
    apply zero_root_descend. discriminate. }
  destruct (bm_block _ _ _ _ _ _ Hm) as [e He].
  destruct (block_leaf_spec L2_BLOCK_SIZE demo_attrs e Hpa) as (_ & _ & Ha).
  apply (map_page_under_block demo_root _ _ _ _ _ (block_leaf L2_BLOCK_SIZE demo_attrs e)).
  - apply Hm.
  - done.
  - done.
  - rewrite <- He. by unfold block_of.
  - by rewrite Ha.
  - by rewrite Ha.
Defined.
End witnesses.
