(* ===== verification/MapperFrame.v ===== *)
(** * Several page tables in one store

    The mapping operations touch the tables of the tree they are given and
    the tables they allocate, nothing else: a run on a store extends to a run
    with further tables beside it.  With the contracts of [MapperTheorems],
    which speak of one tree, this covers an allocator that serves several. *)

From S2P Require Import Prelude Vm Mapper MapperSpec MapperProofs MapperTheorems.

Section frame.
Context {T : AddressTranslator} {TL : AddressTranslatorLaws T}.
Context {D : TTE} {DL : TTELaws D}.
Context {A : Type} {TA : TableAllocator A}.
Implicit Types (s : Pt A) (m : gmap Z (list tte)).

Definition beside m s : Pt A := set_tables (tables s ∪ m) s.

Record framed {B} (c : M (Pt A) B) : Prop := {
  fr_grows s b s' : c s = Done (b, s') → dom (tables s) ⊆ dom (tables s');
  fr_run s b s' m : c s = Done (b, s') → tables s' ##ₘ m → c (beside m s) = Done (b, beside m s')
}.

Lemma framed_ret {B} (b : B) : framed (ret b : M (Pt A) B).
Proof. split; [by intros s b' s' [= <- <-]|by intros s b' s' m [= <- <-]]. Qed.

Lemma framed_assert b : framed (assert b : M (Pt A) unit).
Proof. unfold assert. split; intros s x s'; destruct b; try done; [by intros [= <- <-]|by intros m [= <- <-]]. Qed.

Lemma framed_expect {B} (o : option B) : framed (expect o : M (Pt A) B).
Proof. unfold expect. split; intros s x s'; destruct o; try done; [by intros [= <- <-]|by intros m [= <- <-]]. Qed.

Lemma framed_bind {B C} (c : M (Pt A) B) (k : B → M (Pt A) C) : framed c → (∀ b, framed (k b)) → framed (bind c k).
Proof.
  intros Hc Hk. split; intros s b s'; unfold bind; [|intros m]; destruct (c s) as [[a s1]|] eqn:E; try done; intros E'.
  - etrans; [exact (fr_grows _ Hc _ _ _ E)|exact (fr_grows _ (Hk a) _ _ _ E')].
  - intros Hm. assert (tables s1 ##ₘ m) as Hm1.
    { apply map_disjoint_dom. apply map_disjoint_dom in Hm. pose proof (fr_grows _ (Hk a) _ _ _ E'). set_solver. }
    rewrite (fr_run _ Hc _ _ _ m E Hm1). by apply (fr_run _ (Hk a)).
Qed.

Lemma framed_read_entry ptr i : framed (read_entry ptr i : M (Pt A) _).
Proof.
  unfold read_entry. split; intros s b s'; [|intros m]; destruct (tables s !! dmap_to_phys ptr) as [es|] eqn:E; try done;
    destruct (es !! Z.to_nat i) as [e|] eqn:Ee; try done; intros [= <- <-]; [done|]. intros _. cbn [beside set_tables tables].
  by rewrite (lookup_union_Some_l _ _ _ _ E), Ee.
Qed.

Lemma framed_update_entry ptr i f : framed (update_entry ptr i f : M (Pt A) unit).
Proof.
  unfold update_entry, bind, read_entry, modify.
  split; intros s b s'; [|intros m]; destruct (tables s !! dmap_to_phys ptr) as [es|] eqn:E; try done;
    destruct (es !! Z.to_nat i) as [e|] eqn:Ee; try done; intros [= <- <-].
  - cbn [set_tables tables]. by rewrite dom_alter.
  - intros _. cbn [beside set_tables tables]. rewrite (lookup_union_Some_l _ _ _ _ E), Ee. do 2 f_equal. unfold beside, set_tables. cbn [tables alloc_state]. f_equal.
    apply map_eq. intros k. destruct (decide (k = dmap_to_phys ptr)) as [->|Hk].
    + rewrite lookup_alter_eq, (lookup_union_Some_l _ _ _ _ E). symmetry. apply lookup_union_Some_l. by rewrite lookup_alter_eq, E.
    + by rewrite lookup_alter_ne, !lookup_union, lookup_alter_ne.
Qed.

Lemma framed_new_table : framed (new_table : M (Pt A) Z).
Proof.
  unfold new_table. split; intros s b s'; [|intros m]; destruct (alloc_table (alloc_state s)) as [[ptr a]|] eqn:E; try done; intros [= <- <-].
  - cbn [tables]. rewrite dom_insert. set_solver.
  - intros _. cbn [beside set_tables tables alloc_state]. rewrite E. unfold beside, set_tables. cbn [tables alloc_state]. by rewrite insert_union_l.
Qed.

Create HintDb frame.
Hint Resolve framed_ret framed_assert framed_expect framed_bind framed_read_entry framed_update_entry framed_new_table : frame.

Lemma framed_link_new_table ptr i : framed (link_new_table ptr i : M (Pt A) Z).
Proof. unfold link_new_table. auto 10 with frame. Qed.
Hint Resolve framed_link_new_table : frame.

Lemma framed_walk_create ptr i : framed (walk_create ptr i : M (Pt A) Z).
Proof. apply framed_bind; [auto with frame|]. intros e. destruct (negb _ && _); auto with frame. Qed.

Lemma framed_walk_create_l2 ptr i : framed (walk_create_l2 ptr i : M (Pt A) Z).
Proof. apply framed_bind; [auto with frame|]. intros e. destruct (is_valid e); auto with frame. Qed.
Hint Resolve framed_walk_create framed_walk_create_l2 : frame.

Lemma framed_map_page root pa va at_ : framed (map_page root pa va at_ : M (Pt A) unit).
Proof. unfold map_page. auto 10 with frame. Qed.

Lemma framed_map_l2_block root pa va at_ : framed (map_l2_block root pa va at_ : M (Pt A) unit).
Proof. unfold map_l2_block. auto 10 with frame. Qed.
Hint Resolve framed_map_page framed_map_l2_block : frame.

Lemma framed_id_map root at_ : framed (id_map root at_ : M (Pt A) unit).
Proof. unfold id_map. generalize 0. induction (Z.to_nat BLOCKS_NEEDED) as [|n IH]; intros i; cbn [id_map_loop]; auto with frame. Qed.

Lemma framed_map_region root pa va size at_ : framed (map_region root pa va size at_ : M (Pt A) unit).
Proof.
  unfold map_region. do 4 (apply framed_bind; [auto with frame|intros _]). generalize 0.
  induction (Z.to_nat (Z.shiftr size PAGE_SHIFT)) as [|n IH]; intros i; cbn [map_pages_loop]; auto 10 with frame.
Qed.

(** ** Trees side by side *)

Lemma descend_beside m m' root p : tree m root → path_ok p → descend (m ∪ m') root p = descend m root p.
Proof.
  intros Tr. induction p as [|i p IH] using rev_ind; [done|]. intros Hp. pose proof (path_ok_prefix _ _ Hp) as Hp'. rewrite !descend_snoc, IH by done.
  destruct (descend m root p) as [t|] eqn:Ht; [|done]. cbn [mbind option_bind]. destruct (tr_table _ _ Tr p t Hp' Ht) as (_ & es & Hes & _).
  unfold entry. by rewrite (lookup_union_Some_l _ _ _ _ Hes), Hes.
Qed.

Lemma leaf_beside m m' root p j : tree m root → path_ok p → leaf (m ∪ m') root p j = leaf m root p j.
Proof.
  intros Tr Hp. unfold leaf. rewrite descend_beside by done. destruct (descend m root p) as [t|] eqn:Ht; [|done]. cbn [mbind option_bind].
  destruct (tr_table _ _ Tr p t Hp Ht) as (_ & es & Hes & _). unfold entry. by rewrite (lookup_union_Some_l _ _ _ _ Hes), Hes.
Qed.

Lemma translate_beside m s root va : tree (tables s) root → 0 ≤ va → translate (beside m s) root va = translate s root va.
Proof.
  intros Tr Hva. destruct (path_of_va va Hva) as (Hp2 & Hp3 & _). unfold translate, block_of, page_of, beside. cbn [tables set_tables].
  by rewrite !leaf_beside.
Qed.

(** ** An allocator that has other tables out *)

Context {TAL : TableAllocatorLaws A}.

#[refine] Definition apart_laws (X : gset Z) : TableAllocatorLaws A := {|
  owns a u := owns a (u ∪ X) ∧ u ## X;
  room := room
|}.
Proof.
  - intros a u ptr a' [Ho Hd] E. destruct (alloc_table_fresh a _ ptr a' Ho E) as (p & Hp & Ht & H0 & Hn & Ho' & Hr). exists p.
    split; [done|]. split; [done|]. split; [done|]. split; [set_solver|]. split; [|done]. split; [|set_solver]. by rewrite <- union_assoc_L.
  - intros a u [Ho _] Hr. by eapply alloc_table_room.
Defined.

(** A contract for one tree holds with other tables beside it. *)
Lemma wp_framed {B} (c : M (Pt A) B) (Q : B → Pt A → Prop) m s : framed c → wp c Q s → (∀ b s', Q b s' → dom (tables s') ## dom m) →
  wp c (λ b s', ∃ s1, Q b s1 ∧ s' = beside m s1) (beside m s).
Proof.
  intros Hf (b & s' & E & HQ)%wp_run Hd. apply wp_run. exists b, (beside m s'). split; [|by exists s'].
  apply (fr_run _ Hf _ _ _ _ E). apply map_disjoint_dom. by apply (Hd b).
Qed.

(** A new root beside the tables there are. *)
Lemma wp_new_root X s : owns (alloc_state s) (dom (tables s) ∪ X) → (0 < room (alloc_state s))%nat →
  wp new_table (λ ptr s', ∃ root a, ptr = phys_to_dmap root ∧ table_addr root ∧ owns a ({[root]} ∪ (dom (tables s) ∪ X)) ∧ root ∉ dom (tables s) ∪ X ∧
    (room (alloc_state s) ≤ S (room a))%nat ∧ s' = beside (tables s) (zero_root root a)) s.
Proof.
  intros Ho Hr. destruct (alloc_table_ok _ _ Ho Hr) as (p & a & E & Ht & H0 & Hn & Ho' & Hr'). unfold wp, new_table. rewrite E.
  exists p, a. split; [done|]. split; [done|]. split; [done|]. split; [done|]. split; [done|]. unfold beside, zero_root, set_tables. cbn [tables alloc_state].
  rewrite dmap_phys_dmap by apply Ht. by rewrite insert_union_singleton_l.
Qed.
End frame.
