(* ===== verification/TableAlloc.v ===== *)
(** * The allocators of page tables

    Models [BootTempAllocator] of [kernel/src/earlyinit/mem.rs] and
    [KernelPTAllocator] of [kernel/src/allocator/mod.rs], which take tables
    from the page interface of the kernel's global allocator, and shows that
    both keep the contract that the page-table mapper asks of a table
    allocator ([TableAllocatorLaws], [TableFreeLaws]): with the page allocator
    behind them the theorems of [MapperTheorems] have no assumption left on
    allocation but the number of free pages. *)

From S2P Require Import Prelude Vm Sync PageAlloc PageInv PageProofs PageSpec PageDmap PageTheorems PageCount Slab Mapper MapperSpec MapperProofs MapperTheorems.

(** ** The allocators *)

Record BootTempAllocator := { boot_kalloc : SlabAllocator PageAllocator }.
Record KernelPTAllocator := { kernel_kalloc : SlabAllocator PageAllocator }.

Section allocators.
#[local] Existing Instance KernelAddressTranslator.

(** [NonNull::new(..).expect(..)] on the page of an allocation. *)
Definition non_null {S} (c : M S Z) : M S Z := let* p := c in assert (negb (p =? 0)) ;; ret p.

Definition boot_alloc_table (a : BootTempAllocator) : outcome (Z * BootTempAllocator) :=
  match non_null slab_alloc_phys_page (boot_kalloc a) with Done (p, s) => Done (p, {| boot_kalloc := s |}) | Fault f => Fault f end.
Definition boot_free_table (table : Z) (a : BootTempAllocator) : outcome BootTempAllocator :=
  match slab_free_phys_page table (boot_kalloc a) with Done (_, s) => Done {| boot_kalloc := s |} | Fault f => Fault f end.

Definition kernel_alloc_table (a : KernelPTAllocator) : outcome (Z * KernelPTAllocator) :=
  match non_null slab_alloc_dmap_page (kernel_kalloc a) with Done (p, s) => Done (p, {| kernel_kalloc := s |}) | Fault f => Fault f end.
Definition kernel_free_table (table : Z) (a : KernelPTAllocator) : outcome KernelPTAllocator :=
  match free_page table (kernel_kalloc a) with Done (_, s) => Done {| kernel_kalloc := s |} | Fault f => Fault f end.

#[global] Instance boot_tables : TableAllocator BootTempAllocator := {| alloc_table := boot_alloc_table; free_table := boot_free_table |}.
#[global] Instance kernel_tables : TableAllocator KernelPTAllocator := {| alloc_table := kernel_alloc_table; free_table := kernel_free_table |}.

(** ** The contract *)

(** The page allocator is in the mode [d] and the tables [u] are pages it
    has handed out. *)
Definition pages_own (d : bool) (s : SlabAllocator PageAllocator) (u : gset Z) : Prop :=
  page_alloc_ptr s ≠ 0 ∧ is_dmap (pages s) = d ∧
  ∃ zs bl, Inv zs bl (pages s) ∧ ∀ p, p ∈ u → owned bl !! p = Some 0.

Definition pages_room (s : SlabAllocator PageAllocator) : nat := free_pages_count (pages s).

Lemma run_page_alloc (s : SlabAllocator PageAllocator) : page_alloc_ptr s ≠ 0 → page_alloc s = Done (tt, s).
Proof. intros Hp. unfold page_alloc, bind, get, assert. by rewrite (proj2 (Z.eqb_neq _ _)). Qed.

Lemma non_null_run (c : M PageAllocator Z) s r p' : page_alloc_ptr s ≠ 0 → c (pages s) = Done (r, p') →
  non_null (page_alloc ;; on_pages c) s = if r =? 0 then Fault Panic else Done (r, Slab.set_pages p' s).
Proof.
  intros Hp E. unfold non_null, bind at 1 2. rewrite run_page_alloc by done. unfold on_pages. rewrite E. unfold bind, assert. by destruct (r =? 0).
Qed.

Lemma emb_dmap d a : a ≠ 0 → emb d a = if d then phys_to_dmap a else a.
Proof. intros Ha. unfold emb, to_dmap. by rewrite (proj2 (Z.eqb_neq _ _)). Qed.

(** An allocation of one page, and what the tables become. *)
Lemma alloc_run d s u : pages_own d s u → ∃ r p', alloc_page (pages s) = Done (r, p') ∧ is_dmap p' = d ∧
  ((r = 0 ∧ pages_room s = 0%nat) ∨
   ∃ a, r = emb d a ∧ table_addr a ∧ a ≠ 0 ∧ (a ∉ u) ∧ pages_own d (Slab.set_pages p' s) ({[a]} ∪ u) ∧ pages_room s = S (free_pages_count p')).
Proof.
  intros (Hp & <- & zs & bl & I & Hu). destruct (proj1 (wp_run _ _ _) (alloc_page_result zs bl (pages s) I)) as (r & p' & E & Ed & Hr).
  exists r, p'. split; [done|]. split; [done|]. destruct Hr as [(-> & _ & Hz)|(a & bl' & -> & Hpa & Hal & Ha & I' & Hn & Eo & Ec)]; [by left|right].
  exists a. split; [done|]. split; [done|]. split; [done|]. split; [intros Hin; rewrite (Hu a Hin) in Hn; discriminate Hn|]. split; [|done].
  split; [done|]. split; [done|]. exists zs, bl'. split; [done|]. intros q Hq.
  rewrite Eo. apply elem_of_union in Hq as [->%elem_of_singleton|Hq]; [apply lookup_insert_eq|]. rewrite lookup_insert_ne; [by apply Hu|].
  intros ->. by rewrite (Hu _ Hq) in Hn.
Qed.

Lemma free_run d s u p : pages_own d s u → p ∈ u → ∃ p', PageAlloc.free_pages (emb d p) (pages s) = Done (tt, p') ∧
  pages_own d (Slab.set_pages p' s) (u ∖ {[p]}) ∧ (pages_room s ≤ free_pages_count p')%nat.
Proof.
  intros (Hp & <- & zs & bl & I & Hu) Hin. destruct (proj1 (wp_run _ _ _) (free_page_available zs bl (pages s) p I (Hu p Hin))) as ([] & p' & E & bl' & I' & Ed & Eo & Ec).
  exists p'. split; [done|]. split; [|unfold pages_room; lia]. split; [done|]. split; [done|]. exists zs, bl'. split; [done|].
  intros q [Hq Hne%not_elem_of_singleton]%elem_of_difference. rewrite Eo, lookup_delete_ne by done. by apply Hu.
Qed.

(** A page handed out is physical memory. *)
Lemma own_phys d s u p : pages_own d s u → p ∈ u → phys_addr p ∧ p ≠ 0.
Proof.
  intros (_ & _ & zs & bl & [I _] & Hu) Hp. destruct (proj1 (owned_lookup _ _ _) (Hu p Hp)) as (b & Hb & _).
  destruct (inv_list_facts _ _ _ _ I) as [Hph _]. by apply (Hph p b).
Qed.

Lemma own_table d s u p : pages_own d s u → p ∈ u → table_addr p.
Proof.
  intros Ho Hp. split; [by apply (own_phys d s u)|]. destruct Ho as (_ & _ & zs & bl & [I _] & Hu).
  destruct (proj1 (owned_lookup _ _ _) (Hu p Hp)) as (b & Hb & _). destruct (t_bwf _ _ _ (i_tiling _ _ _ _ I) p b Hb) as [Hz -> _ _ _ _]. unfold zaddr.
  apply Z.divide_add_r; [apply (zs_wf _ (i_zones _ _ _ _ I) _ Hz)|apply Z.divide_factor_r].
Qed.

Lemma boot_alloc_run a u : pages_own false (boot_kalloc a) u →
  (boot_alloc_table a = Fault Panic ∧ pages_room (boot_kalloc a) = 0%nat) ∨
  ∃ p s', boot_alloc_table a = Done (p, {| boot_kalloc := s' |}) ∧ table_addr p ∧ p ≠ 0 ∧ (p ∉ u) ∧ pages_own false s' ({[p]} ∪ u) ∧
    pages_room (boot_kalloc a) = S (pages_room s').
Proof.
  intros Ho. destruct (alloc_run _ _ _ Ho) as (r & p' & E & Ed & Hr). pose proof Ho as (Hptr & _).
  assert (alloc_phys_page (pages (boot_kalloc a)) = Done (r, p')) as E' by (unfold alloc_phys_page, bind, get, ret; by rewrite E, Ed).
  unfold boot_alloc_table. pose proof (non_null_run alloc_phys_page _ _ _ Hptr E' : non_null slab_alloc_phys_page _ = _) as En. rewrite En.
  destruct Hr as [[-> Hz]|(q & -> & Hq & H0 & Hn & Ho' & Ec)]; [by left|right]. rewrite emb_dmap by done. rewrite (proj2 (Z.eqb_neq _ _)) by done.
  eexists q, _. split; [reflexivity|]. done.
Qed.

Lemma kernel_alloc_run a u : pages_own true (kernel_kalloc a) u →
  (kernel_alloc_table a = Fault Panic ∧ pages_room (kernel_kalloc a) = 0%nat) ∨
  ∃ p s', kernel_alloc_table a = Done (phys_to_dmap p, {| kernel_kalloc := s' |}) ∧ table_addr p ∧ p ≠ 0 ∧ (p ∉ u) ∧ pages_own true s' ({[p]} ∪ u) ∧
    pages_room (kernel_kalloc a) = S (pages_room s').
Proof.
  intros Ho. destruct (alloc_run _ _ _ Ho) as (r & p' & E & Ed & Hr). pose proof Ho as (Hptr & _).
  assert (alloc_dmap_page (pages (kernel_kalloc a)) = Done (r, p')) as E' by (unfold alloc_dmap_page, bind, get, ret; by rewrite E, Ed).
  unfold kernel_alloc_table. pose proof (non_null_run alloc_dmap_page _ _ _ Hptr E' : non_null slab_alloc_dmap_page _ = _) as En. rewrite En.
  destruct Hr as [[-> Hz]|(q & -> & Hq & H0 & Hn & Ho' & Ec)]; [by left|right].
  assert (emb true q ≠ 0) as He by (intros Hz%emb_zero; [done|apply Hq]). rewrite (proj2 (Z.eqb_neq _ _) He). rewrite emb_dmap by done.
  eexists q, _. split; [reflexivity|]. done.
Qed.
End allocators.

(** Before the direct map is entered, tables are used at their physical
    addresses. *)
#[global, refine] Instance boot_tables_laws : @TableAllocatorLaws IdentityTranslator BootTempAllocator boot_tables := {
  owns a u := pages_own false (boot_kalloc a) u;
  room a := pages_room (boot_kalloc a)
}.
Proof.
  - intros a u ptr a' Ho E. destruct (boot_alloc_run a u Ho) as [[Ef _]|(p & s' & Ed & Hp & H0 & Hn & Ho' & Ec)].
    + cbn [alloc_table boot_tables] in E. rewrite Ef in E. discriminate E.
    + cbn [alloc_table boot_tables] in E. rewrite Ed in E. injection E as <- <-. exists p. cbn [boot_kalloc]. split_and!; try done. lia.
  - intros a u Ho Hr. destruct (boot_alloc_run a u Ho) as [[_ Hz]|(p & s' & Ed & _)]; [lia|]. eexists. exact Ed.
Defined.

#[global] Instance boot_tables_free : @TableFreeLaws IdentityTranslator BootTempAllocator boot_tables boot_tables_laws.
Proof.
  split. intros a u p Ho Hp. cbn [owns room boot_tables_laws] in *. destruct (free_run _ _ _ _ Ho Hp) as (p' & E & Ho' & Hr).
  destruct (own_phys _ _ _ _ Ho Hp) as [_ H0]. pose proof Ho as (Hptr & Ed & _).
  exists {| boot_kalloc := Slab.set_pages p' (boot_kalloc a) |}. split; [|done]. cbn [free_table boot_tables]. unfold boot_free_table, slab_free_phys_page, bind.
  rewrite run_page_alloc by done. unfold on_pages. cbn [src_free_phys_page page_allocator_source]. unfold free_phys_page, bind, get. rewrite Ed.
  rewrite emb_dmap in E by done. change (@phys_to_dmap IdentityTranslator p) with p. by rewrite E.
Qed.

(** In the running kernel tables are used in the direct map. *)
#[global, refine] Instance kernel_tables_laws : @TableAllocatorLaws KernelAddressTranslator KernelPTAllocator kernel_tables := {
  owns a u := pages_own true (kernel_kalloc a) u;
  room a := pages_room (kernel_kalloc a)
}.
Proof.
  - intros a u ptr a' Ho E. destruct (kernel_alloc_run a u Ho) as [[Ef _]|(p & s' & Ed & Hp & H0 & Hn & Ho' & Ec)].
    + cbn [alloc_table kernel_tables] in E. rewrite Ef in E. discriminate E.
    + cbn [alloc_table kernel_tables] in E. rewrite Ed in E. injection E as <- <-. exists p. cbn [kernel_kalloc]. split_and!; try done. lia.
  - intros a u Ho Hr. destruct (kernel_alloc_run a u Ho) as [[_ Hz]|(p & s' & Ed & _)]; [lia|]. eexists. exact Ed.
Defined.

#[global] Instance kernel_tables_free : @TableFreeLaws KernelAddressTranslator KernelPTAllocator kernel_tables kernel_tables_laws.
Proof.
  split. intros a u p Ho Hp. cbn [owns room kernel_tables_laws] in *. destruct (free_run _ _ _ _ Ho Hp) as (p' & E & Ho' & Hr).
  destruct (own_phys _ _ _ _ Ho Hp) as [_ H0]. pose proof Ho as (Hptr & Ed & _).
  exists {| kernel_kalloc := Slab.set_pages p' (kernel_kalloc a) |}. split; [|done]. cbn [free_table kernel_tables]. unfold kernel_free_table, free_page, bind.
  rewrite run_page_alloc by done. unfold on_pages. cbn [src_free_pages page_allocator_source]. rewrite emb_dmap in E by done. by rewrite E.
Qed.

(** ** Mapping with the kernel's allocator *)

Section kernel.
#[local] Existing Instance KernelAddressTranslator.
Context {D : TTE} {DL : TTELaws D}.

(** mapping a page with tables from the kernel's own page allocator: when
    its counters leave three free pages the mapping succeeds, the address
    translates to the page, at most three pages are used, and every table is
    a page that the allocator counts as handed out. *)
Theorem kernel_map_page root rptr pa va at_ (s : Pt KernelPTAllocator) : pt_inv root s → dmap_to_phys rptr = root →
  page_addr va → table_addr pa → block_of s root va = None → (3 ≤ free_pages_count (pages (kernel_kalloc (alloc_state s))))%nat →
  ∃ s', map_page rptr pa va at_ s = Done (tt, s') ∧ pt_inv root s' ∧ translate s' root va = Some pa ∧
    (free_pages_count (pages (kernel_kalloc (alloc_state s))) ≤ 3 + free_pages_count (pages (kernel_kalloc (alloc_state s'))))%nat ∧
    pages_own true (kernel_kalloc (alloc_state s')) (dom (tables s')).
Proof.
  intros I Er Hva Hpa Hb Hr. pose proof (wp_map_page_va root rptr pa va at_ s I Er Hva Hpa Hb Hr) as ([] & s' & E & Hm & _ & Hr' & _)%wp_run.
  exists s'. split_and!; [done|apply Hm| |exact Hr'|apply (pi_owns _ _ (rm_inv _ _ _ _ _ _ Hm))].
  rewrite (rm_translate _ _ _ _ _ _ Hm) by apply Hva. rewrite decide_True by (change PAGE_SIZE with 16384; lia). f_equal. lia.
Qed.
End kernel.

Section witness.
#[local] Existing Instance KernelAddressTranslator.

(** A page table in a page of the allocator of [PageTheorems], after the
    move to the direct map. *)
Lemma kernel_state zs bl a s1 : Inv zs bl s1 → is_dmap s1 = false → owned bl = {[a := 0]} →
  ∃ s : SlabAllocator PageAllocator, table_addr a ∧ a ≠ 0 ∧ pages_own true s {[a]} ∧
    free_pages_count (pages s) = Z.to_nat (wrap 64 (foldr (λ z acc, zi_pages z + acc) 0 zs) - 1).
Proof.
  intros I Ed Eo. destruct (proj1 (wp_run _ _ _) (wp_transition_dmap zs bl s1 I Ed)) as ([] & s2 & _ & I2 & Ed2).
  assert (owned bl !! a = Some 0) as Ho by (by rewrite Eo, lookup_singleton_eq).
  set (s := {| pages := s2; page_alloc_ptr := 1; used_bytes := 0; caches := []; slab_lock := TicketLock.new; slab_dmap := true; headers := ∅; words := ∅ |}).
  assert (pages_own true s {[a]}) as Hown.
  { split; [done|]. split; [done|]. exists zs, bl. split; [done|]. by intros p ->%elem_of_singleton. }
  destruct (own_phys _ _ _ a Hown) as [Hpa Ha0]; [by apply elem_of_singleton|]. exists s. split_and!; try done.
  - by eapply own_table; [done|apply elem_of_singleton].
  - destruct (counters_split _ _ _ I2) as [Eal Et]. change (pages s) with s2. unfold free_pages_count.
    rewrite (i_total _ _ _ _ (proj1 I2)), Eal, msum_owned, Eo. rewrite <- insert_empty, msum_insert, msum_empty by done. done.
Qed.

Lemma kernel_map_page_witness : ∃ root s s', map_page (phys_to_dmap root) (8 * PAGE_SIZE) (DMAP_START + 5 * PAGE_SIZE) demo_attrs s = Done (tt, s') ∧
  translate s' root (DMAP_START + 5 * PAGE_SIZE) = Some (8 * PAGE_SIZE) ∧ pages_own true (kernel_kalloc (alloc_state s')) (dom (tables s')).
Proof.
  destruct demo1_Inv as (bl & p & I & Ed & _ & Eo).
  destruct (kernel_state [demo_zone] bl p demo1 I Ed Eo) as (s & Hp & H0 & Ho & Hc). clear I Ed Eo.
  destruct (kernel_map_page p (phys_to_dmap p) (8 * PAGE_SIZE) (DMAP_START + 5 * PAGE_SIZE) demo_attrs (zero_root p {| kernel_kalloc := s |}))
    as (s' & E & _ & Et & _ & Hs').
  - apply zero_root_inv; [exact Hp|exact Ho].
  - apply dmap_phys_dmap, Hp.
  - split; [vm_compute; split; congruence|]. by exists (DMAP_START / PAGE_SIZE + 5).
  - split; [vm_compute; split; congruence|]. by exists 8.
  - unfold block_of. by apply zero_root_leaf.
  - cbn [alloc_state zero_root kernel_kalloc]. rewrite Hc. vm_compute. lia.
  - exists p, (zero_root p {| kernel_kalloc := s |}), s'. split; [exact E|]. split; [exact Et|exact Hs'].
Defined.
End witness.
