(* ===== verification/Registers.v ===== *)
(** * Register fields

    Models [klib/models/src/memory/registers]: [Field] with its mask, [lift]
    and [lower], the [FieldType] conversions, the compile-time checks of
    [declare_register!] and [declare_structs!], [RegisterModifier] and the
    volatile cells.  Values are numbers of the register's width; a shift by
    the width or more is an arithmetic overflow and panics. *)

From stdpp Require Import strings.
From S2P Require Import Prelude.

(** ** Machine operations of a [w]-bit register value *)

Definition ONES (w : Z) : Z := Z.ones w.
Definition shl (w x n : Z) : option Z := if n <? w then Some (wrap w (Z.shiftl x n)) else None.
Definition shr (w x n : Z) : option Z := if n <? w then Some (Z.shiftr x n) else None.

(** ** Field types

    The types a field can be declared with.  [FRaw] is the register's own
    type, [FWiden k] the unsigned integer of [k] bits, [FBools n] the array
    [[bool; n]]; [FIcfgr] and [FBaserType] are the two types that the GIC
    driver adds. *)

Inductive GicdIcfgrValue := LevelSensitive | EdgeTriggered.
Inductive GitsBaserType := Unallocated | Device | Vpe | Collection.

Inductive FType := FRaw | FWiden (k : Z) | FBool | FBools (n : nat) | FIcfgr (n : nat) | FBaserType.

Definition fval (t : FType) : Type :=
  match t with
  | FRaw | FWiden _ => Z
  | FBool => bool
  | FBools _ => list bool
  | FIcfgr _ => list GicdIcfgrValue
  | FBaserType => GitsBaserType
  end.

#[global] Instance GicdIcfgrValue_eq_dec : EqDecision GicdIcfgrValue.
Proof. solve_decision. Defined.
#[global] Instance GitsBaserType_eq_dec : EqDecision GitsBaserType.
Proof. solve_decision. Defined.

(** The bits of an array of flags, from index [i] on. *)
Fixpoint bools_from_bits (w bits : Z) (n : nat) (i : Z) : option (list bool) :=
  match n with
  | O => Some []
  | S n' => mask ← shl w 1 i;
            rest ← bools_from_bits w bits n' (i + 1);
            Some (negb (Z.land bits mask =? 0) :: rest)
  end.
Fixpoint bools_into_bits (w : Z) (vs : list bool) (i bits : Z) : option Z :=
  match vs with
  | [] => Some bits
  | v :: vs' => if (v : bool) then m ← shl w 1 i; bools_into_bits w vs' (i + 1) (Z.lor bits m)
                else bools_into_bits w vs' (i + 1) bits
  end.

(** Two bits per interrupt. *)
Fixpoint icfgr_from_bits (w bits : Z) (n : nat) (i : Z) : option (list GicdIcfgrValue) :=
  match n with
  | O => Some []
  | S n' => value ← shr w bits (i * 2);
            rest ← icfgr_from_bits w bits n' (i + 1);
            Some ((if Z.land value 3 =? 2 then EdgeTriggered else LevelSensitive) :: rest)
  end.
Fixpoint icfgr_into_bits (w : Z) (vs : list GicdIcfgrValue) (i bits : Z) : option Z :=
  match vs with
  | [] => Some bits
  | v :: vs' =>
      m ← shl w (match v with LevelSensitive => 0 | EdgeTriggered => 2 end) (i * 2);
      icfgr_into_bits w vs' (i + 1) (Z.lor bits m)
  end.

Definition baser_from_bits (bits : Z) : GitsBaserType :=
  match bits with 1 => Device | 2 => Vpe | 4 => Collection | _ => Unallocated end.
Definition baser_into_bits (t : GitsBaserType) : Z :=
  match t with Device => 1 | Vpe => 2 | Collection => 4 | Unallocated => 0 end.

Definition from_bits (w : Z) (t : FType) : Z → option (fval t) :=
  match t return Z → option (fval t) with
  | FRaw => λ bits, Some bits
  | FWiden k => λ bits, Some (wrap k bits)
  | FBool => λ bits, Some (negb (bits =? 0))
  | FBools n => λ bits, bools_from_bits w bits n 0
  | FIcfgr n => λ bits, icfgr_from_bits w bits n 0
  | FBaserType => λ bits, Some (baser_from_bits bits)
  end.

Definition into_bits (w : Z) (t : FType) : fval t → option Z :=
  match t return fval t → option Z with
  | FRaw => λ v, Some v
  | FWiden _ => λ v, Some v
  | FBool => λ v, Some (if (v : bool) then 1 else 0)
  | FBools _ => λ v, bools_into_bits w v 0 0
  | FIcfgr _ => λ v, icfgr_into_bits w v 0 0
  | FBaserType => λ v, Some (baser_into_bits v)
  end.

(** ** Fields *)

Record Field := mkField { BITS : Z; OFFSET : Z; WIDTH : Z; ftype : FType }.

#[global] Instance FType_eq_dec : EqDecision FType.
Proof. solve_decision. Defined.
#[global] Instance Field_eq_dec : EqDecision Field.
Proof. solve_decision. Defined.

Definition low_mask (f : Field) : option Z :=
  if WIDTH f =? BITS f then Some (ONES (BITS f)) else shr (BITS f) (ONES (BITS f)) (BITS f - WIDTH f).

Definition mask (f : Field) : option Z := m ← low_mask f; shl (BITS f) m (OFFSET f).

Definition lift (f : Field) (raw : Z) : option (fval (ftype f)) :=
  m ← low_mask f;
  x ← shr (BITS f) raw (OFFSET f);
  from_bits (BITS f) (ftype f) (Z.land x m).

Definition lower (f : Field) (value : fval (ftype f)) : option Z :=
  m ← low_mask f;
  b ← into_bits (BITS f) (ftype f) value;
  shl (BITS f) (Z.land b m) (OFFSET f).

(** ** Declarations *)

Record Register := declare { reg_bits : Z; reg_fields : list Field }.

(** The checks in the [const _] block of [declare_register!], with
    [total_mask] accumulated over the fields. *)
Definition field_mask128 (f : Field) : Z :=
  if WIDTH f =? 128 then Z.ones 128 else wrap 128 (Z.shiftl (Z.shiftl 1 (WIDTH f) - 1) (OFFSET f)).
Fixpoint declare_check (max_bits total_mask : Z) (fs : list Field) : bool :=
  match fs with
  | [] => true
  | f :: fs' =>
      negb (max_bits <? OFFSET f + WIDTH f) && (Z.land total_mask (field_mask128 f) =? 0)
      && declare_check max_bits (Z.lor total_mask (field_mask128 f)) fs'
  end.
Definition declare_register (r : Register) : bool :=
  declare_check (reg_bits r) 0 (reg_fields r).

(** [declare_structs!]: fields with their offset, size and alignment.  The
    macro checks that the offsets do not run backwards and pads with bytes;
    [repr(C)] then aligns each field. *)
Record StructField := sfield { sf_name : string; sf_offset : Z; sf_size : Z; sf_align : Z }.
Fixpoint struct_check (curr : Z) (fs : list StructField) (end_ : Z) : bool :=
  match fs with
  | [] => curr <=? end_
  | f :: fs' => (curr <=? sf_offset f) && struct_check (sf_offset f + sf_size f) fs' end_
  end.
Definition declare_structs (fs : list StructField) (end_ : Z) : bool := struct_check 0 fs end_.

Definition round_up (x a : Z) : Z := (x + a - 1) / a * a.

(** Where [repr(C)] puts the fields: [pos] is the end of the previous field
    and [curr] the macro's tracker. *)
Fixpoint struct_layout (pos curr : Z) (fs : list StructField) : list Z :=
  match fs with
  | [] => []
  | f :: fs' =>
      let at_ := round_up (pos + (sf_offset f - curr)) (sf_align f) in
      at_ :: struct_layout (at_ + sf_size f) (sf_offset f + sf_size f) fs'
  end.

(** ** Read-modify-write *)

(** [RegisterModifier::set]; the same expression is [modify_field]. *)
Definition set (f : Field) (value : fval (ftype f)) (old : Z) : option Z :=
  m ← mask f;
  l ← lower f value;
  Some (Z.lor (Z.land old (unot (BITS f) m)) l).

(** A builder chain [.set(..).set(..).finish()]. *)
Definition update := { f : Field & fval (ftype f) }.
Definition upd (f : Field) (v : fval (ftype f)) : update := existT f v.
Fixpoint builder (us : list update) (old : Z) : option Z :=
  match us with
  | [] => Some old
  | existT f v :: us' => new ← set f v old; builder us' new
  end.

(** ** Volatile cells

    A cell is a place of a device; reading and writing are operations on the
    device.  The wrappers differ in which operations they offer: a write-only
    cell cannot be read, so its [modify_field] writes the lowered value
    alone. *)

Class Cell (S : Type) := {
  cell_read : M S Z;
  cell_write : Z → M S unit
}.

Section volatile.
Context {S : Type} {C : Cell S}.

Definition read : M S Z := cell_read.
Definition write (value : Z) : M S unit := cell_write value.
Definition read_field (f : Field) : M S (fval (ftype f)) :=
  let* raw := read in expect (lift f raw).
Definition modify_field (f : Field) (value : fval (ftype f)) : M S unit :=
  let* m := expect (mask f) in
  let* old := read in
  let* l := expect (lower f value) in
  write (Z.lor (Z.land old (unot (BITS f) m)) l).
Definition reg_builder (us : list update) : M S Z :=
  let* old := read in expect (builder us old).
(** [modify_field] of [RWriteOnly] and [RPureWriteOnly]. *)
Definition modify_field_wo (f : Field) (value : fval (ftype f)) : M S unit :=
  let* l := expect (lower f value) in write l.
End volatile.

(** ** Fields are bit ranges *)

Definition field_ok (f : Field) : Prop := 0 ≤ OFFSET f ∧ 0 < WIDTH f ∧ OFFSET f + WIDTH f ≤ BITS f.

(** The bits of a value, when the conversion does not panic. *)
Definition fits (f : Field) (v : fval (ftype f)) : Prop :=
  match into_bits (BITS f) (ftype f) v with
  | Some b => from_bits (BITS f) (ftype f) (b mod 2 ^ WIDTH f) = Some v
  | None => False
  end.

Lemma low_mask_eq f : field_ok f → low_mask f = Some (Z.ones (WIDTH f)).
Proof.
  intros (H0 & Hw & Hb). unfold low_mask, ONES. destruct (Z.eqb_spec (WIDTH f) (BITS f)) as [->|Hne]; [done|].
  unfold shr. rewrite (proj2 (Z.ltb_lt _ _)) by lia. f_equal. apply Z.bits_inj'. intros i Hi.
  rewrite Z.shiftr_spec, !testbit_ones by lia.
  destruct (Z.ltb_spec (i + (BITS f - WIDTH f)) (BITS f)), (Z.ltb_spec i (WIDTH f)); (done || lia).
Qed.

Lemma shl_field f x : field_ok f →
  shl (BITS f) (Z.land x (Z.ones (WIDTH f))) (OFFSET f) =
  Some (Z.shiftl (Z.land x (Z.ones (WIDTH f))) (OFFSET f)).
Proof.
  intros (H0 & Hw & Hb). unfold shl. rewrite (proj2 (Z.ltb_lt _ _)) by lia. f_equal. apply wrap_small.
  rewrite Z.land_ones, Z.shiftl_mul_pow2 by lia. pose proof (Z.mod_pos_bound x (2 ^ WIDTH f) (pow2_pos (WIDTH f) ltac:(lia))).
  pose proof (pow2_pos (OFFSET f) H0). split; [nia|].
  apply Z.lt_le_trans with (2 ^ WIDTH f * 2 ^ OFFSET f); [nia|].
  rewrite <- Z.pow_add_r by lia. apply pow2_le. lia.
Qed.

Lemma mask_eq f : field_ok f → mask f = Some (Z.shiftl (Z.ones (WIDTH f)) (OFFSET f)).
Proof.
  intros Hf. unfold mask. rewrite low_mask_eq by done. simpl.
  rewrite <- (Z.land_diag (Z.ones (WIDTH f))). by apply shl_field.
Qed.

Lemma lift_eq f raw : field_ok f →
  lift f raw = from_bits (BITS f) (ftype f) (get_bits (OFFSET f) (WIDTH f) raw).
Proof.
  intros Hf. unfold lift. rewrite low_mask_eq by done. simpl. unfold shr.
  destruct Hf as (H0 & Hw & Hb). by rewrite (proj2 (Z.ltb_lt _ _)) by lia.
Qed.

Lemma lower_eq f v b : field_ok f → into_bits (BITS f) (ftype f) v = Some b →
  lower f v = Some (Z.shiftl (Z.land b (Z.ones (WIDTH f))) (OFFSET f)).
Proof. intros Hf Hb. unfold lower. rewrite low_mask_eq, Hb by done. simpl. by apply shl_field. Qed.

Lemma set_eq f v b old : field_ok f → 0 ≤ old < 2 ^ BITS f → into_bits (BITS f) (ftype f) v = Some b →
  set f v old = Some (set_bits (OFFSET f) (WIDTH f) b old).
Proof.
  intros Hf Hold Hb. unfold set. rewrite mask_eq, (lower_eq f v b) by done. simpl. f_equal.
  destruct Hf as (H0 & Hw & Hle). unfold set_bits. by rewrite land_unot by lia.
Qed.

Lemma fits_bits f v : fits f v → ∃ b, into_bits (BITS f) (ftype f) v = Some b ∧
  from_bits (BITS f) (ftype f) (b mod 2 ^ WIDTH f) = Some v.
Proof. unfold fits. destruct (into_bits _ _ _) as [b|]; [eauto|done]. Qed.

Definition disjoint_fields (f g : Field) : Prop :=
  OFFSET f + WIDTH f ≤ OFFSET g ∨ OFFSET g + WIDTH g ≤ OFFSET f.

(** What a read-modify-write of one field does. *)
Lemma set_spec f v old : field_ok f → 0 ≤ old < 2 ^ BITS f → fits f v →
  ∃ new, set f v old = Some new ∧ 0 ≤ new < 2 ^ BITS f ∧ lift f new = Some v ∧
    (∀ g, field_ok g → disjoint_fields f g → lift g new = lift g old).
Proof.
  intros Hf Hold (b & Hb & Hv)%fits_bits. pose proof Hf as (H0 & Hw & Hle).
  exists (set_bits (OFFSET f) (WIDTH f) b old). split; [by apply set_eq|].
  split; [apply set_bits_range; lia|]. split.
  - rewrite lift_eq, get_set_bits by (done || lia). done.
  - intros g Hg Hd. rewrite !lift_eq by done. destruct Hg as (? & ? & ?).
    by rewrite get_set_bits_other by (done || lia).
Qed.

(** ** The compile-time check separates the fields *)

Lemma field_mask128_spec f i : field_ok f → BITS f ≤ 128 → 0 ≤ i →
  Z.testbit (field_mask128 f) i = (OFFSET f <=? i) && (i <? OFFSET f + WIDTH f).
Proof.
  intros (H0 & Hw & Hle) Hb Hi. unfold field_mask128. destruct (Z.eqb_spec (WIDTH f) 128) as [E|E].
  - rewrite testbit_ones by lia. replace (OFFSET f) with 0 by lia. rewrite E. by destruct i.
  - rewrite shiftl_1 by lia. replace (2 ^ WIDTH f - 1) with (Z.ones (WIDTH f)) by (rewrite Z.ones_equiv; lia).
    unfold wrap. rewrite <- Z.land_ones, Z.land_spec, testbit_ones, Z.shiftl_spec by lia.
    destruct (Z.leb_spec (OFFSET f) i); simpl.
    + rewrite testbit_ones by lia.
      destruct (Z.ltb_spec (i - OFFSET f) (WIDTH f)), (Z.ltb_spec i 128), (Z.ltb_spec i (OFFSET f + WIDTH f)); (done || lia).
    + by rewrite Z.testbit_neg_r by lia.
Qed.

Definition fields_ok (r : Register) : Prop :=
  reg_bits r ≤ 128 ∧ Forall (λ f, BITS f = reg_bits r ∧ 0 ≤ OFFSET f ∧ 0 < WIDTH f) (reg_fields r).

Lemma declare_check_in max total fs k f : declare_check max total fs = true → max ≤ 128 →
  Forall (λ f, BITS f = max ∧ 0 ≤ OFFSET f ∧ 0 < WIDTH f) fs → fs !! k = Some f →
  field_ok f ∧ ∀ i, OFFSET f ≤ i < OFFSET f + WIDTH f → Z.testbit total i = false.
Proof.
  revert total k. induction fs as [|g fs IH]; intros total k Hc Hm HF Hk; [done|].
  simpl in Hc. apply andb_true_iff in Hc as [[H1 H2]%andb_true_iff H3].
  apply Forall_cons in HF as [(Hg1 & Hg2 & Hg3) HF].
  assert (field_ok g) as Hg.
  { split_and!; [done|done|]. apply negb_true_iff, Z.ltb_ge in H1. lia. }
  destruct k as [|k]; simplify_eq/=.
  - split; [done|]. intros i Hi. apply Z.eqb_eq in H2. apply (f_equal (λ z, Z.testbit z i)) in H2.
    rewrite Z.land_spec, field_mask128_spec, Z.bits_0 in H2 by (done || lia).
    rewrite (proj2 (Z.leb_le _ _)), (proj2 (Z.ltb_lt _ _)) in H2 by lia. by rewrite andb_true_r in H2.
  - destruct (IH _ _ H3 Hm HF Hk) as [Hf Ht]. split; [done|]. intros i Hi.
    specialize (Ht i Hi). rewrite Z.lor_spec in Ht. by apply orb_false_iff in Ht as [? _].
Qed.

Lemma declare_check_disjoint max total fs i j f g : declare_check max total fs = true → max ≤ 128 →
  Forall (λ f, BITS f = max ∧ 0 ≤ OFFSET f ∧ 0 < WIDTH f) fs → (i < j)%nat →
  fs !! i = Some f → fs !! j = Some g → disjoint_fields f g.
Proof.
  revert total i j. induction fs as [|h fs IH]; intros total i j Hc Hm HF Hij Hi Hj; [done|].
  pose proof (declare_check_in _ _ _ i f Hc Hm HF Hi) as [Hf _].
  simpl in Hc. apply andb_true_iff in Hc as [_ H3]. apply Forall_cons in HF as [(Hb & _) HF].
  destruct j as [|j]; [lia|]. simpl in Hj. destruct i as [|i]; simpl in Hi; [|apply (IH _ i j H3); auto with lia].
  simplify_eq. destruct (declare_check_in _ _ _ j g H3 Hm HF Hj) as [Hg Ht].
  unfold disjoint_fields. destruct Hf as (F1 & F2 & F3), Hg as (G1 & G2 & G3).
  destruct (decide (OFFSET f + WIDTH f ≤ OFFSET g ∨ OFFSET g + WIDTH g ≤ OFFSET f)) as [|Hn]; [done|].
  specialize (Ht (Z.max (OFFSET f) (OFFSET g)) ltac:(lia)).
  rewrite Z.lor_spec, field_mask128_spec in Ht by (try split_and!; lia).
  apply orb_false_iff in Ht as [_ Ht].
  rewrite (proj2 (Z.leb_le _ _)), (proj2 (Z.ltb_lt _ _)) in Ht by lia. done.
Qed.

Lemma declared_disjoint r i j f g : declare_register r = true → fields_ok r → i ≠ j →
  reg_fields r !! i = Some f → reg_fields r !! j = Some g →
  field_ok f ∧ field_ok g ∧ disjoint_fields f g.
Proof.
  intros Hc [Hm HF] Hij Hi Hj. unfold declare_register in Hc.
  destruct (declare_check_in _ _ _ _ _ Hc Hm HF Hi) as [? _].
  destruct (declare_check_in _ _ _ _ _ Hc Hm HF Hj) as [? _]. split_and!; [done|done|].
  destruct (decide (i < j)%nat).
  - by apply (declare_check_disjoint _ _ _ i j f g Hc Hm HF).
  - pose proof (declare_check_disjoint _ _ _ j i g f Hc Hm HF ltac:(lia) Hj Hi) as [?|?]; [by right|by left].
Qed.

Lemma declared_field r f : declare_register r = true → fields_ok r → f ∈ reg_fields r →
  field_ok f ∧ BITS f = reg_bits r.
Proof.
  intros Hc [Hm HF] [i Hi]%list_elem_of_lookup.
  destruct (declare_check_in _ _ _ _ _ Hc Hm HF Hi) as [? _]. split; [done|].
  rewrite Forall_forall in HF. by destruct (HF f (list_elem_of_lookup_2 _ _ _ Hi)).
Qed.

Lemma declared_distinct r f g : declare_register r = true → fields_ok r → f ∈ reg_fields r →
  g ∈ reg_fields r → f ≠ g → disjoint_fields f g.
Proof.
  intros Hc Hok [i Hi]%list_elem_of_lookup [j Hj]%list_elem_of_lookup Hne.
  apply (declared_disjoint r i j f g Hc Hok); [|done|done]. intros ->. congruence.
Qed.

Definition ufield (u : update) : Field := projT1 u.
Definition update_ok (r : Register) (u : update) : Prop :=
  ufield u ∈ reg_fields r ∧ fits (ufield u) (projT2 u).

Lemma builder_ok r us old : declare_register r = true → fields_ok r → Forall (update_ok r) us →
  NoDup (ufield <$> us) → 0 ≤ old < 2 ^ reg_bits r →
  ∃ new, builder us old = Some new ∧ 0 ≤ new < 2 ^ reg_bits r ∧
    (∀ f v, existT f v ∈ us → lift f new = Some v) ∧
    (∀ g, g ∈ reg_fields r → g ∉ ufield <$> us → lift g new = lift g old).
Proof.
  intros Hc Hok. revert old. induction us as [|[f v] us IH]; intros old HF Hnd Hold.
  { exists old. split_and!; try done; [lia|lia|]. by intros f v ?%elem_of_nil. }
  apply Forall_cons in HF as [[Hin Hfit] HF]. simpl in Hin, Hfit, Hnd. apply NoDup_cons in Hnd as [Hni Hnd].
  destruct (declared_field r f Hc Hok Hin) as [Hf Hb]. rewrite <- Hb in Hold.
  destruct (set_spec f v old Hf Hold Hfit) as (mid & Hs & Hmid & Hlf & Hoth). rewrite Hb in Hmid.
  destruct (IH mid HF Hnd Hmid) as (new & Hbd & Hnew & Hin' & Hout).
  exists new. split; [simpl; by rewrite Hs|]. split; [done|]. split.
  - intros f' v' [E|Hu]%elem_of_cons; [|by apply Hin'].
    assert (f' = f) as -> by exact (f_equal ufield E).
    rewrite (Hout f Hin Hni), Hlf. f_equal.
    by apply (Eqdep_dec.inj_pair2_eq_dec _ (decide_rel (=) : ∀ x y : Field, _)) in E.
  - intros g Hg Hng. rewrite fmap_cons, not_elem_of_cons in Hng. simpl in Hng. destruct Hng as [Hne Hng].
    rewrite (Hout g Hg Hng). apply Hoth; [by apply (declared_field r)|].
    apply (declared_distinct r); auto.
Qed.

(** A cell that is plain memory: what is written is read back. *)
Class MemoryCell (S : Type) {C : Cell S} := {
  cell_value : S → Z;
  cell_read_value s : cell_read s = Done (cell_value s, s);
  cell_write_value v s : ∃ s', cell_write v s = Done (tt, s') ∧ cell_value s' = v
}.

Lemma round_up_id x a : 0 < a → (a | x) → round_up x a = x.
Proof.
  intros Ha [k ->]. unfold round_up. replace (k * a + a - 1) with (a - 1 + k * a) by lia.
  rewrite Z.div_add by lia. rewrite Z.div_small by lia. lia.
Qed.

Lemma struct_layout_from pos fs : Forall (λ f, 0 < sf_align f ∧ sf_offset f mod sf_align f = 0) fs →
  struct_layout pos pos fs = sf_offset <$> fs.
Proof.
  revert pos. induction fs as [|f fs IH]; intros pos HF; [done|].
  apply Forall_cons in HF as [[Ha Hd] HF]. simpl.
  replace (pos + (sf_offset f - pos)) with (sf_offset f) by lia.
  apply Z.mod_divide in Hd; [|lia]. rewrite round_up_id by done. f_equal. by apply IH.
Qed.

Lemma struct_check_sorted curr fs end_ i j f g : struct_check curr fs end_ = true →
  Forall (λ f, 0 ≤ sf_size f) fs → (i < j)%nat → fs !! i = Some f → fs !! j = Some g →
  sf_offset f + sf_size f ≤ sf_offset g ∧ sf_offset g + sf_size g ≤ end_.
Proof.
  assert (∀ curr fs, struct_check curr fs end_ = true → Forall (λ f, 0 ≤ sf_size f) fs → 
    curr ≤ end_ ∧ ∀ j g, fs !! j = Some g → curr ≤ sf_offset g ∧ sf_offset g + sf_size g ≤ end_) as Haux.
  { clear. intros curr fs. revert curr. induction fs as [|h fs IH]; intros curr Hc HF; simpl in Hc.
    - split; [lia|]. by intros j g ?.
    - apply andb_true_iff in Hc as [H1 H2]. apply Forall_cons in HF as [Hs HF].
      destruct (IH _ H2 HF) as [He Hj]. split; [lia|]. intros [|j] g Hg; simplify_eq/=; [lia|].
      destruct (Hj j g Hg). lia. }
  revert curr i j. induction fs as [|h fs IH]; intros curr i j Hc HF Hij Hi Hj; [done|].
  simpl in Hc. apply andb_true_iff in Hc as [_ H2]. apply Forall_cons in HF as [Hs HF].
  destruct j as [|j]; [lia|]. destruct i as [|i]; simplify_eq/=.
  - destruct (Haux _ _ H2 HF) as [_ Ha]. by apply (Ha j g).
  - apply (IH _ i j H2 HF); auto with lia.
Qed.

(** ** Contracts *)

(** in a register whose declaration passes the compile-time check, a
    read-modify-write of one field does not panic, stays within the width of
    the register, makes the field read back as the written value and leaves
    every other field as it was. *)
Theorem register_fields_independent r i f v old : declare_register r = true → fields_ok r →
  reg_fields r !! i = Some f → fits f v → 0 ≤ old < 2 ^ reg_bits r →
  ∃ new, set f v old = Some new ∧ 0 ≤ new < 2 ^ reg_bits r ∧ lift f new = Some v ∧
    (∀ j g, j ≠ i → reg_fields r !! j = Some g → lift g new = lift g old).
Proof.
  intros Hc Hok Hi Hfit Hold.
  destruct (declared_field r f Hc Hok (list_elem_of_lookup_2 _ _ _ Hi)) as [Hf Hb]. rewrite <- Hb in *.
  destruct (set_spec f v old Hf Hold Hfit) as (new & Hs & Hn & Hl & Ho).
  exists new. split_and!; [done|lia|lia|done|]. intros j g Hne Hj.
  destruct (declared_disjoint r i j f g Hc Hok (not_eq_sym Hne) Hi Hj) as (_ & Hg & Hd). by apply Ho.
Qed.

(** a builder chain over distinct fields of a declared register does not
    panic; every field of the chain reads back as the value it was given, in
    whatever order they were set, and the others are unchanged. *)
Theorem builder_spec r us old : declare_register r = true → fields_ok r → Forall (update_ok r) us →
  NoDup (ufield <$> us) → 0 ≤ old < 2 ^ reg_bits r →
  ∃ new, builder us old = Some new ∧ 0 ≤ new < 2 ^ reg_bits r ∧
    (∀ f v, existT f v ∈ us → lift f new = Some v) ∧
    (∀ g, g ∈ reg_fields r → g ∉ ufield <$> us → lift g new = lift g old).
Proof. apply builder_ok. Qed.

(** a structure whose declaration passes the check of [declare_structs!]
    and whose offsets respect the alignment of their fields is laid out at
    exactly the declared offsets, and its fields do not overlap. *)
Theorem declare_structs_layout fs end_ : declare_structs fs end_ = true →
  Forall (λ f, 0 ≤ sf_size f ∧ 0 < sf_align f ∧ sf_offset f mod sf_align f = 0) fs →
  struct_layout 0 0 fs = sf_offset <$> fs ∧
  (∀ i j f g, (i < j)%nat → fs !! i = Some f → fs !! j = Some g →
     sf_offset f + sf_size f ≤ sf_offset g ∧ sf_offset g + sf_size g ≤ end_).
Proof.
  intros Hc HF. split.
  - apply struct_layout_from. eapply Forall_impl; [exact HF|]. simpl. tauto.
  - intros i j f g. apply (struct_check_sorted 0); [done|]. eapply Forall_impl; [exact HF|]. simpl. tauto.
Qed.

(** on a cell that behaves like memory, [modify_field] followed by
    [read_field] gives the value back. *)
Theorem modify_read_field {S} {C : Cell S} {MC : MemoryCell S} f v (s : S) : field_ok f → fits f v →
  0 ≤ cell_value s < 2 ^ BITS f →
  wp (modify_field f v ;; read_field f) (λ v' s', v' = v ∧ 0 ≤ cell_value s' < 2 ^ BITS f) s.
Proof.
  intros Hf Hfit Hs. destruct (set_spec f v _ Hf Hs Hfit) as (new & Hset & Hn & Hl & _).
  destruct (fits_bits f v Hfit) as (b & Hb & _). unfold set in Hset.
  rewrite (mask_eq f Hf), (lower_eq f v b Hf Hb) in Hset. simpl in Hset. injection Hset as Hset.
  apply wp_bind. unfold modify_field.
  wp_step. eapply wp_expect; [by apply mask_eq|].
  wp_step. unfold wp at 1, read. rewrite cell_read_value.
  wp_step. eapply wp_expect; [by apply lower_eq|]. rewrite Hset.
  unfold wp at 1, write. destruct (cell_write_value new s) as (s' & -> & Hv).
  unfold read_field. wp_step. unfold wp at 1, read. rewrite cell_read_value, Hv.
  eapply wp_expect; [exact Hl|]. by rewrite Hv.
Qed.
