(* ===== verification/Volatile.v ===== *)
(** * The kinds of register

    Models the register wrappers of
    [klib/models/src/memory/registers/volatile.rs]: the traits [Readable],
    [PureReadable], [Writeable] and [PureWriteable], and the seven types that
    implement some of them over a [Volatile] or a [DirtyVolatile] cell.  A
    register is a handle on one cell of the state, given by [Cell]; the
    theorems are about any type whose implementation reads and writes its
    cell, and every type of the source that can be read and written is one. *)

From S2P Require Import Prelude Registers.

(** ** Cells *)

Record Volatile (S : Type) := mkVolatile { cell : Cell S }.
Arguments mkVolatile {S} _.
Arguments cell {S} _.

Record DirtyVolatile (S : Type) := mkDirty { data : Cell S }.
Arguments mkDirty {S} _.
Arguments data {S} _.

Section dirty.
Context {S : Type}.

Definition dirty_read (r : DirtyVolatile S) : M S Z := @cell_read S (data r).
Definition dirty_write (r : DirtyVolatile S) (value : Z) : M S unit := @cell_write S (data r) value.
Definition dirty_read_field (r : DirtyVolatile S) (f : Field) : M S (fval (ftype f)) :=
  let* raw := dirty_read r in expect (lift f raw).
Definition dirty_modify_field (r : DirtyVolatile S) (f : Field) (value : fval (ftype f)) : M S unit :=
  let* m := expect (mask f) in
  let* old := dirty_read r in
  let* l := expect (lower f value) in
  dirty_write r (Z.lor (Z.land old (unot (BITS f) m)) l).
(** [builder] followed by the calls of [set] and [finish]. *)
Definition dirty_builder (r : DirtyVolatile S) (us : list update) : M S Z :=
  let* old := dirty_read r in expect (builder us old).
End dirty.

(** ** The traits *)

Class Readable (R : Type) (S : Type) := {
  read_impure : R → M S Z;
  read_field_impure : R → ∀ f, M S (fval (ftype f));
  builder_impure : R → list update → M S Z
}.

Class PureReadable (R : Type) (S : Type) `{Readable R S} := {
  read_pure : R → M S Z;
  read_field_pure : R → ∀ f, M S (fval (ftype f));
  builder_pure : R → list update → M S Z
}.

Class Writeable (R : Type) (S : Type) := {
  reg_write : R → Z → M S unit;
  reg_modify_field : R → ∀ f, fval (ftype f) → M S unit
}.

Class PureWriteable (R : Type) (S : Type) `{Writeable R S} := {
  write_pure : R → Z → M S unit;
  modify_field_pure : R → ∀ f, fval (ftype f) → M S unit
}.

(** ** The types *)

Record RReadOnly (S : Type) := mkRO { ro_cell : Volatile S }.
Arguments ro_cell {S} _.
Record RPureReadOnly (S : Type) := mkPRO { pro_cell : Volatile S }.
Arguments pro_cell {S} _.
Record RWriteOnly (S : Type) := mkWO { wo_cell : Volatile S }.
Arguments wo_cell {S} _.
Record RPureWriteOnly (S : Type) := mkPWO { pwo_cell : DirtyVolatile S }.
Arguments pwo_cell {S} _.
Record RPureReadPureWrite (S : Type) := mkPRPW { prpw_cell : DirtyVolatile S }.
Arguments prpw_cell {S} _.
Record RPureReadWrite (S : Type) := mkPRW { prw_cell : Volatile S }.
Arguments prw_cell {S} _.
Record RReadWrite (S : Type) := mkRW { rw_cell : Volatile S }.
Arguments rw_cell {S} _.

Section types.
Context {S : Type}.

#[global] Instance RReadOnly_Readable : Readable (RReadOnly S) S := {
  read_impure r := read (C := cell (ro_cell r));
  read_field_impure r f := read_field (C := cell (ro_cell r)) f;
  builder_impure r us := reg_builder (C := cell (ro_cell r)) us
}.

#[global] Instance RPureReadOnly_Readable : Readable (RPureReadOnly S) S := {
  read_impure r := read (C := cell (pro_cell r));
  read_field_impure r f := read_field (C := cell (pro_cell r)) f;
  builder_impure r us := reg_builder (C := cell (pro_cell r)) us
}.
#[global] Instance RPureReadOnly_PureReadable : PureReadable (RPureReadOnly S) S := {
  read_pure r := read (C := cell (pro_cell r));
  read_field_pure r f := read_field (C := cell (pro_cell r)) f;
  builder_pure r us := reg_builder (C := cell (pro_cell r)) us
}.

(** [RWriteOnly] and [RPureWriteOnly] cannot be read, so that [modify_field]
    just writes. *)
#[global] Instance RWriteOnly_Writeable : Writeable (RWriteOnly S) S := {
  reg_write r v := write (C := cell (wo_cell r)) v;
  reg_modify_field r f v := modify_field_wo (C := cell (wo_cell r)) f v
}.

#[global] Instance RPureWriteOnly_Writeable : Writeable (RPureWriteOnly S) S := {
  reg_write r v := dirty_write (pwo_cell r) v;
  reg_modify_field r f v := let* l := expect (lower f v) in dirty_write (pwo_cell r) l
}.
#[global] Instance RPureWriteOnly_PureWriteable : PureWriteable (RPureWriteOnly S) S := {
  write_pure r v := dirty_write (pwo_cell r) v;
  modify_field_pure r f v := let* l := expect (lower f v) in dirty_write (pwo_cell r) l
}.

#[global] Instance RPureReadPureWrite_Writeable : Writeable (RPureReadPureWrite S) S := {
  reg_write r v := dirty_write (prpw_cell r) v;
  reg_modify_field r f v := dirty_modify_field (prpw_cell r) f v
}.
#[global] Instance RPureReadPureWrite_PureWriteable : PureWriteable (RPureReadPureWrite S) S := {
  write_pure r v := dirty_write (prpw_cell r) v;
  modify_field_pure r f v := dirty_modify_field (prpw_cell r) f v
}.
#[global] Instance RPureReadPureWrite_Readable : Readable (RPureReadPureWrite S) S := {
  read_impure r := dirty_read (prpw_cell r);
  read_field_impure r f := dirty_read_field (prpw_cell r) f;
  builder_impure r us := dirty_builder (prpw_cell r) us
}.
#[global] Instance RPureReadPureWrite_PureReadable : PureReadable (RPureReadPureWrite S) S := {
  read_pure r := dirty_read (prpw_cell r);
  read_field_pure r f := dirty_read_field (prpw_cell r) f;
  builder_pure r us := dirty_builder (prpw_cell r) us
}.

#[global] Instance RPureReadWrite_Writeable : Writeable (RPureReadWrite S) S := {
  reg_write r v := write (C := cell (prw_cell r)) v;
  reg_modify_field r f v := modify_field (C := cell (prw_cell r)) f v
}.
#[global] Instance RPureReadWrite_Readable : Readable (RPureReadWrite S) S := {
  read_impure r := read (C := cell (prw_cell r));
  read_field_impure r f := read_field (C := cell (prw_cell r)) f;
  builder_impure r us := reg_builder (C := cell (prw_cell r)) us
}.
#[global] Instance RPureReadWrite_PureReadable : PureReadable (RPureReadWrite S) S := {
  read_pure r := read (C := cell (prw_cell r));
  read_field_pure r f := read_field (C := cell (prw_cell r)) f;
  builder_pure r us := reg_builder (C := cell (prw_cell r)) us
}.

#[global] Instance RReadWrite_Writeable : Writeable (RReadWrite S) S := {
  reg_write r v := write (C := cell (rw_cell r)) v;
  reg_modify_field r f v := modify_field (C := cell (rw_cell r)) f v
}.
#[global] Instance RReadWrite_Readable : Readable (RReadWrite S) S := {
  read_impure r := read (C := cell (rw_cell r));
  read_field_impure r f := read_field (C := cell (rw_cell r)) f;
  builder_impure r us := reg_builder (C := cell (rw_cell r)) us
}.
End types.

(** ** What the types promise

    A register that can be read and written modifies the cell it reads; one
    that can only be written forgets what the cell held. *)

Class ReadWrite (R : Type) (S : Type) `{Readable R S, Writeable R S} := {
  rw_of : R → Cell S;
  rw_read r : read_impure r = read (C := rw_of r);
  rw_read_field r f : read_field_impure r f = read_field (C := rw_of r) f;
  rw_write r v : reg_write r v = write (C := rw_of r) v;
  rw_modify r f v : reg_modify_field r f v = modify_field (C := rw_of r) f v
}.

Class WriteOnly (R : Type) (S : Type) `{Writeable R S} := {
  wo_of : R → Cell S;
  wo_write r v : reg_write r v = write (C := wo_of r) v;
  wo_modify r f v : reg_modify_field r f v = modify_field_wo (C := wo_of r) f v
}.

Section instances.
Context {S : Type}.

#[global] Instance RReadWrite_rw : ReadWrite (RReadWrite S) S.
Proof. by refine {| rw_of r := cell (rw_cell r) |}. Defined.
#[global] Instance RPureReadWrite_rw : ReadWrite (RPureReadWrite S) S.
Proof. by refine {| rw_of r := cell (prw_cell r) |}. Defined.
#[global] Instance RPureReadPureWrite_rw : ReadWrite (RPureReadPureWrite S) S.
Proof. by refine {| rw_of r := data (prpw_cell r) |}. Defined.
#[global] Instance RWriteOnly_wo : WriteOnly (RWriteOnly S) S.
Proof. by refine {| wo_of r := cell (wo_cell r) |}. Defined.
#[global] Instance RPureWriteOnly_wo : WriteOnly (RPureWriteOnly S) S.
Proof. by refine {| wo_of r := data (pwo_cell r) |}. Defined.
End instances.

(** ** Modifying a field *)

Section modify.
Context {S : Type} {C : Cell S} {MC : MemoryCell S}.

Lemma wp_write v (s : S) : wp (write v) (λ _ s', cell_value s' = v) s.
Proof. unfold wp, write. by destruct (cell_write_value v s) as (s' & -> & Hv). Qed.

Lemma modify_field_sets f v new (s : S) : set f v (cell_value s) = Some new →
  wp (modify_field f v) (λ _ s', cell_value s' = new) s.
Proof.
  unfold set. destruct (mask f) as [m|] eqn:Em; [|done]. destruct (lower f v) as [l|] eqn:El; [|done].
  cbn. intros [= <-]. unfold modify_field. wp_step. eapply wp_expect; [done|]. wp_step.
  unfold wp at 1, read. rewrite cell_read_value. wp_step. eapply wp_expect; [done|]. apply wp_write.
Qed.

Lemma modify_field_wo_sets f v new (s : S) : set f v 0 = Some new →
  wp (modify_field_wo f v) (λ _ s', cell_value s' = new) s.
Proof.
  unfold set. destruct (mask f) as [m|] eqn:Em; [|done]. destruct (lower f v) as [l|] eqn:El; [|done].
  cbn. intros [= <-]. unfold modify_field_wo. wp_step. eapply wp_expect; [done|]. apply wp_write.
Qed.
End modify.


(** ** Witnesses *)

(** Two words of memory: a read-write register and a write-only one. *)
Definition first_word : Cell (Z * Z) :=
  {| cell_read s := Done (fst s, s); cell_write v s := Done (tt, (v, snd s)) |}.
Definition second_word : Cell (Z * Z) :=
  {| cell_read s := Done (snd s, s); cell_write v s := Done (tt, (fst s, v)) |}.

#[local] Instance first_memory : @MemoryCell (Z * Z) first_word.
Proof. refine {| cell_value s := fst s |}; [done|]. intros v [a b]. by eexists. Defined.
#[local] Instance second_memory : @MemoryCell (Z * Z) second_word.
Proof. refine {| cell_value s := snd s |}; [done|]. intros v [a b]. by eexists. Defined.

Definition demo_register : Register := declare 32 [mkField 32 0 8 FRaw; mkField 32 8 16 FRaw].

