(* ===== verification/GicRegs.v ===== *)
(** * Registers of the interrupt controller

    The declarations of [klib/src/interrupt/gicv3/registers/gic.rs] and the
    register blocks of [klib/src/interrupt/mod.rs]. *)

From stdpp Require Import strings.
From S2P Require Import Prelude Registers.

(** ** Registers *)

Definition GicdCtlr_EnableGroup1 : Field := mkField 32 1 1 FBool.
Definition GicdCtlr_Are : Field := mkField 32 4 1 FBool.
Definition GicdCtlr_RegisterWritePending : Field := mkField 32 31 1 FBool.
Definition GicdCtlr : Register := declare 32 [
  GicdCtlr_EnableGroup1; GicdCtlr_Are; GicdCtlr_RegisterWritePending].

Definition GicdIPriorityr_Priority0 : Field := mkField 32 0 8 (FWiden 8).
Definition GicdIPriorityr : Register := declare 32 [GicdIPriorityr_Priority0].

Definition GicdTyper_ITLinesNumber : Field := mkField 32 0 5 (FWiden 8).
Definition GicdTyper_CPUNumber : Field := mkField 32 5 3 (FWiden 8).
Definition GicdTyper_SecurityExtension : Field := mkField 32 10 1 FBool.
Definition GicdTyper_LPISupport : Field := mkField 32 17 1 FBool.
Definition GicdTyper : Register := declare 32 [
  GicdTyper_ITLinesNumber; GicdTyper_CPUNumber; GicdTyper_SecurityExtension;
  GicdTyper_LPISupport].

Definition GicIcfgr_Interrupts : Field := mkField 32 0 32 (FIcfgr 32).
Definition GicIcfgr : Register := declare 32 [GicIcfgr_Interrupts].

Definition GicBitfield8_Field : Field := mkField 8 0 8 FRaw.
Definition GicBitfield8 : Register := declare 8 [GicBitfield8_Field].

Definition GicBitfield32_Field : Field := mkField 32 0 32 FRaw.
Definition GicBitfield32 : Register := declare 32 [GicBitfield32_Field].

Definition GicBitfield64_Field : Field := mkField 64 0 64 FRaw.
Definition GicBitfield64 : Register := declare 64 [GicBitfield64_Field].

Definition GicdIRouter_Aff0 : Field := mkField 64 0 8 (FWiden 8).
Definition GicdIRouter_Aff1 : Field := mkField 64 8 8 (FWiden 8).
Definition GicdIRouter_Aff2 : Field := mkField 64 16 8 (FWiden 8).
Definition GicdIRouter_RouteToAny : Field := mkField 64 31 1 FBool.
Definition GicdIRouter_Aff3 : Field := mkField 64 32 8 (FWiden 8).
Definition GicdIRouter : Register := declare 64 [
  GicdIRouter_Aff0; GicdIRouter_Aff1; GicdIRouter_Aff2; GicdIRouter_RouteToAny;
  GicdIRouter_Aff3].

Definition GicrWaker_ProcessorSleep : Field := mkField 32 1 1 FBool.
Definition GicrWaker_ChildrenAsleep : Field := mkField 32 2 1 FBool.
Definition GicrWaker : Register := declare 32 [GicrWaker_ProcessorSleep; GicrWaker_ChildrenAsleep].

Definition GicrCtlr_EnableLPIs : Field := mkField 32 0 1 FBool.
Definition GicrCtlr_RegisterWritePending : Field := mkField 32 3 1 FBool.
Definition GicrCtlr_DisableProcessorSelection : Field := mkField 32 25 1 FBool.
Definition GicrCtlr_UpstreamWritePending : Field := mkField 32 31 1 FBool.
Definition GicrCtlr : Register := declare 32 [
  GicrCtlr_EnableLPIs; GicrCtlr_RegisterWritePending; GicrCtlr_DisableProcessorSelection;
  GicrCtlr_UpstreamWritePending].

Definition GicrTyper_PhysicalLPISupport : Field := mkField 64 0 1 FBool.
Definition GicrTyper_DirectLPISupport : Field := mkField 64 3 1 FBool.
Definition GicrTyper_LastRedistributor : Field := mkField 64 4 1 FBool.
Definition GicrTyper_ProcessorNumber : Field := mkField 64 8 16 (FWiden 16).
Definition GicrTyper_CommonLPIAffinity : Field := mkField 64 24 2 (FWiden 8).
Definition GicrTyper_AffinityValue : Field := mkField 64 32 32 (FWiden 32).
Definition GicrTyper : Register := declare 64 [
  GicrTyper_PhysicalLPISupport; GicrTyper_DirectLPISupport; GicrTyper_LastRedistributor;
  GicrTyper_ProcessorNumber; GicrTyper_CommonLPIAffinity; GicrTyper_AffinityValue].

Definition GicrPropBar_IDBits : Field := mkField 64 0 5 (FWiden 8).
Definition GicrPropBar_InnerCacheability : Field := mkField 64 7 3 (FWiden 8).
Definition GicrPropBar_Shareability : Field := mkField 64 10 2 (FWiden 8).
Definition GicrPropBar_PhysicalAddress : Field := mkField 64 12 40 FRaw.
Definition GicrPropBar_OuterCacheability : Field := mkField 64 56 3 (FWiden 8).
Definition GicrPropBar : Register := declare 64 [
  GicrPropBar_IDBits; GicrPropBar_InnerCacheability; GicrPropBar_Shareability;
  GicrPropBar_PhysicalAddress; GicrPropBar_OuterCacheability].

Definition GitsCtlr_Enabled : Field := mkField 32 0 1 FBool.
Definition GitsCtlr_Quiescent : Field := mkField 32 31 1 FBool.
Definition GitsCtlr : Register := declare 32 [GitsCtlr_Enabled; GitsCtlr_Quiescent].

Definition GitsTyper_PhysicalLpiCapable : Field := mkField 64 0 1 FBool.
Definition GitsTyper_ITTEntrySize : Field := mkField 64 4 4 (FWiden 8).
Definition GitsTyper_IDbits : Field := mkField 64 8 5 (FWiden 8).
Definition GitsTyper_Devbits : Field := mkField 64 13 5 (FWiden 8).
Definition GitsTyper_PTA : Field := mkField 64 19 1 FBool.
Definition GitsTyper_HCC : Field := mkField 64 24 8 (FWiden 8).
Definition GitsTyper : Register := declare 64 [
  GitsTyper_PhysicalLpiCapable; GitsTyper_ITTEntrySize; GitsTyper_IDbits; GitsTyper_Devbits;
  GitsTyper_PTA; GitsTyper_HCC].

Definition GitsCbasER_Size : Field := mkField 64 0 8 (FWiden 8).
Definition GitsCbasER_Shareability : Field := mkField 64 10 2 (FWiden 8).
Definition GitsCbasER_PhysicalAddress : Field := mkField 64 12 40 FRaw.
Definition GitsCbasER_OuterCacheability : Field := mkField 64 53 3 (FWiden 8).
Definition GitsCbasER_InnerCacheability : Field := mkField 64 59 3 (FWiden 8).
Definition GitsCbasER_Valid : Field := mkField 64 63 1 FBool.
Definition GitsCbasER : Register := declare 64 [
  GitsCbasER_Size; GitsCbasER_Shareability; GitsCbasER_PhysicalAddress;
  GitsCbasER_OuterCacheability; GitsCbasER_InnerCacheability; GitsCbasER_Valid].

Definition GitsCwriter_Offset : Field := mkField 64 5 15 (FWiden 16).
Definition GitsCwriter_Retry : Field := mkField 64 0 1 FBool.
Definition GitsCwriter : Register := declare 64 [GitsCwriter_Offset; GitsCwriter_Retry].

Definition GitsCreadr_Offset : Field := mkField 64 5 15 (FWiden 16).
Definition GitsCreadr_Stalled : Field := mkField 64 0 1 FBool.
Definition GitsCreadr : Register := declare 64 [GitsCreadr_Offset; GitsCreadr_Stalled].

Definition GitsBaser_Size : Field := mkField 64 0 8 (FWiden 8).
Definition GitsBaser_PageSize : Field := mkField 64 8 2 (FWiden 8).
Definition GitsBaser_Shareability : Field := mkField 64 10 2 (FWiden 8).
Definition GitsBaser_PhysicalAddress : Field := mkField 64 12 36 FRaw.
Definition GitsBaser_OuterCacheability : Field := mkField 64 53 3 (FWiden 8).
Definition GitsBaser_Type : Field := mkField 64 56 3 (FWiden 8).
Definition GitsBaser_InnerCacheability : Field := mkField 64 59 3 (FWiden 8).
Definition GitsBaser_Indirect : Field := mkField 64 62 1 FBool.
Definition GitsBaser_Valid : Field := mkField 64 63 1 FBool.
Definition GitsBaser : Register := declare 64 [
  GitsBaser_Size; GitsBaser_PageSize; GitsBaser_Shareability; GitsBaser_PhysicalAddress;
  GitsBaser_OuterCacheability; GitsBaser_Type; GitsBaser_InnerCacheability;
  GitsBaser_Indirect; GitsBaser_Valid].

Definition LpiProp_Enabled : Field := mkField 8 0 1 FBool.
Definition LpiProp_Priority : Field := mkField 8 2 6 FRaw.
Definition LpiProp : Register := declare 8 [LpiProp_Enabled; LpiProp_Priority].

Definition ItsCmdWord0_Cmd : Field := mkField 64 0 8 (FWiden 8).
Definition ItsCmdWord0_DeviceId : Field := mkField 64 32 32 (FWiden 32).
Definition ItsCmdWord0 : Register := declare 64 [ItsCmdWord0_Cmd; ItsCmdWord0_DeviceId].

Definition ItsMapdWord1_Size : Field := mkField 64 0 5 (FWiden 8).
Definition ItsMapdWord1 : Register := declare 64 [ItsMapdWord1_Size].

Definition ItsMapdWord2_IttAddr : Field := mkField 64 8 44 FRaw.
Definition ItsMapdWord2_Valid : Field := mkField 64 63 1 FBool.
Definition ItsMapdWord2 : Register := declare 64 [ItsMapdWord2_IttAddr; ItsMapdWord2_Valid].

Definition ItsMapcWord2_Icid : Field := mkField 64 0 16 (FWiden 16).
Definition ItsMapcWord2_RdBase : Field := mkField 64 16 36 FRaw.
Definition ItsMapcWord2_Valid : Field := mkField 64 63 1 FBool.
Definition ItsMapcWord2 : Register := declare 64 [
  ItsMapcWord2_Icid; ItsMapcWord2_RdBase; ItsMapcWord2_Valid].

Definition ItsMaptiWord1_EventId : Field := mkField 64 0 32 (FWiden 32).
Definition ItsMaptiWord1_pIntId : Field := mkField 64 32 32 (FWiden 32).
Definition ItsMaptiWord1 : Register := declare 64 [ItsMaptiWord1_EventId; ItsMaptiWord1_pIntId].

Definition ItsMaptiWord2_Icid : Field := mkField 64 0 16 (FWiden 16).
Definition ItsMaptiWord2 : Register := declare 64 [ItsMaptiWord2_Icid].

Definition ItsInvallWord2_Icid : Field := mkField 64 0 16 (FWiden 16).
Definition ItsInvallWord2 : Register := declare 64 [ItsInvallWord2_Icid].

Definition ItsSyncWord2_RdBase : Field := mkField 64 16 36 FRaw.
Definition ItsSyncWord2 : Register := declare 64 [ItsSyncWord2_RdBase].

Definition ItsDiscardWord1_EventId : Field := mkField 64 0 32 (FWiden 32).
Definition ItsDiscardWord1 : Register := declare 64 [ItsDiscardWord1_EventId].

Definition ItsInvWord1_EventId : Field := mkField 64 0 32 (FWiden 32).
Definition ItsInvWord1 : Register := declare 64 [ItsInvWord1_EventId].

Definition gic_registers : list Register := [
  GicdCtlr; GicdIPriorityr; GicdTyper; GicIcfgr; GicBitfield8; GicBitfield32; GicBitfield64;
  GicdIRouter; GicrWaker; GicrCtlr; GicrTyper; GicrPropBar; GitsCtlr; GitsTyper; GitsCbasER;
  GitsCwriter; GitsCreadr; GitsBaser; LpiProp; ItsCmdWord0; ItsMapdWord1; ItsMapdWord2;
  ItsMapcWord2; ItsMaptiWord1; ItsMaptiWord2; ItsInvallWord2; ItsSyncWord2; ItsDiscardWord1;
  ItsInvWord1].

(** ** Register blocks *)

Definition u8s (name : string) (offset n : Z) : StructField := sfield name offset n 1.
Definition u32s (name : string) (offset n : Z) : StructField := sfield name offset (4 * n) 4.
Definition u64s (name : string) (offset n : Z) : StructField := sfield name offset (8 * n) 8.

Definition GicdRegisters : list StructField := [
  u32s "ctl" 0x0000 1; u32s "type_" 0x0004 1; u32s "igroup" 0x0080 32; u32s "iset_enable" 0x0100 32;
  u32s "iclear_enable" 0x0180 32; u32s "iset_pend" 0x0200 32; u32s "iclear_pend" 0x0280 32;
  u32s "iset_active" 0x0300 32; u32s "iclear_active" 0x0380 32; u8s "ipriority" 0x0400 1024;
  u32s "icfg" 0x0C00 64; u64s "irouter" 0x6100 992].
Definition GicdRegisters_end : Z := 0x10000.

Definition GicrRegisters : list StructField := [
  u32s "ctl" 0x0000 1; u64s "type_" 0x0008 1; u32s "wake" 0x0014 1; u64s "set_lpi" 0x0040 1;
  u64s "clear_lpi" 0x0048 1; u64s "property_bar" 0x0070 1; u64s "pending_bar" 0x0078 1;
  u32s "igroup0" 0x10080 1; u32s "iset_enable0" 0x10100 1; u32s "iclear_enable0" 0x10180 1;
  u32s "iset_pend0" 0x10200 1; u32s "iclear_pend0" 0x10280 1; u32s "iset_active0" 0x10300 1;
  u32s "iclear_active0" 0x10380 1; u8s "ipriority" 0x10400 32; u32s "icfg0" 0x10C00 1;
  u32s "icfg1" 0x10C04 1; u32s "igroup_mod" 0x10D00 1].
Definition GicrRegisters_end : Z := 0x20000.

Definition GitsRegisters : list StructField := [
  u32s "ctl" 0x00000 1; u32s "iidr" 0x00004 1; u64s "type_" 0x00008 1; u64s "cbaser" 0x00080 1;
  u64s "cwriter" 0x00088 1; u64s "creadr" 0x00090 1; u64s "baser" 0x00100 8; u32s "translator" 0x10040 1].
Definition GitsRegisters_end : Z := 0x20000.

(** ** The declarations compile *)

Lemma gic_registers_declared : Forall (λ r, declare_register r = true ∧ fields_ok r) gic_registers.
Proof.
  repeat apply Forall_cons_2; try apply Forall_nil_2;
    (split; [by vm_compute|]; split; [done|]; repeat apply Forall_cons_2; done || apply Forall_nil_2).
Qed.

(** Interrupt 16 and above would need bits beyond the register. *)
Lemma icfgr_into_panics vs i bits : 0 ≤ i ≤ 16 → 16 < i + Z.of_nat (length vs) →
  icfgr_into_bits 32 vs i bits = None.
Proof.
  revert i bits. induction vs as [|v vs IH]; intros i bits Hi Hn; simpl in Hn; [lia|].
  cbn [icfgr_into_bits]. unfold shl. destruct (Z.ltb_spec (i * 2) 32); [|done]. simpl. apply IH; lia.
Qed.

(** the interrupt configuration register has two bits for each of 16
    interrupts but is declared with 32: reading its field panics whatever
    the register holds, and so does writing any value of it. *)
Theorem icfgr_access_panics raw (vs : list GicdIcfgrValue) :
  lift GicIcfgr_Interrupts raw = None ∧
  (length vs = 32%nat → lower GicIcfgr_Interrupts vs = None).
Proof.
  split.
  - reflexivity.
  - intros Hl. unfold lower. simpl. rewrite icfgr_into_panics; [done|lia|lia].
Qed.

(** ** Witnesses *)

Lemma icfgr_access_panics_witness :
  lift GicIcfgr_Interrupts 0 = None ∧ lower GicIcfgr_Interrupts (replicate 32 EdgeTriggered) = None.
Proof.
  destruct (icfgr_access_panics 0 (replicate 32 EdgeTriggered)) as [H1 H2].
  split; [exact H1|apply H2; reflexivity].
Defined.

Lemma register_fields_independent_witness : ∃ new,
  set GitsBaser_PhysicalAddress 0x12345 0x0100000000000000 = Some new ∧
  lift GitsBaser_PhysicalAddress new = Some 0x12345 ∧ lift GitsBaser_Type new = Some 1.
Proof.
  destruct (register_fields_independent GitsBaser 3 GitsBaser_PhysicalAddress 0x12345 0x0100000000000000)
    as (new & Hs & _ & Hl & Ho).
  - by vm_compute.
  - pose proof gic_registers_declared as HF. rewrite Forall_forall in HF.
    apply HF. apply (list_elem_of_lookup_2 _ 17). reflexivity.
  - reflexivity.
  - reflexivity.
  - done.
  - exists new. split_and!; [exact Hs|exact Hl|]. by rewrite (Ho 5%nat) by done.
Defined.

Lemma builder_spec_witness : ∃ new,
  builder [upd GicrPropBar_IDBits 14; upd GicrPropBar_Shareability 1; upd GicrPropBar_PhysicalAddress 77] 0
    = Some new ∧
  lift GicrPropBar_IDBits new = Some 14 ∧ lift GicrPropBar_PhysicalAddress new = Some 77.
Proof.
  destruct (builder_spec GicrPropBar
    [upd GicrPropBar_IDBits 14; upd GicrPropBar_Shareability 1; upd GicrPropBar_PhysicalAddress 77] 0)
    as (new & Hb & _ & Hin & _).
  - by vm_compute.
  - pose proof gic_registers_declared as HF. rewrite Forall_forall in HF.
    apply HF. apply (list_elem_of_lookup_2 _ 11). reflexivity.
  - repeat apply Forall_cons_2; try apply Forall_nil_2;
      (split; [|reflexivity]); [apply (list_elem_of_lookup_2 _ 0)|apply (list_elem_of_lookup_2 _ 2)
      |apply (list_elem_of_lookup_2 _ 3)]; reflexivity.
  - apply (bool_decide_unpack _). by vm_compute.
  - done.
  - exists new. split_and!; [exact Hb|apply Hin, (list_elem_of_lookup_2 _ 0)|apply Hin, (list_elem_of_lookup_2 _ 2)]; reflexivity.
Defined.

Lemma declare_structs_layout_witness : struct_layout 0 0 GicdRegisters = sf_offset <$> GicdRegisters.
Proof.
  apply (declare_structs_layout GicdRegisters GicdRegisters_end).
  - by vm_compute.
  - apply (bool_decide_unpack _). by vm_compute.
Defined.

(** A register in memory. *)
#[local] Instance memory_word : Cell Z := {| cell_read := λ s, Done (s, s); cell_write := λ v _, Done (tt, v) |}.
#[local] Instance word_memory : MemoryCell Z.
Proof. refine {| cell_value := λ s, s |}; [done|]. intros v s. by exists v. Defined.

Lemma modify_read_field_witness :
  wp (modify_field GicdCtlr_Are true ;; read_field GicdCtlr_Are)
     (λ v' s', v' = true ∧ 0 ≤ cell_value s' < 2 ^ BITS GicdCtlr_Are) 2.
Proof. refine (modify_read_field GicdCtlr_Are true 2 _ _ _); [done|reflexivity|done]. Defined.
