(* ===== verification/Lpi.v ===== *)
(** * The LPI allocator

    Models [klib/src/interrupt/gicv3/lpi_alloc.rs]: a bitmap of interrupt ids
    with a hint below which no id is free. *)

From S2P Require Import Prelude.

Record LpiAllocator := {
  bitmap : list Z;
  base_id : Z;
  max_id : Z;
  hint : Z
}.

Definition set_bitmap (b : list Z) (a : LpiAllocator) : LpiAllocator :=
  {| bitmap := b; base_id := base_id a; max_id := max_id a; hint := hint a |}.
Definition set_hint (h : Z) (a : LpiAllocator) : LpiAllocator :=
  {| bitmap := bitmap a; base_id := base_id a; max_id := max_id a; hint := h |}.

Definition new (base max : Z) : option LpiAllocator :=
  d ← checked_sub max base;
  count ← checked_add 32 d 1;
  c ← checked_add 32 count 63;
  Some {| bitmap := replicate (Z.to_nat (c / 64)) 0; base_id := base; max_id := max; hint := 0 |}.

Definition get_word (i : Z) : M LpiAllocator Z :=
  let* a := get in expect (bitmap a !! Z.to_nat i).
Definition set_word (i w : Z) : M LpiAllocator unit :=
  modify (λ a, set_bitmap (<[Z.to_nat i := w]> (bitmap a)) a).

(** [for i in 0..words], from iteration [k] on. *)
Fixpoint alloc_loop (n : nat) (k : Z) : M LpiAllocator (option Z) :=
  match n with
  | O => ret None
  | S n' =>
      let* a := get in
      let i := (hint a + k) mod Z.of_nat (length (bitmap a)) in
      let* word := get_word i in
      if negb (word =? Z.ones 64) then
        let bit := trailing_zeros 64 (unot 64 word) in
        set_word i (Z.lor word (Z.shiftl 1 bit)) ;;
        modify (set_hint i) ;;
        let* x := expect (checked_add 32 (base_id a) (i * 64)) in
        let* id := expect (checked_add 32 x bit) in
        if max_id a <? id then
          let* w := get_word i in
          set_word i (Z.land w (unot 64 (Z.shiftl 1 bit))) ;;
          alloc_loop n' (k + 1)
        else ret (Some id)
      else alloc_loop n' (k + 1)
  end.

Definition alloc : M LpiAllocator (option Z) :=
  let* a := get in alloc_loop (length (bitmap a)) 0.

Definition in_ids (a : LpiAllocator) (id : Z) : bool := (base_id a <=? id) && (id <=? max_id a).

(** [Result<(), ()>] as a boolean: [true] is [Ok]. *)
Definition reserve (id : Z) : M LpiAllocator bool :=
  let* a := get in
  if negb (in_ids a id) then ret false else
  let offset := id - base_id a in
  let i := offset / 64 in
  let bit := offset mod 64 in
  let* w := get_word i in
  if negb (Z.land w (Z.shiftl 1 bit) =? 0) then ret false else
  set_word i (Z.lor w (Z.shiftl 1 bit)) ;;
  ret true.

Definition free (id : Z) : M LpiAllocator unit :=
  let* a := get in
  if negb (in_ids a id) then ret tt else
  let offset := id - base_id a in
  let i := offset / 64 in
  let bit := offset mod 64 in
  let* w := get_word i in
  set_word i (Z.land w (unot 64 (Z.shiftl 1 bit))) ;;
  let* a' := get in
  if i <? hint a' then modify (set_hint i) else ret tt.

(** ** The abstraction: which ids are taken *)

Definition bit_at (a : LpiAllocator) (j : Z) : bool :=
  match bitmap a !! Z.to_nat (j / 64) with Some w => Z.testbit w (j mod 64) | None => false end.

Definition used (a : LpiAllocator) (id : Z) : bool :=
  in_ids a id && bit_at a (id - base_id a).

Definition count (a : LpiAllocator) : Z := max_id a - base_id a + 1.

Record lpi_inv (a : LpiAllocator) : Prop := {
  li_words : Forall (λ w, 0 ≤ w < 2 ^ 64) (bitmap a);
  li_ids : 0 ≤ base_id a ∧ base_id a ≤ max_id a ∧ max_id a + 64 < 2 ^ 32;
  li_length : Z.of_nat (length (bitmap a)) = (count a + 63) / 64;
  li_hint : 0 ≤ hint a < Z.of_nat (length (bitmap a));
  li_full j : 0 ≤ j < hint a * 64 → bit_at a j = true;
  li_clear j : count a ≤ j → bit_at a j = false
}.

(** Same ids taken, same range. *)
Definition same_used (a a' : LpiAllocator) : Prop :=
  base_id a' = base_id a ∧ max_id a' = max_id a ∧ ∀ j, 0 ≤ j → bit_at a' j = bit_at a j.

(** ** Bits *)

Lemma pos_trailing_zeros_bits p :
  0 ≤ pos_trailing_zeros p ∧ Z.testbit (Z.pos p) (pos_trailing_zeros p) = true ∧
  ∀ i, 0 ≤ i < pos_trailing_zeros p → Z.testbit (Z.pos p) i = false.
Proof.
  induction p as [p _|p (H0 & H1 & H2)|]; simpl; [split_and!; [done..|lia]| |split_and!; [done..|lia]].
  split; [lia|]. change (Z.pos p~0) with (2 * Z.pos p). split.
  - rewrite Z.add_1_l, Z.double_bits_succ. done.
  - intros i Hi. destruct (decide (i = 0)) as [->|]; [by rewrite Z.testbit_even_0|].
    replace i with (Z.succ (i - 1)) by lia. rewrite Z.double_bits_succ. apply H2. lia.
Qed.

Lemma lowest_zero_bit word (bit := trailing_zeros 64 (unot 64 word)) :
  0 ≤ word < 2 ^ 64 → word ≠ Z.ones 64 →
  0 ≤ bit < 64 ∧ Z.testbit word bit = false ∧ ∀ i, 0 ≤ i < bit → Z.testbit word i = true.
Proof.
  intros Hw Hne. subst bit.
  assert (∀ i, 0 ≤ i → Z.testbit (unot 64 word) i = if decide (i < 64) then negb (Z.testbit word i) else false) as Hb.
  { intros i Hi. rewrite unot_spec by lia. case_decide; [done|]. apply (testbit_above _ 64); lia. }
  destruct (unot 64 word) as [|p|p] eqn:E.
  - exfalso. apply Hne. apply Z.bits_inj'. intros i Hi. specialize (Hb i Hi).
    rewrite Z.bits_0 in Hb. rewrite testbit_ones by lia. destruct (Z.ltb_spec i 64).
    + rewrite decide_True in Hb by lia. by destruct (Z.testbit word i).
    + apply (testbit_above _ 64); lia.
  - simpl. destruct (pos_trailing_zeros_bits p) as (H0 & H1 & H2).
    assert (pos_trailing_zeros p < 64) as Hlt.
    { specialize (Hb _ H0). rewrite H1 in Hb. by case_decide. }
    split; [lia|]. split.
    + specialize (Hb _ H0). rewrite H1, decide_True in Hb by lia. by destruct (Z.testbit word _).
    + intros i Hi. specialize (Hb i ltac:(lia)). rewrite H2, decide_True in Hb by lia.
      by destruct (Z.testbit word i).
  - assert (0 ≤ unot 64 word) as Hn; [|rewrite E in Hn; lia].
    unfold unot. apply Z.lxor_nonneg. split; intros _; [|lia]. by vm_compute.
Qed.

(** [a'] is [a] with the bit of offset [j] set to [b]. *)
Definition bit_set (a a' : LpiAllocator) (j : Z) (b : bool) : Prop :=
  base_id a' = base_id a ∧ max_id a' = max_id a ∧ length (bitmap a') = length (bitmap a) ∧
  Forall (λ w, 0 ≤ w < 2 ^ 64) (bitmap a') ∧
  ∀ j', 0 ≤ j' → bit_at a' j' = if decide (j' = j) then b else bit_at a j'.

Lemma word_replaced a j w w' (b : bool) : 0 ≤ j → bitmap a !! Z.to_nat (j / 64) = Some w →
  Forall (λ w, 0 ≤ w < 2 ^ 64) (bitmap a) → 0 ≤ w' < 2 ^ 64 →
  (∀ i, 0 ≤ i < 64 → Z.testbit w' i = if decide (i = j mod 64) then b else Z.testbit w i) →
  bit_set a (set_bitmap (<[Z.to_nat (j / 64) := w']> (bitmap a)) a) j b.
Proof.
  intros Hj Hw HF Hw' Hb. split_and!; simpl; [done|done|apply length_insert|by apply Forall_insert|].
  intros j' Hj'. unfold bit_at. simpl. destruct (decide (j' / 64 = j / 64)) as [E|E].
  - rewrite E, list_lookup_insert_eq, Hw by (by eapply lookup_lt_Some).
    rewrite Hb by (apply Z.mod_pos_bound; lia).
    pose proof (Z.div_mod j 64 ltac:(lia)). pose proof (Z.div_mod j' 64 ltac:(lia)).
    repeat case_decide; (done || lia).
  - rewrite list_lookup_insert_ne.
    + rewrite decide_False; [done|]. by intros ->.
    + pose proof (Z.div_pos j 64 Hj ltac:(lia)). pose proof (Z.div_pos j' 64 Hj' ltac:(lia)). lia.
Qed.

Lemma lor_bit w i : 0 ≤ w < 2 ^ 64 → 0 ≤ i < 64 → 0 ≤ Z.lor w (Z.shiftl 1 i) < 2 ^ 64 ∧
  ∀ k, 0 ≤ k → Z.testbit (Z.lor w (Z.shiftl 1 i)) k = if decide (k = i) then true else Z.testbit w k.
Proof.
  intros Hw Hi. replace (Z.lor w (Z.shiftl 1 i)) with (set_bits i 1 1 w).
  - split; [apply set_bits_range; lia|]. intros k Hk. rewrite testbit_set_bits by lia.
    case_decide as E; [subst|].
    + rewrite (proj2 (Z.leb_le _ _)), (proj2 (Z.ltb_lt _ _)) by lia. simpl. by rewrite Z.sub_diag.
    + destruct (Z.leb_spec i k), (Z.ltb_spec k (i + 1)); simpl; (done || lia).
  - apply Z.bits_inj'. intros k Hk. rewrite testbit_set_bits, Z.lor_spec, Z.shiftl_spec by lia.
    destruct (decide (k = i)) as [->|E].
    + rewrite (proj2 (Z.leb_le _ _)), (proj2 (Z.ltb_lt _ _)), Z.sub_diag by lia. simpl. by rewrite orb_true_r.
    + replace (Z.testbit 1 (k - i)) with false; [rewrite orb_false_r|].
      * destruct (Z.leb_spec i k), (Z.ltb_spec k (i + 1)); simpl; (done || lia).
      * destruct (Z.lt_ge_cases (k - i) 0); [by rewrite Z.testbit_neg_r|].
        symmetry. apply (testbit_above 1 1); lia.
Qed.

Lemma clear_bit w i : 0 ≤ w < 2 ^ 64 → 0 ≤ i < 64 → 0 ≤ Z.land w (unot 64 (Z.shiftl 1 i)) < 2 ^ 64 ∧
  ∀ k, 0 ≤ k → Z.testbit (Z.land w (unot 64 (Z.shiftl 1 i))) k = if decide (k = i) then false else Z.testbit w k.
Proof.
  intros Hw Hi. rewrite land_unot by lia.
  replace (Z.ldiff w (Z.shiftl 1 i)) with (set_bits i 1 0 w).
  - split; [apply set_bits_range; lia|]. intros k Hk. rewrite testbit_set_bits by lia.
    case_decide as E; [subst|].
    + rewrite (proj2 (Z.leb_le _ _)), (proj2 (Z.ltb_lt _ _)) by lia. simpl. by rewrite Z.bits_0.
    + destruct (Z.leb_spec i k), (Z.ltb_spec k (i + 1)); simpl; (done || lia).
  - unfold set_bits. rewrite Z.land_0_l, Z.shiftl_0_l, Z.lor_0_r. done.
Qed.

Lemma get_word_at a j : lpi_inv a → 0 ≤ j < Z.of_nat (length (bitmap a)) * 64 →
  ∃ w, bitmap a !! Z.to_nat (j / 64) = Some w ∧ 0 ≤ w < 2 ^ 64 ∧ Z.testbit w (j mod 64) = bit_at a j.
Proof.
  intros I Hj. assert (Z.to_nat (j / 64) < length (bitmap a))%nat as Hlt.
  { pose proof (Z.div_lt_upper_bound j 64 (Z.of_nat (length (bitmap a)))).
    pose proof (Z.div_pos j 64). lia. }
  apply lookup_lt_is_Some in Hlt as [w Hw]. exists w. split; [done|]. split.
  - by apply (Forall_lookup_1 _ _ _ _ (li_words _ I) Hw).
  - unfold bit_at. by rewrite Hw.
Qed.

(** ** Allocation *)

Lemma restore_bit w i : 0 ≤ w < 2 ^ 64 → 0 ≤ i < 64 → Z.testbit w i = false →
  Z.land (Z.lor w (Z.shiftl 1 i)) (unot 64 (Z.shiftl 1 i)) = w.
Proof.
  intros Hw Hi Hb. destruct (lor_bit w i Hw Hi) as [Hr Hl].
  destruct (clear_bit (Z.lor w (Z.shiftl 1 i)) i Hr Hi) as [_ Hc].
  apply Z.bits_inj'. intros k Hk. rewrite Hc, Hl by done. by case_decide; subst.
Qed.

Lemma count_length a : lpi_inv a → count a ≤ Z.of_nat (length (bitmap a)) * 64 < count a + 64.
Proof. intros I. rewrite (li_length _ I). Z.div_mod_to_equations. lia. Qed.

Lemma set_hint_inv a i : lpi_inv a → 0 ≤ i < Z.of_nat (length (bitmap a)) →
  (∀ j, 0 ≤ j < i * 64 → bit_at a j = true) → lpi_inv (set_hint i a).
Proof. intros [H1 H2 H3 H4 H5 H6] Hi Hf. by split. Qed.

(** One iteration: a full word is skipped; an id beyond the range is put
    back; otherwise the id is taken. *)
Lemma wp_alloc_iteration n k a i w (bit := trailing_zeros 64 (unot 64 w)) (Q : option Z → LpiAllocator → Prop) :
  lpi_inv a → i = (hint a + k) mod Z.of_nat (length (bitmap a)) →
  bitmap a !! Z.to_nat i = Some w →
  (w = Z.ones 64 → wp (alloc_loop n (k + 1)) Q a) →
  (w ≠ Z.ones 64 → count a ≤ i * 64 + bit → wp (alloc_loop n (k + 1)) Q (set_hint i a)) →
  (w ≠ Z.ones 64 → i * 64 + bit < count a → ∀ a', bit_set a a' (i * 64 + bit) true → hint a' = i →
     Q (Some (base_id a + (i * 64 + bit))) a') →
  wp (alloc_loop (S n) k) Q a.
Proof.
  intros I Ei Hw Hfull Hover Htake. cbn [alloc_loop].
  pose proof (Forall_lookup_1 _ _ _ _ (li_words _ I) Hw) as Hwr. simpl in Hwr.
  pose proof (lookup_lt_Some _ _ _ Hw) as Hlt.
  assert (0 ≤ i < Z.of_nat (length (bitmap a))) as Hi.
  { rewrite Ei. apply Z.mod_pos_bound. pose proof (li_hint _ I). lia. }
  wp_step. apply wp_get. cbv zeta. rewrite <- Ei. wp_step. unfold get_word. wp_step. apply wp_get.
  eapply wp_expect; [exact Hw|]. destruct (Z.eqb_spec w (Z.ones 64)) as [E|E]; simpl negb; cbv iota.
  { by apply Hfull. }
  destruct (lowest_zero_bit w Hwr E) as (Hb & Hz & _). fold bit in Hb, Hz |- *.
  destruct (lor_bit w bit Hwr Hb) as [Hlr Hl].
  assert ((i * 64 + bit) / 64 = i) as Ed by (rewrite Z.add_comm, Z.div_add, Z.div_small; lia).
  assert ((i * 64 + bit) mod 64 = bit) as Em by (rewrite Z.add_comm, Z.mod_add, Z.mod_small; lia).
  pose proof (li_ids _ I) as Hids. pose proof (count_length a I) as Hcl. unfold count in *.
  wp_step. apply wp_modify. wp_step. apply wp_modify. wp_step.
  eapply wp_expect; [unfold checked_add; rewrite (proj2 (Z.ltb_lt _ _)); [done|lia]|].
  wp_step. eapply wp_expect; [unfold checked_add; rewrite (proj2 (Z.ltb_lt _ _)); [done|lia]|].
  destruct (Z.ltb_spec (max_id a) (base_id a + i * 64 + bit)) as [Hgt|Hle].
  - wp_step. unfold get_word. wp_step. apply wp_get. simpl.
    eapply wp_expect; [by apply list_lookup_insert_eq|]. wp_step. apply wp_modify. simpl.
    unfold set_bitmap, set_hint. simpl. rewrite list_insert_insert_eq, restore_bit by done.
    rewrite list_insert_id by done. apply Hover; [done|lia].
  - wp_step. replace (base_id a + i * 64 + bit) with (base_id a + (i * 64 + bit)) by lia.
    apply Htake; [done|lia| |done].
    pose proof (word_replaced a (i * 64 + bit) w (Z.lor w (Z.shiftl 1 bit)) true) as Hr.
    rewrite Ed, Em in Hr. specialize (Hr ltac:(lia) Hw (li_words _ I) Hlr).
    destruct Hr as (R1 & R2 & R3 & R4 & R5); [intros; apply Hl; lia|]. by split_and!.
Qed.

(** All ids of the range are taken. *)
Definition exhausted (a : LpiAllocator) : Prop := ∀ j, 0 ≤ j < count a → bit_at a j = true.

Lemma same_used_refl a : same_used a a.
Proof. by split_and!. Qed.

Lemma full_word_bit a i w j : bitmap a !! Z.to_nat i = Some w → w = Z.ones 64 → 0 ≤ i →
  i * 64 ≤ j < (i + 1) * 64 → bit_at a j = true.
Proof.
  intros Hw -> Hi Hj. unfold bit_at. replace (j / 64) with i by (Z.div_mod_to_equations; lia).
  rewrite Hw, testbit_ones by (lia || apply Z.mod_pos_bound; lia). apply Z.ltb_lt, Z.mod_pos_bound. lia.
Qed.

Lemma low_bits_set a i w j : lpi_inv a → bitmap a !! Z.to_nat i = Some w → w ≠ Z.ones 64 → 0 ≤ i →
  i * 64 ≤ j < i * 64 + trailing_zeros 64 (unot 64 w) → bit_at a j = true.
Proof.
  intros I Hw Hne Hi Hj. pose proof (Forall_lookup_1 _ _ _ _ (li_words _ I) Hw) as Hwr. simpl in Hwr.
  destruct (lowest_zero_bit w Hwr Hne) as (Hb & _ & Hlow).
  unfold bit_at. replace (j / 64) with i by (Z.div_mod_to_equations; lia).
  rewrite Hw. apply Hlow. replace (j mod 64) with (j - i * 64) by (Z.div_mod_to_equations; lia). lia.
Qed.

Lemma zero_bit_at a i w : lpi_inv a → bitmap a !! Z.to_nat i = Some w → w ≠ Z.ones 64 → 0 ≤ i →
  bit_at a (i * 64 + trailing_zeros 64 (unot 64 w)) = false.
Proof.
  intros I Hw Hne Hi. pose proof (Forall_lookup_1 _ _ _ _ (li_words _ I) Hw) as Hwr. simpl in Hwr.
  destruct (lowest_zero_bit w Hwr Hne) as (Hb & Hz & _). unfold bit_at.
  rewrite Z.add_comm, Z.div_add, Z.div_small, Z.mod_add, Z.mod_small, Z.add_0_l by lia. by rewrite Hw.
Qed.

Lemma word_index a k : lpi_inv a → let i := (hint a + k) mod Z.of_nat (length (bitmap a)) in
  0 ≤ i < Z.of_nat (length (bitmap a)) ∧ ∃ w, bitmap a !! Z.to_nat i = Some w.
Proof.
  intros I i. assert (0 ≤ i < Z.of_nat (length (bitmap a))) as Hi.
  { apply Z.mod_pos_bound. pose proof (li_hint _ I). lia. }
  split; [done|]. apply lookup_lt_is_Some. lia.
Qed.

Lemma wp_alloc_exhausted n k a : lpi_inv a → exhausted a →
  wp (alloc_loop n k) (λ r a', r = None ∧ lpi_inv a' ∧ same_used a a') a.
Proof.
  revert k a. induction n as [|n IH]; intros k a I Hex.
  { simpl. wp_steps. by split_and!. }
  destruct (word_index a k I) as [Hi [w Hw]].
  eapply (wp_alloc_iteration n k a _ w); [done|done|done|by intros; apply IH| |].
  - intros Hne Hge. set (i := (hint a + k) mod _) in *.
    eapply wp_mono; [apply (IH (k + 1) (set_hint i a))|].
    + apply set_hint_inv; [done|done|]. intros j Hj. pose proof (count_length a I).
      apply Hex. lia.
    + exact Hex.
    + intros r a' (-> & I' & Hs). by split_and!.
  - intros Hne Hlt. exfalso. set (i := (hint a + k) mod _) in *.
    pose proof (zero_bit_at a i w I Hw Hne ltac:(lia)) as Hz.
    rewrite Hex in Hz; [done|]. split; [|done].
    pose proof (Forall_lookup_1 _ _ _ _ (li_words _ I) Hw) as Hwr. simpl in Hwr.
    destruct (lowest_zero_bit w Hwr Hne). lia.
Qed.

(** The least free id. *)
Definition least_free (a : LpiAllocator) (j : Z) : Prop :=
  0 ≤ j < count a ∧ bit_at a j = false ∧ ∀ j', 0 ≤ j' < j → bit_at a j' = true.

Lemma taken_inv a a' j : lpi_inv a → bit_set a a' j true → least_free a j → hint a' = j / 64 → lpi_inv a'.
Proof.
  intros I (B1 & B2 & B3 & B4 & B5) (Hj & Hz & Hlow) Hh. pose proof (count_length a I).
  split; [done|by rewrite B1, B2; apply I|unfold count; rewrite B1, B2, B3; apply I| | |].
  - rewrite Hh, B3. split; [by apply Z.div_pos; lia|]. apply Z.div_lt_upper_bound; lia.
  - intros j' Hj'. rewrite B5 by lia. case_decide; [done|]. apply Hlow. rewrite Hh in Hj'.
    Z.div_mod_to_equations. lia.
  - unfold count. rewrite B1, B2. fold (count a). intros j' Hj'. rewrite B5 by lia.
    rewrite decide_False by lia. by apply I.
Qed.

Lemma wp_alloc_loop n k a : lpi_inv a → 0 ≤ k → k + Z.of_nat n = Z.of_nat (length (bitmap a)) →
  (∀ j, 0 ≤ j < (hint a + k) * 64 → j < Z.of_nat (length (bitmap a)) * 64 → bit_at a j = true) →
  wp (alloc_loop n k) (λ r a', lpi_inv a' ∧
    match r with
    | Some id => least_free a (id - base_id a) ∧ bit_set a a' (id - base_id a) true
    | None => exhausted a ∧ same_used a a'
    end) a.
Proof.
  revert k. induction n as [|n IH]; intros k I Hk Hn Hlow; pose proof (count_length a I) as Hcl;
    pose proof (li_hint _ I) as Hh.
  { simpl. wp_steps. split; [done|]. split; [|apply same_used_refl]. intros j Hj. apply Hlow; lia. }
  destruct (Z.lt_ge_cases (hint a + k) (Z.of_nat (length (bitmap a)))) as [Hlt|Hge].
  2:{ assert (exhausted a) as Hex by (intros j Hj; apply Hlow; lia).
      eapply wp_mono; [by apply wp_alloc_exhausted|]. intros r a' (-> & I' & Hs). by split. }
  destruct (word_index a k I) as [Hi [w Hw]]. rewrite Z.mod_small in Hi, Hw by lia.
  assert (Z.of_nat (length (bitmap a)) ≠ 0) as Hne0 by lia.
  eapply (wp_alloc_iteration n k a (hint a + k) w); [done|by rewrite Z.mod_small by lia|done| | |].
  - intros E. apply IH; [done|lia|lia|]. intros j Hj _.
    destruct (Z.lt_ge_cases j ((hint a + k) * 64)); [apply Hlow; lia|].
    eapply full_word_bit; [exact Hw|done|lia|lia].
  - intros Hne Hover.
    assert (exhausted a) as Hex.
    { intros j Hj. destruct (Z.lt_ge_cases j ((hint a + k) * 64)); [apply Hlow; lia|].
      apply (low_bits_set a (hint a + k) w); (done || lia). }
    eapply wp_mono; [apply (wp_alloc_exhausted n (k + 1) (set_hint (hint a + k) a))|].
    + apply set_hint_inv; [done|lia|]. intros j Hj. apply Hlow; lia.
    + exact Hex.
    + intros r a' (-> & I' & Hs). by split.
  - intros Hne Hin a' Hb Hh'. set (j := (hint a + k) * 64 + _) in *.
    assert (least_free a j) as Hl.
    { pose proof (Forall_lookup_1 _ _ _ _ (li_words _ I) Hw) as Hwr. simpl in Hwr.
      destruct (lowest_zero_bit w Hwr Hne) as (Hbit & _). split; [lia|]. split; [by apply zero_bit_at; [..|lia]|].
      intros j' Hj'. destruct (Z.lt_ge_cases j' ((hint a + k) * 64)); [apply Hlow; lia|].
      apply (low_bits_set a (hint a + k) w); (done || lia). }
    replace (base_id a + j - base_id a) with j by lia. split; [|done].
    eapply taken_inv; [exact I|done|done|]. rewrite Hh'. unfold j.
    pose proof (Forall_lookup_1 _ _ _ _ (li_words _ I) Hw) as Hwr. simpl in Hwr.
    destruct (lowest_zero_bit w Hwr Hne) as (Hbit & _). clear -Hbit. Z.div_mod_to_equations. lia.
Qed.

(** ** Reserving and freeing *)

Lemma in_ids_spec a id : in_ids a id = true ↔ base_id a ≤ id ≤ max_id a.
Proof. unfold in_ids. rewrite andb_true_iff, !Z.leb_le. done. Qed.

Lemma used_spec a id : used a id = true ↔ base_id a ≤ id ≤ max_id a ∧ bit_at a (id - base_id a) = true.
Proof. unfold used. by rewrite andb_true_iff, in_ids_spec. Qed.

Lemma test_bit w i : 0 ≤ i < 64 → 0 ≤ w → negb (Z.land w (Z.shiftl 1 i) =? 0) = Z.testbit w i.
Proof.
  intros Hi Hw. destruct (Z.testbit w i) eqn:E.
  - apply negb_true_iff, Z.eqb_neq. intros H0. apply (f_equal (λ z, Z.testbit z i)) in H0.
    rewrite Z.land_spec, E, Z.shiftl_spec, Z.sub_diag, Z.bits_0 in H0 by lia. done.
  - apply negb_false_iff, Z.eqb_eq, Z.bits_inj'. intros k Hk.
    rewrite Z.land_spec, Z.bits_0, Z.shiftl_spec by lia. destruct (decide (k = i)) as [->|Hne]; [by rewrite E|].
    apply andb_false_iff. right. destruct (Z.lt_ge_cases (k - i) 0); [by rewrite Z.testbit_neg_r|].
    apply (testbit_above 1 1); lia.
Qed.

Lemma reserved_inv a a' j : lpi_inv a → bit_set a a' j true → 0 ≤ j < count a → hint a' = hint a → lpi_inv a'.
Proof.
  intros I (B1 & B2 & B3 & B4 & B5) Hj Hh.
  split; [done|by rewrite B1, B2; apply I|unfold count; rewrite B1, B2, B3; apply I|by rewrite Hh, B3; apply I| |].
  - intros j' Hj'. rewrite B5 by lia. case_decide; [done|]. apply I. by rewrite <- Hh.
  - unfold count. rewrite B1, B2. fold (count a). intros j' Hj'. rewrite B5 by lia.
    rewrite decide_False by lia. by apply I.
Qed.

Lemma freed_inv a a' j : lpi_inv a → bit_set a a' j false → 0 ≤ j < count a →
  hint a' = Z.min (hint a) (j / 64) → lpi_inv a'.
Proof.
  intros I (B1 & B2 & B3 & B4 & B5) Hj Hh. pose proof (li_hint _ I). pose proof (Z.div_pos j 64).
  split; [done|by rewrite B1, B2; apply I|unfold count; rewrite B1, B2, B3; apply I|rewrite Hh, B3; lia| |].
  - intros j' Hj'. rewrite B5 by lia. rewrite decide_False; [apply I; lia|]. intros ->.
    Z.div_mod_to_equations. lia.
  - unfold count. rewrite B1, B2. fold (count a). intros j' Hj'. rewrite B5 by lia.
    rewrite decide_False by lia. by apply I.
Qed.

Lemma wp_reserve id a : lpi_inv a →
  wp (reserve id) (λ ok a', lpi_inv a' ∧ ok = in_ids a id && negb (used a id) ∧
    if ok then bit_set a a' (id - base_id a) true else a' = a) a.
Proof.
  intros I. unfold reserve. wp_step. apply wp_get. unfold used. destruct (in_ids a id) eqn:E; simpl; [|by wp_steps].
  apply in_ids_spec in E. set (j := id - base_id a).
  pose proof (count_length a I) as Hcl. unfold count in Hcl.
  destruct (get_word_at a j I ltac:(unfold j; lia)) as (w & Hw & Hwr & Hb).
  pose proof (Z.mod_pos_bound j 64 ltac:(lia)) as Hm. 
  wp_step. unfold get_word. wp_step. apply wp_get. eapply wp_expect; [exact Hw|].
  rewrite test_bit, Hb by lia. destruct (bit_at a j) eqn:Eb; simpl; [by wp_steps|].
  wp_step. apply wp_modify. wp_step. destruct (lor_bit w (j mod 64) Hwr Hm) as [Hlr Hl].
  assert (bit_set a (set_bitmap (<[Z.to_nat (j / 64) := Z.lor w (Z.shiftl 1 (j mod 64))]> (bitmap a)) a) j true) as Hs.
  { apply (word_replaced a j w); [unfold j; lia|done|apply I|done|]. intros i Hi. apply Hl. lia. }
  split; [|by split]. eapply reserved_inv; [exact I|exact Hs|unfold count, j; lia|done].
Qed.

Lemma wp_free id a : lpi_inv a →
  wp (free id) (λ _ a', lpi_inv a' ∧
    if in_ids a id then bit_set a a' (id - base_id a) false else a' = a) a.
Proof.
  intros I. unfold free. wp_step. apply wp_get. destruct (in_ids a id) eqn:E; simpl; [|by wp_steps].
  apply in_ids_spec in E. set (j := id - base_id a).
  pose proof (count_length a I) as Hcl. unfold count in Hcl.
  destruct (get_word_at a j I ltac:(unfold j; lia)) as (w & Hw & Hwr & Hb).
  pose proof (Z.mod_pos_bound j 64 ltac:(lia)) as Hm.
  wp_step. unfold get_word. wp_step. apply wp_get. eapply wp_expect; [exact Hw|].
  wp_step. apply wp_modify. wp_step. apply wp_get. destruct (clear_bit w (j mod 64) Hwr Hm) as [Hlr Hl].
  set (a1 := set_bitmap _ a).
  assert (bit_set a a1 j false) as Hs.
  { apply (word_replaced a j w); [unfold j; lia|done|apply I|done|]. intros i Hi. apply Hl. lia. }
  simpl hint. destruct (Z.ltb_spec (j / 64) (hint a)) as [Hlt|Hge].
  - apply wp_modify. split; [|exact Hs]. eapply freed_inv; [exact I|exact Hs|unfold count, j; lia|simpl; lia].
  - wp_steps. split; [|exact Hs]. eapply freed_inv; [exact I|exact Hs|unfold count, j; lia|simpl; lia].
Qed.

Lemma bit_set_used a a' id b : base_id a ≤ id ≤ max_id a → bit_set a a' (id - base_id a) b →
  ∀ i, used a' i = if decide (i = id) then b else used a i.
Proof.
  intros Hid (B1 & B2 & _ & _ & B5) i. unfold used, in_ids. rewrite B1, B2. fold (in_ids a i).
  destruct (in_ids a i) eqn:E; simpl.
  - apply in_ids_spec in E. rewrite B5 by lia. repeat case_decide; (done || lia).
  - case_decide; [subst|done]. by rewrite (proj2 (in_ids_spec a id)) in E.
Qed.

Lemma same_used_used a a' : same_used a a' → ∀ i, used a' i = used a i.
Proof.
  intros (E1 & E2 & Hb) i. unfold used, in_ids. rewrite E1, E2. destruct (Z.leb_spec (base_id a) i); simpl; [|done].
  by rewrite Hb by lia.
Qed.

Lemma wp_alloc a : lpi_inv a →
  wp alloc (λ r a', lpi_inv a' ∧
    match r with
    | Some id => base_id a ≤ id ≤ max_id a ∧ used a id = false ∧
        (∀ i, base_id a ≤ i < id → used a i = true) ∧
        (∀ i, used a' i = if decide (i = id) then true else used a i)
    | None => (∀ i, base_id a ≤ i ≤ max_id a → used a i = true) ∧ (∀ i, used a' i = used a i)
    end) a.
Proof.
  intros I. unfold alloc. wp_step. apply wp_get.
  eapply wp_mono; [apply wp_alloc_loop; [done|lia|lia|]|].
  - intros j Hj _. apply I. lia.
  - intros [id|] a' [I' H]; (split; [done|]).
    + destruct H as [(Hj & Hz & Hl) Hs]. unfold count in Hj.
      assert (base_id a ≤ id ≤ max_id a) as Hid by lia. split_and!; [lia|lia| | |by eapply bit_set_used].
      * unfold used. by rewrite Hz, andb_false_r.
      * intros i Hi. apply used_spec. split; [lia|]. apply Hl. lia.
    + destruct H as [Hex Hs]. split; [|by apply same_used_used]. intros i Hi. apply used_spec.
      split; [lia|]. apply Hex. unfold count. lia.
Qed.

Lemma wp_reserve_used a id : lpi_inv a →
  wp (reserve id) (λ ok a', lpi_inv a' ∧ ok = in_ids a id && negb (used a id) ∧
    (∀ i, used a' i = if decide (i = id ∧ ok = true) then true else used a i)) a.
Proof.
  intros I. eapply wp_mono; [by apply wp_reserve|]. intros ok a' (I' & Eok & H). split; [done|]. split; [done|].
  intros i. destruct ok.
  - symmetry in Eok. apply andb_true_iff in Eok as [Hid _]. apply in_ids_spec in Hid.
    rewrite (bit_set_used a a' id true Hid H). by repeat case_decide; naive_solver.
  - subst a'. rewrite decide_False; [done|]. by intros [_ ?].
Qed.

Lemma wp_free_used a id : lpi_inv a →
  wp (free id) (λ _ a', lpi_inv a' ∧ (∀ i, used a' i = if decide (i = id) then false else used a i)) a.
Proof.
  intros I. eapply wp_mono; [by apply wp_free|]. intros _ a' (I' & H). split; [done|]. intros i.
  destruct (in_ids a id) eqn:E.
  - apply in_ids_spec in E. by apply (bit_set_used a a' id false E H).
  - subst a'. case_decide; [subst|done]. unfold used. by rewrite E.
Qed.

(** ** Contracts *)

(** a new allocator is well-formed and every id is free. *)
Theorem lpi_new_spec base max : 0 ≤ base ≤ max → max + 64 < 2 ^ 32 →
  ∃ a, new base max = Some a ∧ lpi_inv a ∧ base_id a = base ∧ max_id a = max ∧ ∀ id, used a id = false.
Proof.
  intros Hb Hm. unfold new, checked_sub, checked_add.
  rewrite (proj2 (Z.leb_le _ _)) by lia. simpl. rewrite (proj2 (Z.ltb_lt _ _)) by lia. simpl.
  rewrite (proj2 (Z.ltb_lt _ _)) by lia. simpl. eexists. split; [done|].
  assert (∀ h n j, bit_at {| bitmap := replicate n 0; base_id := base; max_id := max; hint := h |} j = false) as Hz.
  { intros h n j. unfold bit_at. simpl. destruct (replicate n 0 !! _) as [w|] eqn:E; [|done].
    apply lookup_replicate_1 in E as [-> _]. apply Z.bits_0. }
  split; [|split_and!; [done|done|]].
  - split; simpl; try lia.
    + apply Forall_replicate. lia.
    + rewrite length_replicate. unfold count. simpl. rewrite Z2Nat.id; [done|]. apply Z.div_pos; lia.
    + rewrite length_replicate, Z2Nat.id by (apply Z.div_pos; lia). split; [done|]. apply Z.div_str_pos. lia.
    + intros; apply Hz.
  - intros id. unfold used. by rewrite Hz, andb_false_r.
Qed.

(** allocation never panics; it returns the smallest free id of the
    range and marks exactly that id, and returns nothing only when every id
    is taken. *)
Theorem lpi_alloc_spec a : lpi_inv a →
  wp alloc (λ r a', lpi_inv a' ∧
    match r with
    | Some id => base_id a ≤ id ≤ max_id a ∧ used a id = false ∧
        (∀ i, base_id a ≤ i < id → used a i = true) ∧
        (∀ i, used a' i = if decide (i = id) then true else used a i)
    | None => (∀ i, base_id a ≤ i ≤ max_id a → used a i = true) ∧ (∀ i, used a' i = used a i)
    end) a.
Proof. apply wp_alloc. Qed.

(** reserving and freeing never panic; an id can be reserved exactly when
    it is in the range and free, and freeing it makes it free again without
    touching the others. *)
Theorem lpi_reserve_free_spec a id : lpi_inv a →
  wp (reserve id) (λ ok a', lpi_inv a' ∧ ok = in_ids a id && negb (used a id) ∧
    (∀ i, used a' i = if decide (i = id ∧ ok = true) then true else used a i)) a ∧
  wp (free id) (λ _ a', lpi_inv a' ∧
    (∀ i, used a' i = if decide (i = id) then false else used a i)) a.
Proof. intros I. split; [by apply wp_reserve_used|by apply wp_free_used]. Qed.

(** ** Witnesses *)

Definition demo_lpis : LpiAllocator := {| bitmap := [Z.ones 64; 5]; base_id := 8192; max_id := 8192 + 99; hint := 1 |}.

Lemma demo_lpis_inv : lpi_inv demo_lpis.
Proof.
  split; simpl; try (done || lia).
  - repeat apply Forall_cons_2; done || apply Forall_nil_2.
  - intros j Hj. unfold bit_at. replace (j / 64) with 0 by (Z.div_mod_to_equations; lia).
    change (bitmap _ !! Z.to_nat 0) with (Some (Z.ones 64)). rewrite Z.mod_small, testbit_ones by lia.
    apply Z.ltb_lt. lia.
  - intros j Hj. unfold count in Hj. simpl in Hj. unfold bit_at. simpl bitmap.
    destruct (decide (j < 128)).
    + replace (j / 64) with 1 by (Z.div_mod_to_equations; lia). simpl.
      apply (testbit_above 5 3); [done|]. Z.div_mod_to_equations. lia.
    + rewrite lookup_ge_None_2; [done|]. simpl. Z.div_mod_to_equations. lia.
Qed.

Lemma lpi_new_spec_witness : ∃ a, new 8192 32767 = Some a ∧ lpi_inv a.
Proof. destruct (lpi_new_spec 8192 32767) as (a & H & I & _); [lia|lia|]. exists a. split; [exact H|exact I]. Defined.

Lemma lpi_alloc_spec_witness : wp alloc (λ r a', r = Some (8192 + 65) ∧ lpi_inv a') demo_lpis.
Proof.
  pose proof (lpi_alloc_spec demo_lpis demo_lpis_inv) as H. revert H. unfold wp. vm_compute alloc.
  intros [H _]. split; [reflexivity|exact H].
Defined.

Lemma lpi_reserve_free_spec_witness : wp (reserve 8200) (λ ok a', ok = false ∧ lpi_inv a') demo_lpis.
Proof.
  destruct (lpi_reserve_free_spec demo_lpis 8200 demo_lpis_inv) as [H _].
  refine (wp_mono _ _ _ _ H _).
  intros ok a' (I & -> & _). split; [reflexivity|exact I].
Defined.
