(* ===== verification/Gic.v ===== *)
(** * The GICv3 driver

    Models [klib/src/interrupt/gicv3/mod.rs]: the distributor, the
    redistributors, the ITS with its command queue, LPI properties, handler
    registration and message-signalled interrupts.  The hardware is an
    interface: an operation reads and writes registers of a block at an
    offset, and the device may change state on every access.  Barriers and
    cache maintenance do not change the modelled state. *)

From stdpp Require Import strings.
From S2P Require Import Prelude Vm Registers GicRegs Lpi.

(** ** Errors *)

Inductive InterruptError :=
| InvalidInterruptId | NotSupported | MsiNotSupported | HandlerNotFound | OutOfMemory
| NoAvailableLpi | LpiAlreadyUsed | CommandQueueFull | HardwareStalled | CommandTimeout
| DeviceNotFound.

Definition Result (A : Type) : Type := result InterruptError A.

(** ** The hardware *)

Inductive block := Gicd | Gicr (cpu : nat) | Gits.

Class GicDevice (H : Type) := {
  mmio_read : block → Z → H → Z * H;
  mmio_write : block → Z → Z → H → H;
  (** The trait [InterruptInterface] and the two system registers that
      [init] writes itself. *)
  read_iar : H → Z * H;
  write_eoir : Z → H → H;
  enable_group1 : H → H;
  set_priority_mask : Z → H → H;
  sre_enable : H → H;
  write_bpr1 : Z → H → H;
  (** The global allocator; 0 is the null pointer. *)
  alloc_zeroed : Z → Z → H → Z * H;
  dealloc : Z → Z → Z → H → H;
  (** [this_cpu!().id]. *)
  this_cpu : H → nat
}.

(** ** Constants *)

Definition ITS_CACHEABILITY : Z := 5.
Definition ITS_SHAREABILITY : Z := 1.
Definition ITS_PAGE_SHIFT : Z := 12.
Definition ITS_PAGE_SIZE : Z := 2 ^ ITS_PAGE_SHIFT.
Definition ITS_PAGE_ALIGN : Z := 2 ^ 16.
Definition LPI_START : Z := 8192.
Definition MAX_LPI_ID : Z := 2 ^ (14 + 1) - 1.
Definition MAX_SPINS : Z := 1000000.
Definition MAX_RETRIES : Z := 3.

(** ** State *)

Inductive IrqTarget := Distributor | Redistributor.
Record IrqHandler := { target : IrqTarget; dispatch_fn : Z }.

Record ItsCmdQueue := { q_base : Z; write_offset : Z; num_entries : Z }.
Record IttAllocation := { itt_ptr : Z; itt_size : Z }.

(** [mem64] and [mem8] are the memory of the command queue and of the LPI
    property table, by virtual address; [borrows] counts the shared borrows of
    the handler table. *)
Record GicV3 (H : Type) := {
  hw : H;
  mem64 : Z → Z;
  mem8 : Z → Z;
  redistributors : list Z;
  its : option Z;
  interrupt_handlers : list (option IrqHandler);
  borrows : nat;
  lpi_handlers : gmap Z IrqHandler;
  device_itts : gmap Z IttAllocation;
  its_cmd_queue : option ItsCmdQueue;
  lpi_prop_table : option Z;
  lpi_alloc : LpiAllocator;
  lpi_to_event : gmap Z (Z * Z * Z);
  event_mappings : gmap (Z * Z) Z;
  INIT_STATE : Z
}.
Arguments hw {H} _. Arguments mem64 {H} _. Arguments mem8 {H} _. Arguments redistributors {H} _.
Arguments its {H} _. Arguments interrupt_handlers {H} _. Arguments borrows {H} _.
Arguments lpi_handlers {H} _. Arguments device_itts {H} _. Arguments its_cmd_queue {H} _.
Arguments lpi_prop_table {H} _. Arguments lpi_alloc {H} _. Arguments lpi_to_event {H} _.
Arguments event_mappings {H} _. Arguments INIT_STATE {H} _.

Section driver.
Context {H : Type} {HD : GicDevice H} {T : AddressTranslator}.
Implicit Types g : GicV3 H.

Definition set_hw (h : H) g : GicV3 H :=
  {| hw := h; mem64 := mem64 g; mem8 := mem8 g; redistributors := redistributors g; its := its g;
     interrupt_handlers := interrupt_handlers g; borrows := borrows g; lpi_handlers := lpi_handlers g;
     device_itts := device_itts g; its_cmd_queue := its_cmd_queue g; lpi_prop_table := lpi_prop_table g;
     lpi_alloc := lpi_alloc g; lpi_to_event := lpi_to_event g; event_mappings := event_mappings g;
     INIT_STATE := INIT_STATE g |}.
Definition set_mem64 (m : Z → Z) g : GicV3 H :=
  {| hw := hw g; mem64 := m; mem8 := mem8 g; redistributors := redistributors g; its := its g;
     interrupt_handlers := interrupt_handlers g; borrows := borrows g; lpi_handlers := lpi_handlers g;
     device_itts := device_itts g; its_cmd_queue := its_cmd_queue g; lpi_prop_table := lpi_prop_table g;
     lpi_alloc := lpi_alloc g; lpi_to_event := lpi_to_event g; event_mappings := event_mappings g;
     INIT_STATE := INIT_STATE g |}.
Definition set_mem8 (m : Z → Z) g : GicV3 H :=
  {| hw := hw g; mem64 := mem64 g; mem8 := m; redistributors := redistributors g; its := its g;
     interrupt_handlers := interrupt_handlers g; borrows := borrows g; lpi_handlers := lpi_handlers g;
     device_itts := device_itts g; its_cmd_queue := its_cmd_queue g; lpi_prop_table := lpi_prop_table g;
     lpi_alloc := lpi_alloc g; lpi_to_event := lpi_to_event g; event_mappings := event_mappings g;
     INIT_STATE := INIT_STATE g |}.
Definition set_handlers (l : list (option IrqHandler)) (b : nat) g : GicV3 H :=
  {| hw := hw g; mem64 := mem64 g; mem8 := mem8 g; redistributors := redistributors g; its := its g;
     interrupt_handlers := l; borrows := b; lpi_handlers := lpi_handlers g;
     device_itts := device_itts g; its_cmd_queue := its_cmd_queue g; lpi_prop_table := lpi_prop_table g;
     lpi_alloc := lpi_alloc g; lpi_to_event := lpi_to_event g; event_mappings := event_mappings g;
     INIT_STATE := INIT_STATE g |}.
Definition set_lpi_handlers (m : gmap Z IrqHandler) g : GicV3 H :=
  {| hw := hw g; mem64 := mem64 g; mem8 := mem8 g; redistributors := redistributors g; its := its g;
     interrupt_handlers := interrupt_handlers g; borrows := borrows g; lpi_handlers := m;
     device_itts := device_itts g; its_cmd_queue := its_cmd_queue g; lpi_prop_table := lpi_prop_table g;
     lpi_alloc := lpi_alloc g; lpi_to_event := lpi_to_event g; event_mappings := event_mappings g;
     INIT_STATE := INIT_STATE g |}.
Definition set_its_state (itts : gmap Z IttAllocation) (q : option ItsCmdQueue) (p : option Z) (i : Z) g : GicV3 H :=
  {| hw := hw g; mem64 := mem64 g; mem8 := mem8 g; redistributors := redistributors g; its := its g;
     interrupt_handlers := interrupt_handlers g; borrows := borrows g; lpi_handlers := lpi_handlers g;
     device_itts := itts; its_cmd_queue := q; lpi_prop_table := p;
     lpi_alloc := lpi_alloc g; lpi_to_event := lpi_to_event g; event_mappings := event_mappings g;
     INIT_STATE := i |}.
Definition set_device_itts (m : gmap Z IttAllocation) g : GicV3 H :=
  set_its_state m (its_cmd_queue g) (lpi_prop_table g) (INIT_STATE g) g.
Definition set_queue (q : option ItsCmdQueue) g : GicV3 H :=
  set_its_state (device_itts g) q (lpi_prop_table g) (INIT_STATE g) g.
Definition set_prop_table (p : option Z) g : GicV3 H :=
  set_its_state (device_itts g) (its_cmd_queue g) p (INIT_STATE g) g.
Definition set_init (i : Z) g : GicV3 H :=
  set_its_state (device_itts g) (its_cmd_queue g) (lpi_prop_table g) i g.
Definition set_events (a : LpiAllocator) (l : gmap Z (Z * Z * Z)) (e : gmap (Z * Z) Z) g : GicV3 H :=
  {| hw := hw g; mem64 := mem64 g; mem8 := mem8 g; redistributors := redistributors g; its := its g;
     interrupt_handlers := interrupt_handlers g; borrows := borrows g; lpi_handlers := lpi_handlers g;
     device_itts := device_itts g; its_cmd_queue := its_cmd_queue g; lpi_prop_table := lpi_prop_table g;
     lpi_alloc := a; lpi_to_event := l; event_mappings := e;
     INIT_STATE := INIT_STATE g |}.

(** ** Register access *)

Definition mmio_r (b : block) (off : Z) : M (GicV3 H) Z := λ g,
  let '(v, h) := mmio_read b off (hw g) in Done (v, set_hw h g).
Definition mmio_w (b : block) (off v : Z) : M (GicV3 H) unit := λ g,
  Done (tt, set_hw (mmio_write b off v (hw g)) g).
Definition on_hw (f : H → H) : M (GicV3 H) unit := modify (λ g, set_hw (f (hw g)) g).
Definition with_hw {A} (f : H → A * H) : M (GicV3 H) A := λ g,
  let '(a, h) := f (hw g) in Done (a, set_hw h g).

Definition mmio_cell (b : block) (off : Z) : Cell (GicV3 H) :=
  {| cell_read := mmio_r b off; cell_write := mmio_w b off |}.
Definition word_cell (a : Z) : Cell (GicV3 H) :=
  {| cell_read := gets (λ g, mem64 g a);
     cell_write v := modify (λ g, set_mem64 (λ x, if x =? a then v else mem64 g x) g) |}.
Definition byte_cell (a : Z) : Cell (GicV3 H) :=
  {| cell_read := gets (λ g, mem8 g a);
     cell_write v := modify (λ g, set_mem8 (λ x, if x =? a then v else mem8 g x) g) |}.

(** The offset of a field of a register block, and of an element of an array
    of them, which is bounds-checked. *)
Definition block_field (fs : list StructField) (name : string) : option StructField :=
  List.find (λ f, bool_decide (sf_name f = name)) fs.
Definition off (fs : list StructField) (name : string) : Z :=
  match block_field fs name with Some f => sf_offset f | None => 0 end.
Definition elem (fs : list StructField) (name : string) (i : Z) : option Z :=
  f ← block_field fs name;
  let stride := sf_align f in
  if (0 <=? i) && (i <? sf_size f / stride) then Some (sf_offset f + stride * i) else None.

Definition gicd_read (name : string) (f : Field) : M (GicV3 H) (fval (ftype f)) :=
  read_field (C := mmio_cell Gicd (off GicdRegisters name)) f.
Definition gicd_modify (name : string) (f : Field) (v : fval (ftype f)) : M (GicV3 H) unit :=
  modify_field (C := mmio_cell Gicd (off GicdRegisters name)) f v.
Definition gicd_write_elem (name : string) (i v : Z) : M (GicV3 H) unit :=
  let* o := expect (elem GicdRegisters name i) in mmio_w Gicd o v.
Definition gits_read (name : string) (f : Field) : M (GicV3 H) (fval (ftype f)) :=
  read_field (C := mmio_cell Gits (off GitsRegisters name)) f.
Definition gits_modify (name : string) (f : Field) (v : fval (ftype f)) : M (GicV3 H) unit :=
  modify_field (C := mmio_cell Gits (off GitsRegisters name)) f v.

(** [redistributor_mut]: the redistributor of this core. *)
Definition redistributor_mut : M (GicV3 H) nat :=
  let* g := get in
  let cpu := this_cpu (hw g) in
  let* ptr := expect (redistributors g !! cpu) in
  assert (negb (ptr =? 0)) ;;
  ret cpu.
Definition gicr_read (c : nat) (name : string) (f : Field) : M (GicV3 H) (fval (ftype f)) :=
  read_field (C := mmio_cell (Gicr c) (off GicrRegisters name)) f.
Definition gicr_modify (c : nat) (name : string) (f : Field) (v : fval (ftype f)) : M (GicV3 H) unit :=
  modify_field (C := mmio_cell (Gicr c) (off GicrRegisters name)) f v.
Definition gicr_write (c : nat) (name : string) (v : Z) : M (GicV3 H) unit :=
  mmio_w (Gicr c) (off GicrRegisters name) v.
Definition gicr_write_elem (c : nat) (name : string) (i v : Z) : M (GicV3 H) unit :=
  let* o := expect (elem GicrRegisters name i) in mmio_w (Gicr c) o v.

(** [while cond() == b { spin_loop() }], with fuel. *)
Fixpoint spin_while (fuel : nat) (cond : M (GicV3 H) bool) (b : bool) : M (GicV3 H) unit :=
  match fuel with
  | O => fail OutOfFuel
  | S fuel' => let* c := cond in if eqb c b then spin_while fuel' cond b else ret tt
  end.

(** ** The pieces of the driver

    [fuel] bounds the loops that wait for the hardware without a limit of
    their own. *)
Section fuel.
Context (fuel : nat).

Definition wait_for_distributor_rwp : M (GicV3 H) unit :=
  spin_while fuel (gicd_read "ctl" GicdCtlr_RegisterWritePending) true.

Definition wait_for_redistributor_rwp : M (GicV3 H) unit :=
  let* c := redistributor_mut in
  spin_while fuel (gicr_read c "ctl" GicrCtlr_RegisterWritePending) true.

Definition its_ref : M (GicV3 H) (option Z) :=
  let* g := get in
  match its g with
  | Some p => assert (negb (p =? 0)) ;; ret (Some p)
  | None => ret None
  end.

Definition rdbase_for_redist (index : Z) : M (GicV3 H) (option Z) :=
  let* i := its_ref in
  let* g := get in
  match i, redistributors g !! Z.to_nat index with
  | Some _, Some redist_ptr =>
      let addr := phys_to_dmap redist_ptr in
      let* proc_num := gicr_read (Z.to_nat index) "type_" GicrTyper_ProcessorNumber in
      let* pta := gits_read "type_" GitsTyper_PTA in
      ret (Some (if (pta : bool) then Z.shiftr addr 16 else proc_num))
  | _, _ => ret None
  end.

(** ** The command queue *)

(** The loop that waits for the ITS to consume the command. *)
Fixpoint cmd_wait (spins : nat) (next_write_offset retries : Z) : M (GicV3 H) (Result unit) :=
  match spins with
  | O => ret (Err CommandTimeout)
  | S spins' =>
      let* o := gits_read "creadr" GitsCreadr_Offset in
      if o =? next_write_offset then ret (Ok tt) else
      let* stalled := gits_read "creadr" GitsCreadr_Stalled in
      if (stalled : bool) then
        if retries <? MAX_RETRIES then
          gits_modify "cwriter" GitsCwriter_Retry true ;;
          cmd_wait spins' next_write_offset (retries + 1)
        else ret (Err HardwareStalled)
      else cmd_wait spins' next_write_offset retries
  end.

(** [build_cmd] gets the address of the four words. *)
Definition push_cmd (build_cmd : Z → M (GicV3 H) unit) : M (GicV3 H) (Result unit) :=
  let* i := its_ref in
  match i with
  | None => ret (Err NotSupported)
  | Some _ =>
    let* g := get in
    match its_cmd_queue g with
    | None => ret (Err NotSupported)
    | Some queue =>
      let* current_creadr := gits_read "creadr" GitsCreadr_Offset in
      assert (negb (num_entries queue =? 0)) ;;
      let next_write_offset := (write_offset queue + 1) mod num_entries queue in
      if next_write_offset =? current_creadr then ret (Err CommandQueueFull) else
      let ptr := q_base queue + write_offset queue * 32 in
      write (C := word_cell ptr) 0 ;;
      write (C := word_cell (ptr + 8)) 0 ;;
      write (C := word_cell (ptr + 16)) 0 ;;
      write (C := word_cell (ptr + 24)) 0 ;;
      build_cmd ptr ;;
      modify (set_queue (Some {| q_base := q_base queue; write_offset := next_write_offset;
                                 num_entries := num_entries queue |})) ;;
      gits_modify "cwriter" GitsCwriter_Offset (wrap 16 next_write_offset) ;;
      cmd_wait (Z.to_nat MAX_SPINS) next_write_offset 0
    end
  end.

(** A field of word [i] of a command. *)
Definition cmd_field (ptr i : Z) (f : Field) (v : fval (ftype f)) : M (GicV3 H) unit :=
  modify_field (C := word_cell (ptr + 8 * i)) f v.

Definition push_mapd (device_id itt_addr num_events_log2 : Z) (valid : bool) : M (GicV3 H) (Result unit) :=
  let size := if 0 <? num_events_log2 then num_events_log2 - 1 else 0 in
  push_cmd (λ w,
    cmd_field w 0 ItsCmdWord0_Cmd 0x08 ;;
    cmd_field w 0 ItsCmdWord0_DeviceId device_id ;;
    cmd_field w 1 ItsMapdWord1_Size (wrap 8 size) ;;
    cmd_field w 2 ItsMapdWord2_IttAddr (Z.shiftr itt_addr 8) ;;
    cmd_field w 2 ItsMapdWord2_Valid valid).

Definition push_mapc (icid rdbase_val : Z) (valid : bool) : M (GicV3 H) (Result unit) :=
  push_cmd (λ w,
    cmd_field w 0 ItsCmdWord0_Cmd 0x09 ;;
    cmd_field w 2 ItsMapcWord2_Icid (wrap 16 icid) ;;
    cmd_field w 2 ItsMapcWord2_RdBase rdbase_val ;;
    cmd_field w 2 ItsMapcWord2_Valid valid).

Definition push_mapti (device_id event_id lpi_id icid : Z) : M (GicV3 H) (Result unit) :=
  push_cmd (λ w,
    cmd_field w 0 ItsCmdWord0_Cmd 0x0A ;;
    cmd_field w 0 ItsCmdWord0_DeviceId device_id ;;
    cmd_field w 1 ItsMaptiWord1_EventId event_id ;;
    cmd_field w 1 ItsMaptiWord1_pIntId lpi_id ;;
    cmd_field w 2 ItsMaptiWord2_Icid (wrap 16 icid)).

Definition push_invall (icid : Z) : M (GicV3 H) (Result unit) :=
  push_cmd (λ w,
    cmd_field w 0 ItsCmdWord0_Cmd 0x0D ;;
    cmd_field w 2 ItsInvallWord2_Icid (wrap 16 icid)).

Definition push_sync (rdbase_val : Z) : M (GicV3 H) (Result unit) :=
  push_cmd (λ w,
    cmd_field w 0 ItsCmdWord0_Cmd 0x05 ;;
    cmd_field w 2 ItsSyncWord2_RdBase rdbase_val).

Definition push_discard (device_id event_id : Z) : M (GicV3 H) (Result unit) :=
  push_cmd (λ w,
    cmd_field w 0 ItsCmdWord0_Cmd 0x0F ;;
    cmd_field w 0 ItsCmdWord0_DeviceId device_id ;;
    cmd_field w 1 ItsDiscardWord1_EventId event_id).

Definition push_inv (device_id event_id : Z) : M (GicV3 H) (Result unit) :=
  push_cmd (λ w,
    cmd_field w 0 ItsCmdWord0_Cmd 0x0C ;;
    cmd_field w 0 ItsCmdWord0_DeviceId device_id ;;
    cmd_field w 1 ItsInvWord1_EventId event_id).

Definition update_lpi_prop (int_id : Z) (update_fn : Cell (GicV3 H) → M (GicV3 H) unit) : M (GicV3 H) (Result unit) :=
  let* g := get in
  match lpi_prop_table g with
  | None => ret (Ok tt)
  | Some prop_phys =>
    let* offset := expect (checked_sub int_id LPI_START) in
    update_fn (byte_cell (phys_to_dmap prop_phys + offset)) ;;
    match its g with
    | None => ret (Ok tt)
    | Some _ =>
      let* g := get in
      match lpi_to_event g !! int_id with
      | None => ret (Ok tt)
      | Some (device_id, event_id, icid) =>
          push_inv device_id event_id ;?
          let* rdbase := rdbase_for_redist icid in
          match rdbase with
          | Some rdbase => push_sync rdbase ;? ret (Ok tt)
          | None => ret (Ok tt)
          end
      end
    end
  end.

(** ** Initialisation *)

Fixpoint for_each {A} (xs : list A) (body : A → M (GicV3 H) unit) : M (GicV3 H) unit :=
  match xs with
  | [] => ret tt
  | x :: xs' => body x ;; for_each xs' body
  end.

(** [from..to] *)
Definition range (from to : Z) : list Z := (λ n, from + Z.of_nat n) <$> seq 0 (Z.to_nat (to - from)).

Definition init_baser (i : Z) : M (GicV3 H) unit :=
  let* o := expect (elem GitsRegisters "baser" i) in
  let* ty := read_field (C := mmio_cell Gits o) GitsBaser_Type in
  if (ty =? 1) || (ty =? 4) then
    let pages := if ty =? 4 then 1 else 16 in
    let* ptr := with_hw (alloc_zeroed (pages * ITS_PAGE_SIZE) ITS_PAGE_ALIGN) in
    assert (negb (ptr =? 0)) ;;
    let phys := dmap_to_phys ptr in
    let* v := reg_builder (C := mmio_cell Gits o)
      [upd GitsBaser_PageSize 0; upd GitsBaser_Shareability 1;
       upd GitsBaser_InnerCacheability ITS_CACHEABILITY; upd GitsBaser_OuterCacheability ITS_CACHEABILITY;
       upd GitsBaser_PhysicalAddress (Z.shiftr phys ITS_PAGE_SHIFT);
       upd GitsBaser_Size (wrap 8 (pages - 1)); upd GitsBaser_Valid true] in
    write (C := mmio_cell Gits o) v
  else ret tt.

Definition init_its : M (GicV3 H) unit :=
  let* i := its_ref in
  match i with
  | None => ret tt
  | Some _ =>
    gits_modify "ctl" GitsCtlr_Enabled false ;;
    spin_while fuel (gits_read "ctl" GitsCtlr_Quiescent) false ;;
    for_each (range 0 8) init_baser ;;
    let cmd_pages := 16 in
    let* cmd_ptr := with_hw (alloc_zeroed (cmd_pages * ITS_PAGE_SIZE) ITS_PAGE_ALIGN) in
    assert (negb (cmd_ptr =? 0)) ;;
    let cmd_phys := dmap_to_phys cmd_ptr in
    let* v := reg_builder (C := mmio_cell Gits (off GitsRegisters "cbaser"))
      [upd GitsCbasER_Shareability ITS_SHAREABILITY;
       upd GitsCbasER_InnerCacheability ITS_CACHEABILITY; upd GitsCbasER_OuterCacheability ITS_CACHEABILITY;
       upd GitsCbasER_PhysicalAddress (Z.shiftr cmd_phys ITS_PAGE_SHIFT);
       upd GitsCbasER_Size (wrap 8 (cmd_pages - 1)); upd GitsCbasER_Valid true] in
    write (C := mmio_cell Gits (off GitsRegisters "cbaser")) v ;;
    modify (set_queue (Some {| q_base := cmd_ptr; write_offset := 0;
                               num_entries := cmd_pages * ITS_PAGE_SIZE / 32 |})) ;;
    gits_modify "ctl" GitsCtlr_Enabled true
  end.

(** The branch of [init] that the first core takes. *)
Definition init_distributor : M (GicV3 H) unit :=
  modify (set_init 1) ;;
  gicd_modify "ctl" GicdCtlr_EnableGroup1 false ;;
  wait_for_distributor_rwp ;;
  gicd_modify "ctl" GicdCtlr_Are true ;;
  wait_for_distributor_rwp ;;
  for_each (range 1 32) (λ i,
    gicd_write_elem "iclear_enable" i 0xFFFFFFFF ;;
    gicd_write_elem "iclear_pend" i 0xFFFFFFFF ;;
    gicd_write_elem "igroup" i 0xFFFFFFFF) ;;
  for_each (range 32 1020) (λ i, gicd_write_elem "ipriority" i 0xA0) ;;
  let* g := get in
  match its g with
  | Some _ =>
      let prop_pages := 16 in
      let* prop_ptr := with_hw (alloc_zeroed (prop_pages * ITS_PAGE_SIZE) ITS_PAGE_ALIGN) in
      modify (set_prop_table (Some (dmap_to_phys prop_ptr))) ;;
      modify (λ g, set_mem8 (λ a, if (prop_ptr <=? a) && (a <? prop_ptr + prop_pages * ITS_PAGE_SIZE)
                                  then 0xA0 else mem8 g a) g) ;;
      init_its
  | None => ret tt
  end ;;
  gicd_modify "ctl" GicdCtlr_EnableGroup1 true ;;
  wait_for_distributor_rwp ;;
  modify (set_init 2).

Definition init_lpis (c : nat) : M (GicV3 H) (Result unit) :=
  let* pend_ptr := with_hw (alloc_zeroed (16 * ITS_PAGE_SIZE) ITS_PAGE_ALIGN) in
  let pend_phys := dmap_to_phys pend_ptr in
  let* g := get in
  let* prop_phys := expect (lpi_prop_table g) in
  let* v := reg_builder (C := mmio_cell (Gicr c) (off GicrRegisters "property_bar"))
    [upd GicrPropBar_PhysicalAddress (Z.shiftr prop_phys ITS_PAGE_SHIFT); upd GicrPropBar_IDBits 14;
     upd GicrPropBar_Shareability ITS_SHAREABILITY; upd GicrPropBar_InnerCacheability ITS_CACHEABILITY;
     upd GicrPropBar_OuterCacheability ITS_CACHEABILITY] in
  gicr_write c "property_bar" v ;;
  let cas := Z.lor (Z.lor (Z.shiftl ITS_SHAREABILITY 10) (Z.shiftl ITS_CACHEABILITY 7))
                   (Z.shiftl ITS_CACHEABILITY 56) in
  gicr_write c "pending_bar" (Z.lor pend_phys cas) ;;
  gicr_modify c "ctl" GicrCtlr_EnableLPIs true ;;
  let icid := Z.of_nat c in
  let* rdbase := rdbase_for_redist icid in
  match rdbase with
  | Some rdbase => push_mapc icid rdbase true ;? push_invall icid ;? push_sync rdbase ;? ret (Ok tt)
  | None => ret (Ok tt)
  end.

Definition init : M (GicV3 H) (Result unit) :=
  on_hw sre_enable ;;
  on_hw (write_bpr1 0) ;;
  on_hw enable_group1 ;;
  on_hw (set_priority_mask 0xFF) ;;
  let* g := get in
  (if INIT_STATE g =? 0 then init_distributor
   else spin_while fuel (gets (λ g, INIT_STATE g =? 2)) false) ;;
  let* c := redistributor_mut in
  gicr_modify c "wake" GicrWaker_ProcessorSleep false ;;
  spin_while fuel (gicr_read c "wake" GicrWaker_ProcessorSleep) true ;;
  spin_while fuel (gicr_read c "wake" GicrWaker_ChildrenAsleep) true ;;
  gicr_write c "iclear_enable0" 0xFFFFFFFF ;;
  gicr_write c "iclear_pend0" 0xFFFFFFFF ;;
  gicr_write c "igroup0" 0xFFFFFFFF ;;
  gicr_write c "igroup_mod" 0xFFFFFFFF ;;
  let* g := get in
  match its g with Some _ => init_lpis c | None => ret (Ok tt) end ;?
  wait_for_redistributor_rwp ;;
  for_each (range 0 32) (λ i, gicr_write_elem c "ipriority" i 0xA0) ;;
  ret (Ok tt).

(** ** The controller *)

Definition is_lpi (int_id : Z) : bool := (LPI_START <=? int_id) && (int_id <=? MAX_LPI_ID).

Definition enable_interrupt (int_id : Z) : M (GicV3 H) (Result unit) :=
  if int_id <? 32 then
    let* c := redistributor_mut in
    gicr_write c "iset_enable0" (Z.shiftl 1 int_id) ;;
    wait_for_redistributor_rwp ;;
    ret (Ok tt)
  else if int_id <? 1020 then
    gicd_write_elem "iset_enable" (int_id / 32) (Z.shiftl 1 (int_id mod 32)) ;;
    wait_for_distributor_rwp ;;
    ret (Ok tt)
  else if is_lpi int_id then
    update_lpi_prop int_id (λ C, modify_field (C := C) LpiProp_Enabled true) ;?
    ret (Ok tt)
  else ret (Err InvalidInterruptId).

Definition disable_interrupt (int_id : Z) : M (GicV3 H) (Result unit) :=
  if int_id <? 32 then
    let* c := redistributor_mut in
    gicr_write c "iclear_enable0" (Z.shiftl 1 int_id) ;;
    wait_for_redistributor_rwp ;;
    ret (Ok tt)
  else if int_id <? 1020 then
    gicd_write_elem "iclear_enable" (int_id / 32) (Z.shiftl 1 (int_id mod 32)) ;;
    wait_for_distributor_rwp ;;
    ret (Ok tt)
  else if is_lpi int_id then
    update_lpi_prop int_id (λ C, modify_field (C := C) LpiProp_Enabled false) ;?
    ret (Ok tt)
  else ret (Err InvalidInterruptId).

Definition acknowledge_interrupt : M (GicV3 H) (Result (option Z)) :=
  let* int_id := with_hw read_iar in
  if int_id =? 1023 then ret (Ok None) else ret (Ok (Some int_id)).

Definition end_of_interrupt (int_id : Z) : M (GicV3 H) (Result unit) :=
  if (int_id <? 1020) || is_lpi int_id then on_hw (write_eoir int_id) ;; ret (Ok tt)
  else ret (Err InvalidInterruptId).

Definition set_priority (int_id priority : Z) : M (GicV3 H) (Result unit) :=
  if int_id <? 32 then
    let* c := redistributor_mut in
    gicr_write_elem c "ipriority" int_id priority ;;
    ret (Ok tt)
  else if int_id <? 1020 then
    gicd_write_elem "ipriority" int_id priority ;;
    ret (Ok tt)
  else if is_lpi int_id then
    update_lpi_prop int_id (λ C, modify_field (C := C) LpiProp_Priority (Z.shiftr priority 2)) ;?
    ret (Ok tt)
  else ret (Err InvalidInterruptId).

Definition set_affinity (int_id affinity : Z) : M (GicV3 H) (Result unit) :=
  if int_id <? 32 then ret (Err NotSupported)
  else if 1020 <=? int_id then ret (Err InvalidInterruptId)
  else
    gicd_write_elem "irouter" int_id affinity ;;
    ret (Ok tt).

(** [try_borrow_mut] fails while a handler of an interrupt below 1020 runs. *)
Definition register_handler (int_id : Z) (handler : IrqHandler) : M (GicV3 H) (Result unit) :=
  let* g := get in
  if int_id <? 1020 then
    if (0 <? borrows g)%nat then ret (Err NotSupported) else
    assert (Z.to_nat int_id <? length (interrupt_handlers g))%nat ;;
    modify (λ g, set_handlers (<[Z.to_nat int_id := Some handler]> (interrupt_handlers g)) (borrows g) g) ;;
    ret (Ok tt)
  else if is_lpi int_id then
    modify (λ g, set_lpi_handlers (<[int_id := handler]> (lpi_handlers g)) g) ;;
    ret (Ok tt)
  else ret (Err InvalidInterruptId).

(** [call] runs a registered function. *)
Definition on_interrupt (call : Z → Z → M (GicV3 H) (Result unit)) (int_id : Z) : M (GicV3 H) (Result unit) :=
  let* g := get in
  if int_id <? 1020 then
    let* slot := expect (interrupt_handlers g !! Z.to_nat int_id) in
    match slot with
    | None => ret (Err HandlerNotFound)
    | Some h =>
        modify (λ g, set_handlers (interrupt_handlers g) (S (borrows g)) g) ;;
        let* r := call (dispatch_fn h) int_id in
        modify (λ g, set_handlers (interrupt_handlers g) (pred (borrows g)) g) ;;
        ret r
    end
  else if is_lpi int_id then
    match lpi_handlers g !! int_id with
    | None => ret (Err HandlerNotFound)
    | Some h => call (dispatch_fn h) int_id
    end
  else ret (Err InvalidInterruptId).

(** ** Message-signalled interrupts *)

Definition msi_register_device (device_id num_events_log2 : Z) : M (GicV3 H) (Result unit) :=
  let* g := get in
  match its g with
  | None => ret (Err MsiNotSupported)
  | Some _ =>
    let* num_events := expect (if num_events_log2 <? 64 then Some (2 ^ num_events_log2) else None) in
    let* i := its_ref in
    let* itt_entry_size := (match i with
      | Some _ => let* v := gits_read "type_" GitsTyper_ITTEntrySize in ret (v + 1)
      | None => ret 8
      end) in
    let* bytes := expect (checked_mul 64 num_events itt_entry_size) in
    let* size := expect (x ← checked_add 64 bytes 255; Some (x / 256 * 256)) in
    if 2 ^ 63 - 256 <? size then ret (Err OutOfMemory) else
    let* ptr := with_hw (alloc_zeroed size 256) in
    if ptr =? 0 then ret (Err NotSupported) else
    push_mapd device_id (dmap_to_phys ptr) num_events_log2 true ;?
    let* g := get in
    modify (λ g, set_device_itts (<[device_id := {| itt_ptr := ptr; itt_size := size |}]> (device_itts g)) g) ;;
    match device_itts g !! device_id with
    | Some old => on_hw (dealloc (itt_ptr old) (itt_size old) 256)
    | None => ret tt
    end ;;
    ret (Ok tt)
  end.

Definition msi_unregister_device (device_id : Z) : M (GicV3 H) (Result unit) :=
  let* g := get in
  match its g with Some _ => push_mapd device_id 0 0 false | None => ret (Ok tt) end ;?
  let* g := get in
  modify (λ g, set_device_itts (delete device_id (device_itts g)) g) ;;
  match device_itts g !! device_id with
  | Some old => on_hw (dealloc (itt_ptr old) (itt_size old) 256)
  | None => ret tt
  end ;;
  ret (Ok tt).

(** An operation of the LPI allocator on the driver's state. *)
Definition on_lpis {A} (c : M LpiAllocator A) : M (GicV3 H) A := λ g,
  match c (lpi_alloc g) with
  | Done (a, l) => Done (a, set_events l (lpi_to_event g) (event_mappings g) g)
  | Fault f => Fault f
  end.

Definition pick_lpi (lpi_id : option Z) : M (GicV3 H) (Result Z) :=
  match lpi_id with
  | Some id => let* ok := on_lpis (reserve id) in
               if (ok : bool) then ret (Ok id) else ret (Err LpiAlreadyUsed)
  | None => let* r := on_lpis alloc in
            match r with Some id => ret (Ok id) | None => ret (Err NoAvailableLpi) end
  end.

Definition msi_map_event (device_id event_id : Z) (lpi_id : option Z) (cpu : Z) : M (GicV3 H) (Result Z) :=
  try lpi := pick_lpi lpi_id in
  let icid := cpu in
  let* g := get in
  match its g with
  | Some _ =>
      push_mapti device_id event_id lpi icid ;?
      modify (λ g, set_events (lpi_alloc g) (lpi_to_event g)
                     (<[(device_id, event_id) := lpi]> (event_mappings g)) g) ;;
      modify (λ g, set_events (lpi_alloc g) (<[lpi := (device_id, event_id, icid)]> (lpi_to_event g))
                     (event_mappings g) g) ;;
      ret (Ok lpi)
  | None =>
      on_lpis (free lpi) ;;
      ret (Err MsiNotSupported)
  end.

(** The loop of [msi_unmap_event] over the redistributors. *)
Fixpoint sync_all (n : nat) (i : Z) : M (GicV3 H) (Result unit) :=
  match n with
  | O => ret (Ok tt)
  | S n' =>
      let* rdbase := rdbase_for_redist i in
      match rdbase with Some rdbase => push_sync rdbase | None => ret (Ok tt) end ;?
      sync_all n' (i + 1)
  end.

Definition msi_unmap_event (device_id event_id : Z) : M (GicV3 H) (Result unit) :=
  let* g := get in
  match its g with
  | None => ret (Ok tt)
  | Some _ =>
    push_discard device_id event_id ;?
    let* g := get in
    sync_all (length (redistributors g)) 0 ;?
    let* g := get in
    modify (λ g, set_events (lpi_alloc g) (lpi_to_event g)
                   (delete (device_id, event_id) (event_mappings g)) g) ;;
    match event_mappings g !! (device_id, event_id) with
    | Some lpi =>
        modify (λ g, set_events (lpi_alloc g) (delete lpi (lpi_to_event g)) (event_mappings g) g) ;;
        on_lpis (free lpi) ;;
        modify (λ g, set_lpi_handlers (delete lpi (lpi_handlers g)) g)
    | None => ret tt
    end ;;
    ret (Ok tt)
  end.

Definition msi_invall (cpu : Z) : M (GicV3 H) (Result unit) :=
  let* g := get in
  match its g with
  | Some _ =>
      push_invall cpu ;?
      let* rdbase := rdbase_for_redist cpu in
      match rdbase with Some rdbase => push_sync rdbase ;? ret (Ok tt) | None => ret (Ok tt) end
  | None => ret (Ok tt)
  end.

Definition msi_get_doorbell : M (GicV3 H) (Result Z) :=
  let* i := its_ref in
  match i with
  | None => ret (Err MsiNotSupported)
  | Some p => ret (Ok (dmap_to_phys (p + off GitsRegisters "translator")))
  end.
End fuel.

(** [GicV3::new]. *)
Definition gic_new (h : H) (m64 m8 : Z → Z) (redists : list Z) (its_ : option Z) : option (GicV3 H) :=
  a ← Lpi.new LPI_START MAX_LPI_ID;
  Some {| hw := h; mem64 := m64; mem8 := m8; redistributors := redists; its := its_;
          interrupt_handlers := replicate 1020 None; borrows := 0; lpi_handlers := ∅; device_itts := ∅;
          its_cmd_queue := None; lpi_prop_table := None; lpi_alloc := a; lpi_to_event := ∅;
          event_mappings := ∅; INIT_STATE := 0 |}.
End driver.
