(* ===== verification/GicProofs.v ===== *)
(** * Execution of the GICv3 driver against arbitrary hardware

    Register accesses change only the hardware component of the state, the
    command queue is a ring, and every command the driver pushes decodes to
    its arguments. *)

From stdpp Require Import strings.
From S2P Require Import Prelude Vm Registers GicRegs Lpi Gic.

Section driver.
Context {H : Type} {HD : GicDevice H} {T : AddressTranslator}.
Implicit Types g : GicV3 H.

(** ** Register accesses *)

(** Only the hardware has changed. *)
Definition hw_step g g' : Prop := ∃ h, g' = set_hw h g.

Lemma hw_step_refl g : hw_step g g.
Proof. exists (hw g). by destruct g. Qed.

Lemma hw_step_trans g1 g2 g3 : hw_step g1 g2 → hw_step g2 g3 → hw_step g1 g3.
Proof. intros [h1 ->] [h2 ->]. by exists h2. Qed.

(** Fields whose conversions do not panic. *)
Definition simple (f : Field) : bool :=
  match ftype f with FBools _ | FIcfgr _ => false | _ => true end.

Definition field_okb (f : Field) : bool :=
  simple f && (0 <=? OFFSET f) && (0 <? WIDTH f) && (OFFSET f + WIDTH f <=? BITS f).

Lemma field_okb_ok f : field_okb f = true → field_ok f.
Proof. unfold field_okb, field_ok. rewrite !andb_true_iff. lia. Qed.

Lemma lift_total f raw : field_okb f = true → ∃ v, lift f raw = Some v.
Proof.
  intros Hf. rewrite lift_eq by by apply field_okb_ok. unfold field_okb, simple in Hf.
  destruct f as [? ? ? []]; simpl in *; (discriminate || eauto).
Qed.

Lemma lower_total f v : field_okb f = true → ∃ l, lower f v = Some l.
Proof.
  intros Hf. assert (∃ b, into_bits (BITS f) (ftype f) v = Some b) as [b Hb].
  { unfold field_okb, simple in Hf. destruct f as [? ? ? []]; simpl in *; (discriminate || eauto). }
  eexists. apply lower_eq; [by apply field_okb_ok|done].
Qed.

Lemma wp_hw_read b o f g (Q : _ → GicV3 H → Prop) : field_okb f = true →
  (∀ v g', hw_step g g' → Q v g') → wp (read_field (C := mmio_cell b o) f) Q g.
Proof.
  intros Hf HQ. unfold read_field. wp_step. unfold wp at 1, read. simpl. unfold mmio_r.
  destruct (mmio_read b o (hw g)) as [raw h]. destruct (lift_total f raw Hf) as [v Hv].
  eapply wp_expect; [exact Hv|]. apply HQ. by exists h.
Qed.

Lemma wp_hw_modify b o f v g (Q : _ → GicV3 H → Prop) : field_okb f = true →
  (∀ g', hw_step g g' → Q tt g') → wp (modify_field (C := mmio_cell b o) f v) Q g.
Proof.
  intros Hf HQ. unfold modify_field. wp_step. eapply wp_expect; [by apply mask_eq, field_okb_ok|].
  wp_step. unfold wp at 1, read. simpl. unfold mmio_r. destruct (mmio_read b o (hw g)) as [raw h].
  destruct (lower_total f v Hf) as [l Hl]. wp_step. eapply wp_expect; [exact Hl|].
  unfold wp, write. simpl. apply HQ. eexists. reflexivity.
Qed.

(** ** Waiting for a command *)

Lemma wp_cmd_wait n next retries g :
  wp (cmd_wait n next retries) (λ r g', hw_step g g' ∧
    (r = Ok tt ∨ r = Err HardwareStalled ∨ r = Err CommandTimeout)) g.
Proof.
  revert retries g. induction n as [|n IH]; intros retries g; cbn [cmd_wait].
  { wp_steps. split; [apply hw_step_refl|auto]. }
  wp_step. apply wp_hw_read; [done|]. intros o g1 S1. case_match.
  { wp_steps. auto. }
  wp_step. apply wp_hw_read; [done|]. intros st g2 S2.
  assert (hw_step g g2) as S12 by by eapply hw_step_trans.
  destruct st; [case_match|].
  - wp_step. apply wp_hw_modify; [done|]. intros g3 S3. eapply wp_mono; [apply IH|].
    intros r g' [S4 Hr]. split; [|done].
    eapply hw_step_trans; [exact S12|]. by eapply hw_step_trans.
  - wp_steps. auto.
  - eapply wp_mono; [apply IH|]. intros r g' [S4 Hr]. split; [|done]. by eapply hw_step_trans.
Qed.

(** ** Building a command *)

(** Updates of the fields of the four words, in program order. *)
Fixpoint run_fields (ptr : Z) (us : list (Z * update)) : M (GicV3 H) unit :=
  match us with
  | [] => ret tt
  | (i, existT f v) :: us' => cmd_field ptr i f v ;; run_fields ptr us'
  end.

Definition word_updates (i : Z) (us : list (Z * update)) : list update :=
  (filter (λ u, u.1 = i) us).*2.

Definition word_field (u : Z * update) : Prop :=
  0 ≤ u.1 < 4 ∧ field_okb (ufield u.2) = true.

Lemma set_mem64_twice m m' g : set_mem64 m (set_mem64 m' g) = set_mem64 m g.
Proof. done. Qed.

Lemma set_total f v old : field_okb f = true → ∃ new, set f v old = Some new.
Proof.
  intros Hf. unfold set. rewrite (mask_eq f (field_okb_ok f Hf)). simpl.
  destruct (lower_total f v Hf) as [l ->]. simpl. eauto.
Qed.

Lemma wp_cmd_field ptr i f v g (Q : _ → GicV3 H → Prop) : field_okb f = true →
  (∀ new, set f v (mem64 g (ptr + 8 * i)) = Some new →
     Q tt (set_mem64 (λ x, if x =? ptr + 8 * i then new else mem64 g x) g)) →
  wp (cmd_field ptr i f v) Q g.
Proof.
  intros Hf HQ. destruct (set_total f v (mem64 g (ptr + 8 * i)) Hf) as [new Hnew].
  specialize (HQ new Hnew). unfold set in Hnew. rewrite (mask_eq f (field_okb_ok f Hf)) in Hnew.
  simpl in Hnew. destruct (lower_total f v Hf) as [l Hl]. rewrite Hl in Hnew. simplify_eq/=.
  unfold cmd_field, modify_field. wp_step. eapply wp_expect; [by apply mask_eq, field_okb_ok|].
  wp_step. unfold wp at 1, read. simpl. wp_step. eapply wp_expect; [exact Hl|]. exact HQ.
Qed.

Lemma wp_run_fields ptr us g (Q : _ → GicV3 H → Prop) : Forall word_field us →
  (∀ m, (∀ a, (∀ i, 0 ≤ i < 4 → a ≠ ptr + 8 * i) → m a = mem64 g a) →
     (∀ i, 0 ≤ i < 4 → builder (word_updates i us) (mem64 g (ptr + 8 * i)) = Some (m (ptr + 8 * i))) →
     Q tt (set_mem64 m g)) →
  wp (run_fields ptr us) Q g.
Proof.
  revert g Q. induction us as [|[i [f v]] us IH]; intros g Q HF HQ; cbn [run_fields].
  { wp_step. replace g with (set_mem64 (mem64 g) g) by by destruct g. by apply HQ. }
  apply Forall_cons in HF as [[Hi Hf] HF]. simpl in Hi, Hf.
  wp_step. apply wp_cmd_field; [done|]. intros new Hnew. apply IH; [done|].
  intros m Hout Hin. simpl in Hout, Hin. rewrite set_mem64_twice. apply HQ.
  - intros a Ha. rewrite Hout by done. destruct (Z.eqb_spec a (ptr + 8 * i)); [|done].
    exfalso. by eapply Ha.
  - intros k Hk. specialize (Hin k Hk). unfold word_updates in *. rewrite filter_cons. simpl.
    destruct (Z.eqb_spec (ptr + 8 * k) (ptr + 8 * i)); case_decide; try lia; [|done].
    subst k. simpl. rewrite Hnew. done.
Qed.

(** ** The ring *)

Definition queue_ok (q : ItsCmdQueue) : Prop := 0 ≤ write_offset q < num_entries q.

Definition advance (q : ItsCmdQueue) : ItsCmdQueue :=
  {| q_base := q_base q; write_offset := (write_offset q + 1) mod num_entries q; num_entries := num_entries q |}.

(** The address of the slot the next command goes to. *)
Definition slot (q : ItsCmdQueue) : Z := q_base q + write_offset q * 32.

(** The queue was full and nothing has been written, or the command with the
    updates [us] is in the slot, nothing else in memory has changed, and the
    write offset has advanced. *)
Definition pushed (us : list (Z * update)) (q : ItsCmdQueue) g (r : Result unit) g' : Prop :=
  (r = Err CommandQueueFull ∧ hw_step g g') ∨
  ((r = Ok tt ∨ r = Err HardwareStalled ∨ r = Err CommandTimeout) ∧
   ∃ h m, g' = set_hw h (set_mem64 m (set_queue (Some (advance q)) g)) ∧
     (∀ a, (∀ i, 0 ≤ i < 4 → a ≠ slot q + 8 * i) → m a = mem64 g a) ∧
     (∀ i, 0 ≤ i < 4 → builder (word_updates i us) 0 = Some (m (slot q + 8 * i)))).

Definition its_ready g (p : Z) (q : ItsCmdQueue) : Prop :=
  its g = Some p ∧ p ≠ 0 ∧ its_cmd_queue g = Some q ∧ queue_ok q.

Lemma wp_its_ref g p (Q : _ → GicV3 H → Prop) : its g = Some p → p ≠ 0 → Q (Some p) g → wp its_ref Q g.
Proof.
  intros Hi Hp HQ. unfold its_ref. wp_step. apply wp_get. rewrite Hi. wp_step.
  apply wp_assert; [by apply negb_true_iff, Z.eqb_neq|]. by wp_step.
Qed.

Lemma wp_push_cmd build us g p q : its_ready g p q → Forall word_field us →
  (∀ ptr g, build ptr g = run_fields ptr us g) →
  wp (push_cmd build) (pushed us q g) g.
Proof.
  intros (Hi & Hp & Hq & Hok) HF Hb. unfold push_cmd. wp_step. apply (wp_its_ref g p); [done..|].
  wp_step. apply wp_get. rewrite Hq. wp_step. apply wp_hw_read; [done|]. intros cr g1 [h1 ->].
  wp_step. apply wp_assert; [apply negb_true_iff, Z.eqb_neq; unfold queue_ok in Hok; lia|].
  case_match eqn:Efull.
  { wp_step. left. split; [done|]. by exists h1. }
  clear Efull. change (q_base q + write_offset q * 32) with (slot q).
  wp_step. apply wp_modify. wp_step. apply wp_modify. wp_step. apply wp_modify. wp_step. apply wp_modify.
  rewrite !set_mem64_twice. simpl mem64. set (m0 := λ x, if x =? slot q + 24 then 0 else _).
  assert (∀ i, 0 ≤ i < 4 → m0 (slot q + 8 * i) = 0) as Hz.
  { intros i Hi4. unfold m0. assert (i = 0 ∨ i = 1 ∨ i = 2 ∨ i = 3) as [-> | [-> | [-> | ->]]] by lia;
    repeat case_match; (done || lia). }
  assert (∀ a, (∀ i, 0 ≤ i < 4 → a ≠ slot q + 8 * i) → m0 a = mem64 g a) as Hout.
  { intros a Ha. pose proof (Ha 0 ltac:(lia)). pose proof (Ha 1 ltac:(lia)). pose proof (Ha 2 ltac:(lia)).
    pose proof (Ha 3 ltac:(lia)). unfold m0. repeat case_match; (done || lia). }
  wp_step. eapply wp_ext; [apply Hb|]. apply wp_run_fields; [done|]. simpl mem64. intros m Hm1 Hm2.
  wp_step. apply wp_modify. wp_step. apply wp_hw_modify; [done|]. intros g2 [h2 ->].
  eapply wp_mono; [apply wp_cmd_wait|]. intros r g' [[h3 ->] Hr]. right. split; [done|].
  exists h3, m. split; [done|]. split.
  - intros a Ha. by rewrite Hm1, Hout.
  - intros i Hi4. by rewrite <- Hm2, Hz.
Qed.
End driver.
