(* ===== verification/GicTheorems.v ===== *)
(** * Contracts of the GICv3 driver

    Commands of the ITS, message-signalled interrupts, interrupt routing and
    handler dispatch.  Everything holds for every behaviour of the hardware
    interface. *)

From stdpp Require Import strings.
From S2P Require Import Prelude Vm Registers GicRegs Lpi Gic GicProofs.

(** ** Commands of the ITS *)

Inductive its_cmd :=
| MAPD (device_id itt_addr num_events_log2 : Z) (valid : bool)
| MAPC (icid rdbase : Z) (valid : bool)
| MAPTI (device_id event_id lpi icid : Z)
| INVALL (icid : Z)
| SYNC (rdbase : Z)
| DISCARD (device_id event_id : Z)
| INV (device_id event_id : Z).

Definition mapd_size (n : Z) : Z := if 0 <? n then n - 1 else 0.

(** The fields that the driver writes, by word. *)
Definition cmd_fields (c : its_cmd) : list (Z * update) :=
  match c with
  | MAPD d itt n valid =>
      [(0, upd ItsCmdWord0_Cmd 0x08); (0, upd ItsCmdWord0_DeviceId d);
       (1, upd ItsMapdWord1_Size (wrap 8 (mapd_size n)));
       (2, upd ItsMapdWord2_IttAddr (Z.shiftr itt 8)); (2, upd ItsMapdWord2_Valid valid)]
  | MAPC icid rdbase valid =>
      [(0, upd ItsCmdWord0_Cmd 0x09); (2, upd ItsMapcWord2_Icid (wrap 16 icid));
       (2, upd ItsMapcWord2_RdBase rdbase); (2, upd ItsMapcWord2_Valid valid)]
  | MAPTI d e lpi icid =>
      [(0, upd ItsCmdWord0_Cmd 0x0A); (0, upd ItsCmdWord0_DeviceId d); (1, upd ItsMaptiWord1_EventId e);
       (1, upd ItsMaptiWord1_pIntId lpi); (2, upd ItsMaptiWord2_Icid (wrap 16 icid))]
  | INVALL icid => [(0, upd ItsCmdWord0_Cmd 0x0D); (2, upd ItsInvallWord2_Icid (wrap 16 icid))]
  | SYNC rdbase => [(0, upd ItsCmdWord0_Cmd 0x05); (2, upd ItsSyncWord2_RdBase rdbase)]
  | DISCARD d e =>
      [(0, upd ItsCmdWord0_Cmd 0x0F); (0, upd ItsCmdWord0_DeviceId d); (1, upd ItsDiscardWord1_EventId e)]
  | INV d e =>
      [(0, upd ItsCmdWord0_Cmd 0x0C); (0, upd ItsCmdWord0_DeviceId d); (1, upd ItsInvWord1_EventId e)]
  end.

(** What the hardware reads out of the words of a command. *)
Definition decodes (c : its_cmd) (w : Z → Z) : Prop :=
  match c with
  | MAPD d itt n valid =>
      lift ItsCmdWord0_Cmd (w 0) = Some 0x08 ∧ lift ItsCmdWord0_DeviceId (w 0) = Some d ∧
      lift ItsMapdWord1_Size (w 1) = Some (mapd_size n) ∧
      lift ItsMapdWord2_IttAddr (w 2) = Some (itt / 2 ^ 8) ∧ lift ItsMapdWord2_Valid (w 2) = Some valid
  | MAPC icid rdbase valid =>
      lift ItsCmdWord0_Cmd (w 0) = Some 0x09 ∧ lift ItsMapcWord2_Icid (w 2) = Some icid ∧
      lift ItsMapcWord2_RdBase (w 2) = Some rdbase ∧ lift ItsMapcWord2_Valid (w 2) = Some valid
  | MAPTI d e lpi icid =>
      lift ItsCmdWord0_Cmd (w 0) = Some 0x0A ∧ lift ItsCmdWord0_DeviceId (w 0) = Some d ∧
      lift ItsMaptiWord1_EventId (w 1) = Some e ∧ lift ItsMaptiWord1_pIntId (w 1) = Some lpi ∧
      lift ItsMaptiWord2_Icid (w 2) = Some icid
  | INVALL icid => lift ItsCmdWord0_Cmd (w 0) = Some 0x0D ∧ lift ItsInvallWord2_Icid (w 2) = Some icid
  | SYNC rdbase => lift ItsCmdWord0_Cmd (w 0) = Some 0x05 ∧ lift ItsSyncWord2_RdBase (w 2) = Some rdbase
  | DISCARD d e =>
      lift ItsCmdWord0_Cmd (w 0) = Some 0x0F ∧ lift ItsCmdWord0_DeviceId (w 0) = Some d ∧
      lift ItsDiscardWord1_EventId (w 1) = Some e
  | INV d e =>
      lift ItsCmdWord0_Cmd (w 0) = Some 0x0C ∧ lift ItsCmdWord0_DeviceId (w 0) = Some d ∧
      lift ItsInvWord1_EventId (w 1) = Some e
  end.

(** Arguments within the widths of their fields. *)
Definition cmd_ok (c : its_cmd) : Prop :=
  match c with
  | MAPD d itt n _ => 0 ≤ d < 2 ^ 32 ∧ 0 ≤ itt < 2 ^ 52 ∧ 0 ≤ n ≤ 32
  | MAPC icid rdbase _ => 0 ≤ icid < 2 ^ 16 ∧ 0 ≤ rdbase < 2 ^ 36
  | MAPTI d e lpi icid => 0 ≤ d < 2 ^ 32 ∧ 0 ≤ e < 2 ^ 32 ∧ 0 ≤ lpi < 2 ^ 32 ∧ 0 ≤ icid < 2 ^ 16
  | INVALL icid => 0 ≤ icid < 2 ^ 16
  | SYNC rdbase => 0 ≤ rdbase < 2 ^ 36
  | DISCARD d e | INV d e => 0 ≤ d < 2 ^ 32 ∧ 0 ≤ e < 2 ^ 32
  end.

Lemma fits_widen b o w k (v : Z) : 0 ≤ v < 2 ^ w → v < 2 ^ k → fits (mkField b o w (FWiden k)) v.
Proof. intros Hv Hk. unfold fits. simpl. rewrite (Z.mod_small v) by lia. by rewrite wrap_small by lia. Qed.

Lemma fits_raw b o w (v : Z) : 0 ≤ v < 2 ^ w → fits (mkField b o w FRaw) v.
Proof. intros Hv. unfold fits. simpl. by rewrite (Z.mod_small v) by lia. Qed.

Lemma fits_bool b o w (v : bool) : 0 < w → fits (mkField b o w FBool) v.
Proof.
  intros Hw. unfold fits. simpl. pose proof (Z.pow_le_mono_r 2 1 w ltac:(lia) ltac:(lia)).
  destruct v; rewrite Z.mod_small by lia; done.
Qed.

Definition reg_ok (r : Register) : bool := declare_register r && bool_decide (fields_ok r).

Lemma word_lift r us w f v : reg_ok r = true → (0 <=? reg_bits r) = true →
  Forall (update_ok r) us → NoDup (ufield <$> us) → builder us 0 = Some w → existT f v ∈ us →
  lift f w = Some v.
Proof.
  intros [Hc Hok%bool_decide_eq_true]%andb_true_iff Hb HF Hnd Hw Hin.
  pose proof (pow2_pos (reg_bits r) ltac:(lia)).
  destruct (builder_ok r us 0 Hc Hok HF Hnd ltac:(lia)) as (w' & Hw' & _ & Hl & _).
  rewrite Hw in Hw'. simplify_eq. by apply Hl.
Qed.

Ltac in_list := first [ apply list_elem_of_here | apply list_elem_of_further; in_list ].
Ltac solve_fits := unfold upd; cbn [ufield projT1 projT2]; first [ apply fits_bool; lia | apply fits_raw; lia | apply fits_widen; lia ].
Ltac solve_word r W :=
  lazymatch goal with |- lift ?f _ = Some ?v => refine (word_lift r _ _ f v _ _ _ _ W _) end;
  [ vm_compute; reflexivity | reflexivity
  | repeat apply Forall_cons_2; try apply Forall_nil_2; (split; [in_list|solve_fits])
  | apply (bool_decide_unpack _); vm_compute; exact I
  | in_list ].

Lemma cmd_decodes c (w : Z → Z) : cmd_ok c →
  (∀ i, 0 ≤ i < 4 → builder (word_updates i (cmd_fields c)) 0 = Some (w i)) → decodes c w.
Proof.
  intros Hok Hw. pose proof (Hw 0 ltac:(lia)) as W0. pose proof (Hw 1 ltac:(lia)) as W1.
  pose proof (Hw 2 ltac:(lia)) as W2. clear Hw. destruct c; simpl in Hok.
  - assert (0 ≤ mapd_size num_events_log2 < 32) as Hs by (unfold mapd_size; case_match; lia).
    assert (0 ≤ Z.shiftr itt_addr 8 < 2 ^ 44) as Hi.
    { rewrite Z.shiftr_div_pow2 by lia. split; [apply Z.div_pos; lia|]. apply Z.div_lt_upper_bound; lia. }
    change (word_updates 0 _) with [upd ItsCmdWord0_Cmd 0x08; upd ItsCmdWord0_DeviceId device_id] in W0.
    change (word_updates 1 _) with [upd ItsMapdWord1_Size (wrap 8 (mapd_size num_events_log2))] in W1.
    change (word_updates 2 _) with [upd ItsMapdWord2_IttAddr (Z.shiftr itt_addr 8); upd ItsMapdWord2_Valid valid] in W2.
    rewrite wrap_small in W1 by lia. simpl. rewrite <- (Z.shiftr_div_pow2 itt_addr 8) by lia.
    split_and!; [solve_word ItsCmdWord0 W0|solve_word ItsCmdWord0 W0|solve_word ItsMapdWord1 W1|solve_word ItsMapdWord2 W2|solve_word ItsMapdWord2 W2].
  - change (word_updates 0 _) with [upd ItsCmdWord0_Cmd 0x09] in W0.
    change (word_updates 2 _) with [upd ItsMapcWord2_Icid (wrap 16 icid); upd ItsMapcWord2_RdBase rdbase;
      upd ItsMapcWord2_Valid valid] in W2. rewrite wrap_small in W2 by lia.
    split_and!; [solve_word ItsCmdWord0 W0|solve_word ItsMapcWord2 W2|solve_word ItsMapcWord2 W2|solve_word ItsMapcWord2 W2].
  - change (word_updates 0 _) with [upd ItsCmdWord0_Cmd 0x0A; upd ItsCmdWord0_DeviceId device_id] in W0.
    change (word_updates 1 _) with [upd ItsMaptiWord1_EventId event_id; upd ItsMaptiWord1_pIntId lpi] in W1.
    change (word_updates 2 _) with [upd ItsMaptiWord2_Icid (wrap 16 icid)] in W2. rewrite wrap_small in W2 by lia.
    split_and!; [solve_word ItsCmdWord0 W0|solve_word ItsCmdWord0 W0|solve_word ItsMaptiWord1 W1|solve_word ItsMaptiWord1 W1|solve_word ItsMaptiWord2 W2].
  - change (word_updates 0 _) with [upd ItsCmdWord0_Cmd 0x0D] in W0.
    change (word_updates 2 _) with [upd ItsInvallWord2_Icid (wrap 16 icid)] in W2. rewrite wrap_small in W2 by lia.
    split_and!; [solve_word ItsCmdWord0 W0|solve_word ItsInvallWord2 W2].
  - change (word_updates 0 _) with [upd ItsCmdWord0_Cmd 0x05] in W0.
    change (word_updates 2 _) with [upd ItsSyncWord2_RdBase rdbase] in W2.
    split_and!; [solve_word ItsCmdWord0 W0|solve_word ItsSyncWord2 W2].
  - change (word_updates 0 _) with [upd ItsCmdWord0_Cmd 0x0F; upd ItsCmdWord0_DeviceId device_id] in W0.
    change (word_updates 1 _) with [upd ItsDiscardWord1_EventId event_id] in W1.
    split_and!; [solve_word ItsCmdWord0 W0|solve_word ItsCmdWord0 W0|solve_word ItsDiscardWord1 W1].
  - change (word_updates 0 _) with [upd ItsCmdWord0_Cmd 0x0C; upd ItsCmdWord0_DeviceId device_id] in W0.
    change (word_updates 1 _) with [upd ItsInvWord1_EventId event_id] in W1.
    split_and!; [solve_word ItsCmdWord0 W0|solve_word ItsCmdWord0 W0|solve_word ItsInvWord1 W1].
Qed.

Section driver.
Context {H : Type} {HD : GicDevice H} {T : AddressTranslator}.
Implicit Types g : GicV3 H.

Definition push (c : its_cmd) : M (GicV3 H) (Result unit) :=
  match c with
  | MAPD d itt n valid => push_mapd d itt n valid
  | MAPC icid rdbase valid => push_mapc icid rdbase valid
  | MAPTI d e lpi icid => push_mapti d e lpi icid
  | INVALL icid => push_invall icid
  | SYNC rdbase => push_sync rdbase
  | DISCARD d e => push_discard d e
  | INV d e => push_inv d e
  end.

(** The body of a command is the sequence of its field updates. *)
Ltac same_fields := intros ptr g0; cbn [run_fields cmd_fields]; unfold bind, upd, mapd_size;
  repeat match goal with
  | |- match ?c with _ => _ end = match ?c with _ => _ end => destruct c as [[[] ?]|]; [|done]
  end;
  match goal with |- _ = match ?c with _ => _ end => by destruct c as [[[] ?]|] end.

Lemma wp_push c g p q : its_ready g p q → wp (push c) (pushed (cmd_fields c) q g) g.
Proof.
  intros Hr. assert (Forall word_field (cmd_fields c)) as HF.
  { destruct c; repeat apply Forall_cons_2; try apply Forall_nil_2; (split; [simpl; lia|done]). }
  destruct c; (eapply wp_push_cmd; [exact Hr|exact HF|]); same_fields.
Qed.

(** A sequence of commands changes the hardware, the memory of the queue and
    its write offset. *)
Definition its_step g g' : Prop := ∃ h m q, g' = set_hw h (set_mem64 m (set_queue (Some q) g)) ∧ queue_ok q.
Definition ready g : Prop := ∃ p q, its_ready g p q.

Lemma its_step_refl g : ready g → its_step g g.
Proof. intros (p & q & Hi & _ & Hq & Hok). exists (hw g), (mem64 g), q. split; [|done]. destruct g; simpl in *. by subst. Qed.

Lemma its_step_trans g1 g2 g3 : its_step g1 g2 → its_step g2 g3 → its_step g1 g3.
Proof. intros (h1 & m1 & q1 & -> & _) (h2 & m2 & q2 & -> & Hq). by exists h2, m2, q2. Qed.

Lemma its_step_ready g g' : ready g → its_step g g' → ready g'.
Proof. intros (p & q & Hi & Hp & _) (h & m & q' & -> & Hq). exists p, q'. by split_and!. Qed.

Lemma hw_its_step g g' : ready g → hw_step g g' → its_step g g'.
Proof.
  intros (p & q & Hi & _ & Hq & Hok) [h ->]. exists h, (mem64 g), q. split; [|done].
  destruct g; simpl in *. by subst.
Qed.

Lemma advance_ok q : queue_ok q → queue_ok (advance q).
Proof. unfold queue_ok, advance. simpl. intros. apply Z.mod_pos_bound. lia. Qed.

Lemma wp_push_step c g : ready g → wp (push c) (λ _ g', its_step g g') g.
Proof.
  intros Hr. pose proof Hr as (p & q & Hpq). eapply wp_mono; [by apply (wp_push c g p q)|].
  intros r g' [[_ Hs]|(_ & h & m & -> & _)]; [by apply hw_its_step|].
  exists h, m, (advance q). split; [done|]. apply advance_ok. apply Hpq.
Qed.

Lemma wp_rdbase i g : ready g → wp (rdbase_for_redist i) (λ _ g', its_step g g') g.
Proof.
  intros Hr. pose proof Hr as (p & q & Hi & Hp & _). unfold rdbase_for_redist. wp_step.
  apply (wp_its_ref g p); [done..|]. wp_step. apply wp_get. destruct (redistributors g !! Z.to_nat i).
  - wp_step. apply wp_hw_read; [done|]. intros v g1 S1. wp_step. apply wp_hw_read; [done|]. intros w g2 S2.
    wp_step. apply hw_its_step; [done|]. by eapply hw_step_trans.
  - wp_step. by apply its_step_refl.
Qed.

Lemma wp_sync_all n i g : ready g → wp (sync_all n i) (λ _ g', its_step g g') g.
Proof.
  revert i g. induction n as [|n IH]; intros i g Hr; cbn [sync_all]; [wp_step; by apply its_step_refl|].
  wp_step. eapply wp_mono; [by apply wp_rdbase|]. intros rd g1 S1.
  assert (ready g1) as Hr1 by by eapply its_step_ready.
  apply wp_try. apply (wp_mono _ (λ _ g', its_step g1 g')).
  - destruct rd as [rd|]; [exact (wp_push_step (SYNC rd) g1 Hr1)|]. wp_step. by apply its_step_refl.
  - intros r g2 S2. pose proof (its_step_trans _ _ _ S1 S2) as S12.
    destruct r; [|done]. eapply wp_mono; [apply IH; exact (its_step_ready _ _ Hr1 S2)|].
    intros r' g3 S3. exact (its_step_trans _ _ _ S12 S3).
Qed.

(** ** Events *)

Record events_inv g : Prop := {
  ei_lpis : lpi_inv (lpi_alloc g);
  ei_map d e l : event_mappings g !! (d, e) = Some l →
    used (lpi_alloc g) l = true ∧ ∃ icid, lpi_to_event g !! l = Some (d, e, icid)
}.

Lemma its_step_events g g' : its_step g g' → events_inv g → events_inv g'.
Proof. intros (h & m & q & -> & _) [I1 I2]. by split. Qed.

Lemma wp_on_lpis {A} (c : M LpiAllocator A) Q g :
  wp c (λ a l, Q a (set_events l (lpi_to_event g) (event_mappings g) g)) (lpi_alloc g) →
  wp (on_lpis c) Q g.
Proof. unfold wp, on_lpis. by destruct (c (lpi_alloc g)) as [[a l]|]. Qed.

(** Taking a free LPI. *)
Definition lpi_taken g (l : Z) g' : Prop := ∃ a,
  g' = set_events a (lpi_to_event g) (event_mappings g) g ∧ lpi_inv a ∧
  used (lpi_alloc g) l = false ∧ ∀ i, used a i = if decide (i = l) then true else used (lpi_alloc g) i.

Lemma wp_pick_lpi id g : lpi_inv (lpi_alloc g) →
  wp (pick_lpi id) (λ r g', match r with
    | Ok l => lpi_taken g l g' ∧ (∀ i, id = Some i → l = i)
    | Err e => (e = LpiAlreadyUsed ∨ e = NoAvailableLpi) ∧
        ∃ a, g' = set_events a (lpi_to_event g) (event_mappings g) g ∧ lpi_inv a ∧
             ∀ i, used a i = used (lpi_alloc g) i
    end) g.
Proof.
  intros I. unfold pick_lpi. destruct id as [id|].
  - wp_step. apply wp_on_lpis. eapply wp_mono; [by apply wp_reserve_used|]. intros ok a (I' & Eok & Hu).
    destruct ok; wp_step.
    + symmetry in Eok. apply andb_true_iff in Eok as [_ Hn%negb_true_iff]. split; [|by intros i [= <-]].
      exists a. split_and!; [done..|]. intros i. rewrite Hu. by repeat case_decide; naive_solver.
    + split; [auto|]. exists a. split_and!; [done..|]. intros i. rewrite Hu, decide_False; [done|]. by intros [_ ?].
  - wp_step. apply wp_on_lpis. eapply wp_mono; [by apply wp_alloc|]. intros [l|] a [I' Hu]; wp_step.
    + split; [|done]. destruct Hu as (_ & Hf & _ & Hu). by exists a.
    + split; [auto|]. destruct Hu as [_ Hu]. by exists a.
Qed.

(** ** Contracts *)


(** Mapping an event on any hardware. *)
Lemma wp_msi_map_event d e id cpu g : ready g → events_inv g →
  wp (msi_map_event d e id cpu) (λ r g', ready g' ∧ events_inv g' ∧
    match r with
    | Ok l => used (lpi_alloc g) l = false ∧ (∀ i, id = Some i → l = i) ∧
              event_mappings g' = <[(d, e) := l]> (event_mappings g)
    | Err _ => event_mappings g' = event_mappings g
    end) g.
Proof.
  intros Hr I. unfold msi_map_event. apply wp_try. eapply wp_mono; [by apply wp_pick_lpi, I|].
  pose proof Hr as (p & q & Hi & Hrest).
  intros [l|er] g1; cbv beta iota.
  2:{ intros (_ & a & -> & Ia & Hu). split_and!; [by exists p, q| |done].
      split; [done|]. intros d' e' l' Hl. simpl. rewrite Hu. by apply (ei_map _ I). }
  intros [(a & -> & Ia & Hfree & Hu) Hid]. wp_step. apply wp_get. simpl its. rewrite Hi.
  set (g1 := set_events a _ _ g). assert (ready g1) as Hr1 by by exists p, q.
  assert (events_inv g1) as I1.
  { split; [done|]. intros d' e' l' Hl. simpl. rewrite Hu. case_decide; subst.
    - split; [done|]. by apply (ei_map _ I) in Hl as [].
    - by apply (ei_map _ I). }
  apply wp_try. eapply wp_mono; [exact (wp_push_step (MAPTI d e l cpu) g1 Hr1)|]. intros r g2 S2.
  pose proof (its_step_ready _ _ Hr1 S2) as Hr2. pose proof (its_step_events _ _ S2 I1) as I2.
  destruct S2 as (h & m & q2 & -> & Hq2). destruct r as [[]|er]; [|by split_and!].
  wp_step. apply wp_modify. wp_step. apply wp_modify. wp_step. split_and!; [done| |done|done|done].
  split; [done|]. intros d' e' l' Hl. simpl in Hl |- *. rewrite Hu.
  rewrite lookup_insert in Hl. case_decide as Ek; simplify_eq.
  - rewrite decide_True by done. split; [done|]. eexists. by rewrite lookup_insert_eq.
  - destruct (ei_map _ I _ _ _ Hl) as (Hused & icid & Hlk). case_decide; [congruence|].
    split; [done|]. exists icid. rewrite lookup_insert_ne by congruence. done.
Qed.

(** C24: mapping an event returns for every hardware behaviour.  On success
    the event is mapped to an LPI that was free, the requested one if one was
    requested; on failure no event changes; and the mapping stays consistent:
    every mapped event has an LPI that is taken and points back to it, so two
    events never share one. *)
Theorem msi_map_event_spec d e id cpu g : ready g → events_inv g →
  wp (msi_map_event d e id cpu) (λ r g', ready g' ∧ events_inv g' ∧
    (∀ k1 k2 l, event_mappings g' !! k1 = Some l → event_mappings g' !! k2 = Some l → k1 = k2) ∧
    match r with
    | Ok l => used (lpi_alloc g) l = false ∧ (∀ i, id = Some i → l = i) ∧
              event_mappings g' = <[(d, e) := l]> (event_mappings g)
    | Err _ => event_mappings g' = event_mappings g
    end) g.
Proof.
  intros Hr I. eapply wp_mono; [by apply wp_msi_map_event|]. intros r g' (R & I' & Hm). split_and!; [done|done| |done].
  intros [d1 e1] [d2 e2] l H1 H2. apply (ei_map _ I') in H1 as (_ & i1 & E1).
  apply (ei_map _ I') in H2 as (_ & i2 & E2). congruence.
Qed.

(** unmapping an event returns for every hardware behaviour; on success
    the event is gone and its LPI is free again and has no handler, and in
    every case the mapping stays consistent. *)
Theorem msi_unmap_event_spec d e g : ready g → events_inv g →
  wp (msi_unmap_event d e) (λ r g', ready g' ∧ events_inv g' ∧
    match r with
    | Ok _ => event_mappings g' = delete (d, e) (event_mappings g) ∧
        (∀ l, event_mappings g !! (d, e) = Some l →
           used (lpi_alloc g') l = false ∧ lpi_handlers g' !! l = None)
    | Err _ => event_mappings g' = event_mappings g
    end) g.
Proof.
  intros Hr I. unfold msi_unmap_event. wp_step. apply wp_get.
  pose proof Hr as (p & q & Hi & Hrest). rewrite Hi.
  apply wp_try. eapply wp_mono; [exact (wp_push_step (DISCARD d e) g Hr)|]. intros r g1 S1.
  pose proof (its_step_ready _ _ Hr S1) as Hr1. pose proof (its_step_events _ _ S1 I) as I1.
  destruct r as [[]|er]; [|destruct S1 as (h & m & q1 & -> & _); by split_and!].
  wp_step. apply wp_get. apply wp_try. eapply wp_mono; [by apply wp_sync_all|]. intros r g2 S2.
  pose proof (its_step_ready _ _ Hr1 S2) as Hr2. pose proof (its_step_events _ _ S2 I1) as I2.
  pose proof (its_step_trans _ _ _ S1 S2) as (h & m & q2 & -> & _). clear S1 S2 I1 Hr1.
  destruct r as [[]|er]; [|by split_and!].
  wp_step. apply wp_get. wp_step. apply wp_modify. simpl event_mappings.
  destruct Hr2 as (p2 & q2' & Hr2). destruct (event_mappings g !! (d, e)) as [l|] eqn:El.
  - wp_step. wp_step. apply wp_modify. wp_step. apply wp_on_lpis. simpl.
    eapply wp_mono; [apply wp_free_used, I2|]. intros _ a [Ia Hu]. apply wp_modify. wp_step.
    split_and!; [by exists p2, q2'| |done|].
    + split; [done|]. intros d' e' l' Hl. simpl in Hl |- *. rewrite lookup_delete in Hl.
      case_decide as Ek; [done|]. destruct (ei_map _ I _ _ _ Hl) as (Hused & icid & Hlk).
      destruct (ei_map _ I _ _ _ El) as (_ & icid0 & Hlk0).
      assert (l' ≠ l) as Hne by (intros ->; congruence).
      rewrite Hu, decide_False by done. split; [done|]. exists icid. by rewrite lookup_delete_ne.
    + intros ? [= <-]. simpl. rewrite Hu, decide_True by done. split; [done|]. apply lookup_delete_eq.
  - wp_step. wp_step. wp_step. split_and!; [by exists p2, q2'| |done|done].
    split; [apply I2|]. intros d' e' l' Hl. simpl in Hl |- *. rewrite lookup_delete in Hl.
    case_decide; [done|]. by apply (ei_map _ I).
Qed.

(** when the command of a new mapping fails, the LPI that was allocated
    for it stays taken although no event uses it. *)
Theorem msi_map_event_leaks d e cpu g : ready g → events_inv g →
  wp (msi_map_event d e None cpu) (λ r g', ∀ err, r = Err err → err ≠ NoAvailableLpi →
    err ≠ LpiAlreadyUsed → ∃ l, used (lpi_alloc g) l = false ∧ used (lpi_alloc g') l = true ∧
      event_mappings g' = event_mappings g ∧ lpi_to_event g' = lpi_to_event g) g.
Proof.
  intros Hr I. unfold msi_map_event. apply wp_try. eapply wp_mono; [by apply wp_pick_lpi, I|].
  pose proof Hr as (p & q & Hi & Hrest). intros [l|er] g1; cbv beta iota.
  2:{ intros [Her _] err [= <-] H1 H2. destruct Her; congruence. }
  intros [(a & -> & Ia & Hfree & Hu) _]. wp_step. apply wp_get. simpl its. rewrite Hi.
  set (g1 := set_events a _ _ g). assert (ready g1) as Hr1 by by exists p, q.
  apply wp_try. eapply wp_mono; [exact (wp_push_step (MAPTI d e l cpu) g1 Hr1)|].
  intros r g2 (h & m & q2 & -> & _). destruct r as [[]|er].
  - wp_step. apply wp_modify. wp_step. apply wp_modify. by wp_step.
  - intros err [= <-] _ _. exists l. split_and!; [done| |done|done]. simpl. by rewrite Hu, decide_True.
Qed.

(** ** Routing and properties *)

(** [set_affinity] indexes the routing registers, which start at SPI 32,
    with the interrupt id itself: it writes the register of the interrupt 32
    above, and panics for the last 28 interrupts. *)
Theorem set_affinity_shifted id aff g :
  (32 ≤ id < 992 → set_affinity id aff g =
     Done (Ok tt, set_hw (mmio_write Gicd (0x6000 + 8 * (id + 32)) aff (hw g)) g)) ∧
  (992 ≤ id < 1020 → faults (set_affinity id aff) Panic g).
Proof.
  assert (∀ id, elem GicdRegisters "irouter" id =
    if (0 <=? id) && (id <? 992) then Some (0x6100 + 8 * id) else None) as He by done.
  split; intros Hid; unfold set_affinity, faults;
    rewrite (proj2 (Z.ltb_ge id 32)), (proj2 (Z.leb_gt 1020 id)) by lia;
    unfold gicd_write_elem; rewrite He, (proj2 (Z.leb_le 0 id)) by lia.
  - rewrite (proj2 (Z.ltb_lt id 992)) by lia. unfold bind. simpl. unfold mmio_w.
    by replace (0x6000 + 8 * (id + 32)) with (0x6100 + 8 * id) by lia.
  - by rewrite (proj2 (Z.ltb_ge id 992)) by lia.
Qed.

(** operations on an id that is neither below 1020 nor an LPI are
    rejected and change nothing. *)
Theorem invalid_id_rejected fuel id g : 1020 ≤ id → is_lpi id = false →
  enable_interrupt fuel id g = Done (Err InvalidInterruptId, g) ∧
  disable_interrupt fuel id g = Done (Err InvalidInterruptId, g) ∧
  end_of_interrupt id g = Done (Err InvalidInterruptId, g) ∧
  (∀ prio, set_priority id prio g = Done (Err InvalidInterruptId, g)) ∧
  (∀ h, register_handler id h g = Done (Err InvalidInterruptId, g)) ∧
  (∀ call, on_interrupt call id g = Done (Err InvalidInterruptId, g)).
Proof.
  intros Hid Hl. unfold enable_interrupt, disable_interrupt, end_of_interrupt, set_priority, register_handler, on_interrupt.
  rewrite (proj2 (Z.ltb_ge id 32)), (proj2 (Z.ltb_ge id 1020)), Hl by lia. done.
Qed.

Definition borrowed (k : nat) g : GicV3 H := set_handlers (interrupt_handlers g) k g.

(** a handler registered for an interrupt is the one that is called for
    it: with the handler table borrowed for the duration of the call when the
    interrupt is below 1020, so that a handler that registers another one is
    told that this is not supported. *)
Theorem handler_dispatch id h g : (0 ≤ id < 1020 ∨ is_lpi id = true) →
  length (interrupt_handlers g) = 1020%nat → borrows g = 0%nat →
  ∃ g1, register_handler id h g = Done (Ok tt, g1) ∧
    (∀ call r g2, id < 1020 → call (dispatch_fn h) id (borrowed 1 g1) = Done (r, g2) →
       on_interrupt call id g1 = Done (r, borrowed (pred (borrows g2)) g2)) ∧
    (∀ call r g2, 1020 ≤ id → call (dispatch_fn h) id g1 = Done (r, g2) →
       on_interrupt call id g1 = Done (r, g2)) ∧
    (∀ id' h', id' < 1020 → register_handler id' h' (borrowed 1 g1) = Done (Err NotSupported, borrowed 1 g1)).
Proof.
  intros Hid Hlen Hb. unfold register_handler at 1. unfold bind, get.
  destruct (Z.ltb_spec id 1020) as [Hlt|Hge].
  - assert (0 ≤ id) as H0.
    { destruct Hid as [|Hl]; [lia|]. unfold is_lpi in Hl. apply andb_true_iff in Hl as [Hl _].
      change LPI_START with 8192 in Hl. lia. }
    rewrite Hb. simpl. unfold assert. rewrite Hlen, (proj2 (Nat.ltb_lt (Z.to_nat id) 1020)) by lia.
    simpl. eexists. split; [reflexivity|]. split_and!.
    + intros call r g2 _ Hc. unfold on_interrupt, bind, get. rewrite (proj2 (Z.ltb_lt id 1020)) by lia.
      simpl. unfold expect. rewrite list_lookup_insert_eq by lia. simpl. rewrite Hb.
      unfold borrowed, set_handlers in Hc. simpl in Hc. unfold set_handlers. simpl. rewrite Hc. done.
    + intros; lia.
    + intros id' h' Hlt'. unfold register_handler, bind, get. by rewrite (proj2 (Z.ltb_lt id' 1020)) by lia.
  - assert (is_lpi id = true) as -> by (destruct Hid; [lia|done]). simpl.
    eexists. split; [reflexivity|]. split_and!.
    + intros; lia.
    + intros call r g2 _ Hc. unfold on_interrupt, bind, get. rewrite (proj2 (Z.ltb_ge id 1020)) by lia.
      assert (is_lpi id = true) as -> by (destruct Hid; [lia|done]). simpl. by rewrite lookup_insert_eq.
    + intros id' h' Hlt'. unfold register_handler, bind, get. by rewrite (proj2 (Z.ltb_lt id' 1020)) by lia.
Qed.

(** An LPI property byte with one field changed; nothing else of the table. *)
Definition prop_updated (f : Field) (v : fval (ftype f)) (other : Field) (a : Z) g g' : Prop :=
  (∀ b, b ≠ a → mem8 g' b = mem8 g b) ∧ lift f (mem8 g' a) = Some v ∧
  lift other (mem8 g' a) = lift other (mem8 g a).

Lemma its_step_prop f v other a g g1 g2 : prop_updated f v other a g g1 → its_step g1 g2 →
  prop_updated f v other a g g2.
Proof. by intros Hp (h & m & q & -> & _). Qed.

Lemma wp_update_lpi_prop id f v other prop g : ready g → lpi_prop_table g = Some prop → LPI_START ≤ id →
  f ∈ reg_fields LpiProp → other ∈ reg_fields LpiProp → f ≠ other → field_okb f = true → fits f v →
  let a := phys_to_dmap prop + (id - LPI_START) in
  0 ≤ mem8 g a < 2 ^ 8 →
  wp (update_lpi_prop id (λ C, modify_field (C := C) f v)) (λ _, prop_updated f v other a g) g.
Proof.
  intros Hr Ht Hid Hf Ho Hne Hfo Hfit a Ha. unfold update_lpi_prop. wp_step. apply wp_get. rewrite Ht.
  wp_step. eapply wp_expect; [unfold checked_sub; by rewrite (proj2 (Z.leb_le _ _)) by lia|]. fold a.
  assert (declare_register LpiProp = true) as Hc by done.
  assert (fields_ok LpiProp) as Hok by by apply (bool_decide_unpack _).
  destruct (declared_field LpiProp f Hc Hok Hf) as [Hfok Hb].
  destruct (set_spec f v (mem8 g a) Hfok ltac:(by rewrite Hb) Hfit) as (new & Hset & _ & Hl & Hoth).
  unfold set in Hset. rewrite (mask_eq f Hfok) in Hset. simpl in Hset.
  destruct (lower_total f v Hfo) as [l Hlow]. rewrite Hlow in Hset. injection Hset as Hset.
  wp_step. unfold modify_field. wp_step. eapply wp_expect; [by apply mask_eq|].
  wp_step. unfold wp at 1, read. cbn [cell_read byte_cell gets].
  wp_step. eapply wp_expect; [exact Hlow|]. rewrite Hset. unfold wp at 1, write. cbn [cell_write byte_cell modify].
  set (g1 := set_mem8 _ g). assert (ready g1) as Hr1 by exact Hr.
  assert (prop_updated f v other a g g1) as Hp.
  { split_and!; simpl.
    - intros b Hne'. by rewrite (proj2 (Z.eqb_neq _ _)).
    - by rewrite Z.eqb_refl.
    - rewrite Z.eqb_refl. apply Hoth; [by apply (declared_field LpiProp)|by apply (declared_distinct LpiProp)]. }
  destruct (its g); [|by wp_step]. wp_step. apply wp_get.
  destruct (lpi_to_event g1 !! id) as [[[d e] icid]|]; [|by wp_step].
  apply wp_try. eapply wp_mono; [exact (wp_push_step (INV d e) g1 Hr1)|]. intros r g2 S2.
  pose proof (its_step_prop _ _ _ _ _ _ _ Hp S2) as Hp2. destruct r as [[]|]; [|done].
  wp_step. eapply wp_mono; [apply wp_rdbase; exact (its_step_ready _ _ Hr1 S2)|]. intros rd g3 S3.
  pose proof (its_step_prop _ _ _ _ _ _ _ Hp2 S3) as Hp3.
  pose proof (its_step_ready _ _ (its_step_ready _ _ Hr1 S2) S3) as Hr3.
  destruct rd as [rd|]; [|by wp_step]. apply wp_try.
  eapply wp_mono; [exact (wp_push_step (SYNC rd) g3 Hr3)|]. intros r g4 S4.
  pose proof (its_step_prop _ _ _ _ _ _ _ Hp3 S4) as Hp4. destruct r as [[]|]; [by wp_step|done].
Qed.

(** enabling, disabling and prioritising an LPI returns for every
    hardware behaviour and changes one byte of the property table: enabling
    and disabling keep the priority, setting the priority keeps the enable
    bit. *)
Theorem lpi_property_spec fuel id prio prop g : ready g → lpi_prop_table g = Some prop → is_lpi id = true →
  0 ≤ prio < 2 ^ 8 → let a := phys_to_dmap prop + (id - LPI_START) in 0 ≤ mem8 g a < 2 ^ 8 →
  wp (enable_interrupt fuel id) (λ _, prop_updated LpiProp_Enabled true LpiProp_Priority a g) g ∧
  wp (disable_interrupt fuel id) (λ _, prop_updated LpiProp_Enabled false LpiProp_Priority a g) g ∧
  wp (set_priority id prio) (λ _, prop_updated LpiProp_Priority (prio / 4) LpiProp_Enabled a g) g.
Proof.
  intros Hr Ht Hl Hp a Ha. unfold enable_interrupt, disable_interrupt, set_priority.
  assert (LPI_START ≤ id) as Hid by (unfold is_lpi in Hl; apply andb_true_iff in Hl as [? _]; lia).
  change LPI_START with 8192 in Hid.
  rewrite (proj2 (Z.ltb_ge id 32)), (proj2 (Z.ltb_ge id 1020)), Hl by lia.
  assert (LpiProp_Enabled ∈ reg_fields LpiProp) as HE by in_list.
  assert (LpiProp_Priority ∈ reg_fields LpiProp) as HP by in_list.
  assert (0 ≤ prio / 4 < 2 ^ 6) as Hq by (Z.div_mod_to_equations; lia).
  assert (Z.shiftr prio 2 = prio / 4) as -> by by rewrite Z.shiftr_div_pow2.
  split_and!; apply wp_try.
  - eapply wp_mono; [apply (wp_update_lpi_prop id LpiProp_Enabled true LpiProp_Priority prop g); try done; solve_fits|].
    intros [[]|] g' Hu; [by wp_step|done].
  - eapply wp_mono; [apply (wp_update_lpi_prop id LpiProp_Enabled false LpiProp_Priority prop g); try done; solve_fits|].
    intros [[]|] g' Hu; [by wp_step|done].
  - eapply wp_mono; [apply (wp_update_lpi_prop id LpiProp_Priority (prio / 4) LpiProp_Enabled prop g); try done; solve_fits|].
    intros [[]|] g' Hu; [by wp_step|done].
Qed.
End driver.

(** when the ITS addresses redistributors physically, the base that the
    driver puts into its commands is computed from the virtual address of the
    direct map, and after truncation to the field it is not the physical
    one. *)
Theorem rdbase_not_physical {H} {HD : GicDevice H} (g : GicV3 H) i p ptr :
  its g = Some ptr → ptr ≠ 0 → phys_addr p →
  redistributors g !! Z.to_nat i = Some (phys_addr_to_dmap p) →
  (∀ h, lift GitsTyper_PTA (mmio_read Gits (off GitsRegisters "type_") h).1 = Some true) →
  wp (rdbase_for_redist (T := KernelAddressTranslator) i)
     (λ r _, ∃ v, r = Some v ∧ v mod 2 ^ 36 ≠ p / 2 ^ 16) g.
Proof.
  intros Hi Hptr Hp Hrd Hpta. unfold rdbase_for_redist. wp_step. apply (wp_its_ref g ptr); [done..|].
  wp_step. apply wp_get. rewrite Hrd. wp_step. apply wp_hw_read; [done|]. intros n g1 S1.
  wp_step. unfold gits_read, read_field. wp_step. unfold wp at 1, read. cbn [cell_read mmio_cell]. unfold mmio_r.
  specialize (Hpta (hw g1)). destruct (mmio_read Gits _ (hw g1)) as [raw h]. simpl in Hpta.
  eapply wp_expect; [exact Hpta|]. wp_step. eexists. split; [done|].
  change (phys_to_dmap (phys_addr_to_dmap p)) with (phys_addr_to_dmap (phys_addr_to_dmap p)).
  rewrite dmap_idempotent, phys_addr_to_dmap_add by done.
  rewrite Z.shiftr_div_pow2 by lia. unfold phys_addr in Hp.
  change DMAP_START with (65535 * 2 ^ 48). change (2 ^ VA_WIDTH) with (2 ^ 48) in Hp.
  assert ((p + 65535 * 2 ^ 48) / 2 ^ 16 = p / 2 ^ 16 + 15 * 2 ^ 32 + 4095 * 2 ^ 36) as -> by (Z.div_mod_to_equations; lia).
  rewrite Z.mod_add by lia. rewrite Z.mod_small; [lia|]. Z.div_mod_to_equations. lia.
Qed.

(** ** Witnesses

    An ITS that consumes every command at once: the state is the write
    pointer, which is also what the read pointer shows. *)

Section witnesses.
#[local] Instance prompt_its : GicDevice Z := {|
  mmio_read b o h := match b with
    | Gits => if (o =? 0x88) || (o =? 0x90) then (h, h) else if o =? 0x8 then (Z.shiftl 1 19, h) else (0, h)
    | _ => (0, h) end;
  mmio_write b o v h := match b with Gits => if o =? 0x88 then v else h | _ => h end;
  read_iar h := (1023, h);
  write_eoir _ h := h;
  enable_group1 h := h;
  set_priority_mask _ h := h;
  sre_enable h := h;
  write_bpr1 _ h := h;
  alloc_zeroed _ _ h := (0, h);
  dealloc _ _ _ h := h;
  this_cpu _ := 0%nat
|}.
Local Existing Instance KernelAddressTranslator.

Definition demo_gic (offset : Z) : GicV3 Z :=
  {| hw := 0; mem64 := λ _, 0; mem8 := λ _, 0xA0; redistributors := [phys_addr_to_dmap 0x80A0000];
     its := Some (phys_addr_to_dmap 0x8080000); interrupt_handlers := replicate 1020 None; borrows := 0;
     lpi_handlers := ∅; device_itts := ∅;
     its_cmd_queue := Some {| q_base := phys_addr_to_dmap 0x40000000; write_offset := offset; num_entries := 2048 |};
     lpi_prop_table := Some 0x50000000; lpi_alloc := demo_lpis; lpi_to_event := {[8194 := (7, 3, 0)]};
     event_mappings := {[(7, 3) := 8194]}; INIT_STATE := 2 |}.

Lemma demo_gic_ready offset : 0 ≤ offset < 2048 →
  its_ready (demo_gic offset) (phys_addr_to_dmap 0x8080000)
    {| q_base := phys_addr_to_dmap 0x40000000; write_offset := offset; num_entries := 2048 |}.
Proof. intros Ho. by split_and!. Qed.

Lemma demo_gic_ready' offset : 0 ≤ offset < 2048 → ready (demo_gic offset).
Proof. intros Ho. eexists _, _. by apply demo_gic_ready. Qed.

Lemma demo_gic_events offset : events_inv (demo_gic offset).
Proof.
  split; [apply demo_lpis_inv|]. simpl. intros d e l [[= <- <-] <-]%lookup_singleton_Some.
  split; [by vm_compute|]. exists 0. apply lookup_singleton_eq.
Qed.


Lemma msi_map_event_spec_witness :
  wp (msi_map_event 7 4 None 0) (λ r g', events_inv g' ∧ (r = Ok 8257 → event_mappings g' !! (7, 4) = Some 8257))
     (demo_gic 0).
Proof.
  refine (wp_mono _ _ _ _ (msi_map_event_spec 7 4 None 0 (demo_gic 0) (demo_gic_ready' 0 _) (demo_gic_events 0)) _).
  - done.
  - intros r g' (_ & I & _ & Hm). split; [exact I|]. intros ->. destruct Hm as (_ & _ & ->). apply lookup_insert_eq.
Defined.

Lemma msi_unmap_event_spec_witness :
  wp (msi_unmap_event 7 3) (λ r g', r = Ok tt → used (lpi_alloc g') 8194 = false) (demo_gic 0).
Proof.
  refine (wp_mono _ _ _ _ (msi_unmap_event_spec 7 3 (demo_gic 0) (demo_gic_ready' 0 _) (demo_gic_events 0)) _).
  - done.
  - intros r g' (_ & _ & Hm) ->. destruct Hm as [_ Hm]. apply (Hm 8194). apply lookup_singleton_eq.
Defined.

(** The ring is full: the read pointer stands at 0. *)
Lemma msi_map_event_leaks_witness : ∃ g' l,
  msi_map_event 7 4 None 0 (demo_gic 2047) = Done (Err CommandQueueFull, g') ∧
  used (lpi_alloc g') l = true ∧ event_mappings g' = event_mappings (demo_gic 2047).
Proof.
  pose proof (msi_map_event_leaks 7 4 0 (demo_gic 2047) (demo_gic_ready' 2047 ltac:(done)) (demo_gic_events 2047)) as Hw.
  destruct (proj1 (wp_run _ _ _) Hw) as (r & g' & Hrun & Hl). clear Hw.
  assert (r = Err CommandQueueFull) as ->.
  { transitivity (match msi_map_event 7 4 None 0 (demo_gic 2047) with Done (r, _) => r | Fault _ => Ok 0 end);
      [by rewrite Hrun|by vm_compute]. }
  destruct (Hl CommandQueueFull eq_refl ltac:(discriminate) ltac:(discriminate)) as (l & _ & Hu & Hm & _).
  exists g', l. split_and!; [exact Hrun|exact Hu|exact Hm].
Defined.

Lemma set_affinity_shifted_witness :
  set_affinity 40 1 (demo_gic 0) = Done (Ok tt, set_hw (mmio_write Gicd (0x6000 + 8 * 72) 1 0) (demo_gic 0)) ∧
  faults (set_affinity 1000 1) Panic (demo_gic 0).
Proof.
  split.
  - apply (set_affinity_shifted 40 1 (demo_gic 0)). lia.
  - apply (set_affinity_shifted 1000 1 (demo_gic 0)). lia.
Defined.

Lemma invalid_id_rejected_witness : enable_interrupt 1 1021 (demo_gic 0) = Done (Err InvalidInterruptId, demo_gic 0).
Proof. apply (invalid_id_rejected 1 1021 (demo_gic 0)); [lia|reflexivity]. Defined.

Lemma handler_dispatch_witness : ∃ g1,
  register_handler 33 {| target := Distributor; dispatch_fn := 99 |} (demo_gic 0) = Done (Ok tt, g1).
Proof.
  destruct (handler_dispatch 33 {| target := Distributor; dispatch_fn := 99 |} (demo_gic 0)) as (g1 & Hg & _).
  - left. lia.
  - reflexivity.
  - reflexivity.
  - exists g1. exact Hg.
Defined.

Lemma lpi_property_spec_witness :
  wp (enable_interrupt 1 8195) (λ _ g', lift LpiProp_Enabled (mem8 g' (phys_addr_to_dmap 0x50000000 + 3)) = Some true)
     (demo_gic 0).
Proof.
  destruct (lpi_property_spec 1 8195 0 0x50000000 (demo_gic 0)) as [Hw _].
  - by apply demo_gic_ready'.
  - reflexivity.
  - reflexivity.
  - lia.
  - done.
  - refine (wp_mono _ _ _ _ Hw _). intros r g' (_ & Hl & _). exact Hl.
Defined.

Lemma rdbase_not_physical_witness :
  wp (rdbase_for_redist 0) (λ r _, ∃ v, r = Some v ∧ v mod 2 ^ 36 ≠ 0x80A0000 / 2 ^ 16) (demo_gic 0).
Proof.
  refine (rdbase_not_physical (demo_gic 0) 0 0x80A0000 (phys_addr_to_dmap 0x8080000) _ _ _ _ _).
  - reflexivity.
  - discriminate.
  - done.
  - reflexivity.
  - intros h. reflexivity.
Defined.
End witnesses.
