(* ===== verification/Block.v ===== *)
(** * The block layer

    Models [klib/src/block/mod.rs]: requests, the hardware adapter, partitions
    and the consumers that connect them.  Providers live in a store, in the
    order in which they were created; a partition reaches its parent through
    its consumer, so a chain of partitions ends at an adapter.  The mutex
    around each provider is not contended in a sequential run and is left
    out. *)

From stdpp Require Import strings.
From S2P Require Import Prelude.

Inductive BlockError :=
| OutOfBounds | UnalignedBuffer | HardwareError | ReadOnly | NotReady | InUse | InvalidPartition
| InvalidBlockSize | AccessUnderflow | NotSupported.

Definition Result (A : Type) : Type := result BlockError A.

(** ** Requests *)

(** A buffer is the list of its bytes. *)
Inductive Command :=
| Read (buf : list Z)
| Write (buf : list Z)
| Flush
| Delete (blocks : Z).

Record IoRequest := { cmd : Command; lba : Z }.

Definition buf_len (c : Command) : Z :=
  match c with
  | Read buf | Write buf => Z.of_nat (length buf)
  | Flush | Delete _ => 0
  end.

Definition blocks (req : IoRequest) (block_size : Z) : Result Z :=
  if block_size =? 0 then Err InvalidBlockSize
  else if (0 <? buf_len (cmd req)) && negb (buf_len (cmd req) mod block_size =? 0)
  then Err UnalignedBuffer
  else Ok (match cmd req with
           | Read _ | Write _ => buf_len (cmd req) / block_size
           | Flush => 0
           | Delete n => n
           end).

Definition is_flush (c : Command) : bool := match c with Flush => true | _ => false end.

(** ** Devices

    The trait [BlockDevice]; a read returns the bytes that end up in the
    buffer.  The default [delete_blocks] is [NotSupported], the default
    [flush] does nothing. *)
Class BlockDevice (D : Type) := {
  dev_block_size : D → Z;
  dev_block_count : D → Z;
  read_blocks : Z → list Z → D → Result (list Z) * D;
  write_blocks : Z → list Z → D → Result unit * D;
  delete_blocks : Z → Z → D → Result unit * D;
  flush : D → Result unit * D
}.

Record Consumer := {
  provider : nat;
  read_count : Z;
  write_count : Z;
  exclusive_count : Z
}.

Definition attach (p : nat) : Consumer :=
  {| provider := p; read_count := 0; write_count := 0; exclusive_count := 0 |}.

Definition set_counts (r w e : Z) (c : Consumer) : Consumer :=
  {| provider := provider c; read_count := r; write_count := w; exclusive_count := e |}.

(** [isize] addition. *)
Definition isize_add (x y : Z) : option Z :=
  if (- 2 ^ 63 <=? x + y) && (x + y <? 2 ^ 63) then Some (x + y) else None.

Section layer.
Context {D : Type} {BD : BlockDevice D}.

Record HardwareAdapter := {
  hw_name : string;
  device : D;
  hw_read_count : Z;
  hw_write_count : Z;
  hw_exclusive_count : Z
}.

Record Partition := {
  part_name : string;
  parent : Consumer;
  start_lba : Z;
  block_count : Z
}.

Inductive Provider := Adapter (a : HardwareAdapter) | Part (p : Partition).

(** The store: providers by creation order. *)
#[local] Abbreviation Store := (list Provider).

Definition get_provider (i : nat) : M Store Provider :=
  let* s := get in
  match s !! i with Some p => ret p | None => fail BadDeref end.
Definition set_provider (i : nat) (p : Provider) : M Store unit := modify (<[i := p]>).

Definition set_device (d : D) (a : HardwareAdapter) : HardwareAdapter :=
  {| hw_name := hw_name a; device := d; hw_read_count := hw_read_count a;
     hw_write_count := hw_write_count a; hw_exclusive_count := hw_exclusive_count a |}.
Definition set_hw_counts (r w e : Z) (a : HardwareAdapter) : HardwareAdapter :=
  {| hw_name := hw_name a; device := device a; hw_read_count := r; hw_write_count := w;
     hw_exclusive_count := e |}.
Definition set_parent (c : Consumer) (p : Partition) : Partition :=
  {| part_name := part_name p; parent := c; start_lba := start_lba p; block_count := block_count p |}.

Definition adapter_new (name : string) (d : D) : HardwareAdapter :=
  {| hw_name := name; device := d; hw_read_count := 0; hw_write_count := 0; hw_exclusive_count := 0 |}.

(** ** Adapter *)

Definition adapter_access (i : nat) (a : HardwareAdapter) (read write exclusive : Z) : M Store (Result unit) :=
  let* new_r := expect (isize_add (hw_read_count a) read) in
  let* new_w := expect (isize_add (hw_write_count a) write) in
  let* new_e := expect (isize_add (hw_exclusive_count a) exclusive) in
  if (new_r <? 0) || (new_w <? 0) || (new_e <? 0) then ret (Err AccessUnderflow)
  else if (0 <? exclusive) &&
          ((0 <? hw_read_count a) || (0 <? hw_write_count a) || (0 <? hw_exclusive_count a))
  then ret (Err InUse)
  else if (0 <? hw_exclusive_count a) && ((0 <? read) || (0 <? write) || (0 <? exclusive))
  then ret (Err InUse)
  else
    let '(r, d) := if (0 <? hw_write_count a) && (new_w <=? 0) then flush (device a) else (Ok tt, device a) in
    match r with
    | Err e => set_provider i (Adapter (set_device d a)) ;; ret (Err e)
    | Ok _ => set_provider i (Adapter (set_hw_counts new_r new_w new_e (set_device d a))) ;; ret (Ok tt)
    end.

(** What a command does on the device; the bytes are those of the buffer
    afterwards. *)
Definition dev_request (req : IoRequest) (d : D) : Result (list Z) * D :=
  match cmd req with
  | Read buf => read_blocks (lba req) buf d
  | Write buf => let '(r, d') := write_blocks (lba req) buf d in
                 (match r with Ok _ => Ok buf | Err e => Err e end, d')
  | Flush => let '(r, d') := flush d in (match r with Ok _ => Ok [] | Err e => Err e end, d')
  | Delete n => let '(r, d') := delete_blocks (lba req) n d in
                (match r with Ok _ => Ok [] | Err e => Err e end, d')
  end.

Definition adapter_request (i : nat) (a : HardwareAdapter) (req : IoRequest) : M Store (Result (list Z)) :=
  let '(r, d) := dev_request req (device a) in
  set_provider i (Adapter (set_device d a)) ;; ret r.

(** [Drop for HardwareAdapter]. *)
Definition adapter_drop (a : HardwareAdapter) : D :=
  if 0 <? hw_write_count a then (flush (device a)).2 else device a.

(** ** Providers

    The trait [Provider].  [fuel] bounds the length of the chain of
    partitions; a provider at position [i] needs at most [i + 1]. *)

Fixpoint provider_block_size (fuel i : nat) : M Store Z :=
  match fuel with
  | O => fail OutOfFuel
  | S fuel' =>
      let* p := get_provider i in
      match p with
      | Adapter a => ret (dev_block_size (device a))
      | Part p => provider_block_size fuel' (provider (parent p))
      end
  end.

Definition provider_block_count (i : nat) : M Store Z :=
  let* p := get_provider i in
  match p with
  | Adapter a => ret (dev_block_count (device a))
  | Part p => ret (block_count p)
  end.

(** [Consumer::access], over the provider's; the consumer afterwards is
    returned with the result. *)
Definition consumer_access_with (acc : nat → Z → Z → Z → M Store (Result unit))
    (c : Consumer) (read write exclusive : Z) : M Store (Result unit * Consumer) :=
  let* new_r := expect (isize_add (read_count c) read) in
  let* new_w := expect (isize_add (write_count c) write) in
  let* new_e := expect (isize_add (exclusive_count c) exclusive) in
  if (new_r <? 0) || (new_w <? 0) || (new_e <? 0) then ret (Err AccessUnderflow, c) else
  let* r := acc (provider c) read write exclusive in
  match r with
  | Ok _ => ret (Ok tt, set_counts new_r new_w new_e c)
  | Err e => ret (Err e, c)
  end.

Fixpoint provider_access (fuel i : nat) (read write exclusive : Z) : M Store (Result unit) :=
  match fuel with
  | O => fail OutOfFuel
  | S fuel' =>
      let* p := get_provider i in
      match p with
      | Adapter a => adapter_access i a read write exclusive
      | Part p =>
          let* rc := consumer_access_with (provider_access fuel') (parent p) read write exclusive in
          set_provider i (Part (set_parent rc.2 p)) ;; ret rc.1
      end
  end.

(** The bounds test shared by consumers and partitions. *)
Definition out_of_bounds (lba n cap : Z) : bool :=
  (cap <? lba) || match checked_add 64 lba n with Some e => cap <? e | None => true end.

(** [Consumer::request]. *)
Definition consumer_request_with (bs : nat → M Store Z) (rq : nat → IoRequest → M Store (Result (list Z)))
    (c : Consumer) (req : IoRequest) : M Store (Result (list Z)) :=
  let* block_size := bs (provider c) in
  let* cap := provider_block_count (provider c) in
  match blocks req block_size with
  | Err e => ret (Err e)
  | Ok n =>
    if negb (is_flush (cmd req)) && ((cap =? 0) || out_of_bounds (lba req) n cap) then ret (Err OutOfBounds) else
    match cmd req with
    | Read buf =>
        if negb (Z.of_nat (length buf) mod block_size =? 0) then ret (Err UnalignedBuffer)
        else if read_count c <=? 0 then ret (Err NotReady)
        else rq (provider c) req
    | Write buf =>
        if negb (Z.of_nat (length buf) mod block_size =? 0) then ret (Err UnalignedBuffer)
        else if write_count c <=? 0 then ret (Err ReadOnly)
        else rq (provider c) req
    | Delete _ => if write_count c <=? 0 then ret (Err ReadOnly) else rq (provider c) req
    | Flush => rq (provider c) req
    end
  end.

(** The request of a partition to its parent: bounds checked against the
    partition and shifted by its start. *)
Definition partition_translate (p : Partition) (block_size : Z) (req : IoRequest) : Result IoRequest :=
  if is_flush (cmd req) then Ok req else
  match blocks req block_size with
  | Err e => Err e
  | Ok n =>
      if out_of_bounds (lba req) n (block_count p) then Err OutOfBounds else
      match checked_add 64 (lba req) (start_lba p) with
      | None => Err OutOfBounds
      | Some l => Ok {| cmd := cmd req; lba := l |}
      end
  end.

Fixpoint provider_request (fuel i : nat) (req : IoRequest) : M Store (Result (list Z)) :=
  match fuel with
  | O => fail OutOfFuel
  | S fuel' =>
      let* p := get_provider i in
      match p with
      | Adapter a => adapter_request i a req
      | Part p =>
          let* block_size := (if is_flush (cmd req) then ret 0
                              else provider_block_size fuel' (provider (parent p))) in
          match partition_translate p block_size req with
          | Err e => ret (Err e)
          | Ok req' => consumer_request_with (provider_block_size fuel') (provider_request fuel') (parent p) req'
          end
      end
  end.

(** ** Consumers *)

(** The fuel that a provider of the store needs. *)
Definition fuel_of (c : Consumer) : nat := S (provider c).

Definition consumer_block_size (c : Consumer) : M Store Z := provider_block_size (fuel_of c) (provider c).
Definition consumer_block_count (c : Consumer) : M Store Z := provider_block_count (provider c).
Definition consumer_access (c : Consumer) (read write exclusive : Z) : M Store (Result unit * Consumer) :=
  consumer_access_with (provider_access (fuel_of c)) c read write exclusive.
Definition consumer_request (c : Consumer) (req : IoRequest) : M Store (Result (list Z)) :=
  consumer_request_with (provider_block_size (fuel_of c)) (provider_request (fuel_of c)) c req.

(** [Drop for Consumer]: the error is discarded. *)
Definition consumer_drop (c : Consumer) : M Store unit :=
  if (0 <? read_count c) || (0 <? write_count c) || (0 <? exclusive_count c)
  then provider_access (fuel_of c) (provider c) (- read_count c) (- write_count c) (- exclusive_count c) ;; ret tt
  else ret tt.

(** [Partition::new]; the new provider is appended to the store. *)
Definition partition_new (name : string) (c : Consumer) (start count : Z) : M Store (Result nat) :=
  let* parent_cap := consumer_block_count c in
  if parent_cap <? start then ret (Err InvalidPartition) else
  match checked_add 64 start count with
  | None => ret (Err InvalidPartition)
  | Some e =>
      if parent_cap <? e then ret (Err InvalidPartition) else
      let* s := get in
      modify (λ s, s ++ [Part {| part_name := name; parent := c; start_lba := start; block_count := count |}]) ;;
      ret (Ok (length s))
  end.
End layer.
