(* ===== verification/BlockTheorems.v ===== *)
(** * Contracts of the block layer

    A request that gets through a chain of partitions reaches the device at
    the sum of the starts and stays within every partition on the way; access
    counts exclude an exclusive user from the others. *)

From stdpp Require Import strings.
From S2P Require Import Prelude Block.

(** What the layer relies on: a device does not change its geometry. *)
Class BlockDeviceLaws (D : Type) {BD : BlockDevice D} := {
  dev_count_range (d : D) : 0 ≤ dev_block_count d < 2 ^ 64;
  dev_size_range (d : D) : 0 ≤ dev_block_size d;
  dev_request_size req (d : D) : dev_block_size (dev_request req d).2 = dev_block_size d;
  dev_request_count req (d : D) : dev_block_count (dev_request req d).2 = dev_block_count d
}.

Section layer.
Context {D : Type} {BD : BlockDevice D} {BL : BlockDeviceLaws D}.
#[local] Abbreviation Store := (list (@Provider D)).
Implicit Types (s : Store) (req : IoRequest).

(** ** Well-formed stores *)

Definition cap (p : @Provider D) : Z :=
  match p with Adapter a => dev_block_count (device a) | Part p => block_count p end.

(** A partition comes after its parent and lies within it. *)
Definition part_ok s (i : nat) (p : Partition) : Prop :=
  (provider (parent p) < i)%nat ∧ 0 ≤ start_lba p ∧ 0 ≤ block_count p ∧
  ∃ q, s !! provider (parent p) = Some q ∧ start_lba p + block_count p ≤ cap q.

Definition store_ok s : Prop := ∀ i p, s !! i = Some (Part p) → part_ok s i p.

(** The adapter at the end of the chain and the sum of the starts. *)
Fixpoint resolve (fuel : nat) s (i : nat) : option (nat * Z) :=
  match fuel with
  | O => None
  | S fuel' =>
      p ← s !! i;
      match p with
      | Adapter _ => Some (i, 0)
      | Part p => jb ← resolve fuel' s (provider (parent p)); Some (jb.1, jb.2 + start_lba p)
      end
  end.

Lemma cap_range s i p : store_ok s → s !! i = Some p → 0 ≤ cap p < 2 ^ 64.
Proof.
  intros Hok. revert p. induction (lt_wf i) as [i _ IH]. intros [a|p] Hp; simpl; [apply dev_count_range|].
  destruct (Hok i p Hp) as (Hlt & H0 & H1 & q & Hq & Hle). pose proof (IH _ Hlt q Hq). lia.
Qed.

Lemma resolve_spec s fuel i p : store_ok s → s !! i = Some p → (i < fuel)%nat →
  ∃ j b a, resolve fuel s i = Some (j, b) ∧ s !! j = Some (Adapter a) ∧ 0 ≤ b ∧
    b + cap p ≤ dev_block_count (device a).
Proof.
  intros Hok. revert i p. induction fuel as [|fuel IH]; intros i p Hp Hf; [lia|].
  simpl. rewrite Hp. simpl. destruct p as [a|p]; [by exists i, 0, a|].
  destruct (Hok i p Hp) as (Hlt & H0 & H1 & q & Hq & Hle).
  destruct (IH _ q Hq ltac:(lia)) as (j & b & a & Hr & Ha & Hb & Hc). rewrite Hr. simpl.
  exists j, (b + start_lba p), a. split_and!; [done|done|lia|simpl; lia].
Qed.

Lemma resolve_fuel s fuel fuel' i jb : resolve fuel s i = Some jb → (fuel ≤ fuel')%nat →
  resolve fuel' s i = Some jb.
Proof.
  revert fuel' i jb. induction fuel as [|fuel IH]; intros fuel' i jb Hr Hle; [done|].
  destruct fuel' as [|fuel']; [lia|]. simpl in *. destruct (s !! i) as [[a|p]|]; simpl in *; [done| |done].
  destruct (resolve fuel s (provider (parent p))) as [jb'|] eqn:E; simplify_eq/=.
  by rewrite (IH fuel' _ jb') by (done || lia).
Qed.

Lemma wp_get_provider i p s (Q : Provider → Store → Prop) : s !! i = Some p → Q p s →
  wp (get_provider i) Q s.
Proof. intros Hp HQ. unfold get_provider. wp_step. apply wp_get. rewrite Hp. by wp_step. Qed.

Lemma wp_block_size s fuel i j b a (Q : Z → Store → Prop) : resolve fuel s i = Some (j, b) →
  s !! j = Some (Adapter a) → Q (dev_block_size (device a)) s → wp (provider_block_size fuel i) Q s.
Proof.
  revert i b. induction fuel as [|fuel IH]; intros i b Hr Ha HQ; [done|]. simpl in Hr.
  destruct (s !! i) as [p|] eqn:Hp; simpl in Hr; [|done]. cbn [provider_block_size]. wp_step.
  eapply wp_get_provider; [exact Hp|]. destruct p as [a'|p]; simplify_eq/=.
  - by wp_step.
  - destruct (resolve fuel s (provider (parent p))) as [[j' b']|] eqn:E; simplify_eq/=. by eapply IH.
Qed.

Lemma wp_block_count s i p (Q : Z → Store → Prop) : s !! i = Some p → Q (cap p) s →
  wp (provider_block_count i) Q s.
Proof.
  intros Hp HQ. unfold provider_block_count. wp_step. eapply wp_get_provider; [exact Hp|].
  by destruct p; wp_step.
Qed.

(** ** Requests *)

(** Arguments that a [u64] can hold. *)
Definition req_ok req : Prop := 0 ≤ lba req ∧ match cmd req with Delete n => 0 ≤ n | _ => True end.

Definition shift (b : Z) req : IoRequest :=
  if is_flush (cmd req) then req else {| cmd := cmd req; lba := lba req + b |}.

(** The request was performed by the adapter [j], shifted by [b]. *)
Definition performed s (j : nat) (b : Z) req (r : Block.Result (list Z)) s' : Prop :=
  ∃ a, s !! j = Some (Adapter a) ∧ r = (dev_request (shift b req) (device a)).1 ∧
    s' = <[j := Adapter (set_device (dev_request (shift b req) (device a)).2 a)]> s.

(** The blocks of a request lie within a provider. *)
Definition within req (bs c : Z) : Prop :=
  is_flush (cmd req) = true ∨ ∃ n, blocks req bs = Ok n ∧ 0 ≤ n ∧ lba req + n ≤ c.

Lemma in_bounds l n c : 0 ≤ l → 0 ≤ n → 0 ≤ c < 2 ^ 64 → out_of_bounds l n c = false ↔ l + n ≤ c.
Proof.
  intros Hl Hn Hc. unfold out_of_bounds, checked_add. destruct (Z.ltb_spec (l + n) (2 ^ 64)); rewrite orb_false_iff;
    [rewrite !Z.ltb_ge; lia|]. split; [by intros []|lia].
Qed.

Lemma blocks_nonneg req bs n : req_ok req → 0 ≤ bs → blocks req bs = Ok n → 0 ≤ n.
Proof.
  intros [_ Hr] Hbs Hn. unfold blocks in Hn. destruct (Z.eqb_spec bs 0); [done|]. case_match; [done|].
  simplify_eq. destruct (cmd req); simpl in *; try lia; apply Z.div_pos; lia.
Qed.

Lemma blocks_cmd req req' bs : cmd req = cmd req' → blocks req bs = blocks req' bs.
Proof. unfold blocks. by intros ->. Qed.

(** What a consumer lets through. *)
Definition permitted (c : Consumer) (k : Command) : Prop :=
  match k with
  | Read _ => 0 < read_count c
  | Write _ | Delete _ => 0 < write_count c
  | Flush => True
  end.

Lemma wp_consumer_with s c req p bs bsf rq (Q : _ → Store → Prop) : store_ok s → req_ok req → 0 ≤ bs →
  s !! provider c = Some p →
  wp (bsf (provider c)) (λ x s', x = bs ∧ s' = s) s →
  (within req bs (cap p) → permitted c (cmd req) → wp (rq (provider c) req) Q s) →
  (∀ e, Q (Err e) s) →
  wp (consumer_request_with bsf rq c req) Q s.
Proof.
  intros Hok Hreq Hbs Hp Hbsf Hrq HErr. unfold consumer_request_with. wp_step.
  eapply wp_mono; [exact Hbsf|]. intros x s' [-> ->]. wp_step. eapply wp_block_count; [exact Hp|].
  pose proof (cap_range s _ p Hok Hp) as Hcap.
  destruct (blocks req bs) as [n|e] eqn:En; [|by wp_step].
  pose proof (blocks_nonneg req bs n Hreq Hbs En) as Hn.
  destruct (is_flush (cmd req)) eqn:Ef; simpl.
  { assert (within req bs (cap p)) as Hw by by left. destruct (cmd req); try done. by apply Hrq. }
  destruct ((cap p =? 0) || out_of_bounds (lba req) n (cap p)) eqn:Eo; [by wp_step|].
  apply orb_false_iff in Eo as [_ Eo]. apply in_bounds in Eo; [|apply Hreq|done|done].
  assert (within req bs (cap p)) as Hw by (right; by exists n).
  destruct (cmd req); try done; repeat case_match; try (by wp_step); apply Hrq; try done; simpl; lia.
Qed.

Lemma translate_ok p bs req : is_flush (cmd req) = false → 0 ≤ bs → req_ok req → 0 ≤ block_count p < 2 ^ 64 →
  0 ≤ start_lba p → 
  (∃ e, partition_translate p bs req = Err e) ∨
  partition_translate p bs req = Ok (shift (start_lba p) req) ∧ within req bs (block_count p).
Proof.
  intros Hf Hbs Hreq Hc Hs. unfold partition_translate, shift. rewrite Hf.
  destruct (blocks req bs) as [n|e] eqn:En; [|by left; eauto].
  pose proof (blocks_nonneg req bs n Hreq Hbs En) as Hn.
  destruct (out_of_bounds (lba req) n (block_count p)) eqn:Eo; [by left; eauto|].
  apply in_bounds in Eo; [|apply Hreq|done|done].
  unfold checked_add. destruct (lba req + start_lba p <? 2 ^ 64); [|by left; eauto].
  right. split; [done|]. right. by exists n.
Qed.

Lemma shift_shift b b' req : shift b (shift b' req) = shift (b' + b) req.
Proof.
  unfold shift. destruct (is_flush (cmd req)) eqn:E; [by rewrite E|]. simpl. rewrite E. f_equal. lia.
Qed.

Lemma shift_ok b req : 0 ≤ b → req_ok req → req_ok (shift b req).
Proof. intros Hb [H1 H2]. unfold shift. destruct (is_flush (cmd req)); [by split|]. split; simpl; [lia|done]. Qed.

Lemma shift_cmd b req : cmd (shift b req) = cmd req.
Proof. unfold shift. by destruct (is_flush (cmd req)). Qed.

Lemma wp_provider_request s fuel i p j b a req : store_ok s → req_ok req → s !! i = Some p → (i < fuel)%nat →
  resolve fuel s i = Some (j, b) → s !! j = Some (Adapter a) →
  wp (provider_request fuel i req) (λ r s',
    (∃ e, r = Err e ∧ s' = s) ∨
    (performed s j b req r s' ∧ (i = j ∨ within req (dev_block_size (device a)) (cap p)))) s.
Proof.
  intros Hok. revert i p b req. induction fuel as [|fuel IH]; intros i p b req Hreq Hp Hf Hr Ha; [lia|].
  cbn [provider_request]. wp_step. eapply wp_get_provider; [exact Hp|].
  simpl in Hr. rewrite Hp in Hr. simpl in Hr. destruct p as [a'|p].
  { injection Hr as <- <-. rewrite Hp in Ha. injection Ha as ->. unfold adapter_request. destruct (dev_request req (device a)) as [r d] eqn:E.
    wp_step. apply wp_modify. wp_step. right. split; [|by left]. exists a. split; [exact Hp|].
    replace (shift 0 req) with req; [by rewrite E|]. unfold shift. destruct (is_flush (cmd req)); [done|].
    destruct req. simpl. f_equal. lia. }
  destruct (Hok i p Hp) as (Hlt & Hs0 & Hc0 & q & Hq & Hle). pose proof (cap_range s _ q Hok Hq) as Hcq.
  destruct (resolve fuel s (provider (parent p))) as [[j' b']|] eqn:Er; [|done]. injection Hr as -> <-. simpl.
  set (bs := dev_block_size (device a)). pose proof (dev_size_range (device a)) as Hbs.
  assert (∀ Q, Q bs s → wp (provider_block_size fuel (provider (parent p))) Q s) as Hsize.
  { intros Q HQ. by eapply wp_block_size. }
  assert (∀ req', req_ok req' → cmd req' = cmd req → wp (consumer_request_with (provider_block_size fuel)
      (provider_request fuel) (parent p) req') (λ r s', (∃ e, r = Err e ∧ s' = s) ∨ performed s j b' req' r s') s) as Hcons.
  { intros req' Hreq' Ec. eapply (wp_consumer_with s (parent p) req' q bs); try done.
    - by apply Hsize.
    - intros _ _. eapply wp_mono; [apply (IH _ q b' req'); (done || lia)|]. intros r s' [He|[Hpf _]]; auto.
    - intros e. left. by exists e. }
  wp_step. apply (wp_mono _ (λ x s', s' = s ∧ (is_flush (cmd req) = false → x = bs))).
  { destruct (is_flush (cmd req)); [by wp_step|]. by apply Hsize. }
  intros x s' [-> Hx]. destruct (is_flush (cmd req)) eqn:Ef.
  - unfold partition_translate. rewrite Ef. eapply wp_mono; [by apply Hcons|].
    intros r s' [He|Hpf]; [by left|]. right. split; [|right; by left].
    destruct Hpf as (a0 & Ha0 & Er0 & Es0). exists a0. unfold shift in *. rewrite Ef in *. done.
  - rewrite (Hx eq_refl). destruct (translate_ok p bs req) as [[e ->]|[-> Hw]]; try done; [lia| |].
    { wp_step. left. by exists e. }
    eapply wp_mono; [apply Hcons; [by apply shift_ok|apply shift_cmd]|].
    intros r s' [He|Hpf]; [by left|]. right. split; [|by right].
    unfold performed in *. by rewrite shift_shift, Z.add_comm in Hpf.
Qed.

(** ** Contracts *)

(** C25: a consumer's request to a well-formed chain of partitions returns.
    Either it is rejected and nothing happens, or the consumer had the access
    it needs and the adapter at the end of the chain performs the same
    command at the request's address plus the sum of the partitions' starts;
    the blocks then lie within the provider the consumer is attached to, and
    that provider lies within the device. *)
Theorem consumer_request_contained s c p req : store_ok s → req_ok req → s !! provider c = Some p →
  ∃ j b a, resolve (fuel_of c) s (provider c) = Some (j, b) ∧ s !! j = Some (Adapter a) ∧ 0 ≤ b ∧
    b + cap p ≤ dev_block_count (device a) ∧
    wp (consumer_request c req) (λ r s',
      (∃ e, r = Err e ∧ s' = s) ∨
      (permitted c (cmd req) ∧ within req (dev_block_size (device a)) (cap p) ∧
       performed s j b req r s')) s.
Proof.
  intros Hok Hreq Hp. destruct (resolve_spec s (fuel_of c) _ p Hok Hp) as (j & b & a & Hr & Ha & Hb & Hc);
    [unfold fuel_of; lia|].
  exists j, b, a. split_and!; [done..|]. unfold consumer_request.
  eapply (wp_consumer_with s c req p (dev_block_size (device a))); try done.
  - apply dev_size_range.
  - by eapply wp_block_size.
  - intros Hw Hpm. eapply wp_mono; [apply (wp_provider_request s _ _ p j b a); try done; unfold fuel_of; lia|].
    intros r s' [He|[Hpf _]]; [by left|right]. by split_and!.
  - intros e. left. by exists e.
Qed.

(** creating a partition either fails and changes nothing or appends a
    provider; the store stays well-formed in both cases, and it does so after
    every request. *)
Theorem partition_new_ok name s c p start count : store_ok s → s !! provider c = Some p → 0 ≤ start → 0 ≤ count →
  wp (partition_new name c start count) (λ r s', store_ok s' ∧
    match r with
    | Ok i => i = length s ∧ s' = s ++ [Part {| part_name := name; parent := c; start_lba := start; block_count := count |}] ∧
        start + count ≤ cap p
    | Err e => e = InvalidPartition ∧ s' = s
    end) s.
Proof.
  intros Hok Hp Hs Hn. pose proof (cap_range s _ p Hok Hp) as Hcap.
  unfold partition_new, consumer_block_count. wp_step. eapply wp_block_count; [exact Hp|].
  case_match; [by wp_step|]. unfold checked_add. destruct (Z.ltb_spec (start + count) (2 ^ 64)); [|by wp_step].
  destruct (Z.ltb_spec (cap p) (start + count)) as [Hgt|Hle]; [by wp_step|].
  wp_step. apply wp_get. wp_step. apply wp_modify. wp_step. split; [|done].
  intros i q Hi. pose proof (lookup_lt_Some _ _ _ Hp) as Hlen. apply lookup_snoc_Some in Hi as [[Hlt Hi]|[-> [= <-]]].
  - destruct (Hok i q Hi) as (H1 & H2 & H3 & q' & Hq & Hle'). split_and!; [done..|]. exists q'.
    split; [|done]. by apply lookup_app_l_Some.
  - split_and!; simpl; [done..|]. exists p. split; [by apply lookup_app_l_Some|done].
Qed.

Lemma performed_ok s j b req r s' : store_ok s → performed s j b req r s' → store_ok s'.
Proof.
  intros Hok (a & Ha & _ & ->) i p Hi. pose proof (lookup_lt_Some _ _ _ Ha) as Hlt.
  destruct (decide (i = j)) as [->|Hne]; [by rewrite list_lookup_insert_eq in Hi|].
  rewrite list_lookup_insert_ne in Hi by done. destruct (Hok i p Hi) as (H1 & H2 & H3 & q & Hq & Hle).
  split_and!; [done..|]. destruct (decide (provider (parent p) = j)) as [E|Hne'].
  - rewrite E in *. rewrite list_lookup_insert_eq by done. eexists. split; [done|].
    rewrite Ha in Hq. simplify_eq. simpl in *. by rewrite dev_request_count.
  - exists q. by rewrite list_lookup_insert_ne.
Qed.

(** ** Access counts *)

Definition counts_ok (a : @HardwareAdapter D) : Prop :=
  0 ≤ hw_read_count a < 2 ^ 62 ∧ 0 ≤ hw_write_count a < 2 ^ 62 ∧ 0 ≤ hw_exclusive_count a < 2 ^ 62.
Definition delta_ok (x : Z) : Prop := - 2 ^ 62 ≤ x < 2 ^ 62.

(** changing the access counts of an adapter does not panic.  When it
    succeeds the counts are the sums and not negative; an exclusive open
    succeeds only when nothing is open, and while something holds exclusive
    access nothing can be opened; when it fails the counts are unchanged. *)
Theorem adapter_access_spec s i a r w e : s !! i = Some (Adapter a) → counts_ok a →
  delta_ok r → delta_ok w → delta_ok e →
  wp (provider_access 1 i r w e) (λ res s', ∃ a', s' !! i = Some (Adapter a') ∧
    (∀ k, k ≠ i → s' !! k = s !! k) ∧
    match res with
    | Ok _ => hw_read_count a' = hw_read_count a + r ∧ hw_write_count a' = hw_write_count a + w ∧
        hw_exclusive_count a' = hw_exclusive_count a + e ∧
        0 ≤ hw_read_count a' ∧ 0 ≤ hw_write_count a' ∧ 0 ≤ hw_exclusive_count a' ∧
        (0 < e → hw_read_count a = 0 ∧ hw_write_count a = 0 ∧ hw_exclusive_count a = 0) ∧
        (0 < hw_exclusive_count a → r ≤ 0 ∧ w ≤ 0 ∧ e ≤ 0)
    | Err _ => hw_read_count a' = hw_read_count a ∧ hw_write_count a' = hw_write_count a ∧
        hw_exclusive_count a' = hw_exclusive_count a
    end) s.
Proof.
  intros Hi (Hr & Hw & He) Dr Dw De. unfold delta_ok in *. cbn [provider_access]. wp_step.
  eapply wp_get_provider; [exact Hi|]. unfold adapter_access.
  assert (∀ x y, 0 ≤ x < 2 ^ 62 → - 2 ^ 62 ≤ y < 2 ^ 62 → isize_add x y = Some (x + y)) as Hadd.
  { intros x y Hx Hy. unfold isize_add. rewrite (proj2 (Z.leb_le _ _)), (proj2 (Z.ltb_lt _ _)) by lia. done. }
  do 3 (wp_step; eapply wp_expect; [by apply Hadd|]).
  pose proof (lookup_lt_Some _ _ _ Hi) as Hlt.
  destruct (_ || _ || _) eqn:E1; [wp_step; by exists a|]. apply orb_false_iff in E1 as [[E1 E2]%orb_false_iff E3].
  apply Z.ltb_ge in E1, E2, E3.
  lazymatch goal with |- wp (if ?b then _ else _) _ _ => destruct b eqn:E4 end; [wp_step; by exists a|].
  lazymatch goal with |- wp (if ?b then _ else _) _ _ => destruct b eqn:E5 end; [wp_step; by exists a|].
  lazymatch goal with |- wp (let '(_, _) := ?c in _) _ _ => destruct c as [[[]|err] d] end;
    wp_step; apply wp_modify; wp_step.
  - eexists. rewrite list_lookup_insert_eq by done. split; [done|]. split; [intros; by rewrite list_lookup_insert_ne|].
    simpl. split_and!; lia.
  - eexists. rewrite list_lookup_insert_eq by done. split; [done|]. split; [intros; by rewrite list_lookup_insert_ne|done].
Qed.

(** when the flush of the last writer fails, dropping the consumer
    discards the error and leaves its references in the adapter, which can
    never be opened exclusively again. *)
Theorem consumer_drop_leaks s c a err d : s !! provider c = Some (Adapter a) → counts_ok a →
  hw_read_count a = read_count c → hw_write_count a = write_count c → hw_exclusive_count a = exclusive_count c →
  0 < write_count c → flush (device a) = (Err err, d) →
  wp (consumer_drop c) (λ _ s', ∃ a', s' !! provider c = Some (Adapter a') ∧
    hw_write_count a' = write_count c ∧
    wp (provider_access 1 (provider c) 0 0 1) (λ r _, r = Err InUse) s') s.
Proof.
  intros Hi (Hr & Hw & He) Er Ew Ee Hpos Hf. unfold consumer_drop.
  rewrite (proj2 (Z.ltb_lt 0 (write_count c)) Hpos), orb_true_r. simpl.
  wp_step. unfold fuel_of. cbn [provider_access]. wp_step. eapply wp_get_provider; [exact Hi|].
  unfold adapter_access. rewrite Er, Ew, Ee in *. unfold isize_add. rewrite !Z.add_opp_diag_r. simpl.
  do 3 (wp_step; eapply wp_expect; [done|]). simpl.
  replace (0 <? - exclusive_count c) with false by lia. simpl.
  replace ((0 <? exclusive_count c) && _) with false.
  2:{ replace (0 <? - read_count c) with false by lia. replace (0 <? - write_count c) with false by lia.
      by rewrite andb_false_r. }
  rewrite (proj2 (Z.ltb_lt 0 (write_count c)) Hpos), Hf. simpl.
  wp_step. apply wp_modify. wp_step. wp_step. pose proof (lookup_lt_Some _ _ _ Hi) as Hlt.
  exists (set_device d a). rewrite list_lookup_insert_eq by done. split_and!; [done|done|].
  cbn [provider_access]. wp_step. eapply wp_get_provider; [by apply list_lookup_insert_eq|].
  unfold adapter_access. simpl. rewrite Er, Ew, Ee. unfold isize_add.
  do 3 (wp_step; eapply wp_expect; [rewrite (proj2 (Z.leb_le _ _)), (proj2 (Z.ltb_lt _ _)) by lia; done|]).
  rewrite !(proj2 (Z.ltb_ge _ _)) by lia. simpl. rewrite (proj2 (Z.ltb_lt 0 (write_count c)) Hpos).
  rewrite orb_true_r. simpl. by wp_step.
Qed.
End layer.

(** ** Witnesses

    A RAM disk of 100 blocks of 4 bytes, and one whose flush fails. *)

Section witnesses.
Definition ram : Type := list Z.

#[local] Instance ram_disk : BlockDevice ram := {|
  dev_block_size _ := 4;
  dev_block_count _ := 100;
  read_blocks l buf d := (Ok (take (length buf) (drop (Z.to_nat (4 * l)) d)), d);
  write_blocks l buf d := (Ok tt, take (Z.to_nat (4 * l)) d ++ buf ++ drop (Z.to_nat (4 * l) + length buf) d);
  delete_blocks _ _ d := (Err NotSupported, d);
  flush d := (match d with [] => Err HardwareError | _ => Ok tt end, d)
|}.
#[local] Instance ram_disk_laws : BlockDeviceLaws ram.
Proof. split; (done || lia). Qed.

Definition demo_adapter (d : ram) (w : Z) : @HardwareAdapter ram :=
  {| hw_name := "ram0"; device := d; hw_read_count := 1; hw_write_count := w; hw_exclusive_count := 0 |}.
Definition demo_consumer (i : nat) : Consumer :=
  {| provider := i; read_count := 1; write_count := 1; exclusive_count := 0 |}.
Definition demo_store (d : ram) : list (@Provider ram) :=
  [Adapter (demo_adapter d 1);
   Part {| part_name := "p0"; parent := demo_consumer 0; start_lba := 10; block_count := 50 |};
   Part {| part_name := "p1"; parent := demo_consumer 1; start_lba := 5; block_count := 20 |}].

Lemma demo_store_ok d : store_ok (demo_store d).
Proof.
  intros [|[|[|i]]] p Hp; simplify_eq/=; (split_and!; simpl; [lia..|]).
  - eexists. split; [reflexivity|simpl; lia].
  - eexists. split; [reflexivity|simpl; lia].
Qed.

(** Block 3 of the inner partition is block 18 of the disk. *)
Lemma consumer_request_contained_witness :
  wp (consumer_request (demo_consumer 2) {| cmd := Write [1; 2; 3; 4]; lba := 3 |}) (λ r s',
    (∃ e, r = Err e ∧ s' = demo_store []) ∨ performed (demo_store []) 0 15 {| cmd := Write [1; 2; 3; 4]; lba := 3 |} r s')
    (demo_store []).
Proof.
  destruct (consumer_request_contained (demo_store []) (demo_consumer 2)
    (Part {| part_name := "p1"; parent := demo_consumer 1; start_lba := 5; block_count := 20 |})
    {| cmd := Write [1; 2; 3; 4]; lba := 3 |}) as (j & b & a & Hr & _ & _ & _ & Hw).
  - apply demo_store_ok.
  - split; simpl; [lia|done].
  - reflexivity.
  - vm_compute in Hr. injection Hr as <- <-. refine (wp_mono _ _ _ _ Hw _).
    intros r s' [He|(_ & _ & Hp)]; [by left|by right].
Defined.

Lemma partition_new_ok_witness :
  wp (partition_new "p2" (demo_consumer 1) 30 21) (λ r s', r = Err InvalidPartition → s' = demo_store []) (demo_store []).
Proof.
  refine (wp_mono _ _ _ _ (partition_new_ok "p2" (demo_store []) (demo_consumer 1)
    (Part {| part_name := "p0"; parent := demo_consumer 0; start_lba := 10; block_count := 50 |}) 30 21
    (demo_store_ok []) eq_refl _ _) _).
  - lia.
  - lia.
  - intros r s' [_ Hm] ->. by destruct Hm as [_ ?].
Defined.

Lemma demo_counts d : counts_ok (demo_adapter d 1).
Proof. split_and!; simpl; lia. Qed.

Lemma adapter_access_spec_witness :
  wp (provider_access 1 0 0 0 1) (λ r _, r ≠ Ok tt) (demo_store []).
Proof.
  refine (wp_mono _ _ _ _ (adapter_access_spec (demo_store []) 0 (demo_adapter [] 1) 0 0 1 eq_refl (demo_counts []) _ _ _) _).
  - split; lia.
  - split; lia.
  - split; lia.
  - intros r s' (a' & _ & _ & Hm) ->. destruct Hm as (_ & _ & _ & _ & _ & _ & Hx & _).
    destruct (Hx ltac:(lia)) as [Hx1 _]. simpl in Hx1. lia.
Defined.

Lemma consumer_drop_leaks_witness :
  wp (consumer_drop (demo_consumer 0)) (λ _ s', ∃ a', s' !! 0%nat = Some (Adapter a') ∧ hw_write_count a' = 1)
     (demo_store []).
Proof.
  refine (wp_mono _ _ _ _ (consumer_drop_leaks (demo_store []) (demo_consumer 0) (demo_adapter [] 1) HardwareError []
    eq_refl (demo_counts []) eq_refl eq_refl eq_refl _ eq_refl) _).
  - simpl. lia.
  - intros _ s' (a' & Ha & Hw & _). exists a'. split; [exact Ha|exact Hw].
Defined.
End witnesses.
