(* ===== verification/Sched.v ===== *)
(** * Threads, the scheduler and the sleeping mutex

    Models [klib/src/thread.rs], [klib/src/scheduler.rs] and the
    [SleepingMutex] of [klib/src/sync.rs].  Threads are shared objects, named
    by their address in a store; saved register files are memory.  The state
    is that of one core running the code; a spinlock that this core takes
    while it holds it never becomes free, which is the fault [Deadlock]. *)

From S2P Require Import Prelude.

(** ** Threads *)

Inductive ThreadState := Running | Ready | Blocked | Dead.

#[global] Instance ThreadState_eq_dec : EqDecision ThreadState.
Proof. solve_decision. Defined.

Record RegisterFile := {
  registers : list Z;
  sp : Z;
  elr : Z;
  spsr : Z;
  esr : Z;
  far : Z
}.

Definition REGISTER_FILE_SIZE : Z := 36 * 8.

(** [process] is the root table of the process, when it is alive. *)
Record ThreadInner := {
  thread_id : Z;
  state : ThreadState;
  priority : Z;
  kernel_sp : Z;
  process : option Z;
  is_kernel : bool
}.

Record LocalScheduler := {
  thread_queue : list nat;
  current_thread : option nat;
  q_locked : bool
}.

Definition LocalScheduler_new : LocalScheduler :=
  {| thread_queue := []; current_thread := None; q_locked := false |}.

(** A [SleepingMutex] with its wait queue behind a spinlock. *)
Record SleepingMutex := {
  locked : bool;
  wait_queue : list nat;
  wq_locked : bool
}.

Record Sched := {
  threads : gmap nat ThreadInner;
  contexts : gmap Z RegisterFile;
  queues : list LocalScheduler;
  spawn_counter : Z;
  next_id : Z;
  cpu : nat;
  ttbr0 : Z;
  mutex : SleepingMutex
}.

Definition set_threads (t : gmap nat ThreadInner) (s : Sched) : Sched :=
  {| threads := t; contexts := contexts s; queues := queues s; spawn_counter := spawn_counter s;
     next_id := next_id s; cpu := cpu s; ttbr0 := ttbr0 s; mutex := mutex s |}.
Definition set_contexts (c : gmap Z RegisterFile) (s : Sched) : Sched :=
  {| threads := threads s; contexts := c; queues := queues s; spawn_counter := spawn_counter s;
     next_id := next_id s; cpu := cpu s; ttbr0 := ttbr0 s; mutex := mutex s |}.
Definition set_queues (q : list LocalScheduler) (s : Sched) : Sched :=
  {| threads := threads s; contexts := contexts s; queues := q; spawn_counter := spawn_counter s;
     next_id := next_id s; cpu := cpu s; ttbr0 := ttbr0 s; mutex := mutex s |}.
Definition set_spawn_counter (n : Z) (s : Sched) : Sched :=
  {| threads := threads s; contexts := contexts s; queues := queues s; spawn_counter := n;
     next_id := next_id s; cpu := cpu s; ttbr0 := ttbr0 s; mutex := mutex s |}.
Definition set_next_id (n : Z) (s : Sched) : Sched :=
  {| threads := threads s; contexts := contexts s; queues := queues s; spawn_counter := spawn_counter s;
     next_id := n; cpu := cpu s; ttbr0 := ttbr0 s; mutex := mutex s |}.
Definition set_ttbr0 (a : Z) (s : Sched) : Sched :=
  {| threads := threads s; contexts := contexts s; queues := queues s; spawn_counter := spawn_counter s;
     next_id := next_id s; cpu := cpu s; ttbr0 := a; mutex := mutex s |}.
Definition set_mutex (m : SleepingMutex) (s : Sched) : Sched :=
  {| threads := threads s; contexts := contexts s; queues := queues s; spawn_counter := spawn_counter s;
     next_id := next_id s; cpu := cpu s; ttbr0 := ttbr0 s; mutex := m |}.

(** The scheduler and the mutex as [new] makes them, on core [c], with the
    memory that will hold register files. *)
Definition sched_new (c : nat) (memory : gmap Z RegisterFile) : Sched :=
  {| threads := ∅; contexts := memory; queues := []; spawn_counter := 0; next_id := 0; cpu := c; ttbr0 := 0;
     mutex := {| locked := false; wait_queue := []; wq_locked := false |} |}.

Definition get_thread (t : nat) : M Sched ThreadInner :=
  let* s := get in
  match threads s !! t with Some th => ret th | None => fail BadDeref end.

Definition with_state (st : ThreadState) (th : ThreadInner) : ThreadInner :=
  {| thread_id := thread_id th; state := st; priority := priority th; kernel_sp := kernel_sp th;
     process := process th; is_kernel := is_kernel th |}.
Definition with_priority (p : Z) (th : ThreadInner) : ThreadInner :=
  {| thread_id := thread_id th; state := state th; priority := p; kernel_sp := kernel_sp th;
     process := process th; is_kernel := is_kernel th |}.

Definition set_state (t : nat) (st : ThreadState) : M Sched unit :=
  let* th := get_thread t in modify (λ s, set_threads (<[t := with_state st th]> (threads s)) s).
Definition get_state (t : nat) : M Sched ThreadState :=
  let* th := get_thread t in ret (state th).
Definition set_thread_priority (t : nat) (p : Z) : M Sched unit :=
  let* th := get_thread t in modify (λ s, set_threads (<[t := with_priority p th]> (threads s)) s).

(** [with_ctx_mut]: the address of the saved registers, which must not be
    those of a running thread. *)
Definition with_ctx_mut {R} (t : nat) (f : Z → M Sched R) : M Sched R :=
  let* th := get_thread t in
  assert (negb (bool_decide (state th = Running))) ;;
  f (kernel_sp th).

(** [ThreadIdAllocator::alloc]. *)
Definition alloc_thread_id : M Sched Z :=
  let* s := get in
  let id := next_id s in
  let* n := expect (checked_add 32 id 1) in
  modify (set_next_id n) ;;
  ret id.

(** [Thread::new_inner]: the initial context at the top of the stack, of which
    [esr] and [far] keep what the memory held.  [t] is the address of the new
    object. *)
Definition thread_new_inner (t : nat) (proc : option Z) (kernel : bool) (stack_top pc prio spsr_value : Z) : M Sched unit :=
  let* ctx_ptr := expect (checked_sub stack_top REGISTER_FILE_SIZE) in
  assert (ctx_ptr =? Z.land ctx_ptr (unot 64 15)) ;;
  let* s := get in
  match contexts s !! ctx_ptr with
  | None => fail BadDeref
  | Some old =>
      modify (λ s, set_contexts (<[ctx_ptr := {| registers := replicate 31 0; sp := stack_top; elr := pc;
                                                 spsr := spsr_value; esr := esr old; far := far old |}]> (contexts s)) s)
  end ;;
  let* id := alloc_thread_id in
  modify (λ s, set_threads (<[t := {| thread_id := id; state := Ready; priority := prio; kernel_sp := ctx_ptr;
                                      process := proc; is_kernel := kernel |}]> (threads s)) s).

(** [EL0t] and [EL1h] are the values of the mode field of [SPSR_EL1] that the
    register crate gives. *)
Definition thread_new (EL0t : Z) (t : nat) (proc stack_top pc prio : Z) : M Sched unit :=
  thread_new_inner t (Some proc) false stack_top pc prio EL0t.
Definition thread_new_kernel (EL1h : Z) (t : nat) (stack_top entry prio : Z) : M Sched unit :=
  thread_new_inner t None true stack_top entry prio EL1h.

(** ** The scheduler *)

(** Locking and unlocking the queue of a core. *)
Definition lock_queue (i : nat) : M Sched LocalScheduler :=
  let* s := get in
  let* q := expect (queues s !! i) in
  if q_locked q then fail Deadlock else
  modify (λ s, set_queues (<[i := {| thread_queue := thread_queue q; current_thread := current_thread q;
                                     q_locked := true |}]> (queues s)) s) ;;
  ret q.
(** The guard of queue [i] is dropped with the contents [q] and [c]. *)
Definition unlock_queue (i : nat) (q : list nat) (c : option nat) : M Sched unit :=
  modify (λ s, set_queues (<[i := {| thread_queue := q; current_thread := c; q_locked := false |}]> (queues s)) s).

Definition register_cpu (cpu_id : nat) : M Sched unit :=
  modify (λ s, if (length (queues s) <=? cpu_id)%nat
               then set_queues (queues s ++ replicate (S cpu_id - length (queues s)) LocalScheduler_new) s else s).

Definition spawn (t : nat) : M Sched unit :=
  let* s := get in
  assert (negb (length (queues s) =? 0)%nat) ;;
  let counter := spawn_counter s in
  modify (set_spawn_counter (wrap 8 (counter + 1))) ;;
  let cpu_i := (Z.to_nat counter mod length (queues s))%nat in
  set_state t Ready ;;
  let* q := lock_queue cpu_i in
  unlock_queue cpu_i (thread_queue q ++ [t]) (current_thread q).

Definition unblock (t : nat) : M Sched unit := spawn t.

Definition sched_current_thread : M Sched (option nat) :=
  let* s := get in
  let* q := lock_queue (cpu s) in
  unlock_queue (cpu s) (thread_queue q) (current_thread q) ;;
  ret (current_thread q).

(** [ctx] and the result are addresses of register files. *)
Definition schedule (ctx : Z) : M Sched Z :=
  let* s := get in
  let c := cpu s in
  let* q := lock_queue c in
  let prev_thread := current_thread q in
  let* ready := (match prev_thread with
    | None => ret (thread_queue q)
    | Some prev =>
        with_ctx_mut prev (λ prev_ctx,
          let* s := get in
          match contexts s !! ctx with
          | Some regs => modify (λ s, set_contexts (<[prev_ctx := regs]> (contexts s)) s)
          | None => fail BadDeref
          end) ;;
        let* st := get_state prev in
        if bool_decide (st = Running)
        then set_state prev Ready ;; ret (thread_queue q ++ [prev])
        else ret (thread_queue q)
    end) in
  let next_thread := match ready with t :: _ => Some t | [] => prev_thread end in
  let rest := tail ready in
  match next_thread with
  | None => unlock_queue c rest None ;; ret ctx
  | Some next =>
      if bool_decide (prev_thread = Some next) then unlock_queue c rest (Some next) ;; ret ctx else
      set_state next Running ;;
      let* th := get_thread next in
      match process th with Some root => modify (set_ttbr0 root) | None => ret tt end ;;
      let* next_ptr := with_ctx_mut next (λ next_ctx, ret next_ctx) in
      unlock_queue c rest (Some next) ;;
      ret next_ptr
  end.

(** ** The sleeping mutex *)

Definition lock_wait_queue : M Sched unit :=
  let* s := get in
  if wq_locked (mutex s) then fail Deadlock else
  modify (λ s, set_mutex {| locked := locked (mutex s); wait_queue := wait_queue (mutex s); wq_locked := true |} s).
Definition unlock_wait_queue : M Sched unit :=
  modify (λ s, set_mutex {| locked := locked (mutex s); wait_queue := wait_queue (mutex s); wq_locked := false |} s).
Definition set_wait_queue (w : list nat) : M Sched unit :=
  modify (λ s, set_mutex {| locked := locked (mutex s); wait_queue := w; wq_locked := wq_locked (mutex s) |} s).
Definition set_locked (b : bool) : M Sched unit :=
  modify (λ s, set_mutex {| locked := b; wait_queue := wait_queue (mutex s); wq_locked := wq_locked (mutex s) |} s).

(** [yield_now] is a supervisor call; what happens until it returns is a
    parameter. *)
Section yield.
Context (yield_now : M Sched unit).

Definition block_current : M Sched unit :=
  let* s := get in
  let* q := lock_queue (cpu s) in
  lock_wait_queue ;;
  match current_thread q with
  | Some current =>
      set_state current Blocked ;;
      let* s := get in
      set_wait_queue (wait_queue (mutex s) ++ [current])
  | None => ret tt
  end ;;
  unlock_wait_queue ;;
  unlock_queue (cpu s) (thread_queue q) (current_thread q) ;;
  yield_now.

(** [compare_exchange(false, true)]. *)
Definition try_acquire : M Sched bool :=
  let* s := get in
  if locked (mutex s) then ret false else set_locked true ;; ret true.

Fixpoint mutex_lock (fuel : nat) : M Sched unit :=
  match fuel with
  | O => fail OutOfFuel
  | S fuel' =>
      let* got := try_acquire in
      if (got : bool) then ret tt else
      let* cur := sched_current_thread in
      let* _ := expect cur in
      lock_wait_queue ;;
      let* got := try_acquire in
      if (got : bool) then unlock_wait_queue else
      block_current ;;
      unlock_wait_queue ;;
      yield_now ;;
      mutex_lock fuel'
  end.
End yield.

Definition mutex_unlock : M Sched unit :=
  lock_wait_queue ;;
  set_locked false ;;
  let* s := get in
  match wait_queue (mutex s) with
  | next :: w => set_wait_queue w ;; unblock next
  | [] => ret tt
  end ;;
  unlock_wait_queue.
