(* ===== verification/SchedTheorems.v ===== *)
(** * The scheduler is correct up to its context switch

    The invariant of the scheduler state and its preservation, the behaviour
    of every operation of [Sched], and what happens when a switch or a wait
    is really needed. *)

From S2P Require Import Prelude Sched.

(** ** The invariant

    Every thread that a queue, a core or the mutex names is an object of the
    store, thread ids were all handed out and are unique, and no lock is left
    held. *)
Definition known (ts : gmap nat ThreadInner) (t : nat) : Prop := is_Some (ts !! t).

Record queue_ok (ts : gmap nat ThreadInner) (q : LocalScheduler) : Prop := {
  qo_queue : Forall (known ts) (thread_queue q);
  qo_current : ∀ t, current_thread q = Some t → known ts t;
  qo_free : q_locked q = false
}.

Record store_ok (ts : gmap nat ThreadInner) (next : Z) : Prop := {
  so_ids : ∀ t th, ts !! t = Some th → 0 ≤ thread_id th < next;
  so_inj : ∀ t u th uh, ts !! t = Some th → ts !! u = Some uh → thread_id th = thread_id uh → t = u
}.

Record sched_inv (s : Sched) : Prop := {
  si_queues : Forall (queue_ok (threads s)) (queues s);
  si_waiters : Forall (known (threads s)) (wait_queue (mutex s));
  si_wq_free : wq_locked (mutex s) = false;
  si_store : store_ok (threads s) (next_id s);
  si_next : 0 ≤ next_id s < 2 ^ 32;
  si_counter : 0 ≤ spawn_counter s < 2 ^ 8
}.

Lemma known_insert ts t th u : known ts u → known (<[t := th]> ts) u.
Proof. unfold known. rewrite lookup_insert_is_Some'. auto. Qed.

Lemma queue_ok_mono ts ts' q : (∀ t, known ts t → known ts' t) → queue_ok ts q → queue_ok ts' q.
Proof. intros Hk [H1 H2 H3]. split; [|naive_solver|done]. eapply Forall_impl; [done|]. auto. Qed.

(** Storing a thread with the id of the object it replaces, or with a new
    id under a new address. *)
Lemma store_ok_retag ts n t th th' : store_ok ts n → ts !! t = Some th → thread_id th' = thread_id th →
  store_ok (<[t := th']> ts) n.
Proof.
  intros [H4 H5] Ht Hid. split.
  - intros u uh [[-> <-]|[_ Hu]]%lookup_insert_Some; [rewrite Hid|]; eauto.
  - intros u v uh vh [[<- <-]|[Hn Hu]]%lookup_insert_Some [[<- <-]|[Hm Hv]]%lookup_insert_Some;
      rewrite ?Hid; intros E; eauto.
Qed.

Lemma store_ok_new ts n t th : store_ok ts n → ts !! t = None → thread_id th = n → 0 ≤ n →
  store_ok (<[t := th]> ts) (n + 1).
Proof.
  intros [H4 H5] Ht Hid Hn. split.
  - intros u uh [[-> <-]|[_ Hu]]%lookup_insert_Some; [lia|]. specialize (H4 _ _ Hu). lia.
  - intros u v uh vh [[<- <-]|[Hu' Hu]]%lookup_insert_Some [[<- <-]|[Hv' Hv]]%lookup_insert_Some E; eauto;
      [specialize (H4 _ _ Hv)|specialize (H4 _ _ Hu)]; lia.
Qed.

(** The invariant after a change of the thread store that keeps every
    thread. *)
Lemma inv_threads s ts n : sched_inv s → (∀ t, known (threads s) t → known ts t) → store_ok ts n → 0 ≤ n < 2 ^ 32 →
  sched_inv (set_threads ts (set_next_id n s)).
Proof.
  intros [H1 H2 H3 H4 H5 H6] Hk Hs Hn. split; cbn; try done.
  - eapply Forall_impl; [exact H1|]. intros q. by apply queue_ok_mono.
  - eapply Forall_impl; [exact H2|]. auto.
Qed.

Lemma inv_retag s t th th' : sched_inv s → threads s !! t = Some th → thread_id th' = thread_id th →
  sched_inv (set_threads (<[t := th']> (threads s)) s).
Proof.
  intros Hs Ht Hid. apply (inv_threads s _ (next_id s)); [done|..].
  - intros u. apply known_insert.
  - eapply store_ok_retag; [apply Hs|done..].
  - apply Hs.
Qed.

Lemma inv_set_queue s i q : sched_inv s → queue_ok (threads s) q → sched_inv (set_queues (<[i := q]> (queues s)) s).
Proof. intros [H1 H2 H3 H4 H5 H6] Hq. split; cbn; try done. by apply Forall_insert. Qed.

Lemma inv_set_mutex s m : sched_inv s → Forall (known (threads s)) (wait_queue m) → wq_locked m = false →
  sched_inv (set_mutex m s).
Proof. intros [H1 H2 H3 H4 H5 H6] Hw Hl. by split. Qed.

Lemma inv_queue s i q : sched_inv s → queues s !! i = Some q → queue_ok (threads s) q.
Proof. intros Hs Hq. eapply Forall_lookup_1; [apply Hs|done]. Qed.

(** ** Threads and queues *)

Lemma get_thread_run s t th : threads s !! t = Some th → get_thread t s = Done (th, s).
Proof. intros Ht. unfold get_thread, bind, get. by rewrite Ht. Qed.

Lemma set_state_run s t th st : threads s !! t = Some th →
  set_state t st s = Done (tt, set_threads (<[t := with_state st th]> (threads s)) s).
Proof. intros Ht. unfold set_state, bind. by rewrite (get_thread_run _ _ _ Ht). Qed.

(** The queue while its lock is held. *)
Definition held (q : LocalScheduler) : LocalScheduler :=
  {| thread_queue := thread_queue q; current_thread := current_thread q; q_locked := true |}.
Definition holding (i : nat) (q : LocalScheduler) (s : Sched) : Sched :=
  set_queues (<[i := held q]> (queues s)) s.

Lemma lock_queue_run s i q : queues s !! i = Some q → q_locked q = false →
  lock_queue i s = Done (q, holding i q s).
Proof. intros Hq Hl. unfold lock_queue, bind, get, expect. by rewrite Hq, Hl. Qed.

Lemma lock_queue_inv s i q s' : lock_queue i s = Done (q, s') →
  queues s !! i = Some q ∧ s' = holding i q s.
Proof.
  unfold lock_queue, bind, get, expect. destruct (queues s !! i) as [q'|]; [|done].
  destruct (q_locked q'); [done|]. by intros [= -> <-].
Qed.

Lemma relock i q q' s : <[i := q']> (queues (holding i q s)) = <[i := q']> (queues s).
Proof. unfold holding. cbn. apply list_insert_insert_eq. Qed.

(** ** Spawning *)

Definition spawn_target (s : Sched) : nat := (Z.to_nat (spawn_counter s) mod length (queues s))%nat.

(** The state after [spawn t] of a thread [th] on a target queue [q]. *)
Definition spawned (t : nat) (th : ThreadInner) (q : LocalScheduler) (s : Sched) : Sched :=
  set_queues (<[spawn_target s := {| thread_queue := thread_queue q ++ [t]; current_thread := current_thread q;
                                     q_locked := false |}]> (queues s))
    (set_threads (<[t := with_state Ready th]> (threads s))
      (set_spawn_counter (wrap 8 (spawn_counter s + 1)) s)).

Lemma spawn_target_queue s : queues s ≠ [] → is_Some (queues s !! spawn_target s).
Proof.
  intros Hq. apply lookup_lt_is_Some_2. apply Nat.mod_upper_bound. by destruct (queues s).
Qed.

Lemma spawn_run s t th q : queues s ≠ [] → threads s !! t = Some th →
  queues s !! spawn_target s = Some q → q_locked q = false → spawn t s = Done (tt, spawned t th q s).
Proof.
  intros Hne Ht Hq Hl. unfold spawn, bind at 1, get. unfold bind at 1, assert.
  destruct (length (queues s) =? 0)%nat eqn:E.
  { apply Nat.eqb_eq, length_zero_iff_nil in E. done. }
  cbn [negb]. unfold bind at 1, modify. unfold bind at 1.
  rewrite (set_state_run _ _ th) by done. unfold bind at 1. rewrite (lock_queue_run _ _ q) by done.
  unfold unlock_queue, modify. rewrite relock. done.
Qed.

Lemma spawned_inv s t th q : sched_inv s → threads s !! t = Some th → queues s !! spawn_target s = Some q →
  sched_inv (spawned t th q s).
Proof.
  intros Hs Ht Hq. pose proof (inv_queue _ _ _ Hs Hq) as [Q1 Q2 Q3].
  apply (inv_set_queue (set_threads _ (set_spawn_counter _ s)) (spawn_target s)).
  - apply (inv_retag (set_spawn_counter _ s) t th); [|done..].
    destruct Hs as [H1 H2 H3 H4 H5 H6]. split; cbn; try done. apply wrap_range. lia.
  - split; cbn; [|intros u Hu; by apply known_insert, Q2|done].
    apply Forall_app_2; [|by repeat constructor; exists (with_state Ready th); rewrite lookup_insert_eq].
    eapply Forall_impl; [exact Q1|]. intros u. apply known_insert.
Qed.

(** ** Dispatching *)

(** The registers of the interrupted thread saved in its context. *)
Definition saved (prev : nat) (regs : RegisterFile) (s : Sched) : Sched :=
  match threads s !! prev with
  | Some th => set_contexts (<[kernel_sp th := regs]> (contexts s)) s
  | None => s
  end.

Definition set_queue (i : nat) (ready : list nat) (c : option nat) (s : Sched) : Sched :=
  set_queues (<[i := {| thread_queue := ready; current_thread := c; q_locked := false |}]> (queues s)) s.

Lemma with_ctx_mut_running {R} s t th (f : Z → M Sched R) : threads s !! t = Some th → state th = Running →
  faults (with_ctx_mut t f) Panic s.
Proof.
  intros Ht Hr. unfold faults, with_ctx_mut, bind. rewrite (get_thread_run _ _ _ Ht), Hr. done.
Qed.

Lemma with_ctx_mut_idle {R} s t th (f : Z → M Sched R) : threads s !! t = Some th → state th ≠ Running →
  with_ctx_mut t f s = f (kernel_sp th) s.
Proof.
  intros Ht Hr. unfold with_ctx_mut, bind, assert. rewrite (get_thread_run _ _ _ Ht).
  by rewrite bool_decide_eq_false_2.
Qed.

(** The end of [schedule]: dispatching a thread that is not the interrupted
    one sets it running and then asks for the context of a running thread. *)
Definition dispatch (c : nat) (next : nat) (rest : list nat) : M Sched Z :=
  set_state next Running ;;
  let* th := get_thread next in
  match process th with Some root => modify (set_ttbr0 root) | None => ret tt end ;;
  let* next_ptr := with_ctx_mut next (λ next_ctx, ret next_ctx) in
  unlock_queue c rest (Some next) ;;
  ret next_ptr.

Lemma dispatch_panics s c next rest : known (threads s) next → faults (dispatch c next rest) Panic s.
Proof.
  intros [th Ht]. unfold dispatch, faults, bind at 1. rewrite (set_state_run _ _ _ _ Ht).
  unfold bind at 1. rewrite (get_thread_run _ next (with_state Running th)) by apply lookup_insert_eq.
  unfold bind at 1. cbn [process with_state].
  destruct (process th) as [root|]; cbn [modify ret]; unfold modify, ret, bind at 1;
    rewrite (with_ctx_mut_running _ next (with_state Running th)); try done; apply lookup_insert_eq.
Qed.

(** What [schedule] does after the interrupted thread was saved. *)
Definition pick (ctx : Z) (c : nat) (prev_thread : option nat) (ready : list nat) : M Sched Z :=
  match match ready with t :: _ => Some t | [] => prev_thread end with
  | None => unlock_queue c (tail ready) None ;; ret ctx
  | Some next =>
      if bool_decide (prev_thread = Some next) then unlock_queue c (tail ready) (Some next) ;; ret ctx
      else dispatch c next (tail ready)
  end.

Lemma schedule_none s ctx q : queues s !! cpu s = Some q → q_locked q = false → current_thread q = None →
  schedule ctx s = pick ctx (cpu s) None (thread_queue q) (holding (cpu s) q s).
Proof.
  intros Hq Hl Hc. unfold schedule, bind at 1, get. unfold bind at 1. rewrite (lock_queue_run _ _ _ Hq Hl), Hc. done.
Qed.

Lemma schedule_running s ctx q prev th : queues s !! cpu s = Some q → q_locked q = false →
  current_thread q = Some prev → threads s !! prev = Some th → state th = Running →
  faults (schedule ctx) Panic s.
Proof.
  intros Hq Hl Hc Ht Hr. unfold faults, schedule, bind at 1, get. unfold bind at 1.
  rewrite (lock_queue_run _ _ _ Hq Hl), Hc. unfold bind at 1. unfold bind at 1.
  by rewrite (with_ctx_mut_running _ prev th).
Qed.

Lemma schedule_idle s ctx q prev th regs : queues s !! cpu s = Some q → q_locked q = false →
  current_thread q = Some prev → threads s !! prev = Some th → state th ≠ Running →
  contexts s !! ctx = Some regs →
  schedule ctx s = pick ctx (cpu s) (Some prev) (thread_queue q) (saved prev regs (holding (cpu s) q s)).
Proof.
  intros Hq Hl Hc Ht Hr Hx. unfold schedule, bind at 1, get. unfold bind at 1.
  rewrite (lock_queue_run _ _ _ Hq Hl), Hc. unfold bind at 1. unfold bind at 1.
  rewrite (with_ctx_mut_idle _ prev th) by done. unfold bind at 1. cbn [contexts holding set_queues].
  rewrite Hx. unfold modify, bind at 1. unfold get_state, bind at 1.
  rewrite (get_thread_run _ prev th) by done. cbn [ret]. unfold ret at 1. rewrite bool_decide_eq_false_2 by done.
  unfold ret at 1, saved. cbn [threads holding set_queues]. rewrite Ht. done.
Qed.

Lemma pick_quiet ctx c s q prev ready : prev = Some q → head ready = None ∨ head ready = Some q →
  pick ctx c prev ready s = Done (ctx, set_queue c (tail ready) (Some q) s).
Proof.
  intros -> Hh. unfold pick.
  assert (match ready with t :: _ => Some t | [] => Some q end = Some q) as E
    by (destruct ready, Hh; naive_solver).
  rewrite E. by rewrite bool_decide_eq_true_2.
Qed.

Lemma pick_switch ctx c s prev next rest : known (threads s) next → prev ≠ Some next →
  faults (pick ctx c prev (next :: rest)) Panic s.
Proof. intros Hk Hn. unfold pick. rewrite bool_decide_eq_false_2 by done. by apply dispatch_panics. Qed.

Lemma set_queue_holding c q ready p s : set_queue c ready p (holding c q s) = set_queue c ready p s.
Proof. unfold set_queue. by rewrite relock. Qed.

Lemma set_queue_id s i q : queues s !! i = Some q → q_locked q = false →
  set_queue i (thread_queue q) (current_thread q) s = s.
Proof.
  intros Hq Hl. unfold set_queue. rewrite list_insert_id; [by destruct s|].
  rewrite Hq. f_equal. destruct q; cbn in *. by subst.
Qed.

Lemma saved_holding c q prev regs ready p s :
  set_queue c ready p (saved prev regs (holding c q s)) = set_queue c ready p (saved prev regs s).
Proof.
  unfold saved. cbn [threads holding set_queues]. destruct (threads s !! prev); unfold set_queue; cbn;
    by rewrite list_insert_insert_eq.
Qed.

(** A core with nothing to go on with cannot start a thread that waits. *)
Lemma schedule_waiting s ctx q : sched_inv s → queues s !! cpu s = Some q → current_thread q = None →
  thread_queue q ≠ [] → faults (schedule ctx) Panic s.
Proof.
  intros Hs Hq Hc Hne. pose proof (inv_queue _ _ _ Hs Hq) as [Q1 Q2 Q3]. unfold faults.
  rewrite (schedule_none _ _ q) by done. destruct (thread_queue q) as [|next rest] eqn:E; [done|].
  apply Forall_cons in Q1 as [Hk _]. by apply pick_switch.
Qed.

(** [schedule], on every branch.  An idle core with nothing to run
    returns the interrupted context and changes nothing.  A core whose current
    thread is marked running, and one that has to start or to switch to
    another thread, panics: both accesses to the saved context are made while
    the thread is in the state [Running] that [with_ctx_mut] refuses.  In
    the remaining case (a current thread that is not running and is alone, or
    next in the queue) the context is saved and the same thread goes on. *)
Theorem schedule_spec s ctx q regs : sched_inv s → queues s !! cpu s = Some q → contexts s !! ctx = Some regs →
  (current_thread q = None → thread_queue q = [] → schedule ctx s = Done (ctx, s)) ∧
  (current_thread q = None → thread_queue q ≠ [] → faults (schedule ctx) Panic s) ∧
  (∀ prev th, current_thread q = Some prev → threads s !! prev = Some th →
    (state th = Running → faults (schedule ctx) Panic s) ∧
    (state th ≠ Running → ∀ next, head (thread_queue q) = Some next → next ≠ prev →
      faults (schedule ctx) Panic s) ∧
    (state th ≠ Running → head (thread_queue q) = None ∨ head (thread_queue q) = Some prev →
      schedule ctx s = Done (ctx, set_queue (cpu s) (tail (thread_queue q)) (Some prev) (saved prev regs s)))).
Proof.
  intros Hs Hq Hx. pose proof (inv_queue _ _ _ Hs Hq) as [Q1 Q2 Q3]. split; [|split].
  - intros Hc He. rewrite (schedule_none _ _ q), He by done. unfold pick. cbn [tail].
    pose proof (set_queue_id s (cpu s) q Hq Q3) as E. rewrite He, Hc in E.
    rewrite <- (set_queue_holding (cpu s) q) in E. transitivity (Done (ctx, set_queue (cpu s) [] None (holding (cpu s) q s)));
      [done|by rewrite E].
  - by apply schedule_waiting.
  - intros prev th Hc Ht. split; [|split].
    + intros Hr. by apply (schedule_running s ctx q prev th).
    + intros Hr next Hh Hn. unfold faults. rewrite (schedule_idle s ctx q prev th regs) by done.
      destruct (thread_queue q) as [|t rest] eqn:E; [done|]. injection Hh as ->.
      apply Forall_cons in Q1 as [Hk _]. apply pick_switch; [|congruence].
      unfold saved. cbn [threads holding set_queues]. by rewrite Ht.
    + intros Hr Hh. rewrite (schedule_idle s ctx q prev th regs) by done.
      rewrite (pick_quiet _ _ _ prev) by done. by rewrite saved_holding.
Qed.

(** ** The sleeping mutex *)

Definition with_locked (b : bool) (s : Sched) : Sched :=
  set_mutex {| locked := b; wait_queue := wait_queue (mutex s); wq_locked := wq_locked (mutex s) |} s.

Lemma current_thread_run s q : queues s !! cpu s = Some q → q_locked q = false →
  sched_current_thread s = Done (current_thread q, s).
Proof.
  intros Hq Hl. unfold sched_current_thread, bind at 1, get. unfold bind at 1. rewrite (lock_queue_run _ _ _ Hq Hl).
  unfold bind, unlock_queue, modify, ret. rewrite relock. do 2 f_equal. exact (set_queue_id s (cpu s) q Hq Hl).
Qed.

Lemma mutex_lock_run yield_now fuel s q : sched_inv s → queues s !! cpu s = Some q →
  mutex_lock yield_now (S fuel) s =
  if locked (mutex s) then
    match current_thread q with Some _ => Fault Deadlock | None => Fault Panic end
  else Done (tt, with_locked true s).
Proof.
  intros Hs Hq. pose proof (inv_queue _ _ _ Hs Hq) as [Q1 Q2 Q3]. cbn [mutex_lock].
  unfold bind at 1, try_acquire at 1, bind at 1, get. destruct (locked (mutex s)) eqn:El; [|done].
  unfold ret at 1. unfold bind at 1. rewrite (current_thread_run s q) by done.
  destruct (current_thread q) as [t|] eqn:Ec; [|done].
  unfold bind at 1, expect. unfold bind at 1, lock_wait_queue at 1, bind at 1, get. rewrite (si_wq_free s Hs).
  unfold modify. unfold bind at 1, try_acquire, bind at 1, get. cbn [mutex set_mutex locked]. rewrite El.
  unfold ret at 1. unfold bind at 1, block_current, bind at 1, get. unfold bind at 1.
  rewrite (lock_queue_run _ _ q) by done. done.
Qed.

(** The calls that find no queue for this core panic. *)
Lemma lock_queue_none s i : queues s !! i = None → faults (lock_queue i) Panic s.
Proof. intros Hq. unfold faults, lock_queue, bind, get, expect. by rewrite Hq. Qed.

Lemma mutex_lock_done yield_now fuel s s' : sched_inv s → mutex_lock yield_now fuel s = Done (tt, s') →
  locked (mutex s) = false ∧ s' = with_locked true s.
Proof.
  intros Hs. destruct fuel as [|fuel]; [done|]. destruct (queues s !! cpu s) as [q|] eqn:Hq.
  - rewrite (mutex_lock_run _ _ _ q) by done. destruct (locked (mutex s)); [by destruct (current_thread q)|].
    by intros [= <-].
  - cbn [mutex_lock]. unfold bind at 1, try_acquire at 1, bind at 1, get.
    destruct (locked (mutex s)); [|by intros [= <-]]. unfold ret at 1. unfold bind at 1.
    unfold sched_current_thread, bind at 1, get. unfold bind at 1. by rewrite lock_queue_none.
Qed.

(** The mutex after its spinlock was taken and the flag cleared. *)
Lemma mutex_unlock_run s : wq_locked (mutex s) = false →
  mutex_unlock s =
  (let s1 := set_mutex {| locked := false; wait_queue := wait_queue (mutex s); wq_locked := true |} s in
   match wait_queue (mutex s) with
   | next :: w => (set_wait_queue w ;; unblock next) ;; unlock_wait_queue
   | [] => unlock_wait_queue
   end s1).
Proof.
  intros Hl. unfold mutex_unlock, bind at 1, lock_wait_queue, bind at 1, get. rewrite Hl. unfold modify.
  unfold bind at 1, set_locked, modify. unfold bind at 1, get. cbn [mutex set_mutex wait_queue wq_locked].
  by destruct (wait_queue (mutex s)).
Qed.

(** The mutex free, with the waiters [w]. *)
Definition released (w : list nat) (s : Sched) : Sched :=
  set_mutex {| locked := false; wait_queue := w; wq_locked := false |} s.

Lemma mutex_unlock_empty s : wq_locked (mutex s) = false → wait_queue (mutex s) = [] →
  mutex_unlock s = Done (tt, released [] s).
Proof. intros Hl Hw. rewrite mutex_unlock_run, Hw by done. done. Qed.

Lemma mutex_unlock_wakes s t w th q : wq_locked (mutex s) = false → wait_queue (mutex s) = t :: w →
  queues s ≠ [] → threads s !! t = Some th → queues s !! spawn_target s = Some q → q_locked q = false →
  mutex_unlock s = Done (tt, spawned t th q (released w s)).
Proof.
  intros Hl Hw Hne Ht Hq Hql. rewrite mutex_unlock_run, Hw by done. cbn zeta.
  unfold bind at 1. unfold bind at 1, set_wait_queue, modify, unblock.
  by rewrite (spawn_run _ t th q).
Qed.

(** releasing a sleeping mutex frees it and, when threads wait, hands the
    first of them to the scheduler as ready, keeping the others in order;
    without waiters a lock followed by an unlock changes nothing. *)
Theorem sleeping_mutex_unlock s : sched_inv s → queues s ≠ [] →
  match wait_queue (mutex s) with
  | [] => mutex_unlock s = Done (tt, released [] s) ∧
          (∀ yield_now, locked (mutex s) = false → (mutex_lock yield_now 1 ;; mutex_unlock) s = Done (tt, s))
  | t :: w => ∃ th q, threads s !! t = Some th ∧ queues s !! spawn_target s = Some q ∧
      mutex_unlock s = Done (tt, spawned t th q (released w s))
  end.
Proof.
  intros Hs Hne. pose proof (si_wq_free s Hs) as Hl. destruct (wait_queue (mutex s)) as [|t w] eqn:Hw.
  - split; [by apply mutex_unlock_empty|]. intros y Hf. unfold bind at 1. cbn [mutex_lock].
    unfold bind at 1, try_acquire at 1, bind at 1, get. rewrite Hf. unfold bind, set_locked, modify, ret.
    rewrite mutex_unlock_empty by done. destruct s as [? ? ? ? ? ? ? []]; cbn in *. by subst.
  - pose proof (si_waiters s Hs) as Hk. rewrite Hw in Hk. apply Forall_cons in Hk as [[th Ht] _].
    destruct (spawn_target_queue s Hne) as [q Hq]. exists th, q. split; [done|]. split; [done|].
    apply mutex_unlock_wakes; try done. apply (inv_queue _ _ _ Hs Hq).
Qed.

(** ** New threads *)

Definition new_thread (id prio ctx_ptr : Z) (proc : option Z) (kernel : bool) : ThreadInner :=
  {| thread_id := id; state := Ready; priority := prio; kernel_sp := ctx_ptr; process := proc; is_kernel := kernel |}.

(** The state after the creation of a thread whose context at [p] held [old]. *)
Definition created (t : nat) (proc : option Z) (kernel : bool) (top pc prio spsr_value : Z) (old : RegisterFile)
    (s : Sched) : Sched :=
  let p := top - REGISTER_FILE_SIZE in
  set_threads (<[t := new_thread (next_id s) prio p proc kernel]> (threads s))
    (set_next_id (next_id s + 1)
      (set_contexts (<[p := {| registers := replicate 31 0; sp := top; elr := pc; spsr := spsr_value;
                               esr := esr old; far := far old |}]> (contexts s)) s)).

Lemma context_aligned top : REGISTER_FILE_SIZE ≤ top < 2 ^ 64 → (16 | top) →
  (top - REGISTER_FILE_SIZE =? Z.land (top - REGISTER_FILE_SIZE) (unot 64 15)) = true.
Proof.
  unfold REGISTER_FILE_SIZE. intros Hr [k ->]. apply Z.eqb_eq. rewrite land_unot by lia.
  change 15 with (2 ^ 4 - 1). rewrite ldiff_mask_eq by lia.
  replace (k * 16 - 36 * 8) with ((k - 18) * 2 ^ 4) by lia. rewrite Z.div_mul by lia. lia.
Qed.

Lemma thread_new_inner_run s t proc kernel top pc prio v old : REGISTER_FILE_SIZE ≤ top < 2 ^ 64 → (16 | top) →
  contexts s !! (top - REGISTER_FILE_SIZE) = Some old → next_id s + 1 < 2 ^ 32 →
  thread_new_inner t proc kernel top pc prio v s = Done (tt, created t proc kernel top pc prio v old s).
Proof.
  intros Ht Ha Ho Hn. unfold thread_new_inner, bind at 1, expect, checked_sub.
  destruct (REGISTER_FILE_SIZE <=? top) eqn:E; [|lia]. unfold bind at 1, assert.
  rewrite context_aligned by done. unfold bind at 1, get. unfold bind at 1. rewrite Ho. unfold modify.
  unfold bind at 1, alloc_thread_id, bind at 1, get. unfold bind at 1, expect, checked_add.
  cbn [next_id set_contexts]. destruct (next_id s + 1 <? 2 ^ 32) eqn:E'; [|lia]. done.
Qed.

(** What a successful creation did. *)
Lemma thread_new_inner_inv s t proc kernel top pc prio v a s' :
  thread_new_inner t proc kernel top pc prio v s = Done (a, s') →
  ∃ old, contexts s !! (top - REGISTER_FILE_SIZE) = Some old ∧ next_id s + 1 < 2 ^ 32 ∧
    s' = created t proc kernel top pc prio v old s.
Proof.
  unfold thread_new_inner, bind at 1, expect, checked_sub.
  destruct (REGISTER_FILE_SIZE <=? top); [|done]. unfold bind at 1, assert.
  destruct (_ =? _); [|done]. unfold bind at 1, get. unfold bind at 1.
  destruct (contexts s !! _) as [old|]; [|done]. unfold modify at 1.
  unfold bind at 1, alloc_thread_id, bind at 1, get. unfold bind at 1, expect, checked_add.
  cbn [next_id set_contexts]. destruct (next_id s + 1 <? 2 ^ 32) eqn:E'; [|done].
  intros [= <- <-]. exists old. split; [done|]. split; [lia|done].
Qed.

Lemma created_inv s t proc kernel top pc prio v old : sched_inv s → threads s !! t = None →
  next_id s + 1 < 2 ^ 32 → sched_inv (created t proc kernel top pc prio v old s).
Proof.
  intros Hs Ht Hn. pose proof (si_next s Hs).
  apply (inv_threads (set_contexts _ s) _ (next_id s + 1)).
  - by destruct Hs.
  - intros u. apply known_insert.
  - apply store_ok_new; [apply Hs|done..|lia].
  - lia.
Qed.

(** creating a user or a kernel thread on a 16-byte aligned stack puts a
    fresh register file at its top: the registers are cleared, the program
    counter, the stack pointer and the processor mode are those asked for,
    the thread is ready and gets an id no thread has, and the invariant holds. *)
Theorem thread_new_spec s t top pc prio proc mode old : sched_inv s → threads s !! t = None →
  REGISTER_FILE_SIZE ≤ top < 2 ^ 64 → (16 | top) →
  contexts s !! (top - REGISTER_FILE_SIZE) = Some old → next_id s + 1 < 2 ^ 32 →
  thread_new mode t proc top pc prio s = Done (tt, created t (Some proc) false top pc prio mode old s) ∧
  thread_new_kernel mode t top pc prio s = Done (tt, created t None true top pc prio mode old s) ∧
  (∀ p k, sched_inv (created t p k top pc prio mode old s)) ∧
  (∀ u uh, threads s !! u = Some uh → thread_id uh ≠ next_id s).
Proof.
  intros Hs Ht Htop Ha Ho Hn. split; [by apply thread_new_inner_run|]. split; [by apply thread_new_inner_run|].
  split; [intros; by apply created_inv|]. intros u uh Hu.
  pose proof (so_ids _ _ (si_store s Hs) _ _ Hu). lia.
Qed.

(** ** Every operation keeps the invariant *)

Inductive sched_op :=
| OpThreadNew (t : nat) (proc : option Z) (kernel : bool) (top pc prio v : Z)
| OpSetState (t : nat) (st : ThreadState)
| OpSetPriority (t : nat) (p : Z)
| OpRegisterCpu (cpu_id : nat)
| OpSpawn (t : nat)
| OpCurrentThread
| OpSchedule (ctx : Z)
| OpLock (fuel : nat)
| OpUnlock.

(** Runs one operation; [yield_now] is what the supervisor call does. *)
Definition run_op (yield_now : M Sched unit) (o : sched_op) : M Sched unit :=
  match o with
  | OpThreadNew t proc kernel top pc prio v => thread_new_inner t proc kernel top pc prio v
  | OpSetState t st => set_state t st
  | OpSetPriority t p => set_thread_priority t p
  | OpRegisterCpu c => register_cpu c
  | OpSpawn t => spawn t
  | OpCurrentThread => sched_current_thread ;; ret tt
  | OpSchedule ctx => schedule ctx ;; ret tt
  | OpLock fuel => mutex_lock yield_now fuel
  | OpUnlock => mutex_unlock
  end.

(** An object is created at an address where there is none, and the thread
    that an operation is given exists. *)
Definition op_ok (s : Sched) (o : sched_op) : Prop :=
  match o with
  | OpThreadNew t _ _ _ _ _ _ => threads s !! t = None
  | OpSetState t _ | OpSetPriority t _ | OpSpawn t => known (threads s) t
  | _ => True
  end.

Lemma set_queue_inv s q rest p : sched_inv s → Forall (known (threads s)) (thread_queue q) →
  (∀ t, p = Some t → known (threads s) t) → rest = tail (thread_queue q) →
  sched_inv (set_queue (cpu s) rest p s).
Proof.
  intros Hs Hq Hp ->. apply inv_set_queue; [done|]. split; cbn; [|done|done].
  by destruct (thread_queue q); [|apply Forall_cons in Hq as [_ ?]].
Qed.

Lemma saved_inv s prev regs : sched_inv s → sched_inv (saved prev regs s).
Proof. intros Hs. unfold saved. destruct (threads s !! prev); [|done]. by destruct Hs. Qed.

Lemma saved_same s prev regs : threads (saved prev regs s) = threads s ∧ cpu (saved prev regs s) = cpu s.
Proof. unfold saved. by destruct (threads s !! prev). Qed.

(** A dispatch that returns goes on with the interrupted thread. *)
Lemma schedule_done s ctx r s' : sched_inv s → schedule ctx s = Done (r, s') → r = ctx ∧ sched_inv s'.
Proof.
  intros Hs Hr. destruct (queues s !! cpu s) as [q|] eqn:Hq; cycle 1.
  { revert Hr. unfold schedule, bind at 1, get. unfold bind at 1. by rewrite lock_queue_none. }
  pose proof (inv_queue _ _ _ Hs Hq) as [Q1 Q2 Q3].
  destruct (current_thread q) as [prev|] eqn:Hc; cycle 1.
  { rewrite (schedule_none _ _ q) in Hr by done. destruct (thread_queue q) as [|next rest] eqn:E.
    - injection Hr as <- <-. split; [done|].
      change (sched_inv (set_queue (cpu s) [] None (holding (cpu s) q s))). rewrite set_queue_holding.
      apply (set_queue_inv s q); try done; by rewrite E.
    - apply Forall_cons in Q1 as [Hk _].
      pose proof (pick_switch ctx (cpu s) (holding (cpu s) q s) None next rest Hk) as Hp.
      unfold faults in Hp. rewrite Hp in Hr; done. }
  destruct (Q2 prev eq_refl) as [th Ht]. destruct (decide (state th = Running)) as [Er|Er].
  { pose proof (schedule_running s ctx q prev th Hq Q3 Hc Ht Er) as Hp. unfold faults in Hp.
    by rewrite Hp in Hr. }
  destruct (contexts s !! ctx) as [regs|] eqn:Hx; cycle 1.
  { revert Hr. unfold schedule, bind at 1, get. unfold bind at 1. rewrite (lock_queue_run _ _ _ Hq Q3), Hc.
    unfold bind at 1. unfold bind at 1. rewrite (with_ctx_mut_idle _ prev th) by done. unfold bind at 1.
    cbn [contexts holding set_queues]. by rewrite Hx. }
  rewrite (schedule_idle s ctx q prev th regs) in Hr by done.
  destruct (decide (head (thread_queue q) = None ∨ head (thread_queue q) = Some prev)) as [Hh|Hh].
  - rewrite (pick_quiet _ _ _ prev) in Hr by done. injection Hr as <- <-. split; [done|].
    rewrite saved_holding. destruct (saved_same s prev regs) as [E1 E2]. rewrite <- E2.
    apply (set_queue_inv _ q); rewrite ?E1; [by apply saved_inv|done| |done].
    intros ? [= <-]. by exists th.
  - destruct (thread_queue q) as [|next rest] eqn:E; [naive_solver|]. apply Forall_cons in Q1 as [Hk _].
    assert (faults (pick ctx (cpu s) (Some prev) (next :: rest)) Panic (saved prev regs (holding (cpu s) q s))) as Hp.
    { apply pick_switch; [by rewrite (proj1 (saved_same _ _ _))|]. naive_solver. }
    unfold faults in Hp. by rewrite Hp in Hr.
Qed.

Lemma register_cpu_inv s c s' : sched_inv s → register_cpu c s = Done (tt, s') → sched_inv s'.
Proof.
  intros Hs [= <-]. destruct (_ <=? _)%nat; [|done]. destruct Hs as [H1 H2 H3 H4 H5 H6]. split; cbn; try done.
  apply Forall_app_2; [done|]. apply Forall_replicate. split; cbn; [constructor|done|done].
Qed.

Lemma released_inv s w b : sched_inv s → Forall (known (threads s)) w →
  sched_inv (set_mutex {| locked := b; wait_queue := w; wq_locked := false |} s).
Proof. intros. by apply inv_set_mutex. Qed.

Lemma spawn_done s t s' : sched_inv s → known (threads s) t → spawn t s = Done (tt, s') →
  ∃ th q, threads s !! t = Some th ∧ queues s !! spawn_target s = Some q ∧ s' = spawned t th q s.
Proof.
  intros Hs [th Ht] Hr. destruct (decide (queues s = [])) as [E|Hne].
  { revert Hr. unfold spawn, bind at 1, get. by rewrite E. }
  destruct (spawn_target_queue s Hne) as [q Hq]. rewrite (spawn_run _ _ th q) in Hr; try done;
    [|apply (inv_queue _ _ _ Hs Hq)]. injection Hr as <-. eauto.
Qed.

Lemma unlock_inv s s' : sched_inv s → mutex_unlock s = Done (tt, s') → sched_inv s'.
Proof.
  intros Hs Hr. pose proof (si_wq_free s Hs) as Hl. destruct (wait_queue (mutex s)) as [|t w] eqn:Hw.
  { rewrite mutex_unlock_empty in Hr by done. injection Hr as <-. by apply released_inv. }
  pose proof (si_waiters s Hs) as Hk. rewrite Hw in Hk. apply Forall_cons in Hk as [[th Ht] Hk].
  destruct (decide (queues s = [])) as [E|Hne].
  { rewrite mutex_unlock_run, Hw in Hr by done. cbn zeta in Hr. revert Hr. unfold bind at 1. unfold bind at 1.
    unfold set_wait_queue, modify, unblock, spawn, bind at 1, get. cbn [queues set_mutex]. by rewrite E. }
  destruct (spawn_target_queue s Hne) as [q Hq].
  rewrite (mutex_unlock_wakes s t w th q) in Hr; try done; [|apply (inv_queue _ _ _ Hs Hq)].
  injection Hr as <-. apply spawned_inv; [|done|done]. by apply released_inv.
Qed.

Lemma run_op_inv yield_now o s a s' : sched_inv s → op_ok s o → run_op yield_now o s = Done (a, s') →
  sched_inv s'.
Proof.
  intros Hs Ho Hr. destruct a, o; cbn [run_op op_ok] in *.
  - apply thread_new_inner_inv in Hr as (old & _ & Hn & ->). by apply created_inv.
  - destruct Ho as [th Ht]. rewrite (set_state_run _ _ _ _ Ht) in Hr. injection Hr as <-.
    by apply (inv_retag s t th).
  - destruct Ho as [th Ht]. unfold set_thread_priority, bind in Hr. rewrite (get_thread_run _ _ _ Ht) in Hr.
    injection Hr as <-. by apply (inv_retag s t th).
  - by eapply register_cpu_inv.
  - apply spawn_done in Hr as (th & q & Ht & Hq & ->); [|done..]. by apply spawned_inv.
  - destruct (queues s !! cpu s) as [q|] eqn:Hq.
    + unfold bind in Hr. rewrite (current_thread_run s q) in Hr; [|done|apply (inv_queue _ _ _ Hs Hq)].
      by injection Hr as <-.
    + revert Hr. unfold bind at 1, sched_current_thread, bind at 1, get. unfold bind at 1. by rewrite lock_queue_none.
  - unfold bind in Hr. destruct (schedule ctx s) as [[r s1]|] eqn:E; [|done]. injection Hr as <-.
    by apply (schedule_done s ctx r).
  - apply mutex_lock_done in Hr as [_ ->]; [|done]. apply inv_set_mutex; [done|apply Hs|apply Hs].
  - by eapply unlock_inv.
Qed.

Inductive sched_step (yield_now : M Sched unit) (s s' : Sched) : Prop :=
| sched_step_op o a : op_ok s o → run_op yield_now o s = Done (a, s') → sched_step yield_now s s'.

Lemma sched_new_inv c memory : sched_inv (sched_new c memory).
Proof. split; cbn; try done. all: constructor; set_solver. Qed.


(** ** Round robin *)

Fixpoint spawn_all (ts : list nat) : M Sched unit :=
  match ts with [] => ret tt | t :: ts' => spawn t ;; spawn_all ts' end.

(** How many of the tickets [c, c + m) fall on core [i] of [n]. *)
Fixpoint hits (c n i m : nat) : nat :=
  match m with
  | O => 0
  | S m' => (if decide (c mod n = i) then 1 else 0) + hits (S c) n i m'
  end%nat.

Lemma hits_add c n i a b : (hits c n i (a + b) = hits c n i a + hits (c + a) n i b)%nat.
Proof.
  revert c. induction a as [|a IH]; intros c; cbn [hits Nat.add]; [by rewrite Nat.add_0_r|].
  rewrite IH. replace (S c + a)%nat with (c + S a)%nat by lia. lia.
Qed.

Lemma hits_low c n i m : (c + m ≤ n → hits c n i m = if decide (c ≤ i < c + m) then 1 else 0)%nat.
Proof.
  revert c. induction m as [|m IH]; intros c Hm; cbn [hits]; [by rewrite decide_False by lia|].
  rewrite IH by lia. rewrite Nat.mod_small by lia. repeat case_decide; lia.
Qed.

Lemma hits_round c n i : (i < n → hits c n i n = 1)%nat.
Proof.
  intros Hi. induction c as [|c IH]; [rewrite hits_low, decide_True; lia|].
  pose proof (hits_add c n i 1 n) as E1. pose proof (hits_add c n i n 1) as E2.
  replace (n + 1)%nat with (1 + n)%nat in E2 by lia. rewrite Nat.add_1_r in E1.
  assert ((c + n) mod n = c mod n)%nat as Em by (rewrite <- (Nat.mul_1_l n) at 1; apply Nat.Div0.mod_add).
  cbn [hits] in E1, E2. rewrite Em in E2.
  destruct (decide (c mod n = i)%nat); lia.
Qed.

Lemma hits_rounds c n i k : (i < n → hits c n i (k * n) = k)%nat.
Proof.
  intros Hi. revert c. induction k as [|k IH]; intros c; [done|]. cbn [Nat.mul].
  by rewrite hits_add, hits_round, IH by done.
Qed.

(** The length of the queue of core [i]. *)
Definition load (s : Sched) (i : nat) : nat :=
  match queues s !! i with Some q => length (thread_queue q) | None => 0 end.

Lemma spawned_load s t th q i : (i < length (queues s))%nat → queues s !! spawn_target s = Some q →
  (load (spawned t th q s) i = (if decide (spawn_target s = i) then 1 else 0) + load s i)%nat.
Proof.
  intros Hi Hq. unfold load, spawned. cbn [queues set_queues]. case_decide as E.
  - subst i. rewrite list_lookup_insert_eq by done. rewrite Hq. cbn. rewrite length_app. cbn. lia.
  - by rewrite list_lookup_insert_ne.
Qed.

Lemma spawn_all_load ts s : sched_inv s → queues s ≠ [] → Forall (known (threads s)) ts →
  spawn_counter s + Z.of_nat (length ts) ≤ 2 ^ 8 →
  wp (spawn_all ts) (λ _ s', sched_inv s' ∧ ∀ i, (i < length (queues s))%nat →
    load s' i = (hits (Z.to_nat (spawn_counter s)) (length (queues s)) i (length ts) + load s i)%nat) s.
Proof.
  revert s. induction ts as [|t ts IH]; intros s Hs Hne Hk Hc; cbn [spawn_all]; [by apply wp_ret|].
  apply Forall_cons in Hk as [[th Ht] Hk]. destruct (spawn_target_queue s Hne) as [q Hq].
  apply wp_bind. eapply (wp_ext _ (λ _, Done (tt, spawned t th q s))).
  { apply spawn_run; try done. apply (inv_queue _ _ _ Hs Hq). }
  change (wp (spawn_all ts) (λ _ s', sched_inv s' ∧ ∀ i, (i < length (queues s))%nat → load s' i =
    (hits (Z.to_nat (spawn_counter s)) (length (queues s)) i (length (t :: ts)) + load s i)%nat) (spawned t th q s)).
  cbn [length] in *. pose proof (si_counter s Hs) as Hb. change (2 ^ 8) with 256 in *.
  destruct ts as [|t' ts'].
  { cbn [spawn_all]. apply wp_ret. split; [by apply spawned_inv|]. intros i Hi. rewrite spawned_load by done.
    cbn [hits length]. unfold spawn_target. lia. }
  assert (spawn_counter (spawned t th q s) = spawn_counter s + 1) as Ec.
  { cbn. apply wrap_small. cbn [length] in Hc. lia. }
  eapply wp_mono; [apply IH|].
  - by apply spawned_inv.
  - intros E. apply Hne, length_zero_iff_nil. apply (f_equal length) in E. cbn in E. by rewrite length_insert in E.
  - eapply Forall_impl; [exact Hk|]. intros u. apply known_insert.
  - rewrite Ec. cbn [length] in *. lia.
  - cbn beta. intros _ s' [Hs' Hl]. split; [done|]. intros i Hi.
    assert (length (queues (spawned t th q s)) = length (queues s)) as El by apply length_insert.
    rewrite El, Ec in Hl. rewrite Hl by done. rewrite spawned_load by done.
    replace (Z.to_nat (spawn_counter s + 1)) with (S (Z.to_nat (spawn_counter s))) by lia.
    cbn [hits]. unfold spawn_target. lia.
Qed.

(** [spawn] makes the thread ready and appends it to the queue of the core
    that the counter names, leaving every other queue alone, and the counter
    is an eight-bit one.  Spawning [k] threads per core, before the counter
    wraps, lengthens the queue of every core by exactly [k]. *)
Theorem spawn_spec s : sched_inv s → queues s ≠ [] →
  (∀ t th, threads s !! t = Some th →
    ∃ q, queues s !! spawn_target s = Some q ∧ spawn t s = Done (tt, spawned t th q s) ∧
      sched_inv (spawned t th q s) ∧ spawn_counter (spawned t th q s) = (spawn_counter s + 1) mod 256) ∧
  (∀ ts k, Forall (known (threads s)) ts → length ts = (k * length (queues s))%nat →
    spawn_counter s + Z.of_nat (length ts) ≤ 256 →
    wp (spawn_all ts) (λ _ s', ∀ i, (i < length (queues s))%nat → load s' i = (k + load s i)%nat) s).
Proof.
  intros Hs Hne. split.
  - intros t th Ht. destruct (spawn_target_queue s Hne) as [q Hq]. exists q. split; [done|]. split; [|split].
    + apply spawn_run; try done. apply (inv_queue _ _ _ Hs Hq).
    + by apply spawned_inv.
    + done.
  - intros ts k Hk Hl Hc. eapply wp_mono; [by apply spawn_all_load|]. cbn beta.
    intros _ s' [_ H] i Hi. by rewrite H, Hl, hits_rounds.
Qed.

(** [SleepingMutex::lock] takes a free mutex at once.  On a taken one it
    never returns, however the rest of the system behaves: it panics when
    the core has no current thread, and otherwise [block_current] spins on
    the spinlock of the wait queue, which [lock] itself still holds. *)
Theorem sleeping_mutex_lock yield_now fuel s q : sched_inv s → queues s !! cpu s = Some q →
  mutex_lock yield_now (S fuel) s =
  if locked (mutex s) then
    match current_thread q with Some _ => Fault Deadlock | None => Fault Panic end
  else Done (tt, with_locked true s).
Proof. apply mutex_lock_run. Qed.

(** ** A running example: two cores, three threads *)

Section example.
Definition blank : RegisterFile := {| registers := replicate 31 0; sp := 0; elr := 0; spsr := 0; esr := 0; far := 0 |}.
Definition boot (c : nat) : Sched := sched_new c {[ 8192 - REGISTER_FILE_SIZE := blank; 16384 - REGISTER_FILE_SIZE := blank ]}.

Definition after (c : M Sched unit) (s : Sched) : Sched :=
  match c s with Done (_, s') => s' | Fault _ => s end.

Definition two_cores : Sched := after (register_cpu 1) (boot 0).
Definition two_threads : Sched :=
  after (thread_new_kernel 5 11 16384 100 1) (after (thread_new_kernel 5 10 8192 100 1) two_cores).

Lemma two_cores_inv : sched_inv two_cores.
Proof. apply (run_op_inv (ret tt) (OpRegisterCpu 1) (boot 0) tt); [apply sched_new_inv|done|done]. Qed.

Lemma two_threads_inv : sched_inv two_threads.
Proof.
  apply (run_op_inv (ret tt) (OpThreadNew 11 None true 16384 100 1 5) (after (thread_new_kernel 5 10 8192 100 1) two_cores) tt);
    [|vm_compute; done|vm_compute; done].
  apply (run_op_inv (ret tt) (OpThreadNew 10 None true 8192 100 1 5) two_cores tt);
    [apply two_cores_inv|vm_compute; done|vm_compute; done].
Qed.

(** Both threads spawned: one on each core. *)
Definition both_ready : Sched := after (spawn_all [10; 11]%nat) two_threads.

Lemma both_ready_inv : sched_inv both_ready.
Proof.
  apply (run_op_inv (ret tt) (OpSpawn 11) (after (spawn 10) two_threads) tt);
    [|eexists; vm_compute; reflexivity|vm_compute; done].
  apply (run_op_inv (ret tt) (OpSpawn 10) two_threads tt);
    [apply two_threads_inv|eexists; vm_compute; reflexivity|vm_compute; done].
Qed.

(** A core with a ready thread and no current one panics at its first tick. *)
Lemma schedule_spec_witness : ∃ q, queues both_ready !! cpu both_ready = Some q ∧
  current_thread q = None ∧ faults (schedule (8192 - REGISTER_FILE_SIZE)) Panic both_ready.
Proof.
  exists {| thread_queue := [10%nat]; current_thread := None; q_locked := false |}.
  split; [vm_compute; reflexivity|]. split; [done|].
  refine (proj1 (proj2 (schedule_spec both_ready _ {| thread_queue := [10%nat]; current_thread := None; q_locked := false |}
    {| registers := replicate 31 0; sp := 8192; elr := 100; spsr := 5; esr := 0; far := 0 |} both_ready_inv _ _)) _ _);
    [vm_compute; reflexivity|vm_compute; reflexivity|done|done].
Defined.


Lemma thread_new_spec_witness : ∃ s', thread_new_kernel 5 10 8192 100 1 two_cores = Done (tt, s').
Proof.
  eexists. refine (proj1 (proj2 (thread_new_spec two_cores 10 8192 100 1 0 5 blank two_cores_inv _ _ _ _ _)));
    [vm_compute; done|vm_compute; done|by exists 512|vm_compute; done|vm_compute; done].
Defined.

Lemma spawn_spec_witness :
  wp (spawn_all [10; 11]%nat) (λ _ s', ∀ i, (i < 2)%nat → load s' i = (1 + load two_threads i)%nat) two_threads.
Proof.
  refine (proj2 (spawn_spec two_threads two_threads_inv _) [10; 11]%nat 1%nat _ _ _); [done| |done|done].
  repeat constructor; eexists; vm_compute; reflexivity.
Defined.

(** The mutex taken, and a current thread that wants it. *)
Definition contended : Sched := with_locked true (set_queue 0 [] (Some 10%nat) two_threads).

Lemma contended_inv : sched_inv contended.
Proof.
  apply inv_set_mutex; [|constructor|done]. apply inv_set_queue; [apply two_threads_inv|].
  split; [constructor| |done]. intros t [= <-]. eexists. vm_compute. reflexivity.
Qed.

Lemma sleeping_mutex_lock_witness : faults (mutex_lock (ret tt) 7) Deadlock contended.
Proof.
  exact (sleeping_mutex_lock (ret tt) 6 contended {| thread_queue := []; current_thread := Some 10%nat; q_locked := false |}
    contended_inv eq_refl).
Defined.

Lemma sleeping_mutex_unlock_witness : (mutex_lock (ret tt) 1 ;; mutex_unlock) both_ready = Done (tt, both_ready).
Proof.
  refine (proj2 (sleeping_mutex_unlock both_ready both_ready_inv _) (ret tt) _); done.
Defined.
End example.
