(* ===== verification/UserVm.v ===== *)
(** * User address spaces

    Models [klib/src/vm/user]: the page descriptors with their reader-writer
    locks and metadata ([mod.rs]), the table allocator that resets the
    descriptor of a table ([allocator.rs]), address spaces with the locking
    walk ([address_space.rs]) and the cursor ([cursor.rs]).  The page tables
    are those of [Mapper], whose [map_page] and [unmap_page] the cursor calls.

    An operation is run by one thread that nobody interferes with: a lock
    that it cannot take at once it never gets, which is the fault
    [Deadlock].  The lock around the descriptor array is only held inside
    [get_page_descriptor] and [init]. *)

From S2P Require Import Prelude Vm Sync PageAlloc Slab Mapper.

(** ** Descriptors *)

(** [Status]; [P] is the permission type of the page-table library. *)
Inductive Status (P : Type) :=
  | Invalid
  | Mapped (pa : Z) (perm : P)
  | PrivateAnonymous (perm : P).
Arguments Invalid {P}.
Arguments Mapped {P}.
Arguments PrivateAnonymous {P}.

Inductive StatusCategory := CatAllocated | CatMapped | CatTemporarilyUnmapped.

Definition category {P} (s : Status P) : option StatusCategory :=
  match s with
  | Mapped _ _ => Some CatMapped
  | PrivateAnonymous _ => Some CatAllocated
  | Invalid => None
  end.

(** [PageDescriptor]: the state word of its lock and the metadata of the
    table page, one [PteMeta] per entry. *)
Record PageDescriptor (P : Type) := { desc_state : Z; desc_meta : option (list (Status P)) }.
Arguments desc_state {P}.
Arguments desc_meta {P}.
#[global] Instance PageDescriptor_inhabited P : Inhabited (PageDescriptor P) := populate {| desc_state := 0; desc_meta := None |}.

(** [PageDescriptors] after [init]. *)
Record PageDescriptors (P : Type) := { pd_descs : list (PageDescriptor P); pd_start : Z; pd_end : Z }.
Arguments pd_descs {P}.
Arguments pd_start {P}.
Arguments pd_end {P}.

(** ** The reader-writer lock, run alone *)

Definition read_alone (state : Z) : option Z :=
  if (Z.land state RwLock.WRITER =? 0) && negb (state =? RwLock.READERS) then Some (state + 1) else None.
Definition read_release (state : Z) : Z := RwLock.swrap (state - 1).
(** With readers present the writer sets its bit and waits for them. *)
Definition write_alone (state : Z) : option Z :=
  if (Z.land state RwLock.WRITER =? 0) && (state =? 0) then Some (Z.lor state RwLock.WRITER) else None.
Definition write_release : Z := 0.

(** ** State

    [UserAllocator]: the table allocator, the page allocator, and the global
    descriptors. *)

Record UserAllocator {D : TTE} (A B : Type) := {
  ua_tables : A;
  ua_pages : B;
  ua_descs : option (PageDescriptors AccessPermission)
}.
Arguments ua_tables {D A B}.
Arguments ua_pages {D A B}.
Arguments ua_descs {D A B}.

Section user.
Context {T : AddressTranslator} {D : TTE} {A B : Type} {TA : TableAllocator A} {PB : PageSource B}.
#[local] Abbreviation UA := (UserAllocator A B).
#[local] Abbreviation Descr := (PageDescriptor AccessPermission).

Definition set_ua_descs (v : option (PageDescriptors AccessPermission)) (u : UA) : UA :=
  {| ua_tables := ua_tables u; ua_pages := ua_pages u; ua_descs := v |}.
Definition set_ua_tables (v : A) (u : UA) : UA :=
  {| ua_tables := v; ua_pages := ua_pages u; ua_descs := ua_descs u |}.
Definition set_ua_pages (v : B) (u : UA) : UA :=
  {| ua_tables := ua_tables u; ua_pages := v; ua_descs := ua_descs u |}.

(** [PageDescriptors::init]. *)
Definition descs_init (ds : list Descr) (start end_ : Z) : M UA unit :=
  let* u := get in
  assert (match ua_descs u with None => true | Some _ => false end) ;;
  modify (set_ua_descs (Some {| pd_descs := ds; pd_start := start; pd_end := end_ |})).

(** [get_page_descriptor]: the index of the descriptor of the page [pa]. *)
Definition get_page_descriptor (pa : Z) : M UA nat :=
  let* u := get in
  let* d := expect (ua_descs u) in
  assert ((pd_start d <=? pa) && (pa <? pd_end d)) ;;
  let pfn := Z.to_nat (Z.shiftr (pa - pd_start d) PAGE_SHIFT) in
  let* _ := expect (pd_descs d !! pfn) in
  ret pfn.

Definition read_desc (i : nat) : M UA Descr :=
  let* u := get in
  let* d := expect (ua_descs u) in
  expect (pd_descs d !! i).
Definition update_desc (i : nat) (f : Descr → Descr) : M UA unit :=
  modify (λ u, set_ua_descs ((λ d, {| pd_descs := alter f i (pd_descs d); pd_start := pd_start d; pd_end := pd_end d |})
                               <$> ua_descs u) u).

Definition set_state (v : Z) (d : Descr) : Descr := {| desc_state := v; desc_meta := desc_meta d |}.
Definition set_meta (v : option (list (Status AccessPermission))) (d : Descr) : Descr :=
  {| desc_state := desc_state d; desc_meta := v |}.

(** [desc.lock.read()], [desc.lock.write()] and the drop of their guards. *)
Definition lock_with (try_lock : Z → option Z) (i : nat) : M UA unit :=
  let* d := read_desc i in
  match try_lock (desc_state d) with
  | Some v => update_desc i (set_state v)
  | None => fail Deadlock
  end.
Definition read_lock : nat → M UA unit := lock_with read_alone.
Definition write_lock : nat → M UA unit := lock_with write_alone.
Definition read_unlock (i : nat) : M UA unit := update_desc i (λ d, set_state (read_release (desc_state d)) d).
Definition write_unlock (i : nat) : M UA unit := update_desc i (set_state write_release).

(** ** The allocator *)

(** [desc.lock.write().meta = None]. *)
Definition reset_meta (pa : Z) : M UA unit :=
  let* i := get_page_descriptor pa in
  write_lock i ;;
  update_desc i (set_meta None) ;;
  write_unlock i.

Definition user_alloc_table (u : UA) : outcome (Z * UA) :=
  match alloc_table (ua_tables u) with
  | Done (ptr, a) =>
      match reset_meta (dmap_to_phys ptr) (set_ua_tables a u) with
      | Done (_, u') => Done (ptr, u')
      | Fault f => Fault f
      end
  | Fault f => Fault f
  end.

Definition user_free_table (table : Z) (u : UA) : outcome UA :=
  match reset_meta (dmap_to_phys table) u with
  | Done (_, u1) =>
      match free_table table (ua_tables u1) with
      | Done a => Done (set_ua_tables a u1)
      | Fault f => Fault f
      end
  | Fault f => Fault f
  end.

#[global] Instance user_tables : TableAllocator UA := {|
  alloc_table := user_alloc_table; free_table := user_free_table
|}.

Definition user_alloc_phys_page : M UA Z := λ u,
  match src_alloc_phys_page (ua_pages u) with
  | Done (pa, b) => Done (pa, set_ua_pages b u)
  | Fault f => Fault f
  end.
Definition user_free_phys_page (pa : Z) : M UA unit := λ u,
  match src_free_phys_page pa (ua_pages u) with
  | Done (_, b) => Done (tt, set_ua_pages b u)
  | Fault f => Fault f
  end.

(** ** Address spaces *)

Record AddressSpace := { as_root : option Z; max_level : Z }.

(** Operations on the allocator inside operations on the page tables. *)
Definition on_alloc {X} (c : M UA X) : M (Pt UA) X := λ s,
  match c (alloc_state s) with
  | Done (x, u) => Done (x, {| tables := tables s; alloc_state := u |})
  | Fault f => Fault f
  end.

Definition as_new (max_level : option Z) : M (Pt UA) AddressSpace :=
  let* root := new_table in
  ret {| as_root := Some root; max_level := default 3 max_level |}.

Definition from_root_table (max_level : option Z) (root : option Z) : AddressSpace :=
  {| as_root := root; max_level := default 3 max_level |}.
Definition new_dangling (max_level : option Z) : AddressSpace := from_root_table max_level None.

Definition root_mut (sp : AddressSpace) : M (Pt UA) Z := expect (as_root sp).

Definition as_init (sp : AddressSpace) : M (Pt UA) AddressSpace :=
  assert (match as_root sp with None => true | Some _ => false end) ;;
  let* table := new_table in
  ret {| as_root := Some table; max_level := max_level sp |}.

Definition init_from_table (sp : AddressSpace) (table : Z) : M (Pt UA) AddressSpace :=
  assert (match as_root sp with None => true | Some _ => false end) ;;
  ret {| as_root := Some table; max_level := max_level sp |}.

(** Frees the pages behind the leaves; the tables stay. *)
Fixpoint drop_table (sp : AddressSpace) (level : nat) (table_ptr : Z) : M (Pt UA) unit :=
  assert (match as_root sp with None => false | Some _ => true end) ;;
  for_range (Z.to_nat TABLE_ENTRIES) 0 (λ i,
    let* pte := read_entry table_ptr i in
    if is_valid pte then
      match level with
      | S level' =>
          if is_table pte then
            let child_ptr := phys_to_dmap (address pte) in
            if child_ptr =? 0 then ret tt else drop_table sp level' child_ptr
          else on_alloc (user_free_phys_page (address pte))
      | O => on_alloc (user_free_phys_page (address pte))
      end
    else ret tt).

Definition as_drop (sp : AddressSpace) : M (Pt UA) unit :=
  let* root := expect (as_root sp) in
  drop_table sp (Z.to_nat (max_level sp)) root.

(** ** The locking walk *)

Record Cursor := {
  c_space : AddressSpace;
  c_start : Z;
  c_end : Z;
  read_guards : list nat;
  write_guard : option nat;
  covering_pa : Z;
  covering_level : nat
}.

(** The loop of [lock]: the read guards so far, the current table and its
    level. *)
Fixpoint lock_walk (level : nat) (current_pa start end_ : Z) (guards : list nat) :
    M (Pt UA) (list nat * Z * nat) :=
  match level with
  | O => ret (guards, current_pa, O)
  | S level' =>
      let start_i := entry_index start (Z.of_nat level) in
      let end_i := entry_index (Z.max 0 (end_ - 1)) (Z.of_nat level) in
      if start_i =? end_i then
        let* desc := on_alloc (get_page_descriptor current_pa) in
        on_alloc (read_lock desc) ;;
        let* pte := read_entry (phys_to_dmap current_pa) start_i in
        if is_valid pte && is_table pte
        then lock_walk level' (address pte) start end_ (guards ++ [desc])
        else on_alloc (read_unlock desc) ;; ret (guards, current_pa, level)
      else ret (guards, current_pa, level)
  end.

Definition as_lock (sp : AddressSpace) (start end_ : Z) : M (Pt UA) Cursor :=
  let* root := expect (as_root sp) in
  let* r := lock_walk (Z.to_nat (max_level sp)) (dmap_to_phys root) start end_ [] in
  let '(guards, current_pa, current_level) := r in
  let* desc := on_alloc (get_page_descriptor current_pa) in
  on_alloc (write_lock desc) ;;
  ret {| c_space := sp; c_start := start; c_end := end_; read_guards := guards; write_guard := Some desc;
         covering_pa := current_pa; covering_level := current_level |}.

(** ** The cursor *)

Fixpoint pop_guards (guards : list nat) : M (Pt UA) unit :=
  match guards with
  | [] => ret tt
  | g :: guards' => on_alloc (read_unlock g) ;; pop_guards guards'
  end.

(** [Drop for Cursor]: the write guard, then the read guards from the last
    one on. *)
Definition cursor_drop (c : Cursor) : M (Pt UA) unit :=
  match write_guard c with Some g => on_alloc (write_unlock g) | None => ret tt end ;;
  pop_guards (reverse (read_guards c)).

(** [(start..end).step_by(PAGE_SIZE)]. *)
Definition page_steps (c : Cursor) : nat := Z.to_nat ((c_end c - c_start c + PAGE_SIZE - 1) / PAGE_SIZE).

(** [vec![PteMeta::default(); TABLE_ENTRIES]]. *)
Definition new_meta : list (Status AccessPermission) := replicate (Z.to_nat TABLE_ENTRIES) Invalid.

(** The metadata of a leaf table, new when there is none. *)
Definition put_meta (i : Z) (status : Status AccessPermission) (d : Descr) : Descr :=
  set_meta (Some (<[Z.to_nat i := status]> (default new_meta (desc_meta d)))) d.

Fixpoint update_leaf_walk (level : nat) (current_pa va : Z) (status : Status AccessPermission) : M (Pt UA) unit :=
  match level with
  | S level' =>
      let* pte := read_entry (phys_to_dmap current_pa) (entry_index va (Z.of_nat level)) in
      if is_valid pte && is_table pte then update_leaf_walk level' (address pte) va status else ret tt
  | O =>
      let* desc := on_alloc (get_page_descriptor current_pa) in
      on_alloc (write_lock desc) ;;
      on_alloc (update_desc desc (put_meta (entry_index va 0) status)) ;;
      on_alloc (write_unlock desc)
  end.

Definition update_leaf_meta (c : Cursor) (va : Z) (status : Status AccessPermission) : M (Pt UA) unit :=
  update_leaf_walk (covering_level c) (covering_pa c) va status.

Fixpoint map_loop (n : nat) (c : Cursor) (va current_pa : Z) (at_ : Attrs) : M (Pt UA) unit :=
  match n with
  | O => ret tt
  | S n' =>
      let* root := root_mut (c_space c) in
      map_page root current_pa va at_ ;;
      update_leaf_meta c va (Mapped current_pa (access at_)) ;;
      let* next_pa := expect (checked_add 64 current_pa PAGE_SIZE) in
      map_loop n' c (va + PAGE_SIZE) next_pa at_
  end.
Definition cursor_map (c : Cursor) (target_pa_start : Z) (at_ : Attrs) : M (Pt UA) unit :=
  map_loop (page_steps c) c (c_start c) target_pa_start at_.

Fixpoint unmap_loop (n : nat) (c : Cursor) (va : Z) : M (Pt UA) unit :=
  match n with
  | O => ret tt
  | S n' =>
      let* root := root_mut (c_space c) in
      unmap_page root va ;;
      update_leaf_meta c va Invalid ;;
      unmap_loop n' c (va + PAGE_SIZE)
  end.
Definition cursor_unmap (c : Cursor) : M (Pt UA) unit := unmap_loop (page_steps c) c (c_start c).

Fixpoint ensure_leaf_walk (level : nat) (current_pa va : Z) : M (Pt UA) unit :=
  match level with
  | O => ret tt
  | S level' =>
      let i := entry_index va (Z.of_nat level) in
      let* pte := read_entry (phys_to_dmap current_pa) i in
      (if is_valid pte then ret tt
       else let* new_table := new_table in
            update_entry (phys_to_dmap current_pa) i (λ _, tte_new_table (dmap_to_phys new_table))) ;;
      let* pte := read_entry (phys_to_dmap current_pa) i in
      ensure_leaf_walk level' (address pte) va
  end.
Definition ensure_leaf_table (c : Cursor) (va : Z) : M (Pt UA) unit :=
  ensure_leaf_walk (covering_level c) (covering_pa c) va.

Fixpoint mark_loop (n : nat) (c : Cursor) (va : Z) (status : Status AccessPermission) : M (Pt UA) unit :=
  match n with
  | O => ret tt
  | S n' =>
      ensure_leaf_table c va ;;
      update_leaf_meta c va status ;;
      mark_loop n' c (va + PAGE_SIZE) status
  end.
Definition cursor_mark (c : Cursor) (status : Status AccessPermission) : M (Pt UA) unit :=
  mark_loop (page_steps c) c (c_start c) status.

Fixpoint query_walk (level : nat) (current_pa va : Z) : M (Pt UA) (Status AccessPermission) :=
  let i := entry_index va (Z.of_nat level) in
  let* pte := read_entry (phys_to_dmap current_pa) i in
  if negb (is_valid pte) then ret Invalid
  else match level with
  | O =>
      let* desc := on_alloc (get_page_descriptor current_pa) in
      on_alloc (read_lock desc) ;;
      let* d := on_alloc (read_desc desc) in
      let* status := match desc_meta d with
        | Some m => expect (m !! Z.to_nat i)
        | None => ret Invalid
        end in
      on_alloc (read_unlock desc) ;;
      ret status
  | S level' => query_walk level' (address pte) va
  end.
Definition query (c : Cursor) (va : Z) : M (Pt UA) (Status AccessPermission) :=
  if negb ((c_start c <=? va) && (va <? c_end c)) then ret Invalid
  else query_walk (covering_level c) (covering_pa c) va.
End user.
