(* ===== verification/UserProofs.v ===== *)
(** * Descriptors and locks of user address spaces

    The descriptor of a table page, the allocator as a table allocator for
    [map_page], and what the walks of the cursor read and write. *)

From S2P Require Import Prelude Vm Sync PageAlloc Slab Mapper MapperSpec MapperProofs UserVm.

Section proofs.
Context {T : AddressTranslator} {TL : AddressTranslatorLaws T} {D : TTE} {DL : TTELaws D}.
Context {A B : Type} {TA : TableAllocator A} {TAL : TableAllocatorLaws A} {PB : PageSource B}.
#[local] Abbreviation UA := (UserAllocator A B).
#[local] Abbreviation Descr := (PageDescriptor AccessPermission).
Implicit Types (u : UA) (s : Pt UA) (d : Descr).

(** The pages from [lo] to [hi] have descriptors. *)
Context (lo hi : Z) (Hlo : 0 ≤ lo) (Hal : (PAGE_SIZE | lo)).

Definition managed (p : Z) : Prop := table_addr p ∧ lo ≤ p < hi.
Definition pfn (p : Z) : nat := Z.to_nat ((p - lo) / PAGE_SIZE).

Definition descs_in u : Prop := ∃ ds, ua_descs u = Some ds ∧ pd_start ds = lo ∧ pd_end ds = hi ∧
  hi - lo ≤ Z.of_nat (length (pd_descs ds)) * PAGE_SIZE.

(** The descriptor of the page at [p]. *)
Definition dlook u (p : Z) : option Descr := ds ← ua_descs u; pd_descs ds !! pfn p.

Definition upd_desc (p : Z) (f : Descr → Descr) u : UA :=
  set_ua_descs ((λ ds, {| pd_descs := alter f (pfn p) (pd_descs ds); pd_start := pd_start ds; pd_end := pd_end ds |})
                  <$> ua_descs u) u.

Lemma pfn_inj p q : managed p → managed q → pfn p = pfn q → p = q.
Proof.
  intros [[_ [i Hi]] Hp] [[_ [j Hj]] Hq] E. destruct Hal as [k Hk]. unfold pfn in E. rewrite Hi, Hj, Hk in E.
  rewrite <- !Z.mul_sub_distr_r, !Z.div_mul in E by done. assert (PAGE_SIZE = 16384) as EP by done. rewrite EP in *. lia.
Qed.

Lemma managed_dlook u p : descs_in u → managed p → is_Some (dlook u p).
Proof.
  intros (ds & E & E1 & E2 & Hlen) [_ Hp]. unfold dlook. rewrite E. cbn. apply lookup_lt_is_Some. unfold pfn.
  assert (0 ≤ (p - lo) / PAGE_SIZE) by (apply Z.div_pos; [lia|done]).
  assert ((p - lo) / PAGE_SIZE < Z.of_nat (length (pd_descs ds))); [apply Z.div_lt_upper_bound; [done|]|]; lia.
Qed.

Lemma dlook_upd u p f : dlook (upd_desc p f u) p = f <$> dlook u p.
Proof. unfold dlook, upd_desc. cbn. destruct (ua_descs u) as [ds|]; cbn; [|done]. apply list_lookup_alter_eq. Qed.

Lemma dlook_upd_ne u p q f : managed p → managed q → p ≠ q → dlook (upd_desc p f u) q = dlook u q.
Proof.
  intros Hp Hq Hne. unfold dlook, upd_desc. cbn. destruct (ua_descs u) as [ds|]; cbn; [|done].
  apply list_lookup_alter_ne. intros E. by apply Hne, pfn_inj.
Qed.

(** Only the descriptor of [p] differs. *)
Record differ (p : Z) u u' : Prop := {
  df_tables : ua_tables u' = ua_tables u;
  df_pages : ua_pages u' = ua_pages u;
  df_in : descs_in u';
  df_look q : managed q → q ≠ p → dlook u' q = dlook u q
}.

Lemma differ_trans p u1 u2 u3 : differ p u1 u2 → differ p u2 u3 → differ p u1 u3.
Proof.
  intros [T1 P1 I1 L1] [T2 P2 I2 L2]. split; [congruence|congruence|done|]. intros q Hq Hne. by rewrite L2, L1.
Qed.

Lemma differ_upd p f u : descs_in u → managed p → differ p u (upd_desc p f u).
Proof.
  intros (ds & E & E1 & E2 & Hlen) Hp. split; [done|done| |intros q Hq Hne; by apply dlook_upd_ne].
  unfold descs_in, upd_desc. cbn. rewrite E. cbn. eexists. split; [done|]. cbn. rewrite length_alter. done.
Qed.

(** ** Accesses *)

Lemma wp_get_page_descriptor u p (Q : nat → UA → Prop) : descs_in u → managed p → Q (pfn p) u →
  wp (get_page_descriptor p) Q u.
Proof.
  intros Hd Hp HQ. destruct (managed_dlook u p Hd Hp) as [d Hl]. destruct Hd as (ds & E & E1 & E2 & Hlen).
  unfold dlook in Hl. rewrite E in Hl. cbn in Hl. unfold get_page_descriptor. wp_steps.
  apply (wp_expect _ ds); [done|]. wp_step. destruct Hp as [_ Hp]. apply wp_assert; [rewrite E1, E2; lia|]. wp_steps.
  rewrite E1. change PAGE_SHIFT with 14. rewrite Z.shiftr_div_pow2 by done. change (2 ^ 14) with PAGE_SIZE. fold (pfn p).
  apply (wp_expect _ d); [done|]. by wp_steps.
Qed.

Lemma wp_update_desc u p f (Q : unit → UA → Prop) : Q tt (upd_desc p f u) → wp (update_desc (pfn p) f) Q u.
Proof. intros HQ. unfold update_desc. by wp_steps. Qed.

Lemma wp_read_desc u p d (Q : Descr → UA → Prop) : dlook u p = Some d → Q d u → wp (read_desc (pfn p)) Q u.
Proof.
  intros Hl HQ. unfold dlook in Hl. destruct (ua_descs u) as [ds|] eqn:E; [|done]. cbn in Hl. unfold read_desc. wp_steps.
  apply (wp_expect _ ds); [done|]. by apply (wp_expect _ d).
Qed.

Lemma wp_lock_with f u p d v (Q : unit → UA → Prop) : dlook u p = Some d → f (desc_state d) = Some v →
  Q tt (upd_desc p (set_state v) u) → wp (lock_with f (pfn p)) Q u.
Proof.
  intros Hl Hf HQ. unfold lock_with. wp_step. apply (wp_read_desc _ _ d); [done|]. rewrite Hf. by apply wp_update_desc.
Qed.

Lemma lock_with_faults f u p d : dlook u p = Some d → f (desc_state d) = None → faults (lock_with f (pfn p)) Deadlock u.
Proof. intros Hl Hf. unfold lock_with. apply faults_bind, (wp_read_desc _ _ d); [done|]. by rewrite Hf. Qed.

Lemma wp_on_alloc {X} (c : M UA X) s (Q : X → Pt UA → Prop) :
  wp c (λ x u, Q x {| tables := tables s; alloc_state := u |}) (alloc_state s) → wp (on_alloc c) Q s.
Proof. unfold wp, on_alloc. by destruct (c (alloc_state s)) as [[x u]|]. Qed.

Lemma on_alloc_faults {X} (c : M UA X) f s : faults c f (alloc_state s) → faults (on_alloc c) f s.
Proof. unfold faults, on_alloc. by intros ->. Qed.

Lemma write_alone_0 : write_alone 0 = Some RwLock.WRITER.
Proof. done. Qed.
Lemma read_alone_0 : read_alone 0 = Some 1.
Proof. done. Qed.

(** ** The table allocator *)

Lemma wp_reset_meta u p m (Q : unit → UA → Prop) : descs_in u → managed p →
  dlook u p = Some {| desc_state := 0; desc_meta := m |} →
  (∀ u', differ p u u' → dlook u' p = Some {| desc_state := 0; desc_meta := None |} → Q tt u') →
  wp (reset_meta p) Q u.
Proof.
  intros Hd Hp Hl HQ. unfold reset_meta. wp_step. apply wp_get_page_descriptor; [done|done|].
  wp_step. eapply wp_lock_with; [done|apply write_alone_0|]. wp_step. apply wp_update_desc.
  apply wp_update_desc. pose proof (differ_upd p (set_state RwLock.WRITER) u Hd Hp) as D1.
  pose proof (differ_upd p (set_meta None) _ (df_in _ _ _ D1) Hp) as D2.
  pose proof (differ_upd p (set_state write_release) _ (df_in _ _ _ D2) Hp) as D3.
  apply HQ; [by eapply differ_trans; [|eapply differ_trans]|]. by rewrite !dlook_upd, Hl.
Qed.

(** The inner allocator hands out pages that have a descriptor. *)
Context (Hin : ∀ a w p a', owns a w → alloc_table a = Done (phys_to_dmap p, a') → table_addr p → lo ≤ p < hi).

(** [w] are the tables in use; the descriptor of any other page is not
    locked. *)
Record ua_owns u (w : gset Z) : Prop := {
  uo_inner : owns (ua_tables u) w;
  uo_descs : descs_in u;
  uo_managed p : p ∈ w → managed p;
  uo_free p : managed p → p ∉ w → ∃ m, dlook u p = Some {| desc_state := 0; desc_meta := m |}
}.

(** What [alloc_table] does to the descriptors. *)
Record fresh_table u (p : Z) u' : Prop := {
  ft_managed : managed p;
  ft_in : descs_in u';
  ft_look q : managed q → q ≠ p → dlook u' q = dlook u q;
  ft_new : dlook u' p = Some {| desc_state := 0; desc_meta := None |}
}.

(** An allocation that returns, and one that has to. *)
Lemma user_alloc_fresh u w ptr u' : ua_owns u w → user_alloc_table u = Done (ptr, u') →
  ∃ p, ptr = phys_to_dmap p ∧ table_addr p ∧ p ≠ 0 ∧ (p ∉ w) ∧ ua_owns u' ({[p]} ∪ w) ∧
    (room (ua_tables u) ≤ S (room (ua_tables u')))%nat ∧ fresh_table u p u'.
Proof.
  intros [Ho Hd Hm Hf]. unfold user_alloc_table. destruct (alloc_table (ua_tables u)) as [[p0 a']|] eqn:Ea; [|done].
  destruct (alloc_table_fresh _ _ _ _ Ho Ea) as (p & -> & Hpa & Hp0 & Hpw & Ho' & Hr').
  assert (managed p) as Hp by (split; [done|exact (Hin _ _ _ _ Ho Ea Hpa)]).
  destruct (Hf p Hp Hpw) as [m Hl].
  assert (wp (reset_meta p) (λ _ u', differ p (set_ua_tables a' u) u' ∧ dlook u' p = Some {| desc_state := 0; desc_meta := None |})
    (set_ua_tables a' u)) as Hw by (by apply (wp_reset_meta _ p m)).
  apply wp_run in Hw as ([] & u1 & E & [D1 D2 D3 D4] & Hl'). rewrite dmap_phys_dmap by apply Hpa. rewrite E.
  intros [= <- <-]. exists p. split; [done|]. split; [done|]. split; [done|]. split; [done|]. cbn in D1.
  split; [split|split; [by rewrite D1|split]]; try done.
  - by rewrite D1.
  - intros q [->%elem_of_singleton|Hq]%elem_of_union; [done|by apply Hm].
  - intros q Hq [Hne%not_elem_of_singleton Hqw]%not_elem_of_union. rewrite D4 by done. by apply Hf.
Qed.

Lemma user_alloc_room u w : ua_owns u w → (0 < room (ua_tables u))%nat → ∃ r, user_alloc_table u = Done r.
Proof.
  intros [Ho Hd Hm Hf] Hr. destruct (alloc_table_ok _ _ Ho Hr) as (p & a' & Ea & Hpa & Hp0 & Hpw & Ho' & Hr').
  assert (managed p) as Hp by (split; [done|exact (Hin _ _ _ _ Ho Ea Hpa)]). destruct (Hf p Hp Hpw) as [m Hl].
  assert (wp (reset_meta p) (λ _ _, True) (set_ua_tables a' u)) as Hw by (by apply (wp_reset_meta _ p m)).
  apply wp_run in Hw as ([] & u1 & E & _). unfold user_alloc_table. rewrite Ea, dmap_phys_dmap, E by apply Hpa. by eexists.
Qed.

#[local] Program Instance user_laws : TableAllocatorLaws UA := {|
  owns := ua_owns; room u := room (ua_tables u)
|}.
Next Obligation.
  intros u w ptr u' Ho E. destruct (user_alloc_fresh u w ptr u' Ho E) as (p & E' & H1 & H2 & H3 & H4 & H5 & _). eauto 10.
Qed.
Next Obligation. apply user_alloc_room. Qed.

(** ** What [map_page] does to the descriptors

    A property of the tables in use and of the allocator that allocation
    keeps, [map_page] keeps. *)
Definition keeps_alloc {X} (J : gset Z → UA → Prop) (c : M (Pt UA) X) : Prop :=
  ∀ s x s', J (dom (tables s)) (alloc_state s) → c s = Done (x, s') → J (dom (tables s')) (alloc_state s').

Lemma keeps_bind {X Y} J (c : M (Pt UA) X) (k : X → M (Pt UA) Y) :
  keeps_alloc J c → (∀ x, keeps_alloc J (k x)) → keeps_alloc J (bind c k).
Proof.
  intros Hc Hk s y s' HJ. unfold bind. destruct (c s) as [[x s1]|] eqn:E; [|done]. intros E'. by eapply Hk; [eapply Hc|].
Qed.

Lemma keeps_ret {X} J (x : X) : keeps_alloc J (ret x).
Proof. intros s y s' HJ [= <- <-]. done. Qed.

Lemma keeps_read J ptr i : keeps_alloc J (read_entry ptr i).
Proof. intros s e s' HJ. unfold read_entry. repeat case_match; intros; by simplify_eq. Qed.

Lemma keeps_update J ptr i f : keeps_alloc J (update_entry ptr i f).
Proof. apply keeps_bind; [apply keeps_read|]. intros e s x s' HJ [= <- <-]. cbn. by rewrite dom_alter_L. Qed.

Section map_keeps.
Context (J : gset Z → UA → Prop).
Context (HJ : ∀ w u ptr u', J w u → user_alloc_table u = Done (ptr, u') → J ({[dmap_to_phys ptr]} ∪ w) u').

Lemma keeps_new_table : keeps_alloc J new_table.
Proof.
  intros s ptr s' Hs. unfold new_table. cbn [alloc_table user_tables].
  destruct (user_alloc_table (alloc_state s)) as [[p u]|] eqn:E; [|done]. intros [= <- <-]. cbn. rewrite dom_insert_L. by eapply HJ.
Qed.

Lemma keeps_link ptr i : keeps_alloc J (link_new_table ptr i).
Proof.
  apply keeps_bind; [apply keeps_new_table|]. intros t. repeat (apply keeps_bind; [apply keeps_update|intros _]). apply keeps_ret.
Qed.

Lemma keeps_map_page root pa va at_ : keeps_alloc J (map_page root pa va at_).
Proof.
  assert (∀ ptr i, keeps_alloc J (walk_create ptr i)) as Hw.
  { intros ptr i. apply keeps_bind; [apply keeps_read|intros e]. case_match; [apply keeps_ret|apply keeps_link]. }
  unfold map_page. do 2 (apply keeps_bind; [apply Hw|intros ?]). apply keeps_bind; [|intros ?; apply keeps_update].
  apply keeps_bind; [apply keeps_read|intros e]. case_match; [apply keeps_ret|apply keeps_link].
Qed.

Lemma keeps_ensure n pa va : keeps_alloc J (ensure_leaf_walk n pa va).
Proof.
  revert pa. induction n as [|n IH]; intros pa; cbn [ensure_leaf_walk]; [apply keeps_ret|].
  apply keeps_bind; [apply keeps_read|intros e]. apply keeps_bind.
  - case_match; [apply keeps_ret|]. apply keeps_bind; [apply keeps_new_table|intros t; apply keeps_update].
  - intros _. apply keeps_bind; [apply keeps_read|intros e']. apply IH.
Qed.
End map_keeps.

(** Tables in [w0] keep their descriptors, new ones have fresh ones. *)
Record descs_kept (w0 : gset Z) u0 (w : gset Z) u : Prop := {
  dk_owns : ua_owns u w;
  dk_sub : w0 ⊆ w;
  dk_old p : p ∈ w0 → dlook u p = dlook u0 p;
  dk_new p : p ∈ w → p ∉ w0 → dlook u p = Some {| desc_state := 0; desc_meta := None |}
}.

Lemma descs_kept_refl w u : ua_owns u w → descs_kept w u w u.
Proof. by split. Qed.

Lemma descs_kept_alloc w0 u0 w u ptr u' : descs_kept w0 u0 w u → user_alloc_table u = Done (ptr, u') →
  descs_kept w0 u0 ({[dmap_to_phys ptr]} ∪ w) u'.
Proof.
  intros [H1 H2 H3 H4] E. destruct (user_alloc_fresh u w ptr u' H1 E) as (p & -> & Hp & Hp0 & Hpw & Ho & _ & [F1 F2 F3 F4]).
  rewrite dmap_phys_dmap by apply Hp. split; [done|set_solver| |].
  - intros q Hq. rewrite F3; [by apply H3|by apply (uo_managed _ _ H1), H2|]. intros ->. by apply Hpw, H2.
  - intros q [->%elem_of_singleton|Hq]%elem_of_union Hn; [done|]. rewrite F3; [by apply H4|by apply (uo_managed _ _ H1)|]. by intros ->.
Qed.

Lemma map_page_descs root pa va at_ s s' : ua_owns (alloc_state s) (dom (tables s)) → map_page root pa va at_ s = Done (tt, s') →
  descs_kept (dom (tables s)) (alloc_state s) (dom (tables s')) (alloc_state s').
Proof.
  intros Ho E. eapply (keeps_map_page (descs_kept (dom (tables s)) (alloc_state s))); [|by apply descs_kept_refl|exact E].
  intros. by eapply descs_kept_alloc.
Qed.

Lemma ensure_descs n pa va s s' : ua_owns (alloc_state s) (dom (tables s)) → ensure_leaf_walk n pa va s = Done (tt, s') →
  descs_kept (dom (tables s)) (alloc_state s) (dom (tables s')) (alloc_state s').
Proof.
  intros Ho E. eapply (keeps_ensure (descs_kept (dom (tables s)) (alloc_state s))); [|by apply descs_kept_refl|exact E].
  intros. by eapply descs_kept_alloc.
Qed.
End proofs.
