(* ===== verification/UserLock.v ===== *)
(** * Locking an address range

    The walk of [AddressSpace::lock] finds the table that covers the range,
    holding read locks above it and a write lock on it; dropping the cursor
    releases them all. *)

From S2P Require Import Prelude Vm Sync PageAlloc Slab Mapper MapperSpec MapperProofs UserVm UserProofs.

(** ** Indices *)

Section indices.
Context {D : TTE} {DL : TTELaws D}.

(** The path to the table of level [l] on the walk to [va]; level 0 is the
    leaf. *)
Definition upath (va : Z) (l : nat) : list Z := take (3 - l) (path3 va).

Lemma ei_idx va l : 0 ≤ va < 2 ^ VA_WIDTH → (l ≤ 3)%nat → entry_index va (Z.of_nat l) = idx va (3 - Z.of_nat l).
Proof.
  intros Hva Hl. rewrite entry_index_div, idx_div by lia. replace (3 - (3 - Z.of_nat l)) with (Z.of_nat l) by lia.
  destruct (Z.eqb_spec (3 - Z.of_nat l) 0) as [E|E]; [|done]. replace (Z.of_nat l) with 3 by lia.
  unfold VA_WIDTH in Hva. change (2 ^ 48) with 281474976710656 in Hva. change (2 ^ (14 + 3 * 11)) with 140737488355328.
  change (2 ^ 11) with 2048. assert (0 ≤ va / 140737488355328 < 2) by (split; [apply Z.div_pos; lia|apply Z.div_lt_upper_bound; lia]).
  by rewrite !Z.mod_small by lia.
Qed.

Lemma upath_ok va l : 0 ≤ va → path_ok (upath va l).
Proof.
  intros Hva. destruct (path_of_va va Hva) as (_ & [H1 H2] & _). unfold upath. split.
  - rewrite length_take. simpl in *. lia.
  - by apply Forall_take.
Qed.

Lemma upath_length va l : (l ≤ 3)%nat → length (upath va l) = (3 - l)%nat.
Proof. intros Hl. unfold upath. rewrite length_take. simpl. lia. Qed.

Lemma upath_step va l : (l < 3)%nat → upath va l = upath va (S l) ++ [idx va (3 - Z.of_nat (S l))].
Proof. intros Hl. destruct l as [|[|[|]]]; [done..|lia]. Qed.

(** Addresses between two that share the top indices share them. *)
Lemma high_digit x j : 0 ≤ x → 0 ≤ j →
  x / 2 ^ (14 + j * 11) = 2048 * (x / 2 ^ (14 + (j + 1) * 11)) + entry_index x j.
Proof.
  intros Hx Hj. rewrite entry_index_div by done. change (2 ^ 11) with 2048.
  replace (14 + (j + 1) * 11) with (14 + j * 11 + 11) by lia. rewrite (Z.pow_add_r 2 (14 + j * 11) 11) by lia. change (2 ^ 11) with 2048.
  pose proof (pow2_pos (14 + j * 11) ltac:(lia)). rewrite <- Z.div_div by lia.
  pose proof (Z.div_mod (x / 2 ^ (14 + j * 11)) 2048 ltac:(lia)). lia.
Qed.

Definition same_above (x y : Z) (l : nat) : Prop := ∀ j, (l < j ≤ 3)%nat → entry_index x (Z.of_nat j) = entry_index y (Z.of_nat j).

Lemma same_above_high x y l : 0 ≤ x < 2 ^ VA_WIDTH → 0 ≤ y < 2 ^ VA_WIDTH → (l ≤ 3)%nat → same_above x y l →
  x / 2 ^ (14 + (Z.of_nat l + 1) * 11) = y / 2 ^ (14 + (Z.of_nat l + 1) * 11).
Proof.
  intros Hx Hy Hl Hs. unfold VA_WIDTH in *. remember (3 - l)%nat as k eqn:Ek. revert l Hl Hs Ek. induction k as [|k IH]; intros l Hl Hs Ek.
  - replace l with 3%nat by lia. rewrite !Z.div_small; [done|..]; change (2 ^ (14 + (Z.of_nat 3 + 1) * 11)) with (2 ^ 58);
      change (2 ^ 48) with 281474976710656 in *; change (2 ^ 58) with 288230376151711744; lia.
  - rewrite (high_digit x (Z.of_nat l + 1)), (high_digit y (Z.of_nat l + 1)) by lia. replace (Z.of_nat l + 1) with (Z.of_nat (S l)) by lia. rewrite (Hs (S l)) by lia.
    rewrite (IH (S l)) by (try lia; intros j Hj; apply Hs; lia). done.
Qed.

Lemma same_above_between x v y l : 0 ≤ x → x ≤ v ≤ y → y < 2 ^ VA_WIDTH → (l ≤ 3)%nat → same_above x y l → same_above x v l.
Proof.
  intros H0 Hv Hy Hl Hs. pose proof (same_above_high x y l ltac:(lia) ltac:(lia) Hl Hs) as E.
  assert (∀ j, (l < j ≤ 4)%nat → x / 2 ^ (14 + Z.of_nat j * 11) = v / 2 ^ (14 + Z.of_nat j * 11)) as Hh.
  { intros j Hj. assert (x / 2 ^ (14 + Z.of_nat j * 11) = y / 2 ^ (14 + Z.of_nat j * 11)) as E'.
    { replace (14 + Z.of_nat j * 11) with ((14 + (Z.of_nat l + 1) * 11) + (Z.of_nat j - Z.of_nat l - 1) * 11) by lia.
      rewrite Z.pow_add_r by lia. pose proof (pow2_pos (14 + (Z.of_nat l + 1) * 11) ltac:(lia)).
      pose proof (pow2_pos ((Z.of_nat j - Z.of_nat l - 1) * 11) ltac:(lia)). rewrite <- !Z.div_div by lia. by rewrite E. }
    pose proof (pow2_pos (14 + Z.of_nat j * 11) ltac:(lia)).
    pose proof (Z.div_le_mono x v _ ltac:(eassumption) ltac:(lia)). pose proof (Z.div_le_mono v y _ ltac:(eassumption) ltac:(lia)). lia. }
  intros j Hj. pose proof (high_digit x (Z.of_nat j) ltac:(lia) ltac:(lia)) as Ex. pose proof (high_digit v (Z.of_nat j) ltac:(lia) ltac:(lia)) as Ev.
  pose proof (Hh j ltac:(lia)). pose proof (Hh (S j) ltac:(lia)). replace (Z.of_nat j + 1) with (Z.of_nat (S j)) in * by lia. lia.
Qed.

Lemma upath_same x v l : 0 ≤ x < 2 ^ VA_WIDTH → 0 ≤ v < 2 ^ VA_WIDTH → (l ≤ 3)%nat → same_above x v l → upath v l = upath x l.
Proof.
  intros Hx Hv Hl Hs. remember (3 - l)%nat as k eqn:Ek. revert l Hl Hs Ek. induction k as [|k IH]; intros l Hl Hs Ek.
  - by replace l with 3%nat by lia.
  - rewrite !(upath_step _ l) by lia. rewrite (IH (S l)) by (try lia; intros j Hj; apply Hs; lia). f_equal. f_equal.
    rewrite <- !ei_idx by (done || lia). symmetry. apply Hs. lia.
Qed.
End indices.

(** ** The walk *)

Section lock.
Context {T : AddressTranslator} {TL : AddressTranslatorLaws T} {D : TTE} {DL : TTELaws D}.
Context {A B : Type} {TA : TableAllocator A} {TAL : TableAllocatorLaws A} {PB : PageSource B}.
#[local] Abbreviation UA := (UserAllocator A B).
Implicit Types (u : UA) (s : Pt UA).
Context (lo hi : Z) (Hlo : 0 ≤ lo) (Hal : (PAGE_SIZE | lo)).
#[local] Abbreviation managed := (managed lo hi).
#[local] Abbreviation pfn := (pfn lo).
#[local] Abbreviation dlook := (dlook lo).
#[local] Abbreviation ua_owns := (ua_owns lo hi).
#[local] Abbreviation descs_in := (descs_in lo hi).

(** The page tables below [root], with descriptors for all of them. *)
Record utree (root : Z) s : Prop := {
  ut_tree : tree (tables s) root;
  ut_owns : ua_owns (alloc_state s) (dom (tables s))
}.

(** The lock words of the tables when [cov] is written and [ts] are read;
    metadata has one entry per table entry. *)
Definition lock_word (cov : option Z) (ts : list Z) (p : Z) : Z :=
  if decide (cov = Some p) then RwLock.WRITER else if decide (p ∈ ts) then 1 else 0.
Definition locked s (cov : option Z) (ts : list Z) : Prop := ∀ p, p ∈ dom (tables s) →
  ∃ m, dlook (alloc_state s) p = Some {| desc_state := lock_word cov ts p; desc_meta := m |} ∧
       (∀ l, m = Some l → length l = Z.to_nat TABLE_ENTRIES).

(** No table is locked. *)
Definition idle s : Prop := locked s None [].

(** Only descriptors differ. *)
Record relocked s s' : Prop := {
  rl_tables : tables s' = tables s;
  rl_inner : ua_tables (alloc_state s') = ua_tables (alloc_state s);
  rl_pages : ua_pages (alloc_state s') = ua_pages (alloc_state s);
  rl_in : descs_in (alloc_state s');
  rl_out p : managed p → p ∉ dom (tables s) → dlook (alloc_state s') p = dlook (alloc_state s) p
}.

Lemma relocked_refl s : descs_in (alloc_state s) → relocked s s.
Proof. by split. Qed.

Lemma relocked_trans s1 s2 s3 : relocked s1 s2 → relocked s2 s3 → relocked s1 s3.
Proof.
  intros [E1 E2 E3 E4 E5] [F1 F2 F3 F4 F5]. split; [congruence|congruence|congruence|done|].
  intros p Hp Hn. rewrite F5, E5; [done|done|done|done|by rewrite E1].
Qed.

Lemma relocked_utree root s s' : utree root s → relocked s s' → utree root s'.
Proof.
  intros [Ht [O1 O2 O3 O4]] [E1 E2 E3 E4 E5]. split; rewrite E1; [done|]. split; rewrite ?E2; [done|done|done|].
  intros p Hp Hn. rewrite E5 by done. by apply O4.
Qed.

Lemma utree_managed root s p t : utree root s → path_ok p → descend (tables s) root p = Some t → managed t ∧ t ∈ dom (tables s).
Proof.
  intros [Ht Ho] Hp Hd. destruct (tr_table _ _ Ht p t Hp Hd) as (_ & es & Hes & _).
  assert (t ∈ dom (tables s)) as Hin by (by apply elem_of_dom_2 in Hes). split; [by apply (uo_managed _ _ _ _ Ho)|done].
Qed.

(** One descriptor of a table changes. *)
Lemma relocked_upd root s p f : utree root s → p ∈ dom (tables s) →
  relocked s {| tables := tables s; alloc_state := upd_desc lo p f (alloc_state s) |}.
Proof.
  intros [Ht [O1 O2 O3 O4]] Hp. pose proof (differ_upd lo hi Hal p f (alloc_state s) O2 (O3 p Hp)) as [D1 D2 D3 D4].
  split; cbn; [done|done|done|done|]. intros q Hq Hn. apply D4; [done|]. by intros ->.
Qed.

(** Taking or releasing the lock of [p] changes its word. *)
Lemma locked_upd root s cov ts cov' ts' p v : utree root s → p ∈ dom (tables s) → locked s cov ts →
  v = lock_word cov' ts' p → (∀ q, q ≠ p → lock_word cov' ts' q = lock_word cov ts q) →
  locked {| tables := tables s; alloc_state := upd_desc lo p (set_state v) (alloc_state s) |} cov' ts'.
Proof.
  intros [Ht Ho] Hp Hl Ev Hq q Hin. cbn [tables alloc_state] in *. destruct (decide (q = p)) as [->|Hne].
  - destruct (Hl p Hp) as (m & Hm & Hlen). exists m. rewrite dlook_upd, Hm, Ev. done.
  - rewrite (dlook_upd_ne lo hi) by (try done; by apply (uo_managed _ _ _ _ Ho)). rewrite Hq by done. by apply Hl.
Qed.

Lemma wp_descriptor root s p (Q : nat → Pt UA → Prop) : utree root s → p ∈ dom (tables s) → Q (pfn p) s →
  wp (on_alloc (get_page_descriptor p)) Q s.
Proof.
  intros [Ht Ho] Hp HQ. apply wp_on_alloc. apply (wp_get_page_descriptor lo hi); [apply Ho|by apply (uo_managed _ _ _ _ Ho)|].
  by destruct s.
Qed.

(** A lock that is free is taken, one that is not is never. *)
Lemma wp_lock_desc root s cov ts cov' ts' p f v (Q : unit → Pt UA → Prop) : utree root s → p ∈ dom (tables s) →
  locked s cov ts → f (lock_word cov ts p) = Some v → v = lock_word cov' ts' p →
  (∀ q, q ≠ p → lock_word cov' ts' q = lock_word cov ts q) →
  (∀ s', relocked s s' → locked s' cov' ts' → Q tt s') → wp (on_alloc (lock_with f (pfn p))) Q s.
Proof.
  intros I Hp Hl Hf Ev Hq HQ. destruct (Hl p Hp) as (m & Hm & _). apply wp_on_alloc.
  eapply wp_lock_with; [done|exact Hf|]. apply HQ; [by eapply relocked_upd|by eapply locked_upd].
Qed.

Lemma lock_desc_faults s cov ts p f : p ∈ dom (tables s) → locked s cov ts → f (lock_word cov ts p) = None →
  faults (on_alloc (lock_with f (pfn p))) Deadlock s.
Proof. intros Hp Hl Hf. destruct (Hl p Hp) as (m & Hm & _). apply on_alloc_faults. by eapply lock_with_faults. Qed.

Lemma wp_set_desc root s cov ts cov' ts' p v (Q : unit → Pt UA → Prop) : utree root s → p ∈ dom (tables s) →
  locked s cov ts → v = lock_word cov' ts' p → (∀ q, q ≠ p → lock_word cov' ts' q = lock_word cov ts q) →
  (∀ s', relocked s s' → locked s' cov' ts' → Q tt s') →
  wp (on_alloc (update_desc (pfn p) (set_state v))) Q s.
Proof.
  intros I Hp Hl Ev Hq HQ. apply wp_on_alloc, wp_update_desc. apply HQ; [by eapply relocked_upd|by eapply locked_upd].
Qed.

Lemma upd_desc_ext p f g u d : dlook u p = Some d → f d = g d → upd_desc lo p f u = upd_desc lo p g u.
Proof.
  intros Hd E. unfold upd_desc. f_equal. unfold UserProofs.dlook in Hd. destruct (ua_descs u) as [ds|]; [|done]. cbn in *. f_equal. f_equal.
  apply list_eq. intros i. destruct (decide (i = pfn p)) as [->|Hne]; [by rewrite !list_lookup_alter_eq, Hd; cbn; rewrite E|].
  by rewrite !list_lookup_alter_ne.
Qed.

Lemma wp_read_unlock root s cov ts ts' p (Q : unit → Pt UA → Prop) : utree root s → p ∈ dom (tables s) →
  locked s cov ts → cov ≠ Some p → p ∈ ts → p ∉ ts' → (∀ q, q ≠ p → q ∈ ts ↔ q ∈ ts') →
  (∀ s', relocked s s' → locked s' cov ts' → Q tt s') → wp (on_alloc (read_unlock (pfn p))) Q s.
Proof.
  intros I Hp Hl Hc Hin Hnin Hq HQ. destruct (Hl p Hp) as (m & Hm & _). apply wp_on_alloc, wp_update_desc.
  assert (lock_word cov ts p = 1) as E1 by (unfold lock_word; by rewrite decide_False, decide_True).
  assert (lock_word cov ts' p = 0) as E0 by (unfold lock_word; by rewrite decide_False, decide_False).
  rewrite (upd_desc_ext p _ (set_state 0) _ _ Hm) by (rewrite E1; done).
  apply HQ; [by eapply relocked_upd|]. eapply locked_upd; [done|done|done|done|]. intros q Hne. unfold lock_word.
  case_decide; [done|]. pose proof (Hq q Hne). by repeat case_decide; try tauto.
Qed.

(** [ts] are tables on the walk to [start] above level [l]. *)
Definition above (root : Z) (m : gmap Z (list tte)) (start : Z) (l : nat) (ts : list Z) : Prop :=
  NoDup ts ∧ ∀ t, t ∈ ts → ∃ j, (l < j ≤ 3)%nat ∧ descend m root (upath start j) = Some t.

Lemma above_not root s start l ts pa j : utree root s → 0 ≤ start → (j ≤ l)%nat → (l ≤ 3)%nat → above root (tables s) start l ts →
  descend (tables s) root (upath start j) = Some pa → pa ∉ ts.
Proof.
  intros I Hs Hj Hl [_ Ha] Hd Hin. destruct (Ha pa Hin) as (k & Hk & Hd').
  pose proof (tr_inj _ _ (ut_tree _ _ I) _ _ pa (upath_ok start j Hs) (upath_ok start k Hs) Hd Hd') as E.
  apply (f_equal length) in E. rewrite !upath_length in E by lia. lia.
Qed.

(** The walk cannot go below level [l]: the range spreads over several
    entries, or there is no table below. *)
Definition tight (root : Z) (m : gmap Z (list tte)) (start end_ : Z) (l : nat) : Prop := ∀ n, l = S n →
  entry_index start (Z.of_nat l) = entry_index (Z.max 0 (end_ - 1)) (Z.of_nat l) → descend m root (upath start n) = None.

Lemma wp_lock_walk root n pa start end_ ts s (Q : list nat * Z * nat → Pt UA → Prop) : (n ≤ 3)%nat → utree root s →
  0 ≤ start < 2 ^ VA_WIDTH → descend (tables s) root (upath start n) = Some pa → locked s None ts →
  above root (tables s) start n ts → same_above start (Z.max 0 (end_ - 1)) n →
  (∀ s' l pa' ts', relocked s s' → (l ≤ n)%nat → descend (tables s) root (upath start l) = Some pa' → locked s' None ts' →
     above root (tables s) start l ts' → same_above start (Z.max 0 (end_ - 1)) l → tight root (tables s) start end_ l →
     Q (pfn <$> ts', pa', l) s') →
  wp (lock_walk n pa start end_ (pfn <$> ts)) Q s.
Proof.
  revert pa ts s. induction n as [|n IH]; intros pa ts s Hn I Hs Hd Hl Ha Hsame HQ.
  { cbn [lock_walk]. wp_steps. apply (HQ s 0%nat pa ts); try done. apply relocked_refl, (ut_owns _ _ I). }
  assert (relocked s s) as Hrefl by apply relocked_refl, (ut_owns _ _ I).
  pose proof (upath_ok start (S n) ltac:(lia)) as Hok. destruct (utree_managed root s _ pa I Hok Hd) as [Hm Hdom].
  pose proof (above_not root s start (S n) ts pa (S n) I ltac:(lia) ltac:(lia) Hn Ha Hd) as Hnin.
  cbn [lock_walk]. case_match eqn:Ei; [apply Z.eqb_eq in Ei|].
  2:{ wp_steps. apply (HQ s (S n) pa ts); try done. intros k _ E. by apply Z.eqb_neq in Ei. }
  wp_step. eapply wp_descriptor; [done|done|]. wp_step.
  eapply (wp_lock_desc root _ None ts None (ts ++ [pa]) pa read_alone 1); [done|done|done| | | |].
  { unfold lock_word. rewrite decide_False, decide_False by done. apply read_alone_0. }
  { unfold lock_word. rewrite decide_False by done. by rewrite decide_True by set_solver. }
  { intros q Hne. unfold lock_word. rewrite !decide_False by done. repeat case_decide; set_solver. }
  intros s1 R1 L1. pose proof (relocked_utree _ _ _ I R1) as I1. pose proof (rl_tables _ _ R1) as Et.
  rewrite ei_idx in * by (done || lia). set (i := idx start _) in *.
  assert (index_ok i) as Hi by (apply idx_ok; lia).
  destruct (tree_entry _ _ _ _ _ (ut_tree _ _ I) Hok Hd Hi) as [e He].
  wp_step. eapply wp_read_entry; [apply dmap_phys_dmap, Hm|rewrite Et; exact He|]. fold (points e).
  destruct (points e) eqn:Hpt.
  - change (pfn <$> ts ++ [pa]) with (pfn <$> (ts ++ [pa])). replace ((pfn <$> ts) ++ [pfn pa]) with (pfn <$> (ts ++ [pa])) by (by rewrite fmap_app).
    apply IH; try done; rewrite ?Et; [lia|..].
    + rewrite (upath_step start n) by lia. rewrite descend_snoc, Hd. cbn. fold i. rewrite He. cbn. by rewrite Hpt.
    + destruct Ha as [Hnd Ha]. split; [apply NoDup_app; split; [done|split; [|apply NoDup_singleton]]; set_solver|].
      intros t [Ht| ->%list_elem_of_singleton]%elem_of_app.
      * destruct (Ha t Ht) as (j & Hj & Hdj). exists j. split; [lia|done].
      * exists (S n). split; [lia|done].
    + intros j Hj. destruct (decide (j = S n)) as [->|]; [|apply Hsame; lia]. rewrite ei_idx by (done || lia). exact Ei.
    + intros s' l pa' ts' R' Hl' Hd' Hlk' Ha' Hs' Ht'. apply (HQ s' l pa' ts'); try done; [by eapply relocked_trans|lia].
  - wp_step. eapply (wp_read_unlock root _ None (ts ++ [pa]) ts); [done|by rewrite Et|done|done|set_solver|done|set_solver|].
    intros s2 R2 L2. wp_steps. apply (HQ s2 (S n) pa ts); try done; [by eapply relocked_trans|].
    intros k [= <-] _. rewrite (upath_step start n), descend_snoc, Hd by lia. cbn. fold i. rewrite He. cbn. by rewrite Hpt.
Qed.

(** ** Cursors *)

(** A cursor of a range: every address of the range is below its covering
    table, which it has write-locked, and it has read-locked [ts] above. *)
Record cursor_inv (root : Z) (ts : list Z) (c : Cursor) s : Prop := {
  ci_tree : utree root s;
  ci_root : ∃ rptr, as_root (c_space c) = Some rptr ∧ dmap_to_phys rptr = root;
  ci_range : 0 ≤ c_start c ∧ c_start c < c_end c ∧ c_end c ≤ 2 ^ VA_WIDTH;
  ci_level : (covering_level c ≤ 3)%nat;
  ci_cover va : c_start c ≤ va < c_end c → descend (tables s) root (upath va (covering_level c)) = Some (covering_pa c);
  ci_read : read_guards c = pfn <$> ts;
  ci_write : write_guard c = Some (pfn (covering_pa c));
  ci_above : above root (tables s) (c_start c) (covering_level c) ts;
  ci_locked : locked s (Some (covering_pa c)) ts
}.

Lemma cursor_covering root ts c s : cursor_inv root ts c s →
  managed (covering_pa c) ∧ covering_pa c ∈ dom (tables s) ∧ covering_pa c ∉ ts.
Proof.
  intros I. destruct (ci_range _ _ _ _ I) as (H1 & H2 & H3). pose proof (ci_cover _ _ _ _ I (c_start c) ltac:(lia)) as Hd.
  destruct (utree_managed root s _ _ (ci_tree _ _ _ _ I) (upath_ok _ _ H1) Hd). split; [done|]. split; [done|].
  eapply above_not; [apply I|exact H1|reflexivity|apply I|apply I|exact Hd].
Qed.

Lemma wp_as_lock root rptr sp start end_ s : utree root s → idle s → as_root sp = Some rptr → dmap_to_phys rptr = root →
  max_level sp = 3 → 0 ≤ start < end_ → end_ ≤ 2 ^ VA_WIDTH →
  wp (as_lock sp start end_) (λ c s', relocked s s' ∧ c_space c = sp ∧ c_start c = start ∧ c_end c = end_ ∧
    tight root (tables s') start end_ (covering_level c) ∧ ∃ ts, cursor_inv root ts c s') s.
Proof.
  intros I Hidle Er Hr Hml Hse Hend. unfold as_lock. wp_step. apply (wp_expect _ rptr); [done|]. rewrite Hml, Hr. wp_step.
  change (@nil nat) with (pfn <$> @nil Z). apply (wp_lock_walk root (Z.to_nat 3)); try done; [lia|..].
  { split; [apply NoDup_nil_2|]. by intros t ?%not_elem_of_nil. }
  { intros j Hj. change (Z.to_nat 3) with 3%nat in Hj. lia. }
  change (Z.to_nat 3) with 3%nat. intros s1 l pa ts R1 Hl Hd L1 Ha Hs Htt. pose proof (relocked_utree _ _ _ I R1) as I1. pose proof (rl_tables _ _ R1) as Et.
  destruct (utree_managed root s _ _ I (upath_ok start l ltac:(lia)) Hd) as [Hm Hdom].
  assert (pa ∉ ts) as Hnin by (apply (above_not root s start l ts pa l I); [lia|lia|done|done|done]).
  wp_step. eapply wp_descriptor; [done|by rewrite Et|]. wp_step.
  eapply (wp_lock_desc root _ None ts (Some pa) ts pa write_alone RwLock.WRITER); [done|by rewrite Et|done|..].
  { unfold lock_word. rewrite decide_False, decide_False by done. apply write_alone_0. }
  { unfold lock_word. by rewrite decide_True. }
  { intros q Hne. unfold lock_word. rewrite decide_False by congruence. by rewrite (decide_False (P := None = Some q)). }
  intros s2 R2 L2. pose proof (rl_tables _ _ R2) as Et2. wp_steps. split; [by eapply relocked_trans|]. split; [done|]. split; [done|]. split; [done|].
  split; [by rewrite Et2, Et|]. exists ts. split; cbn [c_space c_start c_end read_guards write_guard covering_pa covering_level]; rewrite ?Et2, ?Et; try done; [by eapply relocked_utree|by exists rptr|lia|].
  intros va Hva. rewrite (upath_same start va l) by (try lia; eapply (same_above_between _ _ (Z.max 0 (end_ - 1))); try done; lia). done.
Qed.

Lemma wp_pop_guards root ts s : utree root s → NoDup ts → (∀ t, t ∈ ts → t ∈ dom (tables s)) → locked s None ts →
  wp (pop_guards (pfn <$> ts)) (λ _ s', relocked s s' ∧ idle s') s.
Proof.
  revert s. induction ts as [|t ts IH]; intros s I Hnd Hdom Hl; cbn [fmap list_fmap pop_guards].
  { wp_steps. split; [|done]. apply relocked_refl, (ut_owns _ _ I). }
  apply NoDup_cons in Hnd as [Ht Hnd]. wp_step.
  eapply (wp_read_unlock root _ None (t :: ts) ts); [done|apply Hdom; set_solver|done|done|set_solver|done|set_solver|].
  intros s1 R1 L1. eapply wp_mono; [apply IH; [by eapply relocked_utree|done| |done]|].
  - intros t' Ht'. rewrite (rl_tables _ _ R1). apply Hdom. set_solver.
  - intros _ s2 [R2 Hi]. split; [by eapply relocked_trans|done].
Qed.

Lemma wp_cursor_drop root ts c s : cursor_inv root ts c s → wp (cursor_drop c) (λ _ s', relocked s s' ∧ idle s') s.
Proof.
  intros I. destruct (cursor_covering _ _ _ _ I) as (Hm & Hdom & Hnin). unfold cursor_drop. rewrite (ci_write _ _ _ _ I), (ci_read _ _ _ _ I).
  wp_step. eapply (wp_set_desc root _ (Some (covering_pa c)) ts None ts); [apply I|done|apply I| |..].
  { unfold lock_word. by rewrite !decide_False. }
  { intros q Hne. unfold lock_word. rewrite (decide_False (P := None = Some q)) by done. by rewrite (decide_False (P := Some (covering_pa c) = Some q)) by congruence. }
  intros s1 R1 L1. rewrite <- fmap_reverse. destruct (ci_above _ _ _ _ I) as [Hnd Ha].
  eapply wp_mono; [apply (wp_pop_guards root)|].
  - eapply relocked_utree; [apply I|done].
  - by rewrite reverse_Permutation.
  - intros t Ht. rewrite reverse_Permutation in Ht. rewrite (rl_tables _ _ R1). destruct (Ha t Ht) as (j & Hj & Hd).
    by eapply (utree_managed root s); [apply I|apply upath_ok, (ci_range _ _ _ _ I)|].
  - intros p Hp. destruct (L1 p Hp) as (m & Hm' & Hlen). exists m. split; [|done]. rewrite Hm'. f_equal. f_equal. unfold lock_word.
    assert (p ∈ reverse ts ↔ p ∈ ts) as Hiff by (by rewrite reverse_Permutation). by repeat case_decide; try tauto.
  - intros _ s2 [R2 Hi]. split; [by eapply relocked_trans|done].
Qed.
End lock.
