(* ===== verification/UserCursor.v ===== *)
(** * The operations of a cursor

    What [map], [mark] and [query] do when the covering table is above the
    leaf tables, and that they wait for the cursor's own lock when it is a
    leaf table. *)

From S2P Require Import Prelude Vm Sync PageAlloc Slab Mapper MapperSpec MapperProofs MapperTheorems UserVm UserProofs UserLock.

Section cursor.
Context {T : AddressTranslator} {TL : AddressTranslatorLaws T} {D : TTE} {DL : TTELaws D}.
Context {A B : Type} {TA : TableAllocator A} {TAL : TableAllocatorLaws A} {PB : PageSource B}.
#[local] Abbreviation UA := (UserAllocator A B).
Implicit Types (u : UA) (s : Pt UA).
Context (lo hi : Z) (Hlo : 0 ≤ lo) (Hal : (PAGE_SIZE | lo)).
Context (Hin : ∀ a w p a', owns a w → alloc_table a = Done (phys_to_dmap p, a') → table_addr p → lo ≤ p < hi).
#[local] Abbreviation managed := (managed lo hi).
#[local] Abbreviation pfn := (pfn lo).
#[local] Abbreviation dlook := (dlook lo).
#[local] Abbreviation utree := (utree lo hi).
#[local] Abbreviation locked := (locked lo).
#[local] Abbreviation relocked := (relocked lo hi).
#[local] Abbreviation cursor_inv := (cursor_inv lo hi).
#[local] Instance laws : TableAllocatorLaws UA := user_laws lo hi Hal Hin.

Lemma utree_pt root s : utree root s ↔ pt_inv root s.
Proof. split; intros [H1 H2]; by split. Qed.

(** ** Walking down to the leaf table *)

(** Two tables on one path are linked by an entry. *)
Lemma descend_step m root va l pa q : (l < 3)%nat → descend m root (upath va (S l)) = Some pa →
  descend m root (upath va l) = Some q →
  ∃ e, entry m pa (idx va (3 - Z.of_nat (S l))) = Some e ∧ points e = true ∧ q = address e.
Proof.
  intros Hl Hpa. rewrite upath_step, descend_snoc, Hpa by done. cbn.
  destruct (entry m pa _) as [e|]; [|done]. cbn. destruct (points e) eqn:Hp; [|done]. intros [= <-]. by exists e.
Qed.

(** The table one level below on the way to an existing leaf table. *)
Lemma descend_next m root va l pa t : (l < 3)%nat → descend m root (upath va (S l)) = Some pa →
  descend m root (path3 va) = Some t →
  ∃ e, entry m pa (idx va (3 - Z.of_nat (S l))) = Some e ∧ points e = true ∧ descend m root (upath va l) = Some (address e).
Proof.
  intros Hl Hpa Ht. assert (∃ q, descend m root (upath va l) = Some q) as [q Hq].
  { unfold upath. rewrite <- (take_drop (3 - l) (path3 va)), descend_app in Ht.
    destruct (descend m root (take (3 - l) (path3 va))); [eauto|done]. }
  destruct (descend_step m root va l pa q Hl Hpa Hq) as (e & He & Hp & ->). by exists e.
Qed.

Lemma length_new_meta : length (new_meta (D := D)) = Z.to_nat TABLE_ENTRIES.
Proof. apply length_replicate. Qed.

Lemma put_meta_length i (st : Status AccessPermission) d l :
  (∀ l0, desc_meta d = Some l0 → length l0 = Z.to_nat TABLE_ENTRIES) → desc_meta (put_meta i st d) = Some l →
  length l = Z.to_nat TABLE_ENTRIES.
Proof.
  intros Hl. unfold put_meta, set_meta. cbn [desc_meta]. intros [= <-]. rewrite length_insert.
  destruct (desc_meta d) as [l0|]; [by apply Hl|apply length_new_meta].
Qed.

(** [update_leaf_meta] below the covering table. *)
Lemma wp_update_leaf_walk root cov ts n pa va st t s (Q : unit → Pt UA → Prop) : (n ≤ 3)%nat → utree root s →
  0 ≤ va < 2 ^ VA_WIDTH → locked s cov ts → descend (tables s) root (upath va n) = Some pa →
  descend (tables s) root (path3 va) = Some t → lock_word cov ts t = 0 →
  (∀ s' d, relocked s s' → locked s' cov ts → dlook (alloc_state s) t = Some d →
     dlook (alloc_state s') t = Some (put_meta (idx va 3) st d) →
     (∀ q, managed q → q ≠ t → dlook (alloc_state s') q = dlook (alloc_state s) q) → Q tt s') →
  wp (update_leaf_walk n pa va st) Q s.
Proof.
  intros Hn I Hva Hl Hpa Ht Hw HQ. revert pa Hn Hpa. induction n as [|n IH]; intros pa Hn Hpa; cbn [update_leaf_walk].
  - assert (pa = t) as -> by (change (upath va 0) with (path3 va) in Hpa; congruence).
    destruct (utree_managed lo hi root s _ t I (proj1 (proj2 (path_of_va va ltac:(lia)))) Ht) as [Hm Hdom].
    destruct (Hl t Hdom) as (m & Hd & Hlen). rewrite Hw in Hd. change 0 with (Z.of_nat 0) at 1. rewrite ei_idx by (done || lia).
    change (3 - Z.of_nat 0) with 3. wp_step. eapply wp_descriptor; [done|done|]. wp_step.
    apply wp_on_alloc. eapply wp_lock_with; [exact Hd|apply write_alone_0|]. wp_step. apply wp_on_alloc, wp_update_desc. cbn [alloc_state tables].
    apply wp_on_alloc, wp_update_desc. cbn [alloc_state tables].
    pose proof (ut_owns _ _ _ _ I) as Ho. set (u := alloc_state s) in *.
    pose proof (differ_upd lo hi Hal t (set_state RwLock.WRITER) u (uo_descs _ _ _ _ Ho) Hm) as D1.
    pose proof (differ_upd lo hi Hal t (put_meta (idx va 3) st) _ (df_in _ _ _ _ _ D1) Hm) as D2.
    pose proof (differ_upd lo hi Hal t (set_state write_release) _ (df_in _ _ _ _ _ D2) Hm) as D3.
    pose proof (differ_trans _ _ _ _ _ _ D1 (differ_trans _ _ _ _ _ _ D2 D3)) as [E1 E2 E3 E4].
    set (u' := upd_desc lo t (set_state write_release) _) in *.
    assert (dlook u' t = Some (put_meta (idx va 3) st {| desc_state := 0; desc_meta := m |})) as Hd'
      by (unfold u'; by rewrite !dlook_upd, Hd).
    apply (HQ _ {| desc_state := 0; desc_meta := m |}); try done.
    + split; cbn; [done|done|done|done|]. intros q Hq Hnq. apply E4; [done|]. by intros ->.
    + intros q Hq. cbn [tables alloc_state] in *. destruct (decide (q = t)) as [->|Hne].
      * rewrite Hd', Hw. eexists. split; [done|]. intros l. by apply (put_meta_length (idx va 3) st {| desc_state := 0; desc_meta := m |}).
      * rewrite E4; [by apply Hl|by apply (uo_managed _ _ _ _ Ho)|done].
  - destruct (descend_next _ _ _ _ _ _ Hn Hpa Ht) as (e & He & Hp & Hd).
    destruct (utree_managed lo hi root s _ pa I (upath_ok va (S n) ltac:(lia)) Hpa) as [Hm _].
    rewrite ei_idx by (done || lia). wp_step. eapply wp_read_entry; [apply dmap_phys_dmap, Hm|exact He|].
    fold (points e). rewrite Hp. apply IH; [lia|done].
Qed.

(** A leaf table that the cursor has write-locked is never locked again. *)
Lemma update_leaf_faults root cov ts va st s : utree root s → locked s (Some cov) ts → cov ∈ dom (tables s) →
  faults (update_leaf_walk 0 cov va st) Deadlock s.
Proof.
  intros I Hl Hdom. cbn [update_leaf_walk]. apply faults_bind. eapply wp_descriptor; [done|done|].
  apply faults_here. eapply lock_desc_faults; [done|done|]. unfold lock_word. by rewrite decide_True.
Qed.

(** ** Metadata *)

(** The status recorded for the page of [va]. *)
Definition meta_of (root : Z) s (va : Z) : option (Status AccessPermission) :=
  t ← descend (tables s) root (path3 va); d ← dlook (alloc_state s) t; m ← desc_meta d; m !! Z.to_nat (idx va 3).

(** ** Queries *)

Lemma wp_query_walk root cov ts n pa va e st s (Q : Status AccessPermission → Pt UA → Prop) : (n ≤ 3)%nat → utree root s →
  0 ≤ va < 2 ^ VA_WIDTH → locked s cov ts → descend (tables s) root (upath va n) = Some pa →
  page_of s root va = Some e → (∀ t, descend (tables s) root (path3 va) = Some t → lock_word cov ts t = 0) →
  meta_of root s va = Some st →
  (∀ s', relocked s s' → locked s' cov ts → (∀ q, managed q → dlook (alloc_state s') q = dlook (alloc_state s) q) → Q st s') →
  wp (query_walk n pa va) Q s.
Proof.
  intros Hn I Hva Hl Hpa Hpg Hw Hst HQ. unfold page_of, leaf in Hpg.
  destruct (descend (tables s) root (path3 va)) as [t|] eqn:Ht; [|done]. cbn in Hpg.
  destruct (entry (tables s) t (idx va 3)) as [e'|] eqn:He'; [|done]. cbn in Hpg. destruct (is_valid e') eqn:Hv; [|done]. simplify_eq.
  specialize (Hw t eq_refl). revert pa Hn Hpa. induction n as [|n IH]; intros pa Hn Hpa; cbn [query_walk]; cbn zeta.
  - assert (pa = t) as -> by (change (upath va 0) with (path3 va) in Hpa; congruence).
    destruct (utree_managed lo hi root s _ t I (proj1 (proj2 (path_of_va va ltac:(lia)))) Ht) as [Hm Hdom].
    destruct (Hl t Hdom) as (m & Hd & Hlen). rewrite Hw in Hd. change 0 with (Z.of_nat 0). rewrite ei_idx by (done || lia).
    change (3 - Z.of_nat 0) with 3. wp_step. eapply wp_read_entry; [apply dmap_phys_dmap, Hm|exact He'|]. rewrite Hv. cbn [negb].
    unfold meta_of in Hst. rewrite Ht in Hst. cbn in Hst. rewrite Hd in Hst. cbn in Hst.
    destruct m as [l|]; [|done]. cbn in Hst.
    wp_step. eapply wp_descriptor; [done|done|]. wp_step. apply wp_on_alloc. eapply wp_lock_with; [exact Hd|apply read_alone_0|].
    wp_step. apply wp_on_alloc. cbn [alloc_state tables]. eapply (wp_read_desc lo); [rewrite dlook_upd; rewrite Hd; done|]. cbn [desc_meta set_state].
    wp_step. apply (wp_expect _ st); [done|]. wp_step. apply wp_on_alloc, wp_update_desc. cbn [alloc_state tables]. wp_steps.
    pose proof (ut_owns _ _ _ _ I) as Ho. set (u := alloc_state s) in *.
    pose proof (differ_upd lo hi Hal t (set_state 1) u (uo_descs _ _ _ _ Ho) Hm) as D1.
    pose proof (differ_upd lo hi Hal t (λ d, set_state (read_release (desc_state d)) d) _ (df_in _ _ _ _ _ D1) Hm) as D2.
    pose proof (differ_trans _ _ _ _ _ _ D1 D2) as [E1 E2 E3 E4].
    set (u' := upd_desc lo t (λ d, _) _) in *.
    assert (dlook u' t = dlook u t) as Hd' by (unfold u'; rewrite !dlook_upd, Hd; done).
    assert (∀ q, managed q → dlook u' q = dlook u q) as Hall by (intros q Hq; destruct (decide (q = t)) as [->|]; auto).
    apply HQ; [|intros q Hq; cbn [tables alloc_state] in *; rewrite Hall; [by apply Hl|by apply (uo_managed _ _ _ _ Ho)]|done].
    split; cbn; [done|done|done|done|]. intros; by apply Hall.
  - destruct (descend_next _ _ _ _ _ _ Hn Hpa Ht) as (e0 & He & Hp & Hd).
    destruct (utree_managed lo hi root s _ pa I (upath_ok va (S n) ltac:(lia)) Hpa) as [Hm _].
    rewrite ei_idx by (done || lia). wp_step. eapply wp_read_entry; [apply dmap_phys_dmap, Hm|exact He|].
    unfold points in Hp. apply andb_true_iff in Hp as [-> _]. cbn [negb]. apply IH; [lia|done].
Qed.

(** ** Mapping *)

Lemma cursor_unlocked root ts c s va t : cursor_inv root ts c s → (0 < covering_level c)%nat → c_start c ≤ va < c_end c →
  descend (tables s) root (path3 va) = Some t → lock_word (Some (covering_pa c)) ts t = 0.
Proof.
  intros I Hlv Hva Ht. destruct (ci_range _ _ _ _ _ _ I) as (H1 & H2 & H3). pose proof (ci_level _ _ _ _ _ _ I) as Hl3.
  pose proof (ut_tree _ _ _ _ (ci_tree _ _ _ _ _ _ I)) as Tr. pose proof (proj1 (proj2 (path_of_va va ltac:(lia)))) as Hp3.
  unfold lock_word. rewrite decide_False, decide_False; [done|..].
  - intros Hts. destruct (ci_above _ _ _ _ _ _ I) as [_ Ha]. destruct (Ha t Hts) as (j & Hj & Hd).
    pose proof (tr_inj _ _ Tr _ _ t Hp3 (upath_ok _ j H1) Ht Hd) as E. apply (f_equal length) in E.
    rewrite upath_length in E by lia. cbn in E. lia.
  - intros [= E]. pose proof (ci_cover _ _ _ _ _ _ I va Hva) as Hd. rewrite E in Hd.
    pose proof (tr_inj _ _ Tr _ _ t Hp3 (upath_ok va (covering_level c) ltac:(lia)) Ht Hd) as E'. apply (f_equal length) in E'.
    rewrite upath_length in E' by lia. cbn in E'. lia.
Qed.

(** A cursor survives changes that keep the tables and their locks. *)
Lemma cursor_relocked root ts c s s' : cursor_inv root ts c s → relocked s s' → locked s' (Some (covering_pa c)) ts →
  cursor_inv root ts c s'.
Proof.
  intros I R L. pose proof (rl_tables _ _ _ _ R) as Et. split; rewrite ?Et; try apply I; [|done].
  eapply relocked_utree; [apply I|done].
Qed.

Lemma cursor_extends root ts c s s' : cursor_inv root ts c s → pt_inv root s' → extends root s s' →
  descs_kept lo hi (dom (tables s)) (alloc_state s) (dom (tables s')) (alloc_state s') → cursor_inv root ts c s'.
Proof.
  intros I I' X K. destruct (ci_range _ _ _ _ _ _ I) as (H1 & H2 & H3). destruct (cursor_covering _ _ _ _ _ _ I) as (Hm & Hdom & Hnin).
  assert (∀ t, t ∈ ts → t ∈ dom (tables s)) as Hts.
  { intros t Ht. destruct (ci_above _ _ _ _ _ _ I) as [_ Ha]. destruct (Ha t Ht) as (j & Hj & Hd).
    by eapply (utree_managed lo hi root s); [apply I|apply upath_ok|]. }
  split; try apply I; [by apply utree_pt| | |].
  - intros va Hva. apply (ext_keep _ _ _ X); [apply upath_ok; lia|by apply (ci_cover _ _ _ _ _ _ I)].
  - destruct (ci_above _ _ _ _ _ _ I) as [Hnd Ha]. split; [done|]. intros t Ht. destruct (Ha t Ht) as (j & Hj & Hd).
    exists j. split; [done|]. by apply (ext_keep _ _ _ X); [apply upath_ok|].
  - intros p Hp. destruct (decide (p ∈ dom (tables s))) as [Hold|Hnew].
    + rewrite (dk_old _ _ _ _ _ _ K) by done. by apply (ci_locked _ _ _ _ _ _ I).
    + rewrite (dk_new _ _ _ _ _ _ K) by done. unfold lock_word. rewrite decide_False, decide_False by naive_solver. eexists. done.
Qed.

Lemma meta_extends root ts c s s' va st : cursor_inv root ts c s → extends root s s' → 0 ≤ va →
  descs_kept lo hi (dom (tables s)) (alloc_state s) (dom (tables s')) (alloc_state s') →
  meta_of root s va = Some st → meta_of root s' va = Some st.
Proof.
  intros I X Hva K. unfold meta_of. destruct (descend (tables s) root (path3 va)) as [t|] eqn:Ht; [|done]. cbn [mbind option_bind].
  pose proof (proj1 (proj2 (path_of_va va Hva))) as Hp3. rewrite (ext_keep _ _ _ X _ t Hp3 Ht). cbn [mbind option_bind].
  rewrite (dk_old _ _ _ _ _ _ K); [done|]. by eapply (utree_managed lo hi root s); [apply I|exact Hp3|].
Qed.

Lemma put_meta_same i (st : Status AccessPermission) d : index_ok i →
  (∀ l0, desc_meta d = Some l0 → length l0 = Z.to_nat TABLE_ENTRIES) →
  (m ← desc_meta (put_meta i st d); m !! Z.to_nat i) = Some st.
Proof.
  intros Hi Hl. unfold put_meta, set_meta. cbn [desc_meta mbind option_bind]. apply list_lookup_insert_eq.
  destruct (desc_meta d) as [l0|]; cbn [default]; [rewrite Hl by done|rewrite length_new_meta]; unfold index_ok in Hi; lia.
Qed.

Lemma put_meta_other i j (st st' : Status AccessPermission) d : 0 ≤ i → 0 ≤ j → i ≠ j →
  (m ← desc_meta d; m !! Z.to_nat j) = Some st' → (m ← desc_meta (put_meta i st d); m !! Z.to_nat j) = Some st'.
Proof.
  intros Hi Hj Hne. unfold put_meta, set_meta. cbn [desc_meta mbind option_bind]. destruct (desc_meta d) as [l0|]; [|done].
  cbn [default mbind option_bind]. by rewrite list_lookup_insert_ne by lia.
Qed.

(** Recording the status of a page whose leaf table exists. *)
Lemma wp_update_leaf_meta root ts c va st t s : cursor_inv root ts c s → (0 < covering_level c)%nat → c_start c ≤ va < c_end c →
  descend (tables s) root (path3 va) = Some t →
  wp (update_leaf_meta c va st) (λ _ s', cursor_inv root ts c s' ∧ tables s' = tables s ∧
    ua_tables (alloc_state s') = ua_tables (alloc_state s) ∧
    meta_of root s' va = Some st ∧ (∀ va' st', 0 ≤ va' → vpn va' ≠ vpn va → meta_of root s va' = Some st' → meta_of root s' va' = Some st')) s.
Proof.
  intros I Hlv Hva Ht. destruct (ci_range _ _ _ _ _ _ I) as (H1 & H2 & H3). unfold update_leaf_meta.
  eapply (wp_update_leaf_walk root (Some (covering_pa c)) ts _ _ va st t); [apply I|apply I|lia|apply I|by apply I|done|by eapply cursor_unlocked|].
  intros s' d R L Hd Hd' Hoth. pose proof (rl_tables _ _ _ _ R) as Et. split; [by eapply cursor_relocked|]. split; [done|]. split; [apply R|].
  pose proof (proj1 (proj2 (path_of_va va ltac:(lia)))) as Hp3.
  destruct (utree_managed lo hi root s _ t (ci_tree _ _ _ _ _ _ I) Hp3 Ht) as [Hm Hdom].
  destruct (ci_locked _ _ _ _ _ _ I t Hdom) as (m & Hdm & Hlen). assert (d = {| desc_state := lock_word (Some (covering_pa c)) ts t; desc_meta := m |}) as Ed by congruence.
  unfold meta_of. rewrite Et. split.
  - rewrite Ht. cbn [mbind option_bind]. rewrite Hd'. cbn [mbind option_bind].
    apply put_meta_same; [apply idx_ok; lia|]. rewrite Ed. exact Hlen.
  - intros va' st' Hva' Hne. destruct (descend (tables s) root (path3 va')) as [t'|] eqn:Ht'; [|done]. cbn [mbind option_bind].
    pose proof (proj1 (proj2 (path_of_va va' Hva'))) as Hp3'.
    destruct (utree_managed lo hi root s _ t' (ci_tree _ _ _ _ _ _ I) Hp3' Ht') as [Hm' _].
    destruct (decide (t' = t)) as [->|Htne]; [|by rewrite Hoth].
    pose proof (tr_inj _ _ (ut_tree _ _ _ _ (ci_tree _ _ _ _ _ _ I)) _ _ t Hp3' Hp3 Ht' Ht) as Ep.
    rewrite Hd, Hd'. cbn [mbind option_bind]. apply put_meta_other; [apply idx_ok; lia|apply idx_ok; lia|].
    intros Ei. by apply (vpn_path va va' ltac:(lia) Hva' (not_eq_sym Hne)); rewrite Ep, Ei.
Qed.

Lemma wp_root_mut root ts c s s0 (Q : Z → Pt UA → Prop) : cursor_inv root ts c s0 →
  (∀ rptr, dmap_to_phys rptr = root → Q rptr s) → wp (root_mut (c_space c)) Q s.
Proof. intros I HQ. destruct (ci_root _ _ _ _ _ _ I) as (rptr & E & Er). unfold root_mut. rewrite E. by apply HQ. Qed.

Lemma canon_low va : 0 ≤ va < 2 ^ VA_WIDTH → canon va = va.
Proof. apply Z.mod_small. Qed.

Lemma low_page va : 0 ≤ va < 2 ^ VA_WIDTH → (PAGE_SIZE | va) → page_addr va.
Proof. change (2 ^ VA_WIDTH) with (2 ^ 48). intros H Hd. split; [lia|done]. Qed.

Lemma vpn_low va : 0 ≤ va < 2 ^ VA_WIDTH → vpn va = va / PAGE_SIZE.
Proof. intros H. by rewrite vpn_canon, canon_low. Qed.

(** A page with a leaf has its leaf table. *)
Lemma page_of_table s root va e : page_of s root va = Some e → ∃ t, descend (tables s) root (path3 va) = Some t.
Proof. unfold page_of, leaf. destruct (descend (tables s) root (path3 va)) as [t|]; [eauto|done]. Qed.

(** One page of a mapping. *)
Lemma wp_map_step {X} root ts c rptr va pa at_ (k : M (Pt UA) X) s (Q : X → Pt UA → Prop) : cursor_inv root ts c s → (0 < covering_level c)%nat →
  c_start c ≤ va < c_end c → (PAGE_SIZE | va) → table_addr pa → dmap_to_phys rptr = root → block_of s root va = None →
  (3 ≤ room (alloc_state s))%nat →
  (∀ s', cursor_inv root ts c s' → remapped root va (va + PAGE_SIZE) (λ x, Some (pa + (x - va))) s s' →
     (room (alloc_state s) ≤ 3 + room (alloc_state s'))%nat → meta_of root s' va = Some (Mapped pa (access at_)) →
     (∀ va' st, 0 ≤ va' → vpn va' ≠ vpn va → meta_of root s va' = Some st → meta_of root s' va' = Some st) → wp k Q s') →
  wp (map_page rptr pa va at_ ;; update_leaf_meta c va (Mapped pa (access at_)) ;; k) Q s.
Proof.
  intros I Hlv Hva Hpa Hta Er Hb Hr HQ. destruct (ci_range _ _ _ _ _ _ I) as (H1 & H2 & H3).
  pose proof (proj1 (utree_pt root s) (ci_tree _ _ _ _ _ _ I)) as Ip. wp_step.
  eapply wp_keep; [apply (wp_map_page_va root); [done|done|apply low_page; [lia|done]|done|done|done]|].
  intros [] s1 E1 (Hm & [e He] & Hr1 & Hx). rewrite canon_low in Hm by lia.
  pose proof (map_page_descs lo hi Hlo Hal Hin _ _ _ _ _ _ (ut_owns _ _ _ _ (ci_tree _ _ _ _ _ _ I)) E1) as K.
  pose proof (cursor_extends _ _ _ _ _ I (rm_inv _ _ _ _ _ _ Hm) Hx K) as I1.
  destruct (page_of_table _ _ _ _ He) as [t Ht].
  wp_step. eapply wp_mono; [by apply (wp_update_leaf_meta root ts c va _ t)|]. intros [] s2 (I2 & Et & Ea & Hst & Hoth). apply HQ; try done.
  - destruct Hm as [M1 M2 M3]. split; [by apply utree_pt, I2|..]; intros va' Hva'; [rewrite <- M2 by done|rewrite <- M3 by done].
    + unfold block_of. by rewrite Et.
    + unfold translate, block_of, page_of. by rewrite Et.
  - by change (room (alloc_state s2)) with (room (ua_tables (alloc_state s2))); rewrite Ea.
  - intros va' st Hva' Hne Hs. apply Hoth; [done..|]. by eapply (meta_extends root ts c s s1).
Qed.

(** [n] pages of a cursor's range have been mapped from [pa] up, starting in
    the state [s0]. *)
Record mapped_upto (root : Z) (ts : list Z) (c : Cursor) (pa : Z) (perm : AccessPermission) (n : Z) (s0 s : Pt UA) : Prop := {
  mu_cursor : cursor_inv root ts c s;
  mu_remapped : remapped root (c_start c) (c_start c + n * PAGE_SIZE) (λ x, Some (pa + (x - c_start c))) s0 s;
  mu_meta j : 0 ≤ j < n → meta_of root s (c_start c + j * PAGE_SIZE) = Some (Mapped (pa + j * PAGE_SIZE) perm)
}.

(** The pages of the range of a cursor. *)
Definition page_range (c : Cursor) (n : Z) : Prop := (PAGE_SIZE | c_start c) ∧ c_end c = c_start c + n * PAGE_SIZE ∧ 0 < n.

Lemma page_range_steps c n : page_range c n → page_steps c = Z.to_nat n.
Proof.
  intros (_ & He & Hn). unfold page_steps. rewrite He. f_equal. change PAGE_SIZE with 16384. Z.div_mod_to_equations. lia.
Qed.

Lemma page_range_vpn c n i j : page_range c n → 0 ≤ c_start c → c_end c ≤ 2 ^ VA_WIDTH → 0 ≤ i < n → 0 ≤ j < n → i ≠ j →
  vpn (c_start c + i * PAGE_SIZE) ≠ vpn (c_start c + j * PAGE_SIZE).
Proof.
  intros (_ & He & Hn) H1 H2 Hi Hj Hne. change PAGE_SIZE with 16384 in *. rewrite !vpn_low by lia. change PAGE_SIZE with 16384.
  rewrite !Z.div_add by lia. lia.
Qed.

Lemma page_range_at c n i : page_range c n → 0 ≤ i < n → c_start c ≤ c_start c + i * PAGE_SIZE < c_end c ∧ (PAGE_SIZE | c_start c + i * PAGE_SIZE).
Proof.
  intros (Hd & He & Hn) Hi. split; [change PAGE_SIZE with 16384 in *; lia|].
  apply Z.divide_add_r; [done|apply Z.divide_factor_r].
Qed.

Lemma mapped_next root ts c pa perm n N s0 s s' : page_range c N → 0 ≤ n < N → mapped_upto root ts c pa perm n s0 s → cursor_inv root ts c s' →
  remapped root (c_start c + n * PAGE_SIZE) (c_start c + n * PAGE_SIZE + PAGE_SIZE)
    (λ x, Some (pa + n * PAGE_SIZE + (x - (c_start c + n * PAGE_SIZE)))) s s' →
  meta_of root s' (c_start c + n * PAGE_SIZE) = Some (Mapped (pa + n * PAGE_SIZE) perm) →
  (∀ va' st, 0 ≤ va' → vpn va' ≠ vpn (c_start c + n * PAGE_SIZE) → meta_of root s va' = Some st → meta_of root s' va' = Some st) →
  mapped_upto root ts c pa perm (n + 1) s0 s'.
Proof.
  intros R Hn [I Hm Hme] I' Hm' Hst Hoth. destruct (ci_range _ _ _ _ _ _ I) as (H1 & H2 & H3). split; [done| |].
  - replace (c_start c + (n + 1) * PAGE_SIZE) with (c_start c + n * PAGE_SIZE + PAGE_SIZE) by lia.
    eapply (remapped_app root _ (c_start c + n * PAGE_SIZE)); [change PAGE_SIZE with 16384; lia|exact Hm|].
    eapply remapped_ext; [|exact Hm']. intros x _. cbn beta. f_equal. lia.
  - intros j Hj. destruct (decide (j = n)) as [->|Hne]; [done|]. apply Hoth; [|by eapply page_range_vpn; try done; lia|apply Hme; lia].
    change PAGE_SIZE with 16384. lia.
Qed.

Lemma wp_map_loop n i root ts c pa at_ N s0 s : page_range c N → (0 < covering_level c)%nat → 0 ≤ i → i + Z.of_nat n = N →
  table_addr pa → pa + N * PAGE_SIZE ≤ 2 ^ VA_WIDTH → (∀ va, c_start c ≤ va < c_end c → block_of s0 root va = None) →
  mapped_upto root ts c pa (access at_) i s0 s → (3 * n ≤ room (alloc_state s))%nat →
  wp (map_loop n c (c_start c + i * PAGE_SIZE) (pa + i * PAGE_SIZE) at_) (λ _ s', mapped_upto root ts c pa (access at_) N s0 s' ∧
    (room (alloc_state s) ≤ 3 * n + room (alloc_state s'))%nat) s.
Proof.
  intros R Hlv Hi HN Hta Hmax Hb Hm Hr. revert i s Hi HN Hm Hr. induction n as [|n IH]; intros i s Hi HN Hm Hr; cbn [map_loop].
  { wp_step. replace N with i by lia. split; [done|lia]. }
  destruct (page_range_at c N i R ltac:(lia)) as [Hat Had]. destruct (phys_page pa N i Hta Hmax ltac:(lia)) as [Hpi _].
  pose proof (mu_cursor _ _ _ _ _ _ _ _ Hm) as I. destruct (ci_range _ _ _ _ _ _ I) as (H1 & H2 & H3).
  wp_step. eapply wp_root_mut; [done|]. intros rptr Er. eapply (wp_map_step root ts c rptr); try done; [|lia|].
  { rewrite (rm_block _ _ _ _ _ _ (mu_remapped _ _ _ _ _ _ _ _ Hm)) by lia. by apply Hb. }
  intros s' I' Hm' Hr' Hst Hoth. wp_step. apply (wp_expect _ (pa + (i + 1) * PAGE_SIZE)).
  { unfold checked_add. rewrite (proj2 (Z.ltb_lt _ _)) by (destruct Hta as [Hp _]; unfold phys_addr in Hp; change (2 ^ VA_WIDTH) with 281474976710656 in *; change PAGE_SIZE with 16384 in *; lia).
    f_equal. lia. }
  replace (c_start c + i * PAGE_SIZE + PAGE_SIZE) with (c_start c + (i + 1) * PAGE_SIZE) by lia.
  eapply wp_mono; [apply IH; [lia|lia| |lia]; eapply mapped_next; try done; lia|]. intros [] s'' [Hm'' Hr'']. split; [done|lia].
Qed.

Lemma wp_cursor_map root ts c pa at_ N s : cursor_inv root ts c s → page_range c N → (0 < covering_level c)%nat →
  table_addr pa → pa + N * PAGE_SIZE ≤ 2 ^ VA_WIDTH → (∀ va, c_start c ≤ va < c_end c → block_of s root va = None) →
  (3 * Z.to_nat N ≤ room (alloc_state s))%nat →
  wp (cursor_map c pa at_) (λ _ s', mapped_upto root ts c pa (access at_) N s s' ∧
    (room (alloc_state s) ≤ 3 * Z.to_nat N + room (alloc_state s'))%nat) s.
Proof.
  intros I R Hlv Hta Hmax Hb Hr. unfold cursor_map. rewrite (page_range_steps c N R). pose proof R as (_ & _ & Hn).
  pose proof (wp_map_loop (Z.to_nat N) 0 root ts c pa at_ N s s R Hlv ltac:(lia) ltac:(lia) Hta Hmax Hb) as W.
  rewrite !Z.add_0_r in W. apply W; [|done]. split; [done|apply remapped_empty; [lia|by apply utree_pt, I]|lia].
Qed.

(** ** Marking *)

(** The entry above the leaf table on the way to a page that no block maps:
    when it is valid it leads to the next table. *)
Lemma walk_entry root s va n pa : pt_inv root s → 0 ≤ va → (n < 3)%nat → block_of s root va = None →
  descend (tables s) root (upath va (S n)) = Some pa →
  ∃ e, entry (tables s) pa (idx va (3 - Z.of_nat (S n))) = Some e ∧
    (is_valid e = true → descend (tables s) root (upath va n) = Some (address e)).
Proof.
  intros I Hva Hn Hb Hpa. pose proof (pi_tree _ _ I) as Tr. assert (0 ≤ 3 - Z.of_nat (S n) ≤ 3) as Hl by lia.
  destruct (tree_entry _ _ _ _ _ Tr (upath_ok va (S n) Hva) Hpa (idx_ok va _ Hva Hl)) as [e He].
  exists e. split; [done|]. intros Hv. rewrite upath_step, descend_snoc, Hpa by done. cbn [mbind option_bind]. rewrite He. cbn [mbind option_bind].
  enough (points e = true) as -> by done. unfold points. rewrite Hv. destruct n as [|n].
  - change (upath va 1) with (path2 va) in Hpa. change (3 - Z.of_nat 1) with 2 in He. unfold block_of, leaf in Hb. rewrite Hpa in Hb.
    cbn [mbind option_bind length path2] in Hb. rewrite He in Hb. cbn [mbind option_bind] in Hb. rewrite Hv in Hb. by destruct (is_table e).
  - assert (upper_ok e) as Hu.
    { eapply (tr_upper _ _ Tr (upath va (S (S n)))); [by apply upath_ok|rewrite upath_length; lia|by apply idx_ok|done|done]. }
    unfold upper_ok in Hu. rewrite Hv in Hu. by destruct Hu as [-> _].
Qed.

(** What making sure of a leaf table leaves. *)
Record ensured (root : Z) (n : nat) s s' : Prop := {
  en_inv : pt_inv root s';
  en_leaves : same_leaves root s s';
  en_room : (room (alloc_state s) ≤ n + room (alloc_state s'))%nat;
  en_ext : extends root s s'
}.

Lemma ensured_trans root n m s1 s2 s3 : ensured root n s1 s2 → ensured root m s2 s3 → ensured root (n + m) s1 s3.
Proof.
  intros [I1 L1 R1 X1] [I2 L2 R2 X2]. split; [done|by eapply same_leaves_trans|lia|by eapply extends_trans].
Qed.

Lemma ensured_block root n s s' va : 0 ≤ va → ensured root n s s' → block_of s' root va = block_of s root va.
Proof. intros Hva E. destruct (path_of_va va Hva) as (H2 & _ & _ & _ & Hi & _). by apply (en_leaves _ _ _ _ E). Qed.

Lemma ensured_page root n s s' va : 0 ≤ va → ensured root n s s' → page_of s' root va = page_of s root va.
Proof. intros Hva E. destruct (path_of_va va Hva) as (_ & H3 & _ & _ & _ & Hi). by apply (en_leaves _ _ _ _ E). Qed.

Lemma wp_ensure_link root va n pa e s (Q : unit → Pt UA → Prop) : pt_inv root s → 0 ≤ va → (n < 3)%nat →
  descend (tables s) root (upath va (S n)) = Some pa → entry (tables s) pa (idx va (3 - Z.of_nat (S n))) = Some e → is_valid e = false →
  (0 < room (alloc_state s))%nat →
  (∀ s' t, ensured root 1 s s' → descend (tables s') root (upath va n) = Some t → Q tt s') →
  wp (let* new_table := new_table in
      update_entry (phys_to_dmap pa) (idx va (3 - Z.of_nat (S n))) (λ _, tte_new_table (dmap_to_phys new_table))) Q s.
Proof.
  intros I Hva Hn Hpa He Hv Hr HQ. destruct (alloc_table_ok _ _ (pi_owns _ _ I) Hr) as (q & a' & Ea & Hqa & Hq0 & Hqu & Ow' & Hr').
  assert (tables s !! q = None) as Hq by by apply not_elem_of_dom.
  assert (dmap_to_phys (phys_to_dmap q) = q) as Eq by (apply dmap_phys_dmap; apply Hqa).
  assert (pa ≠ q) as Hne by (intros ->; unfold entry in He; by rewrite Hq in He).
  wp_step. unfold wp at 1, new_table. rewrite Ea, Eq. set (m1 := <[q := zero_table]> (tables s)).
  assert (entry m1 pa (idx va (3 - Z.of_nat (S n))) = Some e) as He1 by (unfold entry, m1; by rewrite lookup_insert_ne).
  assert (dmap_to_phys (phys_to_dmap pa) = pa) as Ep.
  { apply dmap_phys_dmap. by eapply (tr_table _ _ (pi_tree _ _ I)); [apply upath_ok|]. }
  eapply (wp_update_entry _ pa _ e); [done|exact He1|]. cbn [tables alloc_state].
  assert (path_ok (upath va (S n) ++ [idx va (3 - Z.of_nat (S n))])) as Hok by (rewrite <- upath_step by done; by apply upath_ok).
  destruct (linked_grown root (upath va (S n)) pa (idx va (3 - Z.of_nat (S n))) q e (tte_new_table q) a' s) as (G1 & G2 & G3 & G4);
    try done; [by apply new_table_valid|by apply new_table_table|by apply new_table_address|].
  apply (HQ _ q); [|by rewrite upath_step by done]. split; [done|done|done|apply G4].
Qed.

Lemma wp_ensure_walk root n pa va s : (n ≤ 3)%nat → pt_inv root s → 0 ≤ va < 2 ^ VA_WIDTH → block_of s root va = None →
  descend (tables s) root (upath va n) = Some pa → (n ≤ room (alloc_state s))%nat →
  wp (ensure_leaf_walk n pa va) (λ _ s', ensured root n s s' ∧ ∃ t, descend (tables s') root (path3 va) = Some t) s.
Proof.
  revert pa s. induction n as [|n IH]; intros pa s Hn I Hva Hb Hpa Hr; cbn [ensure_leaf_walk].
  { wp_step. split; [split; [done|by intros ?|lia|apply extends_refl]|]. by exists pa. }
  destruct (walk_entry root s va n pa I ltac:(lia) ltac:(lia) Hb Hpa) as (e & He & Hnext).
  assert (path_ok (upath va (S n))) as Hok by (apply upath_ok; lia).
  assert (dmap_to_phys (phys_to_dmap pa) = pa) as Ep.
  { apply dmap_phys_dmap. by eapply (tr_table _ _ (pi_tree _ _ I)). }
  rewrite ei_idx by (done || lia). cbn zeta. wp_step. eapply wp_read_entry; [exact Ep|exact He|]. wp_step.
  assert (∀ s1 t, ensured root 1 s s1 → descend (tables s1) root (upath va n) = Some t →
    wp (let* pte := read_entry (phys_to_dmap pa) (idx va (3 - Z.of_nat (S n))) in ensure_leaf_walk n (address pte) va)
      (λ _ s', ensured root (S n) s s' ∧ ∃ t, descend (tables s') root (path3 va) = Some t) s1) as Hrest.
  { intros s1 t E1 Hd1. pose proof (ext_keep _ _ _ (en_ext _ _ _ _ E1) _ pa Hok Hpa) as Hpa1.
    destruct (descend_step _ _ _ _ _ _ Hn Hpa1 Hd1) as (e1 & He1 & _ & ->). wp_step. eapply wp_read_entry; [exact Ep|exact He1|].
    eapply wp_mono; [apply IH; [lia|apply E1|done|by rewrite (ensured_block root 1 s) by (done || lia)|done|]|].
    - destruct E1 as [_ _ R1 _]. lia.
    - intros _ s2 [E2 Ht]. split; [|done]. by apply (ensured_trans root 1 n s s1). }
  destruct (is_valid e) eqn:Hv.
  - wp_step. eapply Hrest; [split; [done|by intros ?|lia|apply extends_refl]|by apply Hnext].
  - by eapply wp_ensure_link; [done|lia|lia|done|done|done|lia|].
Qed.

(** One page of a marking. *)
Lemma wp_mark_step {X} root ts c va st (k : M (Pt UA) X) s (Q : X → Pt UA → Prop) : cursor_inv root ts c s → (0 < covering_level c)%nat →
  c_start c ≤ va < c_end c → block_of s root va = None → (3 ≤ room (alloc_state s))%nat →
  (∀ s', cursor_inv root ts c s' → ensured root 3 s s' → meta_of root s' va = Some st →
     (∀ va' st', 0 ≤ va' → vpn va' ≠ vpn va → meta_of root s va' = Some st' → meta_of root s' va' = Some st') → wp k Q s') →
  wp (ensure_leaf_table c va ;; update_leaf_meta c va st ;; k) Q s.
Proof.
  intros I Hlv Hva Hb Hr HQ. destruct (ci_range _ _ _ _ _ _ I) as (H1 & H2 & H3).
  pose proof (proj1 (utree_pt root s) (ci_tree _ _ _ _ _ _ I)) as Ip. pose proof (ci_level _ _ _ _ _ _ I) as Hl3. wp_step.
  eapply wp_keep; [apply (wp_ensure_walk root); [done|done|lia|done|by apply I|lia]|].
  intros [] s1 E1 ([J1 J2 J3 J4] & [t Ht]).
  pose proof (ensure_descs lo hi Hlo Hal Hin _ _ _ _ _ (ut_owns _ _ _ _ (ci_tree _ _ _ _ _ _ I)) E1) as K.
  pose proof (cursor_extends _ _ _ _ _ I J1 J4 K) as I1.
  wp_step. eapply wp_mono; [by apply (wp_update_leaf_meta root ts c va _ t)|]. intros [] s2 (I2 & Et & Ea & Hst & Hoth). apply HQ; try done.
  - split; [by apply utree_pt, I2|intros p j Hp Hj; rewrite Et; by apply J2| |destruct J4; split; by rewrite Et].
    change (room (alloc_state s2)) with (room (ua_tables (alloc_state s2))). rewrite Ea. change (room (ua_tables (alloc_state s1))) with (room (alloc_state s1)). lia.
  - intros va' st' Hva' Hne Hs. apply Hoth; [done..|]. by eapply (meta_extends root ts c s s1).
Qed.

(** [n] pages of a cursor's range have been marked, starting in [s0]. *)
Record marked_upto (root : Z) (ts : list Z) (c : Cursor) (st : Status AccessPermission) (n : Z) (s0 s : Pt UA) : Prop := {
  mk_cursor : cursor_inv root ts c s;
  mk_block va : 0 ≤ va → block_of s root va = block_of s0 root va;
  mk_page va : 0 ≤ va → page_of s root va = page_of s0 root va;
  mk_meta j : 0 ≤ j < n → meta_of root s (c_start c + j * PAGE_SIZE) = Some st
}.

Lemma wp_mark_loop n i root ts c st N s0 s : page_range c N → (0 < covering_level c)%nat → 0 ≤ i → i + Z.of_nat n = N →
  (∀ va, c_start c ≤ va < c_end c → block_of s0 root va = None) →
  marked_upto root ts c st i s0 s → (3 * n ≤ room (alloc_state s))%nat →
  wp (mark_loop n c (c_start c + i * PAGE_SIZE) st) (λ _ s', marked_upto root ts c st N s0 s') s.
Proof.
  intros R Hlv Hi HN Hb Hm Hr. revert i s Hi HN Hm Hr. induction n as [|n IH]; intros i s Hi HN Hm Hr; cbn [mark_loop].
  { wp_step. replace N with i by lia. done. }
  destruct (page_range_at c N i R ltac:(lia)) as [Hat _]. destruct Hm as [I B1 P1 M1]. destruct (ci_range _ _ _ _ _ _ I) as (H1 & H2 & H3).
  eapply (wp_mark_step root ts c); [done|done|done|by rewrite B1 by lia; apply Hb|lia|]. intros s' I' En Hst Hoth.
  replace (c_start c + i * PAGE_SIZE + PAGE_SIZE) with (c_start c + (i + 1) * PAGE_SIZE) by lia.
  apply IH; [lia|lia| |destruct En; lia]. split; [done|..].
  - intros va Hva. rewrite (ensured_block root 3 s) by done. by apply B1.
  - intros va Hva. rewrite (ensured_page root 3 s) by done. by apply P1.
  - intros j Hj. destruct (decide (j = i)) as [->|Hne]; [done|].
    apply Hoth; [|by eapply page_range_vpn; try done; lia|apply M1; lia]. change PAGE_SIZE with 16384. lia.
Qed.

Lemma wp_cursor_mark root ts c st N s : cursor_inv root ts c s → page_range c N → (0 < covering_level c)%nat →
  (∀ va, c_start c ≤ va < c_end c → block_of s root va = None) → (3 * Z.to_nat N ≤ room (alloc_state s))%nat →
  wp (cursor_mark c st) (λ _ s', marked_upto root ts c st N s s') s.
Proof.
  intros I R Hlv Hb Hr. unfold cursor_mark. rewrite (page_range_steps c N R). pose proof R as (_ & _ & Hn).
  pose proof (wp_mark_loop (Z.to_nat N) 0 root ts c st N s s R Hlv ltac:(lia) ltac:(lia) Hb) as W.
  rewrite !Z.add_0_r in W. apply W; [|done]. split; [done..|lia].
Qed.

(** ** Queries *)

Lemma meta_same_page root s va va' : 0 ≤ va → 0 ≤ va' → vpn va = vpn va' → meta_of root s va = meta_of root s va'.
Proof. intros H H' E. unfold meta_of. by destruct (vpn_idx va va' H H' E) as [-> ->]. Qed.

(** The page of an address in the range of a cursor. *)
Lemma range_page c n va : page_range c n → 0 ≤ c_start c → c_end c ≤ 2 ^ VA_WIDTH → c_start c ≤ va < c_end c →
  ∃ j, 0 ≤ j < n ∧ va = c_start c + j * PAGE_SIZE + va mod PAGE_SIZE ∧ vpn va = vpn (c_start c + j * PAGE_SIZE).
Proof.
  intros ([k Hk] & He & Hn) H1 H2 Hva. exists ((va - c_start c) / PAGE_SIZE). change PAGE_SIZE with 16384 in *.
  rewrite !vpn_low by (Z.div_mod_to_equations; lia). change PAGE_SIZE with 16384. rewrite Hk in *. split_and!; Z.div_mod_to_equations; lia.
Qed.

(** A page without a leaf is reported as not there, whatever its metadata. *)
Lemma wp_query_unmapped root n pa va s (Q : Status AccessPermission → Pt UA → Prop) : (n ≤ 3)%nat → pt_inv root s →
  0 ≤ va < 2 ^ VA_WIDTH → descend (tables s) root (upath va n) = Some pa →
  block_of s root va = None → page_of s root va = None → Q Invalid s → wp (query_walk n pa va) Q s.
Proof.
  intros Hn I Hva Hpa Hb Hp HQ. revert pa Hn Hpa. induction n as [|n IH]; intros pa Hn Hpa; cbn [query_walk]; cbn zeta;
    rewrite ei_idx by (done || lia);
    (assert (dmap_to_phys (phys_to_dmap pa) = pa) as Ep
      by (apply dmap_phys_dmap; eapply (tr_table _ _ (pi_tree _ _ I)); [|exact Hpa]; apply upath_ok; lia)).
  - destruct (tree_entry _ _ _ _ _ (pi_tree _ _ I) (upath_ok va 0 ltac:(lia)) Hpa (idx_ok va 3 ltac:(lia) ltac:(lia))) as [e He].
    change (3 - Z.of_nat 0) with 3. wp_step. eapply wp_read_entry; [exact Ep|exact He|].
    change (upath va 0) with (path3 va) in Hpa. unfold page_of, leaf in Hp. rewrite Hpa in Hp. cbn [mbind option_bind] in Hp.
    rewrite He in Hp. cbn [mbind option_bind length path3] in Hp. destruct (is_valid e); [done|]. cbn [negb]. by wp_steps.
  - destruct (walk_entry root s va n pa I ltac:(lia) ltac:(lia) Hb Hpa) as (e & He & Hnext).
    wp_step. eapply wp_read_entry; [exact Ep|exact He|]. destruct (is_valid e); cbn [negb]; [|by wp_steps].
    apply IH; [lia|by apply Hnext].
Qed.

Lemma wp_query root ts c va s (Q : Status AccessPermission → Pt UA → Prop) : cursor_inv root ts c s → (0 < covering_level c)%nat →
  c_start c ≤ va < c_end c → block_of s root va = None →
  (∀ st e, page_of s root va = Some e → meta_of root s va = Some st → ∀ s', cursor_inv root ts c s' → tables s' = tables s →
     ua_tables (alloc_state s') = ua_tables (alloc_state s) → Q st s') →
  (page_of s root va = None → Q Invalid s) → is_Some (meta_of root s va) →
  wp (query c va) Q s.
Proof.
  intros I Hlv Hva Hb Hq Hn [st Hst]. destruct (ci_range _ _ _ _ _ _ I) as (H1 & H2 & H3). unfold query.
  rewrite (proj2 (Z.leb_le _ _)), (proj2 (Z.ltb_lt _ _)) by lia. cbn [andb negb].
  pose proof (proj1 (utree_pt root s) (ci_tree _ _ _ _ _ _ I)) as Ip.
  destruct (page_of s root va) as [e|] eqn:Hp.
  - eapply (wp_query_walk root (Some (covering_pa c)) ts _ _ va e st); [apply I|apply I|lia|apply I|by apply I|done| |done|].
    + intros t. by eapply cursor_unlocked.
    + intros s' R L Hall. eapply Hq; [done|done|by eapply cursor_relocked|apply R|apply R].
  - apply (wp_query_unmapped root); [apply I|done|lia|by apply I|done|done|by apply Hn].
Qed.
End cursor.
