(* ===== verification/UserTheorems.v ===== *)
(** * What address spaces promise

    New address spaces map nothing; locking a range and dropping the cursor
    leaves every lock free; what a cursor maps is what it reports and what
    the MMU sees.  The theorems also pin down where the cursor of the source
    waits for itself, and that marked pages cannot be queried. *)

From S2P Require Import Prelude Vm Sync PageAlloc Slab Mapper MapperSpec MapperProofs MapperTheorems.
From S2P Require Import UserVm UserProofs UserLock UserCursor.

Section theorems.
Context {T : AddressTranslator} {TL : AddressTranslatorLaws T} {D : TTE} {DL : TTELaws D}.
Context {A B : Type} {TA : TableAllocator A} {TAL : TableAllocatorLaws A} {PB : PageSource B}.
#[local] Abbreviation UA := (UserAllocator A B).
Implicit Types (u : UA) (s : Pt UA).
Context (lo hi : Z) (Hlo : 0 ≤ lo) (Hal : (PAGE_SIZE | lo)).
Context (Hin : ∀ a w p a', owns a w → alloc_table a = Done (phys_to_dmap p, a') → table_addr p → lo ≤ p < hi).
#[local] Instance claws : TableAllocatorLaws UA := user_laws lo hi Hal Hin.

(** ** Where a cursor ends up *)

(** The range lies below one leaf table that exists. *)
Definition leaf_covered (root : Z) s (start end_ : Z) : Prop :=
  path3 start = path3 (end_ - 1) ∧ is_Some (descend (tables s) root (path3 start)).

Lemma cursor_above_leaf root ts c s : cursor_inv lo hi root ts c s → ¬ leaf_covered root s (c_start c) (c_end c) → (0 < covering_level c)%nat.
Proof.
  intros I Hn. destruct (ci_range _ _ _ _ _ _ I) as (H1 & H2 & H3). destruct (covering_level c) as [|l] eqn:E; [|lia]. exfalso. apply Hn.
  pose proof (ci_cover _ _ _ _ _ _ I (c_start c) ltac:(lia)) as D1. pose proof (ci_cover _ _ _ _ _ _ I (c_end c - 1) ltac:(lia)) as D2.
  rewrite E in D1, D2. split; [|by eexists].
  eapply (tr_inj _ _ (ut_tree _ _ _ _ (ci_tree _ _ _ _ _ _ I))); [..|exact D1|exact D2]; apply path_of_va; lia.
Qed.

Lemma cursor_at_leaf root m start end_ l : 0 ≤ start < end_ → end_ ≤ 2 ^ VA_WIDTH → (l ≤ 3)%nat → tight root m start end_ l →
  path3 start = path3 (end_ - 1) → is_Some (descend m root (path3 start)) → l = 0%nat.
Proof.
  intros Hr He Hl Ht Hp [t Hd]. destruct l as [|n]; [done|]. exfalso.
  assert (descend m root (upath start n) = None) as Hnone.
  { apply (Ht n eq_refl). rewrite Z.max_r by lia. rewrite !ei_idx by (done || lia).
    injection Hp as E0 E1 E2. assert (n = 0 ∨ n = 1 ∨ n = 2)%nat as [->|[->| ->]] by lia; done. }
  unfold upath in Hnone. rewrite <- (take_drop (3 - n) (path3 start)), descend_app, Hnone in Hd. done.
Qed.

(** ** Clients of an address space *)

(** Lock a range, work on it, drop the cursor. *)
Definition with_cursor {X} (sp : AddressSpace) (start end_ : Z) (f : Cursor → M (Pt UA) X) : M (Pt UA) X :=
  let* c := as_lock sp start end_ in
  let* x := f c in
  cursor_drop c ;;
  ret x.

(** An address space whose tables nobody has locked. *)
Record space_ok (root : Z) (sp : AddressSpace) s : Prop := {
  so_tree : utree lo hi root s;
  so_idle : idle lo s;
  so_root : ∃ rptr, as_root sp = Some rptr ∧ dmap_to_phys rptr = root;
  so_level : max_level sp = 3
}.

Lemma wp_with_cursor {X} root sp start end_ (f : Cursor → M (Pt UA) X) s (Q : X → Pt UA → Prop) : space_ok root sp s →
  0 ≤ start < end_ → end_ ≤ 2 ^ VA_WIDTH →
  (∀ c ts s1, relocked lo hi s s1 → c_start c = start → c_end c = end_ → cursor_inv lo hi root ts c s1 →
     wp (f c) (λ x s2, cursor_inv lo hi root ts c s2 ∧ ∀ s3, tables s3 = tables s2 →
       ua_tables (alloc_state s3) = ua_tables (alloc_state s2) → space_ok root sp s3 → Q x s3) s1) →
  wp (with_cursor sp start end_ f) Q s.
Proof.
  intros [I Hi (rptr & Er & Hr) Hl] Hse He Hf. unfold with_cursor. wp_step.
  eapply wp_mono; [by apply (wp_as_lock lo hi Hlo Hal root rptr)|]. intros c s1 (R1 & Ec & Es & Ee & _ & ts & I1).
  wp_step. eapply wp_mono; [by apply (Hf c ts s1)|]. intros x s2 [I2 HQ]. wp_step.
  eapply wp_mono; [by apply (wp_cursor_drop lo hi Hlo Hal root ts)|]. intros _ s3 [R3 Hi3]. wp_steps.
  apply HQ; [apply R3|apply R3|]. split; [eapply relocked_utree; [apply I2|done]|done|by exists rptr|done].
Qed.

Lemma not_covered root ts c s s1 : relocked lo hi s s1 → cursor_inv lo hi root ts c s1 → ¬ leaf_covered root s (c_start c) (c_end c) →
  (0 < covering_level c)%nat.
Proof.
  intros R I Hn. eapply cursor_above_leaf; [done|]. intros [H1 H2]. apply Hn. split; [done|]. by rewrite (rl_tables _ _ _ _ R) in H2.
Qed.

Lemma block_of_tables s s' root va : tables s' = tables s → block_of s' root va = block_of s root va.
Proof. unfold block_of. by intros ->. Qed.
Lemma page_of_tables s s' root va : tables s' = tables s → page_of s' root va = page_of s root va.
Proof. unfold page_of. by intros ->. Qed.
Lemma translate_tables s s' root va : tables s' = tables s → translate s' root va = translate s root va.
Proof. unfold translate, block_of, page_of. by intros ->. Qed.

Lemma relocked_room s s' : relocked lo hi s s' → room (alloc_state s') = room (alloc_state s).
Proof. intros R. change (room (ua_tables (alloc_state s')) = room (ua_tables (alloc_state s))). by rewrite (rl_inner _ _ _ _ R). Qed.

Lemma page_of_translate s root va x : block_of s root va = None → translate s root va = Some x → ∃ e, page_of s root va = Some e.
Proof. unfold translate. intros ->. destruct (page_of s root va); [eauto|done]. Qed.

(** The range of [n] pages at [start]. *)
Definition range_ok (start end_ n : Z) : Prop :=
  0 ≤ start ∧ end_ ≤ 2 ^ VA_WIDTH ∧ (PAGE_SIZE | start) ∧ end_ = start + n * PAGE_SIZE ∧ 0 < n.

Lemma range_ok_lt start end_ n : range_ok start end_ n → 0 ≤ start < end_ ∧ end_ ≤ 2 ^ VA_WIDTH.
Proof. intros (H1 & H2 & H3 & H4 & H5). change PAGE_SIZE with 16384 in *. lia. Qed.

Lemma range_ok_cursor start end_ n c : range_ok start end_ n → c_start c = start → c_end c = end_ → page_range c n.
Proof. intros (H1 & H2 & H3 & H4 & H5) <- <-. done. Qed.

(** A query of a page that has just been mapped. *)
Lemma wp_query_mapped root ts c pa perm n s0 s va : mapped_upto lo hi Hal Hin root ts c pa perm n s0 s → page_range c n → (0 < covering_level c)%nat →
  (∀ va, c_start c ≤ va < c_end c → block_of s0 root va = None) → c_start c ≤ va < c_end c →
  wp (query c va) (λ st s', st = Mapped (pa + (va - va mod PAGE_SIZE - c_start c)) perm ∧ cursor_inv lo hi root ts c s' ∧ tables s' = tables s ∧
    ua_tables (alloc_state s') = ua_tables (alloc_state s)) s.
Proof.
  intros [I Hm Hme] R Hlv Hb Hva. destruct (ci_range _ _ _ _ _ _ I) as (H1 & H2 & H3).
  destruct (range_page c n va R H1 H3 Hva) as (j & Hj & Ej & Ev).
  assert (block_of s root va = None) as Hbs by (rewrite (rm_block _ _ _ _ _ _ Hm) by lia; by apply Hb).
  assert (0 ≤ j * PAGE_SIZE) as Hjp by (change PAGE_SIZE with 16384; lia).
  assert (meta_of lo root s va = Some (Mapped (pa + (va - va mod PAGE_SIZE - c_start c)) perm)) as Hst.
  { rewrite (meta_same_page lo root s va (c_start c + j * PAGE_SIZE)) by (done || lia). rewrite Hme by done. f_equal. f_equal. lia. }
  assert (∃ e, page_of s root va = Some e) as [e Hpg].
  { eapply page_of_translate; [done|]. rewrite (rm_translate _ _ _ _ _ _ Hm) by lia. rewrite canon_low by lia.
    destruct R as (_ & Re & _). by rewrite decide_True by lia. }
  eapply (wp_query lo hi Hal Hin root ts c va s); [done|done|done|done| |by rewrite Hpg|by eexists].
  intros st e' _ Hst' s' I' Et Eu. split; [congruence|done].
Qed.

(** Locking, mapping, asking and unlocking. *)
Lemma wp_map_query root sp start end_ n pa at_ va s : space_ok root sp s → range_ok start end_ n →
  ¬ leaf_covered root s start end_ → table_addr pa → pa + n * PAGE_SIZE ≤ 2 ^ VA_WIDTH →
  (∀ va, start ≤ va < end_ → block_of s root va = None) → (3 * Z.to_nat n ≤ room (alloc_state s))%nat → start ≤ va < end_ →
  wp (with_cursor sp start end_ (λ c, cursor_map c pa at_ ;; query c va)) (λ st s',
    st = Mapped (pa + (va - va mod PAGE_SIZE - start)) (access at_) ∧ space_ok root sp s' ∧
    (∀ va', 0 ≤ va' → block_of s' root va' = block_of s root va') ∧
    (room (ua_tables (alloc_state s)) ≤ 3 * Z.to_nat n + room (ua_tables (alloc_state s')))%nat ∧
    (∀ va', 0 ≤ va' < 2 ^ VA_WIDTH → translate s' root va' =
       if decide (start ≤ va' < end_) then Some (pa + (va' - start)) else translate s root va')) s.
Proof.
  intros Ok R Hn Hpa Hmax Hb Hr Hva. destruct (range_ok_lt _ _ _ R) as [Hse He].
  apply (wp_with_cursor root); [done|done|done|]. intros c ts s1 R1 <- <- I1. pose proof (not_covered root ts c s s1 R1 I1 Hn) as Hlv.
  pose proof (range_ok_cursor _ _ _ c R eq_refl eq_refl) as Rc. pose proof (rl_tables _ _ _ _ R1) as Et1.
  assert (∀ va, c_start c ≤ va < c_end c → block_of s1 root va = None) as Hb1 by (intros v Hv; rewrite (block_of_tables s) by done; by apply Hb).
  wp_step. eapply wp_mono; [apply (wp_cursor_map lo hi Hlo Hal Hin root ts c pa at_ n); try done; rewrite <- (relocked_room s s1 R1) in Hr; exact Hr|].
  intros [] s2 [Hm Hr2]. eapply wp_mono; [by eapply (wp_query_mapped root ts c)|].
  intros st s3 (Est & I3 & Et3 & Eu3). split; [done|]. intros s4 Et4 Eu4 Ok4. split; [done|]. split; [done|].
  destruct (mu_remapped _ _ _ _ _ _ _ _ _ _ _ _ Hm) as [_ M2 M3]. split_and!; [|rewrite Eu4, Eu3, <- (rl_inner _ _ _ _ R1); exact Hr2|]; intros va' Hva'.
  { rewrite (block_of_tables s2 s4), M2 by (congruence || lia). by apply block_of_tables. }
  rewrite (translate_tables s2 s4) by congruence. rewrite M3 by lia.
  rewrite canon_low by done. destruct Rc as (_ & <- & _). case_decide; [done|]. by apply translate_tables.
Qed.


(** C16: locking a range returns a cursor whose write-locked table covers
    every address of the range, as far down as one table can; dropping the
    cursor returns, every lock is free again and no table has changed. *)
Theorem lock_drop_spec root sp start end_ s : space_ok root sp s → 0 ≤ start < end_ → end_ ≤ 2 ^ VA_WIDTH →
  ∃ c s1 s2, as_lock sp start end_ s = Done (c, s1) ∧
    (∀ va, start ≤ va < end_ → descend (tables s) root (upath va (covering_level c)) = Some (covering_pa c)) ∧
    desc_state <$> dlook lo (alloc_state s1) (covering_pa c) = Some RwLock.WRITER ∧
    tight root (tables s) start end_ (covering_level c) ∧
    cursor_drop c s1 = Done (tt, s2) ∧ space_ok root sp s2 ∧ tables s2 = tables s.
Proof.
  intros [I Hi (rptr & Er & Hr) Hl] Hse He.
  pose proof (wp_as_lock lo hi Hlo Hal root rptr sp start end_ s I Hi Er Hr Hl Hse He) as W.
  apply wp_run in W as (c & s1 & E1 & R1 & Ec & Es & Ee & Ht & ts & I1). pose proof (rl_tables _ _ _ _ R1) as Et.
  pose proof (wp_cursor_drop lo hi Hlo Hal root ts c s1 I1) as W. apply wp_run in W as ([] & s2 & E2 & R2 & Hi2). subst start end_.
  exists c, s1, s2. split_and!; [done| | |by rewrite <- Et|done| |by rewrite (rl_tables _ _ _ _ R2)].
  - rewrite <- Et. apply I1.
  - destruct (cursor_covering _ _ _ _ _ _ I1) as (_ & Hdom & _). destruct (ci_locked _ _ _ _ _ _ I1 _ Hdom) as (m & -> & _).
    cbn. unfold lock_word. by rewrite decide_True.
  - split; [eapply relocked_utree; [apply I1|done]|done|by exists rptr|done].
Qed.

(** a cursor of a range below one existing leaf table has write-locked
    that table, and [mark] and [map] wait for this lock: they never
    return. *)
Theorem leaf_cursor_deadlocks root sp start end_ n pa at_ st s : space_ok root sp s → range_ok start end_ n →
  leaf_covered root s start end_ → table_addr pa → block_of s root start = None → (3 ≤ room (alloc_state s))%nat →
  ∃ c s1, as_lock sp start end_ s = Done (c, s1) ∧
    faults (cursor_mark c st) Deadlock s1 ∧ faults (cursor_map c pa at_) Deadlock s1.
Proof.
  intros [I Hi (rptr & Er & Hr) Hl] R [Hp Hd] Hpa Hb Hroom. destruct (range_ok_lt _ _ _ R) as [Hse He].
  pose proof (wp_as_lock lo hi Hlo Hal root rptr sp start end_ s I Hi Er Hr Hl Hse He) as W.
  apply wp_run in W as (c & s1 & E1 & R1 & Ec & Es & Ee & Ht & ts & I1). pose proof (rl_tables _ _ _ _ R1) as Et.
  pose proof (range_ok_cursor _ _ _ c R Es Ee) as Rc. destruct R as (_ & _ & Hdv & _ & Hn).
  assert (covering_level c = 0%nat) as E0 by (eapply cursor_at_leaf; [done|done|apply I1|done|done|by rewrite Et]).
  pose proof (page_range_steps c n Rc) as Ep. destruct (Z.to_nat n) as [|k] eqn:En; [lia|].
  assert (∀ s', cursor_inv lo hi root ts c s' → ∀ va st, faults (update_leaf_meta c va st) Deadlock s') as Hupd.
  { intros s' I' va st'. unfold update_leaf_meta. rewrite E0. destruct (cursor_covering _ _ _ _ _ _ I') as (_ & Hdom & _).
    eapply (update_leaf_faults lo hi root); [apply I'|apply I'|done]. }
  exists c, s1. split; [done|]. split.
  - unfold cursor_mark. rewrite Ep. cbn [mark_loop]. apply faults_bind. unfold ensure_leaf_table. rewrite E0. cbn [ensure_leaf_walk].
    wp_steps. by apply faults_here, Hupd.
  - unfold cursor_map. rewrite Ep, Es. cbn [map_loop]. apply faults_bind. eapply wp_root_mut; [done|]. intros rp Erp. apply faults_bind.
    eapply wp_keep; [apply (wp_map_page_va (TAL := laws lo hi Hal Hin) root);
      [by apply utree_pt, I1|done|apply low_page; [lia|done]|done|by rewrite (block_of_tables s)|rewrite <- (relocked_room s s1 R1) in Hroom; exact Hroom]|].
    intros [] s2 E2 (Hm & _ & _ & Hx). apply faults_here, Hupd.
    eapply (cursor_extends lo hi Hal Hin); [done|apply Hm|done|].
    eapply map_page_descs; [done|done|exact Hin|apply I1|exact E2].
Qed.

(** pages that a cursor has marked are reported as [Invalid], although
    the mark is recorded: [query] looks at the page descriptor first. *)
Theorem mark_query_invalid root sp start end_ n st va s : space_ok root sp s → range_ok start end_ n →
  ¬ leaf_covered root s start end_ → (∀ va, start ≤ va < end_ → block_of s root va = None ∧ page_of s root va = None) →
  (3 * Z.to_nat n ≤ room (alloc_state s))%nat → start ≤ va < end_ →
  ∃ c ts s1 s2, as_lock sp start end_ s = Done (c, s1) ∧ cursor_mark c st s1 = Done (tt, s2) ∧ cursor_inv lo hi root ts c s2 ∧
    meta_of lo root s2 va = Some st ∧ query c va s2 = Done (Invalid, s2).
Proof.
  intros [I Hi (rptr & Er & Hr) Hl] R Hnc Hb Hroom Hva. destruct (range_ok_lt _ _ _ R) as [Hse He].
  pose proof (wp_as_lock lo hi Hlo Hal root rptr sp start end_ s I Hi Er Hr Hl Hse He) as W.
  apply wp_run in W as (c & s1 & E1 & R1 & Ec & Es & Ee & _ & ts & I1). pose proof (rl_tables _ _ _ _ R1) as Et. subst start end_.
  pose proof (range_ok_cursor _ _ _ c R eq_refl eq_refl) as Rc. pose proof (not_covered root ts c s s1 R1 I1 Hnc) as Hlv.
  assert (wp (cursor_mark c st) (λ _ s', marked_upto lo hi root ts c st n s1 s') s1) as W.
  { apply (wp_cursor_mark lo hi Hlo Hal Hin); try done; [|rewrite <- (relocked_room s s1 R1) in Hroom; exact Hroom].
    intros v Hv. rewrite (block_of_tables s) by done. by apply Hb. }
  apply wp_run in W as ([] & s2 & E2 & [I2 B2 P2 M2]). destruct (range_page c n va Rc ltac:(lia) ltac:(lia) Hva) as (j & Hj & Ej & Ev).
  assert (0 ≤ j * PAGE_SIZE) as Hjp by (change PAGE_SIZE with 16384; lia).
  assert (meta_of lo root s2 va = Some st) as Hst.
  { rewrite (meta_same_page lo root s2 va (c_start c + j * PAGE_SIZE)) by (done || lia). by apply M2. }
  destruct (Hb va Hva) as [Hb0 Hp0].
  assert (page_of s2 root va = None) as Hp2 by (rewrite P2 by lia; by rewrite (page_of_tables s)).
  assert (wp (query c va) (λ r s', r = Invalid ∧ s' = s2) s2) as W.
  { eapply (wp_query lo hi Hal Hin root ts c); [done|done|done|by rewrite B2 by lia; rewrite (block_of_tables s)| |done|by eexists]. congruence. }
  apply wp_run in W as (r & s' & E3 & -> & ->). by exists c, ts, s1, s2.
Qed.

(** A new address space is one zeroed table. *)
Lemma wp_as_new s : tables s = ∅ → ua_owns lo hi (alloc_state s) ∅ → (0 < room (alloc_state s))%nat →
  wp (as_new None) (λ sp s', ∃ root u, s' = zero_root root u ∧ space_ok root sp s' ∧
    (room (alloc_state s) ≤ S (room (alloc_state s')))%nat) s.
Proof.
  intros Et Ho Hr. destruct (user_alloc_room lo hi Hal Hin _ _ Ho Hr) as [[ptr u'] Ea].
  destruct (user_alloc_fresh lo hi Hal Hin _ _ _ _ Ho Ea) as (p & -> & Hp & Hp0 & _ & Ho' & Hr' & [F1 F2 F3 F4]).
  rewrite union_empty_r_L in Ho'. assert (dmap_to_phys (phys_to_dmap p) = p) as Ep by (apply dmap_phys_dmap, Hp).
  assert (pt_inv p (zero_root p u')) as [I1 I2] by (by apply zero_root_inv).
  apply wp_run. exists {| as_root := Some (phys_to_dmap p); max_level := 3 |}, (zero_root p u'). split.
  - unfold as_new, bind, new_table. cbn [alloc_table user_tables]. rewrite Ea, Ep, Et. done.
  - exists p, u'. split; [done|]. split; [|done]. split; [by split| |by eexists|done]. intros q Hq. cbn [tables zero_root] in Hq.
    rewrite dom_singleton_L in Hq. apply elem_of_singleton in Hq as ->. exists None. split; [exact F4|done].
Qed.

(** a new address space is well-formed, has no lock held and maps
    nothing. *)
Theorem as_new_spec s : tables s = ∅ → ua_owns lo hi (alloc_state s) ∅ → (0 < room (alloc_state s))%nat →
  ∃ sp root s', as_new None s = Done (sp, s') ∧ space_ok root sp s' ∧ (∀ va, translate s' root va = None) ∧
    (room (alloc_state s) ≤ S (room (alloc_state s')))%nat.
Proof.
  intros Et Ho Hr. pose proof (wp_as_new s Et Ho Hr) as W. apply wp_run in W as (sp & s' & E & root & u & -> & Ok & Hr').
  exists sp, root, (zero_root root u). split_and!; [done|done|apply zero_root_translate|done].
Qed.

(** ** Dropping an address space *)

Definition keeps_tables {X} (c : M (Pt UA) X) : Prop := ∀ s x s', c s = Done (x, s') →
  tables s' = tables s ∧ ua_tables (alloc_state s') = ua_tables (alloc_state s) ∧ ua_descs (alloc_state s') = ua_descs (alloc_state s).

Lemma tables_bind {X Y} (c : M (Pt UA) X) (k : X → M (Pt UA) Y) : keeps_tables c → (∀ x, keeps_tables (k x)) → keeps_tables (bind c k).
Proof.
  intros Hc Hk s y s'. unfold bind. destruct (c s) as [[x s1]|] eqn:E; [|done]. intros E'.
  destruct (Hc _ _ _ E) as (<- & <- & <-). by eapply Hk.
Qed.

Lemma tables_ret {X} (x : X) : keeps_tables (ret x).
Proof. by intros s y s' [= <- <-]. Qed.

Lemma tables_free pa : keeps_tables (on_alloc (user_free_phys_page pa)).
Proof.
  intros s x s'. unfold on_alloc, user_free_phys_page. destruct (src_free_phys_page pa _) as [[y b]|]; [|done]. by intros [= <- <-].
Qed.

Lemma tables_for n i (f : Z → M (Pt UA) unit) : (∀ j, keeps_tables (f j)) → keeps_tables (for_range n i f).
Proof.
  intros Hf. revert i. induction n as [|n IH]; intros i; cbn [for_range]; [apply tables_ret|]. apply tables_bind; [apply Hf|intros _; apply IH].
Qed.

Lemma tables_drop sp level ptr : keeps_tables (drop_table sp level ptr).
Proof.
  revert ptr. induction level as [|level IH]; intros ptr; cbn [drop_table];
    (apply tables_bind; [intros s x s'; unfold assert; case_match; [apply tables_ret|done]|intros _]);
    apply tables_for; intros j; (apply tables_bind; [intros s x s'; unfold read_entry; repeat case_match; intros; by simplify_eq|intros e]);
    repeat case_match; (apply tables_ret || apply tables_free || apply IH).
Qed.

(** Dropping an address space frees the pages behind the leaves only: the
    tables stay where they are and the table allocator gets none of them
    back. *)
Theorem as_drop_keeps_tables sp s s' : as_drop sp s = Done (tt, s') →
  tables s' = tables s ∧ ua_tables (alloc_state s') = ua_tables (alloc_state s).
Proof.
  intros E. enough (keeps_tables (as_drop sp)) as H by (destruct (H _ _ _ E) as (H1 & H2 & _); done).
  apply tables_bind; [|intros r; apply tables_drop]. intros t x t'. unfold expect. case_match; [apply tables_ret|done].
Qed.
End theorems.

(** ** Witnesses *)

Section witnesses.
Local Existing Instance KernelAddressTranslator.

(** Tables are the pages 1 to 63; there are no pages for leaves to give
    back, so freeing one is a fault. *)
Record Pool := { pool_next : nat }.
Definition POOL_PAGES : nat := 64.

#[local] Instance pool_tables : TableAllocator Pool := {|
  alloc_table a := if decide (pool_next a < POOL_PAGES)%nat
    then Done (phys_to_dmap (bump_page (pool_next a)), {| pool_next := S (pool_next a) |}) else Fault Panic;
  free_table _ a := Done a
|}.

Definition pool_owns (a : Pool) (w : gset Z) : Prop :=
  (0 < pool_next a ≤ POOL_PAGES)%nat ∧ ∀ p, p ∈ w → p < bump_page (pool_next a).

#[local] Program Instance pool_laws : TableAllocatorLaws Pool := {|
  owns := pool_owns; room a := (POOL_PAGES - pool_next a)%nat
|}.
Next Obligation.
  intros a w ptr a' [H0 Hw] E. cbn [alloc_table pool_tables] in E. case_decide; simplify_eq. exists (bump_page (pool_next a)).
  unfold bump_page, POOL_PAGES in *. change PAGE_SIZE with 16384 in *. split_and!; [done| | | | |].
  - split; [unfold phys_addr; change (2 ^ VA_WIDTH) with 281474976710656; lia|apply Z.divide_factor_r].
  - lia.
  - intros Hp%Hw. lia.
  - split; cbn [pool_next]; [unfold POOL_PAGES; lia|]. intros p [->%elem_of_singleton|Hp%Hw]%elem_of_union;
      unfold bump_page; change PAGE_SIZE with 16384; lia.
  - cbn [pool_next]. lia.
Qed.
Next Obligation. intros a w _ Hr. cbn beta in Hr. cbn [alloc_table pool_tables]. rewrite decide_True by lia. by eexists. Qed.

#[local] Instance no_pages : PageSource unit := {|
  src_alloc_pages _ _ := Fault Panic; src_alloc_phys_page _ := Fault Panic; src_alloc_dmap_page _ := Fault Panic;
  src_free_pages _ _ := Fault Panic; src_free_phys_page _ _ := Fault Panic; src_free_dmap_page _ _ := Fault Panic;
  src_transition_dmap _ := Fault Panic; src_total_pages _ := 0; src_allocated_pages _ := 0
|}.

Definition demo_hi : Z := bump_page POOL_PAGES.
Lemma pool_in a w p a' : owns a w → alloc_table a = Done (phys_to_dmap p, a') → table_addr p → 0 ≤ p < demo_hi.
Proof.
  intros [H0 Hw] E Hp. cbn [alloc_table pool_tables] in E. case_decide as Hlt; [|done].
  assert (phys_to_dmap (bump_page (pool_next a)) = phys_to_dmap p) as Ep by congruence.
  assert (table_addr (bump_page (pool_next a))) as Hb.
  { unfold bump_page, POOL_PAGES in *. split; [|apply Z.divide_factor_r].
    unfold phys_addr. change (2 ^ VA_WIDTH) with 281474976710656. change PAGE_SIZE with 16384. lia. }
  apply (f_equal dmap_to_phys) in Ep. rewrite (dmap_phys_dmap p), (dmap_phys_dmap (bump_page _)) in Ep by (apply Hp || apply Hb).
  subst p. unfold demo_hi, bump_page, POOL_PAGES in *. change PAGE_SIZE with 16384. lia.
Qed.

Lemma zero_aligned : (PAGE_SIZE | 0).
Proof. apply Z.divide_0_r. Qed.

Definition demo_ua : UserAllocator Pool unit :=
  {| ua_tables := {| pool_next := 1 |}; ua_pages := ();
     ua_descs := Some {| pd_descs := replicate POOL_PAGES {| desc_state := 0; desc_meta := None |}; pd_start := 0; pd_end := demo_hi |} |}.

Lemma demo_ua_owns : ua_owns 0 demo_hi demo_ua ∅.
Proof.
  split; [|by eexists| |].
  - split; [cbn; unfold POOL_PAGES; lia|]. set_solver.
  - set_solver.
  - intros p [_ Hp] _. exists None. unfold dlook. cbn [ua_descs demo_ua mbind option_bind pd_descs].
    apply lookup_replicate. split; [done|]. unfold pfn, demo_hi, bump_page, POOL_PAGES in *. change PAGE_SIZE with 16384 in *. Z.div_mod_to_equations. lia.
Qed.

Definition demo_start : Pt (UserAllocator Pool unit) := {| tables := ∅; alloc_state := demo_ua |}.
#[local] Instance demo_laws : TableAllocatorLaws (UserAllocator Pool unit) := user_laws 0 demo_hi zero_aligned pool_in.

Lemma as_new_spec_witness : ∃ sp root s', as_new None demo_start = Done (sp, s') ∧ translate s' root 0 = None.
Proof.
  destruct (as_new_spec 0 demo_hi zero_aligned pool_in demo_start) as (sp & root & s' & E & _ & Ht & _).
  - reflexivity.
  - apply demo_ua_owns.
  - cbn. lia.
  - exists sp, root, s'. split; [exact E|apply Ht].
Defined.

(** A fresh address space, and one with two pages mapped. *)
Lemma demo_space : ∃ root sp u, space_ok 0 demo_hi root sp (zero_root root u) ∧ (62 ≤ room u)%nat.
Proof.
  pose proof (wp_as_new 0 demo_hi zero_aligned pool_in demo_start eq_refl demo_ua_owns) as W.
  apply wp_run in W as (sp & s' & E & root & u & -> & Ok & Hr); [|cbn; lia].
  exists root, sp, u. split; [exact Ok|]. cbn in Hr |- *. lia.
Qed.

Lemma demo_range : range_ok (4 * PAGE_SIZE) (6 * PAGE_SIZE) 2.
Proof. split_and!; try done. by exists 4. Qed.

Lemma demo_uncovered root u : ¬ leaf_covered root (zero_root root u : Pt (UserAllocator Pool unit)) (4 * PAGE_SIZE) (6 * PAGE_SIZE).
Proof. intros [_ [t Ht]]. by rewrite zero_root_descend in Ht. Qed.

Lemma lock_drop_spec_witness : ∃ sp (s : Pt (UserAllocator Pool unit)) c s1 s2, as_lock sp 0 PAGE_SIZE s = Done (c, s1) ∧ cursor_drop c s1 = Done (tt, s2) ∧ tables s2 = tables s.
Proof.
  destruct demo_space as (root & sp & u & Ok & _).
  destruct (lock_drop_spec 0 demo_hi (Z.le_refl 0) zero_aligned root sp 0 PAGE_SIZE _ Ok) as (c & s1 & s2 & E1 & _ & _ & _ & E2 & _ & Et).
  - split; [apply Z.le_refl|reflexivity].
  - discriminate.
  - exists sp, (zero_root root u), c, s1, s2. split; [exact E1|split; [exact E2|exact Et]].
Defined.


Lemma demo_mapped : ∃ root sp (s : Pt (UserAllocator Pool unit)), space_ok 0 demo_hi root sp s ∧
  leaf_covered root s (4 * PAGE_SIZE) (5 * PAGE_SIZE) ∧ block_of s root (4 * PAGE_SIZE) = None ∧ (3 ≤ room (ua_tables (alloc_state s)))%nat.
Proof.
  destruct demo_space as (root & sp & u & Ok & Hr).
  assert (wp (with_cursor sp (4 * PAGE_SIZE) (6 * PAGE_SIZE) (λ c, cursor_map c (8 * PAGE_SIZE) demo_attrs ;; query c (5 * PAGE_SIZE)))
    (λ _ s', space_ok 0 demo_hi root sp s' ∧ block_of s' root (4 * PAGE_SIZE) = None ∧
       (3 ≤ room (ua_tables (alloc_state s')))%nat ∧ translate s' root (4 * PAGE_SIZE) = Some (8 * PAGE_SIZE)) (zero_root root u)) as W.
  { eapply wp_mono.
    - apply (wp_map_query 0 demo_hi (Z.le_refl 0) zero_aligned pool_in root sp (4 * PAGE_SIZE) (6 * PAGE_SIZE) 2 (8 * PAGE_SIZE) demo_attrs
        (5 * PAGE_SIZE) _ Ok demo_range (demo_uncovered root u)); try done; [split; [done|by exists 8]|intros; by apply zero_root_leaf|].
      cbn in Hr |- *. lia.
    - intros st s' (_ & Ok' & Hb & Hr' & Ht). split; [done|]. rewrite Hb, Ht by done. split; [by apply zero_root_leaf|].
      split; [cbn in Hr, Hr' |- *; lia|done]. }
  apply wp_run in W as (_ & s' & _ & Ok' & Hb & Hr' & Ht). exists root, sp, s'. split_and!; [done| |done|done].
  split; [done|]. destruct (page_of_translate s' root _ _ Hb Ht) as [e He]. destruct (page_of_table s' root _ _ He) as [t Hd]. by exists t.
Qed.

Lemma leaf_cursor_deadlocks_witness : ∃ sp (s : Pt (UserAllocator Pool unit)) c s1, as_lock sp (4 * PAGE_SIZE) (5 * PAGE_SIZE) s = Done (c, s1) ∧
  faults (cursor_map c 0 demo_attrs) Deadlock s1.
Proof.
  destruct demo_mapped as (root & sp & s & Ok & Hc & Hb & Hr).
  destruct (leaf_cursor_deadlocks 0 demo_hi (Z.le_refl 0) zero_aligned pool_in root sp (4 * PAGE_SIZE) (5 * PAGE_SIZE) 1 0 demo_attrs Invalid s Ok)
    as (c & s1 & E & _ & Hf).
  - split_and!; try discriminate; [exists 4; reflexivity|reflexivity|reflexivity].
  - exact Hc.
  - split; [split; [discriminate|reflexivity]|apply zero_aligned].
  - exact Hb.
  - exact Hr.
  - exists sp, s, c, s1. split; [exact E|exact Hf].
Defined.

Lemma mark_query_invalid_witness : ∃ sp (s : Pt (UserAllocator Pool unit)) c s1 s2, as_lock sp (4 * PAGE_SIZE) (6 * PAGE_SIZE) s = Done (c, s1) ∧
  cursor_mark c (PrivateAnonymous (access demo_attrs)) s1 = Done (tt, s2) ∧ query c (4 * PAGE_SIZE) s2 = Done (Invalid, s2).
Proof.
  destruct demo_space as (root & sp & u & Ok & Hr).
  destruct (mark_query_invalid 0 demo_hi (Z.le_refl 0) zero_aligned pool_in root sp (4 * PAGE_SIZE) (6 * PAGE_SIZE) 2 (PrivateAnonymous (access demo_attrs))
    (4 * PAGE_SIZE) _ Ok demo_range (demo_uncovered root u)) as (c & ts & s1 & s2 & E1 & E2 & _ & _ & E3).
  - intros va _. split; by apply zero_root_leaf.
  - cbn in Hr |- *. lia.
  - split; [discriminate|reflexivity].
  - exists sp, (zero_root root u), c, s1, s2. split; [exact E1|split; [exact E2|exact E3]].
Defined.

(** The second of two mappings in one leaf table waits for ever. *)
Definition map_twice : M (Pt (UserAllocator Pool unit)) unit :=
  let* sp := as_new None in
  with_cursor sp 0 PAGE_SIZE (λ c, cursor_map c (8 * PAGE_SIZE) demo_attrs) ;;
  with_cursor sp PAGE_SIZE (2 * PAGE_SIZE) (λ c, cursor_map c (9 * PAGE_SIZE) demo_attrs).

Example second_mapping_deadlocks : faults map_twice Deadlock demo_start.
Proof. vm_cast_no_check (eq_refl (A := outcome (unit * Pt (UserAllocator Pool unit))) (Fault Deadlock)). Qed.
End witnesses.
