(* ===== verification/Process.v ===== *)
(** * Processes and the idle thread

    Models [klib/src/process.rs], a process whose threads and address space
    sit behind one reader-writer lock, and [kernel/src/earlyinit/idle.rs],
    which turns a core over to its first thread.

    An operation is run by one thread that nobody interferes with, as in
    [UserVm]: a lock it cannot take at once is the fault [Deadlock]. *)

From S2P Require Import Prelude Sync UserVm Sched SchedTheorems.

(** ** Processes *)

Inductive ProcessState := Normal | Zombie.

#[global] Instance ProcessState_eq_dec : EqDecision ProcessState.
Proof. solve_decision. Defined.

(** Threads are the addresses of the objects of the scheduler's store, and the
    parent is the address of a process. *)
Record ProcessInner := {
  process_id : Z;
  proc_state : ProcessState;
  address_space : AddressSpace;
  proc_threads : list nat;
  parent : option nat
}.

Definition set_proc_state (v : ProcessState) (p : ProcessInner) : ProcessInner :=
  {| process_id := process_id p; proc_state := v; address_space := address_space p;
     proc_threads := proc_threads p; parent := parent p |}.
Definition set_proc_threads (v : list nat) (p : ProcessInner) : ProcessInner :=
  {| process_id := process_id p; proc_state := proc_state p; address_space := address_space p;
     proc_threads := v; parent := parent p |}.

(** One process with the word of its lock, and the threads of the system. *)
Record Process := { lock_word : Z; inner : ProcessInner; objects : gmap nat ThreadInner }.

Definition set_lock_word (v : Z) (p : Process) : Process :=
  {| lock_word := v; inner := inner p; objects := objects p |}.
Definition set_inner (v : ProcessInner) (p : Process) : Process :=
  {| lock_word := lock_word p; inner := v; objects := objects p |}.

Definition process_new (id : Z) (space : AddressSpace) (par : option nat) (objs : gmap nat ThreadInner) : Process :=
  {| lock_word := 0; objects := objs;
     inner := {| process_id := id; proc_state := Normal; address_space := space; proc_threads := [];
                 parent := par |} |}.

(** [self.inner.read()] and [self.inner.write()], with the guard dropped at the
    end of [body]; the second one stores what [body] leaves behind the guard. *)
Definition reading {R} (body : ProcessInner → M Process R) : M Process R :=
  let* p := get in
  match read_alone (lock_word p) with
  | None => fail Deadlock
  | Some w =>
      modify (set_lock_word w) ;;
      let* r := body (inner p) in
      modify (λ p, set_lock_word (read_release (lock_word p)) p) ;;
      ret r
  end.
Definition writing {R} (body : ProcessInner → M Process (R * ProcessInner)) : M Process R :=
  let* p := get in
  match write_alone (lock_word p) with
  | None => fail Deadlock
  | Some w =>
      modify (set_lock_word w) ;;
      let* r := body (inner p) in
      modify (λ p, set_lock_word write_release (set_inner (snd r) p)) ;;
      ret (fst r)
  end.

(** [Thread::thread_id] of the object at [t]. *)
Definition id_of (t : nat) : M Process Z :=
  let* p := get in
  match objects p !! t with Some th => ret (thread_id th) | None => fail BadDeref end.

(** [Vec::retain] with the test of [remove_thread]. *)
Fixpoint retain_others (id : Z) (ts : list nat) : M Process (list nat) :=
  match ts with
  | [] => ret []
  | t :: rest =>
      let* i := id_of t in
      let* kept := retain_others id rest in
      ret (if i =? id then kept else t :: kept)
  end.

Definition add_thread (t : nat) : M Process unit :=
  writing (λ i, ret (tt, set_proc_threads (proc_threads i ++ [t]) i)).
Definition remove_thread (id : Z) : M Process unit :=
  writing (λ i, let* ts := retain_others id (proc_threads i) in ret (tt, set_proc_threads ts i)).
Definition process_set_state (st : ProcessState) : M Process unit :=
  writing (λ i, ret (tt, set_proc_state st i)).
Definition process_get_state : M Process ProcessState := reading (λ i, ret (proc_state i)).
Definition with_address_space {R} (f : AddressSpace → M Process R) : M Process R :=
  reading (λ i, f (address_space i)).
Definition with_threads {R} (f : list nat → M Process R) : M Process R :=
  reading (λ i, f (proc_threads i)).
(** [f] gets the threads as a mutable slice: it returns them as it leaves them. *)
Definition with_threads_mut {R} (f : list nat → M Process (R * list nat)) : M Process R :=
  writing (λ i, let* r := f (proc_threads i) in ret (fst r, set_proc_threads (snd r) i)).
Definition get_process_id : M Process Z := reading (λ i, ret (process_id i)).

(** ** The idle thread *)

(** [idle_init]: the register file that [el1_load_register_file] then loads.
    [t] is the address of the new thread, [top] the end of its stack and
    [idle_entry] the address of the function it runs. *)
Definition idle_init (EL1h : Z) (t : nat) (top idle_entry : Z) : M Sched Z :=
  thread_new_kernel EL1h t top idle_entry 0 ;;
  let* regs := with_ctx_mut t ret in
  spawn t ;;
  ret regs.

(** ** Locking *)

(** [n] guards for reading are held, and one more can be. *)
Definition readers_held (n : Z) (p : Process) : Prop := lock_word p = n ∧ 0 ≤ n < RwLock.READERS.

Lemma set_lock_word_same p : set_lock_word (lock_word p) p = p.
Proof. by destruct p. Qed.

Lemma read_alone_held n : 0 ≤ n < RwLock.READERS → read_alone n = Some (n + 1).
Proof.
  unfold read_alone, RwLock.READERS. intros Hn. assert (Z.land n RwLock.WRITER = 0) as ->.
  { apply RwLock.land_WRITER; lia. }
  destruct (n =? 2 ^ 31 - 1) eqn:E; [lia|done].
Qed.

Lemma read_release_succ n : 0 ≤ n < RwLock.READERS → read_release (n + 1) = n.
Proof. unfold read_release, RwLock.swrap, RwLock.READERS. intros Hn. rewrite Z.mod_small; lia. Qed.

(** A reader runs with one more guard held, and drops it again. *)
Lemma wp_reading {R} (body : ProcessInner → M Process R) Q n p : readers_held n p →
  wp (body (inner p)) (λ r p', lock_word p' = n + 1 ∧ Q r (set_lock_word n p')) (set_lock_word (n + 1) p) →
  wp (reading body) Q p.
Proof.
  intros [Hw Hn] Hb. unfold reading. do 2 wp_step. rewrite Hw, read_alone_held by done. do 3 wp_step.
  eapply wp_mono; [exact Hb|]. intros r p' [E HQ]. wp_steps. by rewrite E, read_release_succ.
Qed.

Lemma wp_writing {R} (body : ProcessInner → M Process (R * ProcessInner)) Q p : lock_word p = 0 →
  wp (body (inner p)) (λ r p', Q (fst r) (set_lock_word 0 (set_inner (snd r) p'))) (set_lock_word RwLock.WRITER p) →
  wp (writing body) Q p.
Proof.
  intros Hw Hb. unfold writing. do 2 wp_step. rewrite Hw. change (write_alone 0) with (Some RwLock.WRITER). cbn iota.
  do 3 wp_step. eapply wp_mono; [exact Hb|]. intros r p' HQ. by wp_steps.
Qed.

Lemma writing_blocked {R} (body : ProcessInner → M Process (R * ProcessInner)) p : lock_word p ≠ 0 →
  faults (writing body) Deadlock p.
Proof.
  intros Hw. unfold faults, writing, bind, get, write_alone. destruct (lock_word p =? 0) eqn:E; [lia|].
  by rewrite andb_false_r.
Qed.

Lemma reading_blocked {R} (body : ProcessInner → M Process R) p : lock_word p = RwLock.WRITER →
  faults (reading body) Deadlock p.
Proof. intros Hw. unfold faults, reading, bind, get. by rewrite Hw. Qed.

(** ** The threads of a process *)

Definition has_id (objs : gmap nat ThreadInner) (id : Z) (t : nat) : bool :=
  bool_decide (thread_id <$> objs !! t = Some id).

Lemma retain_others_wp id ts p : Forall (known (objects p)) ts →
  wp (retain_others id ts) (λ kept p', p' = p ∧ kept = filter (λ t, has_id (objects p) id t = false) ts) p.
Proof.
  induction 1 as [|t ts [th Ht] _ IH]; cbn [retain_others]; [by wp_steps|].
  wp_step. unfold id_of. do 2 wp_step. rewrite Ht. do 2 wp_step. eapply wp_mono; [exact IH|]. cbn beta.
  intros kept p' [-> ->]. wp_steps. split; [done|]. rewrite filter_cons.
  assert (has_id (objects p) id t = (thread_id th =? id)) as ->.
  { unfold has_id. rewrite Ht. cbn. destruct (Z.eqb_spec (thread_id th) id) as [<-|Hne].
    - by rewrite bool_decide_eq_true_2.
    - rewrite bool_decide_eq_false_2; congruence. }
  by destruct (thread_id th =? id).
Qed.

(** With unique ids, exactly the thread with the id goes. *)
Lemma retained_others objs next t th (ts : list nat) : store_ok objs next → objs !! t = Some th →
  filter (λ u, has_id objs (thread_id th) u = false) ts = filter (.≠ t) ts.
Proof.
  intros Hs Ht. apply list_filter_iff. intros u. unfold has_id. rewrite bool_decide_eq_false.
  destruct (objs !! u) as [uh|] eqn:Hu; cbn.
  - split.
    + intros Hne ->. simplify_eq.
    + intros Hne [= E]. apply Hne. by eapply (so_inj _ _ Hs).
  - split; [|done]. intros _ ->. congruence.
Qed.

(** A list without [t] keeps all its elements. *)
Lemma filter_absent (t : nat) (ts : list nat) : t ∉ ts → filter (.≠ t) ts = ts.
Proof.
  induction ts as [|u ts IH]; intros Hn; [done|]. apply not_elem_of_cons in Hn as [Hu Hn].
  by rewrite filter_cons_True, IH.
Qed.

(** What one operation leaves: the lock as it was and the threads [ts]. *)
Definition with_proc_threads (ts : list nat) (p : Process) : Process :=
  set_inner (set_proc_threads ts (inner p)) p.

Lemma write_guarded p i : lock_word p = 0 → set_lock_word 0 (set_inner i (set_lock_word RwLock.WRITER p)) = set_inner i p.
Proof. destruct p. cbn. by intros ->. Qed.

Lemma add_thread_wp t p : lock_word p = 0 →
  wp (add_thread t) (λ _ p', p' = with_proc_threads (proc_threads (inner p) ++ [t]) p) p.
Proof. intros Hw. apply wp_writing; [done|]. apply wp_ret. cbn [fst snd]. by rewrite write_guarded. Qed.

Lemma remove_thread_wp id p : lock_word p = 0 → Forall (known (objects p)) (proc_threads (inner p)) →
  wp (remove_thread id)
    (λ _ p', p' = with_proc_threads (filter (λ t, has_id (objects p) id t = false) (proc_threads (inner p))) p) p.
Proof.
  intros Hw Hk. apply wp_writing; [done|]. wp_step. eapply wp_mono; [by apply retain_others_wp|]. cbn beta.
  intros ts p' [-> ->]. apply wp_ret. cbn [fst snd]. by rewrite write_guarded.
Qed.

(** removing a thread takes exactly the thread with that id out of the
    process, wherever it is in the list, keeps the order of the others and
    releases the lock; adding a thread that the process does not have and
    removing it again by its id leaves the process as it was. *)
Theorem process_threads_roundtrip p next t th : lock_word p = 0 → store_ok (objects p) next →
  Forall (known (objects p)) (proc_threads (inner p)) → objects p !! t = Some th →
  wp (remove_thread (thread_id th)) (λ _ p', p' = with_proc_threads (filter (.≠ t) (proc_threads (inner p))) p) p ∧
  (t ∉ proc_threads (inner p) → wp (add_thread t ;; remove_thread (thread_id th)) (λ _ p', p' = p) p).
Proof.
  intros Hw Hs Hk Ht. split.
  - eapply wp_mono; [by apply remove_thread_wp|]. cbn beta. intros _ p' ->. by rewrite (retained_others _ next t).
  - intros Hn. wp_step. eapply wp_mono; [by apply add_thread_wp|]. cbn beta. intros _ p' ->.
    eapply wp_mono; [apply remove_thread_wp; [done|]|].
    + cbn. apply Forall_app_2; [done|]. repeat constructor. by exists th.
    + cbn beta. intros _ p' ->. cbn. rewrite (retained_others _ next t) by done.
      rewrite filter_app, filter_cons_False, filter_nil, app_nil_r by tauto.
      rewrite filter_absent by done. by destruct p as [? [] ?].
Qed.

(** the lock of a process is not recursive: inside [with_threads], and inside
    [with_address_space], the process can be read and cannot be changed,
    and inside [with_threads_mut] it can be neither read nor changed. *)
Theorem process_nesting p n : readers_held n p → n + 1 < RwLock.READERS →
  wp (with_threads (λ ts, let* st := process_get_state in ret (ts, st)))
    (λ r p', r = (proc_threads (inner p), proc_state (inner p)) ∧ p' = p) p ∧
  (∀ st, faults (with_threads (λ _, process_set_state st)) Deadlock p) ∧
  (∀ t, faults (with_address_space (λ _, add_thread t)) Deadlock p) ∧
  (n = 0 → faults (with_threads_mut (λ ts, let* st := process_get_state in ret (st, ts))) Deadlock p).
Proof.
  intros [Hw Hn] Hn'. assert (∀ {R} (body : ProcessInner → M Process (R * ProcessInner)) (out : ProcessInner → M Process R),
    (∀ i, out i = writing body) → faults (reading out) Deadlock p) as Hnest.
  { intros R body out Ho. unfold faults, reading, bind at 1, get. rewrite Hw, read_alone_held by done.
    unfold bind at 1, modify at 1. apply faults_here. rewrite Ho. apply writing_blocked. cbn. lia. }
  split; [|split; [|split]].
  - eapply wp_reading; [by split|]. wp_step. eapply (wp_reading _ _ (n + 1)); [split; [done|lia]|].
    apply wp_ret. split; [done|]. apply wp_ret. split; [done|]. split; [done|]. destruct p. cbn in *. by subst.
  - intros st. by eapply Hnest.
  - intros t. by eapply Hnest.
  - intros ->. unfold faults, with_threads_mut, writing, bind at 1, get. rewrite Hw.
    change (write_alone 0) with (Some RwLock.WRITER). cbn iota. unfold bind at 1, modify at 1.
    do 3 apply faults_here. by apply reading_blocked.
Qed.

(** ** The idle thread *)

(** The state after [idle_init]. *)
Definition idled (EL1h : Z) (t : nat) (top entry : Z) (old : RegisterFile) (q : LocalScheduler) (s : Sched) : Sched :=
  let p := top - REGISTER_FILE_SIZE in
  spawned t (new_thread (next_id s) 0 p None true) q (created t None true top entry 0 EL1h old s).

Lemma idle_init_run EL1h s t top entry old q : sched_inv s → threads s !! t = None →
  REGISTER_FILE_SIZE ≤ top < 2 ^ 64 → (16 | top) → contexts s !! (top - REGISTER_FILE_SIZE) = Some old →
  next_id s + 1 < 2 ^ 32 → queues s !! spawn_target s = Some q →
  idle_init EL1h t top entry s = Done (top - REGISTER_FILE_SIZE, idled EL1h t top entry old q s).
Proof.
  intros Hs Ht Htop Ha Ho Hn Hq. unfold idle_init, bind at 1, thread_new_kernel.
  rewrite (thread_new_inner_run _ _ _ _ _ _ _ _ old) by done. unfold bind at 1.
  assert (threads (created t None true top entry 0 EL1h old s) !! t =
    Some (new_thread (next_id s) 0 (top - REGISTER_FILE_SIZE) None true)) as Et by apply lookup_insert_eq.
  rewrite (with_ctx_mut_idle _ t _ _ Et) by done. unfold ret at 1, bind at 1.
  rewrite (spawn_run _ t (new_thread (next_id s) 0 (top - REGISTER_FILE_SIZE) None true) q); [done| |done|done|].
  - cbn. intros E. by rewrite E in Hq.
  - by apply (inv_queue _ _ _ Hs Hq).
Qed.

(** [idle_init] starts the core on a fresh register file that runs
    [idle_entry] on an empty stack, at the mode asked for, and keeps the
    invariant of the scheduler.  The thread the core then runs is also put, as a ready one,
    at the end of the queue of the core that the spawn counter names, while
    no core has it as its current thread; so once [idle_init] has run, a core
    with no current thread whose queue got an idle thread panics on its first call of
    [schedule]. *)
Theorem idle_init_spec EL1h s t top entry old : sched_inv s → queues s ≠ [] → threads s !! t = None →
  REGISTER_FILE_SIZE ≤ top < 2 ^ 64 → (16 | top) → contexts s !! (top - REGISTER_FILE_SIZE) = Some old →
  next_id s + 1 < 2 ^ 32 →
  ∃ q s', queues s !! spawn_target s = Some q ∧
    idle_init EL1h t top entry s = Done (top - REGISTER_FILE_SIZE, s') ∧ sched_inv s' ∧
    contexts s' !! (top - REGISTER_FILE_SIZE) =
      Some {| registers := replicate 31 0; sp := top; elr := entry; spsr := EL1h; esr := esr old; far := far old |} ∧
    state <$> threads s' !! t = Some Ready ∧
    queues s' = <[spawn_target s := {| thread_queue := thread_queue q ++ [t]; current_thread := current_thread q;
                                       q_locked := false |}]> (queues s) ∧
    (∀ c q', queues s' !! c = Some q' → current_thread q' ≠ Some t) ∧
    (current_thread q = None → cpu s = spawn_target s →
      ∀ ctx, faults (schedule ctx) Panic s').
Proof.
  intros Hs Hne Ht Htop Ha Ho Hn. destruct (spawn_target_queue s Hne) as [q Hq].
  exists q, (idled EL1h t top entry old q s). pose proof (idle_init_run EL1h s t top entry old q Hs Ht Htop Ha Ho Hn Hq) as Hr.
  assert (sched_inv (idled EL1h t top entry old q s)) as Hs'.
  { apply spawned_inv; [by apply created_inv|apply lookup_insert_eq|done]. }
  assert (queues s !! spawn_target s = Some q → queues (idled EL1h t top entry old q s) !! spawn_target s =
    Some {| thread_queue := thread_queue q ++ [t]; current_thread := current_thread q; q_locked := false |}) as Hq'.
  { intros _. cbn. apply list_lookup_insert_eq. by eapply lookup_lt_Some. }
  split_and!; try done.
  - apply lookup_insert_eq.
  - cbn. by rewrite lookup_insert_eq.
  - intros c q' Hc Hcur. cbn in Hc. assert (∃ q0 d, queues s !! d = Some q0 ∧ current_thread q0 = Some t) as (q0 & d & Hd & Hcur').
    { apply list_lookup_insert_Some in Hc as [(<- & <- & _)|[_ Hc]]; eauto. }
    destruct (qo_current _ _ (inv_queue _ _ _ Hs Hd) t Hcur') as [? E]. congruence.
  - intros Hc Hcpu ctx. eapply schedule_waiting; [done| | |].
    + change (cpu (idled EL1h t top entry old q s)) with (cpu s). rewrite Hcpu. by apply Hq'.
    + exact Hc.
    + cbn. by destruct (thread_queue q).
Qed.

(** ** Witnesses *)

Definition demo_thread (id : Z) : ThreadInner :=
  {| thread_id := id; state := Ready; priority := 1; kernel_sp := 0x10000; process := None; is_kernel := false |}.
Definition demo_process : Process :=
  with_proc_threads [5%nat; 9%nat]
    (process_new 3 {| as_root := None; max_level := 3 |} None (<[5%nat := demo_thread 0]> {[9%nat := demo_thread 1]})).

Lemma demo_store : store_ok (objects demo_process) 2.
Proof.
  split; cbn.
  - intros t th. rewrite lookup_insert_Some, lookup_singleton_Some. intros [[_ <-]|(_ & _ & <-)]; cbn; lia.
  - intros t u th uh. rewrite !lookup_insert_Some, !lookup_singleton_Some.
    intros [[<- <-]|(_ & <- & <-)] [[<- <-]|(_ & <- & <-)]; done.
Qed.

Lemma process_threads_roundtrip_witness :
  wp (remove_thread 0) (λ _ p', p' = with_proc_threads [9%nat] demo_process) demo_process.
Proof.
  apply (process_threads_roundtrip demo_process 2 5 (demo_thread 0)); [done|exact demo_store| |done].
  repeat constructor; by eexists.
Defined.

(** Core 0 of two, before its own [idle_init]. *)
Definition demo_cores : Sched :=
  set_queues [LocalScheduler_new; LocalScheduler_new]
    (sched_new 0 {[0x8000 - REGISTER_FILE_SIZE := {| registers := []; sp := 0; elr := 0; spsr := 0; esr := 0; far := 0 |}]}).

Lemma demo_cores_inv : sched_inv demo_cores.
Proof. split; cbn; try done; try lia. repeat constructor; cbn; done. Qed.

Lemma idle_init_spec_witness : ∃ s', idle_init 5 1 0x8000 0x400 demo_cores = Done (0x8000 - REGISTER_FILE_SIZE, s') ∧
  ∀ ctx, faults (schedule ctx) Panic s'.
Proof.
  destruct (idle_init_spec 5 demo_cores 1 0x8000 0x400
    {| registers := []; sp := 0; elr := 0; spsr := 0; esr := 0; far := 0 |})
    as (q & s' & Hq & Hr & _ & _ & _ & _ & _ & Hf);
    [exact demo_cores_inv|done|done|done|by exists 2048|done|done|].
  exists s'. split; [exact Hr|]. apply Hf; [|done]. by injection Hq as <-.
Defined.
