(* ===== verification/Cpu.v ===== *)
(** * Processor identifiers and per-CPU data

    Models [klib/src/cpu_interface.rs] (topology and logical identifiers),
    [klib/src/per_cpu/mod.rs] (the registry of per-CPU blocks and the pointer
    in [TPIDR_EL1]) and the part of [klib/src/smccc.rs] that is not assembly.
    The firmware call of [smccc.rs] is an argument of [cpu_on]. *)

From S2P Require Import Prelude.

(** ** Affinities *)

Definition mpidr_affinities (mpidr : Z) : Z * Z * Z * Z :=
  (Z.land (Z.shiftr mpidr 24) 0xFF, Z.land (Z.shiftr mpidr 16) 0xFF, Z.land (Z.shiftr mpidr 8) 0xFF, Z.land mpidr 0xFF).

(** [CpuTopologyId] is a [u32]. *)
Definition from_mpidr (mpidr : Z) : Z :=
  let aff3 := Z.land (Z.shiftr mpidr 32) 0xFF in
  let aff2 := Z.land (Z.shiftr mpidr 16) 0xFF in
  let aff1 := Z.land (Z.shiftr mpidr 8) 0xFF in
  let aff0 := Z.land mpidr 0xFF in
  Z.lor (Z.lor (Z.lor aff0 (Z.shiftl aff1 8)) (Z.shiftl aff2 16)) (Z.shiftl aff3 24).

Definition to_mpidr (id : Z) : Z :=
  let '(aff3, aff2, aff1, aff0) := mpidr_affinities id in
  Z.lor (Z.lor (Z.lor aff0 (Z.shiftl aff1 8)) (Z.shiftl aff2 16)) (Z.shiftl aff3 32).

(** ** Maps between identifiers *)

Record CpuMaps := { CPU_ID_MAP : gmap Z Z; CPU_TOPOLOGIES : list Z }.

Definition to_logical (m : CpuMaps) (topology : Z) : option Z := CPU_ID_MAP m !! topology.

Fixpoint insert_cpus (i : Z) (topologies : list Z) (m : CpuMaps) : CpuMaps :=
  match topologies with
  | [] => m
  | topology :: rest =>
      let logical := wrap 32 i in
      insert_cpus (i + 1) rest {| CPU_ID_MAP := <[topology := logical]> (CPU_ID_MAP m);
                                  CPU_TOPOLOGIES := CPU_TOPOLOGIES m ++ [topology] |}
  end.

(** Both maps are cleared first. *)
Definition init_cpu_maps (topologies : list Z) (_ : CpuMaps) : CpuMaps :=
  insert_cpus 0 topologies {| CPU_ID_MAP := ∅; CPU_TOPOLOGIES := [] |}.

(** ** The registry *)

Record PerCpuData := { cpu_id : Z; ready_flag : bool }.

(** [size_of::<PerCpuData>()], by its alignment. *)
Definition PERCPU_SIZE : Z := 64.

Record Registry := { REGISTRY_PTR : Z; REGISTRY_LEN : Z; percpu_mem : gmap Z PerCpuData; TPIDR_EL1 : Z }.

Definition set_tpidr (v : Z) (r : Registry) : Registry :=
  {| REGISTRY_PTR := REGISTRY_PTR r; REGISTRY_LEN := REGISTRY_LEN r; percpu_mem := percpu_mem r; TPIDR_EL1 := v |}.

Definition cpu_blocks (base : Z) (cores : nat) (m : gmap Z PerCpuData) : gmap Z PerCpuData :=
  foldl (λ m i, <[base + Z.of_nat i * PERCPU_SIZE := {| cpu_id := wrap 32 (Z.of_nat i); ready_flag := false |}]> m) m (seq 0 cores).

(** [base] is the address of the leaked vector. *)
Definition percpu_init (base : Z) (cores : nat) : M Registry unit :=
  let* r := get in
  assert (REGISTRY_PTR r =? 0) ;;
  modify (λ r, {| REGISTRY_PTR := base; REGISTRY_LEN := Z.of_nat cores; percpu_mem := cpu_blocks base cores (percpu_mem r);
                  TPIDR_EL1 := TPIDR_EL1 r |}).

(** The slice [PerCpu::all()], by its address and length. *)
Definition percpu_all (r : Registry) : Z * Z :=
  if REGISTRY_PTR r =? 0 then (0, 0) else (REGISTRY_PTR r, REGISTRY_LEN r).

Definition percpu_get (id : Z) (r : Registry) : option Z :=
  let '(p, len) := percpu_all r in if id <? len then Some (p + id * PERCPU_SIZE) else None.

Definition register_local (id : Z) : M Registry (result unit unit) :=
  let* r := get in
  assert (TPIDR_EL1 r =? 0) ;;
  match percpu_get id r with
  | None => ret (Err tt)
  | Some pcpu => modify (set_tpidr pcpu) ;; ret (Ok tt)
  end.

Definition local : M Registry PerCpuData :=
  let* r := get in
  assert (negb (TPIDR_EL1 r =? 0)) ;;
  match percpu_mem r !! TPIDR_EL1 r with Some d => ret d | None => fail BadDeref end.

(** [CpuIdLogical::current]; [mpidr] is the register of this core. *)
Definition current_logical (maps : CpuMaps) (mpidr : Z) : M Registry Z :=
  let* r := get in
  if TPIDR_EL1 r =? 0 then ret (default 0 (to_logical maps (from_mpidr mpidr)))
  else let* d := local in ret (cpu_id d).

(** ** Firmware calls *)

Inductive PsciError :=
| NotSupported | InvalidParameters | Denied | AlreadyOn | OnPending | InternalFailure | NotPresent | Disabled
| InvalidAddress | UnknownError.

Definition PSCI_0_2_FN64_CPU_ON : Z := 0xC4000003.

Definition from_i64 (code : Z) : result PsciError unit :=
  if code =? 0 then Ok tt else
  if code =? -1 then Err NotSupported else
  if code =? -2 then Err InvalidParameters else
  if code =? -3 then Err Denied else
  if code =? -4 then Err AlreadyOn else
  if code =? -5 then Err OnPending else
  if code =? -6 then Err InternalFailure else
  if code =? -7 then Err NotPresent else
  if code =? -8 then Err Disabled else
  if code =? -9 then Err InvalidAddress else Err UnknownError.

(** [call hvc fid a1 a2 a3] is the conduit, by [hvc] or by [smc]. *)
Definition cpu_on {S} (call : bool → Z → Z → Z → Z → M S Z) (USE_HVC : bool) (target_cpu entry_point_paddr context_id : Z) :
    M S (result PsciError unit) :=
  let* res := call USE_HVC PSCI_0_2_FN64_CPU_ON (to_mpidr target_cpu) entry_point_paddr context_id in
  ret (from_i64 res).

(** ** Theorems *)

Lemma land_ff x i : 0 ≤ i → Z.testbit (Z.land x 0xFF) i = Z.testbit x i && (i <? 8).
Proof. intros Hi. rewrite Z.land_spec. change 0xFF with (Z.ones 8). by rewrite testbit_ones by lia. Qed.

Lemma testbit_field x s l i : 0 ≤ s → 0 ≤ l → 0 ≤ i →
  Z.testbit (Z.shiftl (Z.land (Z.shiftr x s) 0xFF) l) i = (l <=? i) && (i <? l + 8) && Z.testbit x (i - l + s).
Proof.
  intros Hs Hl Hi. destruct (Z.leb_spec l i); [|by rewrite Z.shiftl_spec_low by lia].
  rewrite Z.shiftl_spec, land_ff, Z.shiftr_spec by lia. cbn [andb].
  destruct (Z.ltb_spec (i - l) 8), (Z.ltb_spec i (l + 8)); try lia; by rewrite ?andb_true_r, ?andb_false_r.
Qed.

Lemma shiftl_0 x : x = Z.shiftl x 0.
Proof. by rewrite Z.shiftl_0_r. Qed.

Lemma testbit_low x i : 0 ≤ i → Z.testbit (Z.land x 0xFF) i = (0 <=? i) && (i <? 0 + 8) && Z.testbit x (i - 0 + 0).
Proof.
  intros Hi. rewrite land_ff by done. rewrite (proj2 (Z.leb_le 0 i)) by done. rewrite Z.sub_0_r, !Z.add_0_r, Z.add_0_l. cbn [andb]. apply andb_comm.
Qed.

Lemma from_mpidr_bits x i : 0 ≤ i → Z.testbit (from_mpidr x) i = if i <? 24 then Z.testbit x i else (i <? 32) && Z.testbit x (i + 8).
Proof.
  intros Hi. unfold from_mpidr. rewrite !Z.lor_spec, testbit_low, !testbit_field by lia.
  rewrite !Z.sub_add. replace (i - 24 + 32) with (i + 8) by lia.
  destruct (Z.leb_spec 0 i); [|lia]. destruct (Z.ltb_spec i (0 + 8)), (Z.leb_spec 8 i), (Z.ltb_spec i (8 + 8)), (Z.leb_spec 16 i), (Z.ltb_spec i (16 + 8)),
    (Z.leb_spec 24 i), (Z.ltb_spec i (24 + 8)), (Z.ltb_spec i 24), (Z.ltb_spec i 32); cbn; try lia; by rewrite ?orb_false_r.
Qed.

Lemma to_mpidr_bits x i : 0 ≤ i → Z.testbit (to_mpidr x) i =
  if i <? 24 then Z.testbit x i else (32 <=? i) && (i <? 40) && Z.testbit x (i - 8).
Proof.
  intros Hi. unfold to_mpidr, mpidr_affinities. rewrite !Z.lor_spec, testbit_low, !testbit_field by lia.
  rewrite !Z.sub_add. replace (i - 32 + 24) with (i - 8) by lia.
  destruct (Z.leb_spec 0 i); [|lia]. destruct (Z.ltb_spec i (0 + 8)), (Z.leb_spec 8 i), (Z.ltb_spec i (8 + 8)), (Z.leb_spec 16 i), (Z.ltb_spec i (16 + 8)),
    (Z.leb_spec 32 i), (Z.ltb_spec i (32 + 8)), (Z.ltb_spec i 24), (Z.ltb_spec i 40); cbn; try lia; by rewrite ?orb_false_r.
Qed.

(** Converting a topology identifier to the affinity bits of [MPIDR_EL1] and
    back gives the identifier; the other way it keeps the affinity bits of
    the register and drops the rest. *)
Theorem mpidr_roundtrip x : 0 ≤ x < 2 ^ 32 → from_mpidr (to_mpidr x) = x ∧ ∀ m, to_mpidr (from_mpidr m) = Z.land m 0xFF00FFFFFF.
Proof.
  intros Hx. split.
  - apply Z.bits_inj'. intros i Hi. rewrite from_mpidr_bits, !to_mpidr_bits by lia. destruct (Z.ltb_spec i 24); [done|].
    destruct (Z.ltb_spec i 32); [|by rewrite (testbit_above x 32 i) by lia].
    destruct (Z.ltb_spec (i + 8) 24), (Z.leb_spec 32 (i + 8)), (Z.ltb_spec (i + 8) 40); try lia. cbn. by rewrite Z.add_simpl_r.
  - intros m. apply Z.bits_inj'. intros i Hi. rewrite to_mpidr_bits, !from_mpidr_bits, Z.land_spec by lia.
    change 0xFF00FFFFFF with (Z.lor (Z.ones 24) (Z.shiftl (Z.ones 8) 32)). rewrite Z.lor_spec, testbit_ones by lia.
    destruct (Z.ltb_spec i 24); cbn [orb]; [by rewrite andb_true_r|]. destruct (Z.leb_spec 32 i).
    + rewrite Z.shiftl_spec, testbit_ones by lia. destruct (Z.ltb_spec i 40), (Z.ltb_spec (i - 32) 8); try lia; cbn. rewrite from_mpidr_bits by lia.
      destruct (Z.ltb_spec (i - 8) 24), (Z.ltb_spec (i - 8) 32); try lia. cbn. by rewrite Z.sub_add, andb_true_r.
    + rewrite Z.shiftl_spec_low by lia. by rewrite andb_false_r.
Qed.

(** The maps after [init_cpu_maps]: the logical identifiers are the positions
    in the list, when no topology occurs twice. *)
Lemma insert_cpus_spec i ts m : 0 ≤ i → i + Z.of_nat (length ts) ≤ 2 ^ 32 → NoDup ts →
  CPU_TOPOLOGIES (insert_cpus i ts m) = CPU_TOPOLOGIES m ++ ts ∧
  ∀ t, CPU_ID_MAP (insert_cpus i ts m) !! t =
    match list_find (eq t) ts with Some (k, _) => Some (i + Z.of_nat k) | None => CPU_ID_MAP m !! t end.
Proof.
  revert i m. induction ts as [|x ts IH]; intros i m Hi Hn Hnd; cbn [insert_cpus]; [by rewrite app_nil_r|].
  cbn [length] in Hn. apply NoDup_cons in Hnd as [Hx Hnd]. destruct (IH (i + 1) {| CPU_ID_MAP := <[x:=wrap 32 i]> (CPU_ID_MAP m);
    CPU_TOPOLOGIES := CPU_TOPOLOGIES m ++ [x] |} ltac:(lia) ltac:(lia) Hnd) as [Et Em].
  cbn zeta. split; [rewrite Et; cbn [CPU_TOPOLOGIES]; by rewrite <- app_assoc|]. intros t. rewrite Em. cbn [CPU_ID_MAP list_find].
  destruct (decide (t = x)) as [->|Hne].
  - destruct (list_find (eq x) ts) as [[k y]|] eqn:Ef.
    + apply list_find_Some in Ef as (Hk & -> & _). by apply list_elem_of_lookup_2 in Hk.
    + rewrite lookup_insert_eq. rewrite wrap_small by lia. f_equal. lia.
  - destruct (list_find (eq t) ts) as [[k y]|]; cbn -[Z.of_nat]; [f_equal; lia|by rewrite lookup_insert_ne].
Qed.

Theorem init_cpu_maps_spec ts m0 : Z.of_nat (length ts) ≤ 2 ^ 32 → NoDup ts → let m := init_cpu_maps ts m0 in
  CPU_TOPOLOGIES m = ts ∧ ∀ t, to_logical m t = (λ x, Z.of_nat x.1) <$> list_find (eq t) ts.
Proof.
  intros Hn Hnd m. destruct (insert_cpus_spec 0 ts {| CPU_ID_MAP := ∅; CPU_TOPOLOGIES := [] |} ltac:(done) Hn Hnd) as [Et Em].
  split; [exact Et|]. intros t. unfold to_logical, m, init_cpu_maps. rewrite Em. by destruct (list_find (eq t) ts) as [[k y]|].
Qed.

(** ** Per-CPU blocks *)

Lemma cpu_blocks_lookup base cores m i : (i < cores)%nat →
  cpu_blocks base cores m !! (base + Z.of_nat i * PERCPU_SIZE) = Some {| cpu_id := wrap 32 (Z.of_nat i); ready_flag := false |}.
Proof.
  unfold cpu_blocks. induction cores as [|n IH]; intros Hi; [lia|]. rewrite seq_S, foldl_app. cbn [foldl].
  destruct (decide (i = n)) as [->|Hne]; [by rewrite lookup_insert_eq|]. rewrite lookup_insert_ne by (unfold PERCPU_SIZE; lia). apply IH. lia.
Qed.

(** After [PerCpu::init] a core that registers with its number finds its own
    block; a number that is too large is an error, and a second [init] or a
    second registration panics. *)
Theorem percpu_spec base cores r : base ≠ 0 → 0 ≤ base → REGISTRY_PTR r = 0 → TPIDR_EL1 r = 0 → Z.of_nat cores ≤ 2 ^ 32 →
  ∃ r1, percpu_init base cores r = Done (tt, r1) ∧ percpu_init base cores r1 = Fault Panic ∧
    (∀ i, Z.of_nat cores ≤ i → register_local i r1 = Done (Err tt, r1)) ∧
    ∀ i, 0 ≤ i < Z.of_nat cores → ∃ r2, register_local i r1 = Done (Ok tt, r2) ∧ register_local i r2 = Fault Panic ∧
      local r2 = Done ({| cpu_id := i; ready_flag := false |}, r2) ∧
      ∀ maps mpidr, current_logical maps mpidr r2 = Done (i, r2).
Proof.
  intros Hb Hb0 Hr Ht Hc. unfold percpu_init, bind, get, assert. rewrite Hr. cbn [Z.eqb modify]. eexists. split; [done|]. cbn [REGISTRY_PTR].
  split; [by rewrite (proj2 (Z.eqb_neq _ _))|]. set (r1 := {| REGISTRY_PTR := base |}).
  assert (∀ i, percpu_get i r1 = if i <? Z.of_nat cores then Some (base + i * PERCPU_SIZE) else None) as Hg.
  { intros i. unfold percpu_get, percpu_all, r1. cbn [REGISTRY_PTR REGISTRY_LEN]. by rewrite (proj2 (Z.eqb_neq _ _)). }
  split.
  - intros i Hi. unfold register_local, bind, get, assert. cbn [TPIDR_EL1 r1]. rewrite Ht, Hg. cbn [Z.eqb]. by rewrite (proj2 (Z.ltb_ge _ _)).
  - intros i Hi. assert (base + i * PERCPU_SIZE ≠ 0) as Hp by (unfold PERCPU_SIZE; lia).
    exists (set_tpidr (base + i * PERCPU_SIZE) r1).
    assert (local (set_tpidr (base + i * PERCPU_SIZE) r1) = Done ({| cpu_id := i; ready_flag := false |}, set_tpidr (base + i * PERCPU_SIZE) r1)) as Hl.
    { unfold local, bind, get, assert. cbn [TPIDR_EL1 set_tpidr percpu_mem]. rewrite (proj2 (Z.eqb_neq _ _) Hp). cbn [negb r1 percpu_mem].
      pose proof (cpu_blocks_lookup base cores (percpu_mem r) (Z.to_nat i) ltac:(lia)) as E. rewrite Z2Nat.id in E by lia. rewrite E.
      by rewrite wrap_small by lia. }
    split_and!; [| |exact Hl|].
    + unfold register_local, bind, get, assert. cbn [TPIDR_EL1 r1]. rewrite Ht, Hg. cbn [Z.eqb]. by rewrite (proj2 (Z.ltb_lt _ _)) by lia.
    + unfold register_local, bind, get, assert. cbn [TPIDR_EL1 set_tpidr]. by rewrite (proj2 (Z.eqb_neq _ _) Hp).
    + intros maps mpidr. unfold current_logical, bind, get. cbn [TPIDR_EL1 set_tpidr]. rewrite (proj2 (Z.eqb_neq _ _) Hp).
      by rewrite Hl.
Qed.
