(* ===== verification/Device.v ===== *)
(** * Devices and drivers

    Models [klib/src/hardware]: resources ([resource.rs]), the arena of
    devices ([device.rs]) and the binding of drivers to devices
    ([driver.rs]).  Device identifiers are indices of the arena.  The probe
    functions of the drivers are the parameter [probe] of a descriptor. *)

From S2P Require Import Prelude Bytes.

(** ** Resources and devices *)

Inductive Resource :=
| Mmio (start end_ : Z)
| Irq (n : Z).

Inductive DeviceInitPriority := Regular | Fundamental.

Inductive DeviceClass :=
| Cpu (id acpi_uid : Z)
| Uart
| Timer
| GicV3 (redistributor_count : Z)
| PciHostBridge
| Other.

(** [discriminant] *)
Definition discriminant (c : DeviceClass) : Z :=
  match c with Cpu _ _ => 0 | Uart => 1 | Timer => 2 | GicV3 _ => 3 | PciHostBridge => 4 | Other => 5 end.

Abbreviation DeviceId := nat (only parsing).

Record DeviceNode := {
  node_id : DeviceId;
  priority : DeviceInitPriority;
  parent : option DeviceId;
  class : DeviceClass;
  compatible : list str;
  resources : list Resource;
  children : list DeviceId
}.

Record DeviceTree := { nodes : list DeviceNode; roots : list DeviceId }.

Definition tree_new : DeviceTree := {| nodes := []; roots := [] |}.

Definition push_child (c : DeviceId) (n : DeviceNode) : DeviceNode :=
  {| node_id := node_id n; priority := priority n; parent := parent n; class := class n; compatible := compatible n;
     resources := resources n; children := children n ++ [c] |}.

(** The index [self.nodes[parent_id.0]] panics outside the arena. *)
Definition add_device (par : option DeviceId) (cl : DeviceClass) (comp : list str) (res : list Resource)
    (prio : DeviceInitPriority) : M DeviceTree DeviceId := λ t,
  let id := length (nodes t) in
  let node := {| node_id := id; priority := prio; parent := par; class := cl; compatible := comp; resources := res; children := [] |} in
  let nodes' := nodes t ++ [node] in
  match par with
  | Some p =>
      match nodes' !! p with
      | Some _ => Done (id, {| nodes := alter (push_child id) p nodes'; roots := roots t |})
      | None => Fault Panic
      end
  | None => Done (id, {| nodes := nodes'; roots := roots t ++ [id] |})
  end.

Definition tree_get (t : DeviceTree) (id : DeviceId) : option DeviceNode := nodes t !! id.

Definition iter_class (t : DeviceTree) (c : DeviceClass) : list DeviceNode :=
  filter (λ n, discriminant (class n) = discriminant c) (nodes t).

(** ** The arena is a forest *)

(** Identifiers are positions, parents come before their children, and the
    lists of roots and children say the same as the parent links. *)
Record tree_ok (t : DeviceTree) : Prop := {
  to_id i n : nodes t !! i = Some n → node_id n = i;
  to_parent i n p : nodes t !! i = Some n → parent n = Some p → (p < i)%nat;
  to_children p n i : nodes t !! p = Some n → i ∈ children n ↔ (∃ m, nodes t !! i = Some m ∧ parent m = Some p);
  to_children_nodup p n : nodes t !! p = Some n → NoDup (children n);
  to_roots i : i ∈ roots t ↔ (∃ m, nodes t !! i = Some m ∧ parent m = None);
  to_roots_nodup : NoDup (roots t)
}.

Lemma tree_new_ok : tree_ok tree_new.
Proof.
  split; try (intros; discriminate); [|apply NoDup_nil_2]. intros i. split; [by intros ?%not_elem_of_nil|by intros (m & ? & _)].
Qed.

(** The devices of [t] are those of [t'] with the same number, which may have
    gained children. *)
Definition same_device (n n' : DeviceNode) : Prop :=
  node_id n' = node_id n ∧ priority n' = priority n ∧ parent n' = parent n ∧ class n' = class n ∧
  compatible n' = compatible n ∧ resources n' = resources n.
Definition tree_extends (t t' : DeviceTree) : Prop :=
  (length (nodes t) ≤ length (nodes t'))%nat ∧
  ∀ i n, nodes t !! i = Some n → ∃ n', nodes t' !! i = Some n' ∧ same_device n n' ∧ children n `prefix_of` children n'.

Lemma tree_extends_refl t : tree_extends t t.
Proof. split; [lia|]. intros i n Hn. exists n. done. Qed.

Lemma tree_extends_trans t1 t2 t3 : tree_extends t1 t2 → tree_extends t2 t3 → tree_extends t1 t3.
Proof.
  intros [L1 H1] [L2 H2]. split; [lia|]. intros i n Hn. destruct (H1 i n Hn) as (n2 & Hn2 & (A1 & A2 & A3 & A4 & A5 & A6) & P2).
  destruct (H2 i n2 Hn2) as (n3 & Hn3 & (B1 & B2 & B3 & B4 & B5 & B6) & P3). exists n3. split; [done|].
  split; [|by etrans]. split_and!; congruence.
Qed.

(** The new device and the lists after [add_device]. *)
Definition new_node (t : DeviceTree) par cl comp res prio : DeviceNode :=
  {| node_id := length (nodes t); priority := prio; parent := par; class := cl; compatible := comp; resources := res; children := [] |}.

Lemma add_lookup t par cl comp res prio t' i : add_device par cl comp res prio t = Done (length (nodes t), t') →
  (∀ p, par = Some p → (p < length (nodes t))%nat) →
  nodes t' !! i = if decide (i = length (nodes t)) then Some (new_node t par cl comp res prio)
                  else if decide (par = Some i) then push_child (length (nodes t)) <$> nodes t !! i else nodes t !! i.
Proof.
  unfold add_device. intros E Hp. fold (new_node t par cl comp res prio) in E. set (nn := new_node t par cl comp res prio) in *.
  assert (∀ j, (nodes t ++ [nn]) !! j = if decide (j = length (nodes t)) then Some nn else nodes t !! j) as Hl.
  { intros j. case_decide as Ej; [subst j; by rewrite lookup_app_r, Nat.sub_diag by lia|].
    destruct (decide (j < length (nodes t))%nat); [by rewrite lookup_app_l|].
    rewrite lookup_app_r by lia. rewrite (lookup_ge_None_2 (nodes t)) by lia. apply lookup_ge_None_2. cbn. lia. }
  destruct par as [p|].
  - specialize (Hp p eq_refl). destruct ((nodes t ++ [nn]) !! p) as [m|] eqn:Em; [|done]. injection E as <-. cbn [nodes].
    destruct (decide (i = p)) as [->|Hne].
    + rewrite list_lookup_alter_eq, Hl. repeat case_decide; (done || lia).
    + rewrite list_lookup_alter_ne by done. rewrite Hl. case_decide; [done|]. by rewrite decide_False by congruence.
  - injection E as <-. cbn [nodes]. rewrite Hl. case_decide; [done|]. by rewrite decide_False.
Qed.

Lemma add_roots t par cl comp res prio t' : add_device par cl comp res prio t = Done (length (nodes t), t') →
  roots t' = roots t ++ match par with None => [length (nodes t)] | Some _ => [] end.
Proof.
  unfold add_device. destruct par; [case_match; [|done]|]; intros E; simplify_eq; cbn; [by rewrite app_nil_r|done].
Qed.

Lemma add_returns t par cl comp res prio : (∀ p, par = Some p → (p < length (nodes t))%nat) →
  ∃ t', add_device par cl comp res prio t = Done (length (nodes t), t').
Proof.
  intros Hp. unfold add_device. destruct par as [p|]; [|by eexists]. specialize (Hp p eq_refl).
  rewrite lookup_app_l by done. apply lookup_lt_is_Some in Hp as [m ->]. by eexists.
Qed.

Section added.
Context (t : DeviceTree) (par : option DeviceId) (cl : DeviceClass) (comp : list str) (res : list Resource) (prio : DeviceInitPriority)
  (t' : DeviceTree).
Context (Ok : tree_ok t) (Hp : ∀ p, par = Some p → (p < length (nodes t))%nat).
Context (E : add_device par cl comp res prio t = Done (length (nodes t), t')).
#[local] Abbreviation nn := (new_node t par cl comp res prio).

(** A device of the new arena is the new one or an old one. *)
Lemma added_inv i m : nodes t' !! i = Some m → (i = length (nodes t) ∧ m = nn) ∨
  ∃ n, nodes t !! i = Some n ∧ (i < length (nodes t))%nat ∧ same_device n m ∧
       children m = children n ++ if decide (par = Some i) then [length (nodes t)] else [].
Proof.
  rewrite (add_lookup t par cl comp res prio t' i E Hp). case_decide as Ei; [intros [= <-]; auto|].
  case_decide as Epar; intros Hm; right.
  - apply fmap_Some in Hm as (n & Hn & ->). pose proof (lookup_lt_Some _ _ _ Hn). exists n. done.
  - pose proof (lookup_lt_Some _ _ _ Hm). exists m. rewrite app_nil_r. done.
Qed.

Lemma added_new : nodes t' !! length (nodes t) = Some nn.
Proof. rewrite (add_lookup t par cl comp res prio t' _ E Hp). by rewrite decide_True. Qed.

Lemma added_old i n : nodes t !! i = Some n → ∃ m, nodes t' !! i = Some m ∧ same_device n m ∧ children n `prefix_of` children m.
Proof.
  intros Hn. pose proof (lookup_lt_Some _ _ _ Hn). rewrite (add_lookup t par cl comp res prio t' i E Hp).
  rewrite decide_False by lia. case_decide; rewrite ?Hn; cbn; eexists; split_and!; try done. by apply prefix_app_r.
Qed.

Lemma added_length : length (nodes t') = S (length (nodes t)).
Proof.
  apply Nat.le_antisymm; [|apply lookup_lt_is_Some; rewrite added_new; by eexists].
  destruct (decide (length (nodes t') ≤ S (length (nodes t)))%nat) as [|Hgt]; [done|].
  assert (is_Some (nodes t' !! S (length (nodes t)))) as [m Hm] by (apply lookup_lt_is_Some; lia).
  destruct (added_inv _ _ Hm) as [[? _]|(n & _ & ? & _)]; lia.
Qed.

Lemma added_extends : tree_extends t t'.
Proof. split; [rewrite added_length; lia|]. apply added_old. Qed.

(** The parent links of the new arena. *)
Lemma added_parent i p : (∃ m, nodes t' !! i = Some m ∧ parent m = p) ↔
  (i = length (nodes t) ∧ p = par) ∨ (∃ m, nodes t !! i = Some m ∧ parent m = p).
Proof.
  split.
  - intros (m & Hm & <-). destruct (added_inv _ _ Hm) as [[-> ->]|(n & Hn & _ & (_ & _ & -> & _) & _)]; [by left|right; eauto].
  - intros [[-> ->]|(m & Hm & <-)]; [exists nn; by rewrite added_new|].
    destruct (added_old _ _ Hm) as (m' & Hm' & (_ & _ & Epar & _) & _). eauto.
Qed.

Lemma added_ok : tree_ok t'.
Proof.
  destruct Ok as [O1 O2 O3 O4 O5 O6]. split.
  - intros i n Hn. destruct (added_inv _ _ Hn) as [[-> ->]|(m & Hm & _ & (-> & _) & _)]; [done|by apply O1].
  - intros i n p Hn Hpar. destruct (added_inv _ _ Hn) as [[-> ->]|(m & Hm & _ & (_ & _ & Em & _) & _)]; [by apply Hp|].
    rewrite Em in Hpar. by eapply O2.
  - intros p n i Hn. rewrite added_parent. destruct (added_inv _ _ Hn) as [[-> ->]|(m & Hm & Hlt & _ & ->)].
    + split; [by intros ?%not_elem_of_nil|]. intros [[_ Epar]|(m & Hm & Epar)]; [by pose proof (Hp _ (eq_sym Epar)); lia|].
      pose proof (O2 _ _ _ Hm Epar). apply lookup_lt_Some in Hm. lia.
    + rewrite elem_of_app, (O3 p m i Hm). case_decide as Epar; [|set_solver].
      rewrite list_elem_of_singleton. naive_solver.
  - intros p n Hn. destruct (added_inv _ _ Hn) as [[-> ->]|(m & Hm & Hlt & _ & ->)]; [apply NoDup_nil_2|].
    case_decide; [|by rewrite app_nil_r; eapply O4]. apply NoDup_app. split; [by eapply O4|]. split; [|apply NoDup_singleton].
    intros i Hi ->%list_elem_of_singleton. apply (O3 p m _ Hm) in Hi as (k & Hk & _). apply lookup_lt_Some in Hk. lia.
  - intros i. rewrite added_parent, (add_roots _ _ _ _ _ _ _ E), elem_of_app, O5. destruct par as [p|].
    + split; [intros [H|H%not_elem_of_nil]; [by right|done]|intros [[_ ?]|H]; [done|by left]].
    + rewrite list_elem_of_singleton. naive_solver.
  - rewrite (add_roots _ _ _ _ _ _ _ E). apply NoDup_app. split; [done|]. split.
    + intros i Hi%O5 Hin. destruct par; [by apply not_elem_of_nil in Hin|]. apply list_elem_of_singleton in Hin as ->.
      destruct Hi as (m & Hm & _). apply lookup_lt_Some in Hm. lia.
    + destruct par; [apply NoDup_nil_2|apply NoDup_singleton].
Qed.
End added.

(** Adding a device below an existing one (or as a root) always returns; the
    arena stays a forest, in which the new device is the last one. *)
Theorem add_device_spec t par cl comp res prio : tree_ok t → (∀ p, par = Some p → (p < length (nodes t))%nat) →
  ∃ t', add_device par cl comp res prio t = Done (length (nodes t), t') ∧ tree_ok t' ∧ tree_extends t t' ∧
    tree_get t' (length (nodes t)) = Some (new_node t par cl comp res prio).
Proof.
  intros Ok Hp. destruct (add_returns t par cl comp res prio Hp) as [t' E]. exists t'.
  split_and!; [done|by eapply added_ok|by eapply added_extends|by eapply added_new].
Qed.

(** ** Drivers *)

Inductive DriverError := MissingResources | Io | Incompatible.

Section drivers.
Context {Dev : Type}.

Record DriverDescriptor := {
  drv_name : str;
  drv_compatible : list str;
  probe : DeviceNode → result DriverError Dev
}.

Record DriverManager := { drivers : list DriverDescriptor; instances : list Dev }.

Definition manager_new (ds : list DriverDescriptor) : DriverManager := {| drivers := ds; instances := [] |}.

Definition matches (n : DeviceNode) (drv : DriverDescriptor) : bool :=
  existsb (λ c, bool_decide (c ∈ compatible n)) (drv_compatible drv).

Definition bind_node (n : DeviceNode) : M DriverManager unit := λ m,
  match List.find (matches n) (drivers m) with
  | None => Done (tt, m)
  | Some drv =>
      match probe drv n with
      | Ok device => Done (tt, {| drivers := drivers m; instances := instances m ++ [device] |})
      | Err _ => Fault Panic
      end
  end.

Fixpoint bind_nodes (ns : list DeviceNode) : M DriverManager unit :=
  match ns with
  | [] => ret tt
  | n :: ns' => bind_node n ;; bind_nodes ns'
  end.
Definition bind_drivers (dt : DeviceTree) : M DriverManager unit := bind_nodes (nodes dt).

(** What a node is to be bound to. *)
Definition bound (ds : list DriverDescriptor) (n : DeviceNode) : list (result DriverError Dev) :=
  match List.find (matches n) ds with
  | Some drv => [probe drv n]
  | None => []
  end.

(** Binding probes the first matching driver of each device, in the order of
    the arena: it returns the devices of all probes when they succeed, and
    panics when one fails. *)
Theorem bind_drivers_spec dt m : let rs := nodes dt ≫= bound (drivers m) in
  (∀ devs, rs = Ok <$> devs → bind_drivers dt m = Done (tt, {| drivers := drivers m; instances := instances m ++ devs |})) ∧
  (∀ e, Err e ∈ rs → bind_drivers dt m = Fault Panic).
Proof.
  unfold bind_drivers. destruct m as [ds ins]. cbn [drivers instances]. revert ins.
  induction (nodes dt) as [|n ns IH]; intros ins; cbn [bind_nodes mbind list_bind].
  - split; [intros devs E; destruct devs; [by rewrite app_nil_r|done]|by intros e ?%not_elem_of_nil].
  - assert (bound ds n = match List.find (matches n) ds with Some drv => [probe drv n] | None => [] end) as -> by done.
    unfold bind at 1 2, bind_node. cbn [drivers]. destruct (List.find (matches n) ds) as [drv|]; [|apply IH].
    cbn [instances]. destruct (probe drv n) as [d|e] eqn:Ep.
    + destruct (IH (ins ++ [d])) as [IH1 IH2]. split.
      * intros [|d' devs] E; [done|]. injection E as -> E. rewrite (IH1 devs E). by rewrite <- app_assoc.
      * intros e [?|Hin]%elem_of_cons; [done|by eapply IH2].
    + split; [|done]. intros devs E. by destruct devs.
Qed.
End drivers.
