(* ===== verification/Aml.v ===== *)
(** * AML

    Models [kernel/drivers/acpi-aml]: the parser of ACPI machine language
    ([parser.rs]), its values and names ([ast.rs]) and the decoding of
    resource templates ([crs.rs]).

    A parser is a slice and a position.  Its operations return a [Result]
    and move the position also when they fail, which the loops of their
    callers depend on.  A slice index that the source would panic on is an
    [expect].  The loops and the recursion on nested data objects have fuel,
    one more than the length of the slice; every round consumes a byte. *)

From S2P Require Import Prelude Bytes Device.

(** ** Values and terms *)

Record AmlNamePath := { raw : list Z }.

Record AmlParser := { bytes : list Z; cursor : nat }.

Inductive AmlValue :=
| AZero
| AOne
| AOnes
| AInteger (v : Z)
| AString (s : str)
| ANamePath (p : AmlNamePath)
| ABuffer (b : list Z)
| APackage (vs : list AmlValue).

Inductive AmlTerm :=
| TScope (name : AmlNamePath) (contents : AmlParser)
| TDevice (name : AmlNamePath) (contents : AmlParser)
| TName (name : AmlNamePath) (value : AmlValue)
| TMethod (name : AmlNamePath) (flags : Z) (code : list Z)
| TOpRegion (name : AmlNamePath)
| TField
| TUnsupportedOpcode (op : Z).

(** The messages of the parser. *)
Inductive AmlError := EUnderflow | EOverflow | EPkgLength | EUtf8 | ENamePath.

Definition P (A : Type) : Type := M AmlParser (result AmlError A).
Definition ok {A} (a : A) : P A := ret (Ok a).
Definition err {A} (e : AmlError) : P A := ret (Err e).

(** ** Reading *)

Definition parser_new (b : list Z) : AmlParser := {| bytes := b; cursor := 0 |}.
Definition is_empty (p : AmlParser) : bool := (length (bytes p) <=? cursor p)%nat.
Definition advance (n : nat) (p : AmlParser) : AmlParser := {| bytes := bytes p; cursor := cursor p + n |}.

Definition peek_u8 : M AmlParser (option Z) := gets (λ p, bytes p !! cursor p).

Definition read_u8 : P Z :=
  let* b := peek_u8 in
  match b with
  | Some b => modify (advance 1) ;; ok b
  | None => err EUnderflow
  end.

Definition take_bytes (len : nat) : P (list Z) :=
  let* p := get in
  if (cursor p + len <=? length (bytes p))%nat then
    let* slice := expect (get_range (bytes p) (cursor p) (cursor p + len)) in
    modify (advance len) ;;
    ok slice
  else err EOverflow.

Definition read_u16_le : P Z := try b := take_bytes 2 in ok (from_le b).
Definition read_u32_le : P Z := try b := take_bytes 4 in ok (from_le b).
Definition read_u64_le : P Z := try b := take_bytes 8 in ok (from_le b).

Fixpoint pkg_bytes (n : nat) (i length : Z) : P Z :=
  match n with
  | O => ok length
  | S n' =>
      try next_byte := read_u8 in
      pkg_bytes n' (i + 1) (Z.lor length (Z.shiftl next_byte (4 + i * 8)))
  end.
Definition read_pkg_length : P nat :=
  try lead := read_u8 in
  let byte_count := Z.shiftr lead 6 in
  if byte_count =? 0 then ok (Z.to_nat (Z.land lead 0x3F))
  else try length := pkg_bytes (Z.to_nat byte_count) 0 (Z.land lead 0x0F) in ok (Z.to_nat length).

(** What is left of a package that started at [pkg_start]. *)
Definition take_rest (pkg_start pkg_len : nat) : P (list Z) :=
  let* p := get in
  let consumed_bytes := (cursor p - pkg_start)%nat in
  if (consumed_bytes <=? pkg_len)%nat then take_bytes (pkg_len - consumed_bytes) else err EPkgLength.

(** The prefix characters of a name. *)
Fixpoint skip_prefix (fuel : nat) : M AmlParser unit :=
  match fuel with
  | O => fail OutOfFuel
  | S fuel' =>
      let* ch := peek_u8 in
      match ch with
      | Some ch => if (ch =? 92) || (ch =? 94) then modify (advance 1) ;; skip_prefix fuel' else ret tt
      | None => ret tt
      end
  end.

(** What follows the prefix characters: nothing, one, two or a counted
    number of name segments. *)
Definition read_name_segs : P unit :=
  try prefix := read_u8 in
  if prefix =? 0x00 then ok tt
  else if prefix =? 0x2E then take_bytes 8 ;? ok tt
  else if prefix =? 0x2F then
    try count := read_u8 in
    take_bytes (Z.to_nat count * 4) ;? ok tt
  else take_bytes 3 ;? ok tt.

Definition read_name_path : P AmlNamePath :=
  let* p := get in
  let start := cursor p in
  skip_prefix (S (length (bytes p))) ;;
  read_name_segs ;?
  let* p := get in
  match get_range (bytes p) start (cursor p) with
  | Some raw => ok {| raw := raw |}
  | None => err ENamePath
  end.

(** [while self.read_u8()? != 0x00 {}] *)
Fixpoint skip_string (fuel : nat) : P unit :=
  match fuel with
  | O => fail OutOfFuel
  | S fuel' =>
      try b := read_u8 in
      if b =? 0 then ok tt else skip_string fuel'
  end.

(** The first byte of a name. *)
Definition name_byte (op : Z) : bool :=
  (op =? 0x5C) || (op =? 0x5E) || (op =? 0x2E) || (op =? 0x2F) || within 65 90 op || (op =? 95).

Fixpoint parse_data (fuel : nat) : P AmlValue :=
  match fuel with
  | O => fail OutOfFuel
  | S fuel' =>
      try op := read_u8 in
      if op =? 0x00 then ok AZero
      else if op =? 0x01 then ok AOne
      else if op =? 0xFF then ok AOnes
      else if op =? 0x0A then try v := read_u8 in ok (AInteger v)
      else if op =? 0x0B then try v := read_u16_le in ok (AInteger v)
      else if op =? 0x0C then try v := read_u32_le in ok (AInteger v)
      else if op =? 0x0E then try v := read_u64_le in ok (AInteger v)
      else if op =? 0x0D then
        let* start := gets cursor in
        let* p := get in
        skip_string (S (length (bytes p))) ;?
        let* p := get in
        let* str_bytes := expect (get_range (bytes p) start (cursor p - 1)) in
        if utf8_valid str_bytes then ok (AString str_bytes) else err EUtf8
      else if op =? 0x11 then
        let* pkg_start := gets cursor in
        try pkg_len := read_pkg_length in
        parse_data fuel' ;?
        try buf_data := take_rest pkg_start pkg_len in
        ok (ABuffer buf_data)
      else if (op =? 0x12) || (op =? 0x13) then
        let* pkg_start := gets cursor in
        try pkg_len := read_pkg_length in
        (if op =? 0x12 then read_u8 ;? ok tt else parse_data fuel' ;? ok tt) ;?
        try pkg_bytes := take_rest pkg_start pkg_len in
        ok (ABuffer pkg_bytes)
      else if name_byte op then
        modify (λ p, {| bytes := bytes p; cursor := cursor p - 1 |}) ;;
        try name_path := read_name_path in
        ok (ANamePath name_path)
      else if op =? 0x5B then read_u8 ;? ok (AInteger 0x5B)
      else ok (AInteger op)
  end.
Definition parse_data_object : P AmlValue :=
  let* p := get in parse_data (S (length (bytes p))).

(** ** Terms *)

Definition parse_scope (mk : AmlNamePath → AmlParser → AmlTerm) : P (option AmlTerm) :=
  let* pkg_start := gets cursor in
  try pkg_len := read_pkg_length in
  try name := read_name_path in
  try body_bytes := take_rest pkg_start pkg_len in
  ok (Some (mk name (parser_new body_bytes))).

Definition parse_method : P (option AmlTerm) :=
  let* pkg_start := gets cursor in
  try pkg_len := read_pkg_length in
  try name := read_name_path in
  try flags := read_u8 in
  try code := take_rest pkg_start pkg_len in
  ok (Some (TMethod name flags code)).

Definition parse_op_region : P (option AmlTerm) :=
  try name := read_name_path in
  read_u8 ;?
  parse_data_object ;?
  parse_data_object ;?
  ok (Some (TOpRegion name)).

Definition parse_field : P (option AmlTerm) :=
  let* pkg_start := gets cursor in
  try pkg_len := read_pkg_length in
  read_name_path ;?
  read_u8 ;?
  take_rest pkg_start pkg_len ;?
  ok (Some TField).

Definition parse_ext : P (option AmlTerm) :=
  try ext_opc := read_u8 in
  if ext_opc =? 0x80 then parse_op_region
  else if ext_opc =? 0x81 then parse_field
  else if ext_opc =? 0x82 then parse_scope TDevice
  else ok (Some (TUnsupportedOpcode ext_opc)).

Definition parse_next : P (option AmlTerm) :=
  let* p := get in
  if is_empty p then ok None
  else
    try opcode := read_u8 in
    if opcode =? 0x10 then parse_scope TScope
    else if opcode =? 0x08 then
      try name := read_name_path in
      try value := parse_data_object in
      ok (Some (TName name value))
    else if opcode =? 0x14 then parse_method
    else if opcode =? 0x5B then parse_ext
    else ok (Some (TUnsupportedOpcode opcode)).

(** [from_fn(|| parser.parse_next().transpose()).collect::<Result<Vec<_>, _>>()]:
    stops at the first error. *)
Fixpoint collect_loop (fuel : nat) : P (list AmlTerm) :=
  match fuel with
  | O => fail OutOfFuel
  | S fuel' =>
      try t := parse_next in
      match t with
      | None => ok []
      | Some t => try ts := collect_loop fuel' in ok (t :: ts)
      end
  end.
Definition collect_terms : P (list AmlTerm) := let* p := get in collect_loop (S (length (bytes p))).

(** ** Text of names and values *)

(** [impl Display for AmlNamePath]: the prefix characters, then the segments
    without their trailing underscores. *)
Fixpoint name_prefix (l : list Z) : str * list Z :=
  match l with
  | b :: l' => if (b =? 92) || (b =? 94) then let '(s, r) := name_prefix l' in (b :: s, r) else ([], l)
  | [] => ([], [])
  end.

Fixpoint seg_len (seg : list Z) (actual_len : nat) : nat :=
  match actual_len with
  | O => O
  | S n => if default 0 (seg !! n) =? 95 then if (actual_len =? 1)%nat then actual_len else seg_len seg n else actual_len
  end.
Definition seg_char (b : Z) : Z := if within 0x21 0x7E b || (b =? 32) || (b =? 95) then b else 63.
Definition seg_text (seg : list Z) : str := seg_char <$> take (seg_len seg 4) seg.

Fixpoint name_segs (num_segs i : nat) (seg_bytes : list Z) : str :=
  match num_segs with
  | O => []
  | S n =>
      let dot := if (0 <? i)%nat then [46] else [] in
      match get_range seg_bytes (i * 4) (i * 4 + 4) with
      | None => dot ++ [63; 63; 63; 63]
      | Some seg => dot ++ seg_text seg ++ name_segs n (S i) seg_bytes
      end
  end.

Definition name_to_string (p : AmlNamePath) : str :=
  let '(s, l) := name_prefix (raw p) in
  s ++ match l with
       | [] => []
       | prefix :: rest =>
           if prefix =? 0x00 then []
           else if prefix =? 0x2E then name_segs 2 0 rest
           else if prefix =? 0x2F then
             match rest with
             | count :: segs => name_segs (Z.to_nat count) 0 segs
             | [] => []
             end
           else name_segs 1 0 l
       end.

(** [AmlValueExt] *)
Definition as_string (v : AmlValue) : option str :=
  match v with
  | AString s => Some s
  | ANamePath p => Some (name_to_string p)
  | AInteger v =>
      let m1 := Z.land (Z.shiftr v 26) 0x1F in
      let m2 := Z.land (Z.shiftr v 21) 0x1F in
      let m3 := Z.land (Z.shiftr v 16) 0x1F in
      let p := Z.land v 0xFFFF in
      Some ([0x40 + m1; 0x40 + m2; 0x40 + m3] ++ hex4 p)
  | _ => None
  end.

Definition as_u64 (v : AmlValue) : option Z :=
  match v with
  | AZero => Some 0
  | AOne => Some 1
  | AOnes => Some (2 ^ 64 - 1)
  | AInteger v => Some v
  | AString s => parse_u64 s
  | _ => None
  end.

(** ** Resource templates *)

(** [CrsIter::next]: the next descriptor and the rest. *)
Definition crs_next (l : list Z) : option (list Z * list Z) :=
  match l with
  | [] => None
  | tag :: rest =>
      if tag =? 0x79 then None
      else
        '(len, data_start) ←
          (if Z.land tag 0x80 =? 0 then Some (Z.to_nat (Z.land tag 0x07), 1%nat)
           else len_bytes ← get_range rest 0 2; Some (Z.to_nat (from_le len_bytes), 3%nat));
        chunk ← get_range l 0 (data_start + len);
        Some (chunk, drop (data_start + len) l)
  end.

Fixpoint crs_loop (fuel : nat) (l : list Z) : outcome (list (list Z)) :=
  match fuel with
  | O => Fault OutOfFuel
  | S fuel' =>
      match crs_next l with
      | None => Done []
      | Some (chunk, l') => match crs_loop fuel' l' with Done cs => Done (chunk :: cs) | Fault f => Fault f end
      end
  end.
Definition crs_iter (l : list Z) : outcome (list (list Z)) := crs_loop (S (length l)) l.

(** [u32::from_le_bytes(data[a..a + n].try_into().unwrap())] *)
Definition le_at {S} (data : list Z) (a n : nat) : M S Z :=
  let* b := expect (get_range data a (a + n)) in ret (from_le b).

(** A range resource; the end is computed with an overflow check. *)
Definition mmio {S} (base len : Z) : M S (list Resource) :=
  if 0 <? len then let* e := expect (checked_add 64 base len) in ret [Mmio base e] else ret [].

Definition irq_mask (mask : Z) : list Resource :=
  Irq <$> filter (λ i, Z.land mask (Z.shiftl 1 i) ≠ 0) (seqZ 0 16).

Definition ext_irqs (data : list Z) (count : nat) : list Resource :=
  omap (λ i, Irq ∘ from_le <$> get_range data (2 + i * 4) (2 + i * 4 + 4)) (seq 0 count).

Definition into_rss {S} (chunk : list Z) : M S (list Resource) :=
  let* tag := expect (chunk !! 0%nat) in
  let is_large := negb (Z.land tag 0x80 =? 0) in
  let item_type := if is_large then Z.land tag 0x7F else Z.land (Z.shiftr tag 3) 0x0F in
  let data := default [] (get_from chunk (if is_large then 3%nat else 1%nat)) in
  let long n := (n <=? length data)%nat in
  let plain := match data with b :: _ => b =? 0 | [] => false end in
  if negb is_large && (item_type =? 0x04) && long 2%nat then
    let* mask := le_at data 0 2 in ret (irq_mask mask)
  else if is_large && (item_type =? 0x05) && long 17%nat then
    let* base := le_at data 1 4 in let* len := le_at data 13 4 in mmio base len
  else if is_large && (item_type =? 0x06) && long 9%nat then
    let* base := le_at data 1 4 in let* len := le_at data 5 4 in mmio base len
  else if is_large && (item_type =? 0x07) && long 23%nat && plain then
    let* base := le_at data 7 4 in let* len := le_at data 19 4 in mmio base len
  else if is_large && (item_type =? 0x0A) && long 43%nat && plain then
    let* base := le_at data 11 8 in let* len := le_at data 35 8 in mmio base len
  else if is_large && (item_type =? 0x09) && long 2%nat then
    let* count := expect (data !! 1%nat) in ret (ext_irqs data (Z.to_nat count))
  else ret [].
