(* ===== verification/AmlProofs.v ===== *)
(** * The AML parser on arbitrary input

    The parser reads inside its slice, returns on every input, and every
    term or error costs at least one byte, so that the loops over terms
    end. *)

From S2P Require Import Prelude Bytes Device Aml.

Implicit Types (p : AmlParser).

(** ** Positions *)

Definition bounded p : Prop := (cursor p ≤ length (bytes p))%nat.

(** The position may have moved forward inside the slice. *)
Definition moves p p' : Prop := bytes p' = bytes p ∧ (cursor p ≤ cursor p')%nat ∧ bounded p'.

Lemma moves_refl p : bounded p → moves p p.
Proof. done. Qed.

Lemma moves_advance n p p' : moves (advance n p) p' → moves p p'.
Proof. intros (E & H & B). cbn in *. split_and!; [done|lia|done]. Qed.

Lemma advance_advance n m p : advance n (advance m p) = advance (m + n) p.
Proof. unfold advance. cbn. f_equal. lia. Qed.

Lemma advance_0 p : advance 0 p = p.
Proof. destruct p. unfold advance. cbn. f_equal. lia. Qed.

Lemma bounded_advance n p : (cursor p + n ≤ length (bytes p))%nat → bounded (advance n p).
Proof. done. Qed.

(** The bytes from the position on. *)
Definition ahead p (n : nat) : list Z := take n (drop (cursor p) (bytes p)).

Lemma length_ahead p n : (cursor p + n ≤ length (bytes p))%nat → length (ahead p n) = n.
Proof. intros H. unfold ahead. rewrite length_take, length_drop. lia. Qed.

(** ** Reading *)

Lemma wp_read_u8 p (Q : result AmlError Z → AmlParser → Prop) : bounded p → Q (Err EUnderflow) p →
  (∀ b, bytes p !! cursor p = Some b → bounded (advance 1 p) → Q (Ok b) (advance 1 p)) → wp read_u8 Q p.
Proof.
  intros B He Hok. unfold read_u8, peek_u8. wp_steps. destruct (bytes p !! cursor p) as [b|] eqn:E; wp_steps; [|done].
  apply Hok; [done|]. apply lookup_lt_Some in E. apply bounded_advance. lia.
Qed.

Lemma wp_read_some p (Q : result AmlError Z → AmlParser → Prop) : (cursor p < length (bytes p))%nat →
  (∀ b, bytes p !! cursor p = Some b → bounded (advance 1 p) → Q (Ok b) (advance 1 p)) → wp read_u8 Q p.
Proof.
  intros Hlt Hok. unfold read_u8, peek_u8. wp_steps. destruct (lookup_lt_is_Some_2 (bytes p) (cursor p) Hlt) as [b E].
  rewrite E. unfold ok. wp_steps. apply Hok; [done|]. apply bounded_advance. lia.
Qed.

Lemma wp_take_bytes n p (Q : result AmlError (list Z) → AmlParser → Prop) : bounded p → Q (Err EOverflow) p →
  ((cursor p + n ≤ length (bytes p))%nat → Q (Ok (ahead p n)) (advance n p)) → wp (take_bytes n) Q p.
Proof.
  intros B He Hok. unfold take_bytes. wp_steps. destruct (Nat.leb_spec (cursor p + n) (length (bytes p))); [|by wp_steps].
  wp_step. apply (wp_expect _ (ahead p n)); [|wp_steps; by apply Hok]. rewrite get_range_ok by lia. unfold ahead. do 3 f_equal. lia.
Qed.

Lemma wp_pkg_bytes n i l p (Q : result AmlError Z → AmlParser → Prop) : bounded p →
  (∀ p', moves p p' → Q (Err EUnderflow) p') → (∀ v, (cursor p + n ≤ length (bytes p))%nat → Q (Ok v) (advance n p)) →
  wp (pkg_bytes n i l) Q p.
Proof.
  revert i l p. induction n as [|n IH]; intros i l p B He Hok; cbn [pkg_bytes].
  - unfold ok. wp_steps. rewrite <- (advance_0 p). apply Hok. unfold bounded in B. lia.
  - apply wp_try, wp_read_u8; [done|by apply He|]. intros b _ B'. apply IH; [done| |].
    + intros p' Hm. apply He. by eapply moves_advance.
    + intros v Hv. rewrite advance_advance. apply Hok. cbn in Hv. lia.
Qed.

Lemma lead_count lead : byte_ok lead → 0 ≤ Z.shiftr lead 6 ≤ 3.
Proof. unfold byte_ok. rewrite Z.shiftr_div_pow2 by done. change (2 ^ 6) with 64. intros H. Z.div_mod_to_equations. lia. Qed.

Lemma wp_read_pkg_length p (Q : result AmlError nat → AmlParser → Prop) : bounded p →
  (∀ p', moves p p' → Q (Err EUnderflow) p') →
  (∀ len n, (1 ≤ n)%nat → (cursor p + n ≤ length (bytes p))%nat → Q (Ok len) (advance n p)) →
  wp read_pkg_length Q p.
Proof.
  intros B He Hok. unfold read_pkg_length. apply wp_try, wp_read_u8; [done|by apply He|]. intros b _ B'.
  destruct (Z.shiftr b 6 =? 0); [unfold ok; wp_steps; apply Hok; [lia|exact B']|].
  apply wp_try, wp_pkg_bytes; [done| |].
  - intros p' Hm. apply He. by eapply moves_advance.
  - intros v Hv. unfold ok. wp_steps. rewrite advance_advance. apply Hok; [lia|]. cbn in Hv. lia.
Qed.

Lemma wp_take_rest start len p (Q : result AmlError (list Z) → AmlParser → Prop) : bounded p → (∀ e, Q (Err e) p) →
  (∀ n, (cursor p + n ≤ length (bytes p))%nat → Q (Ok (ahead p n)) (advance n p)) → wp (take_rest start len) Q p.
Proof.
  intros B He Hok. unfold take_rest. wp_steps. case_match; [|by unfold err; wp_steps]. apply wp_take_bytes; auto.
Qed.

Lemma wp_skip_prefix fuel p (Q : unit → AmlParser → Prop) : bounded p → (length (bytes p) - cursor p < fuel)%nat →
  (∀ n, (cursor p + n ≤ length (bytes p))%nat → Q tt (advance n p)) → wp (skip_prefix fuel) Q p.
Proof.
  revert p. induction fuel as [|fuel IH]; intros p B Hf Hok; [lia|]. cbn [skip_prefix]. unfold peek_u8. wp_steps.
  assert (Q tt p) as Hq by (rewrite <- (advance_0 p); apply Hok; unfold bounded in B; lia).
  destruct (bytes p !! cursor p) as [ch|] eqn:E; [|by wp_steps]. apply lookup_lt_Some in E. case_match; [|by wp_steps].
  wp_steps. apply IH; [apply bounded_advance; lia|cbn; lia|]. intros n Hn. rewrite advance_advance. apply Hok. cbn in Hn. lia.
Qed.

Lemma wp_read_name_segs p (Q : result AmlError unit → AmlParser → Prop) : bounded p →
  (∀ e p', moves p p' → Q (Err e) p') →
  (∀ n, (1 ≤ n)%nat → (cursor p + n ≤ length (bytes p))%nat → Q (Ok tt) (advance n p)) →
  wp read_name_segs Q p.
Proof.
  intros B He Hok. unfold read_name_segs. apply wp_try, wp_read_u8; [done|by apply He, moves_refl|]. intros b _ B1.
  assert (∀ e p', moves (advance 1 p) p' → Q (Err e) p') as He1 by (intros e p' Hm; by eapply He, moves_advance).
  assert (∀ n, wp (take_bytes n ;? ok tt) Q (advance 1 p)) as Ht.
  { intros n. apply wp_try, wp_take_bytes; [done|by apply He1|]. intros Hn. unfold ok. wp_steps. rewrite advance_advance. apply Hok; cbn in *; lia. }
  case_match; [unfold ok; wp_steps; by apply Hok|]. case_match; [apply Ht|]. case_match; [|apply Ht].
  apply wp_try, wp_read_u8; [done|by apply He1|]. intros c _ B2. apply wp_try, wp_take_bytes; [done|by eapply He1, moves_advance|].
  intros Hn. unfold ok. wp_steps. rewrite !advance_advance. apply Hok; cbn in *; lia.
Qed.

Lemma wp_read_name_path p (Q : result AmlError AmlNamePath → AmlParser → Prop) : bounded p →
  (∀ e p', moves p p' → Q (Err e) p') →
  (∀ n, (1 ≤ n)%nat → (cursor p + n ≤ length (bytes p))%nat → Q (Ok {| raw := ahead p n |}) (advance n p)) →
  wp read_name_path Q p.
Proof.
  intros B He Hok. unfold read_name_path. wp_steps. apply wp_skip_prefix; [done|lia|]. intros n Hn.
  apply wp_try, wp_read_name_segs; [done| |].
  - intros e p' Hm. by eapply He, moves_advance.
  - intros m Hm Hl. wp_steps. rewrite advance_advance. cbn in Hl. cbn [bytes cursor advance]. rewrite get_range_ok by lia.
    unfold ok. wp_steps. replace (cursor p + (n + m) - cursor p)%nat with (n + m)%nat by lia. apply Hok; lia.
Qed.

Lemma wp_skip_string fuel p (Q : result AmlError unit → AmlParser → Prop) : bounded p → (length (bytes p) - cursor p < fuel)%nat →
  (∀ p', moves p p' → Q (Err EUnderflow) p') →
  (∀ n, (1 ≤ n)%nat → (cursor p + n ≤ length (bytes p))%nat → Q (Ok tt) (advance n p)) → wp (skip_string fuel) Q p.
Proof.
  revert p. induction fuel as [|fuel IH]; intros p B Hf He Hok; [lia|]. cbn [skip_string].
  apply wp_try, wp_read_u8; [done|by apply He|]. intros b _ B1. unfold bounded in B1. cbn in B1.
  case_match; [unfold ok; wp_steps; by apply Hok|]. apply IH; [done|cbn; lia| |].
  - intros p' Hm. by eapply He, moves_advance.
  - intros n Hn Hl. rewrite advance_advance. apply Hok; cbn in *; lia.
Qed.

(** ** Data objects *)

(** A value found in [l]: its strings are UTF-8 and its buffers are parts of
    [l]; packages are never produced. *)
Definition value_ok (l : list Z) (v : AmlValue) : Prop :=
  match v with
  | AString s => utf8_valid s = true ∧ ∃ a b, get_range l a b = Some s
  | ABuffer k => ∃ a b, get_range l a b = Some k
  | ANamePath q => ∃ a b, get_range l a b = Some (raw q)
  | APackage _ => False
  | _ => True
  end.

Lemma ahead_range p n : (cursor p + n ≤ length (bytes p))%nat → get_range (bytes p) (cursor p) (cursor p + n) = Some (ahead p n).
Proof. intros H. rewrite get_range_ok by lia. unfold ahead. do 2 f_equal. lia. Qed.

Definition data_post p (Q : result AmlError AmlValue → AmlParser → Prop) : Prop :=
  (∀ e p', moves p p' → Q (Err e) p') ∧
  (∀ v n, (1 ≤ n)%nat → (cursor p + n ≤ length (bytes p))%nat → value_ok (bytes p) v → Q (Ok v) (advance n p)).

(** A constant of [k] bytes after [m] bytes of prefix. *)
Lemma wp_integer k m p (Q : result AmlError AmlValue → AmlParser → Prop) : bounded (advance m p) → (1 ≤ m)%nat → data_post p Q →
  wp (try v := (try b := take_bytes k in ok (from_le b)) in ok (AInteger v)) Q (advance m p).
Proof.
  intros B Hm [He Hok]. do 2 apply wp_try. apply wp_take_bytes; [done|by eapply He, moves_advance|]. intros Hk.
  unfold ok. wp_steps. rewrite advance_advance. cbn in Hk. apply Hok; [lia|lia|done].
Qed.

Lemma wp_string m p (Q : result AmlError AmlValue → AmlParser → Prop) : bounded (advance m p) → (1 ≤ m)%nat → data_post p Q →
  wp (let* start := gets cursor in let* p := get in skip_string (S (length (bytes p))) ;?
      let* p := get in let* str_bytes := expect (get_range (bytes p) start (cursor p - 1)) in
      if utf8_valid str_bytes then ok (AString str_bytes) else err EUtf8) Q (advance m p).
Proof.
  intros B Hm [He Hok]. wp_steps. apply wp_try, wp_skip_string; [done|lia|intros p' Hmv; by eapply He, moves_advance|].
  intros n Hn Hl. wp_steps. cbn in Hl. cbn [bytes cursor advance].
  pose proof (get_range_ok (bytes p) (cursor p + m) (cursor p + m + n - 1) ltac:(lia) ltac:(lia)) as E. set (s := take _ _) in E.
  apply (wp_expect _ s); [done|]. destruct (utf8_valid s) eqn:Eu; unfold ok, err; wp_steps; rewrite advance_advance.
  - apply Hok; [lia|lia|]. split; [done|by eexists _, _].
  - apply He. split_and!; cbn; [done|lia|]. apply bounded_advance. lia.
Qed.

Lemma wp_pkg_tail m start len p (Q : result AmlError AmlValue → AmlParser → Prop) : bounded (advance m p) → (1 ≤ m)%nat → data_post p Q →
  wp (try data := take_rest start len in ok (ABuffer data)) Q (advance m p).
Proof.
  intros B Hm [He Hok]. apply wp_try, wp_take_rest; [done|intros e; by eapply He, moves_advance|]. intros n Hn. unfold ok. wp_steps.
  rewrite advance_advance. pose proof (ahead_range (advance m p) n Hn). cbn in Hn. apply Hok; [lia|lia|]. by eexists _, _.
Qed.

Lemma wp_name_ref p (Q : result AmlError AmlValue → AmlParser → Prop) : bounded p → bounded (advance 1 p) → data_post p Q →
  wp (modify (λ p, {| bytes := bytes p; cursor := cursor p - 1 |}) ;; try name_path := read_name_path in ok (ANamePath name_path)) Q (advance 1 p).
Proof.
  intros B B1 [He Hok]. wp_steps. replace {| bytes := bytes (advance 1 p); cursor := cursor (advance 1 p) - 1 |} with p
    by (destruct p; cbn; f_equal; lia).
  apply wp_try, wp_read_name_path; [done|done|]. intros n Hn Hl. unfold ok. wp_steps. apply Hok; [done|done|].
  eexists _, _. by apply ahead_range.
Qed.

Lemma wp_parse_data fuel p (Q : result AmlError AmlValue → AmlParser → Prop) : bounded p → (length (bytes p) - cursor p < fuel)%nat →
  data_post p Q → wp (parse_data fuel) Q p.
Proof.
  revert p Q. induction fuel as [|fuel IH]; intros p Q B Hf HQ; [lia|]. pose proof HQ as [He Hok]. cbn [parse_data].
  apply wp_try, wp_read_u8; [done|by apply He, moves_refl|]. intros op Hop B1.
  assert (∀ e p', moves (advance 1 p) p' → Q (Err e) p') as He1 by (intros e p' Hm; by eapply He, moves_advance).
  assert (∀ v, value_ok (bytes p) v → Q (Ok v) (advance 1 p)) as Hok1 by (intros v; by apply Hok).
  do 3 (case_match; [unfold ok; wp_steps; by apply Hok1|]).
  case_match.
  { apply wp_try, wp_read_u8; [done|by apply He1|]. intros v _ B2. unfold ok. wp_steps. rewrite advance_advance in *. by apply Hok; [lia|exact B2|]. }
  do 3 (case_match; [by apply wp_integer|]). case_match; [by apply wp_string|].
  assert (∀ (k : nat → nat → P AmlValue) start, (∀ m len, (2 ≤ m)%nat → bounded (advance m p) → wp (k start len) Q (advance m p)) →
    wp (try len := read_pkg_length in k start len) Q (advance 1 p)) as Hpkg.
  { intros k start Hk. apply wp_try, wp_read_pkg_length; [done|intros p' Hm; by apply He1|]. intros len n Hn Hl.
    rewrite advance_advance. apply Hk; [lia|]. apply bounded_advance. cbn in Hl. lia. }
  assert (∀ m (k : AmlValue → P AmlValue), (2 ≤ m)%nat → bounded (advance m p) →
    (∀ v n, (m ≤ n)%nat → bounded (advance n p) → wp (k v) Q (advance n p)) → wp (try v := parse_data fuel in k v) Q (advance m p)) as Hrec.
  { intros m k Hm Bm Hk. apply wp_try, IH; [done|unfold bounded in Bm; cbn in *; lia|]. split; [intros e p' Hmv; by eapply He, moves_advance|].
    intros v n Hn Hl _. rewrite advance_advance. apply Hk; [lia|]. apply bounded_advance. cbn in Hl. lia. }
  case_match.
  { wp_steps. apply (Hpkg (λ start len, parse_data fuel ;? try data := take_rest start len in ok (ABuffer data))). intros m len Hm Bm.
    apply Hrec; [done|done|]. intros _ n Hn Bn. apply wp_pkg_tail; [done|lia|done]. }
  case_match.
  { wp_steps. apply (Hpkg (λ start len, (if op =? 0x12 then read_u8 ;? ok tt else parse_data fuel ;? ok tt) ;? try data := take_rest start len in ok (ABuffer data))).
    intros m len Hm Bm. destruct (op =? 0x12).
    - do 2 apply wp_try. apply wp_read_u8; [done|by eapply He, moves_advance|]. intros b _ B2. unfold ok. wp_steps. rewrite advance_advance in *.
      apply wp_pkg_tail; [done|lia|done].
    - do 2 apply wp_try. apply IH; [done|unfold bounded in Bm; cbn in *; lia|]. split; [intros e p' Hmv; by eapply He, moves_advance|].
      intros v n Hn Hl _. unfold ok. wp_steps. rewrite advance_advance in *. apply wp_pkg_tail; [apply bounded_advance; cbn in Hl; lia|lia|done]. }
  case_match; [by apply wp_name_ref|]. case_match; [|unfold ok; wp_steps; by apply Hok1].
  apply wp_try, wp_read_u8; [done|by apply He1|]. intros v _ B2. unfold ok. wp_steps. rewrite advance_advance in *. by apply Hok; [lia|exact B2|].
Qed.

(** ** Terms *)

(** A term found in [l] that took [n] bytes: the parts it refers to are parts
    of [l], and those it contains take fewer bytes than the term. *)
Definition body_ok (l : list Z) (n : nat) (c : AmlParser) : Prop :=
  cursor c = 0%nat ∧ (∃ a b, get_range l a b = Some (bytes c)) ∧ (length (bytes c) < n)%nat.
Definition term_ok (l : list Z) (n : nat) (t : AmlTerm) : Prop :=
  match t with
  | TScope _ c | TDevice _ c => body_ok l n c
  | TName _ v => value_ok l v
  | TMethod _ _ code => ∃ a b, get_range l a b = Some code
  | _ => True
  end.

(** What a parser that has already read [m] bytes of a term has to end in. *)
Definition term_post (m : nat) p (Q : result AmlError (option AmlTerm) → AmlParser → Prop) : Prop :=
  (∀ e p', moves (advance m p) p' → Q (Err e) p') ∧
  (∀ t n, (m ≤ n)%nat → (cursor p + n ≤ length (bytes p))%nat → term_ok (bytes p) n t → Q (Ok (Some t)) (advance n p)).

Lemma term_post_weaken m n p Q : (m ≤ n)%nat → term_post m p Q → term_post n p Q.
Proof.
  intros Hmn [He Hok]. split.
  - intros e p' (E & Hc & Hb). apply He. split_and!; [done| |done]. cbn in *. lia.
  - intros t k Hk. apply Hok. lia.
Qed.

Section terms.
Context (m : nat) (p : AmlParser) (Q : result AmlError (option AmlTerm) → AmlParser → Prop).
Context (Hm : (1 ≤ m)%nat) (B : bounded (advance m p)) (HQ : term_post m p Q).

Lemma term_err e p' : moves (advance m p) p' → Q (Err e) p'.
Proof. apply HQ. Qed.

(** The steps of the term parsers, at a position [n] bytes into the term. *)
Lemma wp_term_byte n (k : Z → P (option AmlTerm)) : (m ≤ n)%nat → bounded (advance n p) →
  (∀ b, bounded (advance (S n) p) → wp (k b) Q (advance (S n) p)) → wp (try b := read_u8 in k b) Q (advance n p).
Proof.
  intros Hn Bn Hk. apply wp_try, wp_read_u8; [done| |].
  - apply term_err. split_and!; [done|cbn; lia|done].
  - intros b _. rewrite advance_advance. replace (n + 1)%nat with (S n) by lia. apply Hk.
Qed.

Lemma wp_term_pkg n (k : nat → P (option AmlTerm)) : (m ≤ n)%nat → bounded (advance n p) →
  (∀ len i, (n < i)%nat → bounded (advance i p) → wp (k len) Q (advance i p)) → wp (try len := read_pkg_length in k len) Q (advance n p).
Proof.
  intros Hn Bn Hk. apply wp_try, wp_read_pkg_length; [done| |].
  - intros p' (E & Hc & Hb). apply term_err. split_and!; [done| |done]. cbn in *. lia.
  - intros len i Hi Hl. rewrite advance_advance. cbn in Hl. apply Hk; [lia|]. apply bounded_advance. lia.
Qed.

Lemma wp_term_name n (k : AmlNamePath → P (option AmlTerm)) : (m ≤ n)%nat → bounded (advance n p) →
  (∀ nm i, (n < i)%nat → bounded (advance i p) → wp (k nm) Q (advance i p)) → wp (try nm := read_name_path in k nm) Q (advance n p).
Proof.
  intros Hn Bn Hk. apply wp_try, wp_read_name_path; [done| |].
  - intros e p' (E & Hc & Hb). apply term_err. split_and!; [done| |done]. cbn in *. lia.
  - intros i Hi Hl. rewrite advance_advance. cbn in Hl. apply Hk; [lia|]. apply bounded_advance. lia.
Qed.

Lemma wp_term_data n (k : AmlValue → P (option AmlTerm)) : (m ≤ n)%nat → bounded (advance n p) →
  (∀ v i, (n < i)%nat → bounded (advance i p) → value_ok (bytes p) v → wp (k v) Q (advance i p)) →
  wp (try v := parse_data_object in k v) Q (advance n p).
Proof.
  intros Hn Bn Hk. apply wp_try. unfold parse_data_object. wp_steps. apply wp_parse_data; [done|lia|]. split.
  - intros e p' (E & Hc & Hb). apply term_err. split_and!; [done| |done]. cbn in *. lia.
  - intros v i Hi Hl Hv. rewrite advance_advance. cbn in Hl. apply Hk; [lia| |done]. apply bounded_advance. lia.
Qed.

Lemma wp_term_rest n start len (k : list Z → P (option AmlTerm)) : (m ≤ n)%nat → bounded (advance n p) →
  (∀ l i, bounded (advance (n + i) p) → length l = i → (∃ a b, get_range (bytes p) a b = Some l) → wp (k l) Q (advance (n + i) p)) →
  wp (try l := take_rest start len in k l) Q (advance n p).
Proof.
  intros Hn Bn Hk. apply wp_try, wp_take_rest; [done| |].
  - intros e. apply term_err. split_and!; [done|cbn; lia|done].
  - intros i Hi. rewrite advance_advance. pose proof (ahead_range (advance n p) i Hi). apply Hk; [|by apply length_ahead|by eexists _, _].
    apply bounded_advance. cbn in Hi. lia.
Qed.

Lemma wp_term_done n t : (m ≤ n)%nat → bounded (advance n p) → term_ok (bytes p) n t → wp (ok (Some t)) Q (advance n p).
Proof. intros Hn Bn Ht. unfold ok. wp_steps. by apply HQ. Qed.

Lemma wp_parse_scope n mk : (m ≤ n)%nat → bounded (advance n p) → (∀ nm c n, body_ok (bytes p) n c → term_ok (bytes p) n (mk nm c)) →
  wp (parse_scope mk) Q (advance n p).
Proof.
  intros Hn Bn Hmk. unfold parse_scope. wp_steps. apply wp_term_pkg; [done|done|]. intros len i Hi Bi. apply wp_term_name; [lia|done|]. intros nm j Hj Bj.
  apply wp_term_rest; [lia|done|]. intros l k Bk Hl Hr. apply wp_term_done; [lia|done|]. apply Hmk. split_and!; [done|done|cbn; lia].
Qed.

Lemma wp_parse_method : wp parse_method Q (advance m p).
Proof.
  unfold parse_method. wp_steps. apply wp_term_pkg; [done|done|]. intros len i Hi Bi. apply wp_term_name; [lia|done|]. intros nm j Hj Bj.
  apply wp_term_byte; [lia|done|]. intros b Bb. apply wp_term_rest; [lia|done|]. intros l k Bk Hl Hr. by apply wp_term_done; [lia| |].
Qed.

Lemma wp_parse_ext : wp parse_ext Q (advance m p).
Proof.
  unfold parse_ext. apply wp_term_byte; [done|done|]. intros op Bo. case_match; [|case_match; [|case_match]].
  - unfold parse_op_region. apply wp_term_name; [lia|done|]. intros nm i Hi Bi. apply wp_term_byte; [lia|done|]. intros b Bb.
    apply wp_term_data; [lia|done|]. intros v1 j Hj Bj _. apply wp_term_data; [lia|done|]. intros v2 k Hk Bk _. by apply wp_term_done; [lia| |].
  - unfold parse_field. wp_steps. apply wp_term_pkg; [lia|done|]. intros len i Hi Bi. apply wp_term_name; [lia|done|]. intros nm j Hj Bj.
    apply wp_term_byte; [lia|done|]. intros b Bb. apply wp_term_rest; [lia|done|]. intros l k Bk Hl Hr. by apply wp_term_done; [lia| |].
  - by apply wp_parse_scope; [lia| |].
  - by apply wp_term_done; [lia| |].
Qed.
End terms.

Lemma wp_parse_next p (Q : result AmlError (option AmlTerm) → AmlParser → Prop) : bounded p →
  (cursor p = length (bytes p) → Q (Ok None) p) →
  (∀ e p', moves p p' → (cursor p < cursor p')%nat → Q (Err e) p') →
  (∀ t n, (1 ≤ n)%nat → (cursor p + n ≤ length (bytes p))%nat → term_ok (bytes p) n t → Q (Ok (Some t)) (advance n p)) →
  wp parse_next Q p.
Proof.
  intros B Hn He Hok. unfold parse_next, is_empty. wp_steps. unfold bounded in B.
  destruct (Nat.leb_spec (length (bytes p)) (cursor p)); [unfold ok; wp_steps; apply Hn; lia|].
  apply wp_try, wp_read_some; [done|].
  intros op _ B1. assert (term_post 1 p Q) as HQ.
  { split; [|done]. intros e p' Hm. apply He; [by eapply moves_advance|]. destruct Hm as (_ & Hc & _). cbn in Hc. lia. }
  case_match; [by apply wp_parse_scope with (m := 1%nat)|]. case_match.
  { apply wp_term_name with (m := 1%nat); [done|done|lia|done|]. intros nm i Hi Bi. apply wp_term_data with (m := 1%nat); [done|done|lia|done|].
    intros v j Hj Bj Hv. by apply wp_term_done with (m := 1%nat); [|lia| |]. }
  case_match; [by apply wp_parse_method|]. case_match; [by apply wp_parse_ext with (m := 1%nat)|]. by apply wp_term_done with (m := 1%nat).
Qed.

(** ** Sequences of terms *)

(** The bytes a term needs at least. *)
Definition term_size (t : AmlTerm) : nat :=
  match t with TScope _ c | TDevice _ c => S (length (bytes c)) | _ => 1 end.
Definition terms_size (ts : list AmlTerm) : nat := sum_list_with term_size ts.

Definition term_in (l : list Z) (t : AmlTerm) : Prop := ∃ n, term_ok l n t.

Lemma term_ok_size l n t : (1 ≤ n)%nat → term_ok l n t → (term_size t ≤ n)%nat.
Proof. destruct t; cbn; try lia; intros _ (_ & _ & ?); lia. Qed.

Lemma wp_collect_loop fuel p (Q : result AmlError (list AmlTerm) → AmlParser → Prop) : bounded p →
  (length (bytes p) - cursor p < fuel)%nat → (∀ e p', moves p p' → Q (Err e) p') →
  (∀ ts p', moves p p' → cursor p' = length (bytes p) → (terms_size ts ≤ length (bytes p) - cursor p)%nat → Forall (term_in (bytes p)) ts →
     Q (Ok ts) p') → wp (collect_loop fuel) Q p.
Proof.
  revert p Q. induction fuel as [|fuel IH]; intros p Q B Hf He Hok; [lia|]. cbn [collect_loop].
  apply wp_try, wp_parse_next; [done| | |].
  - intros Hend. unfold ok. wp_steps. apply Hok; [done|done|cbn; lia|done].
  - intros e p' Hm _. by apply He.
  - intros t n Hn Hl Ht. apply wp_try, IH; [by apply bounded_advance|cbn; lia| |].
    + intros e p' Hm. by eapply He, moves_advance.
    + intros ts p' Hm Hend Hs Hts. unfold ok. wp_steps. apply Hok; [by eapply moves_advance|done| |].
      * pose proof (term_ok_size _ _ _ Hn Ht). unfold terms_size in *. cbn [sum_list_with]. cbn [bytes cursor advance] in Hs. lia.
      * constructor; [by exists n|done].
Qed.

Lemma wp_collect_terms p (Q : result AmlError (list AmlTerm) → AmlParser → Prop) : bounded p →
  (∀ e p', moves p p' → Q (Err e) p') →
  (∀ ts p', moves p p' → cursor p' = length (bytes p) → (terms_size ts ≤ length (bytes p) - cursor p)%nat → Forall (term_in (bytes p)) ts →
     Q (Ok ts) p') → wp collect_terms Q p.
Proof. intros B He Hok. unfold collect_terms. wp_steps. apply wp_collect_loop; [done|lia|done|done]. Qed.

(** ** Resource templates *)

Lemma crs_next_some l chunk l' : crs_next l = Some (chunk, l') → l = chunk ++ l' ∧ chunk ≠ [].
Proof.
  unfold crs_next. destruct l as [|tag rest]; [done|]. destruct (tag =? 0x79); [done|].
  destruct (if Z.land tag 128 =? 0 then _ else _) as [[len ds]|] eqn:E0; [|done]. cbn.
  destruct (get_range (tag :: rest) 0 (ds + len)) as [k|] eqn:E; [|done]. cbn. intros [= <- <-].
  assert (1 ≤ ds)%nat as Hds by (destruct (Z.land tag 128 =? 0); [by simplify_eq|destruct (get_range rest 0 2); by simplify_eq/=; lia]).
  unfold get_range in E. case_decide; [|done]. rewrite drop_0, Nat.sub_0_r in E. injection E as <-. split; [by rewrite take_drop|].
  destruct (ds + len)%nat eqn:En; [lia|done].
Qed.

Lemma crs_loop_total fuel l : (length l < fuel)%nat → ∃ cs, crs_loop fuel l = Done cs ∧ (∃ rest, l = concat cs ++ rest) ∧ Forall (λ c, c ≠ []) cs.
Proof.
  revert l. induction fuel as [|fuel IH]; intros l Hf; [lia|]. cbn [crs_loop]. destruct (crs_next l) as [[c l']|] eqn:E.
  - apply crs_next_some in E as [-> Hc]. rewrite length_app in Hf. assert (1 ≤ length c)%nat by (destruct c; cbn; [done|lia]).
    destruct (IH l' ltac:(lia)) as (cs & -> & [rest ->] & Hall). exists (c :: cs). split; [done|].
    split; [exists rest; cbn; by rewrite app_assoc|by constructor].
  - exists []. split; [done|]. split; [by exists l|done].
Qed.

Lemma crs_iter_total l : ∃ cs, crs_iter l = Done cs ∧ (∃ rest, l = concat cs ++ rest) ∧ Forall (λ c, c ≠ []) cs.
Proof. apply crs_loop_total. lia. Qed.
