(* ===== verification/AmlDevice.v ===== *)
(** * From AML to devices

    Models [kernel/drivers/acpi-aml/src/device.rs]: the properties of a
    device term and the construction of the device arena from a list of
    terms.  [process_terms] and the fold over the terms of a device have
    fuel; the fuel given by the definitions is enough for every input
    ([process_terms_spec] of [AmlTheorems]). *)

From S2P Require Import Prelude Bytes Device Aml AmlProofs.

(** ** Properties of a device *)

Record DeviceProperties := {
  hid : option str;
  cids : list str;
  uid : option Z;
  dev_resources : list Resource;
  sub_terms : list AmlTerm
}.

Definition no_properties : DeviceProperties :=
  {| hid := None; cids := []; uid := None; dev_resources := []; sub_terms := [] |}.

Definition set_hid h a := {| hid := h; cids := cids a; uid := uid a; dev_resources := dev_resources a; sub_terms := sub_terms a |}.
Definition add_cids c a := {| hid := hid a; cids := cids a ++ c; uid := uid a; dev_resources := dev_resources a; sub_terms := sub_terms a |}.
Definition set_uid u a := {| hid := hid a; cids := cids a; uid := u; dev_resources := dev_resources a; sub_terms := sub_terms a |}.
Definition add_resources r a := {| hid := hid a; cids := cids a; uid := uid a; dev_resources := dev_resources a ++ r; sub_terms := sub_terms a |}.
Definition push_term t a := {| hid := hid a; cids := cids a; uid := uid a; dev_resources := dev_resources a; sub_terms := sub_terms a ++ [t] |}.

(** [CrsIter(buf).flat_map(|chunk| chunk.into_rss())] *)
Fixpoint chunk_resources {S} (cs : list (list Z)) : M S (list Resource) :=
  match cs with
  | [] => ret []
  | c :: cs' => let* r := into_rss c in let* rs := chunk_resources cs' in ret (r ++ rs)
  end.
Definition crs_resources {S} (buf : list Z) : M S (list Resource) := λ s,
  match crs_iter buf with Done cs => chunk_resources cs s | Fault f => Fault f end.

Definition HID : str := ascii "_HID"%string.
Definition CID : str := ascii "_CID"%string.
Definition UID : str := ascii "_UID"%string.
Definition CRS : str := ascii "_CRS"%string.

(** The closure of the fold in [from_aml]. *)
Definition add_term {S} (t : AmlTerm) (acc : DeviceProperties) : M S DeviceProperties :=
  match t with
  | TName name value =>
      let name_str := name_to_string name in
      if ends_with name_str HID then ret (set_hid (as_string value) acc)
      else if ends_with name_str CID then
        match value with
        | APackage pkgs => ret (add_cids (omap as_string pkgs) acc)
        | _ => ret (add_cids (option_list (as_string value)) acc)
        end
      else if ends_with name_str UID then ret (set_uid (as_u64 value) acc)
      else if ends_with name_str CRS then
        match value with
        | ABuffer buf => let* rs := crs_resources buf in ret (add_resources rs acc)
        | _ => ret acc
        end
      else ret (push_term (TName name value) acc)
  | other => ret (push_term other acc)
  end.

(** The fold goes on to the end of the terms also after an error. *)
Fixpoint fold_loop (fuel : nat) (acc : result AmlError DeviceProperties) : P DeviceProperties :=
  match fuel with
  | O => fail OutOfFuel
  | S fuel' =>
      let* term_res := parse_next in
      match term_res with
      | Ok None => ret acc
      | Ok (Some t) =>
          match acc with
          | Ok a => let* a' := add_term t a in fold_loop fuel' (Ok a')
          | Err e => fold_loop fuel' (Err e)
          end
      | Err e => fold_loop fuel' (match acc with Ok _ => Err e | Err e0 => Err e0 end)
      end
  end.
Definition from_aml : P DeviceProperties :=
  let* p := get in fold_loop (S (length (bytes p))) (Ok no_properties).

Definition ARMH0011 : str := ascii "ARMH0011"%string.
Definition PNP0A08 : str := ascii "PNP0A08"%string.
Definition PNP0A03 : str := ascii "PNP0A03"%string.

Definition classify (a : DeviceProperties) : DeviceClass * DeviceInitPriority :=
  let id := match hid a with Some h => h | None => default [] (head (cids a)) end in
  if decide (id = ARMH0011) then (Uart, Regular)
  else if decide (id = PNP0A08 ∨ id = PNP0A03) then (PciHostBridge, Regular)
  else (Other, Regular).

(** ** The builder *)

Record TreeBuilder := { tree : DeviceTree; scope_map : gmap str DeviceId }.

Definition builder_new (t : DeviceTree) : TreeBuilder := {| tree := t; scope_map := ∅ |}.

Definition join_path (par child : str) : str :=
  if starts_with child [92] then child
  else if decide (par = [] ∨ par = [92]) then [92] ++ trim_start 46 child
  else par ++ [46] ++ trim_start 46 child.

(** A computation on a parser of its own. *)
Definition run_parser {S X} (c : P X) (p : AmlParser) : M S (result AmlError X) := λ s,
  match c p with Done (r, _) => Done (r, s) | Fault f => Fault f end.

(** [self.tree.add_device(..)] *)
Definition builder_add (par : option DeviceId) cl comp res prio : M TreeBuilder DeviceId := λ b,
  match add_device par cl comp res prio (tree b) with
  | Done (id, t) => Done (id, {| tree := t; scope_map := scope_map b |})
  | Fault f => Fault f
  end.

Fixpoint process_loop (fuel : nat) (terms : list AmlTerm) (current_path : str) (parent_id : option DeviceId) :
    M TreeBuilder (result AmlError unit) :=
  match fuel with
  | O => fail OutOfFuel
  | S fuel' =>
      match terms with
      | [] => ret (Ok tt)
      | term :: terms' =>
          match term with
          | TScope name contents =>
              let path := join_path current_path (name_to_string name) in
              let* b := get in
              let target_parent := match scope_map b !! path with Some id => Some id | None => parent_id end in
              try sub := run_parser collect_terms contents in
              process_loop fuel' sub path target_parent
          | TDevice name contents =>
              let path := join_path current_path (name_to_string name) in
              try props := run_parser from_aml contents in
              let '(cl, prio) := classify props in
              let* dev_id := builder_add parent_id cl (option_list (hid props) ++ cids props) (dev_resources props) prio in
              modify (λ b, {| tree := tree b; scope_map := <[path := dev_id]> (scope_map b) |}) ;;
              process_loop fuel' (sub_terms props) path (Some dev_id)
          | _ => ret (Ok tt)
          end ;?
          process_loop fuel' terms' current_path parent_id
      end
  end.
Definition process_terms (terms : list AmlTerm) : str → option DeviceId → M TreeBuilder (result AmlError unit) :=
  process_loop (S (terms_size terms)) terms.

(** ** Parts of the input *)

Definition part (k l : list Z) : Prop := ∃ a b, get_range l a b = Some k.

Lemma part_split (k l : list Z) : part k l ↔ ∃ pre post, l = pre ++ k ++ post.
Proof.
  split.
  - intros (a & b & E). unfold get_range in E. case_decide as H; [|done]. injection E as <-. exists (take a l), (drop b l).
    rewrite <- (take_drop a l) at 1. f_equal. rewrite <- (take_drop (b - a) (drop a l)) at 1. f_equal. rewrite drop_drop. f_equal. lia.
  - intros (pre & post & ->). eexists _, _. apply get_range_app.
Qed.

Lemma part_trans k l m : part k l → part l m → part k m.
Proof.
  rewrite !part_split. intros (a & b & ->) (c & d & ->). exists (c ++ a), (b ++ d). by rewrite <- !app_assoc.
Qed.

Lemma part_bytes k l : part k l → bytes_ok l → bytes_ok k.
Proof. rewrite part_split. intros (a & b & ->). rewrite !Forall_app. tauto. Qed.

Lemma value_ok_part k l v : part k l → value_ok k v → value_ok l v.
Proof. intros Hp. destruct v; cbn; [done..| | | |done]; intros; intuition (by eapply part_trans). Qed.

Lemma term_in_part k l t : part k l → term_in k t → term_in l t.
Proof.
  intros Hp [n Ht]. exists n. destruct t; cbn in *; try done; [| |by eapply value_ok_part|by eapply part_trans];
    destruct Ht as (H1 & H2 & H3); split_and!; try done; by eapply part_trans.
Qed.

(** ** Runs that may stop with a panic for a reason *)

Definition wpx {S A} (R : Prop) (c : M S A) (Q : A → S → Prop) (s : S) : Prop :=
  match c s with
  | Done (a, s') => Q a s'
  | Fault f => f = Panic ∧ R
  end.

Section wpx.
Context {S : Type} (R : Prop).

Lemma wpx_wp {A} (c : M S A) Q s : wp c Q s → wpx R c Q s.
Proof. unfold wp, wpx. by destruct (c s) as [[a s']|]. Qed.

Lemma wpx_ret {A} (a : A) (Q : A → S → Prop) s : Q a s → wpx R (ret a) Q s.
Proof. done. Qed.

Lemma wpx_bind {A B} (c : M S A) (k : A → M S B) Q s : wpx R c (λ a, wpx R (k a) Q) s → wpx R (bind c k) Q s.
Proof. unfold wpx, bind. by destruct (c s) as [[a s']|]. Qed.

Lemma wpx_mono {A} (c : M S A) (Q Q' : A → S → Prop) s : wpx R c Q s → (∀ a s', Q a s' → Q' a s') → wpx R c Q' s.
Proof. unfold wpx. destruct (c s) as [[a s']|]; naive_solver. Qed.

Lemma wpx_try {E A B} (c : M S (result E A)) (k : A → M S (result E B)) Q s :
  wpx R c (λ r s', match r with Ok a => wpx R (k a) Q s' | Err e => Q (Err e) s' end) s → wpx R (try_ c k) Q s.
Proof. intros Hc. unfold try_. apply wpx_bind. eapply wpx_mono; [exact Hc|]. by intros [a|e] s' Hr. Qed.
End wpx.

Lemma wpx_weaken {S A} (R R' : Prop) (c : M S A) (Q : A → S → Prop) s : (R → R') → wpx R c Q s → wpx R' c Q s.
Proof. unfold wpx. destruct (c s) as [[a s']|]; tauto. Qed.

Ltac wpx_if E := lazymatch goal with |- wpx _ (if ?b then _ else _) _ _ => destruct b eqn:E end.

(** ** Resources *)

(** A QWord address space descriptor whose end does not fit in 64 bits. *)
Definition crs_overflow (chunk : list Z) : Prop := ∃ base len, get_range chunk 14 22 = Some base ∧ get_range chunk 38 46 = Some len ∧
  2 ^ 64 ≤ from_le base + from_le len.

Lemma wp_le_at {S} data a n (s : S) Q : (a + n ≤ length data)%nat → Q (from_le (take n (drop a data))) s → wp (le_at data a n) Q s.
Proof.
  intros Hl HQ. unfold le_at. wp_step. apply (wp_expect _ (take n (drop a data))); [|by wp_steps].
  rewrite get_range_ok by lia. do 3 f_equal. lia.
Qed.

Lemma wpx_mmio {S} R base len (s : S) (Q : list Resource → S → Prop) : (∀ rs, Q rs s) → (2 ^ 64 ≤ base + len → R) → wpx R (mmio base len) Q s.
Proof.
  intros HQ HR. unfold mmio. case_match; [|by apply wpx_ret]. apply wpx_bind. unfold wpx, expect, checked_add.
  destruct (Z.ltb_spec (base + len) (2 ^ 64)); [apply HQ|auto].
Qed.

Lemma from_le_4 data a : bytes_ok data → (a + 4 ≤ length data)%nat → 0 ≤ from_le (take 4 (drop a data)) < 2 ^ 32.
Proof.
  intros Hb Hl. pose proof (from_le_range _ (Forall_take _ 4 _ (Forall_drop _ a _ Hb))) as H.
  rewrite length_take, length_drop in H. by rewrite Nat.min_l in H by lia.
Qed.

Lemma wpx_into_rss {S} chunk (s : S) : bytes_ok chunk → chunk ≠ [] → wpx (crs_overflow chunk) (into_rss chunk) (λ _ s', s' = s) s.
Proof.
  intros Hb Hne. destruct chunk as [|tag rest]; [done|]. unfold into_rss. apply wpx_bind, wpx_wp, (wp_expect _ tag); [done|]. cbn zeta.
  set (data := default [] (get_from (tag :: rest) _)).
  assert (bytes_ok data) as Hd.
  { unfold data, get_from. destruct (get_range _ _ _) as [k|] eqn:E; [by eapply get_range_bytes|constructor]. }
  assert (∀ a b : nat, (a + 4 ≤ length data)%nat → (b + 4 ≤ length data)%nat →
    wpx (crs_overflow (tag :: rest)) (let* base := le_at data a 4 in let* len := le_at data b 4 in mmio base len) (λ _ s', s' = s) s) as H32.
  { intros a b Ha Hbl. apply wpx_bind, wpx_wp, wp_le_at; [done|]. apply wpx_bind, wpx_wp, wp_le_at; [done|]. apply wpx_mmio; [done|].
    intros Hov. pose proof (from_le_4 data a Hd Ha). pose proof (from_le_4 data b Hd Hbl). lia. }
  wpx_if E1; [|wpx_if E2; [|wpx_if E3; [|wpx_if E4; [|wpx_if E5; [|wpx_if E6]]]]].
  - apply andb_true_iff in E1 as [_ Hl%Nat.leb_le]. apply wpx_bind, wpx_wp, wp_le_at; [lia|]. by apply wpx_ret.
  - apply andb_true_iff in E2 as [_ Hl%Nat.leb_le]. apply H32; lia.
  - apply andb_true_iff in E3 as [_ Hl%Nat.leb_le]. apply H32; lia.
  - apply andb_true_iff in E4 as [[_ Hl%Nat.leb_le]%andb_true_iff _]. apply H32; lia.
  - apply andb_true_iff in E5 as [[[Hlg _]%andb_true_iff Hl%Nat.leb_le]%andb_true_iff _].
    apply wpx_bind, wpx_wp, wp_le_at; [lia|]. apply wpx_bind, wpx_wp, wp_le_at; [lia|]. apply wpx_mmio; [done|]. intros Hov.
    unfold data in Hl, Hov. rewrite Hlg in Hl, Hov. unfold get_from, get_range in Hl, Hov. case_decide as Hr; [|cbn in Hl; lia].
    unfold default, id in Hl, Hov. rewrite length_take, length_drop in Hl. rewrite !(take_ge (drop 3 (tag :: rest))) in Hov by (rewrite length_drop; lia). rewrite !drop_drop in Hov.
    eexists _, _. rewrite !get_range_ok by lia. done.
  - apply andb_true_iff in E6 as [_ Hl%Nat.leb_le]. apply wpx_bind. destruct (lookup_lt_is_Some_2 data 1 ltac:(lia)) as [c Hc].
    apply wpx_wp, (wp_expect _ c); [done|]. by apply wpx_ret.
  - by apply wpx_ret.
Qed.

(** Some descriptor of the input overflows. *)
Definition overflow_in (l : list Z) : Prop := ∃ chunk, part chunk l ∧ crs_overflow chunk.

Lemma overflow_part k l : part k l → overflow_in k → overflow_in l.
Proof. intros Hp (c & Hc & Ho). exists c. split; [by eapply part_trans|done]. Qed.

Lemma concat_part (c : list Z) cs l rest : c ∈ cs → l = concat cs ++ rest → part c l.
Proof.
  intros (cs1 & cs2 & ->)%list_elem_of_split ->. apply part_split. exists (concat cs1), (concat cs2 ++ rest).
  rewrite concat_app. cbn. by rewrite <- !app_assoc.
Qed.

Lemma wpx_crs_resources {S} buf (s : S) : bytes_ok buf → wpx (overflow_in buf) (crs_resources buf) (λ _ s', s' = s) s.
Proof.
  intros Hb. unfold wpx, crs_resources. destruct (crs_iter_total buf) as (cs & -> & [rest E] & Hne).
  assert (∀ c, c ∈ cs → part c buf) as Hp by (intros c Hc; by eapply concat_part). clear E. fold (wpx (overflow_in buf) (chunk_resources cs) (λ _ s', s' = s) s).
  induction cs as [|c cs IH]; cbn [chunk_resources]; [by apply wpx_ret|]. apply Forall_cons in Hne as [Hc Hne].
  assert (part c buf) as Hpc by (apply Hp; set_solver). apply wpx_bind. eapply wpx_mono.
  - eapply wpx_weaken; [|apply wpx_into_rss; [by eapply part_bytes|done]]. intros Ho. by exists c.
  - intros r s' ->. apply wpx_bind. eapply wpx_mono; [apply IH; [done|]; intros; apply Hp; set_solver|]. intros rs s' ->. by apply wpx_ret.
Qed.

(** ** The properties of a device *)

(** [L] bytes of terms at most, all of them found in [l]. *)
Definition props_ok (l : list Z) (L : nat) (a : DeviceProperties) : Prop :=
  Forall (term_in l) (sub_terms a) ∧ (terms_size (sub_terms a) ≤ L)%nat.

Lemma push_props l L n t a : props_ok l L a → (1 ≤ n)%nat → term_ok l n t → props_ok l (L + n) (push_term t a).
Proof.
  intros [H1 H2] Hn Ht. split; cbn [sub_terms push_term].
  - apply Forall_app. split; [done|]. constructor; [by exists n|done].
  - unfold terms_size in *. rewrite sum_list_with_app. cbn [sum_list_with]. pose proof (term_ok_size _ _ _ Hn Ht). lia.
Qed.

Lemma wpx_add_term l L n t a (s : AmlParser) : bytes_ok l → props_ok l L a → (1 ≤ n)%nat → term_ok l n t →
  wpx (overflow_in l) (add_term t a) (λ a' s', s' = s ∧ props_ok l (L + n) a') s.
Proof.
  intros Hb Ha Hn Ht. assert (props_ok l (L + n) a) as Ha' by (destruct Ha; split; [done|lia]).
  pose proof (push_props l L n t a Ha Hn Ht) as Hpush. destruct t as [| |name value| | | |]; cbn [add_term]; try (by apply wpx_ret).
  cbn zeta. wpx_if E1; [by apply wpx_ret|]. wpx_if E2; [destruct value; by apply wpx_ret|]. wpx_if E3; [by apply wpx_ret|].
  wpx_if E4; [|by apply wpx_ret]. destruct value as [| | | | | |buf|]; try (by apply wpx_ret). cbn in Ht.
  apply wpx_bind. eapply wpx_mono; [eapply wpx_weaken; [|apply wpx_crs_resources; by eapply part_bytes]|].
  - by apply overflow_part.
  - intros rs s' ->. by apply wpx_ret.
Qed.

Lemma wpx_fold_loop fuel acc p L : bytes_ok (bytes p) → bounded p → (length (bytes p) - cursor p < fuel)%nat →
  (∀ a, acc = Ok a → props_ok (bytes p) L a) → (L + (length (bytes p) - cursor p) ≤ length (bytes p))%nat →
  wpx (overflow_in (bytes p)) (fold_loop fuel acc) (λ r _, ∀ a, r = Ok a → props_ok (bytes p) (length (bytes p)) a) p.
Proof.
  intros Hb. revert acc p L Hb. induction fuel as [|fuel IH]; intros acc p L Hb B Hf Ha HL; [lia|]. cbn [fold_loop]. apply wpx_bind, wpx_wp, wp_parse_next.
  - done.
  - intros _. apply wpx_ret. intros a ->. destruct (Ha a eq_refl). split; [done|lia].
  - intros e p' (Eb & Hc & B') Hlt. assert (cursor p' ≤ length (bytes p))%nat as Hle by (rewrite <- Eb; exact B'). rewrite <- Eb. apply (IH _ p' L); rewrite ?Eb; try done; [lia| |lia]. intros a. destruct acc; [done|]. done.
  - intros t n Hn Hl Ht. destruct acc as [a|e].
    + apply wpx_bind. eapply wpx_mono; [apply (wpx_add_term (bytes p) L n t a); [done|by apply Ha|done|done]|]. intros a' s' [-> Ha'].
      change (bytes p) with (bytes (advance n p)) in *. apply (IH _ (advance n p) (L + n)%nat); try done; cbn in *; [lia| |lia].
      by intros ? [= <-].
    + change (bytes p) with (bytes (advance n p)) in *. apply (IH _ (advance n p) L); try done; cbn in *; lia.
Qed.

Lemma wpx_from_aml l : bytes_ok l → wpx (overflow_in l) from_aml (λ r _, ∀ a, r = Ok a → props_ok l (length l) a) (parser_new l).
Proof.
  intros Hb. unfold from_aml. apply wpx_bind, wpx_wp, wp_get. apply (wpx_fold_loop _ _ (parser_new l) 0); cbn; try done; [unfold bounded; cbn; lia|lia| |lia].
  intros a [= <-]. split; [constructor|cbn; lia].
Qed.

(** ** The device arena *)

Record builder_ok (b : TreeBuilder) : Prop := {
  bo_tree : tree_ok (tree b);
  bo_scope path id : scope_map b !! path = Some id → (id < length (nodes (tree b)))%nat
}.

Definition valid_parent (b : TreeBuilder) (par : option DeviceId) : Prop := ∀ p, par = Some p → (p < length (nodes (tree b)))%nat.

Lemma valid_extends b b' par : tree_extends (tree b) (tree b') → valid_parent b par → valid_parent b' par.
Proof. intros [Hl _] Hv p Hp. specialize (Hv p Hp). lia. Qed.

Lemma wp_builder_add b par cl comp res prio : builder_ok b → valid_parent b par →
  wp (builder_add par cl comp res prio) (λ id b', builder_ok b' ∧ tree_extends (tree b) (tree b') ∧ scope_map b' = scope_map b ∧
    (id < length (nodes (tree b')))%nat) b.
Proof.
  intros [Ht Hs] Hp. unfold wp, builder_add. destruct (add_returns (tree b) par cl comp res prio Hp) as [t' E]. rewrite E. cbn [tree scope_map].
  pose proof (added_length _ _ _ _ _ _ _ Hp E) as Hlen. split_and!; [|by eapply added_extends|done|lia].
  split; cbn [tree scope_map]; [by eapply added_ok|]. intros path id Hid. specialize (Hs path id Hid). lia.
Qed.

Lemma run_collect l c n (b : TreeBuilder) (Q : result AmlError (list AmlTerm) → TreeBuilder → Prop) : body_ok l n c →
  (∀ e, Q (Err e) b) → (∀ ts, (terms_size ts ≤ length (bytes c))%nat → Forall (term_in l) ts → Q (Ok ts) b) →
  wp (run_parser collect_terms c) Q b.
Proof.
  intros (Hc & Hpart & _) He Hok. unfold wp, run_parser.
  assert (wp collect_terms (λ r _, Q r b) c) as W; [|by unfold wp in W; destruct (collect_terms c) as [[r p']|]].
  apply wp_collect_terms; [unfold bounded; lia|intros; apply He|]. intros ts p' _ _ Hs Hts. apply Hok; [lia|].
  eapply Forall_impl; [exact Hts|]. intros t. by apply term_in_part.
Qed.

Lemma run_from_aml l c n (b : TreeBuilder) (Q : result AmlError DeviceProperties → TreeBuilder → Prop) : bytes_ok l → body_ok l n c →
  (∀ e, Q (Err e) b) → (∀ a, props_ok l (length (bytes c)) a → Q (Ok a) b) → wpx (overflow_in l) (run_parser from_aml c) Q b.
Proof.
  intros Hb (Hc & Hpart & _) He Hok. unfold wpx, run_parser.
  replace c with (parser_new (bytes c)) by (destruct c; cbn in *; by subst). pose proof (wpx_from_aml (bytes c) (part_bytes _ _ Hpart Hb)) as W.
  unfold wpx in W. destruct (from_aml (parser_new (bytes c))) as [[r p']|f].
  - destruct r as [a|e]; [|apply He]. destruct (W a eq_refl) as [H1 H2]. apply Hok. split; [|done].
    eapply Forall_impl; [exact H1|]. intros t. by apply term_in_part.
  - destruct W as [-> Ho]. split; [done|]. by eapply overflow_part.
Qed.

Lemma wpx_process_loop fuel l terms path par b : bytes_ok l → Forall (term_in l) terms → (terms_size terms < fuel)%nat → builder_ok b → valid_parent b par →
  wpx (overflow_in l) (process_loop fuel terms path par) (λ _ b', builder_ok b' ∧ tree_extends (tree b) (tree b')) b.
Proof.
  intros Hb. revert terms path par b. induction fuel as [|fuel IH]; intros terms path par b Ht Hf Ho Hv; [lia|]. cbn [process_loop].
  destruct terms as [|t ts]; [apply wpx_ret; split; [done|apply tree_extends_refl]|]. apply Forall_cons in Ht as [Htin Hts].
  unfold terms_size in Hf. cbn [sum_list_with] in Hf. fold (terms_size ts) in Hf.
  assert (1 ≤ term_size t)%nat as H1 by (destruct t; cbn; lia). apply wpx_try.
  apply (wpx_mono _ _ (λ _ b', builder_ok b' ∧ tree_extends (tree b) (tree b'))).
  2:{ intros [[]|e] b' [Ho' He']; [|done]. eapply wpx_mono; [apply IH; [done|lia|done|by eapply valid_extends]|].
      intros r b'' [Ho'' He'']. split; [done|by eapply tree_extends_trans]. }
  assert (builder_ok b ∧ tree_extends (tree b) (tree b)) as Hrefl by (split; [done|apply tree_extends_refl]).
  destruct t as [name c|name c| | | | |]; try (by apply wpx_ret); destruct Htin as [n Hc]; cbn in Hc; cbn [term_size] in *; cbn zeta.
  - apply wpx_bind, wpx_wp, wp_get. apply wpx_try, wpx_wp, (run_collect l c n); [done|done|]. intros sub Hs Hsub.
    apply IH; [done|lia|done|]. intros p. destruct (scope_map b !! _) as [id|] eqn:Eid; [|by apply Hv]. intros [= <-]. by eapply bo_scope.
  - apply wpx_try, (run_from_aml l c n); [done|done|done|]. intros a [Ha1 Ha2]. destruct (classify a) as [cl prio].
    apply wpx_bind, wpx_wp. eapply wp_mono; [by apply wp_builder_add|]. intros id b1 (Ho1 & He1 & Es & Hid).
    apply wpx_bind, wpx_wp, wp_modify. eapply wpx_mono; [apply IH; [done|lia| |by intros p [= <-]]|].
    + destruct Ho1 as [T1 S1]. split; cbn [tree scope_map]; [done|]. intros q id'. rewrite lookup_insert. case_decide; [by intros [= <-]|apply S1].
    + intros r b2 [Ho2 He2]. split; [done|]. by eapply tree_extends_trans.
Qed.
