(* ===== verification/AmlTheorems.v ===== *)
(** * What the AML code promises

    Encoders of the parts of AML that the parser understands, as the ACPI
    specification defines them, and the theorems about parser, names and
    resources: the parser is total, inverts the encoders, and prints names as
    the specification writes them. *)

From S2P Require Import Prelude Bytes Device Aml AmlProofs AmlDevice.

(** ** Reading back what was written *)

(** [c] reads [l] and returns [a], whatever comes before and after. *)
Definition reads {A} (c : P A) (l : list Z) (a : A) : Prop :=
  ∀ p rest, bounded p → drop (cursor p) (bytes p) = l ++ rest → c p = Done (Ok a, advance (length l) p).

Lemma ahead_length (l rest : list Z) p : bounded p → drop (cursor p) (bytes p) = l ++ rest →
  (cursor p + length l + length rest = length (bytes p))%nat.
Proof.
  intros B E. assert (length (drop (cursor p) (bytes p)) = length l + length rest)%nat as El by (rewrite E; apply length_app).
  rewrite length_drop in El. unfold bounded in B. lia.
Qed.

Lemma drop_advance (l rest : list Z) p : bounded p → drop (cursor p) (bytes p) = l ++ rest →
  bounded (advance (length l) p) ∧ drop (cursor (advance (length l) p)) (bytes (advance (length l) p)) = rest.
Proof.
  intros B E. pose proof (ahead_length l rest p B E). split; [apply bounded_advance; lia|]. cbn. rewrite <- drop_drop, E. apply drop_app_length.
Qed.

Lemma reads_ok {A} (a : A) : reads (ok a) [] a.
Proof. intros p rest _ _. cbn. by rewrite advance_0. Qed.

Lemma reads_try {A B} (c : P A) (k : A → P B) l l' a b : reads c l a → reads (k a) l' b → reads (try_ c k) (l ++ l') b.
Proof.
  intros Hc Hk p rest Bp E. rewrite <- app_assoc in E. unfold try_, bind. rewrite (Hc p _ Bp E). destruct (drop_advance _ _ _ Bp E) as [B' E'].
  rewrite (Hk (advance (length l) p) rest B' E'). by rewrite advance_advance, length_app.
Qed.

Lemma reads_map {A B} (c : P A) (f : A → B) l a : reads c l a → reads (try x := c in ok (f x)) l (f a).
Proof. intros Hc. rewrite <- (app_nil_r l). eapply reads_try; [done|apply reads_ok]. Qed.

(** Computations that look at the parser first. *)
Lemma reads_get {A B} (f : AmlParser → B) (k : B → P A) l a : (∀ p, bounded p → (length l ≤ length (bytes p))%nat → reads (k (f p)) l a) →
  reads (let* x := gets f in k x) l a.
Proof. intros Hk p rest Bp E. unfold bind, gets. eapply Hk; [exact Bp| |done|exact E]. pose proof (ahead_length _ _ _ Bp E). lia. Qed.

Lemma reads_u8 b : reads read_u8 [b] b.
Proof.
  intros p rest _ E. unfold read_u8, peek_u8, bind, gets. assert (bytes p !! cursor p = Some b) as ->; [|done].
  rewrite <- (Nat.add_0_r (cursor p)), <- lookup_drop, E. done.
Qed.

Lemma reads_take k : reads (take_bytes (length k)) k k.
Proof.
  intros p rest Bp E. unfold take_bytes, bind, get. pose proof (ahead_length _ _ _ Bp E) as El. rewrite (proj2 (Nat.leb_le _ _)) by lia.
  unfold expect. rewrite get_range_ok by lia. rewrite E. replace (cursor p + length k - cursor p)%nat with (length k) by lia.
  by rewrite take_app_length.
Qed.

Lemma reads_take' n k : length k = n → reads (take_bytes n) k k.
Proof. intros <-. apply reads_take. Qed.

(** ** Package lengths *)

Definition pkg_lead (k : nat) (len : Z) : list Z := (Z.of_nat k * 64 + len mod 16) :: to_le k (len / 16).
Definition encode_pkg_length (len : Z) : list Z :=
  if len <? 2 ^ 6 then [len]
  else if len <? 2 ^ 12 then pkg_lead 1 len
  else if len <? 2 ^ 20 then pkg_lead 2 len
  else pkg_lead 3 len.

Lemma reads_pkg_bytes n i acc x : 0 ≤ i → 0 ≤ acc < 2 ^ (4 + i * 8) → 0 ≤ x < 2 ^ (8 * Z.of_nat n) →
  reads (pkg_bytes n i acc) (to_le n x) (acc + x * 2 ^ (4 + i * 8)).
Proof.
  revert i acc x. induction n as [|n IH]; intros i acc x Hi Hacc Hx; cbn [pkg_bytes to_le].
  - change (2 ^ (8 * Z.of_nat 0)) with 1 in Hx. replace (acc + x * 2 ^ (4 + i * 8)) with acc by lia. apply reads_ok.
  - rewrite pow256_S in Hx. change (x mod 256 :: to_le n (x / 256)) with ([x mod 256] ++ to_le n (x / 256)). eapply reads_try; [apply reads_u8|].
    assert (0 ≤ x mod 256 < 256) as Hm by (by apply Z.mod_pos_bound).
    assert (2 ^ (4 + (i + 1) * 8) = 256 * 2 ^ (4 + i * 8)) as Ep.
    { replace (4 + (i + 1) * 8) with (8 + (4 + i * 8)) by lia. by rewrite Z.pow_add_r by lia. }
    rewrite lor_shiftl_add by lia.
    replace (acc + x * 2 ^ (4 + i * 8)) with ((acc + x mod 256 * 2 ^ (4 + i * 8)) + x / 256 * 2 ^ (4 + (i + 1) * 8)).
    + apply IH; [lia|nia|Z.div_mod_to_equations; lia].
    + rewrite Ep. rewrite (Z.div_mod x 256) at 3 by done. ring.
Qed.

Lemma pkg_lead_ok k len : (1 ≤ k ≤ 3)%nat → 0 ≤ len → len / 16 < 2 ^ (8 * Z.of_nat k) → reads read_pkg_length (pkg_lead k len) (Z.to_nat len).
Proof.
  intros Hk H0 Hlen. unfold read_pkg_length, pkg_lead. set (lead := Z.of_nat k * 64 + len mod 16).
  assert (0 ≤ len mod 16 < 16) as Hm by (by apply Z.mod_pos_bound).
  change (lead :: to_le k (len / 16)) with ([lead] ++ to_le k (len / 16)). eapply reads_try; [apply reads_u8|]. cbn zeta.
  assert (Z.shiftr lead 6 = Z.of_nat k) as -> by (rewrite Z.shiftr_div_pow2 by done; change (2 ^ 6) with 64; unfold lead; Z.div_mod_to_equations; lia).
  rewrite (proj2 (Z.eqb_neq _ _)) by lia. change 0x0F with (Z.ones 4). rewrite Z.land_ones by done. rewrite Nat2Z.id.
  replace (Z.to_nat len) with (Z.to_nat (lead mod 2 ^ 4 + len / 16 * 2 ^ (4 + 0 * 8))).
  - apply reads_map. apply reads_pkg_bytes; [done|by apply Z.mod_pos_bound|]. split; [apply Z.div_pos; lia|done].
  - f_equal. unfold lead. change (2 ^ 4) with 16. change (2 ^ (4 + 0 * 8)) with 16. Z.div_mod_to_equations. lia.
Qed.

Lemma reads_pkg_length len : 0 ≤ len < 2 ^ 28 → reads read_pkg_length (encode_pkg_length len) (Z.to_nat len).
Proof.
  intros Hlen. unfold encode_pkg_length. destruct (Z.ltb_spec len (2 ^ 6)).
  - unfold read_pkg_length. rewrite <- (app_nil_r [len]). eapply reads_try; [apply reads_u8|]. cbn zeta.
    rewrite Z.shiftr_div_pow2, Z.div_small by lia. cbn [Z.eqb]. change 0x3F with (Z.ones 6). rewrite Z.land_ones, Z.mod_small by lia. apply reads_ok.
  - destruct (Z.ltb_spec len (2 ^ 12)); [|destruct (Z.ltb_spec len (2 ^ 20))]; apply pkg_lead_ok; try lia;
      (apply Z.div_lt_upper_bound; [done|]); [change (16 * 2 ^ (8 * Z.of_nat 1)) with (2 ^ 12)|
        change (16 * 2 ^ (8 * Z.of_nat 2)) with (2 ^ 20)|change (16 * 2 ^ (8 * Z.of_nat 3)) with (2 ^ 28)]; lia.
Qed.

(** ** Packages *)

(** The bytes of a package with its length in front, which counts itself. *)
Definition encode_pkg (body : list Z) : list Z :=
  let n := Z.of_nat (length body) in
  (if n + 1 <? 2 ^ 6 then [n + 1]
   else if n + 2 <? 2 ^ 12 then pkg_lead 1 (n + 2)
   else if n + 3 <? 2 ^ 20 then pkg_lead 2 (n + 3)
   else pkg_lead 3 (n + 4)) ++ body.

Lemma encode_pkg_head body : Z.of_nat (length body) + 4 < 2 ^ 28 → ∃ hd, encode_pkg body = hd ++ body ∧
  reads read_pkg_length hd (length hd + length body)%nat.
Proof.
  intros Hlen. unfold encode_pkg. set (n := Z.of_nat (length body)) in *. cbn zeta. eexists. split; [done|].
  assert (∀ k m, m = n + 1 + Z.of_nat k → (1 ≤ k ≤ 3)%nat → m / 16 < 2 ^ (8 * Z.of_nat k) →
    reads read_pkg_length (pkg_lead k m) (length (pkg_lead k m) + length body)%nat) as Hk.
  { intros k m Em Hk Hb. replace (length (pkg_lead k m) + length body)%nat with (Z.to_nat m).
    - apply pkg_lead_ok; [done|lia|done].
    - unfold pkg_lead. cbn [length]. rewrite length_to_le. lia. }
  destruct (Z.ltb_spec (n + 1) (2 ^ 6)).
  - replace (length [(n + 1)%Z] + length body)%nat with (Z.to_nat (n + 1)) by (cbn [length]; lia).
    pose proof (reads_pkg_length (n + 1) ltac:(lia)) as R. unfold encode_pkg_length in R. by rewrite (proj2 (Z.ltb_lt _ _)) in R by lia.
  - destruct (Z.ltb_spec (n + 2) (2 ^ 12)); [|destruct (Z.ltb_spec (n + 3) (2 ^ 20))];
      [apply (Hk 1%nat)|apply (Hk 2%nat)|apply (Hk 3%nat)]; try (unfold n; lia); (apply Z.div_lt_upper_bound; [done|]);
      [change (16 * 2 ^ (8 * Z.of_nat 1)) with (2 ^ 12)|
       change (16 * 2 ^ (8 * Z.of_nat 2)) with (2 ^ 20)|change (16 * 2 ^ (8 * Z.of_nat 3)) with (2 ^ 28)]; lia.
Qed.

(** Reading a package that started [off] bytes ago, at [start]. *)
Definition reads_from {A} (start off : nat) (c : P A) (l : list Z) (a : A) : Prop :=
  ∀ p rest, bounded p → cursor p = (start + off)%nat → drop (cursor p) (bytes p) = l ++ rest → c p = Done (Ok a, advance (length l) p).

Lemma reads_from_try {A B} start off (c : P A) (k : A → P B) l l' a b : reads c l a → reads_from start (off + length l) (k a) l' b →
  reads_from start off (try_ c k) (l ++ l') b.
Proof.
  intros Hc Hk p rest Bp Ec E. rewrite <- app_assoc in E. unfold try_, bind. rewrite (Hc p _ Bp E). destruct (drop_advance _ _ _ Bp E) as [B' E'].
  rewrite (Hk (advance (length l) p) rest B'); [by rewrite advance_advance, length_app|cbn; lia|done].
Qed.

Lemma reads_from_rest {A} start off len data (f : list Z → A) : len = (off + length data)%nat →
  reads_from start off (try l := take_rest start len in ok (f l)) data (f data).
Proof.
  intros -> p rest Bp Ec E. assert (take_rest start (off + length data) p = Done (Ok data, advance (length data) p)) as Et.
  { unfold take_rest, bind, get. rewrite (proj2 (Nat.leb_le _ _)) by lia. replace (off + length data - (cursor p - start))%nat with (length data) by lia.
    by eapply reads_take. }
  unfold try_, bind. rewrite Et. done.
Qed.

Lemma reads_start {A} (k : nat → P A) l a : (∀ start, reads_from start 0 (k start) l a) → reads (let* x := gets cursor in k x) l a.
Proof. intros Hk p rest Bp E. unfold bind, gets. eapply Hk; [done|lia|done]. Qed.

(** A package whose front part [l] is read by [c]. *)
Lemma reads_pkg {A B} (c : P A) l a data (f : A → list Z → B) : reads c l a → Z.of_nat (length (l ++ data)) + 4 < 2 ^ 28 →
  reads (let* start := gets cursor in try len := read_pkg_length in try x := c in try d := take_rest start len in ok (f x d))
    (encode_pkg (l ++ data)) (f a data).
Proof.
  intros Hc Hlen. destruct (encode_pkg_head (l ++ data) Hlen) as (hd & -> & Hr). apply reads_start. intros start.
  eapply reads_from_try; [done|]. eapply reads_from_try; [done|]. apply reads_from_rest. rewrite length_app. lia.
Qed.

(** ** Names *)

Record Name := { n_prefix : list Z; n_segs : list (list Z) }.

Definition name_char (b : Z) : bool := within 65 90 b || (b =? 95).
Definition seg_wf (seg : list Z) : Prop := length seg = 4%nat ∧ Forall (λ b, name_char b = true ∨ within 48 57 b = true) seg ∧
  (∃ b l, seg = b :: l ∧ name_char b = true).
Definition name_wf (n : Name) : Prop :=
  Forall (λ b, b = 92 ∨ b = 94) (n_prefix n) ∧ Forall seg_wf (n_segs n) ∧ (length (n_segs n) < 256)%nat.

Definition encode_segs (segs : list (list Z)) : list Z :=
  match segs with
  | [] => [0]
  | [s] => s
  | [s1; s2] => 0x2E :: s1 ++ s2
  | _ => 0x2F :: Z.of_nat (length segs) :: concat segs
  end.
Definition encode_name (n : Name) : list Z := n_prefix n ++ encode_segs (n_segs n).

Lemma name_char_plain b : name_char b = true → b ≠ 0 ∧ b ≠ 0x2E ∧ b ≠ 0x2F ∧ b ≠ 92 ∧ b ≠ 94 ∧ 65 ≤ b ≤ 95.
Proof. unfold name_char, within. lia. Qed.

Lemma segs_length segs : Forall seg_wf segs → length (concat segs) = (length segs * 4)%nat.
Proof. induction 1 as [|s segs (Hs & _) _ IH]; [done|]. cbn [concat length]. rewrite length_app, IH, Hs. lia. Qed.

Lemma encode_segs_head segs : Forall seg_wf segs → ∃ b l, encode_segs segs = b :: l ∧ b ≠ 92 ∧ b ≠ 94.
Proof.
  intros Hs. destruct segs as [|s [|s2 [|s3 segs]]]; cbn; [by eexists _, _| |by eexists _, _..].
  apply Forall_cons in Hs as [(_ & _ & b & l & -> & Hb%name_char_plain) _]. exists b, l. naive_solver.
Qed.

Lemma reads_segs segs : Forall seg_wf segs → (length segs < 256)%nat → reads read_name_segs (encode_segs segs) tt.
Proof.
  intros Hs Hn. unfold read_name_segs.
  assert (∀ l n, length l = n → reads (take_bytes n ;? ok tt) l tt) as Ht.
  { intros l n Hl. rewrite <- (app_nil_r l). eapply reads_try; [by apply reads_take'|apply reads_ok]. }
  destruct segs as [|s [|s2 [|s3 segs]]].
  - change (encode_segs []) with ([0] ++ []). eapply reads_try; [apply reads_u8|]. apply reads_ok.
  - apply Forall_cons in Hs as [(Hl & _ & b & l & -> & Hb) _]. destruct (name_char_plain b Hb) as (N0 & N1 & N2 & _). cbn in Hl.
    change (encode_segs [b :: l]) with ([b] ++ l). eapply reads_try; [apply reads_u8|].
    rewrite !(proj2 (Z.eqb_neq _ _)) by done. apply Ht. lia.
  - pose proof (segs_length _ Hs) as Hl. cbn in Hl. rewrite app_nil_r in Hl.
    change (encode_segs [s; s2]) with ([0x2E] ++ (s ++ s2)). eapply reads_try; [apply reads_u8|]. by apply Ht.
  - pose proof (segs_length _ Hs) as Hl. set (all := s :: s2 :: s3 :: segs) in *.
    change (encode_segs all) with ([0x2F] ++ [Z.of_nat (length all)] ++ concat all).
    eapply reads_try; [apply reads_u8|]. eapply reads_try; [apply reads_u8|]. rewrite Nat2Z.id. by apply Ht.
Qed.

Lemma skip_prefix_run pre b rest fuel p : Forall (λ b, b = 92 ∨ b = 94) pre → b ≠ 92 → b ≠ 94 →
  drop (cursor p) (bytes p) = pre ++ b :: rest → (length pre < fuel)%nat → skip_prefix fuel p = Done (tt, advance (length pre) p).
Proof.
  intros Hpre Hb1 Hb2. revert p fuel. induction Hpre as [|c pre Hc Hpre IH]; intros p fuel E Hf; (destruct fuel as [|fuel]; [cbn in Hf; lia|]);
    cbn [skip_prefix]; unfold bind, peek_u8, gets.
  - assert (bytes p !! cursor p = Some b) as -> by (rewrite <- (Nat.add_0_r (cursor p)), <- lookup_drop, E; done).
    rewrite !(proj2 (Z.eqb_neq _ _)) by done. cbn. by rewrite advance_0.
  - assert (bytes p !! cursor p = Some c) as -> by (rewrite <- (Nat.add_0_r (cursor p)), <- lookup_drop, E; done).
    assert ((c =? 92) || (c =? 94) = true) as -> by lia. unfold modify. rewrite (IH (advance 1 p) fuel).
    + by rewrite advance_advance.
    + cbn. rewrite <- drop_drop, E. done.
    + cbn in Hf. lia.
Qed.

Lemma reads_name n : name_wf n → reads read_name_path (encode_name n) {| raw := encode_name n |}.
Proof.
  intros (Hp & Hs & Hc) p rest Bp E. destruct (encode_segs_head _ Hs) as (b & l & Eb & Hb1 & Hb2).
  pose proof (ahead_length _ _ _ Bp E) as El. unfold encode_name in *. rewrite <- app_assoc in E.
  unfold read_name_path, bind at 1, get. cbn zeta. unfold bind at 1.
  rewrite (skip_prefix_run (n_prefix n) b (l ++ rest)); [|done|done|done|by rewrite E, Eb|rewrite length_app in El; lia].
  destruct (drop_advance _ _ _ Bp E) as [B1 E1]. unfold try_, bind. rewrite (reads_segs _ Hs Hc _ _ B1 E1). rewrite advance_advance, <- length_app.
  set (w := n_prefix n ++ encode_segs (n_segs n)) in *. cbn [bytes cursor advance]. rewrite get_range_ok by lia.
  rewrite E, app_assoc. fold w. replace (cursor p + length w - cursor p)%nat with (length w) by lia. by rewrite take_app_length.
Qed.

(** Segments are written without trailing underscores and joined by dots. *)
Fixpoint trim_seg (l : list Z) : list Z :=
  match l with
  | [] => []
  | b :: l' => match trim_seg l' with [] => if b =? 95 then [] else [b] | l'' => b :: l'' end
  end.
Definition seg_name (seg : list Z) : list Z := match trim_seg seg with [] => [95] | l => l end.
Fixpoint join_dots (l : list (list Z)) : list Z :=
  match l with
  | [] => []
  | [s] => s
  | s :: l' => s ++ [46] ++ join_dots l'
  end.

Lemma seg_text_name seg : seg_wf seg → seg_text seg = seg_name seg.
Proof.
  intros (Hl & Hc & _). destruct seg as [|a [|b [|c [|d [|]]]]]; try done. clear Hl.
  rewrite !Forall_cons in Hc. destruct Hc as (Ha & Hb & Hc & Hd & _).
  assert (∀ x, name_char x = true ∨ within 48 57 x = true → seg_char x = x) as Hs.
  { intros x Hx. unfold seg_char. assert (within 33 126 x = true) as -> by (unfold name_char, within in *; lia). done. }
  assert (∀ n, seg_char <$> take n [a; b; c; d] = take n [a; b; c; d]) as Hm.
  { intros n. rewrite fmap_take. cbn [fmap list_fmap]. by rewrite !Hs. }
  unfold seg_text, seg_name. rewrite Hm. cbn.
  destruct (Z.eqb_spec d 95), (Z.eqb_spec c 95), (Z.eqb_spec b 95), (Z.eqb_spec a 95); subst; done.
Qed.

Lemma name_segs_text segs pre : Forall seg_wf segs → Forall seg_wf pre →
  name_segs (length segs) (length pre) (concat (pre ++ segs)) =
    match pre, segs with _ :: _, _ :: _ => 46 :: join_dots (seg_name <$> segs) | _, _ => join_dots (seg_name <$> segs) end.
Proof.
  intros Hs. revert pre. induction Hs as [|s segs Hs Hsegs IH]; intros pre Hpre; [by destruct pre|]. cbn [length name_segs].
  assert (get_range (concat (pre ++ s :: segs)) (length pre * 4) (length pre * 4 + 4) = Some s) as ->.
  { rewrite concat_app. cbn [concat]. rewrite <- (segs_length pre Hpre). replace 4%nat with (length s) at 1 by apply Hs. apply get_range_app. }
  replace (pre ++ s :: segs) with ((pre ++ [s]) ++ segs) by (by rewrite <- app_assoc).
  specialize (IH (pre ++ [s])). rewrite length_app, Nat.add_1_r in IH. rewrite IH by (apply Forall_app; split; [done|by constructor]).
  rewrite seg_text_name by done. destruct pre as [|q pre]; cbn [app length Nat.ltb Nat.leb]; destruct segs; cbn [fmap list_fmap join_dots app]; by rewrite ?app_nil_r.
Qed.

Lemma name_prefix_run pre b l : Forall (λ b, b = 92 ∨ b = 94) pre → b ≠ 92 → b ≠ 94 → name_prefix (pre ++ b :: l) = (pre, b :: l).
Proof.
  intros Hpre Hb1 Hb2. induction Hpre as [|c pre Hc Hpre IH]; cbn [app name_prefix].
  - by rewrite !(proj2 (Z.eqb_neq _ _)).
  - assert ((c =? 92) || (c =? 94) = true) as -> by lia. by rewrite IH.
Qed.

Lemma name_to_string_spec n : name_wf n → name_to_string {| raw := encode_name n |} = n_prefix n ++ join_dots (seg_name <$> n_segs n).
Proof.
  intros (Hp & Hs & Hc). destruct (encode_segs_head _ Hs) as (b & l & Eb & Hb1 & Hb2). unfold name_to_string, encode_name. cbn [raw].
  rewrite Eb, name_prefix_run by done. f_equal. pose proof (name_segs_text (n_segs n) [] Hs (Forall_nil_2 _)) as T. cbn [app length] in T.
  destruct (n_segs n) as [|s [|s2 [|s3 segs]]]; cbn [encode_segs] in Eb.
  - injection Eb as <- <-. done.
  - apply Forall_cons in Hs as [(_ & _ & b' & l' & Es & Hn) _]. rewrite Es in Eb. injection Eb as <- <-.
    destruct (name_char_plain _ Hn) as (N0 & N1 & N2 & _). rewrite !(proj2 (Z.eqb_neq _ _)) by done. rewrite <- Es.
    cbn [concat] in T. by rewrite app_nil_r in T.
  - injection Eb as <- <-. cbn [concat] in T. by rewrite app_nil_r in T.
  - injection Eb as <- <-. rewrite Nat2Z.id. exact T.
Qed.

(** ** Values *)

Definition encode_int (v : Z) : list Z :=
  if v <? 2 ^ 8 then 0x0A :: to_le 1 v
  else if v <? 2 ^ 16 then 0x0B :: to_le 2 v
  else if v <? 2 ^ 32 then 0x0C :: to_le 4 v
  else 0x0E :: to_le 8 v.

Definition encode_value (v : AmlValue) : list Z :=
  match v with
  | AZero => [0x00]
  | AOne => [0x01]
  | AOnes => [0xFF]
  | AInteger v => encode_int v
  | AString s => 0x0D :: s ++ [0x00]
  | ANamePath q => raw q
  | ABuffer b => 0x11 :: encode_pkg (encode_int (Z.of_nat (length b)) ++ b)
  | APackage _ => []
  end.

Definition value_wf (v : AmlValue) : Prop :=
  match v with
  | AZero | AOne | AOnes => True
  | AInteger v => 0 ≤ v < 2 ^ 64
  | AString s => utf8_valid s = true ∧ Forall (λ b, b ≠ 0) s
  | ANamePath q => ∃ n, name_wf n ∧ (n_prefix n ≠ [] ∨ n_segs n ≠ []) ∧ raw q = encode_name n
  | ABuffer b => Z.of_nat (length b) + 16 < 2 ^ 28
  | APackage _ => False
  end.

Lemma reads_int v f : 0 ≤ v < 2 ^ 64 → reads (parse_data (S f)) (encode_int v) (AInteger v).
Proof.
  intros Hv. cbn [parse_data]. unfold encode_int.
  destruct (Z.ltb_spec v (2 ^ 8)); [|destruct (Z.ltb_spec v (2 ^ 16)); [|destruct (Z.ltb_spec v (2 ^ 32))]].
  - change (0x0A :: to_le 1 v) with ([0x0A] ++ [v mod 256]). eapply reads_try; [apply reads_u8|]. cbn [Z.eqb Pos.eqb].
    rewrite Z.mod_small by lia. apply reads_map, reads_u8.
  - eapply reads_try with (l := [0x0B]); [apply reads_u8|]. cbn [Z.eqb Pos.eqb]. apply reads_map. unfold read_u16_le.
    rewrite <- (from_to_le 2 v) at 2 by (change (2 ^ (8 * Z.of_nat 2)) with (2 ^ 16); lia). apply reads_map, reads_take', length_to_le.
  - eapply reads_try with (l := [0x0C]); [apply reads_u8|]. cbn [Z.eqb Pos.eqb]. apply reads_map. unfold read_u32_le.
    rewrite <- (from_to_le 4 v) at 2 by (change (2 ^ (8 * Z.of_nat 4)) with (2 ^ 32); lia). apply reads_map, reads_take', length_to_le.
  - eapply reads_try with (l := [0x0E]); [apply reads_u8|]. cbn [Z.eqb Pos.eqb]. apply reads_map. unfold read_u64_le.
    rewrite <- (from_to_le 8 v) at 2 by (change (2 ^ (8 * Z.of_nat 8)) with (2 ^ 64); lia). apply reads_map, reads_take', length_to_le.
Qed.

Lemma skip_string_run s rest fuel p : Forall (λ b, b ≠ 0) s → drop (cursor p) (bytes p) = s ++ 0 :: rest → bounded p → (length s < fuel)%nat →
  skip_string fuel p = Done (Ok tt, advance (S (length s)) p).
Proof.
  intros Hs. revert p fuel. induction Hs as [|b s Hb Hs IH]; intros p fuel E Bp Hf; (destruct fuel as [|fuel]; [cbn in Hf; lia|]); cbn [skip_string].
  - unfold try_, bind. rewrite (reads_u8 0 p rest Bp E). done.
  - unfold try_, bind. rewrite (reads_u8 b p (s ++ 0 :: rest) Bp E). rewrite (proj2 (Z.eqb_neq _ _)) by done.
    destruct (drop_advance [b] (s ++ 0 :: rest) p Bp E) as [B1 E1]. cbn [length] in *. rewrite (IH (advance 1 p) fuel E1 B1); [|lia].
    by rewrite advance_advance.
Qed.

Lemma reads_string s f : utf8_valid s = true → Forall (λ b, b ≠ 0) s → reads (parse_data (S f)) (0x0D :: s ++ [0]) (AString s).
Proof.
  intros Hu Hs. cbn [parse_data]. change (0x0D :: s ++ [0]) with ([0x0D] ++ s ++ [0]). eapply reads_try; [apply reads_u8|]. cbn [Z.eqb Pos.eqb].
  intros p rest Bp E. rewrite <- app_assoc in E. pose proof (ahead_length _ _ _ Bp E) as El. unfold try_, bind, gets, get.
  rewrite (skip_string_run s rest) by (done || lia). cbn [bytes cursor advance]. cbn in El.
  unfold expect. rewrite get_range_ok by lia. replace (cursor p + S (length s) - 1 - cursor p)%nat with (length s) by lia.
  rewrite E, take_app_length, Hu. unfold ok, ret. by rewrite length_app, Nat.add_1_r.
Qed.

Lemma encode_name_head n : name_wf n → (n_prefix n ≠ [] ∨ n_segs n ≠ []) → ∃ b l, encode_name n = b :: l ∧ name_byte b = true.
Proof.
  intros (Hp & Hs & _) Hne. unfold encode_name. destruct (n_prefix n) as [|c pre].
  - destruct Hne as [?|Hne]; [done|]. cbn [app]. destruct (n_segs n) as [|s [|s2 [|s3 segs]]]; [done| |by eexists _, _..].
    apply Forall_cons in Hs as [(_ & _ & b & l & -> & Hb) _]. exists b, l. split; [done|]. unfold name_byte, name_char in *.
    destruct (within 65 90 b), (b =? 95); try done; by rewrite ?orb_true_r.
  - apply Forall_cons in Hp as [Hc _]. eexists _, _. split; [done|]. by destruct Hc as [-> | ->].
Qed.

Lemma name_byte_plain b : name_byte b = true → b ≠ 0 ∧ b ≠ 1 ∧ b ≠ 0xFF ∧ b ≠ 0x0A ∧ b ≠ 0x0B ∧ b ≠ 0x0C ∧ b ≠ 0x0E ∧ b ≠ 0x0D ∧ b ≠ 0x11 ∧ b ≠ 0x12 ∧ b ≠ 0x13.
Proof. unfold name_byte, within. lia. Qed.

Lemma reads_name_ref n f : name_wf n → (n_prefix n ≠ [] ∨ n_segs n ≠ []) →
  reads (parse_data (S f)) (encode_name n) (ANamePath {| raw := encode_name n |}).
Proof.
  intros Hn Hne p rest Bp E. destruct (encode_name_head n Hn Hne) as (b & l & Eb & Hb). cbn [parse_data]. unfold try_ at 1, bind at 1.
  rewrite (reads_u8 b p (l ++ rest)) by (done || by rewrite E, Eb).
  destruct (name_byte_plain b Hb) as (N1 & N2 & N3 & N4 & N5 & N6 & N7 & N8 & N9 & N10 & N11).
  rewrite !(proj2 (Z.eqb_neq _ _)) by done. cbn [orb]. rewrite Hb. unfold bind, modify, try_, bind. cbn [bytes cursor advance length].
  replace {| bytes := bytes p; cursor := cursor p + 1 - 1 |} with p by (destruct p; cbn; f_equal; lia).
  by rewrite (reads_name n Hn p rest Bp E).
Qed.

Lemma length_encode_int v : (length (encode_int v) ≤ 9)%nat.
Proof. unfold encode_int. repeat case_match; cbn [length]; rewrite length_to_le; lia. Qed.

Lemma reads_value v f : value_wf v → reads (parse_data (S (S f))) (encode_value v) v.
Proof.
  destruct v as [| | |v|s|q|b|]; cbn [value_wf encode_value].
  - intros _. eapply (reads_try _ _ [0]); [apply reads_u8|]. apply reads_ok.
  - intros _. eapply (reads_try _ _ [1]); [apply reads_u8|]. apply reads_ok.
  - intros _. eapply (reads_try _ _ [0xFF]); [apply reads_u8|]. apply reads_ok.
  - apply reads_int.
  - intros [H1 H2]. by apply reads_string.
  - intros (n & Hn & Hne & E). destruct q as [r]. cbn in E. subst r. by apply reads_name_ref.
  - intros Hb. cbn [parse_data]. eapply (reads_try _ _ [0x11]); [apply reads_u8|]. cbn [Z.eqb Pos.eqb]. fold parse_data.
    apply (reads_pkg (parse_data (S f)) _ (AInteger (Z.of_nat (length b))) b (λ _ d, ABuffer d)).
    + apply reads_int. lia.
    + rewrite length_app. pose proof (length_encode_int (Z.of_nat (length b))). lia.
  - done.
Qed.

Lemma reads_data v : value_wf v → reads parse_data_object (encode_value v) v.
Proof.
  intros Hv p rest Bp E. unfold parse_data_object, bind, get. pose proof (ahead_length _ _ _ Bp E) as El.
  destruct (length (bytes p)) as [|n] eqn:En; [|by eapply reads_value].
  assert (encode_value v = []) as Ev by (destruct (encode_value v); [done|cbn in El; lia]).
  exfalso. destruct v as [| | |v|s|q|b|]; try done; cbn in Ev.
  - unfold encode_int in Ev. repeat case_match; done.
  - destruct Hv as (n & Hn & Hne & E'). destruct (encode_name_head n Hn Hne) as (b & l & Eb & _). congruence.
Qed.

(** ** Terms *)

Definition encode_term (t : AmlTerm) : list Z :=
  match t with
  | TScope name c => 0x10 :: encode_pkg (raw name ++ bytes c)
  | TDevice name c => 0x5B :: 0x82 :: encode_pkg (raw name ++ bytes c)
  | TName name v => 0x08 :: raw name ++ encode_value v
  | TMethod name flags code => 0x14 :: encode_pkg (raw name ++ [flags] ++ code)
  | _ => []
  end.

Definition name_ok (q : AmlNamePath) : Prop := ∃ n, name_wf n ∧ raw q = encode_name n.
Definition term_wf (t : AmlTerm) : Prop :=
  match t with
  | TScope name c | TDevice name c => name_ok name ∧ cursor c = 0%nat ∧ Z.of_nat (length (raw name ++ bytes c)) + 4 < 2 ^ 28
  | TName name v => name_ok name ∧ value_wf v
  | TMethod name _ code => name_ok name ∧ Z.of_nat (length (raw name ++ code)) + 5 < 2 ^ 28
  | _ => False
  end.

Lemma reads_name_ok q : name_ok q → reads read_name_path (raw q) q.
Proof. intros (n & Hn & E). destruct q as [r]. cbn in *. subst r. by apply reads_name. Qed.

(** [parse_next] before the end of the input. *)
Lemma reads_next op l t : reads (try opcode := read_u8 in
    if opcode =? 0x10 then parse_scope TScope
    else if opcode =? 0x08 then
      try name := read_name_path in try value := parse_data_object in ok (Some (TName name value))
    else if opcode =? 0x14 then parse_method
    else if opcode =? 0x5B then parse_ext
    else ok (Some (TUnsupportedOpcode opcode))) (op :: l) (Some t) →
  reads parse_next (op :: l) (Some t).
Proof.
  intros H p rest Bp E. unfold parse_next, bind at 1, get, is_empty. pose proof (ahead_length _ _ _ Bp E) as El. cbn in El.
  destruct (Nat.leb_spec (length (bytes p)) (cursor p)); [lia|]. by eapply H.
Qed.

Lemma reads_scope mk name c : name_ok name → cursor c = 0%nat → Z.of_nat (length (raw name ++ bytes c)) + 4 < 2 ^ 28 →
  reads (parse_scope mk) (encode_pkg (raw name ++ bytes c)) (Some (mk name c)).
Proof.
  intros Hn Hc Hl. replace c with (parser_new (bytes c)) at 2 by (destruct c; cbn in *; by subst).
  by apply (reads_pkg read_name_path _ name (bytes c) (λ x d, Some (mk x (parser_new d)))); [apply reads_name_ok|].
Qed.

Lemma reads_method name flags code : name_ok name → Z.of_nat (length (raw name ++ code)) + 5 < 2 ^ 28 →
  reads parse_method (encode_pkg (raw name ++ [flags] ++ code)) (Some (TMethod name flags code)).
Proof.
  intros Hn Hl. destruct (encode_pkg_head (raw name ++ [flags] ++ code)) as (hd & -> & Hr); [rewrite !length_app in *; cbn [length]; lia|].
  unfold parse_method. apply reads_start. intros start. eapply reads_from_try; [done|]. eapply reads_from_try; [by apply reads_name_ok|].
  eapply reads_from_try; [apply reads_u8|]. apply (reads_from_rest _ _ _ code (λ d, Some (TMethod name flags d))).
  rewrite !length_app. cbn [length]. lia.
Qed.

Lemma reads_term t : term_wf t → reads parse_next (encode_term t) (Some t).
Proof.
  intros Ht. destruct t as [name c|name c|name v|name flags code| | |]; try done; cbn [encode_term term_wf] in *; apply reads_next;
    (eapply (reads_try _ _ [_]); [apply reads_u8|]); cbn [Z.eqb Pos.eqb].
  - destruct Ht as (Hn & Hc & Hl). by apply reads_scope.
  - destruct Ht as (Hn & Hc & Hl). eapply (reads_try _ _ [0x82]); [apply reads_u8|]. by apply reads_scope.
  - destruct Ht as (Hn & Hv). eapply reads_try; [by apply reads_name_ok|]. apply (reads_map parse_data_object (λ v, Some (TName name v))). by apply reads_data.
  - destruct Ht as (Hn & Hl). by apply reads_method.
Qed.

Lemma encode_term_cons t : term_wf t → encode_term t ≠ [].
Proof. by destruct t. Qed.

Lemma collect_run ts fuel p : Forall term_wf ts → bounded p → drop (cursor p) (bytes p) = concat (encode_term <$> ts) →
  (length (bytes p) - cursor p < fuel)%nat →
  collect_loop fuel p = Done (Ok ts, advance (length (concat (encode_term <$> ts))) p).
Proof.
  intros Hts. revert fuel p. induction Hts as [|t ts Ht Hts IH]; intros fuel p Bp E Hf; (destruct fuel as [|fuel]; [lia|]); cbn [collect_loop].
  - cbn in E. assert (length (drop (cursor p) (bytes p)) = 0)%nat as El by (by rewrite E). rewrite length_drop in El.
    unfold try_, bind, parse_next, bind at 1, get, is_empty. rewrite (proj2 (Nat.leb_le _ _)) by lia. cbn. by rewrite advance_0.
  - cbn [fmap list_fmap concat] in E |- *. pose proof (ahead_length _ _ _ Bp E) as El.
    assert (length (encode_term t) ≠ 0)%nat by (intros H0%nil_length_inv; by apply (encode_term_cons t)).
    unfold try_, bind. rewrite (reads_term t Ht p _ Bp E). destruct (drop_advance _ _ _ Bp E) as [B1 E1].
    unfold try_, bind. rewrite (IH fuel _ B1 E1); [|cbn; lia]. unfold ok, ret. by rewrite advance_advance, length_app.
Qed.

(** ** Resource templates *)

(** The descriptors that [into_rss] knows. *)
Inductive Desc :=
| DIrq (mask : Z)
| DMemory32 (rw min max align len : Z)
| DMemory32Fixed (rw base len : Z)
| DDWord (ty gf tf gran min max tra len : Z)
| DQWord (ty gf tf gran min max tra len : Z)
| DExtIrq (flags : Z) (irqs : list Z).

Definition large (ty : Z) (data : list Z) : list Z := [0x80 + ty] ++ to_le 2 (Z.of_nat (length data)) ++ data.
Definition encode_desc (d : Desc) : list Z :=
  match d with
  | DIrq mask => 0x22 :: to_le 2 mask
  | DMemory32 rw min max align len => large 0x05 ([rw] ++ to_le 4 min ++ to_le 4 max ++ to_le 4 align ++ to_le 4 len)
  | DMemory32Fixed rw base len => large 0x06 ([rw] ++ to_le 4 base ++ to_le 4 len)
  | DDWord ty gf tf gran min max tra len =>
      large 0x07 ([ty; gf; tf] ++ to_le 4 gran ++ to_le 4 min ++ to_le 4 max ++ to_le 4 tra ++ to_le 4 len)
  | DQWord ty gf tf gran min max tra len =>
      large 0x0A ([ty; gf; tf] ++ to_le 8 gran ++ to_le 8 min ++ to_le 8 max ++ to_le 8 tra ++ to_le 8 len)
  | DExtIrq flags irqs => large 0x09 ([flags; Z.of_nat (length irqs)] ++ concat (to_le 4 <$> irqs))
  end.

Definition u32 (x : Z) : Prop := 0 ≤ x < 2 ^ 32.
Definition u64 (x : Z) : Prop := 0 ≤ x < 2 ^ 64.
Definition desc_wf (d : Desc) : Prop :=
  match d with
  | DIrq mask => 0 ≤ mask < 2 ^ 16
  | DMemory32 _ min _ _ len => u32 min ∧ u32 len
  | DMemory32Fixed _ base len => u32 base ∧ u32 len
  | DDWord _ _ _ _ min _ _ len => u32 min ∧ u32 len
  | DQWord _ _ _ _ min _ _ len => u64 min ∧ u64 len ∧ u64 (min + len)
  | DExtIrq _ irqs => Forall u32 irqs ∧ (length irqs < 256)%nat
  end.

Definition range_resource (base len : Z) : list Resource := if 0 <? len then [Mmio base (base + len)] else [].
Definition desc_resources (d : Desc) : list Resource :=
  match d with
  | DIrq mask => Irq <$> filter (λ i, Z.testbit mask i = true) (seqZ 0 16)
  | DMemory32 _ min _ _ len => range_resource min len
  | DMemory32Fixed _ base len => range_resource base len
  | DDWord ty _ _ _ min _ _ len => if ty =? 0 then range_resource min len else []
  | DQWord ty _ _ _ min _ _ len => if ty =? 0 then range_resource min len else []
  | DExtIrq _ irqs => Irq <$> irqs
  end.

Lemma crs_next_large ty data rest : 0 ≤ ty < 16 → Z.of_nat (length data) < 2 ^ 16 → crs_next (large ty data ++ rest) = Some (large ty data, rest).
Proof.
  intros Hty Hl. unfold crs_next. cbn [large app]. rewrite (proj2 (Z.eqb_neq (128 + ty) 0x79)) by lia.
  assert ((Z.land (128 + ty) 128 =? 0) = false) as ->.
  { apply Z.eqb_neq. intros H0. assert (Z.testbit (Z.land (128 + ty) 128) 7 = true) as Hb; [|by rewrite H0 in Hb].
    rewrite Z.land_spec. apply andb_true_iff. split; [|done]. rewrite Z.testbit_true by done. change (2 ^ 7) with 128. Z.div_mod_to_equations. lia. }
  set (t2 := to_le 2 (Z.of_nat (length data))). assert (length t2 = 2%nat) as Ht by apply length_to_le.
  assert (get_range ((t2 ++ data) ++ rest) 0 2 = Some t2) as ->.
  { rewrite <- app_assoc, <- Ht. apply (get_range_app []). }
  cbn [mbind option_bind]. unfold t2. rewrite from_to_le by (change (2 ^ (8 * Z.of_nat 2)) with (2 ^ 16); lia). fold t2. rewrite Nat2Z.id.
  change ((128 + ty) :: (t2 ++ data) ++ rest) with (([128 + ty] ++ t2 ++ data) ++ rest).
  replace (3 + length data)%nat with (length ([128 + ty] ++ t2 ++ data)) by (rewrite !length_app, Ht; done).
  set (c := [128 + ty] ++ t2 ++ data). rewrite (get_range_app [] c rest : get_range (c ++ rest) 0 (length c) = _). cbn [mbind option_bind].
  by rewrite drop_app_length.
Qed.

Lemma crs_next_irq mask rest : crs_next ((0x22 :: to_le 2 mask) ++ rest) = Some (0x22 :: to_le 2 mask, rest).
Proof. done. Qed.

Lemma length_irqs irqs : length (concat (to_le 4 <$> irqs)) = (4 * length irqs)%nat.
Proof. induction irqs as [|i irqs IH]; [done|]. cbn [fmap list_fmap concat length]. rewrite length_app, length_to_le, IH. lia. Qed.

Lemma crs_next_desc d rest : desc_wf d → crs_next (encode_desc d ++ rest) = Some (encode_desc d, rest).
Proof.
  destruct d; intros Hd; [apply crs_next_irq|..]; (apply crs_next_large; [done|]); try done.
  destruct Hd as [_ Hn]. rewrite length_app, length_irqs. cbn [length]. lia.
Qed.

Lemma crs_loop_descs ds tail fuel : Forall desc_wf ds → (length ds < fuel)%nat → crs_loop fuel (concat (encode_desc <$> ds) ++ 0x79 :: tail) = Done (encode_desc <$> ds).
Proof.
  intros Hds. revert fuel. induction Hds as [|d ds Hd Hds IH]; intros fuel Hf; (destruct fuel as [|fuel]; [cbn in Hf; lia|]); cbn [crs_loop].
  - done.
  - cbn [fmap list_fmap concat]. rewrite <- app_assoc, crs_next_desc by done. rewrite IH; [done|]. cbn in Hf. lia.
Qed.

Lemma get_from_large ty data : get_from (large ty data) 3 = Some data.
Proof.
  unfold get_from. assert (length (large ty data) = 3 + length data)%nat as El by (unfold large; rewrite !length_app, length_to_le; done).
  rewrite get_range_ok by lia. rewrite El. f_equal. unfold large. cbn [app to_le drop]. apply take_ge. lia.
Qed.

Lemma mmio_ok {S} base len (s : S) : 0 ≤ base → 0 ≤ len → base + len < 2 ^ 64 → mmio base len s = Done (range_resource base len, s).
Proof.
  intros Hb Hl Hs. unfold mmio, range_resource. destruct (0 <? len); [|done]. unfold bind, expect, checked_add.
  by rewrite (proj2 (Z.ltb_lt _ _)) by lia.
Qed.

(** A range read from [data]. *)
Lemma mmio_at {S} data a b n base len (s : S) : get_range data a (a + n) = Some (to_le n base) → get_range data b (b + n) = Some (to_le n len) →
  0 ≤ base < 2 ^ (8 * Z.of_nat n) → 0 ≤ len < 2 ^ (8 * Z.of_nat n) → base + len < 2 ^ 64 →
  (let* base := le_at data a n in let* len := le_at data b n in mmio base len) s = Done (range_resource base len, s).
Proof.
  intros E1 E2 Hb Hl Hs. unfold le_at, bind. rewrite E1, E2. unfold expect, ret. rewrite !from_to_le by done. apply mmio_ok; lia.
Qed.

Lemma ext_irqs_ok flags c irqs : Forall u32 irqs → ext_irqs ([flags; c] ++ concat (to_le 4 <$> irqs)) (length irqs) = Irq <$> irqs.
Proof.
  intros Hi. unfold ext_irqs. assert (∀ pre k, length pre = (2 + 4 * k)%nat → omap (λ i, Irq ∘ from_le <$> get_range (pre ++ concat (to_le 4 <$> irqs)) (2 + i * 4) (2 + i * 4 + 4))
    (seq k (length irqs)) = Irq <$> irqs) as H; [|by apply (H [flags; c] 0%nat)].
  induction Hi as [|x irqs Hx Hi IH]; intros pre k Hk; [done|]. cbn [length seq omap list_omap fmap list_fmap concat].
  assert (get_range (pre ++ to_le 4 x ++ concat (to_le 4 <$> irqs)) (2 + k * 4) (2 + k * 4 + 4) = Some (to_le 4 x)) as ->.
  { replace (2 + k * 4)%nat with (length pre) by lia. replace 4%nat with (length (to_le 4 x)) at 2 by apply length_to_le. apply get_range_app. }
  cbn [fmap option_fmap option_map]. unfold compose. rewrite from_to_le by done. f_equal.
  rewrite app_assoc. apply IH. rewrite length_app, length_to_le. lia.
Qed.

Lemma irq_mask_ok mask : irq_mask mask = Irq <$> filter (λ i, Z.testbit mask i = true) (seqZ 0 16).
Proof.
  unfold irq_mask. f_equal. apply list_filter_iff. intros i. rewrite Z.shiftl_1_l.
  destruct (decide (i < 0)) as [Hneg|Hpos]; [by rewrite Z.pow_neg_r, Z.land_0_r, Z.testbit_neg_r by done|]. split.
  - intros Hne. destruct (Z.testbit mask i) eqn:E; [done|]. exfalso. apply Hne. apply Z.bits_inj'. intros j Hj. rewrite Z.land_spec, Z.bits_0.
    destruct (decide (j = i)) as [->|Hji]; [by rewrite E|]. by rewrite Z.pow2_bits_false, andb_false_r by lia.
  - intros E H0. assert (Z.testbit (Z.land mask (2 ^ i)) i = true) as Hb; [|by rewrite H0, Z.bits_0 in Hb].
    by rewrite Z.land_spec, E, Z.pow2_bits_true by lia.
Qed.

(** The branch that a large descriptor takes. *)
Lemma into_rss_large {S} ty data (s : S) : 0 ≤ ty < 16 → into_rss (large ty data) s =
  (let long n := (n <=? length data)%nat in
   let plain := match data with b :: _ => b =? 0 | [] => false end in
   if (ty =? 0x05) && long 17%nat then
     let* base := le_at data 1 4 in let* len := le_at data 13 4 in mmio base len
   else if (ty =? 0x06) && long 9%nat then
     let* base := le_at data 1 4 in let* len := le_at data 5 4 in mmio base len
   else if (ty =? 0x07) && long 23%nat && plain then
     let* base := le_at data 7 4 in let* len := le_at data 19 4 in mmio base len
   else if (ty =? 0x0A) && long 43%nat && plain then
     let* base := le_at data 11 8 in let* len := le_at data 35 8 in mmio base len
   else if (ty =? 0x09) && long 2%nat then
     let* count := expect (data !! 1%nat) in ret (ext_irqs data (Z.to_nat count))
   else ret []) s.
Proof.
  intros Hty. assert ((Z.land (128 + ty) 128 =? 0) = false ∧ Z.land (128 + ty) 0x7F = ty) as [Ht Ei].
  { assert (ty ∈ seqZ 0 16) as Hin by (apply elem_of_seqZ; lia). cbn in Hin. repeat (apply elem_of_cons in Hin as [->|Hin]; [done|]). by apply not_elem_of_nil in Hin. }
  unfold into_rss, bind at 1. change (large ty data !! 0%nat) with (Some (128 + ty)). cbn [expect]. cbn zeta. rewrite Ht. cbn [negb andb].
  rewrite Ei, get_from_large. done.
Qed.

Lemma into_rss_desc {S} d (s : S) : desc_wf d → into_rss (encode_desc d) s = Done (desc_resources d, s).
Proof.
  destruct d as [mask|rw min max align len|rw base len|ty gf tf gran min max tra len|ty gf tf gran min max tra len|flags irqs]; intros Hd;
    cbn [encode_desc desc_wf desc_resources] in *; [|rewrite into_rss_large by done; cbn zeta..].
  - assert (into_rss (0x22 :: to_le 2 mask) s = (let* m := le_at (to_le 2 mask) 0 2 in ret (irq_mask m)) s) as -> by done.
    unfold le_at, bind. assert (get_range (to_le 2 mask) 0 (0 + 2) = Some (to_le 2 mask)) as -> by done. cbn [expect ret].
    unfold ret. rewrite from_to_le by done. by rewrite irq_mask_ok.
  - destruct Hd as [Hb Hl]. unfold u32 in *. cbn [Z.eqb Pos.eqb andb]. apply mmio_at; [done|done|done|done|lia].
  - destruct Hd as [Hb Hl]. unfold u32 in *. cbn [Z.eqb Pos.eqb andb]. apply mmio_at; [done|done|done|done|lia].
  - destruct Hd as [Hb Hl]. unfold u32 in *. cbn [Z.eqb Pos.eqb andb app]. cbn [length to_le app Nat.leb andb]. destruct (ty =? 0); [|done].
    apply (mmio_at ([ty; gf; tf] ++ to_le 4 gran ++ to_le 4 min ++ to_le 4 max ++ to_le 4 tra ++ to_le 4 len) 7 19 4); [done|done|done|done|lia].
  - destruct Hd as (Hb & Hl & Hs). unfold u64 in *. cbn [Z.eqb Pos.eqb andb app]. cbn [length to_le app Nat.leb andb]. destruct (ty =? 0); [|done].
    apply (mmio_at ([ty; gf; tf] ++ to_le 8 gran ++ to_le 8 min ++ to_le 8 max ++ to_le 8 tra ++ to_le 8 len) 11 35 8); [done|done|done|done|lia].
  - destruct Hd as [Hi Hn]. cbn [Z.eqb Pos.eqb andb app length Nat.leb]. unfold bind. cbn [lookup list_lookup expect]. unfold ret. rewrite Nat2Z.id.
    by rewrite <- (ext_irqs_ok flags (Z.of_nat (length irqs)) irqs Hi).
Qed.

Lemma chunk_resources_descs {S} ds (s : S) : Forall desc_wf ds → chunk_resources (encode_desc <$> ds) s = Done (concat (desc_resources <$> ds), s).
Proof.
  induction 1 as [|d ds Hd Hds IH]; [done|]. cbn [fmap list_fmap chunk_resources concat]. unfold bind at 1. rewrite into_rss_desc by done.
  unfold bind. by rewrite IH.
Qed.

(** ** Theorems *)

(** C23: on any input and at any position the parser returns; it never leaves
    its slice, every term and every error costs at least one byte, and the
    parts a term refers to are parts of the slice that are shorter than the
    term.  So the loops over terms end. *)
Theorem parse_next_total p : bounded p → ∃ r p', parse_next p = Done (r, p') ∧ moves p p' ∧
  match r with
  | Ok None => p' = p ∧ cursor p = length (bytes p)
  | Ok (Some t) => (cursor p < cursor p')%nat ∧ term_ok (bytes p) (cursor p' - cursor p) t
  | Err _ => (cursor p < cursor p')%nat
  end.
Proof.
  intros B. apply wp_run, wp_parse_next; [done|done|done|]. intros t n Hn Hl Ht. split; [split_and!; [done|cbn; lia|by apply bounded_advance]|].
  cbn [cursor advance]. split; [lia|]. by replace (cursor p + n - cursor p)%nat with n by lia.
Qed.


(** a name is read back in one piece and printed as its segments without
    trailing underscores, separated by dots, behind its prefix. *)
Theorem name_roundtrip n pre rest : name_wf n →
  ∃ q, read_name_path {| bytes := pre ++ encode_name n ++ rest; cursor := length pre |} =
         Done (Ok q, {| bytes := pre ++ encode_name n ++ rest; cursor := length pre + length (encode_name n) |}) ∧
    name_to_string q = n_prefix n ++ join_dots (seg_name <$> n_segs n).
Proof.
  intros Hn. exists {| raw := encode_name n |}. split; [|by apply name_to_string_spec].
  apply (reads_name n Hn {| bytes := pre ++ encode_name n ++ rest; cursor := length pre |} rest);
    [unfold bounded; cbn; rewrite length_app; lia|cbn; apply drop_app_length].
Qed.

(** the resources of a template are those of its descriptors in order, up
    to the end tag. *)
Theorem crs_roundtrip {S} ds tail (s : S) : Forall desc_wf ds →
  crs_resources (concat (encode_desc <$> ds) ++ 0x79 :: tail) s = Done (concat (desc_resources <$> ds), s).
Proof.
  intros Hds. unfold crs_resources, crs_iter. rewrite crs_loop_descs; [by apply chunk_resources_descs|done|].
  rewrite length_app. cbn [length]. enough (length ds ≤ length (concat (encode_desc <$> ds)))%nat by lia.
  clear Hds. induction ds as [|d ds IH]; [done|]. cbn [fmap list_fmap concat length]. rewrite length_app.
  assert (1 ≤ length (encode_desc d))%nat by (destruct d; cbn; lia). lia.
Qed.


(** The parser has no value for packages: it returns their bytes as a
    buffer, so that the list of compatible identifiers in a [_CID] package is
    lost. *)
Theorem packages_lost p v p' : bounded p → parse_data_object p = Done (Ok v, p') →
  (∀ vs, v ≠ APackage vs) ∧
  ∀ b name acc (s : AmlParser), v = ABuffer b → ends_with (name_to_string name) HID = false → ends_with (name_to_string name) CID = true →
    add_term (TName name v) acc s = Done (add_cids [] acc, s).
Proof.
  intros B E. assert (wp parse_data_object (λ r _, ∀ v, r = Ok v → value_ok (bytes p) v) p) as W.
  { unfold parse_data_object. wp_steps. apply wp_parse_data; [done|lia|]. split; [done|]. by intros v' n _ _ Hv' ? [= <-]. }
  unfold wp in W. rewrite E in W. specialize (W v eq_refl). split; [by intros vs ->|].
  intros b name acc s -> Hh Hc. cbn [add_term]. by rewrite Hh, Hc.
Qed.

(** Numeric hardware identifiers are stored with their bytes swapped, which
    [as_string] does not undo: a PCI host bridge with the identifier
    [EISAID("PNP0A08")] is not recognised. *)
Definition EISAID_PNP0A08 : Z := 0x080AD041.

Example eisa_id_not_decoded : as_string (AInteger EISAID_PNP0A08) ≠ Some PNP0A08 ∧
  as_string (AInteger 0x41D00A08) = Some PNP0A08 ∧
  classify (set_hid (as_string (AInteger EISAID_PNP0A08)) no_properties) = (Other, Regular).
Proof. done. Qed.

(** ** Witnesses *)

Definition demo_name (s : String.string) : Name := {| n_prefix := []; n_segs := [ascii s] |}.
Definition demo_path (s : String.string) : AmlNamePath := {| raw := encode_name (demo_name s) |}.

Definition demo_crs : list Desc := [DMemory32Fixed 1 0x9000000 0x1000; DExtIrq 9 [33; 34]].

(** A UART with its identifier and resources. *)
Definition demo_uart : list AmlTerm :=
  [TName (demo_path "_HID"%string) (AString ARMH0011); TName (demo_path "_UID"%string) AZero;
   TName (demo_path "_CRS"%string) (ABuffer (concat (encode_desc <$> demo_crs) ++ [0x79; 0]))].
Definition demo_aml : list AmlTerm :=
  [TScope {| raw := encode_name {| n_prefix := [92]; n_segs := [ascii "_SB_"%string] |} |}
     (parser_new (encode_term (TDevice (demo_path "COM0"%string) (parser_new (concat (encode_term <$> demo_uart))))))].

Lemma name_wf_one s : seg_wf (ascii s) → name_wf (demo_name s).
Proof. intros H. split; [constructor|]. split; [by constructor|cbn; lia]. Qed.

Ltac seg_ok := split; [done|split; [cbn; repeat (apply Forall_cons; split; [(by left) || (by right)|]); apply Forall_nil_2|by eexists _, _]].

Lemma demo_aml_wf : Forall term_wf demo_aml.
Proof.
  constructor; [|constructor]. split; [|done]. exists {| n_prefix := [92]; n_segs := [ascii "_SB_"%string] |}. split; [|done].
  split; [repeat constructor|]. split; [constructor; [seg_ok|constructor]|cbn; lia].
Qed.

Lemma parse_next_total_witness : ∃ r p', parse_next (parser_new [0x5B; 0x82; 0x3F]) = Done (r, p') ∧ moves (parser_new [0x5B; 0x82; 0x3F]) p'.
Proof.
  destruct (parse_next_total (parser_new [0x5B; 0x82; 0x3F])) as (r & p' & E & Hm & _).
  - unfold bounded. cbn. lia.
  - exists r, p'. split; [exact E|exact Hm].
Defined.


Lemma name_roundtrip_witness : ∃ q, read_name_path {| bytes := ascii "_SB_"%string; cursor := 0 |} =
    Done (Ok q, {| bytes := ascii "_SB_"%string; cursor := 4 |}) ∧ name_to_string q = ascii "_SB"%string.
Proof.
  destruct (name_roundtrip (demo_name "_SB_"%string) [] []) as (q & E & Ht).
  - apply name_wf_one. seg_ok.
  - exists q. split; [exact E|exact Ht].
Defined.

Lemma crs_roundtrip_witness : crs_resources (concat (encode_desc <$> demo_crs) ++ [0x79; 0]) tt =
  Done ([Mmio 0x9000000 0x9001000; Irq 33; Irq 34], tt).
Proof.
  apply (crs_roundtrip demo_crs [0] tt). repeat (apply Forall_cons; split); [split; split; [discriminate|reflexivity|discriminate|reflexivity]| |apply Forall_nil_2].
  split; [|cbn; lia]. repeat (apply Forall_cons; split); [split; [discriminate|reflexivity]|split; [discriminate|reflexivity]|apply Forall_nil_2].
Defined.

(** The device found by the whole chain. *)
Definition demo_built : outcome (result AmlError unit * TreeBuilder) := process_terms demo_aml [] None (builder_new tree_new).

Lemma demo_bytes : bytes_ok (concat (encode_term <$> demo_aml)).
Proof. apply (bool_decide_unpack _). vm_compute. exact I. Qed.

Lemma demo_terms : Forall (term_in (concat (encode_term <$> demo_aml))) demo_aml.
Proof.
  constructor; [|constructor]. eexists 200%nat. split; [done|]. split; [|vm_compute; lia].
  exists 8%nat, (length (concat (encode_term <$> demo_aml))). by vm_compute.
Qed.

