(* ===== verification/Acpi.v ===== *)
(** * ACPI tables

    Models [kernel/drivers/acpi/src/acpi]: the packed structures of the
    tables ([header.rs], [xsdp.rs], [madt.rs], [mcfg.rs], [gtdt.rs],
    [fadt.rs], [spcr.rs]) with the getters that the macro [impl_table!] gives
    their fields, the checks of the root tables, and the iterators over the
    entries of the XSDT, MADT and MCFG.

    The memory of the firmware is a partial map from virtual addresses to
    bytes; a read of an address that is not mapped is [BadDeref].  A slice
    [&[u8]] is its address and length: making one reads nothing.  References
    to structures are addresses. *)

From stdpp Require Import strings.
From S2P Require Import Prelude Bytes Vm Registers GicRegs.

Definition Mem : Type := Z → option Z.

(** ** Memory *)

Definition rd_bytes (a : Z) (n : nat) : M Mem (list Z) := λ m,
  match mapM m (seqZ a (Z.of_nat n)) with Some l => Done (l, m) | None => Fault BadDeref end.
Definition rd_le (a : Z) (n : nat) : M Mem Z := let* l := rd_bytes a n in ret (from_le l).

Record Slice := { s_ptr : Z; s_len : Z }.

Definition slice_bytes (s : Slice) : M Mem (list Z) := rd_bytes (s_ptr s) (Z.to_nat (s_len s)).

(** ** Structures

    [repr(C, packed)]: the fields follow each other.  The getter of a field
    is an unaligned read at its offset. *)

Definition Packed : Type := list (string * nat).

Fixpoint offset_of (L : Packed) (f : string) : Z :=
  match L with
  | [] => 0
  | (g, n) :: L' => if decide (g = f) then 0 else Z.of_nat n + offset_of L' f
  end.
Definition size_of (L : Packed) : Z := foldr (λ x acc, Z.of_nat x.2 + acc) 0 L.
Definition width_of (L : Packed) (f : string) : nat :=
  match list_find (λ x, x.1 = f) L with Some (_, (_, n)) => n | None => 0 end.

Definition getter (L : Packed) (f : string) (this : Z) : M Mem Z := rd_le (this + offset_of L f) (width_of L f).
Definition getter_bytes (L : Packed) (f : string) (this : Z) : M Mem (list Z) :=
  rd_bytes (this + offset_of L f) (width_of L f).

#[local] Open Scope string_scope.
#[local] Open Scope Z_scope.

Definition SdtHeader : Packed :=
  [("sig", 4); ("len", 4); ("rev", 1); ("checksum", 1); ("oem_id", 6); ("oem_table_id", 8); ("oem_rev", 4);
   ("creator_id", 4); ("creator_rev", 4)]%nat.
Definition Xsdp : Packed :=
  [("sig", 8); ("checksum", 1); ("oem_id", 6); ("rev", 1); ("rsdt_addr", 4); ("len", 4); ("xsdt_addr", 8);
   ("ext_checksum", 1); ("reserved", 3)]%nat.
Definition GenericAddress : Packed :=
  [("address_space_id", 1); ("register_bit_width", 1); ("register_bit_offset", 1); ("access_size", 1); ("address", 8)]%nat.
Definition Madt : Packed := [("header", 36); ("local_interrupt_ctrl", 4); ("flags", 4)]%nat.
Definition MadtEntryHeader : Packed := [("entry_type", 1); ("len", 1)]%nat.
Definition GicCpuInterface : Packed :=
  [("header", 2); ("reserved", 2); ("cpu_interface_number", 4); ("acpi_cpu_uid", 4); ("flags", 4); ("parking_proto_ver", 4);
   ("perf_interrupt_gsiv", 4); ("parked_addr", 8); ("phys_base_addr", 8); ("gicv", 8); ("gich", 8); ("vgic_maint_int", 4);
   ("gicr_base_addr", 8); ("mpidr", 8); ("efficiency_class", 1); ("reserved2", 3)]%nat.
Definition GicDistributor : Packed :=
  [("header", 2); ("reserved", 2); ("gic_id", 4); ("phys_base", 8); ("system_vector_base", 4); ("gic_version", 1); ("reserved2", 3)]%nat.
Definition GicRedistributor : Packed :=
  [("header", 2); ("flags", 1); ("reserved", 1); ("discovery_range_base", 8); ("discovery_range_len", 4)]%nat.
Definition GicIts : Packed :=
  [("header", 2); ("flags", 1); ("reserved", 1); ("translation_id", 4); ("phys_base", 8); ("reserved2", 4)]%nat.
Definition Mcfg : Packed := [("header", 36); ("reserved", 8)]%nat.
Definition McfgAllocation : Packed :=
  [("base_addr", 8); ("pci_segment_group", 2); ("start_bus_num", 1); ("end_bus_num", 1); ("reserved", 4)]%nat.
Definition Gtdt : Packed :=
  [("header", 36); ("cnt_control_base", 8); ("reserved", 4); ("secure_el1_gsiv", 4); ("secure_el1_flags", 4); ("ns_el1_gsiv", 4);
   ("ns_el1_flags", 4); ("virt_el1_gsiv", 4); ("virt_el1_flags", 4); ("ns_el2_gsiv", 4); ("ns_el2_flags", 4);
   ("cnt_read_base", 8); ("platform_timer_count", 4); ("platform_timer_offset", 4)]%nat.
Definition Spcr : Packed :=
  [("header", 36); ("interface_type", 1); ("reserved", 3); ("base_addr", 12); ("interrupt_type", 1); ("irq", 1);
   ("global_system_interrupt", 4); ("baud_rate", 1); ("parity", 1); ("stop_bits", 1); ("flow_control", 1); ("terminal_type", 1);
   ("reserved2", 1); ("pci_device_id", 2); ("pci_vendor_id", 2); ("pci_bus", 1); ("pci_device", 1); ("pci_function", 1);
   ("pci_flags", 4); ("pci_segment", 1); ("reserved3", 4)]%nat.
Definition Fadt : Packed :=
  [("header", 36); ("firmware_ctrl", 4); ("dsdt", 4); ("interrupt_model", 1); ("preferred_pm_profile", 1); ("sci_int", 2);
   ("smmi_cmd", 4); ("acpi_enable", 1); ("acpi_disable", 1); ("s4bios_req", 1); ("pstate_control", 1); ("pm1a_ev_blk", 4);
   ("pm1b_ev_blk", 4); ("pm1a_ctrl_blk", 4); ("pm1b_ctrl_blk", 4); ("pm2_ctrl_blk", 4); ("pm_timer_blk", 4); ("gpe0_blk", 4);
   ("gpe1_blk", 4); ("pm1_ev_len", 1); ("pm1_ctrl_len", 1); ("pm2_ctrl_len", 1); ("pm_timer_len", 1); ("gpe0_len", 1);
   ("gpe1_len", 1); ("gpe1_base", 1); ("cstate_control", 1); ("worst_c2_latency", 2); ("worst_c3_latency", 2); ("flush_size", 2);
   ("flush_stride", 2); ("duty_offset", 1); ("duty_width", 1); ("day_alarm", 1); ("month_alarm", 1); ("century", 1);
   ("boot_arch_flags", 2); ("reserved", 1); ("flags", 4); ("reset_reg", 12); ("reset_value", 1); ("arm_boot_arch", 2);
   ("minor_version", 1); ("x_fw_ctrl", 8); ("x_dsdt", 8); ("x_pm1a_ev_blk", 12); ("x_pm1b_ev_blk", 12); ("x_pm1a_ctrl_blk", 12);
   ("x_pm1b_ctrl_blk", 12); ("x_pm2_ctrl_blk", 12); ("x_pm_timer_blk", 12); ("x_gpe0_blk", 12); ("x_gpe1_blk", 12);
   ("sleep_ctrl", 12); ("sleep_status", 12); ("hypervisor_id", 8)]%nat.

(** ** Casts and checksums *)

Definition checksum (data : list Z) : Z := foldl (λ acc b, wrap 8 (acc + b)) 0 data.

Definition get_memory_slice (addr len : Z) : Slice := {| s_ptr := addr; s_len := len |}.

(** zerocopy's [ref_from_prefix] and [ref_from_bytes] on an unaligned type. *)
Definition ref_from_prefix (L : Packed) (s : Slice) : option Z := if size_of L <=? s_len s then Some (s_ptr s) else None.
Definition ref_from_bytes (L : Packed) (s : Slice) : option Z := if s_len s =? size_of L then Some (s_ptr s) else None.

(** The error arm is [unreachable!()]. *)
Definition safe_table_cast {S} (L : Packed) (s : Slice) : M S (result string Z) :=
  match ref_from_prefix L s with Some r => ret (Ok r) | None => fail Panic end.

(** ** The root tables *)

Definition header_checksum (this : Z) : M Mem Z :=
  let* len := getter SdtHeader "len" this in
  let* data := rd_bytes this (Z.to_nat len) in
  ret (checksum data).

Definition check (this : Z) : M Mem (result string unit) :=
  let* c := header_checksum this in
  if negb (c =? 0) then ret (Err "incorrect checksum") else ret (Ok tt).

Definition data_ptr (this : Z) : Z := this + size_of SdtHeader.

Definition xsdp_checksum (this : Z) : M Mem Z :=
  let* len := getter Xsdp "len" this in
  let* data := slice_bytes (get_memory_slice this len) in
  ret (checksum data).

Definition try_from_addr (xsdp_addr : Z) : M Mem (result string Z) :=
  let slice := get_memory_slice xsdp_addr (size_of Xsdp) in
  try xsdp := safe_table_cast Xsdp slice in
  let* sig := getter_bytes Xsdp "sig" xsdp in
  if negb (bool_decide (sig = ascii "RSD PTR ")) then ret (Err "bad signature") else
  let* rev := getter Xsdp "rev" xsdp in
  if rev <? 2 then ret (Err "bad revision") else
  let* len := getter Xsdp "len" xsdp in
  if len <? size_of Xsdp then ret (Err "bad length") else
  let* c := xsdp_checksum xsdp in
  if negb (c =? 0) then ret (Err "bad checksum") else
  ret (Ok xsdp).

Definition xsdt (this : Z) : M Mem (result string Z) :=
  let* xsdt_addr := getter Xsdp "xsdt_addr" this in
  if xsdt_addr =? 0 then fail Panic else
  let slice := get_memory_slice xsdt_addr (size_of SdtHeader) in
  try x := safe_table_cast SdtHeader slice in
  let* sig := getter_bytes SdtHeader "sig" x in
  if negb (bool_decide (sig = ascii "XSDT")) then ret (Err "bad sig") else
  check x ;?
  ret (Ok x).

(** ** The entries of the XSDT *)

Record XsdtIter := { x_base : Z; x_count : Z; x_curr : Z }.

Definition XsdtIter_new (this : Z) : M Mem XsdtIter :=
  let* len := getter SdtHeader "len" this in
  let header_sz := size_of SdtHeader in
  if len <? header_sz then fail Panic else
  let data_len := len - header_sz in
  ret {| x_base := this + size_of SdtHeader; x_count := data_len / 8; x_curr := 0 |}.

Definition read_table_entry (it : XsdtIter) (index : Z) : M Mem Z :=
  let* o := expect (checked_mul 64 index 8) in
  let* p := expect (checked_add 64 (x_base it) o) in
  rd_le p 8.

Definition cast_addr_header (addr : Z) : M Mem Slice :=
  let* len := getter SdtHeader "len" addr in
  ret {| s_ptr := addr; s_len := len |}.

(** The loop of [next] moves [curr] towards [count]. *)
Fixpoint xsdt_next (fuel : nat) (it : XsdtIter) : M Mem (option Slice * XsdtIter) :=
  if x_curr it <? x_count it then
    match fuel with
    | O => fail OutOfFuel
    | S fuel' =>
        let* table_addr := read_table_entry it (x_curr it) in
        let it' := {| x_base := x_base it; x_count := x_count it; x_curr := x_curr it + 1 |} in
        if negb (table_addr =? 0) then let* s := cast_addr_header table_addr in ret (Some s, it')
        else xsdt_next fuel' it'
    end
  else ret (None, it).

Definition XsdtIter_next (it : XsdtIter) : M Mem (option Slice * XsdtIter) :=
  xsdt_next (Z.to_nat (x_count it - x_curr it)) it.

(** ** MCFG *)

Definition allocations (this : Z) : M Mem (list Z) :=
  let header_size := size_of Mcfg in
  let* total_len := getter SdtHeader "len" this in
  if total_len <? header_size then ret [] else
  let data_ptr := this + header_size in
  let count := (total_len - header_size) / size_of McfgAllocation in
  ret ((λ i, data_ptr + i * size_of McfgAllocation) <$> seqZ 0 count).

(** ** MADT *)

Definition MADT_GICC : Z := 0x0B.
Definition MADT_GICD : Z := 0x0C.
Definition MADT_GICR : Z := 0x0E.
Definition MADT_ITS : Z := 0x0F.
Definition GICR_FRAME_SIZE : Z := 0x20000.

Record MadtIter := { m_ptr : Z; m_end : Z }.

Definition entries (this : Z) : M Mem MadtIter :=
  let* len := getter SdtHeader "len" this in
  ret {| m_ptr := data_ptr this + 8; m_end := this + len |}.

Definition MadtIter_next (it : MadtIter) : M Mem (option (Z * Slice) * MadtIter) :=
  if m_end it <=? m_ptr it then ret (None, it) else
  let* entry_type := rd_le (m_ptr it) 1 in
  let* len := rd_le (m_ptr it + 1) 1 in
  if len <? 2 then ret (None, it) else
  ret (Some (entry_type, {| s_ptr := m_ptr it; s_len := len |}), {| m_ptr := m_ptr it + len; m_end := m_end it |}).

(** All the items of the iterator; an item is at least two bytes. *)
Fixpoint madt_collect (fuel : nat) (it : MadtIter) : M Mem (list (Z * Slice)) :=
  match fuel with
  | O => fail OutOfFuel
  | S fuel' =>
      let* r := MadtIter_next it in
      match r with
      | (None, _) => ret []
      | (Some x, it') => let* xs := madt_collect fuel' it' in ret (x :: xs)
      end
  end.
Definition madt_items (it : MadtIter) : M Mem (list (Z * Slice)) := madt_collect (S (Z.to_nat (m_end it - m_ptr it))) it.

Inductive GicrSplitError := UnalignedBase | UnalignedLength | BaseOOR | LengthOOR | Overflow.

Record GicrFrameBlock := { block_data : Slice; block_count : Z }.

Definition GicrFrameBlock_new {S} (data : Slice) : M S (result GicrSplitError GicrFrameBlock) :=
  let len := s_len data in
  if negb (len mod GICR_FRAME_SIZE =? 0) then ret (Err UnalignedLength) else
  if len =? 0 then fail Panic else
  ret (Ok {| block_data := data; block_count := len / GICR_FRAME_SIZE |}).

(** The registers of frame [index], by their address.  [ref_from_bytes] also
    wants the alignment of the registers. *)
Definition block_get {S} (b : GicrFrameBlock) (index : Z) : M S (option Z) :=
  match checked_mul 64 index GICR_FRAME_SIZE with
  | None => ret None
  | Some offset =>
      let* end_ := expect (checked_add 64 offset GICR_FRAME_SIZE) in
      if s_len (block_data b) <? end_ then ret None else
      let frame := s_ptr (block_data b) + offset in
      assert ((GICR_FRAME_SIZE =? GicrRegisters_end) && (frame mod 8 =? 0)) ;;
      ret (Some frame)
  end.

Definition frames (this : Z) : M Mem (result GicrSplitError GicrFrameBlock) :=
  let* base := getter GicRedistributor "discovery_range_base" this in
  let* len := getter GicRedistributor "discovery_range_len" this in
  GicrFrameBlock_new {| s_ptr := base; s_len := len |}.

(** ** FADT *)

Definition PSCI_COMPLIANT : Z := Z.shiftl 1 0.
Definition PSCI_USE_HVC : Z := Z.shiftl 1 1.
Definition is_psci_compliant (f : Z) : bool := negb (Z.land f PSCI_COMPLIANT =? 0).
Definition psci_use_hvc (f : Z) : bool := negb (Z.land f PSCI_USE_HVC =? 0).
