(* ===== verification/Pcie.v ===== *)
(** * PCI Express

    Models [kernel/drivers/pcie/src]: function addresses ([address.rs]), the
    memory-mapped configuration space ([ecam.rs]), base address registers
    ([bar.rs]), the two lists of capabilities ([capability/]), the
    enumeration of a segment ([scan.rs]) and MSI-X ([interrupt.rs]).

    The devices behind the bus are the type [H]; the class [Mmio] gives the
    volatile accesses of 1, 2 or 4 bytes at a virtual address.  Reads do not
    change the state.  The interrupt controller is the class
    [MsiController].  The loops over capabilities and the recursion of the
    enumeration have fuel; [PcieProofs] and [PcieTheorems] show that the
    fuel of the definitions is enough for every device. *)

From S2P Require Import Prelude Bytes Vm Device.

Class Mmio (H : Type) := {
  hw_read : nat → Z → H → Z;
  hw_write : nat → Z → Z → H → H
}.

(** [for x in l { c(x) }] *)
Fixpoint for_each {S A} (l : list A) (c : A → M S unit) : M S unit :=
  match l with
  | [] => ret tt
  | x :: l' => c x ;; for_each l' c
  end.

(** ** Addresses *)

Record Bdf := mkBdf { bdf_segment : Z; bus : Z; device : Z; function : Z }.

Definition requester_id (b : Bdf) : Z :=
  Z.lor (Z.lor (Z.shiftl (bus b) 8) (Z.shiftl (device b) 3)) (function b).

Definition device_id (b : Bdf) : Z := Z.lor (Z.shiftl (bdf_segment b) 16) (requester_id b).

(** ** Configuration space *)

Record Ecam := { phys_base : Z; ecam_segment : Z; start_bus : Z; end_bus : Z }.

Section ecam.
Context {H : Type} {HM : Mmio H} (e : Ecam).

Definition cfg_offset (b : Bdf) (offset : Z) : Z :=
  Z.lor (Z.lor (Z.lor (Z.shiftl (bus b - start_bus e) 20) (Z.shiftl (device b) 15)) (Z.shiftl (function b) 12)) offset.

(** The sum [phys_base + cfg_offset] panics on overflow. *)
Definition offset_ptr {S} (b : Bdf) (offset : Z) : M S (option Z) :=
  if 0x0FFF <? offset then ret None else
  if negb (bdf_segment b =? ecam_segment e) || negb ((start_bus e <=? bus b) && (bus b <=? end_bus e)) then ret None else
  let* phys := expect (checked_add 64 (phys_base e) (cfg_offset b offset)) in
  ret (Some (phys_addr_to_dmap phys)).

Definition read_at (n : nat) (b : Bdf) (offset : Z) : M H Z :=
  let* p := offset_ptr b offset in
  match p with Some ptr => gets (hw_read n ptr) | None => ret (2 ^ (8 * Z.of_nat n) - 1) end.
Definition write_at (n : nat) (b : Bdf) (offset val : Z) : M H unit :=
  let* p := offset_ptr b offset in
  match p with Some ptr => modify (hw_write n ptr val) | None => ret tt end.

Definition read_u8 (b : Bdf) (offset : Z) : M H Z := read_at 1 b offset.
Definition read_u16 (b : Bdf) (offset : Z) : M H Z := assert (offset mod 2 =? 0) ;; read_at 2 b offset.
Definition read_u32 (b : Bdf) (offset : Z) : M H Z := assert (offset mod 4 =? 0) ;; read_at 4 b offset.
Definition write_u8 (b : Bdf) (offset val : Z) : M H unit := write_at 1 b offset val.
Definition write_u16 (b : Bdf) (offset val : Z) : M H unit := assert (offset mod 2 =? 0) ;; write_at 2 b offset val.
Definition write_u32 (b : Bdf) (offset val : Z) : M H unit := assert (offset mod 4 =? 0) ;; write_at 4 b offset val.

Definition CMD_REG : Z := 0x04.

Definition enable_bus_master (b : Bdf) : M H unit :=
  let* cmd := read_u16 b CMD_REG in write_u16 b CMD_REG (Z.lor cmd (Z.shiftl 1 2)).
Definition enable_memory_space (b : Bdf) : M H unit :=
  let* cmd := read_u16 b CMD_REG in write_u16 b CMD_REG (Z.lor cmd (Z.shiftl 1 1)).
End ecam.

(** ** Base address registers *)

Inductive BarType :=
| Memory32 (address size : Z) (prefetchable : bool)
| Memory64 (address size : Z) (prefetchable : bool)
| Io (address size : Z).

Section bars.
Context {H : Type} {HM : Mmio H} (e : Ecam) (b : Bdf).

(** Writing all ones, reading back and restoring the register at
    [offset]. *)
Definition probe_reg (offset : Z) : M H (Z * Z) :=
  let* original_val := read_u32 e b offset in
  write_u32 e b offset 0xFFFFFFFF ;;
  let* mask := read_u32 e b offset in
  write_u32 e b offset original_val ;;
  ret (original_val, mask).

Definition prefetchable_bit (v : Z) : bool := negb (Z.land (Z.shiftr v 3) 1 =? 0).

(** One iteration of the loop of [probe_bars]: the registers it consumed and
    the BAR it found. *)
Definition probe_bar (bar_i : Z) : M H (Z * list BarType) :=
  let offset := 0x10 + bar_i * 4 in
  let* p := probe_reg offset in
  let '(original_val, mask) := p in
  let is_io := negb (Z.land original_val 1 =? 0) in
  let type_bits := Z.land (Z.shiftr original_val 1) 3 in
  if is_io then
    if (mask =? 0) || (mask =? unot 32 0) then ret (1, []) else
    ret (1, [Io (Z.land original_val 0xFFFFFFFC) (wrap 32 (unot 32 (Z.land mask 0xFFFFFFFC) + 1))])
  else if type_bits =? 0 then
    if (mask =? 0) || (mask =? unot 32 0) then ret (1, []) else
    ret (1, [Memory32 (Z.land original_val 0xFFFFFFF0) (wrap 32 (unot 32 (Z.land mask 0xFFFFFFF0) + 1))
                      (prefetchable_bit original_val)])
  else if type_bits =? 2 then
    if 5 <=? bar_i then ret (1, []) else
    let* p := probe_reg (offset + 4) in
    let '(original_high, mask_high) := p in
    let raw_mask := Z.lor (Z.shiftl mask_high 32) (Z.land mask 0xFFFFFFF0) in
    if raw_mask =? 0 then ret (2, []) else
    ret (2, [Memory64 (Z.lor (Z.shiftl original_high 32) (Z.land original_val 0xFFFFFFF0))
                      (wrap 64 (unot 64 raw_mask + 1)) (prefetchable_bit original_val)])
  else ret (1, []).

Fixpoint probe_loop (fuel : nat) (bar_i : Z) (bars : list BarType) : M H (list BarType) :=
  if 6 <=? bar_i then ret bars else
  match fuel with
  | O => fail OutOfFuel
  | S fuel' =>
      let* r := probe_bar bar_i in
      let '(n, found) := r in
      probe_loop fuel' (bar_i + n) (bars ++ found)
  end.

(** The last write is the drop of [CommandRegGuard]. *)
Definition probe_bars : M H (list BarType) :=
  let* original_command := read_u16 e b CMD_REG in
  write_u16 e b CMD_REG (Z.land original_command (unot 16 3)) ;;
  let* bars := probe_loop 6 0 [] in
  write_u16 e b CMD_REG original_command ;;
  ret bars.
End bars.

(** ** Enumeration *)

(** [{:0nx}] of an integer below [16^n]. *)
Definition hexl (n : nat) (p : Z) : str :=
  (λ i, let d := Z.shiftr p (4 * Z.of_nat i) mod 16 in if d <? 10 then 48 + d else 87 + d) <$> rev (seq 0 n).

(** The [Mmio] resources of the BARs; the end of the range panics on
    overflow. *)
Fixpoint bar_resources {S} (bars : list BarType) : M S (list Resource) :=
  match bars with
  | [] => ret []
  | Memory32 address size _ :: bars' | Memory64 address size _ :: bars' =>
      let* end_ := expect (checked_add 64 address size) in
      let* rs := bar_resources bars' in
      ret (Device.Mmio address end_ :: rs)
  | Io _ _ :: bars' => bar_resources bars'
  end.

Definition compat (vendor_id device_id class_code subclass : Z) : list str :=
  [ascii "pci"%string ++ hexl 4 vendor_id ++ ascii ","%string ++ hexl 4 device_id;
   ascii "pci-class-"%string ++ hexl 2 class_code ++ hexl 2 subclass;
   ascii "pci-device"%string].

Section scan.
Context {H : Type} {HM : Mmio H} (e : Ecam).

Definition on_hw {A} (c : M H A) : M (H * DeviceTree) A := λ s,
  match c s.1 with Done (a, h) => Done (a, (h, s.2)) | Fault f => Fault f end.
Definition on_tree {A} (c : M DeviceTree A) : M (H * DeviceTree) A := λ s,
  match c s.2 with Done (a, t) => Done (a, (s.1, t)) | Fault f => Fault f end.

(** [scan_bus] is the argument [scan]: the two functions call each other. *)
Definition scan_function (scan : Z → M (H * DeviceTree) unit) (b : Bdf) : M (H * DeviceTree) unit :=
  let* vendor_id := on_hw (read_u16 e b 0x00) in
  let* device_id := on_hw (read_u16 e b 0x02) in
  let* class_code := on_hw (read_u8 e b 0x0B) in
  let* subclass := on_hw (read_u8 e b 0x0A) in
  let* _ := on_hw (read_u8 e b 0x09) in
  let* header_type := on_hw (let* v := read_u8 e b 0x0E in ret (Z.land v 0x07)) in
  if header_type =? 0x00 then
    let* bars := on_hw (probe_bars e b) in
    let* resources := bar_resources bars in
    on_tree (add_device None Other (compat vendor_id device_id class_code subclass) resources Regular) ;;
    ret tt
  else if header_type =? 0x01 then
    let* secondary_bus := on_hw (read_u8 e b 0x19) in
    let* subordinate_bus := on_hw (read_u8 e b 0x1A) in
    if (bus b <? secondary_bus) && (secondary_bus <=? subordinate_bus) then scan secondary_bus else ret tt
  else ret tt.

Definition scan_device (scan : Z → M (H * DeviceTree) unit) (bus_ device_ : Z) : M (H * DeviceTree) unit :=
  let b := mkBdf (ecam_segment e) bus_ device_ 0 in
  let* vendor := on_hw (read_u16 e b 0x00) in
  if vendor =? unot 16 0 then ret tt else
  scan_function scan b ;;
  let* header_type := on_hw (read_u8 e b 0x0E) in
  if negb (Z.land header_type 0x80 =? 0) then
    for_each (seqZ 1 7) (λ function_,
      let func_bdf := mkBdf (ecam_segment e) bus_ device_ function_ in
      let* func_vendor := on_hw (read_u16 e func_bdf 0x00) in
      if negb (func_vendor =? unot 16 0) then scan_function scan func_bdf else ret tt)
  else ret tt.

Fixpoint scan_bus (fuel : nat) (bus_ : Z) : M (H * DeviceTree) unit :=
  match fuel with
  | O => fail OutOfFuel
  | S fuel' => for_each (seqZ 0 32) (scan_device (scan_bus fuel') bus_)
  end.

(** Bus numbers grow along the recursion and are below 256. *)
Definition enumerate_segment : M (H * DeviceTree) unit := scan_bus 256 (start_bus e).
End scan.
