(* ===== verification/PcieCap.v ===== *)
(** * PCI capabilities and MSI-X

    Models [kernel/drivers/pcie/src/capability] (the standard and the
    extended list, their iterators and the capabilities the drivers read)
    and [interrupt.rs] (the MSI-X table and its programming through the
    interrupt controller). *)

From S2P Require Import Prelude Bytes Vm Pcie.

(** ** The standard list *)

Inductive StandardCapabilityId :=
| PowerManagement | Agp | Vpd | SlotId | Msi | CompactPciHotSwap | PciX | HyperTransport | VendorSpecific | Debug_
| CompactPciCentralResource | PciHotPlug | PciBridgeSubsystemVendor | Agp8x | SecureDevice | PciExpress | MsiX | Sata
| AdvancedFeatures | EnhancedAllocation | Unknown (v : Z).

#[global] Instance StandardCapabilityId_eq : EqDecision StandardCapabilityId.
Proof. solve_decision. Defined.

Definition standard_ids : list StandardCapabilityId :=
  [PowerManagement; Agp; Vpd; SlotId; Msi; CompactPciHotSwap; PciX; HyperTransport; VendorSpecific; Debug_;
   CompactPciCentralResource; PciHotPlug; PciBridgeSubsystemVendor; Agp8x; SecureDevice; PciExpress; MsiX; Sata;
   AdvancedFeatures; EnhancedAllocation].

(** The match has the identifiers 0x01 to 0x14 in the order of the
    declaration. *)
Definition StandardCapabilityId_from (val : Z) : StandardCapabilityId :=
  if 1 <=? val then default (Unknown val) (standard_ids !! Z.to_nat (val - 1)) else Unknown val.

Record StandardCapIter := { next_ptr : Z; visited : Z }.

Section standard.
Context {H : Type} {HM : Mmio H} (e : Ecam) (b : Bdf).

Definition StandardCapIter_new : M H StandardCapIter :=
  let* status := read_u16 e b 0x06 in
  let* p := (if negb (Z.land status (Z.shiftl 1 4) =? 0)
             then let* v := read_u8 e b 0x34 in ret (Z.land v 0xFC) else ret 0) in
  ret {| next_ptr := p; visited := 0 |}.

Definition StandardCapIter_next (it : StandardCapIter) : M H (option (StandardCapabilityId * Z) * StandardCapIter) :=
  let current := next_ptr it in
  if (current <? 0x40) || (0xFC <? current) then ret (None, it) else
  let bit := Z.shiftl 1 (Z.land (current / 4) 63) in
  if negb (Z.land (visited it) bit =? 0) then ret (None, it) else
  let visited' := Z.lor (visited it) bit in
  let* cap_id := read_u8 e b current in
  let* n := read_u8 e b (current + 1) in
  ret (Some (StandardCapabilityId_from cap_id, current), {| next_ptr := Z.land n 0xFC; visited := visited' |}).

(** [Iterator::find_map] with the closure of [find_capability]. *)
Fixpoint standard_find (fuel : nat) (target_id : StandardCapabilityId) (it : StandardCapIter) : M H (option Z) :=
  match fuel with
  | O => fail OutOfFuel
  | S fuel' =>
      let* r := StandardCapIter_next it in
      match r with
      | (None, _) => ret None
      | (Some (id, offset), it') =>
          if decide (id = target_id) then ret (Some offset) else standard_find fuel' target_id it'
      end
  end.

(** An iteration marks one of the 64 bits of [visited]. *)
Definition find_capability (target_id : StandardCapabilityId) : M H (option Z) :=
  let* it := StandardCapIter_new in standard_find 65 target_id it.
End standard.

Record PowerManagementCap := { pm_offset : Z; pme_support : Z; d1_support : bool; d2_support : bool }.
Record MsiCap := { msi_offset : Z; is_64bit : bool; per_vector_masking : bool; multiple_message_capable : Z }.
Record MsixCap := { msix_offset : Z; table_size : Z; table_bir : Z; table_offset : Z; pba_bir : Z; pba_offset : Z }.
Record PcieCap := { pcie_offset : Z; device_type : Z; max_payload_size_bytes : Z; max_read_request_bytes : Z;
                    current_link_speed_gen : Z; current_link_width : Z }.

Section standard_caps.
Context {H : Type} {HM : Mmio H} (e : Ecam) (b : Bdf).

Definition bit_set (v i : Z) : bool := negb (Z.land v (Z.shiftl 1 i) =? 0).

Definition PowerManagementCap_read (offset : Z) : M H PowerManagementCap :=
  let* pmc := read_u16 e b (offset + 2) in
  ret {| pm_offset := offset; pme_support := Z.land (Z.shiftr pmc 11) 0x1F; d1_support := bit_set pmc 9; d2_support := bit_set pmc 10 |}.

Definition set_power_state (c : PowerManagementCap) (state : Z) : M H unit :=
  let* pmcsr := read_u16 e b (pm_offset c + 4) in
  let new_pmcsr := Z.lor (Z.land pmcsr (unot 16 0x03)) (Z.land state 0x03) in
  write_u16 e b (pm_offset c + 4) new_pmcsr.

Definition MsiCap_read (offset : Z) : M H MsiCap :=
  let* msg_ctrl := read_u16 e b (offset + 2) in
  ret {| msi_offset := offset; is_64bit := bit_set msg_ctrl 7; per_vector_masking := bit_set msg_ctrl 8;
         multiple_message_capable := Z.shiftl 1 (Z.land (Z.shiftr msg_ctrl 1) 0x07) |}.

Definition MsixCap_read (offset : Z) : M H MsixCap :=
  let* msg_ctrl := read_u16 e b (offset + 2) in
  let* table_raw := read_u32 e b (offset + 4) in
  let* pba_raw := read_u32 e b (offset + 8) in
  ret {| msix_offset := offset; table_size := Z.land msg_ctrl 0x07FF + 1; table_bir := Z.land table_raw 0x07;
         table_offset := Z.land table_raw (unot 32 0x07); pba_bir := Z.land pba_raw 0x07;
         pba_offset := Z.land pba_raw (unot 32 0x07) |}.

Definition MsixCap_enable (c : MsixCap) : M H unit :=
  let* msg_ctrl := read_u16 e b (msix_offset c + 2) in
  write_u16 e b (msix_offset c + 2) (Z.land (Z.lor msg_ctrl (Z.shiftl 1 15)) (unot 16 (Z.shiftl 1 14))).

Definition MsixCap_disable (c : MsixCap) : M H unit :=
  let* msg_ctrl := read_u16 e b (msix_offset c + 2) in
  write_u16 e b (msix_offset c + 2) (Z.land msg_ctrl (unot 16 (Z.shiftl 1 15))).

Definition PcieCap_read (offset : Z) : M H PcieCap :=
  let* pcie_flags := read_u16 e b (offset + 2) in
  let* dev_ctl := read_u16 e b (offset + 8) in
  let* link_status := read_u16 e b (offset + 18) in
  let mps_code := Z.land (Z.shiftr dev_ctl 5) 0x07 in
  let mrrs_code := Z.land (Z.shiftr dev_ctl 12) 0x07 in
  ret {| pcie_offset := offset; device_type := Z.land (Z.shiftr pcie_flags 4) 0x0F;
         max_payload_size_bytes := Z.shiftl 128 mps_code; max_read_request_bytes := Z.shiftl 128 mrrs_code;
         current_link_speed_gen := Z.land link_status 0x0F;
         current_link_width := Z.land (Z.shiftr link_status 4) 0x3F |}.
End standard_caps.

(** ** The extended list *)

Inductive ExtendedCapabilityId :=
| AdvancedErrorReporting | VirtualChannelNoMfvc | DeviceSerialNumber | PowerBudgeting | RootComplexLinkDeclaration
| RootComplexInternalLinkControl | RootComplexEventCollectorEndpoint | MultiFunctionVirtualChannel | VirtualChannel
| RcrbHeader | ExtVendorSpecific | Acs | Ari | Ats | SingleRootIoVirt | MultiRootIoVirt | PageRequestInterface
| ResizableBar | DynamicPowerAllocation | TphRequester | LatencyToleranceReporting | SecondaryPciExpress
| DownstreamPortContainment | PrecisionTimeMeasurement | ExtUnknown (v : Z).

#[global] Instance ExtendedCapabilityId_eq : EqDecision ExtendedCapabilityId.
Proof. solve_decision. Defined.

Definition ExtendedCapabilityId_from (val : Z) : ExtendedCapabilityId :=
  match val with
  | 0x0001 => AdvancedErrorReporting | 0x0002 => VirtualChannelNoMfvc | 0x0003 => DeviceSerialNumber
  | 0x0004 => PowerBudgeting | 0x0005 => RootComplexLinkDeclaration | 0x0006 => RootComplexInternalLinkControl
  | 0x0007 => RootComplexEventCollectorEndpoint | 0x0008 => MultiFunctionVirtualChannel | 0x0009 => VirtualChannel
  | 0x000A => RcrbHeader | 0x000B => ExtVendorSpecific | 0x000D => Acs | 0x000E => Ari | 0x000F => Ats
  | 0x0010 => SingleRootIoVirt | 0x0011 => MultiRootIoVirt | 0x0013 => PageRequestInterface | 0x0015 => ResizableBar
  | 0x0016 => DynamicPowerAllocation | 0x0017 => TphRequester | 0x0018 => LatencyToleranceReporting
  | 0x0019 => SecondaryPciExpress | 0x001D => DownstreamPortContainment | 0x001F => PrecisionTimeMeasurement
  | other => ExtUnknown other
  end.

Record ExtendedCapIter := { ext_next_ptr : Z; count : Z }.

Record AerCap := { aer_offset : Z; uncorrectable_status : Z; correctable_status : Z }.
Record SriovCap := { sriov_offset : Z; initial_vfs : Z; total_vfs : Z; num_vfs : Z; vf_stride : Z; vf_device_id : Z }.

Section extended.
Context {H : Type} {HM : Mmio H} (e : Ecam) (b : Bdf).

Definition ExtendedCapIter_new : ExtendedCapIter := {| ext_next_ptr := 0x100; count := 0 |}.

Definition ExtendedCapIter_next (it : ExtendedCapIter) : M H (option (ExtendedCapabilityId * Z) * ExtendedCapIter) :=
  let current := ext_next_ptr it in
  if (current <? 0x100) || (0xFFC <? current) || (64 <=? count it) then ret (None, it) else
  let* header := read_u32 e b current in
  if (header =? 0) || (header =? 0xFFFFFFFF) then ret (None, it) else
  let cap_id := Z.land header 0xFFFF in
  let next_offset := Z.land (Z.shiftr header 20) 0xFFF in
  ret (Some (ExtendedCapabilityId_from cap_id, current), {| ext_next_ptr := next_offset; count := count it + 1 |}).

Fixpoint extended_find (fuel : nat) (target_id : ExtendedCapabilityId) (it : ExtendedCapIter) : M H (option Z) :=
  match fuel with
  | O => fail OutOfFuel
  | S fuel' =>
      let* r := ExtendedCapIter_next it in
      match r with
      | (None, _) => ret None
      | (Some (id, offset), it') =>
          if decide (id = target_id) then ret (Some offset) else extended_find fuel' target_id it'
      end
  end.

(** The iterator stops after 64 capabilities. *)
Definition find_extended_capability (target_id : ExtendedCapabilityId) : M H (option Z) :=
  extended_find 65 target_id ExtendedCapIter_new.

(** The sums are on [u16]. *)
Definition add16 {S} (a c : Z) : M S Z := expect (checked_add 16 a c).

Definition AerCap_read (offset : Z) : M H AerCap :=
  let* o := add16 offset 0x04 in let* u := read_u32 e b o in
  let* o := add16 offset 0x10 in let* c := read_u32 e b o in
  ret {| aer_offset := offset; uncorrectable_status := u; correctable_status := c |}.

Definition clear_errors (c : AerCap) : M H unit :=
  let* o := add16 (aer_offset c) 0x04 in
  let* uncorr := read_u32 e b o in
  write_u32 e b o uncorr ;;
  let* o := add16 (aer_offset c) 0x10 in
  let* corr := read_u32 e b o in
  write_u32 e b o corr.

Definition SriovCap_read (offset : Z) : M H SriovCap :=
  let* o := add16 offset 0x0C in let* i := read_u16 e b o in
  let* o := add16 offset 0x0E in let* t := read_u16 e b o in
  let* o := add16 offset 0x10 in let* n := read_u16 e b o in
  let* o := add16 offset 0x16 in let* s := read_u16 e b o in
  let* o := add16 offset 0x1A in let* d := read_u16 e b o in
  ret {| sriov_offset := offset; initial_vfs := i; total_vfs := t; num_vfs := n; vf_stride := s; vf_device_id := d |}.

Definition enable_vfs (c : SriovCap) (n : Z) : M H unit :=
  let* o := add16 (sriov_offset c) 0x10 in
  write_u16 e b o n ;;
  let* o := add16 (sriov_offset c) 0x08 in
  let* ctrl := read_u16 e b o in
  write_u16 e b o (Z.lor ctrl 0x01).
End extended.

(** ** MSI-X *)

(** What the PCI drivers use of the trait [InterruptController]. *)
Class MsiController (C E : Type) := {
  ic_register_device : Z → Z → M C (result E unit);
  ic_get_doorbell : M C (result E Z);
  ic_map_event : Z → Z → option Z → Z → M C (result E Z)
}.

Record MsixTable := { table_base : Z; vector_count : Z }.

Definition OFFSET_ADDR_LOW : Z := 0x00.
Definition OFFSET_ADDR_HIGH : Z := 0x04.
Definition OFFSET_DATA : Z := 0x08.
Definition OFFSET_VEC_CTRL : Z := 0x0C.
Definition VEC_CTRL_MASK_BIT : Z := 1.

Definition msix_len (t : MsixTable) : Z := vector_count t.
Definition msix_is_empty (t : MsixTable) : bool := vector_count t =? 0.

(** The pointer of an entry; the product panics on overflow. *)
Definition entry {S} (t : MsixTable) (index : Z) : M S (option Z) :=
  if vector_count t <=? index then ret None else
  let* o := expect (checked_mul 64 index 16) in
  ret (Some (table_base t + o)).

Section table.
Context {H : Type} {HM : Mmio H}.

Definition set_address (p addr : Z) : M H unit :=
  modify (hw_write 4 (p + OFFSET_ADDR_LOW) (wrap 32 addr)) ;;
  modify (hw_write 4 (p + OFFSET_ADDR_HIGH) (wrap 32 (Z.shiftr addr 32))).
Definition address (p : Z) : M H Z :=
  let* low := gets (hw_read 4 (p + OFFSET_ADDR_LOW)) in
  let* high := gets (hw_read 4 (p + OFFSET_ADDR_HIGH)) in
  ret (Z.lor (Z.shiftl high 32) low).
Definition set_data (p data : Z) : M H unit := modify (hw_write 4 (p + OFFSET_DATA) data).
Definition data (p : Z) : M H Z := gets (hw_read 4 (p + OFFSET_DATA)).
Definition set_masked (p : Z) (masked : bool) : M H unit :=
  let ctrl_ptr := p + OFFSET_VEC_CTRL in
  let* current := gets (hw_read 4 ctrl_ptr) in
  let new_ctrl := if masked then Z.lor current VEC_CTRL_MASK_BIT else Z.land current (unot 32 VEC_CTRL_MASK_BIT) in
  modify (hw_write 4 ctrl_ptr new_ctrl).
Definition is_masked (p : Z) : M H bool :=
  let* v := gets (hw_read 4 (p + OFFSET_VEC_CTRL)) in ret (negb (Z.land v VEC_CTRL_MASK_BIT =? 0)).

Definition configure (p doorbell event_id : Z) (masked : bool) : M H unit :=
  set_address p doorbell ;; set_data p event_id ;; set_masked p masked.
End table.

Record MsixInfo := { info_cap_offset : Z; info_table_bir : Z; info_table_offset : Z; info_table_size : Z }.

Section msix.
Context {H : Type} {HM : Mmio H} (e : Ecam) (b : Bdf).

Definition get_msix_info : M H (option MsixInfo) :=
  let* cap := find_capability e b MsiX in
  match cap with
  | None => ret None
  | Some cap_offset =>
      let* msix := MsixCap_read e b cap_offset in
      ret (Some {| info_cap_offset := cap_offset; info_table_bir := table_bir msix;
                   info_table_offset := table_offset msix; info_table_size := table_size msix |})
  end.

Context {C E : Type} {MC : MsiController C E} (t : MsixTable) (percpu_len : Z).

Definition on_bus {A} (c : M H A) : M (H * C) A := λ s,
  match c s.1 with Done (a, h) => Done (a, (h, s.2)) | Fault f => Fault f end.
Definition on_ic {A} (c : M C A) : M (H * C) A := λ s,
  match c s.2 with Done (a, k) => Done (a, (s.1, k)) | Fault f => Fault f end.

(** [for mut entry in table.iter_mut() { entry.set_masked(true) }] *)
Definition mask_all : M (H * C) unit :=
  for_each (seqZ 0 (vector_count t)) (λ i,
    let* p := entry t i in
    match p with Some p => on_bus (set_masked p true) | None => ret tt end).

(** The loop over the first [num_vectors] entries; [mapped_lpis] is the
    vector it pushes to. *)
Fixpoint map_vectors (dev_id doorbell num_cpus : Z) (events : list Z) (mapped_lpis : list Z) : M (H * C) (list Z) :=
  match events with
  | [] => ret mapped_lpis
  | event_id :: events' =>
      let* p := entry t event_id in
      match p with
      | None => ret mapped_lpis
      | Some p =>
          let target_cpu := event_id mod num_cpus in
          let* r := on_ic (ic_map_event dev_id event_id None target_cpu) in
          match r with
          | Ok lpi => on_bus (configure p doorbell event_id false) ;;
                      map_vectors dev_id doorbell num_cpus events' (mapped_lpis ++ [lpi])
          | Err _ => map_vectors dev_id doorbell num_cpus events' mapped_lpis
          end
      end
  end.

Definition next_power_of_two (x : Z) : Z := 2 ^ Z.log2_up x.

Definition enable_msix : M (H * C) (result str (list Z)) :=
  let* cap := on_bus (find_capability e b MsiX) in
  match cap with
  | None => ret (Err (ascii "MSI-X capability not found"%string))
  | Some cap_offset =>
      let* msix := on_bus (MsixCap_read e b cap_offset) in
      let num_vectors := Z.min (table_size msix) (msix_len t) in
      if num_vectors =? 0 then ret (Err (ascii "MSI-X table capacity is 0"%string)) else
      on_bus (enable_memory_space e b) ;;
      on_bus (enable_bus_master e b) ;;
      let dev_id := device_id b in
      let num_events_log2 := trailing_zeros 32 (next_power_of_two (table_size msix)) in
      let* r := on_ic (ic_register_device dev_id num_events_log2) in
      match r with
      | Err _ => ret (Err (ascii "MSI device registration fail"%string))
      | Ok _ =>
          let* r := on_ic ic_get_doorbell in
          match r with
          | Err _ => ret (Err (ascii "Failed to get MSI doorbell"%string))
          | Ok doorbell =>
              let num_cpus := Z.max (wrap 32 percpu_len) 1 in
              mask_all ;;
              let* mapped_lpis := map_vectors dev_id doorbell num_cpus (seqZ 0 num_vectors) [] in
              match mapped_lpis with
              | [] => ret (Err (ascii "Failed to map any MSI-X vectors"%string))
              | _ => on_bus (MsixCap_enable e b msix) ;; ret (Ok mapped_lpis)
              end
          end
      end
  end.
End msix.
