(* ===== verification/PcieProofs.v ===== *)
(** * PCI configuration space: lemmas

    Where the accesses of [Ecam] go, what they read and write, and the
    probing of the base address registers. *)

From S2P Require Import Prelude Bytes Vm Device Pcie.

(** ** The window *)

(** The window of the segment is physical memory, one megabyte per bus. *)
Record ecam_ok (e : Ecam) : Prop := {
  eo_base : 0 ≤ phys_base e;
  eo_start : 0 ≤ start_bus e;
  eo_end : end_bus e < 256;
  eo_window : phys_base e + (end_bus e - start_bus e + 1) * 2 ^ 20 ≤ 2 ^ VA_WIDTH
}.

(** An address that names a function of the segment. *)
Record fn_ok (e : Ecam) (b : Bdf) : Prop := {
  fo_segment : bdf_segment b = ecam_segment e;
  fo_bus : 0 ≤ bus b < 256;
  fo_device : 0 ≤ device b < 32;
  fo_function : 0 ≤ function b < 8
}.

Definition in_window (e : Ecam) (b : Bdf) : Prop := start_bus e ≤ bus b ≤ end_bus e.
#[global] Instance in_window_dec e b : Decision (in_window e b).
Proof. unfold in_window. apply _. Defined.

Definition cfg_phys (e : Ecam) (b : Bdf) (o : Z) : Z :=
  phys_base e + ((bus b - start_bus e) * 2 ^ 20 + device b * 2 ^ 15 + function b * 2 ^ 12 + o).
Definition ptr (e : Ecam) (b : Bdf) (o : Z) : Z := phys_addr_to_dmap (cfg_phys e b o).

Section window.
Context (e : Ecam) (Eo : ecam_ok e) (b : Bdf) (Fo : fn_ok e b).

Lemma cfg_offset_eq o : in_window e b → 0 ≤ o < 4096 →
  cfg_offset e b o = (bus b - start_bus e) * 2 ^ 20 + device b * 2 ^ 15 + function b * 2 ^ 12 + o.
Proof.
  intros Hw Ho. unfold in_window in Hw. destruct Fo as [_ _ Hd Hf]. unfold cfg_offset.
  set (n := bus b - start_bus e).
  replace (Z.shiftl n 20) with (Z.shiftl (Z.shiftl (Z.shiftl n 5) 3) 12) by (by rewrite !Z.shiftl_shiftl by lia).
  replace (Z.shiftl (device b) 15) with (Z.shiftl (Z.shiftl (device b) 3) 12) by (by rewrite Z.shiftl_shiftl by lia).
  rewrite <- !Z.shiftl_lor, Z.lor_comm, lor_shiftl_add by lia. rewrite Z.lor_comm, lor_shiftl_add by lia.
  rewrite Z.lor_comm, lor_shiftl_add by lia. lia.
Qed.

Lemma cfg_phys_range o : in_window e b → 0 ≤ o < 4096 →
  phys_base e ≤ cfg_phys e b o < phys_base e + (end_bus e - start_bus e + 1) * 2 ^ 20.
Proof. intros Hw Ho. unfold in_window in Hw. destruct Fo as [_ _ Hd Hf]. unfold cfg_phys. lia. Qed.

Lemma cfg_phys_addr o : in_window e b → 0 ≤ o < 4096 → phys_addr (cfg_phys e b o).
Proof. intros Hw Ho. pose proof (cfg_phys_range o Hw Ho). destruct Eo. unfold phys_addr. lia. Qed.

Lemma ptr_add o i : in_window e b → 0 ≤ o → 0 ≤ i → o + i < 4096 → ptr e b (o + i) = ptr e b o + i.
Proof.
  intros Hw Ho Hi Hs. unfold ptr. rewrite !phys_addr_to_dmap_add by (apply cfg_phys_addr; (done || lia)). unfold cfg_phys. lia.
Qed.

Lemma run_offset_ptr {S} o (s : S) : 0 ≤ o < 4096 →
  offset_ptr e b o s = Done (if decide (in_window e b) then Some (ptr e b o) else None, s).
Proof.
  intros Ho. unfold offset_ptr. rewrite (proj2 (Z.ltb_ge _ _)) by lia. destruct Fo as [Hs _ _ _]. rewrite Hs, Z.eqb_refl. cbn [negb orb].
  case_decide as Hw.
  - rewrite (proj2 (Z.leb_le _ _)), (proj2 (Z.leb_le _ _)) by (unfold in_window in Hw; lia). cbn [andb negb].
    unfold bind, expect, checked_add. rewrite cfg_offset_eq by done. fold (cfg_phys e b o).
    pose proof (cfg_phys_addr o Hw Ho) as [Hp1 Hp2]. unfold VA_WIDTH in Hp2.
    assert (2 ^ 48 < 2 ^ 64) by done. by rewrite (proj2 (Z.ltb_lt _ _)) by lia.
  - unfold in_window in Hw. destruct (Z.leb_spec (start_bus e) (bus b)); [|done].
    rewrite (proj2 (Z.leb_gt _ _)) by lia. done.
Qed.

Context {H : Type} {HM : Mmio H}.

(** The value an access of [n] bytes reads: all ones outside the window. *)
Definition cfg (n : nat) (o : Z) (h : H) : Z :=
  if decide (in_window e b) then hw_read n (ptr e b o) h else 2 ^ (8 * Z.of_nat n) - 1.

Lemma run_read_at n o h : 0 ≤ o < 4096 → read_at e n b o h = Done (cfg n o h, h).
Proof. intros Ho. unfold read_at, bind, cfg. rewrite run_offset_ptr by done. by case_decide. Qed.

Lemma run_read_u8 o h : 0 ≤ o < 4096 → read_u8 e b o h = Done (cfg 1 o h, h).
Proof. apply run_read_at. Qed.
Lemma run_read_u16 o h : 0 ≤ o < 4096 → o mod 2 = 0 → read_u16 e b o h = Done (cfg 2 o h, h).
Proof. intros Ho Ha. unfold read_u16, bind, assert. rewrite Ha. by apply run_read_at. Qed.
Lemma run_read_u32 o h : 0 ≤ o < 4096 → o mod 4 = 0 → read_u32 e b o h = Done (cfg 4 o h, h).
Proof. intros Ho Ha. unfold read_u32, bind, assert. rewrite Ha. by apply run_read_at. Qed.

Lemma run_write_at n o v h : in_window e b → 0 ≤ o < 4096 → write_at e n b o v h = Done (tt, hw_write n (ptr e b o) v h).
Proof. intros Hw Ho. unfold write_at, bind. rewrite run_offset_ptr by done. by rewrite decide_True. Qed.
Lemma run_write_u16 o v h : in_window e b → 0 ≤ o < 4096 → o mod 2 = 0 →
  write_u16 e b o v h = Done (tt, hw_write 2 (ptr e b o) v h).
Proof. intros Hw Ho Ha. unfold write_u16, bind, assert. rewrite Ha. by apply run_write_at. Qed.
Lemma run_write_u32 o v h : in_window e b → 0 ≤ o < 4096 → o mod 4 = 0 →
  write_u32 e b o v h = Done (tt, hw_write 4 (ptr e b o) v h).
Proof. intros Hw Ho Ha. unfold write_u32, bind, assert. rewrite Ha. by apply run_write_at. Qed.
End window.

(** Different registers of different functions have different addresses. *)
Lemma ptr_inj e b b' o o' : ecam_ok e → fn_ok e b → fn_ok e b' → in_window e b → in_window e b' →
  0 ≤ o < 4096 → 0 ≤ o' < 4096 → ptr e b o = ptr e b' o' → b = b' ∧ o = o'.
Proof.
  intros Eo Fo Fo' Hw Hw' Ho Ho'. unfold ptr. rewrite !phys_addr_to_dmap_add by (by apply cfg_phys_addr).
  unfold cfg_phys. destruct Fo as [S1 B1 D1 F1], Fo' as [S2 B2 D2 F2], b as [s1 b1 d1 f1], b' as [s2 b2 d2 f2].
  cbn [bdf_segment bus device function] in *. intros E.
  assert (b1 = b2) as -> by lia. assert (d1 = d2) as -> by lia. assert (f1 = f2) as -> by lia. split; [congruence|lia].
Qed.

(** ** Registers with read-write and read-only bits *)

(** What a write leaves in a byte with the read-write bits [m]. *)
Definition mix (m old v : Z) : Z := Z.lor (Z.ldiff old m) (Z.land v m).
Definition byte_of (v i : Z) : Z := Z.shiftr v (8 * i) mod 256.

(** The devices are memory of bytes.  A write to a register of [rw_reg]
    changes the read-write bits of its bytes and nothing else (the base
    address and command registers of the PCI specification, section 7.5.1). *)
Class ConfigLaws (H : Type) {HM : Mmio H} := {
  hw_byte : Z → H → Z;
  rw_mask : Z → Z;
  rw_reg : nat → Z → Prop;
  hw_byte_ok a h : byte_ok (hw_byte a h);
  rw_mask_ok a : byte_ok (rw_mask a);
  hw_read_bytes n a h : hw_read n a h = from_le ((λ i, hw_byte (a + i) h) <$> seqZ 0 (Z.of_nat n));
  hw_write_bytes n a v h c : rw_reg n a →
    hw_byte c (hw_write n a v h) =
      if decide (a ≤ c < a + Z.of_nat n) then mix (rw_mask c) (hw_byte c h) (byte_of v (c - a)) else hw_byte c h
}.

Lemma mix_mix m o v x : mix m (mix m o v) x = mix m o x.
Proof.
  unfold mix. apply Z.bits_inj'. intros i Hi. rewrite !Z.lor_spec, !Z.ldiff_spec, !Z.land_spec, Z.lor_spec, Z.ldiff_spec, Z.land_spec.
  by destruct (Z.testbit m i), (Z.testbit o i), (Z.testbit v i), (Z.testbit x i).
Qed.
Lemma mix_same m o : mix m o o = o.
Proof.
  unfold mix. apply Z.bits_inj'. intros i Hi. rewrite !Z.lor_spec, !Z.ldiff_spec, !Z.land_spec.
  by destruct (Z.testbit m i), (Z.testbit o i).
Qed.
Lemma mix_ones m o : byte_ok m → mix m o 255 = Z.lor o m.
Proof.
  intros Hm. unfold mix. change 255 with (Z.ones 8). rewrite (Z.land_comm _ m), Z.land_ones, Z.mod_small by (unfold byte_ok in Hm; lia).
  apply Z.bits_inj'. intros i Hi. rewrite !Z.lor_spec, !Z.ldiff_spec. by destruct (Z.testbit m i), (Z.testbit o i).
Qed.

Lemma byte_of_0 b x : byte_ok b → byte_of (b + 256 * x) 0 = b.
Proof. intros Hb. unfold byte_of. rewrite Z.shiftr_0_r, Z.mul_comm, Z_mod_plus_full. by apply Z.mod_small. Qed.
Lemma byte_of_S b x i : byte_ok b → 0 ≤ i → byte_of (b + 256 * x) (i + 1) = byte_of x i.
Proof.
  intros Hb Hi. unfold byte_of. replace (8 * (i + 1)) with (8 + 8 * i) by lia. rewrite <- Z.shiftr_shiftr by lia. f_equal. f_equal.
  rewrite Z.shiftr_div_pow2 by lia. change (2 ^ 8) with 256. unfold byte_ok in Hb. rewrite Z.mul_comm, Z.div_add, Z.div_small by lia. lia.
Qed.

(** The bytes of a little-endian number. *)
Lemma byte_of_from_le l i b : bytes_ok l → l !! i = Some b → byte_of (from_le l) (Z.of_nat i) = b.
Proof.
  intros Hl. revert i. induction Hl as [|c l Hc Hl IH]; intros [|i] Hi; simplify_eq/=; [by apply byte_of_0|].
  replace (Z.of_nat (S i)) with (Z.of_nat i + 1) by lia. rewrite byte_of_S by (done || lia). by apply IH.
Qed.

Lemma byte_lor a b : byte_ok a → byte_ok b → byte_ok (Z.lor a b).
Proof.
  unfold byte_ok. change 256 with (2 ^ 8). intros Ha Hb. rewrite <- (Z.mod_small a (2 ^ 8)), <- (Z.mod_small b (2 ^ 8)) by done.
  rewrite <- !Z.land_ones, <- Z.land_lor_distr_l, Z.land_ones by lia. by apply Z.mod_pos_bound.
Qed.

Lemma from_le_lor {A} (f g : A → Z) (l : list A) : (∀ x, byte_ok (f x)) → (∀ x, byte_ok (g x)) →
  from_le ((λ x, Z.lor (f x) (g x)) <$> l) = Z.lor (from_le (f <$> l)) (from_le (g <$> l)).
Proof.
  intros Hf Hg. induction l as [|x l IH]; [done|]. rewrite !fmap_cons. cbn [from_le]. rewrite IH.
  set (X := from_le (f <$> l)). set (Y := from_le (g <$> l)). pose proof (byte_lor _ _ (Hf x) (Hg x)) as Hl.
  pose proof (Hf x) as Hfx. pose proof (Hg x) as Hgx. unfold byte_ok in *.
  rewrite !(Z.mul_comm 256). change 256 with (2 ^ 8). rewrite <- !lor_shiftl_add by (done || lia). rewrite Z.shiftl_lor.
  rewrite !Z.lor_assoc. f_equal. rewrite <- !Z.lor_assoc. f_equal. apply Z.lor_comm.
Qed.

Section laws.
Context {H : Type} {HM : Mmio H} {CL : ConfigLaws H}.

(** States with the same contents. *)
Definition same (h h' : H) : Prop := ∀ a, hw_byte a h = hw_byte a h'.
#[global] Instance same_equiv : Equivalence same.
Proof. split; [done|intros h h' Hs a; by rewrite Hs|intros h1 h2 h3 H1 H2 a; by rewrite H1, H2]. Qed.

#[global] Instance hw_read_proper n a : Proper (same ==> eq) (hw_read n a).
Proof. intros h h' Hs. rewrite !hw_read_bytes. f_equal. apply list_fmap_ext. intros ? i _. apply Hs. Qed.
#[global] Instance cfg_proper e b n o : Proper (same ==> eq) (cfg e b n o).
Proof. intros h h' Hs. unfold cfg. case_decide; [by apply hw_read_proper|done]. Qed.

Lemma bytes_ok_read n a h : bytes_ok ((λ i, hw_byte (a + i) h) <$> seqZ 0 (Z.of_nat n)).
Proof. apply Forall_fmap, Forall_forall. intros i _. apply hw_byte_ok. Qed.

Lemma hw_read_range n a h : 0 ≤ hw_read n a h < 2 ^ (8 * Z.of_nat n).
Proof.
  rewrite hw_read_bytes. pose proof (from_le_range _ (bytes_ok_read n a h)) as Hr.
  by rewrite length_fmap, length_seqZ, Nat2Z.id in Hr.
Qed.

Lemma byte_of_read n a h c : a ≤ c < a + Z.of_nat n → byte_of (hw_read n a h) (c - a) = hw_byte c h.
Proof.
  intros Hc. rewrite hw_read_bytes. rewrite <- (Z2Nat.id (c - a)) by lia. apply byte_of_from_le; [apply bytes_ok_read|].
  rewrite list_lookup_fmap, lookup_seqZ_lt by lia. cbn. do 2 f_equal. lia.
Qed.

(** [h'] differs from [h] at most in the read-write bits of a register. *)
Definition near (n : nat) (a : Z) (h h' : H) : Prop :=
  ∀ c, if decide (a ≤ c < a + Z.of_nat n) then ∀ x, mix (rw_mask c) (hw_byte c h') x = mix (rw_mask c) (hw_byte c h) x
       else hw_byte c h' = hw_byte c h.

Lemma near_write n a v h : rw_reg n a → near n a h (hw_write n a v h).
Proof. intros Hr c. rewrite hw_write_bytes by done. case_decide; [|done]. intros x. apply mix_mix. Qed.

Lemma near_same n a h h1 h2 : near n a h h1 → same h1 h2 → near n a h h2.
Proof. intros Hn Hs c. specialize (Hn c). by rewrite <- Hs. Qed.

Lemma near_read n a h h' m c : near n a h h' → a + Z.of_nat n ≤ c → hw_read m c h' = hw_read m c h.
Proof.
  intros Hn Hc. rewrite !hw_read_bytes. f_equal. apply list_fmap_ext. intros k i Hi. apply lookup_seqZ in Hi as [-> Hi].
  specialize (Hn (c + (0 + Z.of_nat k))). by rewrite decide_False in Hn by lia.
Qed.

(** Writing the old value back restores everything. *)
Lemma write_back n a h h' : rw_reg n a → near n a h h' → same h (hw_write n a (hw_read n a h) h').
Proof.
  intros Hr Hn c. rewrite hw_write_bytes by done. specialize (Hn c). case_decide as Hc; [|done].
  rewrite byte_of_read by done. by rewrite Hn, mix_same.
Qed.
End laws.

(** ** Probing *)

(** The BARs that six registers describe, each given by its value and by
    what it reads after writing all ones. *)
Fixpoint decode (regs : list (Z * Z)) : list BarType :=
  match regs with
  | [] => []
  | (v, m) :: regs' =>
      if negb (Z.land v 1 =? 0) then
        (if (m =? 0) || (m =? unot 32 0) then [] else [Io (Z.land v 0xFFFFFFFC) (wrap 32 (unot 32 (Z.land m 0xFFFFFFFC) + 1))])
        ++ decode regs'
      else if Z.land (Z.shiftr v 1) 3 =? 0 then
        (if (m =? 0) || (m =? unot 32 0) then [] else
         [Memory32 (Z.land v 0xFFFFFFF0) (wrap 32 (unot 32 (Z.land m 0xFFFFFFF0) + 1)) (prefetchable_bit v)]) ++ decode regs'
      else if Z.land (Z.shiftr v 1) 3 =? 2 then
        match regs' with
        | [] => []
        | (vh, mh) :: regs'' =>
            let raw := Z.lor (Z.shiftl mh 32) (Z.land m 0xFFFFFFF0) in
            (if raw =? 0 then [] else
             [Memory64 (Z.lor (Z.shiftl vh 32) (Z.land v 0xFFFFFFF0)) (wrap 64 (unot 64 raw + 1)) (prefetchable_bit v)])
            ++ decode regs''
        end
      else decode regs'
  end.

Section probe.
Context {H : Type} {HM : Mmio H} {CL : ConfigLaws H} (e : Ecam) (b : Bdf).
Context (Eo : ecam_ok e) (Fo : fn_ok e b) (Hw : in_window e b).

(** The read-write bits of the register at [o]. *)
Definition reg_mask (o : Z) : Z := from_le ((λ i, rw_mask (ptr e b o + i)) <$> seqZ 0 4).
Definition bar_reg (h : H) (i : Z) : Z * Z :=
  let o := 0x10 + i * 4 in (cfg e b 4 o h, Z.lor (cfg e b 4 o h) (reg_mask o)).
Definition bars_of (h : H) : list BarType := decode (bar_reg h <$> seqZ 0 6).

Definition bars_rw : Prop := rw_reg 2 (ptr e b CMD_REG) ∧ ∀ i, 0 ≤ i < 6 → rw_reg 4 (ptr e b (0x10 + i * 4)).
Context (Rw : bars_rw).

Lemma cfg_in n o h : cfg e b n o h = hw_read n (ptr e b o) h.
Proof. unfold cfg. by rewrite decide_True. Qed.

(** A register reads back its value with the read-write bits set. *)
Lemma read_ones o h : rw_reg 4 (ptr e b o) →
  hw_read 4 (ptr e b o) (hw_write 4 (ptr e b o) 0xFFFFFFFF h) = Z.lor (hw_read 4 (ptr e b o) h) (reg_mask o).
Proof.
  intros Hr. rewrite !hw_read_bytes. unfold reg_mask. change (Z.of_nat 4) with 4.
  rewrite <- (from_le_lor (λ i, hw_byte (ptr e b o + i) h) (λ i, rw_mask (ptr e b o + i)))
    by (intros; apply hw_byte_ok || apply rw_mask_ok).
  f_equal. apply list_fmap_ext. intros k i Hi. apply lookup_seqZ in Hi as [-> Hi]. rewrite hw_write_bytes by done.
  rewrite decide_True by lia. rewrite Z.add_simpl_l, <- mix_ones by apply rw_mask_ok. f_equal.
  assert (k = 0 ∨ k = 1 ∨ k = 2 ∨ k = 3)%nat as [->|[->|[->| ->]]] by lia; done.
Qed.

Lemma run_probe_reg i h : 0 ≤ i < 6 →
  wp (probe_reg e b (0x10 + i * 4)) (λ p h', p = bar_reg h i ∧ same h h') h.
Proof.
  intros Hi. assert ((0x10 + i * 4) mod 4 = 0) as Ha by (apply Z.mod_divide; [done|]; exists (4 + i); lia).
  destruct Rw as [_ Rb]. specialize (Rb i Hi). unfold bar_reg. set (o := 0x10 + i * 4) in *.
  assert (0 ≤ o < 4096) as Ho by (unfold o; lia).
  unfold wp, probe_reg, bind. rewrite run_read_u32 by done. rewrite run_write_u32 by done. rewrite run_read_u32 by done.
  rewrite run_write_u32 by done. cbn [ret]. rewrite !cfg_in. split; [by rewrite read_ones|].
  apply write_back; [done|]. by apply near_write.
Qed.

Lemma bar_reg_same h h' i : same h h' → bar_reg h' i = bar_reg h i.
Proof. intros Hs. unfold bar_reg. by rewrite (cfg_proper e b 4 _ h h' Hs). Qed.

(** One iteration decodes the first registers of the list. *)
Lemma wp_probe_bar h0 h i : 0 ≤ i < 6 → same h0 h →
  wp (probe_bar e b i) (λ r h', same h0 h' ∧ 1 ≤ r.1 ∧
    decode (bar_reg h0 <$> seqZ i (6 - i)) = r.2 ++ decode (bar_reg h0 <$> seqZ (i + r.1) (6 - i - r.1))) h.
Proof.
  intros Hi Hs. unfold probe_bar. apply wp_bind. eapply wp_mono; [by apply run_probe_reg|]. intros p h1 [-> Hs1].
  rewrite (bar_reg_same h0 h i Hs). assert (same h0 h1) as Hs' by (by etrans).
  rewrite (seqZ_cons i (6 - i)) by lia. rewrite fmap_cons. replace (Z.succ i) with (i + 1) by lia. replace (Z.pred (6 - i)) with (6 - i - 1) by lia.
  destruct (bar_reg h0 i) as [v m] eqn:Er. cbn [decode]. cbv beta iota zeta.
  destruct (negb (Z.land v 1 =? 0)); [case_match; by apply wp_ret|].
  destruct (Z.land (Z.shiftr v 1) 3 =? 0); [case_match; by apply wp_ret|].
  destruct (Z.land (Z.shiftr v 1) 3 =? 2); [|by apply wp_ret].
  destruct (Z.leb_spec 5 i).
  - apply wp_ret. assert (i = 5) as -> by lia. done.
  - apply wp_bind. replace (0x10 + i * 4 + 4) with (0x10 + (i + 1) * 4) by lia.
    eapply wp_mono; [apply (run_probe_reg (i + 1)); lia|]. intros p h2 [-> Hs2]. rewrite (bar_reg_same h0 h1 _ Hs').
    assert (same h0 h2) as Hs'' by (by etrans).
    rewrite (seqZ_cons (i + 1)) by lia. rewrite fmap_cons. destruct (bar_reg h0 (i + 1)) as [vh mh]. cbv beta iota zeta.
    replace (Z.succ (i + 1)) with (i + 2) by lia. replace (Z.pred (6 - i - 1)) with (6 - i - 2) by lia.
    case_match; by apply wp_ret.
Qed.

Lemma bar_ptr i : 0 ≤ i < 6 → ptr e b CMD_REG + 2 ≤ ptr e b (0x10 + i * 4).
Proof.
  intros Hi. unfold CMD_REG. replace (0x10 + i * 4) with (4 + (12 + i * 4)) by lia. rewrite ptr_add by (done || lia). lia.
Qed.

Lemma wp_probe_loop fuel h0 h i acc : 0 ≤ i → 6 - i ≤ Z.of_nat fuel → same h0 h →
  wp (probe_loop e b fuel i acc) (λ r h', same h0 h' ∧ r = acc ++ decode (bar_reg h0 <$> seqZ i (6 - i))) h.
Proof.
  revert h i acc. induction fuel as [|fuel IH]; intros h i acc Hi Hf Hs; cbn [probe_loop];
    (destruct (Z.leb_spec 6 i) as [Hge|Hlt];
     [apply wp_ret; rewrite seqZ_nil by lia; by rewrite app_nil_r|]); [lia|].
  apply wp_bind. eapply wp_mono; [by apply (wp_probe_bar h0)|]. intros [n found] h' (Hs' & Hn & ->). cbn [fst snd] in *.
  eapply wp_mono; [apply (IH h' (i + n)); (done || lia)|]. cbn beta. intros r h'' [Hs'' ->]. split; [done|].
  rewrite <- app_assoc. by replace (6 - (i + n)) with (6 - i - n) by lia.
Qed.

(** Probing leaves the devices as they were. *)
Lemma wp_probe_bars h0 h : same h0 h → wp (probe_bars e b) (λ r h', same h0 h' ∧ r = bars_of h0) h.
Proof.
  intros Hs. destruct Rw as [Rc Rb]. unfold probe_bars. assert (0 ≤ CMD_REG < 4096 ∧ CMD_REG mod 2 = 0) as [Hc Ha] by done.
  eapply wp_bind. unfold wp at 1. rewrite run_read_u16 by done. rewrite cfg_in.
  eapply wp_bind. unfold wp at 1. rewrite run_write_u16 by done.
  set (v := Z.land _ _). set (h1 := hw_write 2 (ptr e b CMD_REG) v h).
  assert (near 2 (ptr e b CMD_REG) h h1) as Hn by (by apply near_write).
  assert (decode (bar_reg h1 <$> seqZ 0 6) = bars_of h0) as Eb.
  { unfold bars_of. apply (f_equal decode). apply list_fmap_ext. intros k i Hi. apply lookup_seqZ in Hi as [-> Hi].
    rewrite <- (bar_reg_same h0 h _ Hs). unfold bar_reg. rewrite !cfg_in. rewrite (near_read _ _ _ _ 4 _ Hn); [done|].
    apply bar_ptr. clear - Hi. lia. }
  eapply wp_bind, wp_mono; [by apply (wp_probe_loop 6 h1 h1)|]. cbn beta. intros r h2 [Hs2 ->].
  eapply wp_bind. unfold wp at 1. rewrite run_write_u16 by done. apply wp_ret. split; [|exact Eb].
  etrans; [exact Hs|]. apply write_back; [done|]. by eapply near_same.
Qed.
End probe.
