(* ===== verification/PcieScan.v ===== *)
(** * PCI enumeration: lemmas

    What a scan finds: the functions that answer, the buses that bridges
    lead to, and the devices added to the arena.  A piece of the scan is
    described by the set of endpoints it adds. *)

From S2P Require Import Prelude Bytes Vm Device Pcie PcieProofs.

(** The arena after adding a root. *)
Definition add_root (t : DeviceTree) (d : list str * list Resource) : DeviceTree :=
  {| nodes := nodes t ++ [new_node t None Other d.1 d.2 Regular]; roots := roots t ++ [length (nodes t)] |}.

Lemma run_add_root t d : add_device None Other d.1 d.2 Regular t = Done (length (nodes t), add_root t d).
Proof. done. Qed.

Lemma add_roots_ok ds t : tree_ok t → tree_ok (foldl add_root t ds) ∧ tree_extends t (foldl add_root t ds).
Proof.
  revert t. induction ds as [|d ds IH]; intros t Ok; [split; [done|apply tree_extends_refl]|]. cbn [foldl].
  assert (∀ p : nat, None = Some p → (p < length (nodes t))%nat) as Hp by done.
  destruct (IH (add_root t d)) as [Ok' Ex]; [exact (added_ok t None _ _ _ _ _ Ok Hp (run_add_root t d))|].
  split; [done|]. eapply tree_extends_trans; [|exact Ex]. exact (added_extends t None _ _ _ _ _ Hp (run_add_root t d)).
Qed.

Definition root_node (i : nat) (d : list str * list Resource) : DeviceNode :=
  {| node_id := i; priority := Regular; parent := None; class := Other; compatible := d.1; resources := d.2; children := [] |}.

Lemma add_roots_nodes ds t :
  nodes (foldl add_root t ds) = nodes t ++ imap (λ i, root_node (length (nodes t) + i)) ds.
Proof.
  revert t. induction ds as [|d ds IH]; intros t; cbn [foldl imap]; [by rewrite app_nil_r|]. rewrite IH. cbn [add_root nodes].
  rewrite <- app_assoc. f_equal. cbn [app]. rewrite Nat.add_0_r. f_equal. rewrite length_app. cbn [length].
  apply imap_ext. intros i x _. cbn. by replace (length (nodes t) + 1 + i)%nat with (length (nodes t) + S i)%nat by lia.
Qed.

(** The ranges of the BARs, when none reaches the end of the address space. *)
Definition bar_fits (x : BarType) : Prop :=
  match x with Memory32 a n _ | Memory64 a n _ => a + n < 2 ^ 64 | Io _ _ => True end.
Definition bar_range (x : BarType) : list Resource :=
  match x with Memory32 a n _ | Memory64 a n _ => [Device.Mmio a (a + n)] | Io _ _ => [] end.

Lemma run_bar_resources {S} bars (s : S) : Forall bar_fits bars → bar_resources bars s = Done (bars ≫= bar_range, s).
Proof.
  induction 1 as [|x bars Hx _ IH]; [done|]. destruct x as [a n p|a n p|a n]; cbn [bar_resources mbind list_bind bar_range app];
    [| |exact IH]; unfold bind, expect, checked_add; (rewrite (proj2 (Z.ltb_lt _ _)) by exact Hx); by rewrite IH.
Qed.

Section scan.
Context {H : Type} {HM : Mmio H} {CL : ConfigLaws H} (e : Ecam) (Eo : ecam_ok e) (h0 : H).

(** ** What is there *)

Definition fn (bus_ device_ function_ : Z) : Bdf := mkBdf (ecam_segment e) bus_ device_ function_.
Definition answers (b : Bdf) : Prop := cfg e b 2 0 h0 ≠ 0xFFFF.
Definition header (b : Bdf) : Z := Z.land (cfg e b 1 0x0E h0) 7.

(** The functions of a bus: function 0 of a device that answers, and the
    other functions that answer when it says that it has several. *)
Definition on_the_bus (b : Bdf) : Prop :=
  bdf_segment b = ecam_segment e ∧ 0 ≤ device b < 32 ∧ answers (fn (bus b) (device b) 0) ∧
  (function b = 0 ∨
   0 < function b < 8 ∧ Z.land (cfg e (fn (bus b) (device b) 0) 1 0x0E h0) 0x80 ≠ 0 ∧ answers b).

Definition leads_to (b : Bdf) (secondary : Z) : Prop :=
  header b = 1 ∧ secondary = cfg e b 1 0x19 h0 ∧ bus b < secondary ≤ cfg e b 1 0x1A h0.
Definition bridge (x y : Z) : Prop := ∃ b, bus b = x ∧ on_the_bus b ∧ leads_to b y.

Definition endpoint_from (x : Z) (b : Bdf) : Prop := rtc bridge x (bus b) ∧ on_the_bus b ∧ header b = 0.

Definition describe (b : Bdf) : list str * list Resource :=
  (compat (cfg e b 2 0 h0) (cfg e b 2 2 h0) (cfg e b 1 0x0B h0) (cfg e b 1 0x0A h0), bars_of e b h0 ≫= bar_range).

(** Every endpoint has read-write BARs that do not reach the end of the
    address space. *)
Definition endpoint_ok (b : Bdf) : Prop := bars_rw e b ∧ Forall bar_fits (bars_of e b h0).
Context (Hep : ∀ b, on_the_bus b → 0 ≤ bus b < 256 → header b = 0 → endpoint_ok b).

(** ** Pieces of the scan *)

(** From any state with the contents of [h0], [c] adds the endpoints of
    [P]. *)
Definition adds (c : M (H * DeviceTree) unit) (P : Bdf → Prop) : Prop :=
  ∀ h t, same h0 h → wp c (λ _ s, same h0 s.1 ∧ ∃ L, s.2 = foldl add_root t (describe <$> L) ∧ ∀ b, b ∈ L ↔ P b) (h, t).

Lemma adds_nothing : adds (ret tt) (λ _, False).
Proof. intros h t Hs. apply wp_ret. split; [done|]. exists []. split; [done|]. intros b. by rewrite elem_of_nil. Qed.

Lemma adds_seq c1 c2 P Q : adds c1 P → adds c2 Q → adds (c1 ;; c2) (λ b, P b ∨ Q b).
Proof.
  intros H1 H2 h t Hs. apply wp_bind. eapply wp_mono; [by apply H1|]. intros _ [h1 t1] (Hs1 & L1 & E1 & HL1). cbn [fst snd] in *.
  eapply wp_mono; [by apply H2|]. intros _ [h2 t2] (Hs2 & L2 & E2 & HL2). cbn [fst snd] in *. split; [done|].
  exists (L1 ++ L2). split; [by rewrite fmap_app, foldl_app, <- E1|]. intros b. by rewrite elem_of_app, HL1, HL2.
Qed.

Lemma adds_proper c (P Q : Bdf → Prop) : (∀ b, P b ↔ Q b) → adds c P → adds c Q.
Proof.
  intros HPQ Hc h t Hs. eapply wp_mono; [by apply Hc|]. intros _ s (Hs' & L & E & HL). split; [done|].
  exists L. split; [done|]. intros b. by rewrite HL.
Qed.

Lemma adds_for {A} (l : list A) c P : (∀ x, x ∈ l → adds (c x) (P x)) → adds (for_each l c) (λ b, ∃ x, x ∈ l ∧ P x b).
Proof.
  induction l as [|x l IH]; intros Hl; cbn [for_each].
  - eapply adds_proper; [|apply adds_nothing]. intros b. split; [done|]. by intros (x & ?%elem_of_nil & _).
  - eapply adds_proper; [|apply adds_seq; [apply Hl, list_elem_of_here|apply IH; intros; by apply Hl, list_elem_of_further]].
    intros b. setoid_rewrite elem_of_cons. naive_solver.
Qed.

(** A read of the configuration space is the one of [h0]. *)
Lemma adds_read {A} (c : M H A) v (k : A → M (H * DeviceTree) unit) P :
  (∀ h, same h0 h → c h = Done (v, h)) → adds (k v) P → adds (bind (on_hw c) k) P.
Proof. intros Hc Hk h t Hs. unfold wp, bind, on_hw. cbn [fst snd]. rewrite Hc by done. by apply Hk. Qed.

Lemma adds_u16 b o k P : fn_ok e b → 0 ≤ o < 4096 → o mod 2 = 0 → adds (k (cfg e b 2 o h0)) P →
  adds (bind (on_hw (read_u16 e b o)) k) P.
Proof. intros Fo Ho Ha. apply adds_read. intros h Hs. rewrite run_read_u16 by done. by rewrite (cfg_proper e b 2 o h0 h Hs). Qed.
Lemma adds_u8 b o k P : fn_ok e b → 0 ≤ o < 4096 → adds (k (cfg e b 1 o h0)) P →
  adds (bind (on_hw (read_u8 e b o)) k) P.
Proof. intros Fo Ho. apply adds_read. intros h Hs. rewrite run_read_u8 by done. by rewrite (cfg_proper e b 1 o h0 h Hs). Qed.

Lemma cfg_byte b o : 0 ≤ cfg e b 1 o h0 < 256.
Proof. unfold cfg. case_decide; [apply (hw_read_range 1)|done]. Qed.

Lemma answers_window b : answers b → in_window e b.
Proof. unfold answers, cfg. case_decide; [done|]. by intros []. Qed.

Lemma on_the_bus_window b : on_the_bus b → in_window e b.
Proof. intros (_ & _ & Hw%answers_window & _). exact Hw. Qed.

Lemma on_the_bus_fn b : on_the_bus b → 0 ≤ bus b < 256 → fn_ok e b.
Proof. intros (Hseg & Hd & _ & Hf) Hb. split; [done..|lia]. Qed.

(** An endpoint: its BARs are probed and it is added. *)
Lemma adds_endpoint b d : on_the_bus b → 0 ≤ bus b < 256 → header b = 0 → d = describe b →
  adds (let* bars := on_hw (probe_bars e b) in
        let* resources := bar_resources bars in
        on_tree (add_device None Other d.1 resources Regular) ;; ret tt) (λ b', b' = b).
Proof.
  intros Hb Hbus Hh -> h t Hs. destruct (Hep b Hb Hbus Hh) as [Rw Fits].
  pose proof (wp_probe_bars e b Eo (on_the_bus_fn b Hb Hbus) (on_the_bus_window b Hb) Rw h0 h Hs) as Hp.
  apply wp_run in Hp as (bars & h' & Ep & Hs' & ->). unfold wp, bind, on_hw. cbn [fst snd]. rewrite Ep.
  rewrite run_bar_resources by done. unfold on_tree. cbn [fst snd describe]. cbn [add_device ret].
  split; [done|]. exists [b]. split; [done|]. intros b'. by rewrite list_elem_of_singleton.
Qed.

(** What is added for one function, given what the scan of a bus adds. *)
Lemma adds_function scan b : on_the_bus b → 0 ≤ bus b < 256 →
  (∀ y, leads_to b y → adds (scan y) (endpoint_from y)) →
  adds (scan_function e scan b) (λ b', (b' = b ∧ header b = 0) ∨ ∃ y, leads_to b y ∧ endpoint_from y b').
Proof.
  intros Hb Hbus Hscan. pose proof (on_the_bus_fn b Hb Hbus) as Fo. unfold scan_function.
  apply adds_u16; [done..|]. apply adds_u16; [done..|]. apply adds_u8; [done..|]. apply adds_u8; [done..|]. apply adds_u8; [done..|].
  apply (adds_read _ (header b)).
  { intros h Hs. unfold bind. rewrite run_read_u8 by done. by rewrite <- (cfg_proper e b 1 _ h0 h Hs). }
  destruct (Z.eqb_spec (header b) 0) as [Hh|Hh].
  { eapply adds_proper; [|apply (adds_endpoint b (describe b)); done]. intros b'. split; [by left|].
    intros [[-> _]|(y & [Hh' _] & _)]; [done|]. congruence. }
  destruct (Z.eqb_spec (header b) 1) as [Hh1|Hh1].
  2: { eapply adds_proper; [|apply adds_nothing]. intros b'. split; [done|]. by intros [[_ ?]|(y & [? _] & _)]. }
  apply adds_u8; [done..|]. apply adds_u8; [done..|].
  destruct (Z.ltb_spec (bus b) (cfg e b 1 0x19 h0)), (Z.leb_spec (cfg e b 1 0x19 h0) (cfg e b 1 0x1A h0)); cbn [andb].
  1: { assert (leads_to b (cfg e b 1 0x19 h0)) as Hl by done. eapply adds_proper; [|by apply Hscan]. intros b'. split; [eauto|].
       intros [[_ ?]|(y & (_ & -> & _) & ?)]; done. }
  all: eapply adds_proper; [|apply adds_nothing]; intros b'; split; [done|]; intros [[_ ?]|(y & (_ & -> & ?) & _)]; (done || lia).
Qed.

(** What is added for the functions of one device. *)
Definition device_set (x d : Z) (b' : Bdf) : Prop :=
  ∃ b, on_the_bus b ∧ bus b = x ∧ device b = d ∧ ((b' = b ∧ header b = 0) ∨ ∃ y, leads_to b y ∧ endpoint_from y b').

Lemma adds_device scan x d : 0 ≤ x < 256 → 0 ≤ d < 32 →
  (∀ b y, bus b = x → leads_to b y → adds (scan y) (endpoint_from y)) →
  adds (scan_device e scan x d) (device_set x d).
Proof.
  intros Hx Hd Hscan. unfold scan_device. fold (fn x d 0).
  assert (∀ f, 0 ≤ f < 8 → fn_ok e (fn x d f)) as Fo by (intros; by split).
  apply adds_u16; [by apply Fo|done..|]. destruct (Z.eqb_spec (cfg e (fn x d 0) 2 0 h0) (unot 16 0)) as [Hv|Hv].
  { eapply adds_proper; [|apply adds_nothing]. intros b'. split; [done|]. intros (b & (_ & _ & Ha & _) & <- & <- & _). by apply Ha. }
  assert (on_the_bus (fn x d 0)) as H0 by (split; [done|split; [exact Hd|split; [exact Hv|by left]]]).
  assert (∀ f, 1 ≤ f < 1 + 7 → Z.land (cfg e (fn x d 0) 1 0x0E h0) 0x80 ≠ 0 → answers (fn x d f) → on_the_bus (fn x d f)) as Hfn.
  { intros f Hf Hm Ha. split; [done|split; [exact Hd|split; [exact Hv|right]]]. split; [cbn; lia|done]. }
  set (F b b' := (b' = b ∧ header b = 0) ∨ ∃ y, leads_to b y ∧ endpoint_from y b').
  set (multi := Z.land (cfg e (fn x d 0) 1 0x0E h0) 0x80 ≠ 0).
  eapply (adds_proper _ (λ b', F (fn x d 0) b' ∨ ∃ f, f ∈ seqZ 1 7 ∧ (multi ∧ answers (fn x d f) ∧ F (fn x d f) b'))).
  { intros b'. split.
    - intros [HF|(f & Hf%elem_of_seqZ & Hm & Ha & HF)]; [by exists (fn x d 0)|]. exists (fn x d f). split; [by apply Hfn|done].
    - intros ([sg bx bd f] & (Eseg & _ & _ & Hf) & Ex & Ed & HF). cbn in Eseg, Ex, Ed, Hf. subst.
      destruct Hf as [->|(Hf & Hm & Ha)]; [by left|]. right. exists f. rewrite elem_of_seqZ. split; [lia|]. done. }
  apply adds_seq; [apply adds_function; [done..|]; intros y; by apply Hscan|]. apply adds_u8; [by apply Fo|done|].
  destruct (Z.eqb_spec (Z.land (cfg e (fn x d 0) 1 0x0E h0) 0x80) 0) as [Hm|Hm]; cbn [negb].
  { eapply adds_proper; [|apply adds_nothing]. intros b'. split; [done|]. by intros (f & _ & ? & _). }
  apply adds_for. intros f Hf%elem_of_seqZ. cbn zeta. fold (fn x d f). apply adds_u16; [apply Fo; lia|done..|].
  destruct (Z.eqb_spec (cfg e (fn x d f) 2 0 h0) (unot 16 0)) as [Hvf|Hvf]; cbn [negb].
  { eapply adds_proper; [|apply adds_nothing]. intros b'. split; [done|]. by intros (_ & Ha & _). }
  eapply adds_proper; [|apply (adds_function scan (fn x d f)); [|done|]].
  - intros b'. split; [|by intros (_ & _ & ?)]. done.
  - by apply Hfn.
  - intros y. by apply Hscan.
Qed.

(** Bus numbers grow along bridges, so the recursion ends. *)
Lemma adds_bus fuel x : 0 ≤ x < 256 → 256 - x ≤ Z.of_nat fuel → adds (scan_bus e fuel x) (endpoint_from x).
Proof.
  revert x. induction fuel as [|fuel IH]; intros x Hx Hf; [lia|]. cbn [scan_bus].
  eapply adds_proper; [|apply (adds_for _ _ (device_set x)); intros d Hd%elem_of_seqZ; apply adds_device; [done|lia|]].
  - intros b'. split.
    + intros (d & _ & b & Hb & Ex & _ & [[-> Hh]|(y & Hl & Hr & ?)]); [by split; [rewrite <- Ex|]|].
      split; [|done]. eapply rtc_l; [|exact Hr]. by exists b.
    + intros (Hr & Hb & Hh). inversion Hr as [|? y ? (b & Ex & Hbo & Hl) Hr']; subst.
      * exists (device b'). split; [apply elem_of_seqZ; destruct Hb as (_ & ? & _); lia|]. exists b'. split_and!; try done. by left.
      * exists (device b). split; [apply elem_of_seqZ; destruct Hbo as (_ & ? & _); lia|]. exists b. split_and!; try done. right. by exists y.
  - intros b y Ex (_ & -> & Hy). pose proof (cfg_byte b 0x19). apply IH; lia.
Qed.
End scan.
