(* ===== verification/PcieLists.v ===== *)
(** * PCI capability lists: lemmas

    The standard list ends because an iteration marks a new bit of
    [visited], the extended list because of its counter; on a list that
    ends by itself the searches find the first capability with the
    identifier. *)

From S2P Require Import Prelude Bytes Vm Pcie PcieCap PcieProofs.

(** ** Bit sets *)

Definition unvisited (v : Z) : list Z := filter (λ i, Z.testbit v i = false) (seqZ 0 64).

Lemma testbit_mark v i j : 0 ≤ i → 0 ≤ j → Z.testbit (Z.lor v (Z.shiftl 1 i)) j = Z.testbit v j || bool_decide (i = j).
Proof.
  intros Hi Hj. rewrite Z.lor_spec, shiftl_1, Z.pow2_bits_eqb by lia. f_equal. apply eq_true_iff_eq.
  by rewrite Z.eqb_eq, bool_decide_eq_true.
Qed.

Lemma land_bit v i : 0 ≤ i → (Z.land v (Z.shiftl 1 i) =? 0) = negb (Z.testbit v i).
Proof.
  intros Hi. rewrite shiftl_1 by done. destruct (Z.testbit v i) eqn:E; cbn.
  - apply Z.eqb_neq. intros E0. assert (Z.testbit (Z.land v (2 ^ i)) i = false) as Hb by (by rewrite E0, Z.bits_0).
    by rewrite Z.land_spec, E, Z.pow2_bits_true in Hb by done.
  - apply Z.eqb_eq, Z.bits_inj'. intros j Hj. rewrite Z.land_spec, Z.bits_0, Z.pow2_bits_eqb by lia.
    destruct (Z.eqb_spec i j) as [<-|]; [by rewrite E|by rewrite andb_false_r].
Qed.

Lemma filter_length_lt {A} (P Q : A → Prop) `{∀ x, Decision (P x), ∀ x, Decision (Q x)} (l : list A) a :
  (∀ x, Q x → P x) → a ∈ l → P a → ¬ Q a → (length (filter Q l) < length (filter P l))%nat.
Proof.
  intros HQP Ha HPa HQa. assert (∀ k : list A, length (filter Q k) ≤ length (filter P k))%nat as Hle.
  { induction k as [|x k IH]; [done|]. rewrite !filter_cons. repeat case_decide; cbn; try lia. naive_solver. }
  induction l as [|x l IH]; [by apply elem_of_nil in Ha|]. apply elem_of_cons in Ha as [->|Ha]; rewrite !filter_cons.
  - rewrite (decide_True (P := P x)), (decide_False (P := Q x)) by done. cbn. specialize (Hle l). lia.
  - specialize (IH Ha). repeat case_decide; cbn; try lia. naive_solver.
Qed.

Lemma unvisited_mark v i : 0 ≤ i < 64 → Z.testbit v i = false →
  (length (unvisited (Z.lor v (Z.shiftl 1 i))) < length (unvisited v))%nat.
Proof.
  intros Hi Hv. apply (filter_length_lt _ _ _ i).
  - intros x. cbn beta. destruct (decide (0 ≤ x)); [rewrite testbit_mark by lia; intros E; by apply orb_false_iff in E as [? _]|].
    by rewrite !Z.testbit_neg_r by lia.
  - apply elem_of_seqZ. lia.
  - done.
  - rewrite testbit_mark, bool_decide_eq_true_2 by (done || lia). by rewrite orb_true_r.
Qed.

(** ** The standard list *)

Lemma land_fc v : 0 ≤ v → 0 ≤ Z.land v 0xFC ≤ 0xFC ∧ Z.land v 0xFC mod 4 = 0.
Proof.
  intros Hv. change 0xFC with (Z.shiftl (Z.ones 6) 2) at 1 2 4. split; [split|].
  - by apply Z.land_nonneg; left.
  - rewrite Z.land_comm. change 0xFC with (Z.shiftl (Z.ones 6) 2).
    assert (Z.land (Z.shiftl (Z.ones 6) 2) v = Z.shiftl (Z.land (Z.ones 6) (Z.shiftr v 2)) 2) as ->.
    { apply Z.bits_inj'. intros i Hi. rewrite Z.land_spec. destruct (decide (i < 2)).
      - by rewrite !Z.shiftl_spec_low by lia.
      - rewrite !Z.shiftl_spec, Z.land_spec, Z.shiftr_spec by lia. do 2 f_equal. lia. }
    rewrite Z.land_comm, Z.land_ones by lia. pose proof (Z.mod_pos_bound (Z.shiftr v 2) (2 ^ 6)).
    rewrite !Z.shiftl_mul_pow2 by lia. change (Z.ones 6) with 63. lia.
  - change 4 with (2 ^ 2). rewrite <- Z.land_ones, <- Z.land_assoc by lia. by rewrite Z.land_0_r.
Qed.

Section standard.
Context {H : Type} {HM : Mmio H} (e : Ecam) (Eo : ecam_ok e) (b : Bdf) (Fo : fn_ok e b) (h : H).
Context (Hbyte : ∀ o, 0 ≤ cfg e b 1 o h).

Definition cap_id (p : Z) : StandardCapabilityId := StandardCapabilityId_from (cfg e b 1 p h).
Definition cap_next (p : Z) : Z := Z.land (cfg e b 1 (p + 1) h) 0xFC.
Definition cap_start : Z := if bit_set (cfg e b 2 6 h) 4 then Z.land (cfg e b 1 0x34 h) 0xFC else 0.

(** The capabilities of a list that ends. *)
Inductive cap_list : Z → list (StandardCapabilityId * Z) → Prop :=
| cap_end p : p < 0x40 → cap_list p []
| cap_cons p l : 0x40 ≤ p → cap_list (cap_next p) l → cap_list p ((cap_id p, p) :: l).

Lemma cap_list_fun p l l' : cap_list p l → cap_list p l' → l = l'.
Proof.
  intros Hl. revert l'. induction Hl as [p Hp|p l Hp Hl IH]; intros l' Hl'; inversion Hl'; subst; (done || lia || idtac).
  f_equal. by apply IH.
Qed.

(** A pointer that an iteration accepts. *)
Definition ptr_ok (p : Z) : Prop := 0 ≤ p ≤ 0xFC ∧ p mod 4 = 0.

Lemma ptr_ok_bit p : ptr_ok p → Z.land (p / 4) 63 = p / 4 ∧ 0 ≤ p / 4 < 64 ∧ p = 4 * (p / 4).
Proof.
  intros [Hp Hm]. assert (p = 4 * (p / 4)) as E by (rewrite (Z.div_mod p 4) at 1; lia). split_and!; try lia.
  change 63 with (Z.ones 6). rewrite Z.land_ones by lia. apply Z.mod_small. change (2 ^ 6) with 64. lia.
Qed.

Lemma cap_next_ok p : ptr_ok (cap_next p).
Proof. apply land_fc, Hbyte. Qed.
Lemma cap_start_ok : ptr_ok cap_start.
Proof. unfold cap_start. case_match; [apply land_fc, Hbyte|done]. Qed.

Lemma run_next it : ptr_ok (next_ptr it) → StandardCapIter_next e b it h =
  Done (if decide (0x40 ≤ next_ptr it ∧ Z.testbit (visited it) (next_ptr it / 4) = false)
        then (Some (cap_id (next_ptr it), next_ptr it),
              {| next_ptr := cap_next (next_ptr it); visited := Z.lor (visited it) (Z.shiftl 1 (next_ptr it / 4)) |})
        else (None, it), h).
Proof.
  intros Hp. destruct (ptr_ok_bit _ Hp) as (E & Hi & _). unfold StandardCapIter_next. cbn zeta. rewrite E, land_bit by lia. clear E.
  destruct Hp as [Hp _]. rewrite (proj2 (Z.ltb_ge 0xFC _)) by lia. rewrite orb_false_r.
  destruct (Z.ltb_spec (next_ptr it) 0x40); [by rewrite decide_False by lia|].
  destruct (Z.testbit (visited it) (next_ptr it / 4)) eqn:Ev; cbn [negb]; [by rewrite decide_False by naive_solver|].
  rewrite decide_True by done. unfold bind. rewrite run_read_u8 by (done || lia). by rewrite run_read_u8 by (done || lia).
Qed.

Lemma run_new : StandardCapIter_new e b h = Done ({| next_ptr := cap_start; visited := 0 |}, h).
Proof.
  unfold StandardCapIter_new, bind. rewrite run_read_u16 by done. unfold cap_start, bit_set.
  destruct (negb _); cbn [ret]; [by rewrite run_read_u8 by done|done].
Qed.

(** The search returns, with fuel for the bits that are not set. *)
Lemma find_total fuel target it : ptr_ok (next_ptr it) → (length (unvisited (visited it)) < fuel)%nat →
  ∃ r, standard_find e b fuel target it h = Done (r, h) ∧
    ∀ o, r = Some o → 0x40 ≤ o ∧ ptr_ok o ∧ cap_id o = target.
Proof.
  revert it. induction fuel as [|fuel IH]; intros it Hp Hf; [lia|]. cbn [standard_find]. unfold bind. rewrite run_next by done.
  case_decide as Hd; [|by exists None]. destruct Hd as [H40 Hv]. destruct (ptr_ok_bit _ Hp) as (_ & Hi & _).
  case_decide as Ht; [exists (Some (next_ptr it)); split; [done|]; by intros o [= <-]|].
  apply IH; [apply cap_next_ok|]. cbn [visited]. pose proof (unvisited_mark (visited it) _ Hi Hv). lia.
Qed.

(** On a list that ends, the marked bits are capabilities further up. *)
Lemma find_first fuel target it l : ptr_ok (next_ptr it) → (length (unvisited (visited it)) < fuel)%nat →
  cap_list (next_ptr it) l →
  (∀ i, 0 ≤ i → Z.testbit (visited it) i = true → ∃ l', cap_list (4 * i) l' ∧ (length l < length l')%nat) →
  standard_find e b fuel target it h = Done (snd <$> List.find (λ x, bool_decide (x.1 = target)) l, h).
Proof.
  revert it l. induction fuel as [|fuel IH]; intros it l Hp Hf Hl Hvis; [lia|]. cbn [standard_find]. unfold bind. rewrite run_next by done.
  destruct (ptr_ok_bit _ Hp) as (_ & Hi & E4). inversion Hl as [p Hlt|p l' Hge Hl' Ep El]; subst.
  { rewrite decide_False by lia. done. }
  assert (Z.testbit (visited it) (next_ptr it / 4) = false) as Hv.
  { apply not_true_is_false. intros Hv. destruct (Hvis _ (proj1 Hi) Hv) as (k & Hk & Hlen). rewrite <- E4 in Hk.
    rewrite (cap_list_fun _ _ _ Hl Hk) in Hlen. lia. }
  rewrite decide_True by done. cbn [List.find fst]. case_decide as Ht; [by rewrite bool_decide_eq_true_2|].
  rewrite bool_decide_eq_false_2 by done. apply IH; [apply cap_next_ok| |done|].
  - cbn [visited]. pose proof (unvisited_mark (visited it) _ Hi Hv). lia.
  - intros i Hi0. cbn [visited]. rewrite testbit_mark by lia. intros [Ht'|Eb%bool_decide_eq_true]%orb_true_iff.
    + destruct (Hvis i Hi0 Ht') as (k & Hk & Hlen). exists k. split; [done|]. cbn in Hlen. lia.
    + exists ((cap_id (next_ptr it), next_ptr it) :: l'). split; [by rewrite <- Eb, <- E4|cbn; lia].
Qed.
End standard.

(** ** The extended list *)

Section extended.
Context {H : Type} {HM : Mmio H} (e : Ecam) (Eo : ecam_ok e) (b : Bdf) (Fo : fn_ok e b) (h : H).

Definition ext_header (p : Z) : Z := cfg e b 4 p h.
Definition ext_id (p : Z) : ExtendedCapabilityId := ExtendedCapabilityId_from (Z.land (ext_header p) 0xFFFF).
Definition ext_next (p : Z) : Z := Z.land (Z.shiftr (ext_header p) 20) 0xFFF.
Definition in_ext (p : Z) : Prop := 0x100 ≤ p ≤ 0xFFC.
Definition no_header (p : Z) : Prop := ext_header p = 0 ∨ ext_header p = 0xFFFFFFFF.

(** The capabilities of a list, and whether it ends at an address that is
    not aligned. *)
Inductive ext_list : Z → list (ExtendedCapabilityId * Z) → bool → Prop :=
| ext_out p : ¬ in_ext p → ext_list p [] false
| ext_empty p : in_ext p → p mod 4 = 0 → no_header p → ext_list p [] false
| ext_unaligned p : in_ext p → p mod 4 ≠ 0 → ext_list p [] true
| ext_cons p l t : in_ext p → p mod 4 = 0 → ¬ no_header p → ext_list (ext_next p) l t → ext_list p ((ext_id p, p) :: l) t.

Lemma no_header_eqb p : ((ext_header p =? 0) || (ext_header p =? 0xFFFFFFFF)) = true ↔ no_header p.
Proof. by rewrite orb_true_iff, !Z.eqb_eq. Qed.

Lemma ext_next_out it : ¬ in_ext (ext_next_ptr it) ∨ 64 ≤ count it → ExtendedCapIter_next e b it h = Done (None, it, h).
Proof.
  intros Ho. unfold ExtendedCapIter_next, in_ext in *. cbn zeta.
  destruct (Z.ltb_spec (ext_next_ptr it) 0x100), (Z.ltb_spec 0xFFC (ext_next_ptr it)), (Z.leb_spec 64 (count it)); cbn [orb]; (done || lia).
Qed.

Lemma ext_next_in it : in_ext (ext_next_ptr it) → count it < 64 → let p := ext_next_ptr it in
  (p mod 4 ≠ 0 → ExtendedCapIter_next e b it h = Fault Panic) ∧
  (p mod 4 = 0 → no_header p → ExtendedCapIter_next e b it h = Done (None, it, h)) ∧
  (p mod 4 = 0 → ¬ no_header p →
     ExtendedCapIter_next e b it h = Done (Some (ext_id p, p), {| ext_next_ptr := ext_next p; count := count it + 1 |}, h)).
Proof.
  intros Hin Hc p. unfold in_ext in Hin. fold p in Hin. unfold ExtendedCapIter_next. fold p. cbn zeta.
  rewrite (proj2 (Z.ltb_ge p 0x100)), (proj2 (Z.ltb_ge 0xFFC p)), (proj2 (Z.leb_gt 64 (count it))) by lia. cbn [orb]. split_and!.
  - intros Hp. unfold bind, read_u32, bind, assert. by rewrite (proj2 (Z.eqb_neq _ _) Hp).
  - intros Hp Hn. unfold bind. rewrite run_read_u32 by (done || lia). fold (ext_header p).
    by rewrite (proj2 (no_header_eqb p) Hn).
  - intros Hp Hn. unfold bind. rewrite run_read_u32 by (done || lia). fold (ext_header p).
    destruct (_ || _) eqn:E; [by apply no_header_eqb in E|]. done.
Qed.

(** The search finds the first capability; it panics when it gets to a
    pointer that is not aligned. *)
Lemma ext_find_first fuel target it l t : ext_list (ext_next_ptr it) l t →
  count it + Z.of_nat (length l) + (if t then 1 else 0) ≤ 64 → (length l < fuel)%nat →
  extended_find e b fuel target it h =
    match List.find (λ x, bool_decide (x.1 = target)) l with
    | Some x => Done (Some x.2, h)
    | None => if t then Fault Panic else Done (None, h)
    end.
Proof.
  revert it l. induction fuel as [|fuel IH]; intros it l Hl Hc Hf; [lia|]. cbn [extended_find]. unfold bind.
  inversion Hl as [p Hp|p Hp Ha Hn|p Hp Ha|p l' t' Hp Ha Hn Hl' Ep El]; subst; cbn [List.find length fst snd] in *.
  - by rewrite ext_next_out by auto.
  - destruct (decide (count it < 64)); [|by rewrite ext_next_out by (right; lia)].
    destruct (ext_next_in it Hp ltac:(done)) as (_ & -> & _); done.
  - destruct (ext_next_in it Hp ltac:(lia)) as (-> & _ & _); done.
  - destruct (ext_next_in it Hp ltac:(destruct t; lia)) as (_ & _ & ->); [|done..].
    case_decide as Et; [by rewrite bool_decide_eq_true_2|]. rewrite bool_decide_eq_false_2 by done. apply IH; cbn; (done || lia).
Qed.

(** The counter ends every search. *)
Lemma ext_find_ends fuel target it : count it ≤ 64 → 64 - count it < Z.of_nat fuel →
  extended_find e b fuel target it h = Fault Panic ∨ ∃ r, extended_find e b fuel target it h = Done (r, h).
Proof.
  revert it. induction fuel as [|fuel IH]; intros it H0 Hf; cbn [extended_find]; unfold bind; [lia|].
  destruct (decide (in_ext (ext_next_ptr it) ∧ count it < 64)) as [[Hin Hc]|Hout].
  2: { right. exists None. rewrite ext_next_out; [done|]. destruct (decide (in_ext (ext_next_ptr it))); [right|by left].
       apply Z.nlt_ge. naive_solver. }
  destruct (ext_next_in it Hin Hc) as (Hun & Hno & Hyes). destruct (decide (ext_next_ptr it mod 4 = 0)) as [Ha|Ha]; [|left; by rewrite Hun].
  destruct ((ext_header (ext_next_ptr it) =? 0) || (ext_header (ext_next_ptr it) =? 0xFFFFFFFF)) eqn:E.
  { right. exists None. by rewrite Hno by (done || by apply no_header_eqb). }
  rewrite Hyes by (done || by rewrite <- no_header_eqb, E). case_decide; [by right; eexists|]. apply IH; cbn; lia.
Qed.
End extended.
