(* ===== verification/PcieMsix.v ===== *)
(** * MSI-X: lemmas

    The entries of the MSI-X table as registers with read-write bits, and
    the programming of the table through a controller that satisfies the
    laws [MsiLaws]. *)

From S2P Require Import Prelude Bytes Vm Pcie PcieCap PcieProofs PcieLists.

Ltac in_list := rewrite !elem_of_cons; auto 10.

(** ** Bits of registers *)

Lemma testbit_byte v i : 0 ≤ i → 0 ≤ v → Z.testbit (byte_of v (i / 8)) (i mod 8) = Z.testbit v i.
Proof.
  intros Hi Hv. pose proof (Z.mod_pos_bound i 8). pose proof (Z.div_pos i 8).
  unfold byte_of. change 256 with (2 ^ 8). rewrite Z.mod_pow2_bits_low, Z.shiftr_spec by lia. f_equal.
  rewrite (Z.div_mod i 8) at 3 by done. lia.
Qed.

Section registers.
Context {H : Type} {HM : Mmio H} {CL : ConfigLaws H}.

Definition rw_bit (a i : Z) : Prop := Z.testbit (rw_mask (a + i / 8)) (i mod 8) = true.

Lemma testbit_read n a h i : 0 ≤ i < 8 * Z.of_nat n →
  Z.testbit (hw_read n a h) i = Z.testbit (hw_byte (a + i / 8) h) (i mod 8).
Proof.
  intros Hi. rewrite <- (testbit_byte (hw_read n a h) i) by (pose proof (hw_read_range n a h); lia). f_equal.
  rewrite <- (byte_of_read n a h (a + i / 8)); [f_equal; lia|]. split; [pose proof (Z.div_pos i 8); lia|].
  assert (i / 8 < Z.of_nat n); [|lia]. apply Z.div_lt_upper_bound; lia.
Qed.

(** A written bit is read back when it is read-write. *)
Lemma testbit_written n a v h i : rw_reg n a → 0 ≤ v → 0 ≤ i < 8 * Z.of_nat n → rw_bit a i →
  Z.testbit (hw_read n a (hw_write n a v h)) i = Z.testbit v i.
Proof.
  intros Hr Hv Hi Hm. rewrite testbit_read by done. rewrite hw_write_bytes by done.
  assert (i / 8 < Z.of_nat n) by (apply Z.div_lt_upper_bound; lia). pose proof (Z.div_pos i 8).
  rewrite decide_True by lia. unfold mix. rewrite Z.lor_spec, Z.ldiff_spec, Z.land_spec. rewrite Hm. cbn [negb].
  rewrite andb_false_r, andb_true_r. cbn [orb]. rewrite Z.add_simpl_l. apply testbit_byte; lia.
Qed.

Lemma read_written n a v h : rw_reg n a → 0 ≤ v < 2 ^ (8 * Z.of_nat n) → (∀ i, 0 ≤ i < 8 * Z.of_nat n → rw_bit a i) →
  hw_read n a (hw_write n a v h) = v.
Proof.
  intros Hr Hv Hm. apply Z.bits_inj'. intros i Hi. destruct (decide (i < 8 * Z.of_nat n)); [apply testbit_written; (done || lia || (apply Hm; lia))|].
  rewrite !(testbit_above _ (8 * Z.of_nat n)) by (apply hw_read_range || lia). done.
Qed.

(** A write leaves the reads of other addresses alone. *)
Lemma read_frame n a v h m c : rw_reg n a → a + Z.of_nat n ≤ c ∨ c + Z.of_nat m ≤ a →
  hw_read m c (hw_write n a v h) = hw_read m c h.
Proof.
  intros Hr Hc. rewrite !hw_read_bytes. f_equal. apply list_fmap_ext. intros k i Hi. apply lookup_seqZ in Hi as [-> Hi].
  rewrite hw_write_bytes by done. by rewrite decide_False by lia.
Qed.
End registers.

(** ** The table *)

Section table.
Context {H : Type} {HM : Mmio H} {CL : ConfigLaws H} (t : MsixTable).

Definition entry_ptr (i : Z) : Z := table_base t + i * 16.

(** The address and data of every entry and its mask bit are read-write. *)
Record table_ok : Prop := {
  to_count : 0 ≤ vector_count t < 2 ^ 60;
  to_regs i o : 0 ≤ i < vector_count t → o ∈ [0; 4; 8; 12] → rw_reg 4 (entry_ptr i + o);
  to_bits i o k : 0 ≤ i < vector_count t → o ∈ [0; 4; 8] → 0 ≤ k < 32 → rw_bit (entry_ptr i + o) k;
  to_mask i : 0 ≤ i < vector_count t → rw_bit (entry_ptr i + 12) 0
}.
Context (To : table_ok).

Definition masked (h : H) (i : Z) : Prop := Z.testbit (hw_read 4 (entry_ptr i + 12) h) 0 = true.
Definition programmed (h : H) (i doorbell event_id : Z) : Prop :=
  hw_read 4 (entry_ptr i) h = wrap 32 doorbell ∧ hw_read 4 (entry_ptr i + 4) h = wrap 32 (Z.shiftr doorbell 32) ∧
  hw_read 4 (entry_ptr i + 8) h = event_id ∧ ¬ masked h i.

(** [h'] differs from [h] only in entries of [P]. *)
Definition only (P : Z → Prop) (h h' : H) : Prop :=
  ∀ m c, (∀ i, 0 ≤ i < vector_count t → P i → entry_ptr i + 16 ≤ c ∨ c + Z.of_nat m ≤ entry_ptr i) → hw_read m c h' = hw_read m c h.

Lemma only_refl P h : only P h h.
Proof. done. Qed.
Lemma only_trans P Q h1 h2 h3 : only P h1 h2 → only Q h2 h3 → only (λ i, P i ∨ Q i) h1 h3.
Proof. intros H1 H2 m c Hc. rewrite H2, H1; [done|intros; apply Hc; auto..]. Qed.
Lemma only_weaken (P Q : Z → Prop) h h' : (∀ i, P i → Q i) → only P h h' → only Q h h'.
Proof. intros HPQ Ho m c Hc. apply Ho. intros i Hi HP. apply Hc; auto. Qed.

Lemma only_entry P h h' i o : only P h h' → ¬ P i → 0 ≤ o ≤ 12 → hw_read 4 (entry_ptr i + o) h' = hw_read 4 (entry_ptr i + o) h.
Proof.
  intros Ho HP Hr. apply Ho. intros j _ HPj. unfold entry_ptr. assert (i ≠ j) by congruence. lia.
Qed.

Lemma only_masked P h h' i : only P h h' → ¬ P i → masked h' i ↔ masked h i.
Proof. intros Ho HP. unfold masked. by rewrite (only_entry P h h'). Qed.
Lemma only_programmed P h h' i d ev : only P h h' → ¬ P i → programmed h i d ev → programmed h' i d ev.
Proof.
  intros Ho HP (E0 & E1 & E2 & Hm). rewrite <- (Z.add_0_r (entry_ptr i)) in E0. split_and!.
  - rewrite <- (Z.add_0_r (entry_ptr i)). by rewrite (only_entry P h h').
  - by rewrite (only_entry P h h').
  - by rewrite (only_entry P h h').
  - by rewrite (only_masked P h h').
Qed.

Lemma write_only i o v h : 0 ≤ i < vector_count t → o ∈ [0; 4; 8; 12] → only (eq i) h (hw_write 4 (entry_ptr i + o) v h).
Proof.
  intros Hi Ho m c Hc. apply read_frame; [by apply (to_regs To)|]. specialize (Hc i Hi eq_refl).
  assert (0 ≤ o ≤ 12) by (set_unfold; lia). lia.
Qed.

(** ** Operations on an entry *)

Lemma run_entry {S} i (s : S) : 0 ≤ i < vector_count t → entry t i s = Done (Some (entry_ptr i), s).
Proof.
  intros Hi. unfold entry. rewrite (proj2 (Z.leb_gt _ _)) by lia. unfold bind, expect, checked_mul.
  destruct To as [Hc _ _ _]. by rewrite (proj2 (Z.ltb_lt _ _)) by lia.
Qed.

Lemma set_masked_spec i m h : 0 ≤ i < vector_count t →
  wp (set_masked (entry_ptr i) m) (λ _ h', only (eq i) h h' ∧ (masked h' i ↔ m = true) ∧
    ∀ o, o ∈ [0; 4; 8] → hw_read 4 (entry_ptr i + o) h' = hw_read 4 (entry_ptr i + o) h) h.
Proof.
  intros Hi. unfold set_masked. cbn zeta. unfold OFFSET_VEC_CTRL. wp_step. apply wp_gets. apply wp_modify.
  set (cur := hw_read 4 _ h). pose proof (hw_read_range 4 (entry_ptr i + 12) h) as Hc. fold cur in Hc.
  split_and!; [apply write_only; first [done|in_list]| |].
  - unfold masked. rewrite testbit_written; [|apply (to_regs To); first [done|in_list]| |done|by apply (to_mask To)].
    + destruct m; [rewrite Z.lor_spec|rewrite Z.land_spec, unot_spec by lia].
      * by rewrite orb_true_r.
      * by rewrite andb_false_r.
    + destruct m; [apply Z.lor_nonneg; unfold VEC_CTRL_MASK_BIT; lia|]. apply Z.land_nonneg. left. lia.
  - intros o Ho. apply read_frame; [apply (to_regs To); first [done|in_list]|]. assert (0 ≤ o ≤ 8) by (set_unfold; lia). lia.
Qed.

Lemma configure_spec i d ev h : 0 ≤ i < vector_count t → 0 ≤ ev < 2 ^ 32 →
  wp (configure (entry_ptr i) d ev false) (λ _ h', only (eq i) h h' ∧ programmed h' i d ev) h.
Proof.
  intros Hi Hev. unfold configure, set_address, set_data, OFFSET_ADDR_LOW, OFFSET_ADDR_HIGH, OFFSET_DATA.
  wp_step. wp_step. apply wp_modify. apply wp_modify. wp_step. apply wp_modify.
  set (h1 := hw_write 4 (entry_ptr i + 0) _ h). set (h2 := hw_write 4 (entry_ptr i + 4) _ h1). set (h3 := hw_write 4 (entry_ptr i + 8) _ h2).
  assert (∀ o, o ∈ [0; 4; 8; 12] → rw_reg 4 (entry_ptr i + o)) as Hrw by (intros; by apply (to_regs To)).
  assert (∀ o v h, 0 ≤ v < 2 ^ 32 → o ∈ [0; 4; 8] → hw_read 4 (entry_ptr i + o) (hw_write 4 (entry_ptr i + o) v h) = v) as Hw.
  { intros o v k Hv Ho. apply read_written; [apply Hrw, (elem_of_app [0; 4; 8] [12]); by left|done|]. intros; by apply (to_bits To). }
  eapply wp_mono; [by apply set_masked_spec|]. intros _ h4 (Ho & Hm & Hk). split.
  - eapply (only_weaken (λ j, ((i = j ∨ i = j) ∨ i = j) ∨ i = j)); [tauto|].
    repeat (eapply only_trans; [|eassumption || (apply write_only; first [done|in_list])]). apply write_only; first [done|in_list].
  - split_and!; [| | |by rewrite Hm].
    + rewrite <- (Z.add_0_r (entry_ptr i)). rewrite Hk by in_list. unfold h3. rewrite read_frame by first [apply Hrw; in_list|lia].
      unfold h2. rewrite read_frame by first [apply Hrw; in_list|lia]. apply Hw; [by apply wrap_range|in_list].
    + rewrite Hk by in_list. unfold h3. rewrite read_frame by first [apply Hrw; in_list|lia].
      apply Hw; [by apply wrap_range|in_list].
    + rewrite Hk by in_list. apply Hw; [done|in_list].
Qed.
End table.

(** ** The controller *)

(** What a client relies on: the controller keeps its invariant and records
    the LPI of each event, and a mapped LPI belonged to no event. *)
Class MsiLaws (C E : Type) {MC : MsiController C E} := {
  ic_inv : C → Prop;
  ic_events : C → gmap (Z * Z) Z;
  ic_register_law d n c : ic_inv c → 0 ≤ n ≤ 11 →
    wp (ic_register_device d n) (λ _ c', ic_inv c' ∧ ic_events c' = ic_events c) c;
  ic_doorbell_law c : ic_inv c → wp ic_get_doorbell (λ _ c', ic_inv c' ∧ ic_events c' = ic_events c) c;
  ic_map_law d e cpu c : ic_inv c →
    wp (ic_map_event d e None cpu) (λ r c', ic_inv c' ∧
      match r with
      | Ok l => (∀ k, ic_events c !! k ≠ Some l) ∧ ic_events c' = <[(d, e) := l]> (ic_events c)
      | Err _ => ic_events c' = ic_events c
      end) c
}.

Section program.
Context {H : Type} {HM : Mmio H} {CL : ConfigLaws H} (t : MsixTable) (To : table_ok t).
Context {C E : Type} {MC : MsiController C E} {ML : MsiLaws C E}.

Lemma wp_on_bus {A} (c : M H A) (Q : A → H * C → Prop) h k : wp c (λ a h', Q a (h', k)) h → wp (on_bus c) Q (h, k).
Proof. unfold wp, on_bus. cbn [fst snd]. by destruct (c h) as [[a h']|]. Qed.
Lemma wp_on_ic {A} (c : M C A) (Q : A → H * C → Prop) h k : wp c (λ a k', Q a (h, k')) k → wp (on_ic c) Q (h, k).
Proof. unfold wp, on_ic. cbn [fst snd]. by destruct (c k) as [[a k']|]. Qed.

Lemma wp_mask_all h (k : C) : wp (mask_all t) (λ _ s, s.2 = k ∧ only t (λ _, True) h s.1 ∧ ∀ i, 0 ≤ i < vector_count t → masked t s.1 i) (h, k).
Proof.
  unfold mask_all. destruct (to_count t To) as [Hc _].
  cut (∀ n i h, 0 ≤ i → i + Z.of_nat n = vector_count t → wp (for_each (seqZ i (Z.of_nat n)) (λ i,
    let* p := entry t i in match p with Some p => on_bus (set_masked p true) | None => ret tt end))
    (λ _ s, s.2 = k ∧ only t (λ j, i ≤ j) h s.1 ∧ ∀ j, i ≤ j < vector_count t → masked t s.1 j) (h, k)).
  { intros Hl. specialize (Hl (Z.to_nat (vector_count t)) 0 h). rewrite Z2Nat.id in Hl by done.
    eapply wp_mono; [by apply Hl|]. intros _ s (? & Ho & ?). split_and!; try done. by eapply only_weaken, Ho. }
  clear h. induction n as [|n IH]; intros i h Hi Hn.
  - rewrite seqZ_nil by lia. apply wp_ret. cbn [fst snd]. split_and!; [done|by apply only_refl|lia].
  - rewrite seqZ_cons by lia. replace (Z.succ i) with (i + 1) by lia. replace (Z.pred (Z.of_nat (S n))) with (Z.of_nat n) by lia.
    cbn [for_each]. wp_step. wp_step. unfold wp at 1. rewrite (run_entry t To) by lia. apply wp_on_bus.
    eapply wp_mono; [apply (set_masked_spec t To); lia|]. intros _ h1 (Ho1 & Hm1 & _).
    eapply wp_mono; [apply (IH (i + 1) h1); lia|]. intros _ [h2 k2] (Ek & Ho2 & Hm2). cbn [fst snd] in *. split_and!; [done| |].
    + eapply only_weaken; [|by eapply only_trans]. cbn. intros j [<-|?]; lia.
    + intros j Hj. destruct (decide (j = i)) as [->|Hne]; [|apply Hm2; lia].
      apply (only_masked t _ _ _ _ Ho2); [cbn; lia|]. by apply Hm1.
Qed.

(** What the entries of the events [i, i + n) hold. *)
Definition vectors (dev d i : Z) (rs : list (option Z)) (h : H) (c : C) : Prop :=
  ∀ k r, rs !! k = Some r →
    match r with
    | Some l => ic_events c !! (dev, i + Z.of_nat k) = Some l ∧ programmed t h (i + Z.of_nat k) d (i + Z.of_nat k)
    | None => masked t h (i + Z.of_nat k)
    end.

Lemma wp_map_vectors dev d ncpu n : ∀ i acc h c, 0 ≤ i → i + Z.of_nat n ≤ vector_count t → vector_count t ≤ 2 ^ 32 → ic_inv c →
  (∀ j, i ≤ j < i + Z.of_nat n → masked t h j) →
  NoDup acc → (∀ l, l ∈ acc → ∃ j, j < i ∧ ic_events c !! (dev, j) = Some l) →
  wp (map_vectors t dev d ncpu (seqZ i (Z.of_nat n)) acc) (λ r s, ic_inv s.2 ∧ NoDup r ∧
    only t (λ j, i ≤ j < i + Z.of_nat n) h s.1 ∧ (∀ j, j < i → ic_events s.2 !! (dev, j) = ic_events c !! (dev, j)) ∧
    ∃ rs, length rs = n ∧ r = acc ++ omap id rs ∧ vectors dev d i rs s.1 s.2) (h, c).
Proof.
  induction n as [|n IH]; intros i acc h c Hi Hn H32 Hc Hm Hnd Hacc.
  - rewrite seqZ_nil by lia. apply wp_ret. cbn [fst snd]. split_and!; [done..|by apply only_refl|done|].
    exists []. rewrite app_nil_r. by split_and!.
  - rewrite seqZ_cons by lia. replace (Z.succ i) with (i + 1) by lia. replace (Z.pred (Z.of_nat (S n))) with (Z.of_nat n) by lia.
    cbn [map_vectors]. wp_step. unfold wp at 1. rewrite (run_entry t To) by lia. cbn zeta. wp_step. apply wp_on_ic.
    eapply wp_mono; [by apply ic_map_law|]. intros [l|er] c1 (Hc1 & Hr).
    + destruct Hr as [Hfresh Ev]. wp_step. apply wp_on_bus. eapply wp_mono; [apply (configure_spec t To); lia|]. intros _ h1 [Ho1 Hp1].
      eapply wp_mono; [apply (IH (i + 1) (acc ++ [l]) h1 c1); try (done || lia)|].
      * intros j Hj. apply (only_masked t _ _ _ _ Ho1); [cbn; lia|]. apply Hm. lia.
      * apply NoDup_app. split; [done|]. split; [|apply NoDup_singleton]. intros x Hx ->%list_elem_of_singleton.
        destruct (Hacc l Hx) as (j & _ & Ej). by eapply Hfresh.
      * intros x [Hx| ->%list_elem_of_singleton]%elem_of_app; [|exists i; rewrite Ev, lookup_insert_eq; split; [lia|done]].
        destruct (Hacc x Hx) as (j & Hj & Ej). exists j. split; [lia|]. rewrite Ev. rewrite lookup_insert_ne by (injection 1; lia). done.
      * intros r [h2 c2] (Hc2 & Hnd2 & Ho2 & Hold & rs & Hlen & -> & Hv). cbn [fst snd] in *. split_and!; [done..| | |].
        -- eapply only_weaken; [|by eapply only_trans]. cbn. intros j [<-|?]; lia.
        -- intros j Hj. rewrite Hold by lia. rewrite Ev. by rewrite lookup_insert_ne by (injection 1; lia).
        -- exists (Some l :: rs). split_and!; [cbn; lia|by rewrite <- app_assoc|]. intros [|k] r Hk; cbn in Hk.
           ++ injection Hk as <-. rewrite Z.add_0_r. split; [by rewrite Hold, Ev, lookup_insert_eq by lia|].
              eapply only_programmed; [exact Ho2|cbn; lia|done].
           ++ specialize (Hv k r Hk). by replace (i + Z.of_nat (S k)) with (i + 1 + Z.of_nat k) by lia.
    + eapply wp_mono; [apply (IH (i + 1) acc h c1); try (done || lia)|].
      * intros j Hj. apply Hm. lia.
      * intros x Hx. destruct (Hacc x Hx) as (j & Hj & Ej). exists j. split; [lia|]. by rewrite Hr.
      * intros r [h2 c2] (Hc2 & Hnd2 & Ho2 & Hold & rs & Hlen & -> & Hv). cbn [fst snd] in *. split_and!; [done..| | |].
        -- eapply only_weaken; [|exact Ho2]. cbn. intros j ?; lia.
        -- intros j Hj. rewrite Hold by lia. by rewrite Hr.
        -- exists (None :: rs). split_and!; [cbn; lia|done|]. intros [|k] r Hk; cbn in Hk.
           ++ injection Hk as <-. rewrite Z.add_0_r. apply (only_masked t _ _ _ _ Ho2); [cbn; lia|]. apply Hm. lia.
           ++ specialize (Hv k r Hk). by replace (i + Z.of_nat (S k)) with (i + 1 + Z.of_nat k) by lia.
Qed.
End program.

(** ** Enabling MSI-X *)

Lemma events_log2_range n : 1 ≤ n ≤ 2048 → 0 ≤ trailing_zeros 32 (next_power_of_two n) ≤ 11.
Proof.
  intros Hn. unfold next_power_of_two. assert (0 ≤ Z.log2_up n ≤ 11) as Hl.
  { split; [apply Z.log2_up_nonneg|]. change 11 with (Z.log2_up 2048). apply Z.log2_up_le_mono. lia. }
  set (k := Z.log2_up n) in *. destruct (trailing_zeros_spec 32 (2 ^ k) 12) as [H0 Hd]; [apply pow2_pos; lia|done|].
  split; [done|]. destruct (decide (12 ≤ trailing_zeros 32 (2 ^ k))) as [Hge|]; [|lia]. apply Hd in Hge.
  apply Z.divide_pos_le in Hge; [|apply pow2_pos; lia]. pose proof (pow2_le k 11 ltac:(lia)). assert (2 ^ 12 = 2 * 2 ^ 11) by done. lia.
Qed.

Section enable.
Context {H : Type} {HM : Mmio H} {CL : ConfigLaws H} (e : Ecam) (b : Bdf) (Eo : ecam_ok e) (Fo : fn_ok e b) (Hw : in_window e b).

(** The bits of a 16-bit register of the function, and a write to it. *)
Definition cfg_bit (o i : Z) (h : H) : bool := Z.testbit (cfg e b 2 o h) i.

Definition rw_field (o : Z) (bits : list Z) : Prop :=
  0 ≤ o ∧ o + 2 ≤ 4096 ∧ o mod 2 = 0 ∧ rw_reg 2 (ptr e b o) ∧ Forall (λ i, 0 ≤ i < 16 ∧ rw_bit (ptr e b o) i) bits.

(** Reading, changing and writing back a register. *)
Lemma wp_update o bits (f : Z → Z) h : rw_field o bits → (∀ v, 0 ≤ v → 0 ≤ f v) →
  wp (let* v := read_u16 e b o in write_u16 e b o (f v))
     (λ _ h', h' = hw_write 2 (ptr e b o) (f (cfg e b 2 o h)) h ∧
              ∀ i, i ∈ bits → cfg_bit o i h' = Z.testbit (f (cfg e b 2 o h)) i) h.
Proof.
  intros (H0 & H1 & Ha & Hr & Hb) Hf. unfold wp, bind. rewrite run_read_u16 by (done || lia). rewrite run_write_u16 by (done || lia).
  split; [done|]. intros i Hi. rewrite Forall_forall in Hb. destruct (Hb i Hi) as [Hi0 Hi1]. unfold cfg_bit. rewrite !cfg_in by done.
  apply testbit_written; [done| |done|done]. apply Hf, hw_read_range.
Qed.

Context (t : MsixTable) (To : table_ok t).

(** The table is not in the configuration space of the function. *)
Definition apart : Prop := ∀ i, 0 ≤ i < vector_count t → ptr e b 0 + 4096 ≤ entry_ptr t i ∨ entry_ptr t i + 16 ≤ ptr e b 0.
Context (Hap : apart).

Lemma ptr_0 o : 0 ≤ o < 4096 → ptr e b o = ptr e b 0 + o.
Proof. intros Ho. rewrite <- ptr_add by (done || lia). done. Qed.

(** A write to the configuration space leaves the table alone, and writes to
    the table leave the configuration space alone. *)
Lemma cfg_write_masked o bits v h i : rw_field o bits → 0 ≤ i < vector_count t →
  masked t (hw_write 2 (ptr e b o) v h) i ↔ masked t h i.
Proof.
  intros (H0 & H1 & _ & Hr & _) Hi. unfold masked. rewrite read_frame; [done|done|]. rewrite ptr_0 by lia.
  pose proof (Hap i Hi). lia.
Qed.

Lemma cfg_write_programmed o bits v h i d ev : rw_field o bits → 0 ≤ i < vector_count t →
  programmed t h i d ev → programmed t (hw_write 2 (ptr e b o) v h) i d ev.
Proof.
  intros Hf Hi (E0 & E1 & E2 & Hm). pose proof Hf as (H0 & H1 & _ & Hr & _). pose proof (Hap i Hi). pose proof (ptr_0 o ltac:(lia)).
  split_and!; [rewrite read_frame; [done|done|lia]..|]. by rewrite (cfg_write_masked o bits).
Qed.

Lemma only_cfg P o h h' : only t P h h' → 0 ≤ o → o + 2 ≤ 4096 → cfg e b 2 o h' = cfg e b 2 o h.
Proof. intros Ho H0 H1. rewrite !cfg_in by done. apply Ho. intros i Hi _. rewrite ptr_0 by lia. pose proof (Hap i Hi). lia. Qed.
End enable.

Lemma wp_bind_inv {S A B} (c : M S A) (k : A → M S B) Q s : wp (bind c k) Q s → wp c (λ a, wp (k a) Q) s.
Proof. unfold wp, bind. by destruct (c s) as [[a s']|]. Qed.

Section enable_spec.
Context {H : Type} {HM : Mmio H} {CL : ConfigLaws H} (e : Ecam) (b : Bdf) (Eo : ecam_ok e) (Fo : fn_ok e b) (Hw : in_window e b).
Context (t : MsixTable) (To : table_ok t) (Hap : apart e b t) (H32 : vector_count t ≤ 2 ^ 32).
Context {C E : Type} {MC : MsiController C E} {ML : MsiLaws C E}.

(** The number of vectors of the capability at [o]. *)
Definition msix_size (o : Z) (h : H) : Z := Z.land (cfg e b 2 (o + 2) h) 0x07FF + 1.

Lemma msix_size_range o h : 1 ≤ msix_size o h ≤ 2048.
Proof.
  unfold msix_size. change 0x07FF with (Z.ones 11). rewrite Z.land_ones by done.
  pose proof (Z.mod_pos_bound (cfg e b 2 (o + 2) h) (2 ^ 11) ltac:(done)). assert (2 ^ 11 = 2048) by done. lia.
Qed.

Lemma run_msix_read o h : 0x40 ≤ o → ptr_ok o →
  wp (MsixCap_read e b o) (λ m h', h' = h ∧ msix_offset m = o ∧ table_size m = msix_size o h) h.
Proof.
  intros H40 [Ho Ha]. unfold wp, MsixCap_read, bind.
  assert ((o + 2) mod 2 = 0 ∧ (o + 4) mod 4 = 0 ∧ (o + 8) mod 4 = 0) as (A1 & A2 & A3) by (split_and!; Z.div_mod_to_equations; lia).
  rewrite run_read_u16 by (done || lia). rewrite !run_read_u32 by (done || lia). done.
Qed.

Lemma run_find target h : ∃ r, find_capability e b target h = Done (r, h) ∧ ∀ o, r = Some o → 0x40 ≤ o ∧ ptr_ok o ∧ cap_id e b h o = target.
Proof.
  unfold find_capability, bind.
  assert (∀ o, 0 ≤ cfg e b 1 o h) as Hb by (intros o; rewrite cfg_in by done; apply hw_read_range).
  rewrite run_new by done. apply find_total; try done.
  - by apply cap_start_ok.
  - cbn [visited]. vm_compute. lia.
Qed.

(** What the table holds after [enable_msix] has mapped [rs]. *)
Definition vectors_enabled (rs : list (option Z)) (h : H) (c : C) : Prop :=
  ∃ d, vectors t (device_id b) d 0 rs h c ∧ ∀ i, Z.of_nat (length rs) ≤ i < vector_count t → masked t h i.

(** The tail of [enable_msix], from the masking of the table on. *)
Lemma wp_vectors d ncpu nv h c : 0 ≤ nv ≤ vector_count t → ic_inv c →
  wp (mask_all t ;; map_vectors t (device_id b) d ncpu (seqZ 0 nv) [])
     (λ r s, ic_inv s.2 ∧ NoDup r ∧ only t (λ _, True) h s.1 ∧
             ∃ rs, Z.of_nat (length rs) = nv ∧ r = omap id rs ∧ vectors_enabled rs s.1 s.2) (h, c).
Proof.
  intros Hnv Hc. wp_step. eapply wp_mono; [by apply wp_mask_all|]. intros _ [h1 c1] (Ec & Ho & Hm). cbn [fst snd] in *. subst c1.
  assert (nv = Z.of_nat (Z.to_nat nv)) as En by lia. rewrite En.
  eapply wp_mono; [apply (wp_map_vectors t To (device_id b) d ncpu (Z.to_nat nv) 0 [] h1 c); try (done || lia)|].
  - intros j Hj. apply Hm. lia.
  - apply NoDup_nil_2.
  - by intros l ?%elem_of_nil.
  - intros r [h2 c2] (Hc2 & Hnd & Ho2 & _ & rs & Hlen & -> & Hv). cbn [fst snd] in *. split_and!; [done..| |].
    + eapply only_weaken; [|by eapply only_trans]. done.
    + exists rs. split_and!; [lia|done|]. exists d. split; [done|]. intros i Hi. apply (only_masked t _ _ _ _ Ho2); [cbn; lia|].
      apply Hm. lia.
Qed.

Lemma vectors_at rs h c i : vectors_enabled rs h c → 0 ≤ i < vector_count t →
  masked t h i ∨ ∃ l, rs !! Z.to_nat i = Some (Some l).
Proof.
  intros (d & Hv & Hm) Hi. destruct (rs !! Z.to_nat i) as [[l|]|] eqn:Er; [eauto| |].
  - specialize (Hv _ _ Er). rewrite Z2Nat.id in Hv by lia. by left.
  - left. apply Hm. apply lookup_ge_None in Er. lia.
Qed.

Lemma all_masked rs h c i : vectors_enabled rs h c → omap id rs = [] → 0 ≤ i < vector_count t → masked t h i.
Proof.
  intros Hv Eo' Hi. destruct (vectors_at rs h c i Hv Hi) as [|[l Hl]]; [done|].
  assert (l ∈ omap id rs) as Hin by (apply list_elem_of_omap; exists (Some l); split; [by eapply list_elem_of_lookup_2|done]).
  rewrite Eo' in Hin. by apply elem_of_nil in Hin.
Qed.

Lemma cfg_write_enabled rs o bits v h c : rw_field e b o bits → Z.of_nat (length rs) ≤ vector_count t → vectors_enabled rs h c →
  vectors_enabled rs (hw_write 2 (ptr e b o) v h) c.
Proof.
  intros Hf Hl (d & Hv & Hm). exists d. split.
  - intros k r Hk. pose proof (lookup_lt_Some _ _ _ Hk). specialize (Hv k r Hk). destruct r as [l|].
    + destruct Hv as [Hev Hp]. split; [done|]. apply (cfg_write_programmed e b Eo Fo Hw t Hap o bits); [done|lia|done].
    + apply (cfg_write_masked e b Eo Fo Hw t Hap o bits); [done|lia|done].
  - intros i Hi. apply (cfg_write_masked e b Eo Fo Hw t Hap o bits); [done|lia|]. by apply Hm.
Qed.

(** The registers of the function that [enable_msix] writes. *)
Definition msix_writable (o : Z) : Prop := rw_field e b CMD_REG [1; 2] ∧ rw_field e b (o + 2) [14; 15].

Lemma wp_enable_cmd h : rw_field e b CMD_REG [1; 2] →
  wp (enable_memory_space e b ;; enable_bus_master e b)
     (λ _ h', cfg_bit e b CMD_REG 1 h' = true ∧ cfg_bit e b CMD_REG 2 h' = true ∧
              (∀ i, 0 ≤ i < vector_count t → masked t h' i ↔ masked t h i) ∧
              ∀ o, 0x40 ≤ o → o + 2 ≤ 4096 → cfg e b 2 o h' = cfg e b 2 o h) h.
Proof.
  intros Hf. pose proof Hf as (_ & _ & _ & Hr & _). wp_step.
  assert (∀ k, 0 ≤ k → ∀ v, 0 ≤ v → 0 ≤ Z.lor v (Z.shiftl 1 k)) as Hpos.
  { intros k Hk v Hv. apply Z.lor_nonneg. split; [done|]. by apply Z.shiftl_nonneg. }
  eapply wp_mono; [apply (wp_update e b Eo Fo Hw CMD_REG [1; 2]); [done|by apply Hpos]|]. intros _ h1 [E1 B1].
  eapply wp_mono; [apply (wp_update e b Eo Fo Hw CMD_REG [1; 2]); [done|by apply Hpos]|]. intros _ h2 [E2 B2].
  assert (1 ∈ [1; 2] ∧ 2 ∈ [1; 2]) as [I1 I2] by (rewrite !elem_of_cons; auto). split_and!.
  - rewrite (B2 1 I1), Z.lor_spec. fold (cfg_bit e b CMD_REG 1 h1). by rewrite (B1 1 I1), Z.lor_spec, orb_true_r.
  - by rewrite (B2 2 I2), Z.lor_spec, orb_true_r.
  - intros i Hi. rewrite E2, E1. by rewrite !(cfg_write_masked e b Eo Fo Hw t Hap CMD_REG [1; 2]) by done.
  - intros o Ho Hlt. rewrite E2, E1. rewrite !cfg_in by done. rewrite !read_frame; [done|done|..]; try done;
      unfold CMD_REG; rewrite (ptr_0 e b Eo Fo Hw o), (ptr_0 e b Eo Fo Hw 4) by lia; lia.
Qed.

Lemma wp_enable_msix ncpu h c : ic_inv c → (∀ o, find_capability e b MsiX h = Done (Some o, h) → msix_writable o) →
  wp (enable_msix e b t ncpu) (λ r s, ic_inv s.2 ∧
    match r with
    | Ok lpis => NoDup lpis ∧ cfg_bit e b CMD_REG 1 s.1 = true ∧ cfg_bit e b CMD_REG 2 s.1 = true ∧
        ∃ o rs, find_capability e b MsiX h = Done (Some o, h) ∧ Z.of_nat (length rs) = Z.min (msix_size o h) (vector_count t) ∧
          lpis = omap id rs ∧ vectors_enabled rs s.1 s.2 ∧
          cfg_bit e b (o + 2) 15 s.1 = true ∧ cfg_bit e b (o + 2) 14 s.1 = false
    | Err _ => ∀ i, 0 ≤ i < vector_count t → masked t h i → masked t s.1 i
    end) (h, c).
Proof.
  intros Hc Hwr. unfold enable_msix. wp_step. apply wp_on_bus. destruct (run_find MsiX h) as (r & Ef & Hr). unfold wp at 1. rewrite Ef.
  destruct r as [o|]; [|by apply wp_ret]. destruct (Hr o eq_refl) as (H40 & Hok & _). destruct (Hwr o Ef) as [Wc Wm]. clear Hr.
  wp_step. apply wp_on_bus. eapply wp_mono; [by apply run_msix_read|]. intros m h' (-> & Em & Es). rewrite Es. cbn zeta.
  pose proof (msix_size_range o h) as Hsz. destruct (to_count t To) as [Hc0 _]. unfold msix_len.
  destruct (Z.eqb_spec (Z.min (msix_size o h) (vector_count t)) 0); [by apply wp_ret|].
  pose proof (wp_bind_inv _ _ _ _ (wp_enable_cmd h Wc)) as Hcmd. wp_step. apply wp_on_bus. eapply wp_mono; [exact Hcmd|]. clear Hcmd.
  intros [] h1 Hcmd. wp_step. apply wp_on_bus. eapply wp_mono; [exact Hcmd|]. clear Hcmd h1. intros _ h2 (B1 & B2 & Hmk & Hcfg).
  wp_step. apply wp_on_ic. eapply wp_mono; [apply ic_register_law; [done|by apply events_log2_range]|]. intros [[]|er] c1 [Hc1 _].
  2: { apply wp_ret. split; [done|]. intros i Hi Hm. by apply Hmk. }
  wp_step. apply wp_on_ic. eapply wp_mono; [by apply ic_doorbell_law|]. intros [d|er] c2 [Hc2 _].
  2: { apply wp_ret. split; [done|]. intros i Hi Hm. by apply Hmk. }
  wp_step. eapply wp_mono; [eapply wp_bind_inv, (wp_vectors d (Z.max (wrap 32 ncpu) 1) (Z.min (msix_size o h) (vector_count t)) h2 c2); [lia|done]|].
  intros [] s1 Hvec. wp_step. eapply wp_mono; [exact Hvec|]. clear Hvec s1. intros lpis [h3 c3] (Hc3 & Hnd & Ho & rs & Hl & -> & Hv).
  cbn [fst snd] in *. destruct (omap id rs) as [|l ls] eqn:El.
  { apply wp_ret. split; [done|]. intros i Hi _. cbn [fst]. apply (all_masked rs h3 c3); [done|by rewrite El|done]. }
  wp_step. apply wp_on_bus. unfold MsixCap_enable. rewrite Em. eapply wp_mono.
  { apply (wp_update e b Eo Fo Hw (o + 2) [14; 15] (λ v, Z.land (Z.lor v (Z.shiftl 1 15)) (unot 16 (Z.shiftl 1 14)))); [done|].
    intros v Hv0. apply Z.land_nonneg. left. by apply Z.lor_nonneg. }
  intros _ h4 [E4 B4]. apply wp_ret. cbn [fst snd]. split; [done|]. split; [done|].
  assert (∀ k, cfg_bit e b CMD_REG k h4 = cfg_bit e b CMD_REG k h2) as Ecmd.
  { intros k. unfold cfg_bit. f_equal. rewrite E4. rewrite cfg_in by done. destruct Wm as (_ & ? & _ & Hr & _). rewrite read_frame; [|done|].
    - rewrite <- (cfg_in e b Hw). by apply (only_cfg e b Eo Fo Hw t Hap _ CMD_REG h2 h3 Ho).
    - right. rewrite (ptr_0 e b Eo Fo Hw (o + 2)), (ptr_0 e b Eo Fo Hw CMD_REG) by (done || lia). unfold CMD_REG. lia. }
  rewrite !Ecmd. split; [done|]. split; [done|]. exists o, rs. split; [done|]. split; [done|]. split; [by rewrite El|]. split.
  - rewrite E4. apply (cfg_write_enabled rs (o + 2) [14; 15]); [done|lia|done].
  - assert (14 ∈ [14; 15] ∧ 15 ∈ [14; 15]) as [I1 I2] by (rewrite !elem_of_cons; auto).
    rewrite (B4 15 I2), (B4 14 I1), !Z.land_spec, !Z.lor_spec, !unot_spec by lia. cbn. by rewrite orb_true_r, andb_false_r.
Qed.
End enable_spec.
