(* ===== verification/PcieTheorems.v ===== *)
(** * PCI Express: theorems

    Configuration accesses, probing, enumeration, capabilities and MSI-X,
    with the GIC driver as the controller of [MsiLaws]. *)

From S2P Require Import Prelude Bytes Vm Device Lpi Registers GicRegs Gic GicProofs GicTheorems.
From S2P Require Import Pcie PcieCap PcieProofs PcieScan PcieLists PcieMsix.

(** ** The GIC as the controller *)

Section gic.
Context {D : Type} {HD : GicDevice D} {T : AddressTranslator}.

#[global] Instance GicController : MsiController (GicV3 D) InterruptError := {|
  ic_register_device := msi_register_device;
  ic_get_doorbell := msi_get_doorbell;
  ic_map_event := msi_map_event
|}.

Lemma wp_itt_entry_size (g : GicV3 D) (Q : Z → GicV3 D → Prop) :
  (∀ v g', hw_step g g' → 0 ≤ v < 2 ^ 8 → Q v g') → wp (gits_read "type_" GitsTyper_ITTEntrySize) Q g.
Proof.
  intros HQ. unfold gits_read, read_field. wp_step. unfold wp at 1, read. cbn [cell_read mmio_cell]. unfold mmio_r.
  destruct (mmio_read Gits _ (hw g)) as [raw h]. eapply wp_expect; [rewrite lift_eq by done; reflexivity|].
  apply HQ; [by exists h|]. by apply wrap_range.
Qed.

(** The invariant does not mention the tables of the devices. *)
Lemma set_itts_keeps m (g : GicV3 D) : ready g → events_inv g → ready (set_device_itts m g) ∧ events_inv (set_device_itts m g).
Proof. intros (p & q & Hr) [I1 I2]. split; [by exists p, q|by split]. Qed.
Lemma hw_step_keeps (g g' : GicV3 D) : hw_step g g' → ready g → events_inv g →
  ready g' ∧ events_inv g' ∧ event_mappings g' = event_mappings g.
Proof. intros [h ->] (p & q & Hr) [I1 I2]. split_and!; [by exists p, q|by split|done]. Qed.

Lemma wp_register d n (g : GicV3 D) : ready g → events_inv g → 0 ≤ n ≤ 11 →
  wp (msi_register_device d n) (λ _ g', (ready g' ∧ events_inv g') ∧ event_mappings g' = event_mappings g) g.
Proof.
  intros Hr I Hn. pose proof Hr as (p & q & Hi & Hp & _). unfold msi_register_device. wp_step. apply wp_get. rewrite Hi.
  assert (2 ^ n ≤ 2 ^ 11) as Hpow by (apply pow2_le; lia). pose proof (pow2_pos n ltac:(lia)).
  wp_step. eapply wp_expect; [by rewrite (proj2 (Z.ltb_lt n 64)) by lia|]. wp_step. apply (wp_its_ref g p); [done..|].
  wp_step. wp_step. apply wp_itt_entry_size. intros v g1 S1 Hv. wp_step. destruct (hw_step_keeps _ _ S1 Hr I) as (Hr1 & I1 & E1).
  assert (2 ^ n * (v + 1) ≤ 2 ^ 11 * 2 ^ 8) by nia. assert (2 ^ 11 * 2 ^ 8 = 2 ^ 19) as Ep by done. rewrite Ep in *.
  assert (2 ^ 19 + 256 < 2 ^ 63 - 256) by done. assert (2 ^ 63 < 2 ^ 64) by done.
  wp_step. eapply wp_expect; [unfold checked_mul; by rewrite (proj2 (Z.ltb_lt _ _)) by nia|].
  wp_step. eapply wp_expect; [unfold checked_add; rewrite (proj2 (Z.ltb_lt _ _)) by nia; reflexivity|]. cbn beta.
  destruct (_ <? _); [apply wp_ret; by rewrite E1|]. wp_step. unfold with_hw. unfold wp at 1.
  destruct (alloc_zeroed _ _ (hw g1)) as [a h]. assert (hw_step g1 (set_hw h g1)) as S2 by (by exists h).
  destruct (hw_step_keeps _ _ S2 Hr1 I1) as (Hr2 & I2 & E2). destruct (a =? 0); [apply wp_ret; by rewrite E2, E1|].
  apply wp_try. eapply wp_mono; [exact (wp_push_step (MAPD d (dmap_to_phys a) n true) _ Hr2)|]. intros r g3 S3.
  pose proof (its_step_ready _ _ Hr2 S3) as Hr3. pose proof (its_step_events _ _ S3 I2) as I3.
  assert (event_mappings g3 = event_mappings g) as E3 by (destruct S3 as (h' & m' & q' & -> & _); cbn; congruence).
  destruct r as [[]|er]; [|done]. wp_step. apply wp_get. wp_step. apply wp_modify.
  destruct (set_itts_keeps (<[d:={| itt_ptr := a; itt_size := (2 ^ n * (v + 1) + 255) / 256 * 256 |}]> (device_itts g3)) g3 Hr3 I3) as [Hr4 I4].
  wp_step. destruct (device_itts g3 !! d) as [old|]; [|apply wp_ret; by apply wp_ret]. unfold Gic.on_hw. apply wp_modify. apply wp_ret.
  split; [|done]. split; [|by destruct I4; split]. destruct Hr4 as (p4 & q4 & Hr4). by exists p4, q4.
Qed.

#[global, refine] Instance GicLaws : MsiLaws (GicV3 D) InterruptError := {
  ic_inv g := ready g ∧ events_inv g;
  ic_events := event_mappings
}.
Proof.
  - intros d n g [Hr I] Hn. by apply wp_register.
  - intros g [Hr I]. pose proof Hr as (p & q & Hi & Hp & _). cbn. unfold msi_get_doorbell. wp_step. by apply (wp_its_ref g p); [done..|].
  - intros d e cpu g [Hr I]. eapply wp_mono; [by apply wp_msi_map_event|]. intros r g' (Hr' & I' & Hm). split; [done|].
    destruct r as [l|er]; [|done]. destruct Hm as (Hu & _ & E). split; [|done]. intros [d' e'] Hk.
    destruct (ei_map _ I _ _ _ Hk). congruence.
Defined.
End gic.

(** ** Base address registers *)

Lemma testbit_top w k i : 0 ≤ k ≤ w → 0 ≤ i → Z.testbit (2 ^ w - 2 ^ k) i = (k <=? i) && (i <? w).
Proof.
  intros Hk Hi. assert (2 ^ w - 2 ^ k = Z.shiftl (Z.ones (w - k)) k) as ->.
  { rewrite Z.shiftl_mul_pow2, Z.ones_equiv by lia. rewrite Z.mul_pred_l, <- Z.pow_add_r by lia. do 2 f_equal. lia. }
  destruct (Z.leb_spec k i); [|by rewrite Z.shiftl_spec_low by lia]. rewrite Z.shiftl_spec, testbit_ones by lia. cbn.
  destruct (Z.ltb_spec i w), (Z.ltb_spec (i - k) (w - k)); (done || lia).
Qed.

(** A BAR of [2 ^ k] bytes has the read-write bits [k] and above and a base
    that is aligned to its size; its low four bits are flags. *)
Definition bar_shape (w k v : Z) : Prop := 0 ≤ v < 2 ^ w ∧ 4 ≤ k < w ∧ v mod 2 ^ k < 16.

Lemma probed_mask w k v : bar_shape w k v → Z.land (Z.lor v (2 ^ w - 2 ^ k)) (2 ^ w - 2 ^ 4) = 2 ^ w - 2 ^ k.
Proof.
  intros (Hv & Hk & Hm). apply Z.bits_inj'. intros i Hi. rewrite Z.land_spec, Z.lor_spec, !testbit_top by lia.
  destruct (Z.leb_spec k i), (Z.ltb_spec i w), (Z.leb_spec 4 i); cbn [andb]; rewrite ?orb_true_r, ?orb_false_r, ?andb_false_r; try done; try lia.
  rewrite andb_true_r, <- (Z.mod_pow2_bits_low v k) by lia. apply (testbit_above _ 4); [|lia].
  split; [by apply Z.mod_pos_bound, pow2_pos; lia|]. done.
Qed.

Lemma probed_size w k v : bar_shape w k v → wrap w (unot w (2 ^ w - 2 ^ k) + 1) = 2 ^ k.
Proof.
  intros (_ & Hk & _). assert (unot w (2 ^ w - 2 ^ k) = Z.ones k) as ->.
  { apply Z.bits_inj'. intros i Hi. rewrite unot_spec, testbit_top, testbit_ones by lia.
    case_decide; destruct (Z.leb_spec k i), (Z.ltb_spec i w), (Z.ltb_spec i k); cbn; (done || lia). }
  rewrite Z.ones_equiv. replace (Z.pred (2 ^ k) + 1) with (2 ^ k) by lia. apply wrap_small.
  split; [apply Z.pow_nonneg; lia|]. apply Z.pow_lt_mono_r; lia.
Qed.

Lemma prefetchable_eq v : prefetchable_bit v = Z.testbit v 3.
Proof. unfold prefetchable_bit. change 1 with (Z.shiftl 1 0). by rewrite land_bit, negb_involutive, Z.shiftr_spec by lia. Qed.

Lemma low_flags v t : 0 ≤ v → 0 ≤ t < 4 → Z.land v 7 = 2 * t → Z.land v 1 = 0 ∧ Z.land (Z.shiftr v 1) 3 = t.
Proof.
  intros Hv Ht. change 7 with (Z.ones 3). change 1 with (Z.ones 1) at 1. change 3 with (Z.ones 2) at 2.
  rewrite !Z.land_ones, Z.shiftr_div_pow2 by lia. change (2 ^ 3) with 8. change (2 ^ 2) with 4. change (2 ^ 1) with 2.
  intros E. Z.div_mod_to_equations. lia.
Qed.

Lemma probed_low k v : bar_shape 32 k v → Z.land v 1 = 0 →
  (Z.lor v (2 ^ 32 - 2 ^ k) =? 0) = false ∧ (Z.lor v (2 ^ 32 - 2 ^ k) =? unot 32 0) = false.
Proof.
  intros (Hv & Hk & _) H1. set (m := Z.lor v _). assert (Z.testbit m 31 = true) as B31.
  { unfold m. rewrite Z.lor_spec, testbit_top, (proj2 (Z.leb_le k 31)) by lia. by rewrite orb_true_r. }
  assert (Z.testbit m 0 = false) as B0.
  { unfold m. rewrite Z.lor_spec, testbit_top, (proj2 (Z.leb_gt k 0)), orb_false_r by lia.
    pose proof (land_bit v 0 ltac:(done)) as E. change (Z.shiftl 1 0) with 1 in E. rewrite H1 in E. by destruct (Z.testbit v 0). }
  split; apply Z.eqb_neq; intros E; [by rewrite E in B31|by rewrite E in B0].
Qed.

(** The size that probing reports for a 32-bit memory BAR is the size of the
    region that the device decodes. *)
Lemma memory32_size k v rest : bar_shape 32 k v → Z.land v 7 = 0 →
  decode ((v, Z.lor v (2 ^ 32 - 2 ^ k)) :: rest) = Memory32 (Z.land v 0xFFFFFFF0) (2 ^ k) (Z.testbit v 3) :: decode rest.
Proof.
  intros Hs H7. pose proof Hs as ([Hv _] & _). destruct (low_flags v 0 Hv ltac:(done) H7) as [F1 F2].
  destruct (probed_low k v Hs F1) as [M0 M1]. cbn [decode]. rewrite F1, F2, M0, M1. cbn [Z.eqb negb orb app].
  rewrite prefetchable_eq. do 2 f_equal. change 0xFFFFFFF0 with (2 ^ 32 - 2 ^ 4). by rewrite probed_mask, probed_size with (v := v).
Qed.

Lemma halves x y m : 0 ≤ x < 2 ^ 32 → 0 ≤ y < 2 ^ 32 → 0 ≤ m < 2 ^ 32 →
  Z.lor (Z.shiftl x 32) (Z.land y m) = Z.land (Z.lor (Z.shiftl x 32) y) (Z.lor (Z.shiftl (Z.ones 32) 32) m).
Proof.
  intros Hx Hy Hm. apply Z.bits_inj'. intros i Hi.
  rewrite Z.land_spec, !Z.lor_spec, Z.land_spec. destruct (decide (i < 32)).
  - by rewrite !Z.shiftl_spec_low by lia.
  - rewrite (testbit_above y 32), (testbit_above m 32), !Z.shiftl_spec, testbit_ones by lia. cbn [andb orb]. rewrite !orb_false_r.
    destruct (Z.ltb_spec (i - 32) 32); [by rewrite andb_true_r|]. rewrite (testbit_above x 32) by lia. done.
Qed.

Lemma top_halves k : 0 ≤ k ≤ 64 → let M := 2 ^ 64 - 2 ^ k in M = Z.lor (Z.shiftl (M / 2 ^ 32) 32) (M mod 2 ^ 32).
Proof.
  intros Hk M. assert (0 ≤ M) by (unfold M; pose proof (pow2_le k 64); lia).
  pose proof (Z.mod_pos_bound M (2 ^ 32) ltac:(done)). rewrite Z.lor_comm, lor_shiftl_add by lia.
  rewrite (Z.div_mod M (2 ^ 32)) at 1 by done. lia.
Qed.

(** The same for a 64-bit memory BAR, which takes two registers: [v] and
    [vh] are their values and [M] the read-write bits of the two. *)
Lemma memory64_size k v vh rest : 0 ≤ v < 2 ^ 32 → 0 ≤ vh < 2 ^ 32 → let V := Z.lor (Z.shiftl vh 32) v in
  bar_shape 64 k V → Z.land v 7 = 4 → let M := 2 ^ 64 - 2 ^ k in
  decode ((v, Z.lor v (M mod 2 ^ 32)) :: (vh, Z.lor vh (M / 2 ^ 32)) :: rest) =
    Memory64 (Z.land V (2 ^ 64 - 2 ^ 4)) (2 ^ k) (Z.testbit v 3) :: decode rest.
Proof.
  intros Hv Hvh V Hs H7 M. pose proof Hs as (_ & Hk & _). destruct (low_flags v 2 (proj1 Hv) ltac:(done) H7) as [F1 F2].
  assert (0 ≤ M < 2 ^ 64) as HM by (unfold M; pose proof (pow2_le k 64 ltac:(lia)); pose proof (pow2_pos k ltac:(lia)); lia).
  pose proof (Z.mod_pos_bound M (2 ^ 32) ltac:(done)) as Hlo.
  assert (0 ≤ M / 2 ^ 32 < 2 ^ 32) as Hhi by (split; [apply Z.div_pos; lia|apply Z.div_lt_upper_bound; lia]).
  assert (∀ a b, 0 ≤ a < 2 ^ 32 → 0 ≤ b < 2 ^ 32 → 0 ≤ Z.lor a b < 2 ^ 32) as Hlor.
  { intros a b Ha Hb. rewrite <- (Z.mod_small a (2 ^ 32)), <- (Z.mod_small b (2 ^ 32)) by done.
    rewrite <- !Z.land_ones, <- Z.land_lor_distr_l, Z.land_ones by lia. by apply Z.mod_pos_bound. }
  assert (Z.lor (Z.shiftl (Z.lor vh (M / 2 ^ 32)) 32) (Z.land (Z.lor v (M mod 2 ^ 32)) 0xFFFFFFF0) = M) as Eraw.
  { rewrite halves by (done || by apply Hlor).
    change (Z.lor (Z.shiftl (Z.ones 32) 32) 0xFFFFFFF0) with (2 ^ 64 - 2 ^ 4). transitivity (Z.land (Z.lor V M) (2 ^ 64 - 2 ^ 4));
      [apply (f_equal (λ x, Z.land x _))|exact (probed_mask 64 k V Hs)].
    pose proof (top_halves k ltac:(lia)) as EM. cbn zeta in EM. fold M in EM |- *.
    transitivity (Z.lor V (Z.lor (Z.shiftl (M / 2 ^ 32) 32) (M mod 2 ^ 32))); [|by rewrite <- EM].
    unfold V. rewrite Z.shiftl_lor, !Z.lor_assoc. f_equal. rewrite <- !Z.lor_assoc. f_equal. apply Z.lor_comm. }
  cbn [decode]. rewrite F1, F2, Eraw. cbn [Z.eqb negb]. change (2 =? 0) with false. change (2 =? 2) with true. cbn [andb].
  assert ((M =? 0) = false) as -> by (apply Z.eqb_neq; unfold M; pose proof (Z.pow_lt_mono_r 2 k 64); lia).
  cbn [app]. rewrite prefetchable_eq. unfold M. rewrite (probed_size 64 k V Hs). do 2 f_equal.
  by rewrite halves.
Qed.

(** ** Layouts of base address registers *)

(** The BARs a function can have, with the base, the logarithm of the size
    and the prefetchable flag; [DNone] is a register that is not used. *)
Inductive bar_desc :=
| DMem32 (base k : Z) (p : bool)
| DMem64 (base k : Z) (p : bool)
| DNone.

Definition flags (t : Z) (p : bool) : Z := t + if p then 8 else 0.

(** The values and read-write bits of its registers. *)
Definition desc_regs (d : bar_desc) : list (Z * Z) :=
  match d with
  | DMem32 base k p => [(base + flags 0 p, 2 ^ 32 - 2 ^ k)]
  | DMem64 base k p =>
      let V := base + flags 4 p in let M := 2 ^ 64 - 2 ^ k in
      [(V mod 2 ^ 32, M mod 2 ^ 32); (V / 2 ^ 32, M / 2 ^ 32)]
  | DNone => [(0, 0)]
  end.
Definition desc_bar (d : bar_desc) : list BarType :=
  match d with
  | DMem32 base k p => [Memory32 base (2 ^ k) p]
  | DMem64 base k p => [Memory64 base (2 ^ k) p]
  | DNone => []
  end.
Definition desc_ok (d : bar_desc) : Prop :=
  match d with
  | DMem32 base k _ => 4 ≤ k < 32 ∧ 0 ≤ base < 2 ^ 32 ∧ (2 ^ k | base)
  | DMem64 base k _ => 4 ≤ k < 64 ∧ 0 ≤ base < 2 ^ 64 ∧ (2 ^ k | base)
  | DNone => True
  end.

(** A base with flags in its low four bits. *)
Lemma desc_value w k base t p : 4 ≤ k < w → 0 ≤ base < 2 ^ w → (2 ^ k | base) → 0 ≤ t < 8 →
  let V := base + flags t p in
  bar_shape w k V ∧ Z.land V (2 ^ w - 2 ^ 4) = base ∧ Z.land V 7 = t ∧ Z.testbit V 3 = p.
Proof.
  intros Hk Hb [q ->] Ht V. set (f := flags t p). assert (0 ≤ f < 16) as Hf by (unfold f, flags; destruct p; lia).
  pose proof (pow2_pos k ltac:(lia)) as Hpk. pose proof (pow2_pos (w - k) ltac:(lia)).
  assert (2 ^ 4 ≤ 2 ^ k) as H16 by (apply pow2_le; lia). change (2 ^ 4) with 16 in H16.
  assert (2 ^ w = 2 ^ (w - k) * 2 ^ k) as Ew by (rewrite <- Z.pow_add_r by lia; f_equal; lia).
  assert (2 ^ k = 2 ^ (k - 4) * 16) as Ek by (change 16 with (2 ^ 4); rewrite <- Z.pow_add_r by lia; f_equal; lia).
  assert (V = f + (q * 2 ^ (k - 4)) * 2 ^ 4) as EV by (unfold V; fold f; change (2 ^ 4) with 16; nia).
  assert (V mod 2 ^ 4 = f) as Em by (rewrite EV, Z.mod_add by done; by apply Z.mod_small).
  assert (0 ≤ V < 2 ^ w) as HV by (unfold V; fold f; nia).
  split_and!.
  - split_and!; [lia..|]. unfold V. fold f. rewrite Z.add_comm, Z.mod_add by lia. rewrite Z.mod_small by lia. lia.
  - assert (Z.land V (2 ^ w - 2 ^ 4) = Z.ldiff V (2 ^ 4 - 1)) as ->.
    { apply Z.bits_inj'. intros i Hi. rewrite Z.land_spec, Z.ldiff_spec, testbit_top by lia. change (2 ^ 4 - 1) with (Z.ones 4).
      rewrite testbit_ones by lia. destruct (Z.leb_spec 4 i), (Z.ltb_spec i 4), (Z.ltb_spec i w); cbn; try lia; try done.
      by rewrite (testbit_above V w) by lia. }
    rewrite ldiff_mask_eq by done. rewrite (Z.div_mod V (2 ^ 4)) in EV by done. unfold V in *. fold f in EV, Em |- *. lia.
  - change 7 with (Z.ones 3). rewrite Z.land_ones by lia.
    assert (V mod 2 ^ 3 = f mod 2 ^ 3) as -> by (rewrite EV; change (2 ^ 4) with (2 * 2 ^ 3); rewrite Z.mul_assoc, Z.mod_add by done; done).
    unfold f, flags. change (2 ^ 3) with 8. destruct p; [|rewrite Z.add_0_r; by apply Z.mod_small].
    change 8 with (1 * 8) at 1. rewrite Z.mod_add by done. by apply Z.mod_small.
  - rewrite <- (Z.mod_pow2_bits_low V 4) by lia. rewrite Em. unfold f, flags.
    assert (t = 0 ∨ t = 1 ∨ t = 2 ∨ t = 3 ∨ t = 4 ∨ t = 5 ∨ t = 6 ∨ t = 7) as Et by lia.
    destruct p; by repeat destruct Et as [->|Et]; subst.
Qed.

Lemma decode_desc d rest : desc_ok d →
  decode (((λ r, (r.1, Z.lor r.1 r.2)) <$> desc_regs d) ++ rest) = desc_bar d ++ decode rest.
Proof.
  destruct d as [base k p|base k p|]; cbn [desc_ok desc_regs desc_bar].
  - intros (Hk & Hb & Hd). destruct (desc_value 32 k base 0 p Hk Hb Hd ltac:(lia)) as (Hs & E1 & E2 & E3). cbn [fmap list_fmap app fst snd].
    rewrite memory32_size by done. change 0xFFFFFFF0 with (2 ^ 32 - 2 ^ 4). by rewrite E1, E3.
  - intros (Hk & Hb & Hd). destruct (desc_value 64 k base 4 p Hk Hb Hd ltac:(lia)) as (Hs & E1 & E2 & E3). cbn [fmap list_fmap app fst snd].
    set (V := base + flags 4 p) in *. pose proof Hs as (HV & _ & _).
    pose proof (Z.mod_pos_bound V (2 ^ 32) ltac:(done)) as Hlo.
    assert (0 ≤ V / 2 ^ 32 < 2 ^ 32) as Hhi by (split; [apply Z.div_pos; lia|apply Z.div_lt_upper_bound; lia]).
    assert (Z.lor (Z.shiftl (V / 2 ^ 32) 32) (V mod 2 ^ 32) = V) as EV.
    { rewrite Z.lor_comm, lor_shiftl_add by lia. rewrite (Z.div_mod V (2 ^ 32)) at 3 by done. lia. }
    rewrite (memory64_size k (V mod 2 ^ 32) (V / 2 ^ 32)); [|done|done|by rewrite EV|].
    + rewrite EV, E1. rewrite Z.mod_pow2_bits_low by lia. by rewrite E3.
    + rewrite <- E2, <- (Z.land_ones V 32), <- Z.land_assoc by lia. done.
  - done.
Qed.

Lemma decode_descs ds : Forall desc_ok ds → decode ((λ r, (r.1, Z.lor r.1 r.2)) <$> (ds ≫= desc_regs)) = ds ≫= desc_bar.
Proof.
  induction 1 as [|d ds Hd _ IH]; [done|]. rewrite !bind_cons, fmap_app, decode_desc by done. by rewrite IH.
Qed.

Section theorems.
Context {H : Type} {HM : Mmio H} {CL : ConfigLaws H} (e : Ecam) (Eo : ecam_ok e).

(** C37: an access to the configuration space of a function of the segment
    goes to the window of the segment, one 4 KiB page per function: the
    address is in the window, and it is the address of no other function or
    offset.  A bus that the window does not have is not accessed. *)
Theorem ecam_bounds b o (h : H) : fn_ok e b → 0 ≤ o < 4096 →
  ∃ p, offset_ptr e b o h = Done (p, h) ∧ (p = None ↔ ¬ in_window e b) ∧
    ∀ a, p = Some a →
      phys_base e ≤ dmap_addr_to_phys a < phys_base e + (end_bus e - start_bus e + 1) * 2 ^ 20 ∧
      ∀ b' o', fn_ok e b' → 0 ≤ o' < 4096 → offset_ptr e b' o' h = Done (Some a, h) → b' = b ∧ o' = o.
Proof.
  intros Fo Ho. eexists. split; [by apply run_offset_ptr|]. case_decide as Hw; [|by split; [|done]].
  split; [by split|]. intros a [= <-]. split.
  - pose proof (cfg_phys_addr e Eo b Fo o Hw Ho) as Hp. unfold ptr.
    pose proof (dmap_phys_dmap (T := KernelAddressTranslator) _ Hp) as Ep. cbn [dmap_to_phys phys_to_dmap KernelAddressTranslator] in Ep.
    rewrite Ep. by apply cfg_phys_range.
  - intros b' o' Fo' Ho'. rewrite run_offset_ptr by done. case_decide as Hw'; [|done]. intros [= Ep]. by apply (ptr_inj e).
Qed.



(** C29: looking for a capability ends, also when the list of the device is
    cyclic.  What it finds is a capability with the identifier, at an aligned
    offset behind the header; on a list that ends, it is the first one, and
    nothing is found only when there is none. *)
Theorem find_capability_spec b target (h : H) : fn_ok e b →
  ∃ r, find_capability e b target h = Done (r, h) ∧
    (∀ o, r = Some o → 0x40 ≤ o ≤ 0xFC ∧ o mod 4 = 0 ∧ StandardCapabilityId_from (cfg e b 1 o h) = target) ∧
    ∀ l, cap_list e b h (cap_start e b h) l → r = snd <$> List.find (λ x, bool_decide (x.1 = target)) l.
Proof.
  intros Fo. assert (∀ o, 0 ≤ cfg e b 1 o h) as Hb by (intros o; unfold cfg; case_decide; [apply hw_read_range|done]).
  unfold find_capability, bind. rewrite run_new by done. pose proof (cap_start_ok e b h Hb) as Hs.
  assert (length (unvisited 0) < 65)%nat as Hf by (vm_compute; lia).
  destruct (find_total e Eo b Fo h Hb 65 target {| next_ptr := cap_start e b h; visited := 0 |} Hs Hf) as (r & E & Hr).
  exists r. split_and!; [done| |].
  - intros o Eo'. destruct (Hr o Eo') as (? & [? ?] & ?). split_and!; (done || lia).
  - intros l Hl. pose proof (find_first e Eo b Fo h Hb 65 target {| next_ptr := cap_start e b h; visited := 0 |} l Hs Hf Hl) as E'.
    cbn [visited] in E'. rewrite E in E'. assert (∀ A (x y : A) (s : H), Done (x, s) = Done (y, s) → x = y) as Hinj by (by intros ???? [= ->]).
    eapply Hinj, E'. intros i Hi Ht. by rewrite Z.bits_0 in Ht.
Qed.

(** looking for an extended capability finds the first one with the
    identifier.  When there is none before a pointer that is not a multiple
    of four, it panics: the two low bits of a pointer are reserved in the PCI
    Express specification, and the code does not mask them. *)
Theorem find_extended_capability_spec b target l t (h : H) : fn_ok e b → ext_list e b h 0x100 l t →
  Z.of_nat (length l) + (if t then 1 else 0) ≤ 64 →
  find_extended_capability e b target h =
    match List.find (λ x, bool_decide (x.1 = target)) l with
    | Some x => Done (Some x.2, h)
    | None => if t then Fault Panic else Done (None, h)
    end.
Proof.
  intros Fo Hl Hlen. unfold find_extended_capability. apply (ext_find_first e Eo b Fo h 65 target ExtendedCapIter_new l t); [done|cbn [count ExtendedCapIter_new]; lia|destruct t; lia].
Qed.

End theorems.

(** ** Witnesses

    A segment of one bus with one function: a 4 KiB memory BAR, and MSI-X
    with two vectors.  The bus is memory of bytes with read-write bits. *)

Section witnesses.
Context (mask : Z → Z).

Definition bus_read (n : nat) (a : Z) (h : Z → Z) : Z := from_le ((λ i, h (a + i) mod 256) <$> seqZ 0 (Z.of_nat n)).
Definition bus_write (n : nat) (a v : Z) (h : Z → Z) : Z → Z := λ c,
  if decide (a ≤ c < a + Z.of_nat n) then mix (mask c mod 256) (h c mod 256) (byte_of v (c - a)) else h c.
#[local] Instance byte_bus : Mmio (Z → Z) := {| hw_read := bus_read; hw_write := bus_write |}.

Lemma mod_byte x : byte_ok (x mod 256).
Proof. by apply Z.mod_pos_bound. Qed.
Lemma byte_bits x : 0 ≤ x → (∀ i, 8 ≤ i → Z.testbit x i = false) → byte_ok x.
Proof.
  intros Hx Hb. assert (x = x mod 2 ^ 8) as ->; [|by apply Z.mod_pos_bound]. apply Z.bits_inj'. intros i Hi.
  destruct (decide (i < 8)); [by rewrite Z.mod_pow2_bits_low by lia|]. rewrite Z.mod_pow2_bits_high by lia. apply Hb. lia.
Qed.
Lemma mix_byte m o v : byte_ok m → byte_ok o → byte_ok (mix m o v).
Proof.
  intros Hm Ho. apply byte_bits.
  - apply Z.lor_nonneg. split; [apply Z.ldiff_nonneg; left; apply Ho|apply Z.land_nonneg; right; apply Hm].
  - intros i Hi. unfold mix. rewrite Z.lor_spec, Z.ldiff_spec, Z.land_spec, !(testbit_above _ 8) by done. by rewrite andb_false_r.
Qed.

#[local, refine] Instance byte_laws : ConfigLaws (Z → Z) := {
  hw_byte a h := h a mod 256;
  rw_mask a := mask a mod 256;
  rw_reg _ _ := True
}.
Proof.
  - intros. apply mod_byte.
  - intros. apply mod_byte.
  - done.
  - intros n a v h c _. cbn [hw_write byte_bus]. unfold bus_write. case_decide; [|done].
    apply Z.mod_small, mix_byte; apply mod_byte.
Defined.
End witnesses.

Definition demo_ecam : Ecam := {| phys_base := 0x10000000; ecam_segment := 0; start_bus := 0; end_bus := 0 |}.
Definition demo_fn : Bdf := mkBdf 0 0 0 0.
Definition demo_page : Z := ptr demo_ecam demo_fn 0.
Definition demo_table : MsixTable := {| table_base := phys_addr_to_dmap 0xFE000000; vector_count := 2 |}.

Definition demo_cfg : list Z :=
  [0x34; 0x12; 0x78; 0x56; 0; 0; 0x10; 0; 0; 0; 0; 1; 0; 0; 0; 0; 0; 0; 0; 0xFE] ++ replicate 32 0 ++ [0x40] ++ replicate 11 0 ++
  [0x11; 0; 1; 0].
Definition demo_bytes (a : Z) : Z :=
  if decide (demo_page ≤ a < demo_page + 4096) then default 0 (demo_cfg !! Z.to_nat (a - demo_page))
  else if decide (table_base demo_table ≤ a) then 0 else 0xFF.
Definition demo_mask (a : Z) : Z :=
  if decide (demo_page ≤ a < demo_page + 4096) then
    default 0 (([0; 0; 0; 0; 0xFF; 0xFF] ++ replicate 11 0 ++ [0xF0; 0xFF; 0xFF] ++ replicate 46 0 ++ [0xFF; 0xFF]) !! Z.to_nat (a - demo_page))
  else 0xFF.

#[local] Instance demo_bus : Mmio (Z → Z) := byte_bus demo_mask.
#[local] Instance demo_laws : ConfigLaws (Z → Z) := byte_laws demo_mask.

Lemma demo_ecam_ok : ecam_ok demo_ecam.
Proof. split; vm_compute; congruence. Qed.
Lemma demo_fn_ok : fn_ok demo_ecam demo_fn.
Proof. by split. Qed.
Lemma demo_window : in_window demo_ecam demo_fn.
Proof. done. Qed.

Lemma ecam_bounds_witness : ∃ p, offset_ptr demo_ecam demo_fn 0x10 demo_bytes = Done (p, demo_bytes) ∧
  (p = None ↔ ¬ in_window demo_ecam demo_fn).
Proof.
  destruct (ecam_bounds demo_ecam demo_ecam_ok demo_fn 0x10 demo_bytes demo_fn_ok ltac:(done)) as (p & E & Hp & _). by exists p.
Defined.


(** The only function of the bus. *)
Lemma demo_only b : on_the_bus demo_ecam demo_bytes b → 0 ≤ bus b < 256 → b = demo_fn.
Proof.
  intros Hb Hbus. pose proof (on_the_bus_window demo_ecam demo_bytes b Hb) as Hw. destruct Hb as (Hseg & Hd & Ha & Hf).
  assert (bus b = 0) as Eb by (unfold in_window in Hw; cbn in Hw; lia).
  assert (device b = 0) as Ed.
  { destruct (decide (device b = 0)); [done|]. exfalso. apply Ha. unfold cfg. rewrite decide_True by done.
    cbn [hw_read demo_bus byte_bus]. unfold bus_read.
    assert (∀ i, 0 ≤ i < 2 → demo_bytes (ptr demo_ecam (fn demo_ecam (bus b) (device b) 0) 0 + i) = 0xFF) as HFF.
    { intros i Hi. unfold demo_bytes, demo_page, ptr. rewrite !phys_addr_to_dmap_add
        by (unfold phys_addr, cfg_phys, VA_WIDTH; cbn -[Z.pow Z.mul Z.add]; lia). cbn [table_base demo_table].
      rewrite phys_addr_to_dmap_add by done. unfold cfg_phys. cbn [phys_base demo_ecam fn bus device function demo_fn start_bus].
      rewrite decide_False by lia. by rewrite decide_False by lia. }
    change (seqZ 0 (Z.of_nat 2)) with [0; 1]. cbn [fmap list_fmap]. by rewrite !HFF by lia. }
  destruct b as [sg bs dv f]. cbn in *. subst. destruct Hf as [->|(Hf & Hm & _)]; [done|]. exfalso. by apply Hm.
Qed.

Lemma demo_endpoint b : on_the_bus demo_ecam demo_bytes b → 0 ≤ bus b < 256 → header demo_ecam demo_bytes b = 0 →
  endpoint_ok demo_ecam demo_bytes b.
Proof.
  intros Hb Hbus _. rewrite (demo_only b Hb Hbus). split; [by split|].
  assert (bars_of demo_ecam demo_fn demo_bytes = [Memory32 0xFE000000 (2 ^ 12) false]) as -> by (vm_compute; reflexivity).
  apply Forall_singleton. cbn. lia.
Qed.


Lemma find_capability_spec_witness : ∃ r, find_capability demo_ecam demo_fn MsiX demo_bytes = Done (r, demo_bytes) ∧
  ∀ o, r = Some o → 0x40 ≤ o ≤ 0xFC.
Proof.
  destruct (find_capability_spec demo_ecam demo_ecam_ok demo_fn MsiX demo_bytes demo_fn_ok) as (r & E & Hr & _).
  exists r. split; [done|]. intros o Ho. by destruct (Hr o Ho).
Defined.

(** An extended list whose first pointer is not aligned. *)
Definition bad_bytes (a : Z) : Z := default 0 ([0x01; 0x00; 0x21; 0x10] !! Z.to_nat (a - (demo_page + 0x100))).

Lemma find_extended_capability_spec_witness :
  find_extended_capability demo_ecam demo_fn SingleRootIoVirt bad_bytes = Fault Panic.
Proof.
  apply (find_extended_capability_spec demo_ecam demo_ecam_ok demo_fn SingleRootIoVirt [(AdvancedErrorReporting, 0x100)] true bad_bytes demo_fn_ok).
  - assert (ext_id demo_ecam demo_fn bad_bytes 0x100 = AdvancedErrorReporting) as <- by (vm_compute; reflexivity).
    apply (ext_cons demo_ecam demo_fn bad_bytes 0x100); [done|done|intros [E0|E0]; vm_compute in E0; discriminate|].
    assert (ext_next demo_ecam demo_fn bad_bytes 0x100 = 0x102) as -> by (vm_compute; reflexivity). by apply ext_unaligned.
  - done.
Defined.

(** The GIC of [GicTheorems], with memory for the tables of the devices. *)
#[local] Instance demo_device : GicDevice Z := {|
  mmio_read := @mmio_read Z prompt_its; mmio_write := @mmio_write Z prompt_its; read_iar := @read_iar Z prompt_its;
  write_eoir := @write_eoir Z prompt_its; enable_group1 := @enable_group1 Z prompt_its;
  set_priority_mask := @set_priority_mask Z prompt_its; sre_enable := @sre_enable Z prompt_its;
  write_bpr1 := @write_bpr1 Z prompt_its; alloc_zeroed _ _ h := (phys_addr_to_dmap 0x60000000, h);
  dealloc _ _ _ h := h; this_cpu _ := 0%nat
|}.
#[local] Existing Instance KernelAddressTranslator.

Lemma demo_table_ok : table_ok demo_table.
Proof.
  assert (∀ i o k, 0 ≤ i < 2 → 0 ≤ o ≤ 12 → 0 ≤ k < 32 → rw_bit (entry_ptr demo_table i + o) k) as Hbit.
  { intros i o k Hi Ho Hk. unfold rw_bit. cbn [rw_mask demo_laws byte_laws]. unfold demo_mask, demo_page, entry_ptr, ptr. cbn [table_base demo_table].
    rewrite !phys_addr_to_dmap_add by done. unfold cfg_phys. cbn [phys_base demo_ecam bus device function demo_fn start_bus].
    pose proof (Z.div_pos k 8 ltac:(lia) ltac:(done)). rewrite decide_False by lia. change (0xFF mod 256) with (Z.ones 8).
    rewrite testbit_ones by (apply Z.mod_pos_bound || done; done). apply Z.ltb_lt. by apply Z.mod_pos_bound. }
  split; [done|done| |].
  - intros i o k Hi Ho Hk. apply Hbit; [done| |done]. rewrite !elem_of_cons in Ho. destruct Ho as [->|[->|[->|?%elem_of_nil]]]; (done || lia).
  - intros i Hi. by apply Hbit.
Qed.

Lemma demo_apart : apart demo_ecam demo_fn demo_table.
Proof.
  intros i Hi. left. unfold entry_ptr, ptr. cbn [table_base demo_table]. rewrite !phys_addr_to_dmap_add by done.
  unfold cfg_phys. cbn [phys_base demo_ecam bus device function demo_fn start_bus]. lia.
Qed.

Lemma demo_writable o : find_capability demo_ecam demo_fn MsiX demo_bytes = Done (Some o, demo_bytes) → msix_writable demo_ecam demo_fn o.
Proof.
  intros E. assert (match find_capability demo_ecam demo_fn MsiX demo_bytes with Done (r, _) => r | Fault _ => None end = Some 0x40) as E'
    by (vm_compute; reflexivity). rewrite E in E'. injection E' as ->.
  split; (split; [done|split; [done|split; [done|split; [exact I|]]]]);
    repeat (apply Forall_cons_2; [split; [lia|vm_compute; reflexivity]|]); by apply Forall_nil_2.
Qed.

Lemma demo_gic_inv : ic_inv (demo_gic 0).
Proof. split; [by apply demo_gic_ready'|apply demo_gic_events]. Qed.


(** The PCI specification lets an I/O BAR tie its upper 16 bits to zero;
    probing then reports a size of nearly 4 GiB: here a BAR of 32 ports. *)
Example io16_bar_oversized : decode [(0xC001, Z.lor 0xC001 0xFFE0)] = [Io 0xC000 0xFFFF0020].
Proof. reflexivity. Qed.
