(* ===== verification/AcpiInit.v ===== *)
(** * Device discovery from ACPI

    Models [kernel/src/earlyinit/acpi.rs]: the walk over the tables and the
    handlers that fill the arena of devices, set up the per-CPU blocks, map
    and enumerate PCI segments and print the AML of the DSDT.

    The UEFI configuration table is a list of pairs (is the GUID the one of
    ACPI 2, address).  Arguments of [error!] are evaluated, those of lower
    levels are not modelled.  The iterator over the MADT is run to its end
    where the code may stop early; the first pass of [handle_gicv3] does so
    too. *)

From stdpp Require Import strings.
From S2P Require Import Prelude Bytes Vm Cpu Device Mapper Registers GicRegs Aml Acpi Pcie.

#[local] Open Scope string_scope.
#[local] Open Scope Z_scope.
#[local] Open Scope list_scope.

(** ** Printing AML *)

(** Decimal and hexadecimal digits, most significant first; 20 digits are
    enough for 64 bits. *)
Fixpoint digits (base : Z) (digit : Z → Z) (fuel : nat) (x : Z) (acc : str) : str :=
  match fuel with
  | O => acc
  | S fuel' => let acc' := digit (x mod base) :: acc in if x <? base then acc' else digits base digit fuel' (x / base) acc'
  end.
Definition dec (x : Z) : str := digits 10 (λ d, 48 + d) 20 x [].
Definition upper_hex (x : Z) : str := digits 16 hex_digit 16 x [].
(** [{:#X}] and [{:#04X}] *)
Definition hex_alt (x : Z) : str := ascii "0x" ++ upper_hex x.
Definition hex_alt4 (x : Z) : str := let h := upper_hex x in ascii "0x" ++ replicate (2 - length h) 48 ++ h.

Definition indent (depth : nat) : str := concat (replicate depth (ascii "  ")).
Definition NL : str := [10].

(** The body of a nonempty package; [fmt] prints an element. *)
Fixpoint format_elems (fmt : AmlValue → str) (inner : str) (elems : list AmlValue) : str :=
  match elems with
  | [] => []
  | v :: elems' => inner ++ fmt v ++ match elems' with [] => [] | _ => ascii "," end ++ NL ++ format_elems fmt inner elems'
  end.

Fixpoint format_aml_value (depth : nat) (val : AmlValue) : str :=
  match val with
  | AZero => ascii "Zero"
  | AOne => ascii "One"
  | AOnes => ascii "Ones"
  | AInteger v => hex_alt v
  | AString s => [34] ++ s ++ [34]
  | ANamePath p => name_to_string p
  | ABuffer b => ascii "Buffer (" ++ dec (Z.of_nat (length b)) ++ ascii ") { ... }"
  | APackage [] => ascii "Package (0x00) {}"
  | APackage elems =>
      ascii "Package (" ++ hex_alt4 (Z.of_nat (length elems)) ++ ascii ") {" ++ NL ++
      format_elems (format_aml_value (S depth)) (indent (S depth)) elems ++ indent depth ++ ascii "}"
  end.

Definition format_method (ind : str) (name : AmlNamePath) (flags : Z) (code : list Z) : str :=
  let arg_count := Z.land flags 0x07 in
  let serialized := if negb (Z.land flags 0x08 =? 0) then ascii "Serialized" else ascii "NotSerialized" in
  ind ++ ascii "Method (" ++ name_to_string name ++ ascii ", " ++ dec arg_count ++ ascii ", " ++ serialized ++
  ascii ") [Bytecode: " ++ dec (Z.of_nat (length code)) ++ ascii " bytes]" ++ NL.

(** [format_aml_stream] returns the text it pushes; a scope or device runs it
    on its contents. *)
Fixpoint format_aml_stream (fuel : nat) (depth : nat) : P str :=
  match fuel with
  | O => fail OutOfFuel
  | S fuel' =>
      let ind := indent depth in
      let nested kind name contents : P str := λ p,
        match format_aml_stream fuel' (S depth) contents with
        | Done (Ok body, _) =>
            Done (Ok (ind ++ kind ++ ascii " (" ++ name_to_string name ++ ascii ") {" ++ NL ++ body ++ ind ++ ascii "}" ++ NL), p)
        | Done (Err e, _) => Done (Err e, p)
        | Fault f => Fault f
        end in
      try term := parse_next in
      match term with
      | None => ok []
      | Some t =>
          try out := (match t with
            | TScope name contents => nested (ascii "Scope") name contents
            | TDevice name contents => nested (ascii "Device") name contents
            | TName name value => ok (ind ++ ascii "Name (" ++ name_to_string name ++ ascii ", " ++
                                      format_aml_value depth value ++ ascii ")" ++ NL)
            | TMethod name flags code => ok (format_method ind name flags code)
            | TOpRegion name => ok (ind ++ ascii "OperationRegion (" ++ name_to_string name ++ ascii ")" ++ NL)
            | TField => ok (ind ++ ascii "Field (...)" ++ NL)
            | TUnsupportedOpcode op => ok (ind ++ ascii "// Unknown Opcode: " ++ hex_alt4 op ++ NL)
            end) in
          try rest := format_aml_stream fuel' depth in
          ok (out ++ rest)
      end
  end.

(** [aml_stream]: the same walk without output. *)
Fixpoint aml_stream (fuel : nat) : P unit :=
  match fuel with
  | O => fail OutOfFuel
  | S fuel' =>
      try term := parse_next in
      match term with
      | None => ok tt
      | Some (TScope _ contents | TDevice _ contents) =>
          (λ p, match aml_stream fuel' contents with
                | Done (r, _) => Done (r, p)
                | Fault f => Fault f
                end) ;?
          aml_stream fuel'
      | Some _ => aml_stream fuel'
      end
  end.

(** ** State *)

Record Boot {D : TTE} (A H : Type) := {
  b_mem : Mem;
  b_dt : DeviceTree;
  b_cpus : Registry;
  USE_HVC : bool;
  b_pt : Pt A;
  b_pci : H
}.
Arguments b_mem {D A H} _. Arguments b_dt {D A H} _. Arguments b_cpus {D A H} _. Arguments USE_HVC {D A H} _.
Arguments b_pt {D A H} _. Arguments b_pci {D A H} _.

Section init.
Context {D : TTE} {A : Type} {TA : TableAllocator A} {H : Type} {HM : Pcie.Mmio H}.
#[local] Existing Instance KernelAddressTranslator.

Definition set_parts (t : DeviceTree) (c : Registry) (hvc : bool) (p : Pt A) (h : H) (s : Boot A H) : Boot A H :=
  {| b_mem := b_mem s; b_dt := t; b_cpus := c; USE_HVC := hvc; b_pt := p; b_pci := h |}.

Definition on_mem {X} (c : M Mem X) : M (Boot A H) X := λ s,
  match c (b_mem s) with Done (x, _) => Done (x, s) | Fault f => Fault f end.
Definition on_dt {X} (c : M DeviceTree X) : M (Boot A H) X := λ s,
  match c (b_dt s) with
  | Done (x, t) => Done (x, set_parts t (b_cpus s) (USE_HVC s) (b_pt s) (b_pci s) s)
  | Fault f => Fault f
  end.
Definition on_cpus {X} (c : M Registry X) : M (Boot A H) X := λ s,
  match c (b_cpus s) with
  | Done (x, r) => Done (x, set_parts (b_dt s) r (USE_HVC s) (b_pt s) (b_pci s) s)
  | Fault f => Fault f
  end.
Definition on_pt {X} (c : M (Pt A) X) : M (Boot A H) X := λ s,
  match c (b_pt s) with
  | Done (x, p) => Done (x, set_parts (b_dt s) (b_cpus s) (USE_HVC s) p (b_pci s) s)
  | Fault f => Fault f
  end.
Definition on_pci {X} (c : M (H * DeviceTree) X) : M (Boot A H) X := λ s,
  match c (b_pci s, b_dt s) with
  | Done (x, (h, t)) => Done (x, set_parts t (b_cpus s) (USE_HVC s) (b_pt s) h s)
  | Fault f => Fault f
  end.

(** ** The timer *)

Definition handle_gtdt (table : Slice) : M (Boot A H) unit :=
  let* gtdt := expect (ref_from_prefix Gtdt table) in
  let* _ := on_mem (getter Gtdt "platform_timer_count" gtdt) in
  let* irq := on_mem (getter Gtdt "virt_el1_gsiv" gtdt) in
  on_dt (add_device None Timer [ascii "arm,armv8-timer"] [Irq irq] Regular) ;;
  ret tt.

(** ** The DSDT *)

(** The fuel is enough for the nested parsers, which run on shorter input. *)
Definition handle_dsdt (table : Slice) : M (Boot A H) unit :=
  match ref_from_prefix SdtHeader table with
  | None => ret tt
  | Some header =>
      let* sig := on_mem (getter_bytes SdtHeader "sig" header) in
      if negb (bool_decide (sig = ascii "DSDT")) then assert (utf8_valid sig) else
      let* bytes := on_mem (slice_bytes table) in
      let aml_bytes := drop (Z.to_nat (size_of SdtHeader)) bytes in
      let* output := expect (match format_aml_stream (S (length aml_bytes)) 0 (parser_new aml_bytes) with
                             | Done (Ok out, _) => Some (Done out)
                             | Done (Err _, _) => None
                             | Fault f => Some (Fault f)
                             end) in
      match output with Done _ => ret tt | Fault f => fail f end
  end.

Definition handle_fadt (table : Slice) : M (Boot A H) unit :=
  let* fadt := expect (ref_from_prefix Fadt table) in
  let* arm_flags := on_mem (getter Fadt "arm_boot_arch" fadt) in
  modify (λ s, set_parts (b_dt s) (b_cpus s) (psci_use_hvc arm_flags) (b_pt s) (b_pci s) s) ;;
  let* x_dsdt := on_mem (getter Fadt "x_dsdt" fadt) in
  let* dsdt := on_mem (getter Fadt "dsdt" fadt) in
  let dsdt_phys_addr := if negb (x_dsdt =? 0) then x_dsdt else dsdt in
  let dsdt_addr := phys_addr_to_dmap dsdt_phys_addr in
  let* len := on_mem (getter SdtHeader "len" dsdt_addr) in
  handle_dsdt {| s_ptr := dsdt_addr; s_len := len |}.

(** ** PCI segments *)

(** [for offset in (0..ecam_size).step_by(PAGE_SIZE)] *)
Fixpoint map_ecam (n : nat) (offset root phys_base va_start : Z) (at_ : Attrs) : M (Pt A) unit :=
  match n with
  | O => ret tt
  | S n' =>
      let* pa := expect (checked_add 64 phys_base offset) in
      let* va := expect (checked_add 64 va_start offset) in
      map_page root pa va at_ ;;
      map_ecam n' (offset + PAGE_SIZE) root phys_base va_start at_
  end.

(** [root] is the table of [KERNEL_ADDRESS_SPACE], [at_] device memory that
    the kernel can read and write. *)
Definition handle_alloc (root : option Z) (at_ : Attrs) (alloc : Z) : M (Boot A H) unit :=
  let* end_bus_num := on_mem (getter McfgAllocation "end_bus_num" alloc) in
  let* start_bus_num := on_mem (getter McfgAllocation "start_bus_num" alloc) in
  let* diff := expect (checked_sub end_bus_num start_bus_num) in
  let bus_count := diff + 1 in
  let ecam_size := bus_count * (1024 * 1024) in
  let* phys_base := on_mem (getter McfgAllocation "base_addr" alloc) in
  let va_start := phys_addr_to_dmap phys_base in
  let* _ := expect (checked_add 64 va_start ecam_size) in
  let* root := expect root in
  on_pt (map_ecam (Z.to_nat ((ecam_size + PAGE_SIZE - 1) / PAGE_SIZE)) 0 root phys_base va_start at_) ;;
  let* segment := on_mem (getter McfgAllocation "pci_segment_group" alloc) in
  let ecam := {| phys_base := phys_base; ecam_segment := segment; start_bus := start_bus_num; end_bus := end_bus_num |} in
  on_pci (enumerate_segment ecam).

Definition handle_mcfg (root : option Z) (at_ : Attrs) (table : Slice) : M (Boot A H) unit :=
  let* mcfg := expect (ref_from_prefix Mcfg table) in
  let* allocs := on_mem (allocations mcfg) in
  for_each allocs (handle_alloc root at_).

(** ** The interrupt controller *)

Definition madt_entries (madt : Z) : M Mem (list (Z * Slice)) := let* it := entries madt in madt_items it.

Definition of_type (ty : Z) (items : list (Z * Slice)) : list Slice := snd <$> filter (λ x, x.1 = ty) items.

(** The GICC structure of an entry must have exactly the size of the type. *)
Definition gicc_topology (slice : Slice) : M Mem Z :=
  let* gicc := expect (ref_from_bytes GicCpuInterface slice) in
  let* mpidr := getter GicCpuInterface "mpidr" gicc in
  ret (from_mpidr mpidr).

Fixpoint map_m {S X Y} (f : X → M S Y) (l : list X) : M S (list Y) :=
  match l with
  | [] => ret []
  | x :: l' => let* y := f x in let* ys := map_m f l' in ret (y :: ys)
  end.

Definition add_cpu (slice : Slice) : M (Boot A H) unit :=
  let* gicc := expect (ref_from_bytes GicCpuInterface slice) in
  let* mpidr := on_mem (getter GicCpuInterface "mpidr" gicc) in
  let* uid := on_mem (getter GicCpuInterface "acpi_cpu_uid" gicc) in
  on_dt (add_device None (Cpu (from_mpidr mpidr) uid) [] [] Fundamental) ;;
  ret tt.

(** The frames of a block up to the last redistributor. *)
Fixpoint gicr_frames (n : nat) (i : Z) (b : GicrFrameBlock) : M Mem (list Resource) :=
  match n with
  | O => ret []
  | S n' =>
      let* f := block_get b i in
      match f with
      | None => ret []
      | Some frame =>
          let* raw := rd_le (frame + 0x8) 8 in
          let* last := expect (lift GicrTyper_LastRedistributor raw) in
          let* end_ := expect (checked_add 64 frame GicrRegisters_end) in
          if (last : bool) then ret [Device.Mmio frame end_]
          else let* rs := gicr_frames n' (i + 1) b in ret (Device.Mmio frame end_ :: rs)
      end
  end.

Definition gicr_resources (slice : Slice) : M Mem (list Resource) :=
  let* gicr_handle := expect (ref_from_bytes GicRedistributor slice) in
  let* r := frames gicr_handle in
  match r with
  | Ok b => gicr_frames (Z.to_nat (block_count b)) 0 b
  | Err _ => fail Panic
  end.

Definition its_resources (slice : Slice) : M Mem (list Resource) :=
  let* gic_its := expect (ref_from_bytes GicIts slice) in
  let* base := getter GicIts "phys_base" gic_its in
  if negb (base =? 0) then let* end_ := expect (checked_add 64 base GitsRegisters_end) in ret [Device.Mmio base end_] else ret [].

Definition gicd_resource (slice : Slice) : M Mem Resource :=
  let* gicd := expect (ref_from_bytes GicDistributor slice) in
  let* version := getter GicDistributor "gic_version" gicd in
  if negb (version =? 3) then fail Panic else
  let* base := getter GicDistributor "phys_base" gicd in
  assert (negb (base =? 0)) ;;
  let* end_ := expect (checked_add 64 base GicdRegisters_end) in
  ret (Device.Mmio base end_).

(** [percpu_base] is the address of the vector that [PerCpu::init] leaks,
    [mpidr] the register of this core. *)
Definition handle_gicv3 (percpu_base mpidr : Z) (madt : Z) : M (Boot A H) unit :=
  let* items := on_mem (madt_entries madt) in
  let* cpu_topologies := on_mem (map_m gicc_topology (of_type MADT_GICC items)) in
  on_cpus (percpu_init percpu_base (length cpu_topologies)) ;;
  match list_find (eq (from_mpidr mpidr)) cpu_topologies with
  | Some (i, _) => let* r := on_cpus (register_local (Z.of_nat i)) in match r with Ok _ => ret tt | Err _ => fail Panic end
  | None => ret tt
  end ;;
  let* gicd_entry_slice := expect (head (of_type MADT_GICD items)) in
  let* gicd := on_mem (gicd_resource gicd_entry_slice) in
  for_each (of_type MADT_GICC items) add_cpu ;;
  let* gicrs := on_mem (map_m gicr_resources (of_type MADT_GICR items)) in
  let* itss := on_mem (map_m its_resources (of_type MADT_ITS items)) in
  let redistributor_count := Z.of_nat (length (concat gicrs)) in
  on_dt (add_device None (Device.GicV3 redistributor_count) [ascii "arm,gic-v3"] (gicd :: concat gicrs ++ concat itss) Fundamental) ;;
  ret tt.

Definition handle_madt (percpu_base mpidr : Z) (table : Slice) : M (Boot A H) unit :=
  let* madt := expect (ref_from_prefix Madt table) in
  let* items := on_mem (madt_entries madt) in
  if existsb (λ x, (x.1 =? MADT_GICC) || (x.1 =? MADT_GICD) || (x.1 =? MADT_GICR)) items
  then handle_gicv3 percpu_base mpidr madt else ret tt.

(** ** The walk over the tables *)

Definition handle_table (root : option Z) (at_ : Attrs) (percpu_base mpidr : Z) (phys_table : Slice) : M (Boot A H) unit :=
  let table_bytes := {| s_ptr := phys_addr_to_dmap (s_ptr phys_table); s_len := s_len phys_table |} in
  let* header := expect (ref_from_prefix SdtHeader table_bytes) in
  let* sig := on_mem (getter_bytes SdtHeader "sig" header) in
  if bool_decide (sig = ascii "GTDT") then handle_gtdt table_bytes
  else if bool_decide (sig = ascii "APIC") then handle_madt percpu_base mpidr table_bytes
  else if bool_decide (sig = ascii "FACP") then handle_fadt table_bytes
  else if bool_decide (sig = ascii "MCFG") then handle_mcfg root at_ table_bytes
  else ret tt.

(** The iterator takes a step per entry of the table. *)
Fixpoint walk_tables (fuel : nat) (handle : Slice → M (Boot A H) unit) (it : XsdtIter) : M (Boot A H) unit :=
  match fuel with
  | O => fail OutOfFuel
  | S fuel' =>
      let* r := on_mem (XsdtIter_next it) in
      match r with
      | (None, _) => ret tt
      | (Some s, it') => handle s ;; walk_tables fuel' handle it'
      end
  end.

Definition acpi_init (cfg_table : list (bool * Z)) (root : option Z) (at_ : Attrs) (percpu_base mpidr : Z) : M (Boot A H) unit :=
  let acpi2 := snd <$> filter (λ t, t.1 = true) cfg_table in
  let* xsdp := expect (head acpi2) in
  assert (match acpi2 with _ :: _ :: _ => false | _ => true end) ;;
  let* r := on_mem (try_from_addr xsdp) in
  let* xsdp := (match r with Ok x => ret x | Err _ => fail Panic end) in
  let* r := on_mem (xsdt xsdp) in
  let* x := (match r with Ok x => ret x | Err _ => fail Panic end) in
  let x := phys_addr_to_dmap x in
  let* it := on_mem (XsdtIter_new x) in
  walk_tables (S (Z.to_nat (x_count it))) (handle_table root at_ percpu_base mpidr) it.
End init.
