(* ===== verification/AcpiProofs.v ===== *)
(** * Reading the tables

    Images of tables in memory: what the getters of a packed structure read
    in an image, and what the iterators over the XSDT, the MADT and the MCFG
    return on the image of a list of entries. *)

From stdpp Require Import strings.
From S2P Require Import Prelude Bytes Vm Registers GicRegs Acpi.

#[local] Open Scope string_scope.
#[local] Open Scope Z_scope.
#[local] Open Scope list_scope.

(** ** Images *)

Definition holds_at (m : Mem) (a : Z) (l : list Z) : Prop := ∀ i b, l !! i = Some b → m (a + Z.of_nat i) = Some b.

Lemma holds_nil m a : holds_at m a [].
Proof. intros i b Hi. done. Qed.

Lemma holds_app m a l k : holds_at m a (l ++ k) ↔ holds_at m a l ∧ holds_at m (a + Z.of_nat (length l)) k.
Proof.
  split.
  - intros H. split; intros i b Hi; [by apply H, lookup_app_l_Some|].
    rewrite <- (H (length l + i)%nat b); [f_equal; lia|]. by rewrite lookup_app_r, Nat.add_sub_swap, Nat.sub_diag by lia.
  - intros [Hl Hk] i b [Hi|[Hge Hi]]%lookup_app_Some; [by apply Hl|]. rewrite <- (Hk _ _ Hi). f_equal. lia.
Qed.

Lemma holds_cons m a b l : holds_at m a (b :: l) ↔ m a = Some b ∧ holds_at m (a + 1) l.
Proof.
  change (b :: l) with ([b] ++ l). rewrite holds_app. change (Z.of_nat (length [b])) with 1. split; intros [H1 H2]; split; try done.
  - rewrite <- (H1 0%nat b eq_refl). f_equal. lia.
  - intros [|i] c Hc; [|done]. injection Hc as <-. by rewrite Z.add_0_r.
Qed.

Lemma holds_part m a l o n : holds_at m a l → holds_at m (a + Z.of_nat o) (take n (drop o l)).
Proof.
  intros H i b Hi. rewrite <- (H (o + i)%nat b); [f_equal; lia|]. rewrite <- lookup_drop. by apply lookup_take_Some in Hi as [? _].
Qed.

Lemma rd_bytes_holds m a l : holds_at m a l → rd_bytes a (length l) m = Done (l, m).
Proof.
  intros H. unfold rd_bytes. assert (mapM m (seqZ a (Z.of_nat (length l))) = Some l) as ->; [|done].
  revert a H. induction l as [|b l IH]; intros a H; [done|]. apply holds_cons in H as [Hb Hl].
  rewrite seqZ_cons by (cbn [length]; lia). cbn [mapM]. rewrite Hb. cbn [mbind option_bind].
  replace (Z.pred (Z.of_nat (length (b :: l)))) with (Z.of_nat (length l)) by (cbn [length]; lia).
  by rewrite (IH (Z.succ a)).
Qed.

(** A read inside an image. *)
Lemma rd_bytes_part m a l o n : holds_at m a l → (o + n ≤ length l)%nat →
  rd_bytes (a + Z.of_nat o) n m = Done (take n (drop o l), m).
Proof.
  intros H Hn. rewrite <- (rd_bytes_holds m (a + Z.of_nat o) (take n (drop o l))) by by apply holds_part.
  f_equal. rewrite length_take, length_drop. lia.
Qed.

Lemma rd_le_holds m a n x : holds_at m a (to_le n x) → 0 ≤ x < 2 ^ (8 * Z.of_nat n) → rd_le a n m = Done (x, m).
Proof.
  intros H Hx. unfold rd_le, bind. pose proof (rd_bytes_holds _ _ _ H) as E. rewrite length_to_le in E. rewrite E. unfold ret.
  by rewrite from_to_le.
Qed.

(** ** Fields *)

Lemma offset_of_nonneg L f : 0 ≤ offset_of L f.
Proof. induction L as [|[g n] L IH]; cbn [offset_of]; [lia|]. case_decide; lia. Qed.

Definition field_bytes (L : Packed) (f : string) (l : list Z) : list Z := take (width_of L f) (drop (Z.to_nat (offset_of L f)) l).
Definition field (L : Packed) (f : string) (l : list Z) : Z := from_le (field_bytes L f l).

Lemma getter_bytes_image m a L f l : holds_at m a l → (Z.to_nat (offset_of L f) + width_of L f ≤ length l)%nat →
  getter_bytes L f a m = Done (field_bytes L f l, m).
Proof.
  intros H Hl. unfold getter_bytes. pose proof (offset_of_nonneg L f).
  replace (a + offset_of L f) with (a + Z.of_nat (Z.to_nat (offset_of L f))) by lia. by apply rd_bytes_part.
Qed.

Lemma getter_image m a L f l : holds_at m a l → (Z.to_nat (offset_of L f) + width_of L f ≤ length l)%nat →
  getter L f a m = Done (field L f l, m).
Proof. intros H Hl. pose proof (getter_bytes_image m a L f l H Hl) as E. unfold getter_bytes in E. unfold getter, rd_le, bind. by rewrite E. Qed.

(** A name is one of the fields of a structure. *)
Ltac is_field := lazymatch goal with |- _ ∈ _ => apply (bool_decide_unpack _); vm_compute; exact I end.

(** ** Encoding

    The image of a structure whose fields have the values [v]. *)

Definition encode (L : Packed) (v : string → Z) : list Z := concat ((λ x, to_le x.2 (v x.1)) <$> L).
Definition values_fit (L : Packed) (v : string → Z) : Prop := Forall (λ x : string * nat, 0 ≤ v x.1 < 2 ^ (8 * Z.of_nat x.2)) L.

Lemma length_encode L v : Z.of_nat (length (encode L v)) = size_of L.
Proof.
  unfold encode. induction L as [|[f n] L IH]; [done|]. cbn [fmap list_fmap concat size_of foldr fst snd]. rewrite length_app, length_to_le.
  unfold size_of in IH. lia.
Qed.

Lemma encode_ok L v : bytes_ok (encode L v).
Proof. unfold encode. induction L as [|[f n] L IH]; [constructor|]. apply Forall_app. split; [apply to_le_ok|exact IH]. Qed.

Lemma width_of_cons g n L f : width_of ((g, n) :: L) f = if decide (g = f) then n else width_of L f.
Proof.
  unfold width_of. cbn [list_find fst]. case_decide; [done|]. by destruct (list_find (λ x, x.1 = f) L) as [[i [h k]]|].
Qed.

(** A field of an encoded structure, with what follows it in memory. *)
Lemma field_bytes_encode L v f k : f ∈ L.*1 → field_bytes L f (encode L v ++ k) = to_le (width_of L f) (v f).
Proof.
  unfold field_bytes. induction L as [|[g n] L IH]; intros Hf; [by apply not_elem_of_nil in Hf|]. rewrite width_of_cons. cbn [offset_of].
  unfold encode. cbn [fmap list_fmap concat fst snd]. fold (encode L v). rewrite <- app_assoc. destruct (decide (g = f)) as [->|Hne].
  - rewrite drop_0. rewrite take_app_le by (rewrite length_to_le; lia). by rewrite take_ge by (rewrite length_to_le; lia).
  - cbn [fmap list_fmap fst] in Hf. apply elem_of_cons in Hf as [->|Hf]; [done|]. pose proof (offset_of_nonneg L f).
    replace (Z.to_nat (Z.of_nat n + offset_of L f)) with (length (to_le n (v g)) + Z.to_nat (offset_of L f))%nat by (rewrite length_to_le; lia).
    rewrite <- drop_drop, drop_app_length. by apply IH.
Qed.

Lemma values_fit_lookup L v f : values_fit L v → f ∈ L.*1 → 0 ≤ v f < 2 ^ (8 * Z.of_nat (width_of L f)).
Proof.
  induction 1 as [|[g n] L Hg HL IH]; intros Hf; [by apply not_elem_of_nil in Hf|]. rewrite width_of_cons. case_decide as E; [by subst|].
  cbn [fmap list_fmap fst] in Hf. apply elem_of_cons in Hf as [->|Hf]; [done|by apply IH].
Qed.

Lemma field_bound L f : f ∈ L.*1 → offset_of L f + Z.of_nat (width_of L f) ≤ size_of L.
Proof.
  induction L as [|[g n] L IH]; intros Hf; [by apply not_elem_of_nil in Hf|]. rewrite width_of_cons. cbn [offset_of].
  assert (0 ≤ size_of L) by (rewrite <- (length_encode L (λ _, 0)); lia).
  unfold size_of. cbn [foldr fst snd]. fold (size_of L). case_decide as E; [lia|]. cbn [fmap list_fmap fst] in Hf.
  apply elem_of_cons in Hf as [->|Hf]; [done|]. specialize (IH Hf). lia.
Qed.

(** Reading back a field of an encoded structure. *)
Lemma getter_encode m a L v f : holds_at m a (encode L v) → values_fit L v → f ∈ L.*1 → getter L f a m = Done (v f, m).
Proof.
  intros H Hv Hf. pose proof (field_bound L f Hf). pose proof (length_encode L v). pose proof (offset_of_nonneg L f).
  rewrite (getter_image m a L f (encode L v)) by (done || lia). unfold field. rewrite <- (app_nil_r (encode L v)), field_bytes_encode by done.
  by rewrite from_to_le by by apply values_fit_lookup.
Qed.

(** ** The entries of the XSDT *)

(** The tables that the entries [es] name; [lens] gives the length in the
    header of a table. *)
Definition table_slices (lens : Z → Z) (es : list Z) : list Slice :=
  (λ e, {| s_ptr := e; s_len := lens e |}) <$> filter (λ e, e ≠ 0) es.

Definition readable_tables (m : Mem) (lens : Z → Z) (es : list Z) : Prop :=
  Forall (λ e, 0 ≤ e < 2 ^ 64 ∧ (e ≠ 0 → getter SdtHeader "len" e m = Done (lens e, m))) es.

Definition xsdt_at (m : Mem) (it : XsdtIter) (es : list Z) : Prop :=
  x_count it = x_curr it + Z.of_nat (length es) ∧ 0 ≤ x_curr it ∧ 0 ≤ x_base it ∧ x_base it + 8 * x_count it < 2 ^ 64 ∧
  holds_at m (x_base it + 8 * x_curr it) (concat (to_le 8 <$> es)).

(** The iterator skips the null entries in front and returns the next
    table. *)
Lemma xsdt_next_spec m lens es it fuel : xsdt_at m it es → readable_tables m lens es → (length es ≤ fuel)%nat →
  match table_slices lens es with
  | [] => ∃ it', xsdt_next fuel it m = Done ((None, it'), m)
  | s :: rest => ∃ it' es', xsdt_next fuel it m = Done ((Some s, it'), m) ∧ xsdt_at m it' es' ∧ readable_tables m lens es' ∧
      table_slices lens es' = rest ∧ (length es' < length es)%nat
  end.
Proof.
  revert it fuel. induction es as [|e es IH]; intros it fuel (Hc & H0 & Hb & Hr & Hm) Ht Hf.
  { exists it. destruct fuel; cbn [xsdt_next]; rewrite (proj2 (Z.ltb_ge _ _)) by (cbn [length] in Hc; lia); done. }
  destruct fuel as [|fuel]; [cbn in Hf; lia|]. cbn [length] in Hc, Hf. apply Forall_cons in Ht as [[He Hg] Ht].
  cbn [fmap list_fmap concat] in Hm. apply holds_app in Hm as [Hm1 Hm2]. rewrite length_to_le in Hm2.
  cbn [xsdt_next]. rewrite (proj2 (Z.ltb_lt _ _)) by lia. unfold bind at 1, read_table_entry, bind, expect, checked_mul, checked_add.
  rewrite (proj2 (Z.ltb_lt (x_curr it * 8) _)) by lia. rewrite (proj2 (Z.ltb_lt (x_base it + x_curr it * 8) _)) by lia.
  rewrite (Z.mul_comm (x_curr it) 8), (rd_le_holds m _ 8 e) by done. set (it' := {| x_base := x_base it |}).
  assert (xsdt_at m it' es) as Hit.
  { split_and!; cbn [it' x_count x_curr x_base]; try lia. replace (x_base it + 8 * (x_curr it + 1)) with (x_base it + 8 * x_curr it + Z.of_nat 8) by lia. done. }
  unfold table_slices. rewrite filter_cons. destruct (decide (e = 0)) as [->|Hne].
  - rewrite decide_False by tauto. cbn [Z.eqb negb]. specialize (IH it' fuel Hit Ht ltac:(lia)). unfold table_slices in IH.
    destruct (_ <$> filter _ es) as [|s rest]; [exact IH|]. destruct IH as (i2 & es' & E & H1 & H2 & H3 & H4). exists i2, es'. cbn [length]. split_and!; try done. lia.
  - rewrite decide_True by done. rewrite (proj2 (Z.eqb_neq _ _)) by done. cbn [negb fmap list_fmap]. unfold cast_addr_header, bind. rewrite Hg by done.
    exists it', es. cbn [length]. split_and!; try done; (apply Hit || lia).
Qed.

(** ** The entries of the MADT *)

(** An entry of type [ty] with the bytes [payload] after its header. *)
Definition entry_bytes (x : Z * list Z) : list Z := x.1 :: (2 + Z.of_nat (length x.2)) :: x.2.
Definition entry_ok (x : Z * list Z) : Prop := byte_ok x.1 ∧ Z.of_nat (length x.2) ≤ 253.

Fixpoint entry_slices (p : Z) (es : list (Z * list Z)) : list (Z * Slice) :=
  match es with
  | [] => []
  | x :: es' => let len := Z.of_nat (length (entry_bytes x)) in (x.1, {| s_ptr := p; s_len := len |}) :: entry_slices (p + len) es'
  end.

Lemma rd_byte m a b : m a = Some b → byte_ok b → rd_le a 1 m = Done (b, m).
Proof.
  intros Hb Ho. unfold byte_ok in Ho. apply rd_le_holds; [|change (2 ^ (8 * Z.of_nat 1)) with 256; lia]. cbn [to_le]. rewrite Z.mod_small by lia.
  apply holds_cons. split; [done|apply holds_nil].
Qed.

Lemma madt_collect_spec m es p fuel : holds_at m p (concat (entry_bytes <$> es)) → Forall entry_ok es →
  (length es < fuel)%nat →
  madt_collect fuel {| m_ptr := p; m_end := p + Z.of_nat (length (concat (entry_bytes <$> es))) |} m = Done (entry_slices p es, m).
Proof.
  revert p fuel. induction es as [|[ty l] es IH]; intros p fuel Hm He Hf; (destruct fuel as [|fuel]; [cbn in Hf; lia|]);
    cbn [madt_collect]; unfold bind at 1, MadtIter_next; cbn [m_ptr m_end].
  { by rewrite (proj2 (Z.leb_le _ _)) by (cbn; lia). }
  apply Forall_cons in He as [[Hty Hl] He]. cbn [fst snd] in Hty, Hl. cbn [fmap list_fmap concat] in *. apply holds_app in Hm as [Hm1 Hm2].
  unfold entry_bytes at 1 in Hm1. cbn [fst snd] in Hm1. apply holds_cons in Hm1 as [Hb1 Hm1]. apply holds_cons in Hm1 as [Hb2 _].
  rewrite length_app. cbn [entry_slices fst]. set (len := length (entry_bytes (ty, l))) in *.
  assert (Z.of_nat len = 2 + Z.of_nat (length l)) as El by (unfold len, entry_bytes; cbn [length snd]; lia).
  rewrite (proj2 (Z.leb_gt _ _)) by lia. unfold bind. rewrite (rd_byte _ _ _ Hb1 Hty), (rd_byte _ _ _ Hb2) by (unfold byte_ok; lia).
  rewrite (proj2 (Z.ltb_ge _ _)) by lia. unfold ret at 1. rewrite <- El.
  replace (p + Z.of_nat (len + length (concat (entry_bytes <$> es)))) with (p + Z.of_nat len + Z.of_nat (length (concat (entry_bytes <$> es)))) by lia.
  rewrite IH by (done || (cbn in Hf; lia)). done.
Qed.

Lemma entries_short es : (length es ≤ length (concat (entry_bytes <$> es)))%nat.
Proof. induction es as [|x es IH]; [done|]. cbn [fmap list_fmap concat length]. rewrite length_app. unfold entry_bytes at 1. cbn [length]. lia. Qed.

Lemma madt_items_spec m es p : holds_at m p (concat (entry_bytes <$> es)) → Forall entry_ok es →
  madt_items {| m_ptr := p; m_end := p + Z.of_nat (length (concat (entry_bytes <$> es))) |} m = Done (entry_slices p es, m).
Proof. intros Hm He. unfold madt_items. cbn [m_ptr m_end]. pose proof (entries_short es). apply madt_collect_spec; (done || lia). Qed.

(** The entries without assumptions on the image: the iterator always ends,
    and its items follow each other from the start, each with its header in
    the table. *)
Lemma madt_collect_total m it fuel : (Z.to_nat (m_end it - m_ptr it) < fuel)%nat → madt_collect fuel it m ≠ Fault OutOfFuel.
Proof.
  revert it. induction fuel as [|fuel IH]; intros it Hf; [lia|]. cbn [madt_collect]. unfold bind at 1, MadtIter_next.
  destruct (Z.leb_spec (m_end it) (m_ptr it)) as [|Hlt]; [done|].
  assert (∀ a n, rd_le a n m = Fault BadDeref ∨ ∃ x, rd_le a n m = Done (x, m)) as Hrd.
  { intros a n. unfold rd_le, rd_bytes, bind. destruct (mapM m _); eauto. }
  unfold bind at 1. destruct (Hrd (m_ptr it) 1%nat) as [->|[ty ->]]; [done|]. unfold bind at 1.
  destruct (Hrd (m_ptr it + 1) 1%nat) as [->|[len ->]]; [done|]. destruct (Z.ltb_spec len 2); [done|]. unfold ret at 1, bind.
  match goal with |- context [madt_collect fuel ?i m] => specialize (IH i) end. cbn [m_ptr m_end] in IH. specialize (IH ltac:(lia)).
  by destruct (madt_collect fuel _ m) as [[xs m']|[]].
Qed.
