(* ===== verification/AcpiGic.v ===== *)
(** * The interrupt controller and the processors in the MADT

    What [handle_gicv3] of [kernel/src/earlyinit/acpi.rs] reads in the entries
    of the MADT and adds to the arena of devices. *)

From stdpp Require Import strings.
From S2P Require Import Prelude Bytes Vm Cpu Device Mapper Registers GicRegs Aml Acpi Pcie AcpiInit AcpiProofs.

#[local] Open Scope string_scope.
#[local] Open Scope Z_scope.
#[local] Open Scope list_scope.

(** Running a computation step by step. *)
Lemma bind_assoc_run {S X Y Z'} (a : M S X) (b : X → M S Y) (k : Y → M S Z') s : bind (bind a b) k s = bind a (λ x, bind (b x) k) s.
Proof. unfold bind. by destruct (a s) as [[x s']|]. Qed.

Lemma bind_run {S X Y} (c : M S X) (k : X → M S Y) s x s' : c s = Done (x, s') → bind c k s = k x s'.
Proof. unfold bind. by intros ->. Qed.

(** ** Entries by type *)

(** A field of an entry. *)
Definition efield (L : Packed) (f : string) (x : Z * list Z) : Z := field L f (entry_bytes x).
Definition sized (L : Packed) (x : Z * list Z) : Prop := Z.of_nat (length (entry_bytes x)) = size_of L.

Definition entry_slice (a : Z) (x : Z * list Z) : Slice := {| s_ptr := a; s_len := Z.of_nat (length (entry_bytes x)) |}.

Lemma entry_getter m a L f x : holds_at m a (entry_bytes x) → sized L x → f ∈ L.*1 → getter L f a m = Done (efield L f x, m).
Proof.
  intros Hm Hs Hf. pose proof (field_bound L f Hf). pose proof (offset_of_nonneg L f). unfold sized in Hs. apply getter_image; [done|lia].
Qed.

Lemma entry_ref L a x : sized L x → ref_from_bytes L (entry_slice a x) = Some a.
Proof. intros Hs. unfold ref_from_bytes. cbn [s_len entry_slice s_ptr]. by rewrite (proj2 (Z.eqb_eq _ _) Hs). Qed.

(** The entries of type [ty] among [es] that start at [p]. *)
Lemma of_type_cons ty p x es : of_type ty (entry_slices p (x :: es)) =
  (if decide (x.1 = ty) then [entry_slice p x] else []) ++ of_type ty (entry_slices (p + Z.of_nat (length (entry_bytes x))) es).
Proof. unfold of_type. cbn [entry_slices]. rewrite filter_cons. cbn [fst]. by case_decide. Qed.

Lemma map_m_entries {Y} m ty (f : Slice → M Mem Y) (g : Z * list Z → Y) es p : holds_at m p (concat (entry_bytes <$> es)) →
  (∀ x a, x ∈ es → x.1 = ty → holds_at m a (entry_bytes x) → f (entry_slice a x) m = Done (g x, m)) →
  map_m f (of_type ty (entry_slices p es)) m = Done (g <$> filter (λ x, x.1 = ty) es, m).
Proof.
  revert p. induction es as [|x es IH]; intros p Hm Hf; [done|]. cbn [fmap list_fmap concat] in Hm. apply holds_app in Hm as [Hx Hm].
  assert (map_m f (of_type ty (entry_slices (p + Z.of_nat (length (entry_bytes x))) es)) m = Done (g <$> filter (λ x, x.1 = ty) es, m)) as E.
  { apply IH; [done|]. intros y a Hy. apply Hf. by apply elem_of_cons; right. }
  rewrite of_type_cons, filter_cons. case_decide as Ety; [|done]. cbn [app map_m]. unfold bind. rewrite (Hf x p (list_elem_of_here _ _) Ety Hx), E. done.
Qed.

Lemma head_entry m ty es p x : holds_at m p (concat (entry_bytes <$> es)) → head (filter (λ x, x.1 = ty) es) = Some x →
  ∃ a, head (of_type ty (entry_slices p es)) = Some (entry_slice a x) ∧ holds_at m a (entry_bytes x).
Proof.
  revert p. induction es as [|y es IH]; intros p Hm Hh; [done|]. cbn [fmap list_fmap concat] in Hm. apply holds_app in Hm as [Hx Hm].
  rewrite of_type_cons. rewrite filter_cons in Hh. case_decide; [injection Hh as ->; by exists p|by apply IH].
Qed.

(** ** Redistributors *)

Definition range_of (a len : Z) : Resource := Device.Mmio a (a + len).

(** The frames from [frame] on, up to the one that [GICR_TYPER] says is the
    last. *)
Fixpoint frames_upto_last (typer : Z → Z) (n : nat) (frame : Z) : list Resource :=
  match n with
  | O => []
  | S n' => range_of frame GICR_FRAME_SIZE :: if Z.testbit (typer frame) 4 then [] else frames_upto_last typer n' (frame + GICR_FRAME_SIZE)
  end.

Lemma lift_last raw : lift GicrTyper_LastRedistributor raw = Some (Z.testbit raw 4).
Proof.
  rewrite lift_eq by (vm_compute; split_and!; congruence). change (Some (negb (get_bits 4 1 raw =? 0)) = Some (Z.testbit raw 4)). f_equal.
  unfold get_bits. change (Z.ones 1) with (2 ^ 1 - 1). rewrite land_mask_eq by lia. rewrite <- Z.bit0_mod, Z.shiftr_spec by lia. change (0 + 4) with 4. by destruct (Z.testbit raw 4).
Qed.

(** A block of redistributor frames: whole frames, aligned for the registers,
    that do not wrap, and whose [GICR_TYPER] can be read. *)
Record block_ok (m : Mem) (typer : Z → Z) (base len : Z) : Prop := {
  bo_len : (GICR_FRAME_SIZE | len) ∧ 0 < len;
  bo_base : 0 ≤ base ∧ (8 | base) ∧ base + len < 2 ^ 64;
  bo_typer i : 0 ≤ i < len / GICR_FRAME_SIZE →
    rd_le (base + i * GICR_FRAME_SIZE + 8) 8 m = Done (typer (base + i * GICR_FRAME_SIZE), m)
}.

Lemma block_get_spec {S} base len i (s : S) : (GICR_FRAME_SIZE | len) → (8 | base) → 0 ≤ i → i < len / GICR_FRAME_SIZE → len < 2 ^ 64 →
  block_get {| block_data := {| s_ptr := base; s_len := len |}; block_count := len / GICR_FRAME_SIZE |} i s = Done (Some (base + i * GICR_FRAME_SIZE), s).
Proof.
  intros [k ->] [b ->] Hi Hlt Hl. rewrite Z.div_mul in Hlt by done. unfold block_get. cbn [block_data s_ptr s_len]. unfold GICR_FRAME_SIZE in *. unfold checked_mul.
  rewrite (proj2 (Z.ltb_lt _ _)) by lia. unfold bind at 1, expect, checked_add. rewrite (proj2 (Z.ltb_lt _ _)) by lia. rewrite (proj2 (Z.ltb_ge _ _)) by lia.
  replace (b * 8 + i * 0x20000) with ((b + i * 0x4000) * 8) by lia. unfold bind, assert, GicrRegisters_end. by rewrite Z.mod_mul by lia.
Qed.

Lemma gicr_frames_spec m typer base len n i : block_ok m typer base len → 0 ≤ i → i + Z.of_nat n = len / GICR_FRAME_SIZE →
  gicr_frames n i {| block_data := {| s_ptr := base; s_len := len |}; block_count := len / GICR_FRAME_SIZE |} m =
  Done (frames_upto_last typer n (base + i * GICR_FRAME_SIZE), m).
Proof.
  intros [[Hd Hl] (H0 & Ha & Hr) Ht]. revert i. induction n as [|n IH]; intros i Hi Hn; [done|]. cbn [gicr_frames frames_upto_last]. unfold bind at 1.
  rewrite block_get_spec by (done || lia). unfold bind at 1. change 0x8 with 8. rewrite Ht by lia. unfold bind at 1. rewrite lift_last. unfold expect at 1.
  assert (base + i * GICR_FRAME_SIZE + GicrRegisters_end < 2 ^ 64) as Hend.
  { destruct Hd as [k ->]. rewrite Z.div_mul in Hn by done. unfold GICR_FRAME_SIZE, GicrRegisters_end in *. lia. }
  unfold bind at 1, expect, checked_add. rewrite (proj2 (Z.ltb_lt _ _)) by done. destruct (Z.testbit _ 4); [done|]. unfold bind.
  rewrite (IH (i + 1)) by lia. by replace (base + (i + 1) * GICR_FRAME_SIZE) with (base + i * GICR_FRAME_SIZE + GICR_FRAME_SIZE) by lia.
Qed.

(** ** The resources of each kind of entry *)

Definition gicr_base (x : Z * list Z) : Z := efield GicRedistributor "discovery_range_base" x.
Definition gicr_len (x : Z * list Z) : Z := efield GicRedistributor "discovery_range_len" x.
Definition gicr_of (typer : Z → Z) (x : Z * list Z) : list Resource :=
  frames_upto_last typer (Z.to_nat (gicr_len x / GICR_FRAME_SIZE)) (gicr_base x).
Definition its_base (x : Z * list Z) : Z := efield GicIts "phys_base" x.
Definition its_of (x : Z * list Z) : list Resource := if decide (its_base x = 0) then [] else [range_of (its_base x) GitsRegisters_end].
Definition gicd_base (x : Z * list Z) : Z := efield GicDistributor "phys_base" x.
Definition cpu_of (x : Z * list Z) : Z := from_mpidr (efield GicCpuInterface "mpidr" x).

Lemma gicr_resources_spec m typer a x : holds_at m a (entry_bytes x) → sized GicRedistributor x → block_ok m typer (gicr_base x) (gicr_len x) →
  gicr_resources (entry_slice a x) m = Done (gicr_of typer x, m).
Proof.
  intros Hm Hs Hb. unfold gicr_resources. unfold bind at 1. rewrite entry_ref by done. unfold expect, frames. unfold bind at 1 2.
  rewrite (entry_getter m a GicRedistributor "discovery_range_base" x Hm Hs) by is_field. unfold bind at 1.
  rewrite (entry_getter m a GicRedistributor "discovery_range_len" x Hm Hs) by is_field. fold (gicr_base x) (gicr_len x).
  pose proof Hb as [[Hd Hl] _ _]. unfold GicrFrameBlock_new. cbn [s_len]. rewrite (Z.mod0_divide _ _ Hd). cbn [Z.eqb negb].
  rewrite (proj2 (Z.eqb_neq _ _)) by lia. unfold ret at 1. cbn [block_count]. unfold gicr_of.
  replace (gicr_base x) with (gicr_base x + 0 * GICR_FRAME_SIZE) at 2 by lia.
  apply (gicr_frames_spec m); [done|lia|]. rewrite Z.add_0_l. apply Z2Nat.id, Z.div_pos; [lia|done].
Qed.

Lemma its_resources_spec m a x : holds_at m a (entry_bytes x) → sized GicIts x → its_base x + GitsRegisters_end < 2 ^ 64 →
  its_resources (entry_slice a x) m = Done (its_of x, m).
Proof.
  intros Hm Hs Hb. unfold its_resources, bind at 1. rewrite entry_ref by done. unfold expect at 1. unfold bind at 1.
  rewrite (entry_getter m a GicIts "phys_base" x Hm Hs) by is_field. fold (its_base x). unfold its_of. destruct (decide (its_base x = 0)) as [->|Hne]; [done|].
  rewrite (proj2 (Z.eqb_neq _ _)) by done. cbn [negb]. unfold bind, expect, checked_add. by rewrite (proj2 (Z.ltb_lt _ _)).
Qed.

Lemma gicd_resource_spec m a x : holds_at m a (entry_bytes x) → sized GicDistributor x → efield GicDistributor "gic_version" x = 3 →
  gicd_base x ≠ 0 → gicd_base x + GicdRegisters_end < 2 ^ 64 →
  gicd_resource (entry_slice a x) m = Done (range_of (gicd_base x) GicdRegisters_end, m).
Proof.
  intros Hm Hs Hv H0 Hb. unfold gicd_resource, bind at 1. rewrite entry_ref by done. unfold expect at 1. unfold bind at 1.
  rewrite (entry_getter m a GicDistributor "gic_version" x Hm Hs) by is_field. rewrite Hv. cbn [Z.eqb Pos.eqb negb]. unfold bind at 1.
  rewrite (entry_getter m a GicDistributor "phys_base" x Hm Hs) by is_field. fold (gicd_base x). unfold bind at 1, assert.
  rewrite (proj2 (Z.eqb_neq _ _)) by done. cbn [negb]. unfold bind, expect, checked_add. by rewrite (proj2 (Z.ltb_lt _ _)).
Qed.

Lemma gicc_topology_spec m a x : holds_at m a (entry_bytes x) → sized GicCpuInterface x → gicc_topology (entry_slice a x) m = Done (cpu_of x, m).
Proof.
  intros Hm Hs. unfold gicc_topology, bind at 1. rewrite entry_ref by done. unfold expect, bind.
  by rewrite (entry_getter m a GicCpuInterface "mpidr" x Hm Hs) by is_field.
Qed.

(** ** The handler *)

Definition add_top (cl : DeviceClass) (comp : list str) (res : list Resource) (prio : DeviceInitPriority) (t : DeviceTree) : DeviceTree :=
  {| nodes := nodes t ++ [new_node t None cl comp res prio]; roots := roots t ++ [length (nodes t)] |}.

Lemma add_device_top cl comp res prio t : add_device None cl comp res prio t = Done (length (nodes t), add_top cl comp res prio t).
Proof. done. Qed.

Definition add_cpu_of (t : DeviceTree) (x : Z * list Z) : DeviceTree :=
  add_top (Cpu (cpu_of x) (efield GicCpuInterface "acpi_cpu_uid" x)) [] [] Fundamental t.

Abbreviation of_kind ty es := (filter (λ x : Z * list Z, x.1 = ty) es).

(** A MADT with a version 3 distributor [d], at [madt]. *)
Record gic_madt (m : Mem) (madt : Z) (typer : Z → Z) (es : list (Z * list Z)) (d : Z * list Z) : Prop := {
  gm_header : ∃ h, length h = 44%nat ∧ field SdtHeader "len" h = 44 + Z.of_nat (length (concat (entry_bytes <$> es))) ∧
    holds_at m madt (h ++ concat (entry_bytes <$> es));
  gm_entries : Forall entry_ok es;
  gm_gicc x : x ∈ es → x.1 = MADT_GICC → sized GicCpuInterface x;
  gm_gicd : head (of_kind MADT_GICD es) = Some d ∧ sized GicDistributor d ∧ efield GicDistributor "gic_version" d = 3 ∧
    gicd_base d ≠ 0 ∧ gicd_base d + GicdRegisters_end < 2 ^ 64;
  gm_gicr x : x ∈ es → x.1 = MADT_GICR → sized GicRedistributor x ∧ block_ok m typer (gicr_base x) (gicr_len x);
  gm_its x : x ∈ es → x.1 = MADT_ITS → sized GicIts x ∧ its_base x + GitsRegisters_end < 2 ^ 64
}.

(** The arena and the registry of per-CPU blocks after the handler. *)
Definition gic_devices (typer : Z → Z) (es : list (Z * list Z)) (d : Z * list Z) (t : DeviceTree) : DeviceTree :=
  let gicrs := concat (gicr_of typer <$> of_kind MADT_GICR es) in
  add_top (Device.GicV3 (Z.of_nat (length gicrs))) [ascii "arm,gic-v3"]
    (range_of (gicd_base d) GicdRegisters_end :: gicrs ++ concat (its_of <$> of_kind MADT_ITS es)) Fundamental
    (foldl add_cpu_of t (of_kind MADT_GICC es)).

Definition percpu_ready (base mpidr : Z) (topologies : list Z) (r : Registry) : Registry :=
  {| REGISTRY_PTR := base; REGISTRY_LEN := Z.of_nat (length topologies); percpu_mem := cpu_blocks base (length topologies) (percpu_mem r);
     TPIDR_EL1 := match list_find (eq (from_mpidr mpidr)) topologies with Some (i, _) => base + Z.of_nat i * PERCPU_SIZE | None => 0 end |}.

Section handler.
Context {D : TTE} {A : Type} {TA : TableAllocator A} {H : Type} {HM : Pcie.Mmio H}.
Implicit Types s : Boot A H.

Lemma madt_entries_spec m madt typer es d : gic_madt m madt typer es d → madt_entries madt m = Done (entry_slices (madt + 44) es, m).
Proof.
  intros [(h & Hl & Hlen & Hm) He _ _ _ _]. unfold madt_entries, bind at 1, entries, bind.
  rewrite (getter_image m madt SdtHeader "len" (h ++ concat (entry_bytes <$> es)) Hm)
    by (rewrite length_app, Hl; change (Z.to_nat (offset_of SdtHeader "len") + width_of SdtHeader "len")%nat with 8%nat; lia).
  apply holds_app in Hm as [_ Hm]. rewrite Hl in Hm. unfold field, field_bytes in Hlen |- *. rewrite drop_app_le, take_app_le, Hlen
    by (rewrite ?length_drop, Hl; vm_compute; lia). unfold ret at 1, data_ptr. change (size_of SdtHeader) with 36.
  replace (madt + 36 + 8) with (madt + 44) by lia. rewrite Z.add_assoc. by apply madt_items_spec.
Qed.

Lemma add_cpus_spec s es p : holds_at (b_mem s) p (concat (entry_bytes <$> es)) → (∀ x, x ∈ es → x.1 = MADT_GICC → sized GicCpuInterface x) →
  for_each (of_type MADT_GICC (entry_slices p es)) add_cpu s =
  Done (tt, set_parts (foldl add_cpu_of (b_dt s) (of_kind MADT_GICC es)) (b_cpus s) (USE_HVC s) (b_pt s) (b_pci s) s).
Proof.
  revert p s. induction es as [|x es IH]; intros p s Hm Hs; [by destruct s|]. cbn [fmap list_fmap concat] in Hm. apply holds_app in Hm as [Hx Hm].
  rewrite of_type_cons, filter_cons. assert (∀ y, y ∈ es → y.1 = MADT_GICC → sized GicCpuInterface y) as Hs' by (intros y Hy; apply Hs; by apply elem_of_cons; right).
  case_decide as Ety; [|by apply IH]. cbn [app for_each foldl]. specialize (Hs x (list_elem_of_here _ _) Ety).
  unfold bind at 1, add_cpu, bind at 1. rewrite entry_ref by done. unfold expect. unfold bind at 1, on_mem.
  rewrite (entry_getter (b_mem s) p GicCpuInterface "mpidr" x Hx Hs) by is_field. unfold bind at 1.
  rewrite (entry_getter (b_mem s) p GicCpuInterface "acpi_cpu_uid" x Hx Hs) by is_field. unfold bind, on_dt. rewrite add_device_top. unfold ret.
  exact (IH _ (set_parts (add_cpu_of (b_dt s) x) (b_cpus s) (USE_HVC s) (b_pt s) (b_pci s) s) Hm Hs').
Qed.

(** Registering the core that runs, at its position among the processors. *)
Lemma percpu_ready_spec s base mpidr topologies : base ≠ 0 → REGISTRY_PTR (b_cpus s) = 0 → TPIDR_EL1 (b_cpus s) = 0 →
  (on_cpus (percpu_init base (length topologies)) ;;
   match list_find (eq (from_mpidr mpidr)) topologies with
   | Some (i, _) => let* r := on_cpus (register_local (Z.of_nat i)) in match r with Ok _ => ret tt | Err _ => fail Panic end
   | None => ret tt
   end) s = Done (tt, set_parts (b_dt s) (percpu_ready base mpidr topologies (b_cpus s)) (USE_HVC s) (b_pt s) (b_pci s) s).
Proof.
  intros Hb Hr Ht. unfold bind at 1, on_cpus at 1, percpu_init, bind at 1, get, bind, assert. rewrite Hr. cbn [Z.eqb modify]. unfold modify. rewrite Ht.
  unfold percpu_ready. destruct (list_find _ topologies) as [[i y]|] eqn:Ef; [|done].
  apply list_find_Some in Ef as (Hi%lookup_lt_Some & _). unfold bind, on_cpus, register_local, bind, get, assert. cbn [b_cpus set_parts TPIDR_EL1 Z.eqb].
  unfold percpu_get, percpu_all. cbn [REGISTRY_PTR REGISTRY_LEN]. rewrite (proj2 (Z.eqb_neq _ _) Hb), (proj2 (Z.ltb_lt _ _)) by lia. done.
Qed.

Lemma on_mem_run {X} (c : M Mem X) x s : c (b_mem s) = Done (x, b_mem s) → on_mem c s = Done (x, s).
Proof. unfold on_mem. by intros ->. Qed.

Lemma handle_gicv3_run s base mpidr madt typer es d : gic_madt (b_mem s) madt typer es d →
  base ≠ 0 → REGISTRY_PTR (b_cpus s) = 0 → TPIDR_EL1 (b_cpus s) = 0 →
  handle_gicv3 base mpidr madt s =
  Done (tt, set_parts (gic_devices typer es d (b_dt s)) (percpu_ready base mpidr (cpu_of <$> of_kind MADT_GICC es) (b_cpus s))
    (USE_HVC s) (b_pt s) (b_pci s) s).
Proof.
  intros Hg Hb Hr Ht. pose proof (madt_entries_spec _ _ _ _ _ Hg) as Ee. destruct Hg as [(h & Hl & _ & Hm) He Hc (Hd & Hds & Hdv & Hd0 & Hde) Hgr Hi].
  apply holds_app in Hm as [_ Hm]. rewrite Hl in Hm. change (Z.of_nat 44) with 44 in Hm. unfold handle_gicv3. rewrite (bind_run _ _ _ _ _ (on_mem_run _ _ s Ee)).
  rewrite (bind_run _ _ s (cpu_of <$> of_kind MADT_GICC es) s)
    by (apply on_mem_run, map_m_entries; [exact Hm|]; intros x a Hx Ety Ha; apply gicc_topology_spec; [done|by apply Hc]).
  rewrite <- bind_assoc_run. rewrite (bind_run _ _ _ _ _ (percpu_ready_spec s base mpidr _ Hb Hr Ht)).
  set (s1 := set_parts _ _ _ _ _ s). change (b_mem s) with (b_mem s1) in *. destruct (head_entry _ _ _ _ _ Hm Hd) as (a & Eh & Ha).
  rewrite Eh. rewrite (bind_run _ _ s1 _ s1 eq_refl).
  rewrite (bind_run _ _ s1 _ s1 (on_mem_run _ _ s1 (gicd_resource_spec _ a d Ha Hds Hdv Hd0 Hde))).
  rewrite (bind_run _ _ s1 _ _ (add_cpus_spec s1 es _ Hm Hc)). set (s2 := set_parts _ _ _ _ _ s1). change (b_mem s1) with (b_mem s2) in *.
  rewrite (bind_run _ _ s2 (gicr_of typer <$> of_kind MADT_GICR es) s2)
    by (apply on_mem_run, map_m_entries; [exact Hm|]; intros x a' Hx Ety Ha'; destruct (Hgr x Hx Ety); by apply gicr_resources_spec).
  rewrite (bind_run _ _ s2 (its_of <$> of_kind MADT_ITS es) s2)
    by (apply on_mem_run, map_m_entries; [exact Hm|]; intros x a' Hx Ety Ha'; destruct (Hi x Hx Ety); by apply its_resources_spec).
  cbn zeta. unfold bind, on_dt. rewrite add_device_top. done.
Qed.
End handler.
