(* ===== verification/AcpiPci.v ===== *)
(** * PCI segments of the MCFG

    [handle_mcfg] of [kernel/src/earlyinit/acpi.rs] for one allocation: the
    window is mapped in the direct map, so that the pointers of the scan
    translate to the configuration space, and the segment is enumerated. *)

From stdpp Require Import strings.
From S2P Require Import Prelude Bytes Vm Cpu Device Mapper MapperSpec MapperProofs MapperTheorems Registers GicRegs Aml Acpi Pcie PcieProofs PcieScan AcpiInit AcpiProofs AcpiGic.

#[local] Open Scope string_scope.
#[local] Open Scope Z_scope.
#[local] Open Scope list_scope.

(** The segment that an allocation describes. *)
Definition ecam_of (l : list Z) : Ecam :=
  {| phys_base := field McfgAllocation "base_addr" l; ecam_segment := field McfgAllocation "pci_segment_group" l;
     start_bus := field McfgAllocation "start_bus_num" l; end_bus := field McfgAllocation "end_bus_num" l |}.

Definition ecam_pages (e : Ecam) : Z := (end_bus e - start_bus e + 1) * 64.

(** The address in the direct map of a window that ends below [2 ^ VA_WIDTH]. *)
Lemma dmap_window p i : 0 ≤ p → 0 ≤ i → p + i < 2 ^ VA_WIDTH →
  phys_addr_to_dmap p + i = phys_addr_to_dmap (p + i) ∧ canon (phys_addr_to_dmap p + i) = p + i ∧ 0 ≤ phys_addr_to_dmap p.
Proof.
  intros Hp Hi Hs. rewrite !phys_addr_to_dmap_add by (unfold phys_addr; lia). change DMAP_START with ((2 ^ 16 - 1) * 2 ^ VA_WIDTH).
  split_and!; [lia| |unfold VA_WIDTH; lia]. unfold canon. replace (p + (2 ^ 16 - 1) * 2 ^ VA_WIDTH + i) with (p + i + (2 ^ 16 - 1) * 2 ^ VA_WIDTH) by lia.
  rewrite Z.mod_add by done. apply Z.mod_small. lia.
Qed.

Section mcfg.
Context {D : TTE} {DL : TTELaws D}.
#[local] Existing Instance KernelAddressTranslator.
Context {A : Type} {TA : TableAllocator A} {TAL : TableAllocatorLaws A}.
Context {H : Type} {HM : Pcie.Mmio H} {CL : ConfigLaws H}.
Implicit Types s : Boot A H.

(** The loop over offsets is the loop of [map_region]. *)
Lemma map_ecam_pages n i root pa va at_ (p : Pt A) : map_ecam n (i * PAGE_SIZE) root pa va at_ p = map_pages_loop n i root pa va at_ p.
Proof.
  revert i p. induction n as [|n IH]; intros i p; [done|]. cbn [map_ecam map_pages_loop]. rewrite shiftl_page. unfold bind, expect.
  destruct (checked_add 64 pa (i * PAGE_SIZE)), (checked_add 64 va (i * PAGE_SIZE)); try done. destruct (map_page _ _ _ _ p) as [[[] p']|f]; [|done].
  replace (i * PAGE_SIZE + PAGE_SIZE) with ((i + 1) * PAGE_SIZE) by lia. apply IH.
Qed.

(** A segment whose window is whole pages below the end of physical memory,
    in which no block of the page table lies. *)
Record segment_ok (e : Ecam) (root : Z) (p : Pt A) (h : H) : Prop := {
  so_ecam : ecam_ok e;
  so_buses : start_bus e ≤ end_bus e;
  so_aligned : (PAGE_SIZE | phys_base e);
  so_end : phys_base e + ecam_pages e * PAGE_SIZE < 2 ^ VA_WIDTH;
  so_inv : pt_inv root p;
  so_blocks k : 0 ≤ k < ecam_pages e → block_of p root (phys_addr_to_dmap (phys_base e) + k * PAGE_SIZE) = None;
  so_room : 3 * ecam_pages e ≤ Z.of_nat (room (alloc_state p));
  so_endpoints b : on_the_bus e h b → 0 ≤ bus b < 256 → header e h b = 0 → endpoint_ok e h b
}.

Lemma segment_region e root p h : segment_ok e root p h → region_ok root (phys_addr_to_dmap (phys_base e)) (ecam_pages e) p.
Proof.
  intros [[Hb _ _ _] Hbus Hal Hend Hinv Hblk _ _]. assert (0 ≤ ecam_pages e) as Hn by (unfold ecam_pages; lia).
  pose proof (dmap_window (phys_base e) 0 Hb ltac:(lia) ltac:(change PAGE_SIZE with 16384 in *; lia)) as (_ & Ec & H0). rewrite !Z.add_0_r in Ec.
  assert (phys_addr (phys_base e)) as Hp by (unfold phys_addr; change PAGE_SIZE with 16384 in *; lia).
  split; [|rewrite Ec; lia| |done].
  - rewrite phys_addr_to_dmap_add by done. split; [unfold phys_addr, VA_WIDTH in Hp; change DMAP_START with (2 ^ 64 - 2 ^ 48); lia|]. apply Z.divide_add_r; [done|]. by exists ((2 ^ 16 - 1) * 2 ^ 34).
  - rewrite phys_addr_to_dmap_add by done. change DMAP_START with (2 ^ 64 - 2 ^ VA_WIDTH). unfold VA_WIDTH in *. lia.
Qed.

Lemma wp_map_ecam e root rptr at_ p h : segment_ok e root p h → dmap_to_phys rptr = root →
  wp (map_ecam (Z.to_nat (ecam_pages e)) 0 rptr (phys_base e) (phys_addr_to_dmap (phys_base e)) at_) (λ _ p',
    remapped root (phys_base e) (phys_base e + ecam_pages e * PAGE_SIZE) (λ c, Some c) p p') p.
Proof.
  intros Hs Er. pose proof (segment_region e root p h Hs) as R. destruct Hs as [[Hb _ _ _] Hbus Hal Hend Hinv Hblk Hroom _].
  assert (0 ≤ ecam_pages e) as Hn by (unfold ecam_pages; lia).
  pose proof (dmap_window (phys_base e) 0 Hb ltac:(lia) ltac:(change PAGE_SIZE with 16384 in *; lia)) as (_ & Ec & _). rewrite !Z.add_0_r in Ec.
  eapply wp_ext; [exact (map_ecam_pages _ 0 _ _ _ _ _)|].
  eapply wp_mono; [apply (wp_map_pages_loop _ 0 root rptr _ _ at_ p p (ecam_pages e) Er R); [|lia|lia|lia|lia|]|].
  - split; [unfold phys_addr; change PAGE_SIZE with 16384 in *; lia|done].
  - apply remapped_empty; [lia|done].
  - intros _ p' [Hm _]. rewrite Ec in Hm. eapply remapped_ext; [|exact Hm]. intros c _. cbv beta. f_equal. lia.
Qed.

(** What handling an allocation does to the page table, the arena and the
    devices. *)
Record alloc_handled (e : Ecam) (root : Z) s s' : Prop := {
  ah_inv : pt_inv root (b_pt s');
  ah_window b o : fn_ok e b → in_window e b → 0 ≤ o < 4096 → translate (b_pt s') root (ptr e b o) = Some (cfg_phys e b o);
  ah_other va : 0 ≤ va → ¬ phys_base e ≤ canon va < phys_base e + ecam_pages e * PAGE_SIZE →
    translate (b_pt s') root va = translate (b_pt s) root va;
  ah_same : same (b_pci s) (b_pci s');
  ah_devices : ∃ L, b_dt s' = foldl PcieScan.add_root (b_dt s) (describe e (b_pci s) <$> L) ∧
    ∀ b, b ∈ L ↔ endpoint_from e (b_pci s) (start_bus e) b;
  ah_rest : b_mem s' = b_mem s ∧ b_cpus s' = b_cpus s ∧ USE_HVC s' = USE_HVC s
}.

Lemma alloc_getter m a l f : holds_at m a l → length l = 16%nat → f ∈ McfgAllocation.*1 → getter McfgAllocation f a m = Done (field McfgAllocation f l, m).
Proof.
  intros Hm Hl Hf. pose proof (field_bound McfgAllocation f Hf). pose proof (offset_of_nonneg McfgAllocation f).
  change (size_of McfgAllocation) with 16 in *. apply getter_image; [done|lia].
Qed.

Lemma wp_handle_alloc s root rptr at_ a l : holds_at (b_mem s) a l → length l = 16%nat → segment_ok (ecam_of l) root (b_pt s) (b_pci s) →
  dmap_to_phys rptr = root → wp (handle_alloc (Some rptr) at_ a) (λ _ s', alloc_handled (ecam_of l) root s s') s.
Proof.
  intros Hm Hl Hs Er. pose proof Hs as [He Hbus Hal Hend Hinv Hblk Hroom Hep]. pose proof He as [Hb0 Hst Hen _].
  assert (∀ f, f ∈ McfgAllocation.*1 → on_mem (getter McfgAllocation f a) s = Done (field McfgAllocation f l, s)) as Eg
    by (intros f Hf; apply on_mem_run; by apply alloc_getter).
  unfold handle_alloc. eapply wp_ext; [rewrite (bind_run _ _ _ _ _ (Eg "end_bus_num" ltac:(is_field))), (bind_run _ _ _ _ _ (Eg "start_bus_num" ltac:(is_field))); reflexivity|].
  set (e := ecam_of l) in *. change (field McfgAllocation "end_bus_num" l) with (end_bus e). change (field McfgAllocation "start_bus_num" l) with (start_bus e).
  wp_step. eapply wp_expect; [unfold checked_sub; by rewrite (proj2 (Z.leb_le _ _))|]. cbn zeta.
  eapply wp_ext; [rewrite (bind_run _ _ _ _ _ (Eg "base_addr" ltac:(is_field))); reflexivity|]. change (field McfgAllocation "base_addr" l) with (phys_base e).
  assert ((end_bus e - start_bus e + 1) * (1024 * 1024) = ecam_pages e * PAGE_SIZE) as -> by (unfold ecam_pages; change PAGE_SIZE with 16384; lia).
  assert (0 ≤ ecam_pages e) as Hn by (unfold ecam_pages; lia).
  wp_step. eapply wp_expect.
  { unfold checked_add. rewrite (proj2 (Z.ltb_lt _ _)); [done|]. rewrite phys_addr_to_dmap_add by (unfold phys_addr; change PAGE_SIZE with 16384 in *; lia).
    change DMAP_START with (2 ^ 64 - 2 ^ VA_WIDTH). lia. }
  wp_step. eapply wp_expect; [done|]. wp_step.
  assert ((ecam_pages e * PAGE_SIZE + PAGE_SIZE - 1) / PAGE_SIZE = ecam_pages e) as ->.
  { replace (ecam_pages e * PAGE_SIZE + PAGE_SIZE - 1) with (PAGE_SIZE - 1 + ecam_pages e * PAGE_SIZE) by lia. by rewrite Z.div_add. }
  pose proof (wp_map_ecam e root rptr at_ _ _ Hs Er) as ([] & p' & Ep & Hp')%wp_run. unfold wp at 1, on_pt. rewrite Ep.
  set (s1 := set_parts _ _ _ p' _ s).
  eapply wp_ext; [rewrite (bind_run _ _ s1 (ecam_segment e) s1) by (apply on_mem_run; apply alloc_getter; (done || is_field)); reflexivity|].
  pose proof (adds_bus e He (b_pci s) Hep 256 (start_bus e) ltac:(lia) ltac:(lia) (b_pci s) (b_dt s) ltac:(done)) as ([] & [h' t'] & Ee & Hsame & L & Et & HL)%wp_run.
  assert (enumerate_segment {| phys_base := phys_base e; ecam_segment := ecam_segment e; start_bus := start_bus e; end_bus := end_bus e |} (b_pci s, b_dt s)
    = Done (tt, (h', t'))) as Ee' by exact Ee.
  unfold wp, on_pci. change (b_pci s1) with (b_pci s). change (b_dt s1) with (b_dt s). rewrite Ee'. cbn [fst snd] in *. destruct Hp' as [Hi' _ Ht'].
  split; [exact Hi'| | |exact Hsame|by exists L|done].
  - intros b o Hf Hw Ho. pose proof (cfg_phys_range e b Hf o Hw Ho) as Hr. cbn [b_pt set_parts s1].
    assert ((end_bus e - start_bus e + 1) * 2 ^ 20 = ecam_pages e * PAGE_SIZE) as Ew by (unfold ecam_pages; change PAGE_SIZE with 16384; lia). rewrite Ew in Hr.
    pose proof (dmap_window (cfg_phys e b o) 0 ltac:(lia) ltac:(lia) ltac:(lia)) as (_ & Ec & H0). rewrite !Z.add_0_r in Ec.
    unfold ptr. rewrite Ht', Ec by done. by rewrite decide_True by lia.
  - intros va Hva Hout. cbn [b_pt set_parts s1]. rewrite Ht' by done. by rewrite decide_False.
Qed.
End mcfg.
