(* ===== verification/AcpiTheorems.v ===== *)
(** * Theorems about device discovery

    The checks of the root tables, the walk over the tables of the XSDT, and
    what the handlers of [kernel/src/earlyinit/acpi.rs] add to the arena of
    devices. *)

From stdpp Require Import strings.
From S2P Require Import Prelude Bytes Vm Cpu Device Mapper Registers GicRegs Aml AmlProofs Acpi Pcie AcpiInit AcpiProofs AcpiGic AcpiPci MapperSpec MapperProofs MapperTheorems PcieProofs PcieScan PcieTheorems.

#[local] Open Scope string_scope.
#[local] Open Scope Z_scope.
#[local] Open Scope list_scope.

(** ** Layouts

    Offsets and sizes of the ACPI specification. *)
Example acpi_layouts :
  size_of SdtHeader = 36 ∧ size_of Xsdp = 36 ∧ size_of Madt = 44 ∧ size_of Mcfg = 44 ∧ size_of McfgAllocation = 16 ∧
  size_of GenericAddress = 12 ∧ size_of GicCpuInterface = 80 ∧ size_of GicDistributor = 24 ∧ size_of GicRedistributor = 16 ∧
  size_of GicIts = 20 ∧ size_of Gtdt = 96 ∧ size_of Spcr = 80 ∧ size_of Fadt = 276 ∧
  offset_of Xsdp "len" = 20 ∧ offset_of Xsdp "xsdt_addr" = 24 ∧ offset_of GicCpuInterface "mpidr" = 68 ∧
  offset_of GicCpuInterface "acpi_cpu_uid" = 8 ∧ offset_of GicDistributor "gic_version" = 20 ∧
  offset_of GicRedistributor "discovery_range_base" = 4 ∧ offset_of GicIts "phys_base" = 8 ∧ offset_of Gtdt "virt_el1_gsiv" = 64 ∧
  offset_of Fadt "dsdt" = 40 ∧ offset_of Fadt "arm_boot_arch" = 129 ∧ offset_of Fadt "x_dsdt" = 140.
Proof. vm_compute. split_and!; reflexivity. Qed.

(** ** The root pointer *)

Definition sum (l : list Z) : Z := foldr Z.add 0 l.

Lemma checksum_sum l : checksum l = sum l mod 256.
Proof.
  unfold checksum. assert (∀ acc, foldl (λ a b, wrap 8 (a + b)) (wrap 8 acc) l = wrap 8 (acc + sum l)) as H; [|apply (H 0)].
  induction l as [|b l IH]; intros acc; cbn [foldl sum foldr]; [by rewrite Z.add_0_r|]. rewrite wrap_add_l, IH. f_equal. unfold sum. lia.
Qed.

(** Fields of the root pointer by their position in its bytes [b]. *)
Definition xsdp_signed (b : list Z) : Prop := take 8 b = ascii "RSD PTR ".
Definition xsdp_rev (b : list Z) : Z := from_le (take 1 (drop 15 b)).
Definition xsdp_len (b : list Z) : Z := from_le (take 4 (drop 20 b)).
Definition xsdp_sum (b : list Z) : Z := sum (take (Z.to_nat (xsdp_len b)) b).
Definition xsdp_valid (b : list Z) : Prop := xsdp_signed b ∧ 2 ≤ xsdp_rev b ∧ 36 ≤ xsdp_len b ∧ (256 | xsdp_sum b).

(** A field lies in an image whose length is known to be enough. *)
Ltac layout := lazymatch goal with |- (_ ≤ length _)%nat => etransitivity; [|eassumption]; vm_compute; lia end.

Lemma rd_prefix m a b n : holds_at m a b → 0 ≤ n ≤ Z.of_nat (length b) → rd_bytes a (Z.to_nat n) m = Done (take (Z.to_nat n) b, m).
Proof. intros H Hn. pose proof (rd_bytes_part m a b 0 (Z.to_nat n) H ltac:(lia)) as E. by rewrite Z.add_0_r, drop_0 in E. Qed.

Lemma xsdp_checksum_spec m a b : holds_at m a b → (36 ≤ length b)%nat → bytes_ok b → xsdp_len b ≤ Z.of_nat (length b) →
  xsdp_checksum a m = Done (xsdp_sum b mod 256, m).
Proof.
  intros H Hl Hb Hx. unfold xsdp_checksum, bind. rewrite (getter_image m a Xsdp "len" b) by (done || layout).
  unfold slice_bytes. cbn [s_ptr s_len get_memory_slice]. change (field Xsdp "len" b) with (xsdp_len b).
  rewrite (rd_prefix m a b _ H) by (split; [apply from_le_range; by apply Forall_take, Forall_drop|done]).
  unfold ret. by rewrite checksum_sum.
Qed.

Lemma try_from_addr_run m a b : holds_at m a b → (36 ≤ length b)%nat → bytes_ok b → xsdp_len b ≤ Z.of_nat (length b) →
  try_from_addr a m = Done (if decide (¬ xsdp_signed b) then Err "bad signature" else if decide (xsdp_rev b < 2) then Err "bad revision"
    else if decide (xsdp_len b < 36) then Err "bad length" else if decide (xsdp_sum b mod 256 ≠ 0) then Err "bad checksum" else Ok a, m).
Proof.
  intros H Hl Hb Hx. unfold try_from_addr, safe_table_cast, ref_from_prefix, get_memory_slice. cbn [s_len s_ptr]. rewrite Z.leb_refl.
  unfold try_, bind at 1, ret at 1, bind at 1. rewrite (getter_bytes_image m a Xsdp "sig" b) by (done || layout).
  change (field_bytes Xsdp "sig" b) with (take 8 b). fold (xsdp_signed b).
  assert (xsdp_checksum a m = Done (xsdp_sum b mod 256, m)) as Ec by by apply xsdp_checksum_spec.
  destruct (decide (¬ xsdp_signed b)) as [Hs|Hs]; [by rewrite bool_decide_eq_false_2|]. rewrite bool_decide_eq_true_2 by by apply dec_stable. cbn [negb].
  unfold bind at 1. rewrite (getter_image m a Xsdp "rev" b) by (done || layout). change (field Xsdp "rev" b) with (xsdp_rev b).
  destruct (decide (xsdp_rev b < 2)); [by rewrite (proj2 (Z.ltb_lt _ _))|]. rewrite (proj2 (Z.ltb_ge _ _)) by lia.
  unfold bind at 1. rewrite (getter_image m a Xsdp "len" b) by (done || layout). change (field Xsdp "len" b) with (xsdp_len b).
  change (size_of Xsdp) with 36. destruct (decide (xsdp_len b < 36)); [by rewrite (proj2 (Z.ltb_lt _ _))|]. rewrite (proj2 (Z.ltb_ge _ _)) by lia.
  unfold bind. rewrite Ec. case_decide as E; [by rewrite (proj2 (Z.eqb_neq _ _))|]. by rewrite (proj2 (Z.eqb_eq _ _)) by lia.
Qed.

(** C30: the root pointer of ACPI is accepted exactly when its signature is
    right, its revision is at least 2, its length covers the structure and
    its bytes sum to a multiple of 256; the error names the first of these
    that fails. *)
Theorem try_from_addr_spec m a b : holds_at m a b → (36 ≤ length b)%nat → bytes_ok b → xsdp_len b ≤ Z.of_nat (length b) →
  ∃ r, try_from_addr a m = Done (r, m) ∧ (r = Ok a ↔ xsdp_valid b) ∧
    (r = Err "bad signature" ↔ ¬ xsdp_signed b) ∧
    (r = Err "bad revision" ↔ xsdp_signed b ∧ xsdp_rev b < 2) ∧
    (r = Err "bad length" ↔ xsdp_signed b ∧ 2 ≤ xsdp_rev b ∧ xsdp_len b < 36) ∧
    (r = Err "bad checksum" ↔ xsdp_signed b ∧ 2 ≤ xsdp_rev b ∧ 36 ≤ xsdp_len b ∧ ¬ (256 | xsdp_sum b)).
Proof.
  intros H Hl Hb Hx. eexists. split; [by apply try_from_addr_run|]. unfold xsdp_valid. rewrite <- (Z.mod_divide (xsdp_sum b) 256) by lia.
  destruct (decide (xsdp_signed b)) as [Hs|Hs]; [rewrite (decide_False (P := ¬ xsdp_signed b)) by tauto|rewrite (decide_True (P := ¬ xsdp_signed b)) by done; naive_solver].
  destruct (decide (xsdp_rev b < 2)); [naive_solver lia|]. destruct (decide (xsdp_len b < 36)); [naive_solver lia|]. case_decide; naive_solver lia.
Qed.

(** ** The root table *)

Definition xsdt_image (h : string → Z) (es : list Z) : list Z := encode SdtHeader h ++ concat (to_le 8 <$> es).

Record xsdt_valid (h : string → Z) (es : list Z) : Prop := {
  xv_fits : values_fit SdtHeader h;
  xv_sig : h "sig" = from_le (ascii "XSDT");
  xv_len : h "len" = Z.of_nat (length (xsdt_image h es));
  xv_sum : (256 | sum (xsdt_image h es))
}.

Lemma header_field m a h k f : values_fit SdtHeader h → holds_at m a (encode SdtHeader h ++ k) → f ∈ SdtHeader.*1 → getter SdtHeader f a m = Done (h f, m).
Proof. intros Hh Hm Hf. apply holds_app in Hm as [Hm _]. by apply getter_encode. Qed.

Lemma length_header h : length (encode SdtHeader h) = 36%nat.
Proof. pose proof (length_encode SdtHeader h) as E. change (size_of SdtHeader) with 36 in E. lia. Qed.

Lemma length_entries (es : list Z) : length (concat (to_le 8 <$> es)) = (8 * length es)%nat.
Proof. induction es as [|e es IH]; [done|]. cbn [fmap list_fmap concat length]. rewrite length_app, length_to_le, IH. lia. Qed.

Lemma length_xsdt h es : length (xsdt_image h es) = (36 + 8 * length es)%nat.
Proof. unfold xsdt_image. by rewrite length_app, length_header, length_entries. Qed.

(** The signature of an encoded header. *)
Lemma header_sig m a h k : holds_at m a (encode SdtHeader h ++ k) → getter_bytes SdtHeader "sig" a m = Done (to_le 4 (h "sig"), m).
Proof.
  intros Hm. rewrite (getter_bytes_image m a SdtHeader "sig" (encode SdtHeader h ++ k)); [|done|rewrite length_app, length_header; change (Z.to_nat (offset_of SdtHeader "sig") + width_of SdtHeader "sig")%nat with 4%nat; lia].
  by rewrite field_bytes_encode by is_field.
Qed.

Lemma check_spec m a h es : xsdt_valid h es → holds_at m a (xsdt_image h es) → check a m = Done (Ok tt, m).
Proof.
  intros [Hf _ Hl Hs] Hm. unfold check, header_checksum, bind. unfold xsdt_image in Hm at 1. rewrite (header_field m a h _ "len" Hf Hm) by is_field.
  rewrite Hl. rewrite (rd_prefix m a (xsdt_image h es)) by (done || lia). unfold ret at 1. rewrite Nat2Z.id, firstn_all, checksum_sum.
  by rewrite (proj2 (Z.mod_divide _ 256 ltac:(lia)) Hs).
Qed.

Lemma xsdt_spec m p b x h es : holds_at m p b → (36 ≤ length b)%nat → field Xsdp "xsdt_addr" b = x → x ≠ 0 → xsdt_valid h es →
  holds_at m x (xsdt_image h es) → xsdt p m = Done (Ok x, m).
Proof.
  intros Hb Hl Hx Hne Hv Hm. unfold xsdt, bind at 1. rewrite (getter_image m p Xsdp "xsdt_addr" b) by (done || layout). rewrite Hx.
  rewrite (proj2 (Z.eqb_neq _ _) Hne). unfold safe_table_cast, ref_from_prefix, get_memory_slice. cbn [s_len s_ptr]. rewrite Z.leb_refl.
  unfold try_, bind at 1, ret at 1, bind at 1. rewrite (header_sig m x h _ Hm). rewrite (xv_sig _ _ Hv).
  change (bool_decide (to_le 4 (from_le (ascii "XSDT")) = ascii "XSDT")) with true. cbn [negb]. unfold bind. by rewrite (check_spec m x h es).
Qed.

(** ** Printing AML *)

Lemma try_run {S E X Y} (c : M S (result E X)) (k : X → M S (result E Y)) s x s' : c s = Done (Ok x, s') → try_ c k s = k x s'.
Proof. unfold try_, bind. by intros ->. Qed.
Lemma try_err {S E X Y} (c : M S (result E X)) (k : X → M S (result E Y)) s e s' : c s = Done (Err e, s') → try_ c k s = Done (Err e, s').
Proof. unfold try_, bind. by intros ->. Qed.

(** Printing always returns, and stops where the walk without output stops. *)
Lemma format_agrees fuel depth p : bounded p → (length (bytes p) - cursor p < fuel)%nat →
  wp (format_aml_stream fuel depth) (λ r p', moves p p' ∧ aml_stream fuel p = Done (match r with Ok _ => Ok tt | Err e => Err e end, p')) p.
Proof.
  revert depth p. induction fuel as [|fuel IH]; intros depth p B Hf; [lia|]. cbn [format_aml_stream aml_stream]. apply wp_try.
  eapply wp_keep; [apply (wp_parse_next p (λ r p', match r with
    | Ok (Some t) => ∃ n, (1 ≤ n)%nat ∧ (cursor p + n ≤ length (bytes p))%nat ∧ term_ok (bytes p) n t ∧ p' = advance n p
    | Ok None => moves p p' | Err _ => moves p p' end)); [done|intros _; by apply moves_refl|done|eauto 8]|].
  intros r p1 E Hr. destruct r as [[t|]|e].
  2: { apply wp_ret. split; [done|]. by rewrite (try_run _ _ _ _ _ E). }
  2: { split; [done|]. by rewrite (try_err _ _ _ _ _ E). }
  rewrite (try_run _ _ _ _ _ E).
  destruct Hr as (n & Hn & Hl & Ht & ->).
  assert (bounded (advance n p)) as B1 by by apply bounded_advance.
  assert (∀ (out : str) (k : P unit), k (advance n p) = aml_stream fuel (advance n p) →
    wp (try rest := format_aml_stream fuel depth in ok (out ++ rest))
      (λ r p', moves p p' ∧ k (advance n p) = Done (match r with Ok _ => Ok tt | Err e => Err e end, p')) (advance n p)) as Hrest.
  { intros out k Ek. apply wp_try. eapply wp_mono; [apply IH; [done|cbn; lia]|]. intros [rest|e] p' [Hm Ea]; [apply wp_ret|];
      (split; [by eapply moves_advance|by rewrite Ek]). }
  assert (∀ kind (nm : AmlNamePath) (c : AmlParser), body_ok (bytes p) n c →
    wp (try out := (λ p0, match format_aml_stream fuel (S depth) c with
          | Done (Ok body, _) => Done (Ok (indent depth ++ kind ++ ascii " (" ++ name_to_string nm ++ ascii ") {" ++ NL ++ body ++ indent depth ++ ascii "}" ++ NL), p0)
          | Done (Err e, _) => Done (Err e, p0) | Fault f => Fault f end) in
        try rest := format_aml_stream fuel depth in ok (out ++ rest))
      (λ r p', moves p p' ∧ ((λ p0, match aml_stream fuel c with Done (r, _) => Done (r, p0) | Fault f => Fault f end) ;? aml_stream fuel) (advance n p) =
         Done (match r with Ok _ => Ok tt | Err e => Err e end, p')) (advance n p)) as Hnest.
  { intros kind nm c (Hc0 & _ & Hc). destruct (proj1 (wp_run _ _ _) (IH (S depth) c ltac:(unfold bounded; lia) ltac:(lia))) as ([body|e] & c' & Ec & _ & Ea).
    - eapply wp_ext; [unfold try_ at 1, bind at 1; rewrite Ec; reflexivity|]. apply Hrest. unfold try_, bind. by rewrite Ea.
    - unfold wp, try_, bind, ret. rewrite Ec, Ea. split; [|done]. split_and!; [done|cbn; lia|done]. }
  destruct t; cbn [term_ok] in Ht; [by apply Hnest|..]; try (by apply Hnest); by apply Hrest.
Qed.

(** ** The walk over the tables *)

Section boot.
Context {D : TTE} {A : Type} {TA : TableAllocator A} {H : Type} {HM : Pcie.Mmio H}.
#[local] Existing Instance KernelAddressTranslator.
Implicit Types s : Boot A H.

(** The memory of the firmware is only read. *)
Definition reads {X} (c : M (Boot A H) X) : Prop := ∀ s x s', c s = Done (x, s') → b_mem s' = b_mem s.

Lemma reads_ret {X} (x : X) : reads (ret x).
Proof. by intros s y s' [= _ <-]. Qed.
Lemma reads_fail {X} f : reads (fail f : M _ X).
Proof. by intros s y s' ?. Qed.
Lemma reads_assert b : reads (assert b).
Proof. intros s y s'. unfold assert. destruct b; [by intros [= _ <-]|done]. Qed.
Lemma reads_expect {X} (o : option X) : reads (expect o).
Proof. intros s y s'. unfold expect. destruct o; [by intros [= _ <-]|done]. Qed.
Lemma reads_bind {X Y} (c : M _ X) (k : X → M _ Y) : reads c → (∀ x, reads (k x)) → reads (bind c k).
Proof.
  intros Hc Hk s y s'. unfold bind. destruct (c s) as [[x s1]|f] eqn:E; [|done]. intros E'. rewrite (Hk x _ _ _ E'). by eapply Hc.
Qed.
Lemma reads_on_mem {X} (c : M Mem X) : reads (on_mem c).
Proof. intros s y s'. unfold on_mem. destruct (c (b_mem s)) as [[x m]|]; [by intros [= _ <-]|done]. Qed.
Lemma reads_on_dt {X} (c : M DeviceTree X) : reads (on_dt c).
Proof. intros s y s'. unfold on_dt. destruct (c _) as [[x m]|]; [by intros [= _ <-]|done]. Qed.
Lemma reads_on_cpus {X} (c : M Registry X) : reads (on_cpus c).
Proof. intros s y s'. unfold on_cpus. destruct (c _) as [[x m]|]; [by intros [= _ <-]|done]. Qed.
Lemma reads_on_pt {X} (c : M (Pt A) X) : reads (on_pt c).
Proof. intros s y s'. unfold on_pt. destruct (c _) as [[x m]|]; [by intros [= _ <-]|done]. Qed.
Lemma reads_on_pci {X} (c : M (H * DeviceTree) X) : reads (on_pci c).
Proof. intros s y s'. unfold on_pci. destruct (c _) as [[x [h t]]|]; [by intros [= _ <-]|done]. Qed.
Lemma reads_modify t c h p d : reads (modify (λ s, set_parts (t s) (c s) (h s) (p s) (d s) s)).
Proof. by intros s y s' [= _ <-]. Qed.
Lemma reads_for_each {X} (l : list X) c : (∀ x, reads (c x)) → reads (for_each l c).
Proof. intros Hc. induction l as [|x l IH]; [apply reads_ret|]. cbn [for_each]. by apply reads_bind. Qed.

Ltac reads_step :=
  first [ apply reads_ret | apply reads_fail | apply reads_assert | apply reads_expect | apply reads_on_mem | apply reads_on_dt
        | apply reads_on_cpus | apply reads_on_pt | apply reads_on_pci | apply reads_modify
        | apply reads_for_each; intros ? | apply reads_bind; [|intros ?] | case_match ].

Lemma handle_table_reads root at_ pb mp t : reads (handle_table root at_ pb mp t).
Proof.
  unfold handle_table, handle_gtdt, handle_madt, handle_gicv3, handle_fadt, handle_dsdt, handle_mcfg, handle_alloc, add_cpu. cbn zeta.
  repeat reads_step.
Qed.

(** Walking with the iterator handles the tables in the order of the entries. *)
Lemma walk_tables_spec lens handle es it s fuel : (∀ t, reads (handle t)) → xsdt_at (b_mem s) it es → readable_tables (b_mem s) lens es →
  (length es < fuel)%nat → walk_tables fuel handle it s = for_each (table_slices lens es) handle s.
Proof.
  intros Hh. revert it es s. induction fuel as [|fuel IH]; intros it es s Hx Ht Hf; [lia|]. cbn [walk_tables]. unfold bind at 1, on_mem, XsdtIter_next.
  assert (Z.to_nat (x_count it - x_curr it) = length es) as -> by (destruct Hx as (-> & _); lia).
  pose proof (xsdt_next_spec (b_mem s) lens es it (length es) Hx Ht ltac:(lia)) as Hn.
  destruct (table_slices lens es) as [|t rest]; [by destruct Hn as [it' ->]|]. destruct Hn as (it' & es' & -> & Hx' & Ht' & <- & Hl).
  cbn [for_each]. unfold bind. destruct (handle t s) as [[[] s']|f] eqn:E; [|done]. pose proof (Hh _ _ _ _ E) as Em. apply IH; rewrite ?Em; (done || lia).
Qed.

(** What the firmware leaves in memory: one ACPI 2 entry in the configuration
    table, and under it the root pointer [b] and the root table of the
    entries [es], which can be read at their physical addresses and in the
    direct map. *)
Record firmware (m : Mem) (cfg : list (bool * Z)) (lens : Z → Z) (es : list Z) (p x : Z) (b : list Z) (h : string → Z) : Prop := {
  fw_cfg : snd <$> filter (λ t, t.1 = true) cfg = [p];
  fw_xsdp : holds_at m p b;
  fw_length : (36 ≤ length b)%nat;
  fw_bytes : bytes_ok b;
  fw_xsdp_len : xsdp_len b ≤ Z.of_nat (length b);
  fw_xsdp_valid : xsdp_valid b;
  fw_addr : field Xsdp "xsdt_addr" b = x;
  fw_x : x ≠ 0 ∧ phys_addr (x + Z.of_nat (length (xsdt_image h es)));
  fw_xsdt_valid : xsdt_valid h es;
  fw_phys : holds_at m x (xsdt_image h es);
  fw_dmap : holds_at m (phys_addr_to_dmap x) (xsdt_image h es);
  fw_tables : readable_tables m lens es
}.

Lemma acpi_init_run cfg lens es p x b h root at_ pb mp s : firmware (b_mem s) cfg lens es p x b h →
  acpi_init cfg root at_ pb mp s = for_each (table_slices lens es) (handle_table root at_ pb mp) s.
Proof.
  intros [Hc Hp Hl Hb Hxl [Hv1 [Hv2 [Hv3 Hv4]]] Hx [Hx0 Hxp] Hv Hm1 Hm2 Ht]. unfold acpi_init. rewrite Hc. cbn [head]. unfold bind at 1, expect.
  unfold bind at 1, assert. unfold bind at 1, on_mem. rewrite (try_from_addr_run _ p b) by done.
  rewrite (decide_False (P := ¬ xsdp_signed b)) by tauto. rewrite (decide_False (P := xsdp_rev b < 2)) by lia. rewrite (decide_False (P := xsdp_len b < 36)) by lia.
  rewrite (decide_False (P := xsdp_sum b mod 256 ≠ 0)) by (rewrite (proj2 (Z.mod_divide _ 256 ltac:(lia)) Hv4); tauto).
  unfold bind at 1, ret at 1. unfold bind at 1, on_mem. rewrite (xsdt_spec _ p b x h es) by done.
  unfold bind at 1, ret at 1. unfold bind at 1, on_mem, XsdtIter_new, bind at 1. unfold xsdt_image in Hm2 at 1.
  rewrite (header_field _ _ h _ "len" (xv_fits _ _ Hv) Hm2) by is_field. rewrite (xv_len _ _ Hv), length_xsdt. change (size_of SdtHeader) with 36.
  rewrite (proj2 (Z.ltb_ge _ _)) by lia. unfold ret at 1. cbn [x_count].
  replace ((Z.of_nat (36 + 8 * length es) - 36) / 8) with (Z.of_nat (length es))
    by (replace (Z.of_nat (36 + 8 * length es) - 36) with (Z.of_nat (length es) * 8) by lia; by rewrite Z.div_mul).
  apply walk_tables_spec; [intros; apply handle_table_reads| |done|lia].
  rewrite length_xsdt in Hxp. assert (phys_addr x) as Hpx.
  { assert (0 ≤ x) by (rewrite <- Hx; apply from_le_range; by apply Forall_take, Forall_drop). unfold phys_addr in *. lia. }
  rewrite phys_addr_to_dmap_add in * by done. change DMAP_START with (2 ^ 64 - 2 ^ 48) in *. unfold phys_addr, VA_WIDTH in *. apply holds_app in Hm2 as [_ Hm2]. rewrite length_header in Hm2.
  split_and!; cbn [x_count x_curr x_base]; try lia. by rewrite Z.mul_0_r, Z.add_0_r.
Qed.

(** C21: on a firmware with a valid root pointer and root table,
    initialisation runs the handler of every table of the root table once, in
    the order of the entries and skipping null ones, and does nothing else. *)
Theorem acpi_init_spec cfg lens es p x b h root at_ pb mp s : firmware (b_mem s) cfg lens es p x b h →
  acpi_init cfg root at_ pb mp s = for_each (table_slices lens es) (handle_table root at_ pb mp) s.
Proof. apply acpi_init_run. Qed.

(** Without exactly one ACPI 2 entry, or with a root pointer that is not
    valid, initialisation panics. *)
Theorem acpi_init_rejects cfg root at_ pb mp s :
  let acpi2 := snd <$> filter (λ t, t.1 = true) cfg in
  (length acpi2 ≠ 1%nat → acpi_init cfg root at_ pb mp s = Fault Panic) ∧
  ∀ p b, acpi2 = [p] → holds_at (b_mem s) p b → (36 ≤ length b)%nat → bytes_ok b → xsdp_len b ≤ Z.of_nat (length b) → ¬ xsdp_valid b →
    acpi_init cfg root at_ pb mp s = Fault Panic.
Proof.
  intros acpi2. split.
  - intros Hl. unfold acpi_init. fold acpi2. by destruct acpi2 as [|p [|q l]].
  - intros p b E Hm Hl Hb Hx Hv. unfold acpi_init. fold acpi2. rewrite E. cbn [head]. unfold bind at 1, expect, bind at 1, assert, bind at 1, on_mem.
    rewrite (try_from_addr_run _ p b) by done. unfold xsdp_valid in Hv. rewrite <- (Z.mod_divide (xsdp_sum b) 256) in Hv by lia.
    destruct (decide (xsdp_signed b)) as [Hs|Hs]; [rewrite (decide_False (P := ¬ xsdp_signed b)) by tauto|by rewrite (decide_True (P := ¬ xsdp_signed b))].
    repeat (case_decide; [done|]). exfalso. apply Hv. split; [exact Hs|]. lia.
Qed.

(** ** The handlers *)

Lemma handle_gtdt_spec s t l : holds_at (b_mem s) (s_ptr t) l → (96 ≤ length l)%nat → Z.of_nat (length l) = s_len t →
  handle_gtdt t s = Done (tt, set_parts (add_top Timer [ascii "arm,armv8-timer"] [Irq (field Gtdt "virt_el1_gsiv" l)] Regular (b_dt s))
    (b_cpus s) (USE_HVC s) (b_pt s) (b_pci s) s).
Proof.
  intros Hm Hl Hs. unfold handle_gtdt, bind at 1, ref_from_prefix. change (size_of Gtdt) with 96. rewrite (proj2 (Z.leb_le _ _)) by lia. unfold expect.
  unfold bind at 1, on_mem. rewrite (getter_image _ _ Gtdt "platform_timer_count" l) by (done || layout). unfold bind at 1.
  rewrite (getter_image _ _ Gtdt "virt_el1_gsiv" l) by (done || layout). done.
Qed.

(** handling a MADT with a version 3 distributor always returns.  It adds
    one device per processor and one for the controller, whose resources are
    the registers of the distributor, of every redistributor up to the last
    one of its block, and of every translation service; it sets up as many
    per-CPU blocks and registers the running core under its position. *)
Theorem handle_gicv3_spec s base mpidr madt typer es d : gic_madt (b_mem s) madt typer es d →
  base ≠ 0 → REGISTRY_PTR (b_cpus s) = 0 → TPIDR_EL1 (b_cpus s) = 0 →
  handle_gicv3 base mpidr madt s =
  Done (tt, set_parts (gic_devices typer es d (b_dt s)) (percpu_ready base mpidr (cpu_of <$> of_kind MADT_GICC es) (b_cpus s))
    (USE_HVC s) (b_pt s) (b_pci s) s).
Proof. apply handle_gicv3_run. Qed.

(** The DSDT at a slice with the header [h] and the code [aml]. *)
Lemma handle_dsdt_run s t h aml : holds_at (b_mem s) (s_ptr t) (encode SdtHeader h ++ aml) → s_len t = Z.of_nat (36 + length aml) →
  h "sig" = from_le (ascii "DSDT") →
  handle_dsdt t s = match aml_stream (S (length aml)) (parser_new aml) with Done (Ok _, _) => Done (tt, s) | _ => Fault Panic end.
Proof.
  intros Hm Hl Hsig. unfold handle_dsdt, ref_from_prefix. change (size_of SdtHeader) with 36. rewrite (proj2 (Z.leb_le _ _)) by lia.
  rewrite (bind_run _ _ s _ s (on_mem_run _ _ s (header_sig _ _ h _ Hm))). rewrite Hsig.
  change (negb (bool_decide (to_le 4 (from_le (ascii "DSDT")) = ascii "DSDT"))) with false. cbv iota.
  assert (slice_bytes t (b_mem s) = Done (encode SdtHeader h ++ aml, b_mem s)) as Eb.
  { unfold slice_bytes. pose proof (rd_bytes_holds _ _ _ Hm) as E. rewrite length_app, length_header in E. by rewrite Hl, Nat2Z.id. }
  rewrite (bind_run _ _ s _ s (on_mem_run _ _ s Eb)). cbn zeta. change (Z.to_nat 36) with 36%nat.
  rewrite <- (length_header h), drop_app_length.
  pose proof (format_agrees (S (length aml)) 0 (parser_new aml) ltac:(unfold bounded; cbn; lia) ltac:(cbn; lia)) as (r & p' & Ef & _ & Ea)%wp_run.
  rewrite Ea, Ef. by destruct r.
Qed.

(** a DSDT stops the kernel exactly when the AML parser does not accept
    its code; otherwise printing it returns and changes nothing. *)
Theorem handle_dsdt_spec s t h aml : holds_at (b_mem s) (s_ptr t) (encode SdtHeader h ++ aml) → s_len t = Z.of_nat (36 + length aml) →
  h "sig" = from_le (ascii "DSDT") → ∃ r p', aml_stream (S (length aml)) (parser_new aml) = Done (r, p') ∧
  handle_dsdt t s = match r with Ok _ => Done (tt, s) | Err _ => Fault Panic end.
Proof.
  intros Hm Hl Hsig. pose proof (handle_dsdt_run s t h aml Hm Hl Hsig) as E.
  pose proof (format_agrees (S (length aml)) 0 (parser_new aml) ltac:(unfold bounded; cbn; lia) ltac:(cbn; lia)) as (r & p' & _ & _ & Ea)%wp_run.
  rewrite Ea in *. eexists _, _. split; [done|]. rewrite E. by destruct r.
Qed.
End boot.

(** The MCFG: the allocations of an image, each of 16 bytes. *)
Theorem allocations_spec m a h (ls : list (list Z)) : length h = 44%nat → Forall (λ l, length l = 16%nat) ls →
  field SdtHeader "len" h = Z.of_nat (44 + 16 * length ls) → holds_at m a (h ++ concat ls) →
  allocations a m = Done ((λ i, a + 44 + Z.of_nat i * 16) <$> seq 0 (length ls), m) ∧
  ∀ i l, ls !! i = Some l → holds_at m (a + 44 + Z.of_nat i * 16) l.
Proof.
  intros Hh Hls Hlen Hm. split.
  - unfold allocations. change (size_of Mcfg) with 44. change (size_of McfgAllocation) with 16. unfold bind.
    rewrite (getter_image m a SdtHeader "len" (h ++ concat ls) Hm)
      by (rewrite length_app, Hh; change (Z.to_nat (offset_of SdtHeader "len") + width_of SdtHeader "len")%nat with 8%nat; lia).
    unfold field, field_bytes in *. rewrite drop_app_le, take_app_le by (rewrite ?length_drop, Hh; vm_compute; lia). rewrite Hlen.
    rewrite (proj2 (Z.ltb_ge _ _)) by lia. unfold ret.
    replace ((Z.of_nat (44 + 16 * length ls) - 44) / 16) with (Z.of_nat (length ls))
      by (replace (Z.of_nat (44 + 16 * length ls) - 44) with (Z.of_nat (length ls) * 16) by lia; by rewrite Z.div_mul).
    unfold seqZ. rewrite Nat2Z.id, <- list_fmap_compose. do 2 f_equal. apply list_fmap_ext. intros i k _. cbn. lia.
  - apply holds_app in Hm as [_ Hm]. rewrite Hh in Hm. change (Z.of_nat 44) with 44 in Hm. revert Hm Hls. generalize (a + 44). clear.
    induction ls as [|x ls IH]; intros p Hm Hls i l Hi; [done|]. apply Forall_cons in Hls as [Hx Hls]. cbn [concat] in Hm. apply holds_app in Hm as [H1 H2].
    destruct i as [|i]; [injection Hi as ->; by rewrite Z.add_0_r|]. rewrite Hx in H2.
    replace (p + Z.of_nat (S i) * 16) with (p + Z.of_nat 16 + Z.of_nat i * 16) by lia. by apply IH.
Qed.

Section mcfg.
Context {D : TTE} {DL : TTELaws D}.
#[local] Existing Instance KernelAddressTranslator.
Context {A : Type} {TA : TableAllocator A} {TAL : TableAllocatorLaws A}.
Context {H : Type} {HM : Pcie.Mmio H} {CL : PcieProofs.ConfigLaws H}.

(** handling an allocation of the MCFG always returns.  The window of the
    segment is mapped, so that every pointer of the scan translates to the
    register of the configuration space it stands for, and no other address
    changes; the endpoints of the segment are added to the arena, and the
    devices keep the contents of their registers. *)
Theorem handle_alloc_spec (s : Boot A H) root rptr at_ a l : holds_at (b_mem s) a l → length l = 16%nat →
  segment_ok (ecam_of l) root (b_pt s) (b_pci s) → dmap_to_phys rptr = root →
  ∃ s', handle_alloc (Some rptr) at_ a s = Done (tt, s') ∧ alloc_handled (ecam_of l) root s s'.
Proof. intros Hm Hl Hs Er. pose proof (wp_handle_alloc s root rptr at_ a l Hm Hl Hs Er) as ([] & s' & E & Hh)%wp_run. by exists s'. Qed.
End mcfg.

(** ** Witnesses

    A firmware with a root pointer at 0x1000, a root table of a null entry
    and a GTDT, a MADT with two processors, and an MCFG allocation for the
    segment of [PcieTheorems]; memory is read at physical addresses and in
    the direct map. *)

Definition values (l : list (string * Z)) (f : string) : Z := match list_find (λ x, x.1 = f) l with Some (_, (_, v)) => v | None => 0 end.

Definition img_gtdt : list Z := encode Gtdt (values [("header", from_le (encode SdtHeader (values [("sig", from_le (ascii "GTDT")); ("len", 96)])));
  ("virt_el1_gsiv", 27)]).
Definition img_xsdt_values (c : Z) : string → Z := values [("sig", from_le (ascii "XSDT")); ("len", 52); ("rev", 1); ("checksum", c)].
Definition fw_entries : list Z := [0; 0x3000].
Definition img_xsdt : list Z := xsdt_image (img_xsdt_values 88) fw_entries.
Definition img_xsdp : list Z := encode Xsdp (values [("sig", from_le (ascii "RSD PTR ")); ("rev", 2); ("len", 36); ("xsdt_addr", 0x2000); ("ext_checksum", 155)]).

Definition gicc_entry (mpidr uid : Z) : Z * list Z := (MADT_GICC, drop 2 (encode GicCpuInterface (values [("acpi_cpu_uid", uid); ("mpidr", mpidr)]))).
Definition gicd_entry : Z * list Z := (MADT_GICD, drop 2 (encode GicDistributor (values [("phys_base", 0x8000000); ("gic_version", 3)]))).
Definition gicr_entry : Z * list Z := (MADT_GICR, drop 2 (encode GicRedistributor (values [("discovery_range_base", 0x80A0000); ("discovery_range_len", 0x60000)]))).
Definition its_entry : Z * list Z := (MADT_ITS, drop 2 (encode GicIts (values [("phys_base", 0x8080000)]))).
Definition fw_cpus : list (Z * list Z) := [gicd_entry; gicc_entry 0 0; gicc_entry 0x80000100 1; gicr_entry; its_entry].
Definition img_madt : list Z := encode Madt (values [("header", from_le (encode SdtHeader (values [("sig", from_le (ascii "APIC")); ("len", 264)])))]) ++
  concat (entry_bytes <$> fw_cpus).
Definition img_alloc : list Z := encode McfgAllocation (values [("base_addr", 0x10000000)]).
Definition img_dsdt_values : string → Z := values [("sig", from_le (ascii "DSDT")); ("len", 39)].
Definition img_dsdt : list Z := encode SdtHeader img_dsdt_values ++ [0x5B; 0x82; 0x3F].

(** The second of the redistributors is the last one. *)
Definition fw_typer (a : Z) : Z := if decide (a = 0x80C0000) then 0x10 else 0.

Definition fw_images : list (Z * list Z) :=
  [(0x1000, img_xsdp); (0x2000, img_xsdt); (0x3000, img_gtdt); (0x4000, img_madt); (0x5000, img_alloc); (0x6000, img_dsdt);
   (0x80A0008, to_le 8 0); (0x80C0008, to_le 8 0x10); (0x80E0008, to_le 8 0)].

Definition fw_mem : Mem := λ a,
  let p := if DMAP_START <=? a then a - DMAP_START else a in
  foldr (λ x acc, if decide (x.1 ≤ p < x.1 + Z.of_nat (length x.2)) then x.2 !! Z.to_nat (p - x.1) else acc) None fw_images.

Lemma holds_compute m a l : forallb (λ i, bool_decide (m (a + Z.of_nat i) = l !! i)) (seq 0 (length l)) = true → holds_at m a l.
Proof.
  intros E i b Hi. rewrite forallb_forall in E. specialize (E i). rewrite in_seq in E. pose proof (lookup_lt_Some _ _ _ Hi).
  specialize (E ltac:(lia)). apply bool_decide_eq_true in E. by rewrite E.
Qed.

Ltac in_memory := apply holds_compute; vm_compute; reflexivity.

#[local] Existing Instance KernelAddressTranslator.
#[local] Existing Instance demo_bus.
#[local] Existing Instance demo_laws.

Definition fw_boot : Boot Bump (Z → Z) :=
  {| b_mem := fw_mem; b_dt := tree_new; b_cpus := {| REGISTRY_PTR := 0; REGISTRY_LEN := 0; percpu_mem := ∅; TPIDR_EL1 := 0 |};
     USE_HVC := false; b_pt := zero_root demo_root {| next := 2; limit := 300 |}; b_pci := PcieTheorems.demo_bytes |}.

Lemma try_from_addr_spec_witness : ∃ r, try_from_addr 0x1000 fw_mem = Done (r, fw_mem) ∧ (r = Ok 0x1000 ↔ xsdp_valid img_xsdp).
Proof.
  destruct (try_from_addr_spec fw_mem 0x1000 img_xsdp) as (r & E & Hr & _).
  - in_memory.
  - vm_compute. lia.
  - apply encode_ok.
  - vm_compute. congruence.
  - exists r. split; [exact E|exact Hr].
Defined.

Lemma fw_valid : firmware fw_mem [(false, 7); (true, 0x1000)] (λ _, 96) fw_entries 0x1000 0x2000 img_xsdp (img_xsdt_values 88).
Proof.
  split; try in_memory.
  - reflexivity.
  - vm_compute. lia.
  - apply encode_ok.
  - vm_compute. congruence.
  - split_and!; [reflexivity|vm_compute; congruence|vm_compute; congruence|]. by exists (xsdp_sum img_xsdp / 256).
  - reflexivity.
  - split; [congruence|]. vm_compute. split; congruence.
  - split; [apply (bool_decide_unpack _); vm_compute; exact I|reflexivity|reflexivity|]. by exists (sum (xsdt_image (img_xsdt_values 88) fw_entries) / 256).
  - apply Forall_cons. split; [split; [lia|congruence]|]. apply Forall_singleton. split; [lia|]. intros _.
    apply (getter_image fw_mem 0x3000 SdtHeader "len" img_gtdt); [in_memory|vm_compute; lia].
Qed.

(** The only device is the timer of the GTDT. *)
Lemma acpi_init_spec_witness : ∃ s', acpi_init [(false, 7); (true, 0x1000)] None demo_attrs 0x9000 0 fw_boot = Done (tt, s') ∧
  class <$> nodes (b_dt s') = [Timer] ∧ resources <$> nodes (b_dt s') = [[Irq 27]].
Proof.
  rewrite (acpi_init_spec _ _ _ _ _ _ _ None demo_attrs 0x9000 0 fw_boot fw_valid).
  assert (match for_each (table_slices (λ _, 96) fw_entries) (handle_table None demo_attrs 0x9000 0) fw_boot with
          | Done (_, s') => class <$> nodes (b_dt s') = [Timer] ∧ resources <$> nodes (b_dt s') = [[Irq 27]] | Fault _ => False end) as Hr
    by (vm_compute; split; reflexivity).
  destruct (for_each _ _ fw_boot) as [[[] s']|f]; [|destruct Hr]. exists s'. split; [reflexivity|exact Hr].
Defined.

Ltac entry_cases H := unfold fw_cpus in H; rewrite !elem_of_cons in H; destruct H as [->|[->|[->|[->|[->|?%elem_of_nil]]]]].

Lemma img_madt_valid : gic_madt fw_mem 0x4000 fw_typer fw_cpus gicd_entry.
Proof.
  split.
  - exists (take 44 img_madt). split; [reflexivity|]. split; [reflexivity|]. in_memory.
  - apply (bool_decide_unpack _). vm_compute. exact I.
  - intros x Hx Ety. entry_cases Hx; (done || reflexivity).
  - split_and!; [reflexivity|reflexivity|reflexivity|vm_compute; congruence|vm_compute; congruence].
  - intros x Hx Ety. entry_cases Hx; try done.
    split; [reflexivity|]. change (gicr_base gicr_entry) with 0x80A0000. change (gicr_len gicr_entry) with 0x60000.
    split; [split; [by exists 3|lia]|split_and!; [lia|by exists 0x1014000|lia]|]. change (0x60000 / GICR_FRAME_SIZE) with 3. intros i Hi.
    assert (i = 0 ∨ i = 1 ∨ i = 2) as [->|[->| ->]] by lia; apply rd_le_holds; try in_memory; vm_compute; split; congruence.
  - intros x Hx Ety. by entry_cases Hx.
Qed.

Lemma handle_gicv3_spec_witness : ∃ s', handle_gicv3 0x9000 0x80000100 0x4000 fw_boot = Done (tt, s') ∧
  class <$> nodes (b_dt s') = [Cpu 0 0; Cpu 0x100 1; Device.GicV3 2] ∧ TPIDR_EL1 (b_cpus s') = 0x9040 ∧
  resources <$> nodes (b_dt s') = [[]; []; [Device.Mmio 0x8000000 0x8010000; Device.Mmio 0x80A0000 0x80C0000; Device.Mmio 0x80C0000 0x80E0000;
    Device.Mmio 0x8080000 0x80A0000]].
Proof.
  rewrite (handle_gicv3_spec fw_boot 0x9000 0x80000100 0x4000 fw_typer fw_cpus gicd_entry img_madt_valid ltac:(done) eq_refl eq_refl).
  eexists. split; [reflexivity|]. split; [vm_compute; reflexivity|]. split; vm_compute; reflexivity.
Defined.

(** A package length that reaches past the end of the table. *)
Lemma handle_dsdt_spec_witness : handle_dsdt {| s_ptr := 0x6000; s_len := 39 |} fw_boot = Fault Panic.
Proof.
  destruct (handle_dsdt_spec fw_boot {| s_ptr := 0x6000; s_len := 39 |} img_dsdt_values [0x5B; 0x82; 0x3F]) as (r & p' & E & Hr).
  - in_memory.
  - reflexivity.
  - reflexivity.
  - assert (match aml_stream 4 (parser_new [0x5B; 0x82; 0x3F]) with Done (Err _, _) => true | _ => false end = true) as Ee by (vm_compute; reflexivity).
    cbn [length] in E. rewrite E in Ee. destruct r; [discriminate Ee|exact Hr].
Defined.

Lemma demo_segment : segment_ok (ecam_of img_alloc) demo_root (b_pt fw_boot) (b_pci fw_boot).
Proof.
  assert (ecam_of img_alloc = demo_ecam) as -> by reflexivity. change (b_pci fw_boot) with PcieTheorems.demo_bytes.
  split; [exact demo_ecam_ok|done|by exists 16384|vm_compute; congruence| | |vm_compute; congruence|exact demo_endpoint].
  - apply zero_root_inv; [split; [done|by exists 1]|]. split_and!; [cbn; lia|cbn; lia|vm_compute; congruence|].
    intros p ->%elem_of_singleton. vm_compute. reflexivity.
  - intros k Hk. unfold block_of. by apply zero_root_leaf.
Qed.

Lemma handle_alloc_spec_witness : ∃ s', handle_alloc (Some demo_ptr) demo_attrs 0x5000 fw_boot = Done (tt, s') ∧
  translate (b_pt s') demo_root (ptr demo_ecam demo_fn 0x10) = Some (0x10000010).
Proof.
  destruct (handle_alloc_spec fw_boot demo_root demo_ptr demo_attrs 0x5000 img_alloc) as (s' & E & Hh).
  - in_memory.
  - reflexivity.
  - exact demo_segment.
  - reflexivity.
  - exists s'. split; [exact E|]. exact (ah_window _ _ _ _ Hh demo_fn 0x10 demo_fn_ok demo_window ltac:(lia)).
Defined.
