(* ===== verification/Asm.v ===== *)
(** * Exception entry and the start of secondary cores

    Models the assembly of [klib/src/exception.rs] (the macros [save_regs],
    [restore_regs] and [current_exception], the vector table and
    [el1_load_register_file]) and of [kernel/src/earlyinit/smp.rs]
    ([smp_trampoline]) over the few instructions they use, with the layouts of
    [RegisterFile] and [SecondaryBootArgs].

    Memory is words of 64 bits at their byte address: every access of this
    code is to an aligned word.  Barriers and TLB maintenance do nothing. *)

From S2P Require Import Prelude Sched.

(** ** Instructions *)

Inductive SysReg :=
| SP_EL0 | ELR_EL1 | SPSR_EL1 | ESR_EL1 | FAR_EL1 | VBAR_EL1 | TTBR0_EL1 | TTBR1_EL1 | TCR_EL1 | MAIR_EL1 | SCTLR_EL1 | CPACR_EL1
| CurrentEL | HCR_EL2 | CPTR_EL2 | SPSR_EL2 | ELR_EL2 | HSTR_EL2 | CNTHCTL_EL2 | CNTVOFF_EL2.

#[global] Instance SysReg_eq_dec : EqDecision SysReg.
Proof. solve_decision. Defined.

(** [x 31] is not used; the zero register has its own instruction. *)
Record Core := { x : nat → Z; SP : Z; sys : SysReg → Z; mem : Z → Z }.

Inductive Base := BSp | BX (r : nat).

Inductive Instr :=
| Stp_pre (r1 r2 : nat) (imm : Z)
| Stp (r1 r2 : nat) (imm : Z)
| Str (r : nat) (imm : Z)
| Ldp (r1 r2 : nat) (b : Base) (imm : Z)
| Ldp_post (r1 r2 : nat) (imm : Z)
| Ldr (r : nat) (b : Base) (imm : Z)
| Ldr_w (r : nat) (b : Base) (imm : Z)
| Mrs (r : nat) (s : SysReg)
| Msr (s : SysReg) (r : nat)
| Msr_xzr (s : SysReg)
| Add_sp (r : nat) (imm : Z)
| Mov_from_sp (r : nat)
| Mov_sp (r : nat)
| Mov_w (r1 r2 : nat)
| Mov_imm (r : nat) (v : Z)
| Lsr (r1 r2 : nat) (n : Z)
| Barrier.

Definition set_x (r : nat) (v : Z) (c : Core) : Core :=
  {| x := λ n, if decide (n = r) then v else x c n; SP := SP c; sys := sys c; mem := mem c |}.
Definition set_sp (v : Z) (c : Core) : Core := {| x := x c; SP := v; sys := sys c; mem := mem c |}.
Definition set_sys (s : SysReg) (v : Z) (c : Core) : Core :=
  {| x := x c; SP := SP c; sys := λ t, if decide (t = s) then v else sys c t; mem := mem c |}.
Definition store (a v : Z) (c : Core) : Core :=
  {| x := x c; SP := SP c; sys := sys c; mem := λ b, if b =? a then v else mem c b |}.

Definition base_of (b : Base) (c : Core) : Z := match b with BSp => SP c | BX r => x c r end.
Definition at_ (a imm : Z) : Z := wrap 64 (a + imm).

Definition exec (i : Instr) (c : Core) : Core :=
  match i with
  | Stp_pre r1 r2 imm => let a := at_ (SP c) imm in set_sp a (store (at_ a 8) (x c r2) (store a (x c r1) c))
  | Stp r1 r2 imm => store (at_ (SP c) (imm + 8)) (x c r2) (store (at_ (SP c) imm) (x c r1) c)
  | Str r imm => store (at_ (SP c) imm) (x c r) c
  | Ldp r1 r2 b imm => let a := base_of b c in set_x r2 (mem c (at_ a (imm + 8))) (set_x r1 (mem c (at_ a imm)) c)
  | Ldp_post r1 r2 imm =>
      let a := SP c in set_sp (at_ a imm) (set_x r2 (mem c (at_ a 8)) (set_x r1 (mem c (at_ a 0)) c))
  | Ldr r b imm => set_x r (mem c (at_ (base_of b c) imm)) c
  | Ldr_w r b imm => set_x r (wrap 32 (mem c (at_ (base_of b c) imm))) c
  | Mrs r s => set_x r (sys c s) c
  | Msr s r => set_sys s (x c r) c
  | Msr_xzr s => set_sys s 0 c
  | Add_sp r imm => set_x r (at_ (SP c) imm) c
  | Mov_from_sp r => set_x r (SP c) c
  | Mov_sp r => set_sp (x c r) c
  | Mov_w r1 r2 => set_x r1 (wrap 32 (x c r2)) c
  | Mov_imm r v => set_x r v c
  | Lsr r1 r2 n => set_x r1 (Z.shiftr (x c r2) n) c
  | Barrier => c
  end.

Definition run (l : list Instr) (c : Core) : Core := foldl (λ c i, exec i c) c l.

(** ** Exception entry *)

(** [el] is the argument of the macros: 0 for exceptions from EL0. *)
Inductive el := El0 | El1.

Definition save_regs (e : el) : list Instr :=
  [match e with El0 => Stp_pre 0 1 (- (8 * 36)) | El1 => Stp_pre 0 1 (- (128 + 8 * 36)) end;
   Stp 2 3 (8 * 2); Stp 4 5 (8 * 4); Stp 6 7 (8 * 6); Stp 8 9 (8 * 8); Stp 10 11 (8 * 10); Stp 12 13 (8 * 12);
   Stp 14 15 (8 * 14); Stp 16 17 (8 * 16); Stp 18 19 (8 * 18); Stp 20 21 (8 * 20); Stp 22 23 (8 * 22); Stp 24 25 (8 * 24);
   Stp 26 27 (8 * 26); Stp 28 29 (8 * 28); Str 30 (8 * 30);
   match e with El0 => Mrs 16 SP_EL0 | El1 => Add_sp 16 (128 + 8 * 36) end;
   Str 16 (8 * 31);
   Mrs 16 ELR_EL1; Mrs 17 SPSR_EL1; Stp 16 17 (8 * 32);
   Mrs 16 ESR_EL1; Mrs 17 FAR_EL1; Stp 16 17 (8 * 34)].

Definition restore_regs (e : el) : list Instr :=
  [Ldp 16 17 BSp (8 * 32); Msr ELR_EL1 16; Msr SPSR_EL1 17;
   Ldp 16 17 BSp (8 * 34); Msr ESR_EL1 16; Msr FAR_EL1 17;
   Ldp 2 3 BSp (8 * 2); Ldp 4 5 BSp (8 * 4); Ldp 6 7 BSp (8 * 6); Ldp 8 9 BSp (8 * 8); Ldp 10 11 BSp (8 * 10);
   Ldp 12 13 BSp (8 * 12); Ldp 14 15 BSp (8 * 14); Ldp 16 17 BSp (8 * 16); Ldp 18 19 BSp (8 * 18); Ldp 20 21 BSp (8 * 20);
   Ldp 22 23 BSp (8 * 22); Ldp 24 25 BSp (8 * 24); Ldp 26 27 BSp (8 * 26); Ldp 28 29 BSp (8 * 28); Ldr 30 BSp (8 * 30)] ++
  match e with
  | El0 => [Ldr 0 BSp (8 * 31); Msr SP_EL0 0; Ldp_post 0 1 (8 * 36)]
  | El1 => [Ldr 0 BSp (8 * 31); Mov_from_sp 1; Mov_sp 0; Ldp 0 1 (BX 1) 0]
  end.

(** The handler gets the frame in [x0] and returns the one to load; it may
    change every register and all memory. *)
Definition current_exception (handler : Core → Core) (e : el) (c : Core) : Core :=
  let c1 := exec (Mov_from_sp 0) (run (save_regs e) c) in
  run (Mov_sp 0 :: restore_regs e) (handler c1).

Definition el1_load_register_file : list Instr := Mov_sp 0 :: restore_regs El1.

(** ** The vector table

    Entry [n] is at [n * 0x80]; the first four loop forever. *)

Inductive Handler := sync_current | irq_current | fiq_current | serror_current | sync_lower | irq_lower | fiq_lower | serror_lower.
Inductive Vector := Loop | Handle (h : Handler) (e : el).

Definition vector_table : list Vector :=
  [Loop; Loop; Loop; Loop;
   Handle sync_current El1; Handle irq_current El1; Handle fiq_current El1; Handle serror_current El1;
   Handle sync_lower El0; Handle irq_lower El0; Handle fiq_lower El0; Handle serror_lower El0;
   Handle sync_lower El0; Handle irq_lower El0; Handle fiq_lower El0; Handle serror_lower El0].

Definition vector_at (offset : Z) : option Vector :=
  if (offset <? 0) || negb (offset mod 0x80 =? 0) then None else vector_table !! Z.to_nat (offset / 0x80).

(** ** Secondary cores *)

Record SecondaryBootArgs := {
  stack_top_v : Z; entry_fn_v : Z; args_cpu_id : Z; ttbr0 : Z; ttbr1 : Z; tcr : Z; mair : Z; sctlr : Z; cpacr : Z; vbar : Z
}.

(** Up to the [eret] that drops from EL2 to [.L_el1]. *)
Definition trampoline_el2 (L_el1 : Z) : list Instr :=
  [Mov_imm 9 (Z.shiftl 1 31); Msr HCR_EL2 9; Msr_xzr CPTR_EL2; Mov_imm 9 0x3c5; Msr SPSR_EL2 9; Mov_imm 9 L_el1; Msr ELR_EL2 9;
   Msr_xzr CPTR_EL2; Msr_xzr HSTR_EL2; Mov_imm 9 3; Msr CNTHCTL_EL2 9; Msr_xzr CNTVOFF_EL2; Barrier; Barrier].

Definition trampoline_el1 : list Instr :=
  [Ldr 9 (BX 0) 0; Ldr 7 (BX 0) 8; Ldr_w 8 (BX 0) 16; Ldr 1 (BX 0) 24; Ldr 2 (BX 0) 32; Ldr 3 (BX 0) 40; Ldr 4 (BX 0) 48;
   Ldr 5 (BX 0) 56; Ldr 6 (BX 0) 64; Ldr 10 (BX 0) 72;
   Msr TTBR0_EL1 1; Msr TTBR1_EL1 2; Msr TCR_EL1 3; Msr MAIR_EL1 4; Barrier; Barrier; Barrier; Barrier;
   Msr SCTLR_EL1 5; Msr CPACR_EL1 6; Msr VBAR_EL1 10; Barrier; Mov_sp 9; Mov_w 0 8].

(** The core when it branches to [x7], and where that is. *)
Definition smp_trampoline (L_el1 : Z) (c : Core) : Core * Z :=
  let c1 := run [Mrs 9 CurrentEL; Lsr 9 9 2] c in
  let c2 := if x c1 9 =? 2 then run (trampoline_el2 L_el1) c1 else c1 in
  let c3 := run trampoline_el1 c2 in
  (c3, x c3 7).

(** [repr(C)]: each field at the next multiple of its alignment. *)
Fixpoint repr_c (o : Z) (sizes : list Z) : list Z :=
  match sizes with
  | [] => []
  | n :: sizes' => let o' := (o + n - 1) / n * n in o' :: repr_c (o' + n) sizes'
  end.
Definition args_offsets : list Z := repr_c 0 [8; 8; 4; 8; 8; 8; 8; 8; 8; 8].
