(* ===== verification/AsmTheorems.v ===== *)
(** * Theorems about exception entry and secondary cores *)

From S2P Require Import Prelude Sched Asm.

(** ** Frames *)

(** The register file at an address, with the layout of [RegisterFile]. *)
Definition frame_at (m : Z → Z) (a : Z) : RegisterFile :=
  {| registers := (λ i, m (a + 8 * Z.of_nat i)) <$> seq 0 31; sp := m (a + 8 * 31); elr := m (a + 8 * 32); spsr := m (a + 8 * 33);
     esr := m (a + 8 * 34); far := m (a + 8 * 35) |}.

(** The registers of a core when an exception is taken. *)
Definition regs_of (e : el) (c : Core) : RegisterFile :=
  {| registers := x c <$> seq 0 31; sp := match e with El0 => sys c SP_EL0 | El1 => SP c end; elr := sys c ELR_EL1;
     spsr := sys c SPSR_EL1; esr := sys c ESR_EL1; far := sys c FAR_EL1 |}.

(** Below an exception from EL1 the red zone is kept. *)
Definition frame_size (e : el) : Z := match e with El0 => 8 * 36 | El1 => 128 + 8 * 36 end.

Lemma at_small a k : 0 ≤ a → 0 ≤ k → a + k < 2 ^ 64 → at_ a k = a + k.
Proof. intros. unfold at_. apply wrap_small. lia. Qed.

Lemma at_back a k : 0 ≤ k ≤ a → a < 2 ^ 64 → at_ a (- k) = a - k.
Proof. intros. unfold at_. apply wrap_small. lia. Qed.

Section frame.
Context (a : Z) (Ha : 0 ≤ a) (Hend : a + 8 * 36 ≤ 2 ^ 64).

Lemma eqb_at b k : 0 ≤ k < 8 * 36 → (b =? at_ a k) = (b - a =? k).
Proof. intros Hk. rewrite at_small by lia. destruct (Z.eqb_spec b (a + k)), (Z.eqb_spec (b - a) k); (done || lia). Qed.

(** What [save_regs] writes, by the offset in the frame. *)
Definition saved (e : el) (c : Core) (o : Z) : option Z :=
  let f := regs_of e c in
  if (o <? 0) || (8 * 36 <=? o) || negb (o mod 8 =? 0) then None else
  (registers f ++ [sp f; elr f; spsr f; esr f; far f]) !! Z.to_nat (o / 8).
End frame.

(** A word of the frame by its index. *)
Lemma saved_slot e c (i : nat) : (i < 36)%nat →
  saved e c (8 * Z.of_nat i) = (registers (regs_of e c) ++ [sp (regs_of e c); elr (regs_of e c); spsr (regs_of e c); esr (regs_of e c); far (regs_of e c)]) !! i.
Proof.
  intros Hi. unfold saved. rewrite (proj2 (Z.ltb_ge _ _)), (proj2 (Z.leb_gt _ _)) by lia. rewrite Z.mul_comm, Z.mod_mul, Z.div_mul, Nat2Z.id by lia. done.
Qed.

Lemma saved_outside e c o : (∀ i : nat, (i < 36)%nat → o ≠ 8 * Z.of_nat i) → saved e c o = None.
Proof.
  intros Ho. unfold saved. destruct (Z.ltb_spec o 0); [done|]. destruct (Z.leb_spec (8 * 36) o); [done|]. cbn [orb].
  destruct (Z.eqb_spec (o mod 8) 0) as [Em|]; [|done]. exfalso. apply (Ho (Z.to_nat (o / 8))); Z.div_mod_to_equations; lia.
Qed.

Ltac by_slots :=
  repeat match goal with |- (if ?o =? ?k then _ else _) = _ => destruct (Z.eqb_spec o k) as [->|?]; [reflexivity|] end;
  rewrite saved_outside; [reflexivity|];
  intros i Hi; do 36 (destruct i as [|i]; [lia|]); lia.

Lemma save_mem e c b : frame_size e ≤ SP c < 2 ^ 64 → let a := SP c - frame_size e in
  mem (run (save_regs e) c) b = default (mem c b) (saved e c (b - a)).
Proof.
  intros Hsp a. assert (0 ≤ a ∧ a + 8 * 36 ≤ 2 ^ 64) as [H0 H1] by (unfold a; destruct e; cbn [frame_size] in *; lia).
  assert (at_ (SP c) (- frame_size e) = a) as Ea by (apply at_back; unfold frame_size in *; destruct e; lia).
  assert (e = El1 → at_ a (128 + 8 * 36) = SP c) as Er.
  { intros ->. unfold a in *. cbn [frame_size] in *. rewrite at_small by lia. lia. }
  assert ((b =? a) = (b - a =? 0)) as E0 by (destruct (Z.eqb_spec b a), (Z.eqb_spec (b - a) 0); (done || lia)).
  destruct e; cbn [frame_size] in Ea; unfold run, save_regs; cbn [foldl exec store set_sp set_x set_sys SP x sys mem decide decide_rel];
    rewrite ?Ea, ?(Er eq_refl), ?E0, ?(eqb_at a H0 H1) by lia;
    generalize (b - a); intros o; by_slots.
Qed.

Lemma save_sp e c : frame_size e ≤ SP c < 2 ^ 64 → SP (run (save_regs e) c) = SP c - frame_size e ∧ sys (run (save_regs e) c) = sys c.
Proof.
  intros Hsp. assert (at_ (SP c) (- frame_size e) = SP c - frame_size e) as Ea by (apply at_back; unfold frame_size in *; destruct e; lia).
  by destruct e.
Qed.

Lemma save_frame e c : frame_size e ≤ SP c < 2 ^ 64 → frame_at (mem (run (save_regs e) c)) (SP c - frame_size e) = regs_of e c.
Proof.
  intros Hsp. set (a := SP c - frame_size e). set (c' := run (save_regs e) c).
  assert (∀ i : nat, (i < 36)%nat → mem c' (a + 8 * Z.of_nat i) = default (mem c (a + 8 * Z.of_nat i)) (saved e c (8 * Z.of_nat i))) as Hm.
  { intros i Hi. unfold c'. rewrite save_mem by done. fold a. by replace (a + 8 * Z.of_nat i - a) with (8 * Z.of_nat i) by lia. }
  unfold frame_at, regs_of. f_equal.
  - apply list_fmap_ext. intros j i [-> Hi]%lookup_seq. rewrite Nat.add_0_l, Hm, saved_slot by lia.
    rewrite lookup_app_l by (cbn; lia). cbn [registers regs_of]. rewrite list_lookup_fmap, lookup_seq_lt by lia. done.
  - exact (Hm 31%nat ltac:(lia)).
  - exact (Hm 32%nat ltac:(lia)).
  - exact (Hm 33%nat ltac:(lia)).
  - exact (Hm 34%nat ltac:(lia)).
  - exact (Hm 35%nat ltac:(lia)).
Qed.

(** Nothing outside the frame is written. *)
Lemma save_outside e c b : frame_size e ≤ SP c < 2 ^ 64 → ¬ SP c - frame_size e ≤ b < SP c - frame_size e + 8 * 36 →
  mem (run (save_regs e) c) b = mem c b.
Proof. intros Hsp Hb. rewrite save_mem by done. rewrite saved_outside; [done|]. intros i Hi. lia. Qed.

(** ** Loading a frame *)

Lemma restore_regs_run e c : 0 ≤ SP c → SP c + 8 * 36 < 2 ^ 64 → let c' := run (restore_regs e) c in
  regs_of e c' = frame_at (mem c) (SP c) ∧ mem c' = mem c ∧
  match e with El0 => SP c' = SP c + 8 * 36 | El1 => sys c' SP_EL0 = sys c SP_EL0 end.
Proof.
  intros H0 H1 c'. assert (∀ k, 0 ≤ k ≤ 8 * 36 → at_ (SP c) k = SP c + k) as Ha by (intros k Hk; apply at_small; lia).
  unfold c', run, restore_regs, regs_of, frame_at.
  destruct e; cbn [foldl app exec base_of store set_sp set_x set_sys SP x sys mem decide decide_rel]; rewrite !Ha by lia;
    (split; [f_equal|split; reflexivity]); reflexivity.
Qed.


(** The vectors that return with the epilogue for EL1 load the stack pointer
    of the frame into the stack pointer of the kernel and leave the one of
    EL0; with the other epilogue it is the other way round.  A handler that
    returns a frame of the other kind of thread mixes the two up. *)
Theorem epilogue_stack_pointers c : 0 ≤ SP c → SP c + 8 * 36 < 2 ^ 64 → let f := frame_at (mem c) (SP c) in
  SP (run (restore_regs El1) c) = sp f ∧ sys (run (restore_regs El1) c) SP_EL0 = sys c SP_EL0 ∧
  SP (run (restore_regs El0) c) = SP c + 8 * 36 ∧ sys (run (restore_regs El0) c) SP_EL0 = sp f.
Proof.
  intros H0 H1 f. pose proof (restore_regs_run El1 c H0 H1) as R1. pose proof (restore_regs_run El0 c H0 H1) as R0. cbv zeta in R1, R0.
  revert R1 R0. generalize (run (restore_regs El1) c) (run (restore_regs El0) c). intros c1 c0 (E1 & _ & S1) (E0 & _ & S0).
  apply (f_equal sp) in E1, E0. split; [exact E1|]. split; [exact S1|]. split; [exact S0|exact E0].
Qed.

(** ** The vector table

    The architecture takes an exception of kind [k] (synchronous, IRQ, FIQ,
    SError) at offset [0x80 * k] of the block of its source. *)
Example vector_table_layout :
  vector_at 0x200 = Some (Handle sync_current El1) ∧ vector_at 0x280 = Some (Handle irq_current El1) ∧
  vector_at 0x300 = Some (Handle fiq_current El1) ∧ vector_at 0x380 = Some (Handle serror_current El1) ∧
  (∀ block, block = 0x400 ∨ block = 0x600 →
     vector_at block = Some (Handle sync_lower El0) ∧ vector_at (block + 0x80) = Some (Handle irq_lower El0) ∧
     vector_at (block + 0x100) = Some (Handle fiq_lower El0) ∧ vector_at (block + 0x180) = Some (Handle serror_lower El0)).
Proof. split_and!; [reflexivity..|]. by intros block [-> | ->]. Qed.

(** ** Secondary cores *)

(** The structure in memory, with the offsets of [repr(C)]. *)
Definition args_values (s : SecondaryBootArgs) : list Z :=
  [stack_top_v s; entry_fn_v s; args_cpu_id s; ttbr0 s; ttbr1 s; tcr s; mair s; sctlr s; cpacr s; vbar s].
Definition args_at (m : Z → Z) (a : Z) (s : SecondaryBootArgs) : Prop :=
  ∀ i o v, args_offsets !! i = Some o → args_values s !! i = Some v →
    (if decide (i = 2%nat) then wrap 32 (m (a + o)) else m (a + o)) = v.

(** The loads of the arguments, and what follows them. *)
Definition args_loads : list Instr := take 10 trampoline_el1.
Definition take_over : list Instr := drop 10 trampoline_el1.

Lemma args_loaded c s : 0 ≤ x c 0 → x c 0 + 80 < 2 ^ 64 → args_at (mem c) (x c 0) s → let r := run args_loads c in
  x r 9 = stack_top_v s ∧ x r 7 = entry_fn_v s ∧ x r 8 = args_cpu_id s ∧ x r 1 = ttbr0 s ∧ x r 2 = ttbr1 s ∧ x r 3 = tcr s ∧ x r 4 = mair s ∧
  x r 5 = sctlr s ∧ x r 6 = cpacr s ∧ x r 10 = vbar s ∧ mem r = mem c.
Proof.
  intros H0 H1 Hargs r. assert (∀ k, 0 ≤ k < 80 → at_ (x c 0) k = x c 0 + k) as Ha by (intros k Hk; apply at_small; lia).
  pose proof (Hargs 2%nat 16 _ eq_refl eq_refl) as E2. rewrite decide_True in E2 by done.
  assert (∀ i o v, i ≠ 2%nat → args_offsets !! i = Some o → args_values s !! i = Some v → 0 ≤ o < 80 → mem c (at_ (x c 0) o) = v) as Hf.
  { intros i o v Hne Ho Hv Hr. specialize (Hargs i o v Ho Hv). rewrite decide_False in Hargs by done. by rewrite Ha. }
  rewrite <- (Ha 16) in E2 by lia. clear Hargs Ha H0 H1. split_and!; [..|reflexivity].
  - by apply (Hf 0%nat 0).
  - by apply (Hf 1%nat 8).
  - exact E2.
  - by apply (Hf 3%nat 24).
  - by apply (Hf 4%nat 32).
  - by apply (Hf 5%nat 40).
  - by apply (Hf 6%nat 48).
  - by apply (Hf 7%nat 56).
  - by apply (Hf 8%nat 64).
  - by apply (Hf 9%nat 72).
Qed.

(** a secondary core that starts in the trampoline, at EL2 or at EL1,
    reaches the entry function with the stack, the logical identifier and
    the system registers that the first core put into the arguments. *)
Theorem smp_trampoline_spec L c s : 0 ≤ x c 0 → x c 0 + 80 < 2 ^ 64 → args_at (mem c) (x c 0) s → 0 ≤ args_cpu_id s < 2 ^ 32 →
  let '(c', pc) := smp_trampoline L c in
  pc = entry_fn_v s ∧ SP c' = stack_top_v s ∧ x c' 0 = args_cpu_id s ∧ sys c' TTBR0_EL1 = ttbr0 s ∧ sys c' TTBR1_EL1 = ttbr1 s ∧
  sys c' TCR_EL1 = tcr s ∧ sys c' MAIR_EL1 = mair s ∧ sys c' SCTLR_EL1 = sctlr s ∧ sys c' CPACR_EL1 = cpacr s ∧ sys c' VBAR_EL1 = vbar s ∧
  mem c' = mem c.
Proof.
  intros H0 H1 Hargs Hid. unfold smp_trampoline. cbn zeta.
  set (c2 := if _ =? 2 then _ else _). assert (x c2 0 = x c 0 ∧ mem c2 = mem c) as [Ex Em] by (unfold c2; by destruct (_ =? 2)).
  change trampoline_el1 with (args_loads ++ take_over). unfold run. rewrite foldl_app. fold (run args_loads c2).
  rewrite <- Em, <- Ex in Hargs. rewrite <- Ex in H0, H1. pose proof (args_loaded c2 s H0 H1 Hargs) as Ld. rewrite <- Em. clearbody c2.
  destruct Ld as (L0 & L7 & L8 & L1 & L2 & L3 & L4 & L5 & L6 & L10 & Lm). revert L0 L7 L8 L1 L2 L3 L4 L5 L6 L10 Lm. generalize (run args_loads c2).
  intros r L0 L7 L8 L1 L2 L3 L4 L5 L6 L10 Lm. unfold take_over. cbn [foldl exec base_of set_sp set_x set_sys SP x sys mem decide decide_rel].
  split_and!; try done. change (wrap 32 (x r 8) = args_cpu_id s). rewrite L8. apply wrap_small. exact Hid.
Qed.

(** ** Witnesses *)

Definition demo_core : Core :=
  {| x := λ n, 100 + Z.of_nat n; SP := 0x1000; sys := λ s, match s with ELR_EL1 => 0x4000 | SPSR_EL1 => 0x3c5 | CurrentEL => 8 | _ => 0 end;
     mem := λ a, a / 8 |}.


Definition demo_args : SecondaryBootArgs :=
  {| stack_top_v := 1; entry_fn_v := 2; args_cpu_id := 3; ttbr0 := 4; ttbr1 := 5; tcr := 6; mair := 7; sctlr := 8; cpacr := 9; vbar := 10 |}.
Definition demo_secondary : Core :=
  {| x := λ _, 0x80; SP := 0; sys := sys demo_core; mem := λ a, a / 8 - 15 |}.

Lemma smp_trampoline_spec_witness : (smp_trampoline 0x77 demo_secondary).2 = 2 ∧ sys (smp_trampoline 0x77 demo_secondary).1 VBAR_EL1 = 10.
Proof.
  pose proof (smp_trampoline_spec 0x77 demo_secondary demo_args) as H. destruct (smp_trampoline 0x77 demo_secondary) as [c' pc].
  destruct H as (E1 & _ & _ & _ & _ & _ & _ & _ & _ & E2 & _).
  - vm_compute. congruence.
  - vm_compute. reflexivity.
  - intros i o v Ho Hv. do 10 (destruct i as [|i]; [injection Ho as <-; injection Hv as <-; reflexivity|]). discriminate Ho.
  - vm_compute. split; congruence.
  - split; [exact E1|exact E2].
Defined.
