(* ===== verification/EarlyMem.v ===== *)
(** * Early memory

    Models [kernel/src/earlyinit/mem.rs]: the processing of the UEFI memory
    map, the population of the page allocator in two stages, the page
    descriptors, and the direct map of the new page tables.

    A memory map is the list of its entries; the structure and the constants
    of an entry are those of the UEFI specification.  [clone_and_process_mmap]
    writes its result through a raw pointer: its state is the list of the
    writes, and the map that it reads is a value, that is, does not lie in
    the memory that is written.  [MemoryMapRefMut::new] is called with a
    page-aligned buffer of exactly [map_size] bytes, which it accepts. *)

From S2P Require Import Prelude Vm PageAlloc Mapper.

(** ** The UEFI memory map *)

Record MemoryDescriptor := { ty : Z; phys_start : Z; virt_start : Z; page_count : Z; att : Z }.

Definition UEFI_PS : Z := 4096.

Definition LOADER_CODE : Z := 1.
Definition LOADER_DATA : Z := 2.
Definition BOOT_SERVICES_CODE : Z := 3.
Definition BOOT_SERVICES_DATA : Z := 4.
Definition RUNTIME_SERVICES_CODE : Z := 5.
Definition RUNTIME_SERVICES_DATA : Z := 6.
Definition CONVENTIONAL : Z := 7.
Definition ACPI_RECLAIM : Z := 9.
Definition MMIO : Z := 11.

Definition UNCACHEABLE : Z := 0x1.
Definition WRITE_COMBINE : Z := 0x2.
Definition WRITE_THROUGH : Z := 0x4.
Definition WRITE_BACK : Z := 0x8.
Definition RUNTIME : Z := 2 ^ 63.

Definition att_contains (a b : Z) : bool := Z.land a b =? b.

Definition set_ty (t : Z) (d : MemoryDescriptor) : MemoryDescriptor :=
  {| ty := t; phys_start := phys_start d; virt_start := virt_start d; page_count := page_count d; att := att d |}.
Definition set_pages (n : Z) (d : MemoryDescriptor) : MemoryDescriptor :=
  {| ty := ty d; phys_start := phys_start d; virt_start := virt_start d; page_count := n; att := att d |}.

Definition is_normal_desc (desc : MemoryDescriptor) : bool :=
  let att_ok := negb (att_contains (att desc) RUNTIME) in
  let ty_ok := bool_decide (ty desc ∈ [BOOT_SERVICES_CODE; BOOT_SERVICES_DATA; CONVENTIONAL; LOADER_DATA]) in
  att_ok && ty_ok.

(** [phys_start + page_count * UEFI_PS] *)
Definition desc_end {S} (d : MemoryDescriptor) : M S Z :=
  let* n := expect (checked_mul 64 (page_count d) UEFI_PS) in
  expect (checked_add 64 (phys_start d) n).

Definition can_merge {S} (a b : MemoryDescriptor) : M S bool :=
  let* e := desc_end a in
  if negb (e =? phys_start b) then ret false else ret ((ty a =? ty b) && (att a =? att b)).

(** The type that [clone_and_process_mmap] gives to an entry. *)
Definition retype (desc : MemoryDescriptor) : MemoryDescriptor :=
  if is_normal_desc desc && negb (ty desc =? BOOT_SERVICES_DATA) then set_ty CONVENTIONAL desc else desc.

Definition without_loader_code (map : list MemoryDescriptor) : list MemoryDescriptor := filter (λ d, ty d ≠ LOADER_CODE) map.

(** The first loop. *)
Record Pass1 := { final_count : Z; first_normal_start : option Z; last_processed : option MemoryDescriptor }.

Fixpoint pass1 {S} (map : list MemoryDescriptor) (p : Pass1) : M S Pass1 :=
  match map with
  | [] => ret p
  | desc :: map' =>
      let current := retype desc in
      let first := if is_normal_desc desc && negb (ty desc =? BOOT_SERVICES_DATA)
                   then match first_normal_start p with None => Some (phys_start current) | f => f end
                   else first_normal_start p in
      match last_processed p with
      | Some last =>
          let* m := can_merge last current in
          if (m : bool) then
            let* n := expect (checked_add 64 (page_count last) (page_count current)) in
            pass1 map' {| final_count := final_count p; first_normal_start := first; last_processed := Some (set_pages n last) |}
          else pass1 map' {| final_count := final_count p + 1; first_normal_start := first; last_processed := Some current |}
      | None => pass1 map' {| final_count := final_count p; first_normal_start := first; last_processed := Some current |}
      end
  end.

(** The writes to the new map. *)
Definition Writes : Type := list (Z * MemoryDescriptor).

Definition punch (dest_pa map_pages desc_size : Z) (desc : MemoryDescriptor) : M Writes unit :=
  let* covers := (if phys_start desc <=? dest_pa then let* e := desc_end desc in ret (dest_pa <? e) else ret false) in
  let desc' :=
    if (covers : bool) then
      let offset_pages := (dest_pa - phys_start desc) / UEFI_PS in
      let total_needed := offset_pages + map_pages in
      if total_needed <? page_count desc then
        Some {| ty := ty desc; phys_start := phys_start desc + total_needed * UEFI_PS; virt_start := virt_start desc;
                page_count := page_count desc - total_needed; att := att desc |}
      else None
    else Some desc in
  match desc' with
  | None => ret tt
  | Some d =>
      let d := {| ty := ty d; phys_start := phys_start d; virt_start := phys_addr_to_dmap (phys_start d); page_count := page_count d; att := att d |} in
      let* w := get in
      let* o := expect (checked_mul 64 (Z.of_nat (length w)) desc_size) in
      modify (λ w, w ++ [(dest_pa + o, d)])
  end.

(** The second loop, and the descriptor left over. *)
Fixpoint pass2 (dest_pa map_pages desc_size : Z) (map : list MemoryDescriptor) (merged : option MemoryDescriptor) : M Writes unit :=
  match map with
  | [] => match merged with Some last => punch dest_pa map_pages desc_size last | None => ret tt end
  | desc :: map' =>
      let current := retype desc in
      match merged with
      | Some last =>
          let* m := can_merge last current in
          if (m : bool) then
            let* n := expect (checked_add 64 (page_count last) (page_count current)) in
            pass2 dest_pa map_pages desc_size map' (Some (set_pages n last))
          else punch dest_pa map_pages desc_size last ;; pass2 dest_pa map_pages desc_size map' (Some current)
      | None => pass2 dest_pa map_pages desc_size map' (Some current)
      end
  end.

(** The new map: its address and its size; the entries are what was written. *)
Definition clone_and_process_mmap (desc_size : Z) (map : list MemoryDescriptor) : M Writes (Z * Z) :=
  let entries := without_loader_code map in
  let* p := pass1 entries {| final_count := 0; first_normal_start := None; last_processed := None |} in
  let count := match last_processed p with Some _ => final_count p + 1 | None => final_count p end in
  let* dest_pa := expect (first_normal_start p) in
  let* map_bytes := expect (checked_mul 64 count desc_size) in
  let* up := expect (align_up map_bytes UEFI_PS) in
  let map_pages := up / UEFI_PS in
  pass2 dest_pa map_pages desc_size entries None ;;
  let* w := get in
  let* final_map_size := expect (checked_mul 64 (Z.of_nat (length w)) desc_size) in
  ret (dest_pa, final_map_size).

(** ** Populating the page allocator *)

Section populate.
#[local] Existing Instance KernelAddressTranslator.

(** [max_by_key] returns the last of the largest. *)
Definition max_by_pages (l : list MemoryDescriptor) : option MemoryDescriptor :=
  foldl (λ best d, match best with Some b => if page_count b <=? page_count d then Some d else Some b | None => Some d end) None l.

Fixpoint filter_m {S X} (f : X → M S bool) (l : list X) : M S (list X) :=
  match l with
  | [] => ret []
  | x :: l' => let* b := f x in let* r := filter_m f l' in ret (if (b : bool) then x :: r else r)
  end.

Definition populate_alloc_stage0 (map : list MemoryDescriptor) : M PageAllocator unit :=
  let* big := filter_m (λ x, if negb (ty x =? CONVENTIONAL) then ret false
                            else let* n := expect (checked_mul 64 (page_count x) UEFI_PS) in ret (4 * PAGE_SIZE <=? n)) map in
  match max_by_pages big with
  | None => ret tt
  | Some entry =>
      let* start := expect (align_up (phys_start entry) PAGE_SIZE) in
      let* e := desc_end entry in
      add_range start (align_down e PAGE_SIZE)
  end.

Definition add_subrange (start end_ : Z) : M PageAllocator unit :=
  let* start := expect (align_up start PAGE_SIZE) in
  let end_ := align_down end_ PAGE_SIZE in
  let start := phys_addr_to_dmap start in
  let end_ := phys_addr_to_dmap end_ in
  if start <? end_ then
    if 4 * PAGE_SIZE <=? end_ - start then add_range start end_ else ret tt
  else ret tt.

Definition flush (start end_ : Z) : M PageAllocator unit :=
  let* r := overlapping_range start end_ in
  match r with
  | Some (a, b) =>
      (if start <? a then add_subrange start a else ret tt) ;;
      (if b <? end_ then add_subrange b end_ else ret tt)
  | None => add_subrange start end_
  end.

Fixpoint stage1_loop (map : list MemoryDescriptor) (current : option (Z * Z)) : M PageAllocator unit :=
  match map with
  | [] => match current with Some (s, e) => flush s e | None => ret tt end
  | entry :: map' =>
      let start := phys_start entry in
      let* end_ := desc_end entry in
      match current with
      | Some (s, e) =>
          if e =? start then stage1_loop map' (Some (s, end_))
          else flush s e ;; stage1_loop map' (Some (start, end_))
      | None => stage1_loop map' (Some (start, end_))
      end
  end.

(** The loop runs over normal entries only. *)
Definition populate_alloc_stage1 (map : list MemoryDescriptor) : M PageAllocator unit :=
  stage1_loop (filter (λ d, is_normal_desc d = true) map) None.

(** The number of descriptors, and the physical range they are for. *)
Definition create_page_descriptors : M PageAllocator (Z * (Z * Z)) :=
  let* lo := min_address in
  let* hi := max_address in
  let min := dmap_to_phys lo in
  let max := dmap_to_phys hi in
  let* size := expect (checked_sub max min) in
  ret (size / PAGE_SIZE, (min, max)).
End populate.

(** ** The direct map *)

Section dmap.
Context {D : TTE} {A : Type} {TA : TableAllocator A}.
#[local] Existing Instance IdentityTranslator.
Context (PrivilegedReadWrite PrivilegedReadOnly : AccessPermission) (InnerShareable OuterShareable : Shareability).
Context (MAIR_DEVICE_INDEX MAIR_NORMAL_INDEX : Z).

(** The [todo!()] arms are [None]. *)
Definition descriptor_to_meta (desc : MemoryDescriptor) : option Attrs :=
  let caching := Z.land (att desc) (Z.lor (Z.lor (Z.lor UNCACHEABLE WRITE_BACK) WRITE_THROUGH) WRITE_COMBINE) in
  let attr_index :=
    if caching =? UNCACHEABLE then Some MAIR_DEVICE_INDEX
    else if caching =? WRITE_BACK then Some MAIR_NORMAL_INDEX
    else None in
  i ← attr_index;
  let mk ac sh px := Some {| access := ac; share := sh; uxn := true; pxn := px; attr_index := i |} in
  if bool_decide (ty desc ∈ [CONVENTIONAL; BOOT_SERVICES_DATA; BOOT_SERVICES_CODE]) then mk PrivilegedReadWrite InnerShareable false
  else if bool_decide (ty desc ∈ [MMIO; RUNTIME_SERVICES_DATA]) then mk PrivilegedReadWrite OuterShareable true
  else if ty desc =? ACPI_RECLAIM then mk PrivilegedReadOnly InnerShareable true
  else if ty desc =? RUNTIME_SERVICES_CODE then mk PrivilegedReadOnly InnerShareable false
  else None.

(** The nonempty ranges of whole pages. *)
Fixpoint page_ranges {S} (map : list MemoryDescriptor) : M S (list (Z * Z)) :=
  match map with
  | [] => ret []
  | desc :: map' =>
      let* e := desc_end desc in
      let start := align_down (phys_start desc) PAGE_SIZE in
      let* end_ := expect (align_up e PAGE_SIZE) in
      let* rs := page_ranges map' in
      ret (if start <? end_ then (start, end_) :: rs else rs)
  end.

(** The insertion sort swaps an element down while its predecessor is
    larger. *)
Fixpoint sift (l : list (Z * Z)) (r : Z * Z) : list (Z * Z) :=
  match l with
  | [] => [r]
  | y :: l' => if r.1 <? y.1 then y :: sift l' r else r :: l
  end.
(** [l] is the sorted prefix, from its end. *)
Definition insertion_sort (l : list (Z * Z)) : list (Z * Z) := rev (foldl sift [] l).

(** [merged] from its end. *)
Fixpoint merge_ranges (merged : list (Z * Z)) (rs : list (Z * Z)) : list (Z * Z) :=
  match rs with
  | [] => rev merged
  | r :: rs' =>
      match merged with
      | last :: merged' =>
          if r.1 <=? last.2 then merge_ranges ((last.1, if last.2 <? r.2 then r.2 else last.2) :: merged') rs'
          else merge_ranges (r :: merged) rs'
      | [] => merge_ranges [r] rs'
      end
  end.

(** The entries that begin before the end of the page leave [descs]. *)
Fixpoint activate {S} (pa page_end : Z) (descs active : list MemoryDescriptor) : M S (list MemoryDescriptor * list MemoryDescriptor) :=
  match descs with
  | [] => ret ([], active)
  | desc :: descs' =>
      if page_end <=? phys_start desc then ret (descs, active)
      else
        let* e := desc_end desc in
        activate pa page_end descs' (if pa <? e then active ++ [desc] else active)
  end.

Definition optimal (active : list MemoryDescriptor) : option MemoryDescriptor :=
  foldl (λ best desc, match best with
    | None => Some desc
    | Some current =>
        if att_contains (att desc) UNCACHEABLE && negb (att_contains (att current) UNCACHEABLE) then Some desc else Some current
    end) None active.

(** One page. *)
Definition map_one (root pa : Z) (descs active : list MemoryDescriptor) : M (Pt A) (list MemoryDescriptor * list MemoryDescriptor) :=
  let* page_end := expect (checked_add 64 pa PAGE_SIZE) in
  let* r := activate pa page_end descs active in
  let* active := filter_m (λ d, let* e := desc_end d in ret (pa <? e)) r.2 in
  match optimal active with
  | None => ret tt
  | Some desc => let* at_ := expect (descriptor_to_meta desc) in map_page root pa (phys_addr_to_dmap pa) at_
  end ;;
  ret (r.1, active).

(** The pages of a range. *)
Fixpoint map_range (n : nat) (root pa : Z) (descs active : list MemoryDescriptor) : M (Pt A) (list MemoryDescriptor * list MemoryDescriptor) :=
  match n with
  | O => ret (descs, active)
  | S n' => let* r := map_one root pa descs active in map_range n' root (pa + PAGE_SIZE) r.1 r.2
  end.

Fixpoint map_ranges (root : Z) (rs : list (Z * Z)) (descs active : list MemoryDescriptor) : M (Pt A) unit :=
  match rs with
  | [] => ret tt
  | (start, end_) :: rs' =>
      let* r := map_range (Z.to_nat ((end_ - start + PAGE_SIZE - 1) / PAGE_SIZE)) root start descs active in
      map_ranges root rs' r.1 r.2
  end.

Definition map_all_dmap (root : Z) (map : list MemoryDescriptor) : M (Pt A) unit :=
  let* ranges := page_ranges map in
  map_ranges root (merge_ranges [] (insertion_sort ranges)) map [].

(** [old] is the table in [TTBR1_EL1]; the new table is put there. *)
Definition switch_to_new_page_tables (old : Z) (map : list MemoryDescriptor) : M (Pt A) Z :=
  let* new_pt := clone_page_tables old in
  map_all_dmap new_pt map ;;
  ret new_pt.
End dmap.
