(* ===== verification/EarlyDmap.v ===== *)
(** * The direct map

    [map_all_dmap] of [kernel/src/earlyinit/mem.rs] sweeps over the pages of
    physical memory with a list of the descriptors that are active at the
    current page.  On a sorted memory map the sweep agrees with a reference
    that looks at the whole map for each page: the pages that some entry
    touches are mapped, each with the attributes of the first uncacheable
    entry that touches it, or of the first one if none is uncacheable. *)

From stdpp Require Import sorting.
From S2P Require Import Prelude Vm PageAlloc Mapper MapperSpec MapperProofs MapperTheorems EarlyMem.

(** ** Tables that are still missing *)

Section budget.
Context {T : AddressTranslator} {TL : AddressTranslatorLaws T} {D : TTE} {DL : TTELaws D}.
Context {A : Type} {TA : TableAllocator A} {TAL : TableAllocatorLaws A}.
Implicit Types (s : Pt A) (W : gset (list Z)).

(** The tables on the way to a page, by their paths. *)
Definition table_paths (va : Z) : gset (list Z) := {[ [idx va 0]; path2 va; path3 va ]}.

(** The paths of [W] that do not lead to a table. *)
Definition lacking (root : Z) W s : gset (list Z) := filter (λ p, descend (tables s) root p = None) W.

Lemma lacking_le root W s : (size (lacking root W s) ≤ size W)%nat.
Proof. apply subseteq_size. unfold lacking. set_solver. Qed.

Lemma path3_prefixes root va s : is_Some (descend (tables s) root (path3 va)) →
  ∀ p, p ∈ table_paths va → is_Some (descend (tables s) root p).
Proof.
  intros [t3 H3] p Hp. unfold path3 in *. change [idx va 0; idx va 1; idx va 2] with ([idx va 0; idx va 1] ++ [idx va 2]) in H3.
  rewrite descend_app in H3. destruct (descend (tables s) root [idx va 0; idx va 1]) as [t2|] eqn:H2; simplify_eq/=.
  assert (is_Some (descend (tables s) root [idx va 0])) as H1.
  { simpl in H2 |- *. destruct (entry (tables s) root (idx va 0)) as [e|]; simplify_eq/=. destruct (points e); simplify_eq. by eexists. }
  unfold table_paths, path2, path3 in Hp. apply elem_of_union in Hp as [[Hp|Hp]%elem_of_union|Hp]; apply elem_of_singleton in Hp; subst p; [done| |].
  - simpl in H2 |- *. by eexists.
  - change [idx va 0; idx va 1; idx va 2] with ([idx va 0; idx va 1] ++ [idx va 2]). rewrite descend_app. simpl in H2 |- *. rewrite H2. by eexists.
Qed.

Lemma size_needed root va s : Z.of_nat (size (lacking root (table_paths va) s)) = Z.of_nat (tables_needed root va s).
Proof.
  unfold lacking, table_paths. rewrite !filter_union_L by apply _. unfold tables_needed, missing.
  assert (∀ p : list Z, size (filter (λ p, descend (tables s) root p = None) ({[p]} : gset (list Z))) =
    if decide (descend (tables s) root p = None) then 1%nat else 0%nat) as Hs.
  { intros p. rewrite filter_singleton_L by apply _. case_decide; [apply size_singleton|apply size_empty]. }
  rewrite !size_union, !Hs; [lia|..]; unfold path2, path3; set_solver.
Qed.

(** Mapping a page of the plan takes tables that the plan has counted. *)
Lemma lacking_step root W va s s' : (∀ p, p ∈ W → path_ok p) → table_paths va ⊆ W → extends root s s' →
  is_Some (descend (tables s') root (path3 va)) →
  (size (lacking root W s') + tables_needed root va s ≤ size (lacking root W s))%nat.
Proof.
  intros HW Hva [K _ _] H3. pose proof (path3_prefixes root va s' H3) as Hp. pose proof (size_needed root va s) as Hn.
  assert (lacking root W s' ## lacking root (table_paths va) s) as Hd.
  { unfold lacking. intros p [Hp1 _]%elem_of_filter [_ Hp2]%elem_of_filter. destruct (Hp p Hp2) as [t Ht]. congruence. }
  assert (lacking root W s' ∪ lacking root (table_paths va) s ⊆ lacking root W s) as Hsub.
  { unfold lacking. intros p [[Hp1 Hp2]%elem_of_filter|[Hp1 Hp2]%elem_of_filter]%elem_of_union; apply elem_of_filter; [|by auto].
    split; [|done]. destruct (descend (tables s) root p) as [t|] eqn:E; [|done]. by rewrite (K p t (HW p Hp2) E) in Hp1. }
  apply subseteq_size in Hsub. rewrite size_union in Hsub by done. lia.
Qed.

Lemma needed_le root W va s : table_paths va ⊆ W → (tables_needed root va s ≤ size (lacking root W s))%nat.
Proof.
  intros Hva. pose proof (size_needed root va s). assert (lacking root (table_paths va) s ⊆ lacking root W s) as Hs by (unfold lacking; set_solver).
  apply subseteq_size in Hs. lia.
Qed.
End budget.

(** ** Lists *)

Lemma filter_agree {X} (P Q : X → Prop) `{!∀ x, Decision (P x), !∀ x, Decision (Q x)} l : Forall (λ x, P x ↔ Q x) l → filter P l = filter Q l.
Proof. induction 1 as [|x l Hx _ IH]; [done|]. rewrite !filter_cons, IH. repeat case_decide; tauto. Qed.

Lemma filter_empty {X} (P : X → Prop) `{!∀ x, Decision (P x)} l : Forall (λ x, ¬ P x) l → filter P l = [].
Proof. induction 1 as [|x l Hx _ IH]; [done|]. rewrite filter_cons, IH. by case_decide. Qed.

(** ** Entries and pages *)

Definition desc_hi (d : MemoryDescriptor) : Z := phys_start d + page_count d * UEFI_PS.

(** An entry of physical memory. *)
Definition desc_ok (d : MemoryDescriptor) : Prop := 0 ≤ phys_start d ∧ 0 ≤ page_count d ∧ desc_hi d ≤ 2 ^ VA_WIDTH.

Definition map_sorted : list MemoryDescriptor → Prop := StronglySorted (λ a b, phys_start a ≤ phys_start b).

(** The entry has something to say about the page [pa]. *)
Definition touches (pa : Z) (d : MemoryDescriptor) : Prop := phys_start d < pa + PAGE_SIZE ∧ pa < desc_hi d.
#[global] Instance touches_dec pa d : Decision (touches pa d).
Proof. unfold touches. apply _. Defined.

Definition touched (map : list MemoryDescriptor) (pa : Z) : Prop := Exists (touches pa) map.
#[global] Instance touched_dec map pa : Decision (touched map pa).
Proof. unfold touched. apply _. Defined.

(** The entry that decides the attributes of a page. *)
Definition chosen (map : list MemoryDescriptor) (pa : Z) : option MemoryDescriptor := optimal (filter (touches pa) map).

Definition uncacheable (d : MemoryDescriptor) : Prop := att_contains (att d) UNCACHEABLE = true.
#[global] Instance uncacheable_dec d : Decision (uncacheable d).
Proof. unfold uncacheable. apply _. Defined.

Lemma desc_end_run {S} d (s : S) : desc_ok d → desc_end d s = Done (desc_hi d, s).
Proof.
  intros (H1 & H2 & H3). unfold desc_hi, UEFI_PS, VA_WIDTH in H3. unfold desc_end, bind, expect, checked_mul, checked_add, desc_hi, UEFI_PS.
  rewrite (proj2 (Z.ltb_lt _ _)) by lia. by rewrite (proj2 (Z.ltb_lt _ _)) by lia.
Qed.

Lemma filter_m_run {S X} (f : X → M S bool) (P : X → Prop) `{!∀ x, Decision (P x)} (l : list X) (s : S) :
  (∀ x, x ∈ l → f x s = Done (bool_decide (P x), s)) → filter_m f l s = Done (filter P l, s).
Proof.
  induction l as [|x l IH]; intros Hf; [done|]. cbn [filter_m]. unfold bind. rewrite Hf by left. rewrite IH by (intros; apply Hf; by right).
  rewrite filter_cons. unfold ret. case_bool_decide; by case_decide.
Qed.

Lemma touched_chosen map pa : touched map pa ↔ is_Some (chosen map pa).
Proof.
  unfold touched, chosen, optimal. assert (∀ l b, is_Some b → is_Some (foldl (λ best desc, match best with None => Some desc | Some current =>
    if att_contains (att desc) UNCACHEABLE && negb (att_contains (att current) UNCACHEABLE) then Some desc else Some current end) b l)) as Hf.
  { induction l as [|d l IH]; intros b [c ->]; [by eexists|]. cbn [foldl]. apply IH. by case_match; eexists. }
  induction map as [|d map IH]; [split; [by intros ?%Exists_nil|by intros [? ?]]|]. rewrite Exists_cons, IH, filter_cons.
  case_decide; [|tauto]. cbn [foldl]. split; [intros _; apply Hf; by eexists|auto].
Qed.

Lemma optimal_from l b : foldl (λ best desc, match best with None => Some desc | Some current =>
    if att_contains (att desc) UNCACHEABLE && negb (att_contains (att current) UNCACHEABLE) then Some desc else Some current end) (Some b) l =
  if decide (uncacheable b) then Some b else match list_find uncacheable l with Some (_, d) => Some d | None => Some b end.
Proof.
  assert (∀ d, att_contains (att d) UNCACHEABLE = bool_decide (uncacheable d)) as Eu.
  { intros d. apply eq_true_iff_eq. symmetry. apply bool_decide_eq_true. }
  revert b. induction l as [|d l IH]; intros b; [simpl; by case_decide|]. cbn [foldl list_find]. rewrite !Eu.
  case_bool_decide as Hd; case_bool_decide as Hb; cbn [andb negb]; rewrite IH; repeat case_decide; try done; by destruct (list_find _ l) as [[??]|].
Qed.

(** The strictest attributes win: the first uncacheable entry, or the first. *)
Lemma optimal_spec l : optimal l = match list_find uncacheable l with Some (_, d) => Some d | None => head l end.
Proof.
  destruct l as [|d l]; [done|]. unfold optimal. cbn [foldl list_find head]. rewrite optimal_from. case_decide; [done|].
  by destruct (list_find _ l) as [[??]|].
Qed.

Lemma chosen_elem map pa d : chosen map pa = Some d → d ∈ map.
Proof.
  unfold chosen. rewrite optimal_spec. intros Hd. assert (d ∈ filter (touches pa) map) as [_ ?]%list_elem_of_filter; [|done].
  destruct (list_find _ _) as [[i u]|] eqn:E; simplify_eq; [|destruct (filter _ _); simplify_eq/=; left].
  apply list_find_Some in E as (E & _). by eapply list_elem_of_lookup_2.
Qed.

(** ** The sweep *)

(** The entries before [descs] have been activated, and those that reach
    beyond [lo] are still active. *)
Definition swept (map : list MemoryDescriptor) (lo : Z) (descs active : list MemoryDescriptor) : Prop :=
  ∃ prev, map = prev ++ descs ∧ Forall (λ d, phys_start d < lo + PAGE_SIZE) prev ∧ active = filter (λ d, lo < desc_hi d) prev.

Lemma activate_run {S} pa page_end descs active (s : S) : Forall desc_ok descs → ∃ new rest, descs = new ++ rest ∧
  Forall (λ d, phys_start d < page_end) new ∧ (∀ d, head rest = Some d → page_end ≤ phys_start d) ∧
  activate pa page_end descs active s = Done ((rest, active ++ filter (λ d, pa < desc_hi d) new), s).
Proof.
  intros Hok. revert active. induction Hok as [|d descs Hd Hok IH]; intros active.
  { exists [], []. split_and!; [done|done|done|]. cbn [activate]. by rewrite filter_nil, app_nil_r. }
  cbn [activate]. destruct (Z.leb_spec page_end (phys_start d)).
  { exists [], (d :: descs). split_and!; [done|done|by intros ? [= <-]|]. by rewrite filter_nil, app_nil_r. }
  unfold bind. rewrite desc_end_run by done. destruct (IH (if pa <? desc_hi d then active ++ [d] else active)) as (new & rest & -> & Hn & Hr & E).
  exists (d :: new), rest. split_and!; [done|by constructor|done|]. rewrite E, filter_cons.
  destruct (Z.ltb_spec pa (desc_hi d)); case_decide; try lia; [|done]. by rewrite <- app_assoc.
Qed.

Lemma sorted_rest (rest : list MemoryDescriptor) x : map_sorted rest → (∀ d, head rest = Some d → x ≤ phys_start d) → Forall (λ d, x ≤ phys_start d) rest.
Proof.
  intros Hs Hh. destruct Hs as [|d rest Hs Hf]; [done|]. pose proof (Hh d eq_refl). constructor; [done|].
  eapply Forall_impl; [exact Hf|]. intros e He. simpl in He. lia.
Qed.

(** After the entries of a page are activated and those that ended before it
    are retired, exactly the entries that touch the page are active. *)
Lemma sweep_page {S} map lo pa descs active (s : S) : map_sorted map → Forall desc_ok map → swept map lo descs active → lo ≤ pa →
  ∃ rest act, activate pa (pa + PAGE_SIZE) descs active s = Done ((rest, act), s) ∧ Forall desc_ok act ∧
    filter (λ d, pa < desc_hi d) act = filter (touches pa) map ∧ swept map pa rest (filter (touches pa) map).
Proof.
  intros Hs Hok (prev & -> & Hlo & ->) Hle. pose proof (proj1 (Forall_app _ _ _) Hok) as [Hok1 Hok2].
  destruct (activate_run pa (pa + PAGE_SIZE) descs (filter (λ d, lo < desc_hi d) prev) s Hok2) as (new & rest & -> & Hn & Hr & E).
  apply Forall_app in Hok2 as [Hok2 _].
  assert (map_sorted rest) as Hsr. { apply StronglySorted_app_1_r in Hs. by apply StronglySorted_app_1_r in Hs. }
  pose proof (sorted_rest rest _ Hsr Hr) as Hrest.
  assert (filter (touches pa) (prev ++ new ++ rest) = filter (λ d, pa < desc_hi d) (prev ++ new)) as Ef.
  { rewrite app_assoc, (filter_app _ (prev ++ new)). rewrite (filter_empty _ rest), app_nil_r.
    - apply filter_agree. rewrite Forall_app. split; [eapply Forall_impl; [exact Hlo|]|eapply Forall_impl; [exact Hn|]]; intros d Hd; simpl in Hd; unfold touches; lia.
    - eapply Forall_impl; [exact Hrest|]. intros d Hd [Ht _]. simpl in Hd. lia. }
  exists rest, (filter (λ d, lo < desc_hi d) prev ++ filter (λ d, pa < desc_hi d) new). split; [exact E|]. split_and!.
  - apply Forall_app. split; apply Forall_forall; intros d [_ Hd]%list_elem_of_filter; revert d Hd; by apply Forall_forall.
  - rewrite Ef, !filter_app, !list_filter_filter. f_equal; apply list_filter_iff; intros d; split; lia.
  - exists (prev ++ new). split_and!; [by rewrite app_assoc| |done]. apply Forall_app. split; [|done].
    eapply Forall_impl; [exact Hlo|]. intros d Hd. simpl in Hd. lia.
Qed.

(** ** The ranges *)

Definition range_of (d : MemoryDescriptor) : Z * Z := (phys_start d / PAGE_SIZE * PAGE_SIZE, (desc_hi d + PAGE_SIZE - 1) / PAGE_SIZE * PAGE_SIZE).
Definition ranges_of (map : list MemoryDescriptor) : list (Z * Z) := filter (λ r, r.1 < r.2) (range_of <$> map).

Record range_ok (r : Z * Z) : Prop := { rg_start : (PAGE_SIZE | r.1); rg_end : (PAGE_SIZE | r.2); rg_bounds : 0 ≤ r.1 < r.2; rg_phys : r.2 ≤ 2 ^ VA_WIDTH }.

Definition covers (rs : list (Z * Z)) (p : Z) : Prop := Exists (λ r, r.1 ≤ p < r.2) rs.

Lemma range_of_bounds d : desc_ok d → 0 ≤ (range_of d).1 ∧ (range_of d).2 ≤ 2 ^ VA_WIDTH.
Proof.
  intros (H1 & H2 & H3). unfold range_of. cbn [fst snd]. change PAGE_SIZE with 16384. change (2 ^ VA_WIDTH) with 281474976710656 in *.
  split; Z.div_mod_to_equations; lia.
Qed.

Lemma page_ranges_run {S} map (s : S) : Forall desc_ok map → page_ranges map s = Done (ranges_of map, s).
Proof.
  induction 1 as [|d map Hd _ IH]; [done|]. cbn [page_ranges]. unfold bind. rewrite desc_end_run by done. pose proof Hd as (H1 & H2 & H3).
  unfold expect. change PAGE_SIZE with (2 ^ 14). assert (0 ≤ desc_hi d) by (unfold desc_hi, UEFI_PS; lia). rewrite align_up_eq by lia.
  unfold VA_WIDTH in *. rewrite (proj2 (Z.ltb_lt _ _)) by lia. rewrite IH. unfold ret, ranges_of. rewrite fmap_cons, filter_cons.
  assert (phys_start d ≤ 2 ^ 48) by (unfold desc_hi, UEFI_PS in *; lia). rewrite align_down_eq by lia.
  rewrite !(Z.mul_comm (2 ^ 14)). change (phys_start d / 2 ^ 14 * 2 ^ 14) with (range_of d).1. change ((desc_hi d + 2 ^ 14 - 1) / 2 ^ 14 * 2 ^ 14) with (range_of d).2.
  destruct (Z.ltb_spec (range_of d).1 (range_of d).2); case_decide; (done || lia).
Qed.

Lemma ranges_ok map : Forall desc_ok map → Forall range_ok (ranges_of map).
Proof.
  intros Hok. apply Forall_forall. intros r [Hr (d & -> & Hd)%list_elem_of_fmap]%list_elem_of_filter. pose proof (range_of_bounds d (proj1 (Forall_forall _ _) Hok d Hd)) as [H1 H2].
  split; [apply Z.divide_factor_r|apply Z.divide_factor_r|lia|done].
Qed.

Lemma touches_range d p : (PAGE_SIZE | p) → touches p d ↔ (range_of d).1 ≤ p < (range_of d).2.
Proof.
  intros [k ->]. unfold touches, range_of. cbn [fst snd]. change PAGE_SIZE with 16384. Z.div_mod_to_equations. lia.
Qed.

Lemma ranges_cover map p : (PAGE_SIZE | p) → covers (ranges_of map) p ↔ touched map p.
Proof.
  intros Hp. unfold covers, touched, ranges_of. rewrite !Exists_exists. split.
  - intros (r & [_ (d & -> & Hd)%list_elem_of_fmap]%list_elem_of_filter & Hr). exists d. split; [done|]. by apply touches_range.
  - intros (d & Hd & Ht%touches_range); [|done]. exists (range_of d). split; [|done]. apply list_elem_of_filter. split; [lia|]. by apply list_elem_of_fmap_2.
Qed.

(** *** Sorting *)

Definition falling : list (Z * Z) → Prop := StronglySorted (λ a b, b.1 ≤ a.1).
Definition rising : list (Z * Z) → Prop := StronglySorted (λ a b, a.1 ≤ b.1).

Lemma sift_perm l r : sift l r ≡ₚ r :: l.
Proof. induction l as [|y l IH]; [done|]. cbn [sift]. case_match; [rewrite IH; apply Permutation_swap|done]. Qed.

Lemma sift_falling l r : falling l → falling (sift l r).
Proof.
  intros Hl. induction Hl as [|y l Hl IH Hf]; cbn [sift]; [by repeat constructor|]. destruct (Z.ltb_spec r.1 y.1).
  - constructor; [done|]. rewrite sift_perm. constructor; [lia|done].
  - constructor; [by constructor|]. constructor; [lia|]. eapply Forall_impl; [exact Hf|]. intros z Hz. simpl in Hz. lia.
Qed.

Lemma sorted_rev {X} (R : X → X → Prop) l : StronglySorted R l → StronglySorted (λ a b, R b a) (rev l).
Proof.
  induction 1 as [|x l Hl IH Hf]; [constructor|]. simpl. apply StronglySorted_app_2; [|done|by repeat constructor].
  intros a b Ha ->%list_elem_of_singleton. rewrite <- Permutation_rev in Ha. revert a Ha. by apply Forall_forall.
Qed.

Lemma insertion_sort_spec l : insertion_sort l ≡ₚ l ∧ rising (insertion_sort l).
Proof.
  unfold insertion_sort. assert (∀ acc, falling acc → foldl sift acc l ≡ₚ l ++ acc ∧ falling (foldl sift acc l)) as Hg.
  { induction l as [|x l IH]; intros acc Ha; [done|]. cbn [foldl]. destruct (IH (sift acc x) (sift_falling _ _ Ha)) as [Hp ?].
    split; [|done]. rewrite Hp, sift_perm. by rewrite <- Permutation_middle. }
  destruct (Hg [] ltac:(constructor)) as [Hp Hf]. rewrite app_nil_r in Hp. split; [by rewrite <- Permutation_rev|].
  exact (sorted_rev _ _ Hf).
Qed.

(** *** Merging *)

(** Ranges in order, with a gap between them. *)
Definition separated : list (Z * Z) → Prop := StronglySorted (λ a b, a.2 < b.1).

Lemma merge_ranges_spec rs : ∀ merged, rising rs → Forall range_ok rs → Forall range_ok merged →
  StronglySorted (λ a b, b.2 < a.1) merged → (∀ l, head merged = Some l → Forall (λ r, l.1 ≤ r.1) rs) →
  Forall range_ok (merge_ranges merged rs) ∧ separated (merge_ranges merged rs) ∧
  (∀ p, covers (merge_ranges merged rs) p ↔ covers merged p ∨ covers rs p).
Proof.
  induction rs as [|r rs IH]; intros merged Hr Hok Hm Hs Hh; cbn [merge_ranges].
  { split_and!; [by apply Forall_rev|exact (sorted_rev _ _ Hs)|]. intros p. unfold covers. rewrite <- Permutation_rev, Exists_nil. tauto. }
  apply StronglySorted_inv in Hr as [Hr Hrf]. inversion Hok as [|?? Hokr Hok']; subst.
  destruct merged as [|last merged].
  { destruct (IH [r]) as (H1 & H2 & H3); [done|done|by constructor|by repeat constructor|by intros l [= <-]|].
    split_and!; [done|done|]. intros p. rewrite H3. unfold covers. rewrite !Exists_cons, !Exists_nil. tauto. }
  pose proof (Hh last eq_refl) as Hle. inversion Hle as [|?? Hle0 Hle']; subst. inversion Hm as [|?? Hml Hm']; subst.
  apply StronglySorted_inv in Hs as [Hs Hsf]. destruct (Z.leb_spec r.1 last.2) as [Hov|Hgap].
  - destruct Hml as [A1 A2 A3 A4], Hokr as [B1 B2 B3 B4].
    destruct (IH ((last.1, if last.2 <? r.2 then r.2 else last.2) :: merged)) as (H1 & H2 & H3); [done|done| | | |].
    + constructor; [|done]. split; cbn [fst snd]; [done|by case_match|case_match; lia|by case_match].
    + by constructor.
    + by intros l [= <-].
    + split_and!; [done|done|]. intros p. rewrite H3. unfold covers. rewrite !Exists_cons. cbn [fst snd].
      destruct (Z.ltb_spec last.2 r.2); intuition lia.
  - destruct (IH (r :: last :: merged)) as (H1 & H2 & H3); [done|done|by constructor| |by intros l [= <-]|].
    + constructor; [by constructor|]. constructor; [done|]. eapply Forall_impl; [exact Hsf|]. intros x Hx. simpl in Hx. destruct Hml as [_ _ A3 _]. lia.
    + split_and!; [done|done|]. intros p. rewrite H3. unfold covers. rewrite !Exists_cons. tauto.
Qed.

(** The ranges of the direct map cover exactly the touched pages. *)
Lemma dmap_ranges map : Forall desc_ok map → let rs := merge_ranges [] (insertion_sort (ranges_of map)) in
  Forall range_ok rs ∧ separated rs ∧ ∀ p, (PAGE_SIZE | p) → covers rs p ↔ touched map p.
Proof.
  intros Hok rs. destruct (insertion_sort_spec (ranges_of map)) as [Hp Hr]. pose proof (ranges_ok map Hok) as Hrk.
  destruct (merge_ranges_spec (insertion_sort (ranges_of map)) []) as (H1 & H2 & H3); [done|by rewrite Hp|done|constructor|done|].
  split_and!; [done|done|]. intros p Hpg. unfold rs. rewrite H3. rewrite <- ranges_cover by done. unfold covers. rewrite Hp, Exists_nil. tauto.
Qed.

(** ** Mapping *)

Definition page_base (c : Z) : Z := c / PAGE_SIZE * PAGE_SIZE.

Lemma page_base_page p i : (PAGE_SIZE | p) → 0 ≤ i < PAGE_SIZE → page_base (p + i) = p.
Proof. intros [k ->] Hi. unfold page_base. change PAGE_SIZE with 16384 in *. Z.div_mod_to_equations. lia. Qed.

(** The address of a page in the direct map. *)
Lemma dmap_page p : (PAGE_SIZE | p) → 0 ≤ p < 2 ^ VA_WIDTH →
  canon (phys_addr_to_dmap p) = p ∧ page_addr (phys_addr_to_dmap p) ∧ table_addr p ∧ (∀ va, vpn va = vpn (phys_addr_to_dmap p) ↔ page_base (canon va) = p).
Proof.
  intros Hp Hb. rewrite phys_addr_to_dmap_add by done. change DMAP_START with ((2 ^ 16 - 1) * 2 ^ VA_WIDTH).
  assert (canon (p + (2 ^ 16 - 1) * 2 ^ VA_WIDTH) = p) as Ec by (unfold canon; rewrite Z.mod_add by done; by apply Z.mod_small).
  split_and!; [done| |done|].
  - split; [unfold VA_WIDTH in *; lia|]. apply Z.divide_add_r; [done|]. by exists ((2 ^ 16 - 1) * 2 ^ 34).
  - intros va. rewrite !vpn_canon, Ec. unfold page_base. destruct Hp as [k ->]. rewrite Z.div_mul by done. change PAGE_SIZE with 16384. lia.
Qed.

Lemma touched_bound map p : Forall desc_ok map → touched map p → p < 2 ^ VA_WIDTH.
Proof. intros Hok (d & Hd & [_ Ht])%Exists_exists. destruct (proj1 (Forall_forall _ _) Hok d Hd) as (_ & _ & ?). lia. Qed.

Lemma aligned_room p : (PAGE_SIZE | p) → p < 2 ^ VA_WIDTH → p + PAGE_SIZE ≤ 2 ^ VA_WIDTH.
Proof. intros [k ->] H. change PAGE_SIZE with 16384 in *. change (2 ^ VA_WIDTH) with (17179869184 * 16384) in *. lia. Qed.

Section mapping.
#[local] Existing Instance IdentityTranslator.
Context {D : TTE} {DL : TTELaws D} {A : Type} {TA : TableAllocator A} {TAL : TableAllocatorLaws A}.
Context (PrivilegedReadWrite PrivilegedReadOnly : AccessPermission) (InnerShareable OuterShareable : Shareability) (MAIR_DEVICE_INDEX MAIR_NORMAL_INDEX : Z).
Abbreviation meta := (descriptor_to_meta PrivilegedReadWrite PrivilegedReadOnly InnerShareable OuterShareable MAIR_DEVICE_INDEX MAIR_NORMAL_INDEX).
Context (map : list MemoryDescriptor) (root : Z) (s0 : Pt A) (W : gset (list Z)).
Implicit Types s : Pt A.

(** Every touched page has supported attributes, no block mapping is in its
    way in the direct map, and [W] plans for its tables. *)
Record mappable : Prop := {
  mp_sorted : map_sorted map;
  mp_ok : Forall desc_ok map;
  mp_meta p d : chosen map p = Some d → is_Some (meta d);
  mp_block p : (PAGE_SIZE | p) → 0 ≤ p → touched map p → block_of s0 root (phys_addr_to_dmap p) = None;
  mp_paths q : q ∈ W → path_ok q;
  mp_plan p : (PAGE_SIZE | p) → 0 ≤ p → touched map p → table_paths (phys_addr_to_dmap p) ⊆ W
}.

(** The touched pages below [lo] are in the direct map, and nothing else has
    changed; the allocator can serve the tables that are missing. *)
Record dmapped (lo : Z) s : Prop := {
  dm_inv : pt_inv root s;
  dm_block va : 0 ≤ va → block_of s root va = block_of s0 root va;
  dm_translate va : 0 ≤ va → translate s root va =
    if decide (canon va < lo ∧ touched map (page_base (canon va))) then Some (canon va) else translate s0 root va;
  dm_attrs p : (PAGE_SIZE | p) → 0 ≤ p < lo → touched map p → ∃ d at_ e, chosen map p = Some d ∧ meta d = Some at_ ∧
    page_of s root (phys_addr_to_dmap p) = Some (page_leaf p at_ e);
  dm_budget : (size (lacking root W s) ≤ room (alloc_state s))%nat
}.

Lemma dmapped_skip lo lo' s : dmapped lo s → (PAGE_SIZE | lo) → (PAGE_SIZE | lo') → lo ≤ lo' →
  (∀ p, (PAGE_SIZE | p) → lo ≤ p < lo' → ¬ touched map p) → dmapped lo' s.
Proof.
  intros [I B Tr At Bu] Hlo Hlo' Hle Hno. split; [done|done| | |done].
  - intros va Hva. rewrite Tr by done. assert (¬ (lo ≤ page_base (canon va) < lo' ∧ touched map (page_base (canon va)))) as Hn.
    { intros [Hb Ht]. apply (Hno (page_base (canon va))); [apply Z.divide_factor_r|done|done]. }
    assert (lo ≤ canon va → lo ≤ page_base (canon va)).
    { destruct Hlo as [k ->]. unfold page_base. change PAGE_SIZE with 16384. intros. Z.div_mod_to_equations. lia. }
    assert (page_base (canon va) ≤ canon va) by (unfold page_base; change PAGE_SIZE with 16384; Z.div_mod_to_equations; lia).
    destruct (decide (canon va < lo ∧ _)) as [[H1 H2]|H1], (decide (canon va < lo' ∧ _)) as [[H3 H4]|H3]; try done; exfalso.
    + apply H3. split; [lia|done].
    + destruct (decide (canon va < lo)); [by apply H1|]. apply Hn. split; [lia|done].
  - intros p Hp Hb Ht. apply At; [done| |done]. destruct (decide (p < lo)); [lia|]. exfalso. apply (Hno p); [done|lia|done].
Qed.

(** One more page. *)
Lemma dmapped_page pa s s' at_ e d : mappable → dmapped pa s → (PAGE_SIZE | pa) → 0 ≤ pa → touched map pa →
  chosen map pa = Some d → meta d = Some at_ → pt_inv root s' →
  leaf_changed root (phys_addr_to_dmap pa) s s' (Some (page_leaf pa at_ e)) →
  (room (alloc_state s) ≤ tables_needed root (phys_addr_to_dmap pa) s + room (alloc_state s'))%nat → extends root s s' →
  is_Some (descend (tables s') root (path3 (phys_addr_to_dmap pa))) → dmapped (pa + PAGE_SIZE) s'.
Proof.
  intros MP [I B Tr At Bu] Hpg Hpa Ht Ec Em I' Hc Hr Hx H3. pose proof (touched_bound _ _ (mp_ok MP) Ht) as Hb.
  destruct (dmap_page pa Hpg (conj Hpa Hb)) as (_ & [Hva _] & Hta & Hv). set (va0 := phys_addr_to_dmap pa) in *.
  assert (0 ≤ va0) as Hva0 by lia. split; [done| | | |].
  - intros va H. rewrite (block_kept root va0 s s' _ va H Hc). by apply B.
  - intros va H. assert (block_of s root va0 = None) as Hbl by (rewrite B by done; by apply (mp_block MP)).
    rewrite (translate_changed root va0 s s' _ va Hva0 H Hc Hbl). destruct (page_leaf_spec pa at_ e Hta) as (_ & _ & Ea). cbn [fmap option_fmap option_map].
    rewrite Ea, <- canon_mod. destruct (decide (vpn va = vpn va0)) as [Evp|Evp]; rewrite Hv in Evp.
    + assert (canon va = pa + canon va mod PAGE_SIZE) as Ep by (rewrite <- Evp at 1; unfold page_base; change PAGE_SIZE with 16384; Z.div_mod_to_equations; lia).
      rewrite decide_True; [by rewrite <- Ep|]. split; [|by rewrite Evp]. pose proof (Z.mod_pos_bound (canon va) PAGE_SIZE ltac:(done)). lia.
    + rewrite Tr by done. destruct Hpg as [k ->]. unfold page_base in *. change PAGE_SIZE with 16384 in *.
      destruct (decide (canon va < k * 16384 ∧ _)) as [[H1 H2]|H1], (decide (canon va < k * 16384 + 16384 ∧ _)) as [[H4 H5]|H4]; try done; exfalso;
        [apply H4; split; [lia|done]|apply H1; split; [|done]]. Z.div_mod_to_equations. lia.
  - intros p Hp [Hp0 Hlt] Htp. pose proof (touched_bound _ _ (mp_ok MP) Htp) as Hpb. destruct (dmap_page p Hp (conj Hp0 Hpb)) as (Ecp & [Hvp _] & _ & _).
    rewrite (page_changed root va0 s s' _ _ Hva0 (proj1 Hvp) Hc). case_decide as Evp.
    + rewrite Hv, Ecp in Evp. assert (p = pa) as -> by (rewrite <- Evp; destruct Hp as [k ->]; unfold page_base; by rewrite Z.div_mul).
      by exists d, at_, e.
    + apply At; [done| |done]. assert (p ≠ pa) by (intros ->; done). destruct Hp as [k ->], Hpg as [k' ->]. change PAGE_SIZE with 16384 in *. lia.
  - pose proof (lacking_step root W va0 s s' (mp_paths MP) (mp_plan MP pa Hpg Hpa Ht) Hx H3). lia.
Qed.

Abbreviation map_one := (map_one PrivilegedReadWrite PrivilegedReadOnly InnerShareable OuterShareable MAIR_DEVICE_INDEX MAIR_NORMAL_INDEX).
Abbreviation map_range := (map_range PrivilegedReadWrite PrivilegedReadOnly InnerShareable OuterShareable MAIR_DEVICE_INDEX MAIR_NORMAL_INDEX).
Abbreviation map_ranges := (map_ranges PrivilegedReadWrite PrivilegedReadOnly InnerShareable OuterShareable MAIR_DEVICE_INDEX MAIR_NORMAL_INDEX).
Abbreviation map_all_dmap := (map_all_dmap PrivilegedReadWrite PrivilegedReadOnly InnerShareable OuterShareable MAIR_DEVICE_INDEX MAIR_NORMAL_INDEX).

(** What [map_one] does before it maps the page. *)
Lemma map_one_run lo pa descs active s : map_sorted map → Forall desc_ok map → swept map lo descs active → lo ≤ pa → pa + PAGE_SIZE < 2 ^ 64 →
  ∃ rest, swept map pa rest (filter (touches pa) map) ∧
    map_one root pa descs active s =
      match chosen map pa with
      | None => Done ((rest, filter (touches pa) map), s)
      | Some d => (let* at_ := expect (meta d) in map_page root pa (phys_addr_to_dmap pa) at_ ;; ret (rest, filter (touches pa) map)) s
      end.
Proof.
  intros Hs Hok Hsw Hle Hb. destruct (sweep_page map lo pa descs active s Hs Hok Hsw Hle) as (rest & act & Ea & Hact & Ef & Hsw').
  exists rest. split; [done|]. unfold EarlyMem.map_one, bind at 1, expect at 1, checked_add. rewrite (proj2 (Z.ltb_lt _ _)) by done.
  unfold bind at 1. rewrite Ea. unfold bind at 1. cbn [fst snd].
  rewrite (filter_m_run _ (λ d, pa < desc_hi d)).
  - rewrite Ef. unfold chosen. destruct (optimal _) as [d|]; [|done]. unfold bind. by destruct (expect (meta d) s) as [[at_ s1]|].
  - intros d Hd. unfold bind. rewrite desc_end_run by (revert d Hd; by apply Forall_forall). unfold ret. f_equal. f_equal.
    apply eq_true_iff_eq. rewrite Z.ltb_lt. symmetry. apply bool_decide_eq_true.
Qed.

Lemma wp_map_one lo pa descs active s : mappable → swept map lo descs active → lo ≤ pa → (PAGE_SIZE | pa) → 0 ≤ pa → touched map pa →
  dmapped pa s → wp (map_one root pa descs active) (λ r s', swept map pa r.1 r.2 ∧ dmapped (pa + PAGE_SIZE) s') s.
Proof.
  intros MP Hsw Hle Hpg Hpa Ht Hdm. pose proof (touched_bound _ _ (mp_ok MP) Ht) as Hb. pose proof (aligned_room pa Hpg Hb) as Hb'.
  destruct (map_one_run lo pa descs active s (mp_sorted MP) (mp_ok MP) Hsw Hle) as (rest & Hsw' & E); [unfold VA_WIDTH in *; lia|].
  destruct (proj1 (touched_chosen map pa) Ht) as [d Ed]. rewrite Ed in E. destruct (mp_meta MP pa d Ed) as [at_ Em]. rewrite Em in E.
  destruct (dmap_page pa Hpg (conj Hpa Hb)) as (_ & [Hva _] & Hta & _). eapply wp_ext; [exact E|]. wp_step. eapply wp_expect; [done|]. wp_step.
  pose proof (needed_le root W _ s (mp_plan MP pa Hpg Hpa Ht)) as Hn. pose proof (dm_budget _ _ Hdm) as Hbu.
  eapply wp_mono; [apply (wp_map_page root); [apply Hdm|done|lia|done| |lia]|].
  { change (block_of s root (phys_addr_to_dmap pa) = None). rewrite (dm_block _ _ Hdm) by lia. by apply (mp_block MP). }
  intros [] s' (I' & [e Hc] & Hr & Hx & H3). wp_steps. split; [done|]. by eapply dmapped_page.
Qed.

Lemma wp_map_range n lo pa descs active s : mappable → swept map lo descs active → lo ≤ pa → (PAGE_SIZE | pa) → 0 ≤ pa →
  (∀ p, (PAGE_SIZE | p) → pa ≤ p < pa + Z.of_nat n * PAGE_SIZE → touched map p) → dmapped pa s →
  wp (map_range n root pa descs active) (λ r s', (∃ lo', lo' ≤ pa + Z.of_nat n * PAGE_SIZE ∧ swept map lo' r.1 r.2) ∧
    dmapped (pa + Z.of_nat n * PAGE_SIZE) s') s.
Proof.
  intros MP. revert lo pa descs active s. induction n as [|n IH]; intros lo pa descs active s Hsw Hle Hpg Hpa Ht Hdm; cbn [EarlyMem.map_range].
  { wp_steps. replace (pa + Z.of_nat 0 * PAGE_SIZE) with pa by lia. split; [by exists lo|done]. }
  change PAGE_SIZE with 16384 in *. wp_step. eapply wp_mono; [apply (wp_map_one lo); try done; apply Ht; [done|lia]|].
  intros [descs' act'] s' [Hsw' Hdm']. change PAGE_SIZE with 16384 in *. cbn [fst snd] in *.
  replace (pa + Z.of_nat (Datatypes.S n) * 16384) with (pa + 16384 + Z.of_nat n * 16384) by lia.
  apply (IH pa); [done|lia|by apply Z.divide_add_r|lia| |done]. intros p Hp Hb. apply Ht; [done|lia].
Qed.

Lemma wp_map_ranges rs : ∀ lo lo' descs active s, mappable → Forall range_ok rs → separated rs → (∀ r, head rs = Some r → lo ≤ r.1) →
  (PAGE_SIZE | lo) → 0 ≤ lo ≤ 2 ^ VA_WIDTH → (∀ p, (PAGE_SIZE | p) → lo ≤ p → touched map p ↔ covers rs p) →
  lo' ≤ lo → swept map lo' descs active → dmapped lo s →
  wp (map_ranges root rs descs active) (λ _ s', dmapped (2 ^ VA_WIDTH) s') s.
Proof.
  induction rs as [|[a b] rs IH]; intros lo lo' descs active s MP Hok Hsep Hh Hlo H0 Hcov Hle Hsw Hdm; cbn [EarlyMem.map_ranges].
  { wp_steps. eapply dmapped_skip; [done|done|by exists (2 ^ 34)|lia|]. intros p Hp Hb Ht. apply Hcov in Ht; [|done|lia]. by apply Exists_nil in Ht. }
  apply StronglySorted_inv in Hsep as [Hsep Hsf]. inversion Hok as [|?? Hab Hok']; subst. destruct Hab as [A1 A2 A3 A4]. cbn [fst snd] in *.
  pose proof (Hh _ eq_refl) as Hla. cbn [fst] in Hla.
  assert (dmapped a s) as Hda.
  { eapply dmapped_skip; [done|done|done|done|]. intros p Hp Hb Ht. apply Hcov in Ht; [|done|lia]. unfold covers in Ht. rewrite Exists_cons in Ht. cbn [fst snd] in Ht.
    destruct Ht as [Ht|(r & Hr & Ht)%Exists_exists]; [lia|]. eapply Forall_forall in Hsf; [|done]. simpl in Hsf. lia. }
  assert (a + Z.of_nat (Z.to_nat ((b - a + PAGE_SIZE - 1) / PAGE_SIZE)) * PAGE_SIZE = b) as Eb.
  { destruct A1 as [k ->], A2 as [k' ->]. change PAGE_SIZE with 16384 in *. rewrite Z2Nat.id by (Z.div_mod_to_equations; lia). Z.div_mod_to_equations. lia. }
  wp_step. eapply wp_mono; [apply (wp_map_range _ lo'); try done; [lia|lia|]|].
  { rewrite Eb. intros p Hp Hb. apply Hcov; [done|lia|]. by apply Exists_cons_hd. }
  intros [descs' act'] s' [(lo'' & Hlo'' & Hsw') Hdm']. rewrite Eb in *. cbn [fst snd] in *. apply (IH b lo''); try done; [|lia|].
  - intros r Hr. destruct rs as [|r' rs]; [done|]. injection Hr as ->. apply Forall_cons in Hsf as [Hsf _]. simpl in Hsf. lia.
  - intros p Hp Hb. rewrite Hcov by (done || lia). unfold covers. rewrite Exists_cons. cbn [fst snd]. split; [intros [?|?]; [lia|done]|auto].
Qed.

Lemma wp_map_all_dmap : mappable → pt_inv root s0 → (size (lacking root W s0) ≤ room (alloc_state s0))%nat →
  wp (map_all_dmap root map) (λ _ s', dmapped (2 ^ VA_WIDTH) s') s0.
Proof.
  intros MP I Hbu. unfold EarlyMem.map_all_dmap. destruct (dmap_ranges map (mp_ok MP)) as (Hok & Hsep & Hcov).
  wp_step. unfold wp at 1. rewrite page_ranges_run by apply MP. apply (wp_map_ranges _ 0 0); try done.
  - intros r Hr. destruct (merge_ranges _ _) as [|r' rs]; [done|]. injection Hr as ->. apply Forall_cons in Hok as [[_ _ ? _] _]. lia.
  - by exists 0.
  - intros p Hp _. symmetry. by apply Hcov.
  - by exists [].
  - split; [done|done| |lia|done]. intros va Hva. rewrite decide_False; [done|]. intros [H _]. unfold canon in H. pose proof (Z.mod_pos_bound va (2 ^ VA_WIDTH) ltac:(done)). lia.
Qed.
End mapping.
