(* ===== verification/EarlyMmap.v ===== *)
(** * The processed memory map

    [clone_and_process_mmap] of [kernel/src/earlyinit/mem.rs] makes two
    passes over the UEFI memory map.  Both agree with a pure function that
    retypes and coalesces the entries; the first pass counts its result, the
    second one writes it into the first usable region, without the pages that
    the map itself takes. *)

From stdpp Require Import sorting.
From S2P Require Import Prelude Vm PageAlloc Mapper EarlyMem EarlyDmap.

(** ** The reference *)

(** The entries that end up as free memory, before and after retyping. *)
Definition usable (d : MemoryDescriptor) : bool := is_normal_desc d && negb (ty d =? BOOT_SERVICES_DATA).
Definition conv (d : MemoryDescriptor) : Prop := ty d = CONVENTIONAL ∧ att_contains (att d) RUNTIME = false.
#[global] Instance conv_dec d : Decision (conv d).
Proof. unfold conv. apply _. Defined.

Definition joins (a b : MemoryDescriptor) : bool := (desc_hi a =? phys_start b) && ((ty a =? ty b) && (att a =? att b)).
Definition join (a b : MemoryDescriptor) : MemoryDescriptor := set_pages (page_count a + page_count b) a.

Fixpoint coalesce (last : MemoryDescriptor) (l : list MemoryDescriptor) : list MemoryDescriptor :=
  match l with
  | [] => [last]
  | d :: l' => if joins last d then coalesce (join last d) l' else last :: coalesce d l'
  end.
Definition coalesced (l : list MemoryDescriptor) : list MemoryDescriptor := match l with [] => [] | d :: l' => coalesce d l' end.

(** The map that the two passes compute, and the region that holds it. *)
Definition entries_of (map : list MemoryDescriptor) : list MemoryDescriptor := retype <$> without_loader_code map.
Definition first_usable (map : list MemoryDescriptor) : option MemoryDescriptor := snd <$> list_find conv (coalesced (entries_of map)).

(** Entries in order, without overlap, none empty. *)
Definition disjoint_map : list MemoryDescriptor → Prop := StronglySorted (λ a b, desc_hi a ≤ phys_start b).
Definition filled (d : MemoryDescriptor) : Prop := desc_ok d ∧ 0 < page_count d.

(** The byte at [x] has the type and attributes [k]. *)
Definition describes (x : Z) (k : Z * Z) (d : MemoryDescriptor) : Prop := phys_start d ≤ x < desc_hi d ∧ (ty d, att d) = k.
Definition described (l : list MemoryDescriptor) (x : Z) (k : Z * Z) : Prop := Exists (describes x k) l.

(** What [punch] leaves of an entry. *)
Definition punched (dest_pa map_pages : Z) (d : MemoryDescriptor) : option MemoryDescriptor :=
  if decide (phys_start d ≤ dest_pa < desc_hi d) then
    let n := (dest_pa - phys_start d) / UEFI_PS + map_pages in
    if n <? page_count d then
      Some {| ty := ty d; phys_start := phys_start d + n * UEFI_PS; virt_start := virt_start d; page_count := page_count d - n; att := att d |}
    else None
  else Some d.
Definition with_virt (d : MemoryDescriptor) : MemoryDescriptor :=
  {| ty := ty d; phys_start := phys_start d; virt_start := phys_addr_to_dmap (phys_start d); page_count := page_count d; att := att d |}.

(** ** Retyping and coalescing *)

Lemma usable_conv d : usable d = bool_decide (conv (retype d)).
Proof.
  unfold retype. change (is_normal_desc d && negb (ty d =? BOOT_SERVICES_DATA)) with (usable d). unfold usable, is_normal_desc, conv.
  destruct (att_contains (att d) RUNTIME) eqn:Er; simpl.
  { rewrite bool_decide_eq_false_2; [done|]. rewrite Er. by intros [_ ?]. }
  case_bool_decide as Ht; simpl.
  - destruct (Z.eqb_spec (ty d) BOOT_SERVICES_DATA) as [E|E]; simpl; rewrite ?Er; case_bool_decide as Hc; try done.
    + destruct Hc as [Hc _]. by rewrite E in Hc.
    + by destruct Hc.
  - rewrite bool_decide_eq_false_2; [done|]. intros [E _]. apply Ht. rewrite E. set_solver.
Qed.

Lemma join_hi a b : desc_hi a = phys_start b → desc_hi (join a b) = desc_hi b.
Proof. unfold desc_hi, join, set_pages. simpl. unfold UEFI_PS. lia. Qed.

Lemma joins_true a b : joins a b = true ↔ desc_hi a = phys_start b ∧ ty a = ty b ∧ att a = att b.
Proof. unfold joins. rewrite !andb_true_iff, !Z.eqb_eq. tauto. Qed.

Lemma join_filled a b : joins a b = true → filled a → filled b → filled (join a b).
Proof.
  intros (E & _)%joins_true [(H1 & H2 & H3) H4] [(H5 & H6 & H7) H8]. unfold filled, desc_ok. rewrite join_hi by done.
  unfold join, set_pages. simpl. lia.
Qed.

Lemma coalesce_filled l last : filled last → Forall filled l → Forall filled (coalesce last l).
Proof.
  intros Hl Hf. revert last Hl. induction Hf as [|d l Hd Hf IH]; intros last Hl; cbn [coalesce]; [by constructor|].
  destruct (joins last d) eqn:E; [by apply IH, join_filled|]. constructor; auto.
Qed.

Lemma coalesce_nonempty l last : ∃ y t, coalesce last l = y :: t.
Proof. revert last. induction l as [|d l IH]; intros last; cbn [coalesce]; [by eexists _, _|]. case_match; [apply IH|by eexists _, _]. Qed.

Lemma coalesce_starts l last x : Forall (λ b, x ≤ phys_start b) (last :: l) → Forall (λ b, x ≤ phys_start b) (coalesce last l).
Proof.
  revert last. induction l as [|d l IH]; intros last Hf; [done|]. cbn [coalesce]. inversion Hf as [|?? Hl Hf']; subst. inversion Hf' as [|?? Hd Hf'']; subst.
  destruct (joins last d); [apply IH; by constructor|]. constructor; [done|]. by apply IH.
Qed.

Lemma coalesce_disjoint l last : disjoint_map (last :: l) → Forall filled (last :: l) → disjoint_map (coalesce last l).
Proof.
  revert last. induction l as [|d l IH]; intros last Hd Hok; [done|]. cbn [coalesce].
  apply StronglySorted_inv in Hd as [Hd Hl]. apply Forall_cons in Hok as [Hlo Hok]. pose proof Hok as [Hdo Hok']%Forall_cons.
  destruct (joins last d) eqn:E.
  - apply IH; [|constructor; [by apply join_filled|done]]. apply joins_true in E as (E & _). apply StronglySorted_inv in Hd as [Hd Hdl].
    constructor; [done|]. rewrite join_hi by done. done.
  - constructor; [by apply IH|]. by apply coalesce_starts.
Qed.

Lemma coalesce_described l last x k : Forall filled (last :: l) → described (coalesce last l) x k ↔ described (last :: l) x k.
Proof.
  unfold described. revert last. induction l as [|d l IH]; intros last Hok; [done|]. cbn [coalesce]. apply Forall_cons in Hok as [Hlo [Hdo Hok]%Forall_cons].
  destruct (joins last d) eqn:E.
  - rewrite IH by (constructor; [by apply join_filled|done]). rewrite !Exists_cons. pose proof E as (E1 & E2 & E3)%joins_true. destruct Hlo as [_ Hlo], Hdo as [_ Hdo].
    assert (describes x k (join last d) ↔ describes x k last ∨ describes x k d) as ->; [|tauto]. unfold describes. rewrite join_hi by done.
    cbn [join set_pages phys_start ty att]. rewrite E2, E3. assert (phys_start last ≤ desc_hi last ∧ phys_start d ≤ desc_hi d) by (unfold desc_hi, UEFI_PS; lia).
    split; [intros [? ?]; destruct (decide (x < desc_hi last)); [left|right]; (split; [lia|done])|intros [[? ?]|[? ?]]; (split; [lia|done])].
  - rewrite Exists_cons, IH by by constructor. by rewrite !Exists_cons.
Qed.

(** The first free region after coalescing begins where the first free entry
    began. *)
Definition first_start (l : list MemoryDescriptor) : option Z := (λ r, phys_start r.2) <$> list_find conv l.

Lemma first_start_cons d l : first_start (d :: l) = if decide (conv d) then Some (phys_start d) else first_start l.
Proof. unfold first_start. cbn [list_find]. case_decide; [done|]. by destruct (list_find conv l) as [[i x]|]. Qed.

Lemma coalesce_first l last : first_start (coalesce last l) = first_start (last :: l).
Proof.
  revert last. induction l as [|d l IH]; intros last; [done|]. cbn [coalesce]. destruct (joins last d) eqn:E.
  - apply joins_true in E as (_ & E2 & E3). assert (conv d ↔ conv last) as Hc by (unfold conv; by rewrite E2, E3).
    rewrite IH, !first_start_cons. change (conv (join last d)) with (conv last). repeat case_decide; (done || tauto).
  - by rewrite first_start_cons, IH, (first_start_cons last).
Qed.

(** ** The passes *)

Lemma retype_filled d : filled d → filled (retype d).
Proof. unfold retype. by destruct (is_normal_desc d && _). Qed.

Lemma can_merge_run {S} a b (s : S) : filled a → can_merge a b s = Done (joins a b, s).
Proof.
  intros [Ha _]. unfold can_merge, bind. rewrite desc_end_run by done. unfold joins. by destruct (desc_hi a =? phys_start b).
Qed.

Lemma filled_pages d : filled d → 0 < page_count d ≤ 2 ^ 36.
Proof. intros [(H1 & H2 & H3) H4]. unfold desc_hi, UEFI_PS, VA_WIDTH in H3. lia. Qed.

Lemma join_pages {S} a b (s : S) : filled a → filled b → expect (checked_add 64 (page_count a) (page_count b)) s = Done (page_count a + page_count b, s).
Proof.
  intros Ha%filled_pages Hb%filled_pages. unfold expect, checked_add. by rewrite (proj2 (Z.ltb_lt _ _)) by lia.
Qed.

(** The start of the first usable entry, if none was seen before. *)
Definition first_from (f : option Z) (l : list MemoryDescriptor) : option Z :=
  match f with Some a => Some a | None => first_start l end.

Lemma first_from_cons f d l :
  first_from (if usable d then match f with Some a => Some a | None => Some (phys_start (retype d)) end else f) l = first_from f (retype d :: l).
Proof.
  rewrite usable_conv. unfold first_from. rewrite first_start_cons. case_bool_decide; destruct f as [a|]; try done; by case_decide.
Qed.

Lemma pass1_run {S} l : ∀ last c f (s : S), Forall filled (last :: l) →
  pass1 l {| final_count := c; first_normal_start := f; last_processed := Some last |} s =
  Done ({| final_count := c + Z.of_nat (length (coalesce last (retype <$> l))) - 1; first_normal_start := first_from f (retype <$> l);
           last_processed := list.last (coalesce last (retype <$> l)) |}, s).
Proof.
  induction l as [|d l IH]; intros last c f s Hok; apply Forall_cons in Hok as [Hl Hok].
  { cbn [pass1 fmap list_fmap coalesce length list.last]. unfold ret, first_from. replace (c + Z.of_nat 1 - 1) with c by lia. by destruct f. }
  apply Forall_cons in Hok as [Hd Hok]. pose proof (retype_filled d Hd) as Hr. cbn [pass1 final_count first_normal_start last_processed].
  fold (usable d). unfold bind at 1. rewrite can_merge_run by done. rewrite !fmap_cons. cbn [coalesce]. rewrite <- first_from_cons.
  destruct (joins last (retype d)) eqn:E.
  - unfold bind at 1. rewrite join_pages by done. fold (join last (retype d)). by rewrite IH by (constructor; [by apply join_filled|done]).
  - rewrite IH by (by constructor). cbn [length]. destruct (coalesce_nonempty (retype <$> l) (retype d)) as (y & t & ->).
    do 3 f_equal. cbn [length]. lia.
Qed.

(** The writes for a list of entries, from the slot [i] on. *)
Fixpoint placed (dest_pa desc_size i : Z) (l : list MemoryDescriptor) : Writes :=
  match l with
  | [] => []
  | d :: l' => (dest_pa + i * desc_size, with_virt d) :: placed dest_pa desc_size (i + 1) l'
  end.

Lemma placed_app dest ds i l1 l2 : placed dest ds i (l1 ++ l2) = placed dest ds i l1 ++ placed dest ds (i + Z.of_nat (length l1)) l2.
Proof. revert i. induction l1 as [|d l1 IH]; intros i; cbn [app placed length]; [by rewrite Z.add_0_r|]. rewrite IH. do 3 f_equal. lia. Qed.

Lemma length_placed dest ds i l : length (placed dest ds i l) = length l.
Proof. revert i. induction l as [|d l IH]; intros i; [done|]. cbn [placed length]. by rewrite IH. Qed.

Lemma placed_lookup dest ds l : ∀ i k a d, placed dest ds i l !! k = Some (a, d) → a = dest + (i + Z.of_nat k) * ds ∧ ∃ e, l !! k = Some e ∧ d = with_virt e.
Proof.
  induction l as [|x l IH]; intros i [|k] a d Hk; try done; cbn [placed] in Hk.
  - injection Hk as <- <-. split; [lia|]. by exists x.
  - destruct (IH (i + 1) k a d Hk) as [-> He]. split; [lia|done].
Qed.

Lemma placed_entries dest ds i l : (placed dest ds i l).*2 = with_virt <$> l.
Proof. revert i. induction l as [|d l IH]; intros i; [done|]. cbn [placed]. rewrite !fmap_cons. by rewrite IH. Qed.

Definition slot (o : option MemoryDescriptor) : list MemoryDescriptor := match o with Some d => [d] | None => [] end.

Lemma punch_run dest mp ds d (w : Writes) : filled d → 0 ≤ ds → (Z.of_nat (length w) + 1) * ds < 2 ^ 64 →
  punch dest mp ds d w = Done (tt, w ++ placed dest ds (Z.of_nat (length w)) (slot (punched dest mp d))).
Proof.
  intros [Hd _] Hds Hb. unfold punch, punched, bind at 1.
  assert (∀ e, (let* w := get in let* o := expect (checked_mul 64 (Z.of_nat (length w)) ds) in modify (λ w, w ++ [(dest + o, e)])) w =
    Done (tt, w ++ [(dest + Z.of_nat (length w) * ds, e)])) as Hw.
  { intros e. unfold bind, get, expect, checked_mul, modify. by rewrite (proj2 (Z.ltb_lt _ _)) by nia. }
  destruct (Z.leb_spec (phys_start d) dest).
  - unfold bind at 1. rewrite desc_end_run by done. unfold ret. destruct (Z.ltb_spec dest (desc_hi d)).
    + rewrite decide_True by done. cbv zeta. destruct (_ <? page_count d); [apply Hw|]. by rewrite app_nil_r.
    + rewrite decide_False by lia. apply Hw.
  - unfold ret. rewrite decide_False by lia. apply Hw.
Qed.

Lemma omap_slot (f : MemoryDescriptor → option MemoryDescriptor) d l : omap f (d :: l) = slot (f d) ++ omap f l.
Proof. cbn [omap list_omap]. by destruct (f d). Qed.

Lemma slot_length o : (length (slot o) ≤ 1)%nat.
Proof. destruct o; simpl; lia. Qed.

Lemma omap_length_le (f : MemoryDescriptor → option MemoryDescriptor) l : (length (omap f l) ≤ length l)%nat.
Proof. induction l as [|d l IH]; [done|]. rewrite omap_slot, length_app. pose proof (slot_length (f d)). cbn [length]. lia. Qed.

Lemma pass2_run dest mp ds l : 0 ≤ ds → ∀ last (w : Writes), Forall filled (last :: l) →
  (Z.of_nat (length w) + Z.of_nat (length (coalesce last (retype <$> l)))) * ds < 2 ^ 64 →
  pass2 dest mp ds l (Some last) w = Done (tt, w ++ placed dest ds (Z.of_nat (length w)) (omap (punched dest mp) (coalesce last (retype <$> l)))).
Proof.
  intros Hds. induction l as [|d l IH]; intros last w Hok Hb; apply Forall_cons in Hok as [Hl Hok].
  { cbn [pass2 fmap list_fmap coalesce]. rewrite punch_run by (done || exact Hb). by rewrite omap_slot, app_nil_r. }
  apply Forall_cons in Hok as [Hd Hok]. pose proof (retype_filled d Hd) as Hr. cbn [pass2]. rewrite fmap_cons in *. cbn [coalesce] in *.
  unfold bind at 1. rewrite can_merge_run by done. destruct (joins last (retype d)) eqn:E.
  - unfold bind at 1. rewrite join_pages by done. fold (join last (retype d)). apply IH; [|exact Hb]. constructor; [by apply join_filled|done].
  - unfold bind at 1. cbn [length] in Hb. rewrite punch_run by (done || nia). pose proof (slot_length (punched dest mp last)) as Hs.
    rewrite IH; [|by constructor|rewrite length_app, length_placed; nia]. rewrite omap_slot, placed_app, length_app, length_placed, <- app_assoc. do 4 f_equal. f_equal. lia.
Qed.

(** ** The whole function *)

Definition map_pages_of (desc_size : Z) (map : list MemoryDescriptor) : Z :=
  (Z.of_nat (length (coalesced (entries_of map))) * desc_size + UEFI_PS - 1) / UEFI_PS.

(** A memory map that the firmware can give: entries in order and without
    overlap, and a descriptor size for which the size of the map does not
    overflow. *)
Record mmap_ok (desc_size : Z) (map : list MemoryDescriptor) : Prop := {
  mo_filled : Forall filled map;
  mo_disjoint : disjoint_map map;
  mo_size : 0 < desc_size;
  mo_bound : Z.of_nat (length (coalesced (entries_of map))) * desc_size + UEFI_PS < 2 ^ 64
}.

Lemma sorted_filter {X} (R : X → X → Prop) (P : X → Prop) `{!∀ x, Decision (P x)} l : StronglySorted R l → StronglySorted R (filter P l).
Proof.
  induction 1 as [|x l Hl IH Hf]; [constructor|]. rewrite filter_cons. case_decide; [|done]. constructor; [done|].
  apply Forall_forall. intros y [_ Hy]%list_elem_of_filter. revert y Hy. by apply Forall_forall.
Qed.

Lemma retype_bounds d : phys_start (retype d) = phys_start d ∧ desc_hi (retype d) = desc_hi d.
Proof. unfold retype. by destruct (_ && _). Qed.

Lemma sorted_retype l : disjoint_map l → disjoint_map (retype <$> l).
Proof.
  induction 1 as [|x l Hl IH Hf]; [constructor|]. rewrite fmap_cons. constructor; [done|]. rewrite Forall_fmap. eapply Forall_impl; [exact Hf|].
  intros y Hy. simpl in *. destruct (retype_bounds x) as [_ ->], (retype_bounds y) as [-> _]. done.
Qed.

Lemma entries_ok ds map : mmap_ok ds map → Forall filled (entries_of map) ∧ disjoint_map (entries_of map).
Proof.
  intros M. split.
  - unfold entries_of. rewrite Forall_fmap. apply Forall_forall. intros d [_ Hd]%list_elem_of_filter. apply retype_filled.
    revert d Hd. apply Forall_forall, M.
  - apply sorted_retype, sorted_filter, M.
Qed.

Lemma coalesced_ok ds map : mmap_ok ds map → Forall filled (coalesced (entries_of map)) ∧ disjoint_map (coalesced (entries_of map)) ∧
  ∀ x k, described (coalesced (entries_of map)) x k ↔ described (entries_of map) x k.
Proof.
  intros M. destruct (entries_ok ds map M) as [Hf Hd]. unfold coalesced. destruct (entries_of map) as [|d l]; [done|].
  split_and!; [apply Forall_cons in Hf as [??]; by apply coalesce_filled|by apply coalesce_disjoint|]. intros x k. by apply coalesce_described.
Qed.

Lemma align_uefi x : 0 ≤ x → x + UEFI_PS < 2 ^ 64 → align_up x UEFI_PS = Some (UEFI_PS * ((x + UEFI_PS - 1) / UEFI_PS)).
Proof. intros H0 H1. change UEFI_PS with (2 ^ 12) in *. rewrite align_up_eq by lia. by rewrite (proj2 (Z.ltb_lt _ _)) by lia. Qed.

(** Both passes of a map that is not empty. *)
Lemma pass1_whole {S} d l (s : S) : Forall filled (d :: l) →
  pass1 (d :: l) {| final_count := 0; first_normal_start := None; last_processed := None |} s =
  Done ({| final_count := Z.of_nat (length (coalesce (retype d) (retype <$> l))) - 1; first_normal_start := first_start (retype d :: (retype <$> l));
           last_processed := list.last (coalesce (retype d) (retype <$> l)) |}, s).
Proof.
  intros [Hd Hl]%Forall_cons. cbn [pass1 final_count first_normal_start last_processed]. fold (usable d).
  rewrite pass1_run by (constructor; [by apply retype_filled|done]). pose proof (first_from_cons None d (retype <$> l)) as Ef. cbn [first_from] in Ef. rewrite Ef. done.
Qed.

Lemma clone_run ds map m : mmap_ok ds map → first_usable map = Some m → ∃ w,
  w = placed (phys_start m) ds 0 (omap (punched (phys_start m) (map_pages_of ds map)) (coalesced (entries_of map))) ∧
  clone_and_process_mmap ds map [] = Done ((phys_start m, Z.of_nat (length w) * ds), w).
Proof.
  intros M Hm. eexists. split; [reflexivity|]. pose proof (mo_bound _ _ M) as Hb. pose proof (mo_size _ _ M) as Hds.
  assert (Forall filled (without_loader_code map)) as Hw.
  { apply Forall_forall. intros d [_ Hd]%list_elem_of_filter. revert d Hd. apply Forall_forall, M. }
  assert (first_start (coalesced (entries_of map)) = Some (phys_start m)) as Hst.
  { unfold first_usable in Hm. unfold first_start. by destruct (list_find _ _) as [[j m']|]; simplify_eq/=. }
  unfold clone_and_process_mmap, map_pages_of, entries_of in *. destruct (without_loader_code map) as [|d l]; [done|].
  unfold bind at 1. rewrite pass1_whole by done. rewrite fmap_cons in *. cbn [coalesced] in *. rewrite coalesce_first in Hst.
  set (R := coalesce (retype d) (retype <$> l)) in *. cbn [final_count first_normal_start last_processed]. rewrite Hst.
  destruct (coalesce_nonempty (retype <$> l) (retype d)) as (y & t & ER). fold R in ER.
  assert (is_Some (list.last R)) as [z ->] by (rewrite ER; by apply last_is_Some).
  replace (Z.of_nat (length R) - 1 + 1) with (Z.of_nat (length R)) by lia. unfold bind at 1, expect at 1. unfold UEFI_PS in *.
  unfold bind at 1, expect at 1, checked_mul at 1. rewrite (proj2 (Z.ltb_lt _ _)) by lia. unfold bind at 1, expect at 1.
  rewrite align_uefi by (unfold UEFI_PS; lia). unfold bind at 1. unfold UEFI_PS. rewrite Z.mul_comm, Z.div_mul by done.
  cbn [pass2]. apply Forall_cons in Hw as [Hd Hl]. rewrite pass2_run; [|lia|constructor; [by apply retype_filled|done]|fold R; cbn [length]; lia].
  fold R. unfold bind, get, expect, checked_mul, ret. rewrite app_nil_l. rewrite (proj2 (Z.ltb_lt _ _)); [done|].
  rewrite length_placed. assert (length (omap (punched (phys_start m) ((Z.of_nat (length R) * ds + 4096 - 1) / 4096)) R) ≤ length R)%nat by apply omap_length_le. nia.
Qed.

(** Only the first usable region changes. *)
Lemma punched_map ds map m mp : mmap_ok ds map → first_usable map = Some m → 0 ≤ mp → ∃ pre post,
  coalesced (entries_of map) = pre ++ m :: post ∧ filled m ∧
  omap (punched (phys_start m) mp) (coalesced (entries_of map)) = pre ++ slot (punched (phys_start m) mp m) ++ post ∧
  Forall (λ d, desc_hi d ≤ phys_start m) pre ∧ Forall (λ d, desc_hi m ≤ phys_start d) post ∧ disjoint_map (pre ++ m :: post).
Proof.
  intros M Hm Hmp. destruct (coalesced_ok ds map M) as (Hf & Hd & _). unfold first_usable in Hm.
  destruct (list_find conv _) as [[i m']|] eqn:E; simplify_eq/=. apply list_find_Some in E as (Hi & _ & _).
  apply list_elem_of_split_length in Hi as (pre & post & El & _). exists pre, post. rewrite El in *.
  apply Forall_app in Hf as [Hf1 [Hfm Hf2]%Forall_cons]. apply StronglySorted_app in Hd as Hd'. destruct Hd' as (Hpre & _ & [_ Hpost]%StronglySorted_inv).
  assert (Forall (λ d, desc_hi d ≤ phys_start m) pre) as Hlo by (apply Forall_forall; intros d Hin; apply Hpre; [done|left]).
  assert (∀ l, Forall (λ d, punched (phys_start m) mp d = Some d) l → omap (punched (phys_start m) mp) l = l) as Hid.
  { induction 1 as [|d l Ed _ IH]; [done|]. rewrite omap_slot, Ed, IH. done. }
  split_and!; try done. rewrite omap_app, omap_slot. f_equal; [|f_equal]; apply Hid.
  - eapply Forall_impl; [exact Hlo|]. intros d Hle. simpl in Hle. unfold punched. rewrite decide_False by lia. done.
  - eapply Forall_impl; [exact Hpost|]. intros d Hle. simpl in Hle. unfold punched. rewrite decide_False; [done|].
    apply filled_pages in Hfm. unfold desc_hi, UEFI_PS in Hle. lia.
Qed.

Lemma described_virt l x k : described (with_virt <$> l) x k ↔ described l x k.
Proof. unfold described. by rewrite Exists_fmap. Qed.

(** What is left of the region that holds the map. *)
Lemma described_punched m mp x k : filled m → 0 ≤ mp ≤ page_count m →
  described (slot (punched (phys_start m) mp m)) x k ↔ describes x k m ∧ ¬ (phys_start m ≤ x < phys_start m + mp * UEFI_PS).
Proof.
  intros Hm%filled_pages Hmp. unfold punched. rewrite decide_True by (unfold desc_hi, UEFI_PS; lia). rewrite Z.sub_diag, Z.div_0_l, Z.add_0_l by done.
  unfold described. destruct (Z.ltb_spec mp (page_count m)); simpl.
  - rewrite Exists_cons, Exists_nil. unfold describes, desc_hi. simpl. unfold UEFI_PS. intuition lia.
  - rewrite Exists_nil. unfold describes, desc_hi, UEFI_PS. split; [done|]. intros [[? _] ?]. lia.
Qed.

Lemma punched_disjoint pre m post mp : filled m → 0 ≤ mp → disjoint_map (pre ++ m :: post) → disjoint_map (pre ++ slot (punched (phys_start m) mp m) ++ post).
Proof.
  intros Hm%filled_pages Hmp (Hpre & Hp1 & [Hp2 Hpost]%StronglySorted_inv)%StronglySorted_app. unfold punched.
  rewrite decide_True by (unfold desc_hi, UEFI_PS; lia). rewrite Z.sub_diag, Z.div_0_l, Z.add_0_l by done. destruct (mp <? page_count m); simpl.
  - apply StronglySorted_app_2; [|done|].
    + intros a b Ha [->|Hb]%elem_of_cons; [|apply Hpre; [done|by right]]. pose proof (Hpre a m Ha ltac:(left)) as Hle. simpl in *. unfold UEFI_PS. lia.
    + constructor; [done|]. eapply Forall_impl; [exact Hpost|]. intros d Hd. simpl in *. unfold desc_hi, UEFI_PS in *. simpl. lia.
  - apply StronglySorted_app_2; [|done|done]. intros a b Ha Hb. apply Hpre; [done|by right].
Qed.
