(* ===== verification/EarlyPopulate.v ===== *)
(** * Populating the page allocator

    [populate_alloc_stage0] and [populate_alloc_stage1] of
    [kernel/src/earlyinit/mem.rs] hand memory to the page allocator: the
    largest region first, and once the direct map is in use all the normal
    memory that is left.  The regions are the runs of adjacent normal entries;
    what a zone already holds is cut out of them, and each remaining part of
    at least four whole pages becomes a zone. *)

From stdpp Require Import sorting.
From S2P Require Import Prelude Vm Sync PageAlloc PageInv PageProofs PageSpec PageAdd PageDmap PageTheorems EarlyMem EarlyDmap EarlyMmap.

Section populate.
#[local] Existing Instance KernelAddressTranslator.

(** ** Parts of a region *)

Definition zone_end (z : zinfo) : Z := zaddr z (zi_pages z).

(** The zone takes up exactly the range. *)
Definition spans (z : zinfo) (p : Z * Z) : Prop := zi_meta z = p.1 ∧ zone_end z = p.2.

(** The whole pages of a range. *)
Definition whole (p : Z * Z) : Z * Z := ((p.1 + PAGE_SIZE - 1) / PAGE_SIZE * PAGE_SIZE, p.2 / PAGE_SIZE * PAGE_SIZE).
Definition big (p : Z * Z) : Prop := 4 * PAGE_SIZE ≤ p.2 - p.1.
#[global] Instance big_dec p : Decision (big p).
Proof. unfold big. apply _. Defined.

(** The sizes for which the search for the number of metadata pages ends. *)
Definition reservable (p : Z * Z) : Prop := ((p.2 - p.1) / PAGE_SIZE + 31) mod 16385 ≠ 0.

#[global] Instance overlaps_dec z a b : Decision (overlaps z a b).
Proof. unfold overlaps. apply _. Defined.

(** What is left of a range beside the zone that overlaps it. *)
Definition parts (zs : list zinfo) (p : Z * Z) : list (Z * Z) :=
  filter big (whole <$> match list_find (λ z, overlaps z p.1 p.2) zs with
                        | Some (_, z) => [(p.1, zi_meta z); (zone_end z, p.2)]
                        | None => [p]
                        end).

(** The allocator with new zones for the ranges [ps]. *)
Definition grown_by (zs : list zinfo) (bl : gmap Z binfo) (ps : list (Z * Z)) (s' : PageAllocator) : Prop :=
  ∃ new bl', Inv (new ++ zs) bl' s' ∧ is_dmap s' = true ∧ owned bl' = owned bl ∧ Forall2 spans (rev new) ps.

Lemma grown_refl zs bl s : Inv zs bl s → is_dmap s = true → grown_by zs bl [] s.
Proof. intros I Ed. by exists [], bl. Qed.

Lemma whole_bounds p : 0 ≤ p.1 → p.1 ≤ (whole p).1 ∧ (whole p).2 ≤ p.2 ∧ (PAGE_SIZE | (whole p).1) ∧ (PAGE_SIZE | (whole p).2).
Proof.
  intros H0. unfold whole. cbn [fst snd]. change PAGE_SIZE with 16384. split_and!; [Z.div_mod_to_equations; lia|Z.div_mod_to_equations; lia|apply Z.divide_factor_r|apply Z.divide_factor_r].
Qed.

(** ** Adding a part *)

Lemma kernel_dmap p : phys_addr p → p ≠ 0 → is_kernel_address (phys_addr_to_dmap p) = true ∧ emb true p = phys_addr_to_dmap p.
Proof.
  intros Hp H0. split.
  - rewrite is_kernel_address_testbit, phys_addr_to_dmap_add by done. change DMAP_START with ((2 ^ 16 - 1) * 2 ^ 48).
    rewrite Z.testbit_eqb, Z.div_add by done. unfold phys_addr, VA_WIDTH in Hp. rewrite Z.div_small by lia. done.
  - unfold emb, to_dmap. by rewrite (proj2 (Z.eqb_neq _ _)).
Qed.

Lemma wp_add_subrange zs bl s a b : Inv zs bl s → is_dmap s = true → 0 < a ≤ 2 ^ VA_WIDTH - PAGE_SIZE → 0 ≤ b < 2 ^ VA_WIDTH →
  (∀ z, z ∈ zs → b ≤ zi_meta z ∨ zone_end z ≤ a) → (big (whole (a, b)) → reservable (whole (a, b))) →
  wp (add_subrange a b) (λ _ s', grown_by zs bl (filter big [whole (a, b)]) s') s.
Proof.
  intros I Ed Ha Hb Hdis Hres. change PAGE_SIZE with 16384 in Ha. unfold add_subrange. wp_step.
  apply (wp_expect _ (whole (a, b)).1).
  { change PAGE_SIZE with (2 ^ 14). unfold VA_WIDTH in *. rewrite align_up_eq by lia. rewrite (proj2 (Z.ltb_lt _ _)) by lia. f_equal. apply Z.mul_comm. }
  assert (align_down b PAGE_SIZE = (whole (a, b)).2) as ->.
  { change PAGE_SIZE with (2 ^ 14). unfold VA_WIDTH in *. rewrite align_down_eq by lia. apply Z.mul_comm. }
  destruct (whole_bounds (a, b)) as (H1 & H2 & H3 & H4); [simpl; lia|]. cbn [fst snd] in *. destruct (whole (a, b)) as [a' b'] eqn:Ew. cbn [fst snd] in *.
  assert (0 ≤ b') as Hb0 by (unfold whole in Ew; injection Ew as <- <-; change PAGE_SIZE with 16384; Z.div_mod_to_equations; lia).
  assert (a' < 2 ^ VA_WIDTH) as Ha'.
  { unfold whole in Ew. injection Ew as <- _. cbn [fst]. change PAGE_SIZE with 16384 in *. change (2 ^ VA_WIDTH) with 281474976710656 in *. Z.div_mod_to_equations. lia. }
  rewrite filter_cons, filter_nil. assert (phys_addr a' ∧ phys_addr b') as [Hpa Hpb] by (unfold phys_addr; lia).
  destruct (kernel_dmap a' Hpa ltac:(lia)) as [Hk Hem]. rewrite !phys_addr_to_dmap_add by done.
  replace (b' + DMAP_START - (a' + DMAP_START)) with (b' - a') by lia. unfold big in *. cbn [fst snd] in *.
  destruct (Z.ltb_spec (a' + DMAP_START) (b' + DMAP_START)), (Z.leb_spec (4 * PAGE_SIZE) (b' - a')); rewrite ?decide_True, ?decide_False by (change PAGE_SIZE with 16384 in *; lia);
    try (wp_steps; by apply grown_refl); [|change PAGE_SIZE with 16384 in *; lia].
  destruct H3 as [i Ei], H4 as [j Ej]. rewrite <- phys_addr_to_dmap_add by done. rewrite <- Hem in *.
  replace (b' + DMAP_START) with (emb (is_dmap s) a' + (j - i) * PAGE_SIZE) by (rewrite Ed, Hem, phys_addr_to_dmap_add by done; lia).
  rewrite <- Ed in *. eapply wp_mono; [apply (wp_add_range zs bl s a' (j - i) I)|].
  all: rewrite ?Ed in *; try (change PAGE_SIZE with 16384 in *; lia).
  - done.
  - rewrite Hem, phys_addr_to_dmap_add, Ei by done. apply Z.divide_add_r; [apply Z.divide_factor_r|by exists (DMAP_START / PAGE_SIZE)].
  - by exists i.
  - specialize (Hres H0). unfold reservable in Hres. cbn [fst snd] in Hres. rewrite Ei, Ej, <- Z.mul_sub_distr_r, Z.div_mul in Hres by done. done.
  - intros z Hz. destruct (Hdis z Hz) as [?|?]; [left|right; fold (zone_end z); lia]. change PAGE_SIZE with 16384 in *. lia.
  - intros [] s' (r & bl' & I' & Ed' & Eo & Hr & _). exists [new_zinfo a' (j - i) r], bl'. split_and!; [done|by rewrite Ed'|done|]. repeat constructor.
    unfold zone_end, zaddr. simpl. change PAGE_SIZE with 16384 in *. lia.
Qed.

(** ** One region *)

Definition region_fits (zs : list zinfo) (p : Z * Z) : Prop :=
  0 < p.1 < p.2 ∧ p.2 ≤ 2 ^ VA_WIDTH - PAGE_SIZE ∧
  (∀ z z', z ∈ zs → z' ∈ zs → overlaps z p.1 p.2 → overlaps z' p.1 p.2 → z = z') ∧ Forall reservable (parts zs p).

Lemma parts_some zs p z : z ∈ zs → overlaps z p.1 p.2 → (∀ z', z' ∈ zs → overlaps z' p.1 p.2 → z' = z) →
  parts zs p = filter big [whole (p.1, zi_meta z)] ++ filter big [whole (zone_end z, p.2)].
Proof.
  intros Hz Ho Hu. unfold parts. destruct (list_find _ zs) as [[i z']|] eqn:E.
  - apply list_find_Some in E as (Hi & Ho' & _). rewrite (Hu z') by (done || by eapply list_elem_of_lookup_2). by rewrite <- filter_app.
  - apply list_find_None in E. eapply Forall_forall in E; [|done]. done.
Qed.

Lemma parts_none zs p : (∀ z, z ∈ zs → ¬ overlaps z p.1 p.2) → parts zs p = filter big [whole p].
Proof.
  intros Hn. unfold parts. destruct (list_find _ zs) as [[i z']|] eqn:E; [|done]. apply list_find_Some in E as (Hi & Ho' & _).
  exfalso. by apply (Hn z'); [by eapply list_elem_of_lookup_2|].
Qed.

Lemma small_part a b : b ≤ a → filter big [whole (a, b)] = [].
Proof.
  intros Hle. rewrite filter_cons, filter_nil, decide_False; [done|]. unfold big, whole. cbn [fst snd]. change PAGE_SIZE with 16384. Z.div_mod_to_equations. lia.
Qed.

Lemma big_part a b (P : Z * Z → Prop) : Forall P (filter big [whole (a, b)]) → big (whole (a, b)) → P (whole (a, b)).
Proof. intros Hf Hb. rewrite filter_cons, decide_True in Hf by done. by apply Forall_cons in Hf as [? _]. Qed.

(** A part, skipped when it is empty. *)
Lemma wp_part zs bl s a b : Inv zs bl s → is_dmap s = true → 0 < a ≤ 2 ^ VA_WIDTH - PAGE_SIZE → 0 ≤ b < 2 ^ VA_WIDTH →
  (a < b → ∀ z, z ∈ zs → b ≤ zi_meta z ∨ zone_end z ≤ a) → Forall reservable (filter big [whole (a, b)]) →
  wp (if a <? b then add_subrange a b else ret tt) (λ _ s', grown_by zs bl (filter big [whole (a, b)]) s') s.
Proof.
  intros I Ed Ha Hb Hd Hr. destruct (Z.ltb_spec a b).
  - apply wp_add_subrange; try done; [auto|]. by apply big_part.
  - rewrite small_part by done. wp_steps. by apply grown_refl.
Qed.

Lemma grown_app zs bl new bl' ps ps' s' : owned bl' = owned bl → Forall2 spans (rev new) ps → grown_by (new ++ zs) bl' ps' s' → grown_by zs bl (ps ++ ps') s'.
Proof.
  intros Eo Hs (new2 & bl2 & I2 & Ed2 & Eo2 & Hs2). exists (new2 ++ new), bl2. rewrite <- app_assoc.
  split_and!; [done|done|congruence|]. rewrite rev_app_distr. by apply Forall2_app.
Qed.

(** New zones lie in the ranges they were made for. *)
Lemma spans_inside new ps z : Forall2 spans (rev new) ps → z ∈ new → ∃ p, p ∈ ps ∧ spans z p.
Proof.
  intros Hf Hz. rewrite (Permutation_rev new) in Hz. apply list_elem_of_lookup in Hz as [i Hi].
  destruct (Forall2_lookup_l _ _ _ _ _ Hf Hi) as (p & Hp & Hs). exists p. split; [by eapply list_elem_of_lookup_2|done].
Qed.

Lemma part_inside a b p : 0 ≤ a → p ∈ filter big [whole (a, b)] → a ≤ p.1 ∧ p.2 ≤ b ∧ p.1 < p.2.
Proof.
  intros Ha [Hb ->%list_elem_of_singleton]%list_elem_of_filter. destruct (whole_bounds (a, b)) as (H1 & H2 & _); [done|]. unfold big in Hb.
  cbn [fst snd] in *. change PAGE_SIZE with 16384 in *. lia.
Qed.

Lemma zone_room z : zwf z → zi_meta z < zone_end z - PAGE_SIZE ∧ zone_end z ≤ 2 ^ VA_WIDTH - PAGE_SIZE ∧ 0 ≤ zi_meta z.
Proof.
  intros [H1 H2 H3 H4 H5 [k H6]]. unfold zone_end in *. unfold zaddr in *. unfold SIZE_OF_ZONE in *. change PAGE_SIZE with 16384 in *.
  change (2 ^ VA_WIDTH) with (17179869184 * 16384) in *. lia.
Qed.

Lemma wp_flush zs bl s p : Inv zs bl s → is_dmap s = true → region_fits zs p →
  wp (flush p.1 p.2) (λ _ s', grown_by zs bl (parts zs p) s') s.
Proof.
  intros I Ed (Hp & Hb & Hu & Hr). pose proof (i_zones _ _ _ _ (proj1 I)) as ZW. unfold flush. wp_step.
  eapply wp_mono; [apply wp_overlapping_range; [exact I|lia]|]. intros r s1 (I1 & Ed1 & Hover). rewrite Ed in Ed1.
  destruct r as [[a b]|].
  - destruct Hover as (z & Hz & Ho & -> & ->). fold (zone_end z). assert (∀ z', z' ∈ zs → overlaps z' p.1 p.2 → z' = z) as Hone by (intros; by apply (Hu z' z)).
    rewrite (parts_some zs p z) in * by done. apply Forall_app in Hr as [Hr1 Hr2]. pose proof (zs_wf _ ZW z Hz) as Hzw.
    assert (zi_meta z < zone_end z - PAGE_SIZE ∧ zone_end z ≤ 2 ^ VA_WIDTH - PAGE_SIZE ∧ 0 ≤ zi_meta z) as (Hm1 & Hm2 & Hm3) by by apply zone_room.
    destruct Ho as [Ho1 Ho2]. fold (zone_end z) in Ho1.
    assert (∀ z', z' ∈ zs → z' = z ∨ p.2 ≤ zi_meta z' ∨ zone_end z' ≤ p.1) as Hoth.
    { intros z' Hz'. destruct (decide (overlaps z' p.1 p.2)) as [Ho'|Ho']; [left; by apply Hone|right]. unfold overlaps in Ho'. fold (zone_end z') in Ho'. lia. }
    change PAGE_SIZE with 16384 in *. wp_step. eapply wp_mono; [apply (wp_part zs bl s1); try done; [change PAGE_SIZE with 16384; lia|lia|]|].
    { intros _ z' Hz'. destruct (Hoth z' Hz') as [->|[?|?]]; lia. }
    intros [] s2 G2. pose proof G2 as (new & bl' & I2 & Ed2 & Eo2 & Hs2).
    eapply wp_mono; [apply (wp_part (new ++ zs) bl' s2); try done; [change PAGE_SIZE with 16384; lia|change PAGE_SIZE with 16384 in *; lia|]|].
    + intros _ z' [Hn|Hz']%elem_of_app.
      * destruct (spans_inside _ _ _ Hs2 Hn) as (q & Hq & [_ Eq]). apply part_inside in Hq; [|lia]. right. lia.
      * destruct (Hoth z' Hz') as [->|[?|?]]; lia.
    + intros [] s3 G3. by eapply grown_app.
  - rewrite parts_none in * by done. destruct p as [a b]. cbn [fst snd] in *. apply wp_add_subrange; try done; [lia|change PAGE_SIZE with 16384 in *; lia| |by apply big_part].
    intros z Hz. specialize (Hover z Hz). unfold overlaps in Hover. fold (zone_end z) in Hover. lia.
Qed.

(** ** All regions *)

(** The runs of adjacent entries, [current] being the run that is open. *)
Fixpoint runs (current : option (Z * Z)) (l : list MemoryDescriptor) : list (Z * Z) :=
  match l with
  | [] => match current with Some p => [p] | None => [] end
  | d :: l' =>
      match current with
      | Some (a, e) => if e =? phys_start d then runs (Some (a, desc_hi d)) l' else (a, e) :: runs (Some (phys_start d, desc_hi d)) l'
      | None => runs (Some (phys_start d, desc_hi d)) l'
      end
  end.

Definition regions (map : list MemoryDescriptor) : list (Z * Z) := runs None (filter (λ d, is_normal_desc d = true) map).

Fixpoint flush_all (rs : list (Z * Z)) : M PageAllocator unit :=
  match rs with
  | [] => ret tt
  | p :: rs' => flush p.1 p.2 ;; flush_all rs'
  end.

Lemma flush_last p s : flush p.1 p.2 s = flush_all [p] s.
Proof. cbn [flush_all]. unfold bind, ret. by destruct (flush p.1 p.2 s) as [[[] s']|]. Qed.

Lemma stage1_run l : ∀ current s, Forall desc_ok l → stage1_loop l current s = flush_all (runs current l) s.
Proof.
  induction l as [|d l IH]; intros current s Hok; cbn [stage1_loop runs].
  { destruct current as [[a e]|]; [apply (flush_last (a, e))|done]. }
  apply Forall_cons in Hok as [Hd Hok]. unfold bind at 1. rewrite desc_end_run by done. destruct current as [[a e]|]; [|by apply IH].
  destruct (e =? phys_start d); [by apply IH|]. cbn [flush_all fst snd]. unfold bind. destruct (flush a e s) as [[[] s']|]; [|done]. by apply IH.
Qed.

(** The runs are in order, and cover what the entries cover. *)
Lemma runs_spec l : ∀ a e, a < e → Forall filled l → disjoint_map l → Forall (λ d, e ≤ phys_start d) l →
  separated (runs (Some (a, e)) l) ∧ Forall (λ p, p.1 < p.2 ∧ a ≤ p.1) (runs (Some (a, e)) l) ∧
  (∀ x, covers (runs (Some (a, e)) l) x ↔ a ≤ x < e ∨ Exists (λ d, phys_start d ≤ x < desc_hi d) l).
Proof.
  induction l as [|d l IH]; intros a e Hae Hf Hd He; cbn [runs].
  { split_and!; [by repeat constructor|by repeat constructor|]. intros x. unfold covers. rewrite Exists_cons, !Exists_nil. done. }
  apply Forall_cons in Hf as [Hfd Hf]. apply StronglySorted_inv in Hd as [Hd Hdl]. apply Forall_cons in He as [He Hel].
  assert (phys_start d < desc_hi d) as Hlt by (apply filled_pages in Hfd; unfold desc_hi, UEFI_PS; lia).
  destruct (Z.eqb_spec e (phys_start d)) as [->|Hne].
  - destruct (IH a (desc_hi d)) as (H1 & H2 & H3); [lia|done|done|done|]. split_and!; [done|done|]. intros x. rewrite H3, Exists_cons. split; [|intuition lia].
    intros [?|?]; [|by auto]. destruct (decide (x < phys_start d)); [left|right; left]; lia.
  - destruct (IH (phys_start d) (desc_hi d)) as (H1 & H2 & H3); [lia|done|done|done|]. split_and!.
    + constructor; [done|]. eapply Forall_impl; [exact H2|]. intros p [_ Hp]. cbn [snd]. lia.
    + constructor; [simpl; lia|]. eapply Forall_impl; [exact H2|]. intros p Hp. simpl in *. lia.
    + intros x. unfold covers in *. rewrite Exists_cons, H3, Exists_cons. done.
Qed.

Lemma regions_spec map : Forall filled map → disjoint_map map →
  separated (regions map) ∧ Forall (λ p, p.1 < p.2) (regions map) ∧
  ∀ x, covers (regions map) x ↔ ∃ d, d ∈ map ∧ is_normal_desc d = true ∧ phys_start d ≤ x < desc_hi d.
Proof.
  intros Hf Hd. unfold regions. assert (Forall filled (filter (λ d, is_normal_desc d = true) map)) as Hf'.
  { apply Forall_forall. intros d [_ Hin]%list_elem_of_filter. revert d Hin. by apply Forall_forall. }
  pose proof (sorted_filter _ (λ d, is_normal_desc d = true) map Hd) as Hd'.
  assert (∀ x, Exists (λ d, phys_start d ≤ x < desc_hi d) (filter (λ d, is_normal_desc d = true) map) ↔
    ∃ d, d ∈ map ∧ is_normal_desc d = true ∧ phys_start d ≤ x < desc_hi d) as He.
  { intros x. rewrite Exists_exists. setoid_rewrite list_elem_of_filter. naive_solver. }
  destruct (filter _ map) as [|d l]; cbn [runs].
  { split_and!; [constructor|constructor|]. intros x. rewrite <- He. unfold covers. by rewrite !Exists_nil. }
  apply Forall_cons in Hf' as [Hfd Hfl]. apply StronglySorted_inv in Hd' as [Hd' Hdl].
  destruct (runs_spec l (phys_start d) (desc_hi d)) as (H1 & H2 & H3); [|done|done|done|].
  { apply filled_pages in Hfd. unfold desc_hi, UEFI_PS. lia. }
  split_and!; [done|eapply Forall_impl; [exact H2|by intros p [??]]|]. intros x. rewrite H3, <- He, Exists_cons. done.
Qed.

Lemma parts_app new zs p : (∀ z, z ∈ new → ¬ overlaps z p.1 p.2) → parts (new ++ zs) p = parts zs p.
Proof.
  intros Hn. unfold parts. assert (list_find (λ z, overlaps z p.1 p.2) new = None) as E by (apply list_find_None; by apply Forall_forall).
  rewrite (list_find_app_r _ _ _ E). by destruct (list_find _ zs) as [[i z]|].
Qed.

Lemma fits_app new zs p : (∀ z, z ∈ new → ¬ overlaps z p.1 p.2) → region_fits zs p → region_fits (new ++ zs) p.
Proof.
  intros Hn (H1 & H2 & H3 & H4). split; [done|]. split; [done|]. rewrite parts_app by done. split; [|done].
  intros z z' [?|?]%elem_of_app [?|?]%elem_of_app ??; try (exfalso; by eapply Hn); by apply H3.
Qed.

(** A part lies in its region and outside all zones. *)
Lemma parts_inside zs p q : region_fits zs p → q ∈ parts zs p → p.1 ≤ q.1 ∧ q.2 ≤ p.2 ∧ q.1 < q.2 ∧ ∀ z, z ∈ zs → q.2 ≤ zi_meta z ∨ zone_end z ≤ q.1.
Proof.
  intros (Hp & Hb & Hu & _) Hq.
  assert ((∃ z, z ∈ zs ∧ overlaps z p.1 p.2) ∨ ∀ z, z ∈ zs → ¬ overlaps z p.1 p.2) as [(z & Hz & Ho)|Hn].
  { destruct (decide (Exists (λ z, overlaps z p.1 p.2) zs)) as [(z & ?)%Exists_exists|Hn]; [by left; exists z|right].
    intros z Hz Ho. apply Hn, Exists_exists. by exists z. }
  - assert (∀ z', z' ∈ zs → z' = z ∨ p.2 ≤ zi_meta z' ∨ zone_end z' ≤ p.1) as Hoth.
    { intros z' Hz'. destruct (decide (overlaps z' p.1 p.2)) as [Ho'|Ho']; [left; by apply Hu|right]. unfold overlaps in Ho'. fold (zone_end z') in Ho'. lia. }
    rewrite (parts_some zs p z) in Hq; [|done|done|intros; by apply Hu]. destruct Ho as [Ho1 Ho2]. fold (zone_end z) in Ho1.
    apply elem_of_app in Hq as [(H1 & H2 & H3)%part_inside|(H1 & H2 & H3)%part_inside]; [|lia| |lia];
      (split_and!; [lia|lia|lia|]; intros z' Hz'; destruct (Hoth z' Hz') as [->|[?|?]]; lia).
  - rewrite parts_none in Hq by done. destruct p as [a b]. cbn [fst snd] in *. apply part_inside in Hq as (H1 & H2 & H3); [|lia].
    split_and!; [lia|lia|lia|]. intros z Hz. specialize (Hn z Hz). unfold overlaps in Hn. fold (zone_end z) in Hn. lia.
Qed.

Lemma wp_flush_all zs rs : ∀ new bl s, Inv (new ++ zs) bl s → is_dmap s = true → Forall (region_fits zs) rs → separated rs →
  (∀ z r, z ∈ new → r ∈ rs → zone_end z ≤ r.1) → wp (flush_all rs) (λ _ s', grown_by (new ++ zs) bl (rs ≫= parts zs) s') s.
Proof.
  induction rs as [|p rs IH]; intros new bl s I Ed Hf Hs Hn; cbn [flush_all].
  { wp_steps. by apply grown_refl. }
  apply Forall_cons in Hf as [Hp Hf]. apply StronglySorted_inv in Hs as [Hs Hsp].
  assert (∀ z, z ∈ new → ¬ overlaps z p.1 p.2) as Hno.
  { intros z Hz [Ho _]. fold (zone_end z) in Ho. specialize (Hn z p Hz ltac:(left)). lia. }
  wp_step. eapply wp_mono; [apply (wp_flush (new ++ zs) bl s p I Ed), fits_app; done|].
  rewrite parts_app by done. intros [] s1 (new2 & bl2 & I2 & Ed2 & Eo2 & Hs2). rewrite app_assoc in I2.
  eapply wp_mono; [apply (IH (new2 ++ new) bl2); try done|].
  - intros z r [Hz|Hz]%elem_of_app Hr; [|apply Hn; [done|by right]]. destruct (spans_inside _ _ _ Hs2 Hz) as (q & Hq & [_ Eq]).
    apply (parts_inside zs p q Hp) in Hq as (_ & Hq & _). eapply Forall_forall in Hsp; [|exact Hr]. simpl in Hsp. lia.
  - intros [] s2 G. rewrite <- app_assoc in G. rewrite bind_cons. by eapply grown_app.
Qed.

Lemma wp_populate_stage1 map zs bl s : Inv zs bl s → is_dmap s = true → Forall filled map → disjoint_map map → Forall (region_fits zs) (regions map) →
  wp (populate_alloc_stage1 map) (λ _ s', grown_by zs bl (regions map ≫= parts zs) s') s.
Proof.
  intros I Ed Hf Hd Hr. unfold populate_alloc_stage1. destruct (regions_spec map Hf Hd) as (Hs & _ & _).
  eapply wp_ext; [apply stage1_run|].
  { apply Forall_forall. intros d [_ Hin]%list_elem_of_filter. eapply Forall_forall in Hf; [|exact Hin]. apply Hf. }
  apply (wp_flush_all zs _ []); try done. set_solver.
Qed.

(** ** The first stage *)

Lemma max_by_pages_spec l : match max_by_pages l with
  | Some e => e ∈ l ∧ ∀ d, d ∈ l → page_count d ≤ page_count e
  | None => l = [] end.
Proof.
  unfold max_by_pages. assert (∀ l b, match foldl (λ best d, match best with Some b => if page_count b <=? page_count d then Some d else Some b | None => Some d end) (Some b) l with
    | Some e => (e = b ∨ e ∈ l) ∧ page_count b ≤ page_count e ∧ ∀ d, d ∈ l → page_count d ≤ page_count e | None => False end) as Hg.
  { clear l. induction l as [|x l IH]; intros b; cbn [foldl]; [split_and!; [by left|done|set_solver]|].
    destruct (Z.leb_spec (page_count b) (page_count x)); [specialize (IH x)|specialize (IH b)]; destruct (foldl _ _ l) as [e|]; [|done| |done];
      destruct IH as (H1 & H2 & H3); (split_and!; [set_solver|lia|intros d [->|Hd]%elem_of_cons; [lia|by apply H3]]). }
  destruct l as [|x l]; [done|]. cbn [foldl]. specialize (Hg l x). destruct (foldl _ _ l) as [e|]; [|done].
  destruct Hg as (H1 & H2 & H3). split; [set_solver|]. intros d [->|Hd]%elem_of_cons; [done|by apply H3].
Qed.

Definition largest (map : list MemoryDescriptor) : option MemoryDescriptor :=
  max_by_pages (filter (λ d, ty d = CONVENTIONAL ∧ 4 * PAGE_SIZE ≤ page_count d * UEFI_PS) map).

(** The whole pages of a region of four pages are at least two pages. *)
Lemma wp_first_zone a b : 0 ≤ a → 4 * PAGE_SIZE ≤ b - a → b < 2 ^ VA_WIDTH → reservable (whole (a, b)) →
  wp (add_range (whole (a, b)).1 (whole (a, b)).2) (λ _ s', ∃ z bl, Inv [z] bl s' ∧ is_dmap s' = false ∧ owned bl = ∅ ∧ spans z (whole (a, b))) new.
Proof.
  intros Ha Hsz Hb Hres. destruct (whole_bounds (a, b)) as (H1 & H2 & [i Hi] & [j Hj]); [done|].
  assert (2 ≤ j - i) as Hn.
  { unfold whole in Hi, Hj. cbn [fst snd] in *. change PAGE_SIZE with 16384 in *. Z.div_mod_to_equations. lia. }
  unfold reservable in Hres. destruct (whole (a, b)) as [a' b']. cbn [fst snd] in *. rewrite Hi, Hj, <- Z.mul_sub_distr_r, Z.div_mul in Hres by done.
  pose proof (wp_add_range [] ∅ new a' (j - i) new_Inv) as Hw. cbv zeta in Hw. change (emb (is_dmap new) a') with a' in Hw.
  replace b' with (a' + (j - i) * PAGE_SIZE) by lia. eapply wp_mono; [apply Hw|].
  - rewrite is_kernel_address_testbit, Z.testbit_eqb by done. unfold VA_WIDTH in Hb. rewrite Z.div_small by (change PAGE_SIZE with 16384 in *; lia). done.
  - by exists i.
  - by exists i.
  - lia.
  - done.
  - done.
  - change PAGE_SIZE with 16384 in *. lia.
  - clear. intros z Hz. by apply elem_of_nil in Hz.
  - clear Hw. intros [] s' (r & bl & I & Ed & Eo & Hr & _). exists (new_zinfo a' (j - i) r), bl. split_and!; [done|done|by rewrite Eo|].
    split; [done|]. unfold zone_end, zaddr. simpl. change PAGE_SIZE with 16384 in *. lia.
Qed.

Lemma wp_populate_stage0 map : Forall filled map →
  match largest map with
  | None => wp (populate_alloc_stage0 map) (λ _ s', s' = new) new
  | Some e => desc_hi e < 2 ^ VA_WIDTH → reservable (whole (phys_start e, desc_hi e)) →
      wp (populate_alloc_stage0 map) (λ _ s', ∃ z bl, Inv [z] bl s' ∧ is_dmap s' = false ∧ owned bl = ∅ ∧ spans z (whole (phys_start e, desc_hi e))) new
  end.
Proof.
  intros Hf. assert (filter_m (λ x, if negb (ty x =? CONVENTIONAL) then ret false
      else let* n := expect (checked_mul 64 (page_count x) UEFI_PS) in ret (4 * PAGE_SIZE <=? n)) map new =
    Done (filter (λ d, ty d = CONVENTIONAL ∧ 4 * PAGE_SIZE ≤ page_count d * UEFI_PS) map, new)) as E.
  { apply filter_m_run. intros d Hd. eapply Forall_forall in Hf; [|exact Hd]. apply filled_pages in Hf. unfold bind, expect, checked_mul, ret, UEFI_PS.
    destruct (Z.eqb_spec (ty d) CONVENTIONAL); simpl; [|by rewrite bool_decide_eq_false_2 by tauto]. rewrite (proj2 (Z.ltb_lt _ _)) by lia.
    f_equal. f_equal. apply eq_true_iff_eq. rewrite Z.leb_le, bool_decide_eq_true. tauto. }
  pose proof (max_by_pages_spec (filter (λ d, ty d = CONVENTIONAL ∧ 4 * PAGE_SIZE ≤ page_count d * UEFI_PS) map)) as Hm. fold (largest map) in Hm.
  destruct (largest map) as [e|] eqn:El; unfold populate_alloc_stage0; fold (largest map).
  - destruct Hm as [[[_ Hsz] He]%list_elem_of_filter _]. eapply Forall_forall in Hf; [|exact He]. intros Hhi Hres. pose proof Hf as [(H1 & H2 & _) _].
    wp_step. unfold wp at 1. rewrite E. fold (largest map). rewrite El. wp_step. apply (wp_expect _ (whole (phys_start e, desc_hi e)).1).
    { change PAGE_SIZE with (2 ^ 14). assert (phys_start e < 2 ^ 48) by (unfold desc_hi, UEFI_PS, VA_WIDTH in *; lia). rewrite align_up_eq by lia.
      rewrite (proj2 (Z.ltb_lt _ _)) by lia. f_equal. apply Z.mul_comm. }
    wp_step. unfold wp at 1. rewrite desc_end_run by apply Hf.
    assert (align_down (desc_hi e) PAGE_SIZE = (whole (phys_start e, desc_hi e)).2) as ->.
    { change PAGE_SIZE with (2 ^ 14). unfold desc_hi, UEFI_PS, VA_WIDTH in *. rewrite align_down_eq by lia. apply Z.mul_comm. }
    apply wp_first_zone; [done|unfold desc_hi; lia|done|done].
  - wp_step. unfold wp at 1. rewrite E. fold (largest map). rewrite El. by wp_steps.
Qed.
End populate.
