(* ===== verification/EarlyMemTheorems.v ===== *)
(** * Theorems on early memory

    The direct map that [map_all_dmap] builds, the memory map that
    [clone_and_process_mmap] leaves, and the memory that the two population
    stages hand to the page allocator. *)

From stdpp Require Import sorting.
From S2P Require Import Prelude Vm Sync PageAlloc PageInv PageProofs PageSpec PageAdd PageDmap PageTheorems PageCount Slab Mapper MapperSpec MapperProofs MapperTheorems TableAlloc EarlyMem EarlyDmap EarlyMmap EarlyPopulate.

(** ** The direct map *)

Section dmap_tables.
Context {D : TTE} {DL : TTELaws D}.

(** The pages that the entries touch, and the tables on the way to them. *)
Definition touched_pages (map : list MemoryDescriptor) : list Z :=
  map ≫= λ d, (λ k, (range_of d).1 + k * PAGE_SIZE) <$> seqZ 0 (((range_of d).2 - (range_of d).1) / PAGE_SIZE).
Definition dmap_tables (map : list MemoryDescriptor) : gset (list Z) := ⋃ ((λ p, table_paths (phys_addr_to_dmap p)) <$> touched_pages map).

Lemma elem_of_touched_pages map p : p ∈ touched_pages map ↔ (PAGE_SIZE | p) ∧ touched map p.
Proof.
  unfold touched_pages, touched. rewrite list_elem_of_bind, Exists_exists. split.
  - intros (d & (k & -> & Hk%elem_of_seqZ)%list_elem_of_fmap & Hd). assert (PAGE_SIZE | (range_of d).1) as [i Hi] by apply Z.divide_factor_r.
    assert (PAGE_SIZE | (range_of d).1 + k * PAGE_SIZE) as Hp by (rewrite Hi; exists (i + k); lia). split; [done|]. exists d. split; [done|]. apply touches_range; [done|].
    assert (PAGE_SIZE | (range_of d).2) as [j Hj] by apply Z.divide_factor_r. rewrite Hi, Hj in *. change PAGE_SIZE with 16384 in *. Z.div_mod_to_equations. lia.
  - intros [Hp (d & Hd & Ht%touches_range)]; [|done]. exists d. split; [|done]. apply list_elem_of_fmap.
    assert (PAGE_SIZE | (range_of d).1) as [i Hi] by apply Z.divide_factor_r. assert (PAGE_SIZE | (range_of d).2) as [j Hj] by apply Z.divide_factor_r.
    destruct Hp as [k ->]. exists (k - i). rewrite elem_of_seqZ, Hi, Hj in *. change PAGE_SIZE with 16384 in *. split; [lia|]. Z.div_mod_to_equations. lia.
Qed.

Lemma elem_of_dmap_tables map q : q ∈ dmap_tables map ↔ ∃ p, q ∈ table_paths (phys_addr_to_dmap p) ∧ (PAGE_SIZE | p) ∧ touched map p.
Proof.
  unfold dmap_tables. rewrite elem_of_union_list. split.
  - intros (X & (p & -> & Hp%elem_of_touched_pages)%list_elem_of_fmap & Hq). by exists p.
  - intros (p & Hq & Hp). exists (table_paths (phys_addr_to_dmap p)). split; [|done]. apply (list_elem_of_fmap_2 (λ p, table_paths (phys_addr_to_dmap p))). by apply elem_of_touched_pages.
Qed.

Lemma table_paths_ok va : 0 ≤ va → ∀ q, q ∈ table_paths va → path_ok q.
Proof.
  intros Hva q Hq. destruct (path_of_va va Hva) as (Hp2 & Hp3 & _). unfold table_paths in Hq.
  apply elem_of_union in Hq as [[Hq|Hq]%elem_of_union|Hq]; apply elem_of_singleton in Hq; subst q; [|done|done]. by apply (path_ok_prefix _ [idx va 1]).
Qed.

Lemma touched_nonneg map p : Forall desc_ok map → (PAGE_SIZE | p) → touched map p → 0 ≤ p.
Proof.
  intros Hok Hp (d & Hd & Ht%touches_range)%Exists_exists; [|done]. pose proof (range_of_bounds d (proj1 (Forall_forall _ _) Hok d Hd)). lia.
Qed.

Lemma dmap_tables_ok map q : Forall desc_ok map → q ∈ dmap_tables map → path_ok q.
Proof.
  intros Hok (p & Hq & Hp & Ht)%elem_of_dmap_tables. pose proof (touched_nonneg map p Hok Hp Ht). pose proof (touched_bound map p Hok Ht).
  destruct (dmap_page p Hp) as (_ & [[? _] _] & _); [lia|]. by eapply table_paths_ok.
Qed.

(** The tables for the first [n] blocks of 32 MiB of physical memory, up to
    64 GiB: one for each block and two above them. *)
Lemma dmap_idx p : 0 ≤ p < 2 ^ 36 → idx (phys_addr_to_dmap p) 0 = 0 ∧ idx (phys_addr_to_dmap p) 1 = 0 ∧ idx (phys_addr_to_dmap p) 2 = p / L2_BLOCK_SIZE.
Proof.
  intros Hp. rewrite phys_addr_to_dmap_add by (unfold phys_addr, VA_WIDTH; lia). change DMAP_START with 18446462598732840960. change L2_BLOCK_SIZE with 33554432.
  rewrite !idx_div by lia. change (2 ^ (14 + (3 - 0) * 11)) with 140737488355328. change (2 ^ (14 + (3 - 1) * 11)) with 68719476736.
  change (2 ^ (14 + (3 - 2) * 11)) with 33554432. change (2 ^ 36) with 68719476736 in Hp. change (0 =? 0) with true. change (1 =? 0) with false. change (2 =? 0) with false. cbv iota.
  split_and!; Z.div_mod_to_equations; lia.
Qed.

Lemma size_list_to_set_le (l : list (list Z)) : (size (list_to_set l : gset (list Z)) ≤ length l)%nat.
Proof.
  induction l as [|x l IH]; [done|]. rewrite list_to_set_cons, size_union_alt, size_singleton. cbn [length].
  assert (size ((list_to_set l : gset (list Z)) ∖ {[x]}) ≤ size (list_to_set l : gset (list Z)))%nat by (apply subseteq_size; set_solver). lia.
Qed.

Lemma dmap_tables_bound map n : Forall desc_ok map → Forall (λ d, desc_hi d ≤ n * L2_BLOCK_SIZE) map → 0 ≤ n ≤ 2048 →
  (size (dmap_tables map) ≤ 2 + Z.to_nat n)%nat.
Proof.
  intros Hok Hhi Hn. set (L := [0] :: [0; 0] :: ((λ k, [0; 0; k]) <$> seqZ 0 n)).
  assert (dmap_tables map ⊆ list_to_set L) as Hsub.
  { intros q (p & Hq & Hp & Ht)%elem_of_dmap_tables. pose proof (touched_nonneg map p Hok Hp Ht) as H0.
    assert (p < n * L2_BLOCK_SIZE) as Hb. { apply Exists_exists in Ht as (d & Hd & [_ Ht]). eapply Forall_forall in Hhi; [|done]. simpl in Hhi. lia. }
    apply elem_of_list_to_set. change L2_BLOCK_SIZE with 33554432 in Hb. unfold table_paths, path2, path3 in Hq. destruct (dmap_idx p) as (E0 & E1 & E2); [lia|].
    rewrite E0, E1, E2 in Hq. change L2_BLOCK_SIZE with 33554432 in Hq. unfold L.
    apply elem_of_union in Hq as [[Hq|Hq]%elem_of_union|Hq]; apply elem_of_singleton in Hq; subst q; [left|right; left|right; right].
    apply (list_elem_of_fmap_2 (λ k, [0; 0; k])), elem_of_seqZ. Z.div_mod_to_equations. lia. }
  apply subseteq_size in Hsub. etrans; [exact Hsub|]. etrans; [apply size_list_to_set_le|]. unfold L. cbn [length]. rewrite length_fmap, length_seqZ. lia.
Qed.

End dmap_tables.

Section dmap.
#[local] Existing Instance IdentityTranslator.
Context {D : TTE} {DL : TTELaws D} {A : Type} {TA : TableAllocator A} {TAL : TableAllocatorLaws A}.
Context (RW RO : AccessPermission) (InnerShareable OuterShareable : Shareability) (DEVICE NORMAL : Z).

(** The map before the direct map is built: no block lies in its way, every
    entry that decides has attributes that are supported, and the allocator
    has a page for every table that is missing. *)
Record dmap_ready (map : list MemoryDescriptor) (root : Z) (s : Pt A) : Prop := {
  dr_sorted : map_sorted map;
  dr_ok : Forall desc_ok map;
  dr_inv : pt_inv root s;
  dr_meta p d : chosen map p = Some d → is_Some (descriptor_to_meta RW RO InnerShareable OuterShareable DEVICE NORMAL d);
  dr_block p : (PAGE_SIZE | p) → touched map p → block_of s root (phys_addr_to_dmap p) = None;
  dr_room : (size (lacking root (dmap_tables map) s) ≤ room (alloc_state s))%nat
}.

End dmap.

(** *** With the boot allocator *)

Section boot.
#[local] Existing Instance IdentityTranslator.

(** A fresh root in a page of the allocator of [PageTheorems]. *)
Lemma boot_state zs bl a s1 : Inv (T := KernelAddressTranslator) zs bl s1 → is_dmap s1 = false → owned bl = {[a := 0]} →
  ∃ s : SlabAllocator PageAllocator, table_addr a ∧ pages_own false s {[a]} ∧ pages s = s1.
Proof.
  intros I Ed Eo. assert (owned bl !! a = Some 0) as Ho by (by rewrite Eo, lookup_singleton_eq).
  set (s := {| pages := s1; page_alloc_ptr := 1; used_bytes := 0; caches := []; slab_lock := TicketLock.new; slab_dmap := false; headers := ∅; words := ∅ |}).
  assert (pages_own false s {[a]}) as Hown.
  { split; [done|]. split; [done|]. exists zs, bl. split; [done|]. by intros p ->%elem_of_singleton. }
  exists s. split_and!; [|done|done]. by eapply own_table; [done|apply elem_of_singleton].
Qed.

Definition demo_map : list MemoryDescriptor :=
  [ {| ty := CONVENTIONAL; phys_start := 0x40000000; virt_start := 0; page_count := 5; att := WRITE_BACK |};
    {| ty := MMIO; phys_start := 0x40005000; virt_start := 0; page_count := 1; att := UNCACHEABLE |} ].

Lemma demo_map_ok : map_sorted demo_map ∧ Forall desc_ok demo_map ∧ size (dmap_tables demo_map) = 3%nat.
Proof.
  split_and!; [repeat constructor; vm_compute; congruence| |vm_compute; reflexivity].
  repeat constructor; vm_compute; congruence.
Qed.

Lemma demo_touched : touched demo_map 0x40004000 ∧ touched demo_map (page_base (canon (phys_addr_to_dmap 0x40005123))).
Proof. split; (eapply bool_decide_eq_true_1; vm_compute; reflexivity). Qed.

Lemma demo_page_divides : (PAGE_SIZE | 0x40004000).
Proof. exists 65537. vm_compute. reflexivity. Qed.

Lemma demo_chosen : match list_find uncacheable (filter (touches 0x40004000) demo_map) with Some (_, u) => Some u | None => head (filter (touches 0x40004000) demo_map) end =
  Some {| ty := MMIO; phys_start := 0x40005000; virt_start := 0; page_count := 1; att := UNCACHEABLE |}.
Proof. vm_compute. reflexivity. Qed.

End boot.

(** ** The processed memory map *)

Lemma disjoint_virt l : disjoint_map l → disjoint_map (with_virt <$> l).
Proof. induction 1 as [|d l Hl IH Hf]; [constructor|]. rewrite fmap_cons. constructor; [done|]. by rewrite Forall_fmap. Qed.


(** Without a usable entry there is no place for the map. *)
Theorem clone_no_memory ds map : mmap_ok ds map → first_usable map = None → faults (clone_and_process_mmap ds map) Panic [].
Proof.
  intros M Hn. assert (first_start (coalesced (entries_of map)) = None) as Hst.
  { unfold first_usable in Hn. unfold first_start. by destruct (list_find _ _). }
  assert (Forall filled (without_loader_code map)) as Hw.
  { apply Forall_forall. intros d [_ Hd]%list_elem_of_filter. revert d Hd. apply Forall_forall, M. }
  unfold faults, clone_and_process_mmap, entries_of in *. destruct (without_loader_code map) as [|d l]; [done|].
  unfold bind at 1. rewrite pass1_whole by done. rewrite fmap_cons in Hst. cbn [coalesced] in Hst. rewrite coalesce_first in Hst.
  cbn [first_normal_start]. by rewrite Hst.
Qed.

Lemma demo_mmap_ok : mmap_ok 48 demo_map.
Proof.
  split; [| |done|vm_compute; reflexivity].
  - repeat constructor; vm_compute; congruence.
  - repeat constructor; vm_compute; congruence.
Qed.


(** The test for room is missing: when the first usable region is smaller
    than the new map, the map is written over the memory behind it, which it
    still describes as free. *)
Definition crowded_map : list MemoryDescriptor :=
  {| ty := CONVENTIONAL; phys_start := 0x1000; virt_start := 0; page_count := 1; att := WRITE_BACK |} ::
  ((λ k, {| ty := CONVENTIONAL; phys_start := 0x2000 + k * 0x1000; virt_start := 0; page_count := 1; att := 2 ^ (16 + k mod 2) + WRITE_BACK |}) <$> seqZ 0 100).

Example clone_overruns : mmap_ok 48 crowded_map ∧
  match clone_and_process_mmap 48 crowded_map [] with
  | Done (_, w) => ∃ i a d, w !! i = Some (a, d) ∧ Exists (λ e, phys_start e ≤ a < desc_hi e ∧ ty e = CONVENTIONAL) w.*2
  | Fault _ => False
  end.
Proof.
  split; [split|].
  - unfold crowded_map. constructor; [vm_compute; repeat split; congruence|]. rewrite Forall_fmap. apply Forall_forall. intros k Hk%elem_of_seqZ.
    unfold filled, desc_ok, desc_hi, UEFI_PS, VA_WIDTH. simpl. lia.
  - unfold disjoint_map. eapply bool_decide_eq_true_1. vm_compute. reflexivity.
  - done.
  - vm_compute. reflexivity.
  - assert (match clone_and_process_mmap 48 crowded_map [] with
      | Done (_, w) => match w !! 90%nat with Some (a, _) => existsb (λ e, (phys_start e <=? a) && (a <? desc_hi e) && (ty e =? CONVENTIONAL)) w.*2 | None => false end
      | Fault _ => false end = true) as Hb by (vm_compute; reflexivity).
    destruct (clone_and_process_mmap 48 crowded_map []) as [[r w]|f]; [|discriminate Hb]. exists 90%nat. destruct (w !! 90%nat) as [[a d]|]; [|discriminate Hb].
    exists a, d. split; [reflexivity|]. apply existsb_exists in Hb as (e & He & Hb). apply Exists_exists. exists e. split; [by apply list_elem_of_In|].
    rewrite !andb_true_iff, Z.leb_le, Z.ltb_lt, Z.eqb_eq in Hb. tauto.
Qed.

(** ** Populating the page allocator *)

Section populate.
#[local] Existing Instance KernelAddressTranslator.

(** [populate_alloc_stage1] on an allocator that already has zones, each
    region of normal memory overlapping at most one of them: every part of a
    region that no zone holds and that has four whole pages becomes one zone,
    in the order of the map; the pages handed out stay handed out; and a new
    zone lies in normal memory, outside the old zones. *)
Theorem populate_alloc_stage1_spec map zs bl s : Inv zs bl s → is_dmap s = true → Forall filled map → disjoint_map map →
  Forall (region_fits zs) (regions map) →
  ∃ s' new bl', populate_alloc_stage1 map s = Done (tt, s') ∧ Inv (new ++ zs) bl' s' ∧ owned bl' = owned bl ∧
    Forall2 spans (rev new) (regions map ≫= parts zs) ∧
    (∀ z x, z ∈ new → zi_meta z ≤ x < zone_end z →
       (∃ d, d ∈ map ∧ is_normal_desc d = true ∧ phys_start d ≤ x < desc_hi d) ∧ ∀ z', z' ∈ zs → ¬ (zi_meta z' ≤ x < zone_end z')).
Proof.
  intros I Ed Hf Hd Hr. pose proof (wp_populate_stage1 map zs bl s I Ed Hf Hd Hr) as ([] & s' & E & new & bl' & I' & _ & Eo & Hs)%wp_run.
  exists s', new, bl'. split_and!; [done|done|done|done|]. intros z x Hz Hx. destruct (spans_inside _ _ _ Hs Hz) as (q & Hq & [E1 E2]).
  apply list_elem_of_bind in Hq as (p & Hq & Hp). pose proof (proj1 (Forall_forall _ _) Hr p Hp) as Hfit.
  destruct (parts_inside zs p q Hfit Hq) as (H1 & H2 & _ & H4). destruct (regions_spec map Hf Hd) as (_ & _ & Hcov). split.
  - apply Hcov, Exists_exists. exists p. split; [done|lia].
  - intros z' Hz'. destruct (H4 z' Hz'); lia.
Qed.

(** The first stage on a new allocator: the largest region of free memory
    becomes the first zone. *)
Theorem populate_alloc_stage0_spec map e : Forall filled map → largest map = Some e → desc_hi e < 2 ^ VA_WIDTH →
  reservable (whole (phys_start e, desc_hi e)) →
  ∃ s' z bl, populate_alloc_stage0 map new = Done (tt, s') ∧ Inv [z] bl s' ∧ is_dmap s' = false ∧ owned bl = ∅ ∧
    spans z (whole (phys_start e, desc_hi e)) ∧ e ∈ map ∧ (∀ d, d ∈ map → ty d = CONVENTIONAL → page_count d ≤ page_count e).
Proof.
  intros Hf El Hhi Hres. pose proof (wp_populate_stage0 map Hf) as Hw. rewrite El in Hw. specialize (Hw Hhi Hres). clear Hres.
  apply wp_run in Hw as ([] & s' & E & z & bl & I & Ed & Eo & Hs). exists s', z, bl. split; [exact E|]. clear E.
  pose proof (max_by_pages_spec (filter (λ d, ty d = CONVENTIONAL ∧ 4 * PAGE_SIZE ≤ page_count d * UEFI_PS) map)) as Hm. fold (largest map) in Hm.
  rewrite El in Hm. destruct Hm as [[[_ Hsz] He]%list_elem_of_filter Hmax]. split_and!; try done.
  intros d Hd Ht. destruct (decide (4 * PAGE_SIZE ≤ page_count d * UEFI_PS)); [apply Hmax, list_elem_of_filter; done|]. unfold UEFI_PS in *. lia.
Qed.

(** Free memory on both sides of the zone of [PageTheorems], and a region
    that is too small. *)
Definition demo_regions : list MemoryDescriptor :=
  [ {| ty := CONVENTIONAL; phys_start := 0x10000; virt_start := 0; page_count := 4; att := WRITE_BACK |};
    {| ty := BOOT_SERVICES_DATA; phys_start := demo_start - 0x20000; virt_start := 0; page_count := 32; att := WRITE_BACK |};
    {| ty := CONVENTIONAL; phys_start := demo_start; virt_start := 0; page_count := 64; att := WRITE_BACK |} ].

Lemma demo_regions_fit : Forall (region_fits [demo_zone]) (regions demo_regions) ∧
  (regions demo_regions ≫= parts [demo_zone]) = [(demo_start - 0x20000, demo_start); (demo_start + 0x20000, demo_start + 0x40000)].
Proof.
  split; [|vm_compute; reflexivity].
  assert (regions demo_regions = [(0x10000, 0x14000); (demo_start - 0x20000, demo_start + 0x40000)]) as -> by (vm_compute; reflexivity).
  assert (∀ p z z', z ∈ [demo_zone] → z' ∈ [demo_zone] → overlaps z p.1 p.2 → overlaps z' p.1 p.2 → z = z') as Hone.
  { clear. intros p z z' ->%list_elem_of_singleton ->%list_elem_of_singleton _ _. reflexivity. }
  constructor; [|constructor; [|constructor]].
  - split; [vm_compute; repeat split; congruence|]. split; [vm_compute; congruence|]. split; [apply Hone|].
    assert (parts [demo_zone] (0x10000, 0x14000) = []) as -> by (vm_compute; reflexivity). constructor.
  - split; [vm_compute; repeat split; congruence|]. split; [vm_compute; congruence|]. split; [apply Hone|].
    assert (parts [demo_zone] (demo_start - 0x20000, demo_start + 0x40000) = [(demo_start - 0x20000, demo_start); (demo_start + 0x20000, demo_start + 0x40000)]) as ->
      by (vm_compute; reflexivity).
    assert (∀ p, (p.2 - p.1) / PAGE_SIZE = 8 → reservable p) as H8 by (intros p E; unfold reservable; rewrite E; discriminate).
    constructor; [apply H8; reflexivity|]. constructor; [apply H8; reflexivity|constructor].
Qed.

Lemma populate_alloc_stage1_spec_witness : ∃ s s' new bl', populate_alloc_stage1 demo_regions s = Done (tt, s') ∧ Inv (new ++ [demo_zone]) bl' s' ∧
  Forall2 spans (rev new) [(demo_start - 0x20000, demo_start); (demo_start + 0x20000, demo_start + 0x40000)].
Proof.
  destruct demo1_Inv as (bl & a & I & Ed & _). destruct (proj1 (wp_run _ _ _) (wp_transition_dmap [demo_zone] bl demo1 I Ed)) as ([] & s & _ & I2 & Ed2).
  destruct demo_regions_fit as [Hfit Hp].
  destruct (populate_alloc_stage1_spec demo_regions [demo_zone] bl s I2 Ed2) as (s' & new & bl' & E & I' & _ & Hs & _).
  - repeat constructor; vm_compute; congruence.
  - unfold disjoint_map. eapply bool_decide_eq_true_1. vm_compute. reflexivity.
  - exact Hfit.
  - exists s, s', new, bl'. rewrite Hp in Hs. split; [exact E|]. split; [exact I'|exact Hs].
Defined.
End populate.
