(* ===== verification/Vfs.v ===== *)
(** * The virtual file system

    Models [klib/src/vfs]: directory entries that cache the lookups of a file
    system, path lookup, [open] with creation, and open files.

    A file system is an implementation of the trait [InodeOperations]; here it
    is a class whose operations act on a state of their own and on the inodes,
    which they allocate.  [Arc] pointers are addresses in a store of inodes or
    of directory entries.  A directory entry is shared by its parent's map and
    by open files, and the only change to it is the insertion of a child, so
    that it lives as long as the root.  Paths and names are the bytes of their
    strings.  The locks of the entries are held for single accesses by one
    caller, so they are not part of the state. *)

From S2P Require Import Prelude Bytes.

Inductive VfsError := NotFound | ExistsAlready | NotADirectory | IsADirectory | PermissionDenied | Io | OutOfSpace.
Inductive FileType := Normal | Directory.

#[global] Instance VfsError_eq_dec : EqDecision VfsError.
Proof. solve_decision. Defined.
#[global] Instance FileType_eq_dec : EqDecision FileType.
Proof. solve_decision. Defined.

Record Inode (O : Type) := { number : Z; file_type : FileType; size : Z; operations : O }.
Arguments number {O} _.
Arguments file_type {O} _.
Arguments size {O} _.
Arguments operations {O} _.

(** The state that a file system can change. *)
Record Fs (F O : Type) := { fs : F; inodes : gmap Z (Inode O) }.
Arguments fs {F O} _.
Arguments inodes {F O} _.

(** [read_at] also returns what it leaves in the buffer. *)
Class InodeOperations (F O : Type) := {
  read_at : O → Z → list Z → M (Fs F O) (result VfsError Z * list Z);
  write_at : O → Z → list Z → M (Fs F O) (result VfsError Z);
  lookup_child : O → str → M (Fs F O) (result VfsError Z);
  create : O → str → FileType → M (Fs F O) (result VfsError Z);
  truncate : O → Z → M (Fs F O) (result VfsError unit)
}.

Record DirEntry := { name : str; inode : Z; parent : option Z; children : gmap str Z }.

(** The entries, the next address of an entry, and the root. *)
Record Vfs (F O : Type) := { files : Fs F O; dentries : gmap Z DirEntry; next_arc : Z; root : Z }.
Arguments files {F O} _.
Arguments dentries {F O} _.
Arguments next_arc {F O} _.
Arguments root {F O} _.

Definition DirEntry_new (nm : str) (ino : Z) (par : option Z) : DirEntry := {| name := nm; inode := ino; parent := par; children := ∅ |}.

(** ** Paths *)

Definition SLASH : Z := 47.
Definition DOT : str := [46].
Definition DOTDOT : str := [46; 46].

Definition starts_with_slash (s : str) : bool := match s with c :: _ => c =? SLASH | [] => false end.

(** [str::split]: one part more than there are separators. *)
Fixpoint split (s : str) : list str :=
  match s with
  | [] => [[]]
  | c :: s' =>
      if c =? SLASH then [] :: split s'
      else match split s' with p :: ps => (c :: p) :: ps | [] => [[c]] end
  end.

Fixpoint rfind (s : str) : option nat :=
  match s with
  | [] => None
  | c :: s' => match rfind s' with Some i => Some (S i) | None => if c =? SLASH then Some 0%nat else None end
  end.

Section vfs.
Context {F O : Type} {IO : InodeOperations F O}.

(** ** Entries *)

Definition read_entry (d : Z) : M (Vfs F O) DirEntry := λ v,
  match dentries v !! d with Some e => Done (e, v) | None => Fault BadDeref end.
Definition read_inode (i : Z) : M (Vfs F O) (Inode O) := λ v,
  match inodes (files v) !! i with Some e => Done (e, v) | None => Fault BadDeref end.

Definition set_files (f : Fs F O) (v : Vfs F O) : Vfs F O := {| files := f; dentries := dentries v; next_arc := next_arc v; root := root v |}.
Definition on_files {A} (c : M (Fs F O) A) : M (Vfs F O) A := λ v,
  match c (files v) with Done (a, f) => Done (a, set_files f v) | Fault x => Fault x end.

(** [Arc::new] *)
Definition new_entry (e : DirEntry) : M (Vfs F O) Z := λ v,
  Done (next_arc v, {| files := files v; dentries := <[next_arc v := e]> (dentries v); next_arc := next_arc v + 1; root := root v |}).

Definition add_child (nm : str) (c : Z) (e : DirEntry) : DirEntry :=
  {| name := name e; inode := inode e; parent := parent e; children := <[nm := c]> (children e) |}.
Definition insert_child (d : Z) (nm : str) (c : Z) : M (Vfs F O) unit :=
  modify (λ v, {| files := files v; dentries := alter (add_child nm c) d (dentries v); next_arc := next_arc v; root := root v |}).

(** [Weak::upgrade] *)
Definition upgrade (w : option Z) (v : Vfs F O) : option Z := p ← w; if decide (is_Some (dentries v !! p)) then Some p else None.

(** ** Lookup *)

Definition vfs_lookup_child (par : Z) (nm : str) : M (Vfs F O) (result VfsError Z) :=
  let* parent_re := read_entry par in
  let* ino := read_inode (inode parent_re) in
  if decide (file_type ino ≠ Directory) then ret (Err NotADirectory) else
  match children parent_re !! nm with
  | Some child => ret (Ok child)
  | None =>
      let* parent_re := read_entry par in
      let* ino := read_inode (inode parent_re) in
      try child_inode := on_files (lookup_child (operations ino) nm) in
      let* parent_re := read_entry par in
      match children parent_re !! nm with
      | Some child => ret (Ok child)
      | None =>
          let* new_dir_entry := new_entry (DirEntry_new nm child_inode (Some par)) in
          insert_child par nm new_dir_entry ;;
          ret (Ok new_dir_entry)
      end
  end.

(** The loop over the parts of a path. *)
Fixpoint walk (parts : list str) (current : Z) : M (Vfs F O) (result VfsError Z) :=
  match parts with
  | [] => ret (Ok current)
  | part :: parts' =>
      if decide (part = [] ∨ part = DOT) then walk parts' current
      else if decide (part = DOTDOT) then
        let* e := read_entry current in
        let* up := gets (upgrade (parent e)) in
        walk parts' (match up with Some p => p | None => current end)
      else try next := vfs_lookup_child current part in walk parts' next
  end.

Definition vfs_lookup (path : str) (pwd : option Z) : M (Vfs F O) (result VfsError Z) :=
  let* r := gets root in
  walk (split path) (if starts_with_slash path then r else match pwd with Some d => d | None => r end).

(** ** Opening files *)

Record File := { dir_entry : Z; offset : Z; readable : bool; writable : bool }.
Definition File_new (d : Z) (r w : bool) : File := {| dir_entry := d; offset := 0; readable := r; writable := w |}.

Definition split_last (path : str) : str * str :=
  match rfind path with
  | Some i => (take i path, drop (S i) path)
  | None => ([SLASH], path)
  end.

Definition create_file (path : str) : M (Vfs F O) (result VfsError Z) :=
  let '(dir_path, nm) := split_last path in
  try parent_dir_entry := vfs_lookup dir_path None in
  let* parent_re := read_entry parent_dir_entry in
  let* ino := read_inode (inode parent_re) in
  try new_inode := on_files (create (operations ino) nm Normal) in
  let* new_dir_entry := new_entry (DirEntry_new nm new_inode (Some parent_dir_entry)) in
  insert_child parent_dir_entry nm new_dir_entry ;;
  ret (Ok new_dir_entry).

Definition vfs_open (path : str) (create readable writable : bool) : M (Vfs F O) (result VfsError File) :=
  let* r := vfs_lookup path None in
  try d := (match r with
            | Ok dir => ret (Ok dir)
            | Err NotFound => if create then create_file path else ret (Err NotFound)
            | Err e => ret (Err e)
            end) in
  let* e := read_entry d in
  let* ino := read_inode (inode e) in
  if bool_decide (file_type ino = Directory) && writable then ret (Err IsADirectory)
  else ret (Ok (File_new d readable writable)).

(** ** Open files *)

Record Open := { file : File; vfs : Vfs F O }.

Definition on_vfs {A} (c : M (Vfs F O) A) : M Open A := λ o,
  match c (vfs o) with Done (a, v) => Done (a, {| file := file o; vfs := v |}) | Fault x => Fault x end.

(** [offset.fetch_add] *)
Definition advance (n : Z) (o : Open) : Open :=
  {| file := {| dir_entry := dir_entry (file o); offset := wrap 64 (offset (file o) + n); readable := readable (file o); writable := writable (file o) |};
     vfs := vfs o |}.

Definition file_read (buffer : list Z) : M Open (result VfsError Z * list Z) :=
  let* o := get in
  if negb (readable (file o)) then ret (Err PermissionDenied, buffer) else
  let* d := on_vfs (read_entry (dir_entry (file o))) in
  let* ino := on_vfs (read_inode (inode d)) in
  let* r := on_vfs (on_files (read_at (operations ino) (offset (file o)) buffer)) in
  match r.1 with
  | Err e => ret (Err e, r.2)
  | Ok bytes_count => modify (advance bytes_count) ;; ret (Ok bytes_count, r.2)
  end.

Definition set_inode_size (n : Z) (i : Inode O) : Inode O := {| number := number i; file_type := file_type i; size := n; operations := operations i |}.
Definition set_size (i n : Z) : M (Vfs F O) unit :=
  modify (λ v, set_files {| fs := fs (files v); inodes := alter (set_inode_size n) i (inodes (files v)) |} v).

(** The loop that raises the size; [tries] says which weak exchanges are
    attempted in earnest, the others fail spuriously. *)
Fixpoint grow_size (tries : list bool) (i new_size old_size : Z) : M (Vfs F O) unit :=
  if new_size <=? old_size then ret tt
  else match tries with
  | [] => fail OutOfFuel
  | t :: tries' =>
      let* ino := read_inode i in
      if t && (size ino =? old_size) then set_size i new_size
      else grow_size tries' i new_size (size ino)
  end.

Definition file_write (tries : list bool) (buffer : list Z) : M Open (result VfsError Z) :=
  let* o := get in
  if negb (writable (file o)) then ret (Err PermissionDenied) else
  let* d := on_vfs (read_entry (dir_entry (file o))) in
  let current := offset (file o) in
  let* ino := on_vfs (read_inode (inode d)) in
  try bytes_count := on_vfs (on_files (write_at (operations ino) current buffer)) in
  modify (advance bytes_count) ;;
  let* new_size := expect (checked_add 64 current bytes_count) in
  let* ino := on_vfs (read_inode (inode d)) in
  on_vfs (grow_size tries (inode d) new_size (size ino)) ;;
  ret (Ok bytes_count).
End vfs.
