(* ===== verification/VfsTheorems.v ===== *)
(** * Path lookup is transparent

    The cache of directory entries refines the file system: walking a path
    through the entries, filling the cache on the way, finds what resolving
    the path in the file system itself gives, [..] included; an entry stands
    for one path.  Creating a file through [open] makes exactly that path
    resolve to it. *)

From S2P Require Import Prelude Bytes Vfs.

(** ** What a file system promises *)

(** [child] and [ftype] are the name space: what a lookup in an inode gives,
    and what kind of file an inode is.  Lookups do not change it and bring the
    inode they return into memory; creation adds one name, for a new inode;
    the number, type and operations of an inode never change. *)
Class FsLaws (F O : Type) {IO : InodeOperations F O} := {
  child : Fs F O → Z → str → result VfsError Z;
  ftype : Fs F O → Z → FileType;
  fs_ok : Fs F O → Prop;
  same_inodes (s s' : Fs F O) := ∀ i ino, inodes s !! i = Some ino → ∃ sz, inodes s' !! i = Some (set_inode_size sz ino);
  ftype_law s i ino : fs_ok s → inodes s !! i = Some ino → ftype s i = file_type ino;
  lookup_child_law s i ino nm : fs_ok s → inodes s !! i = Some ino →
    ∃ s', lookup_child (operations ino) nm s = Done (child s i nm, s') ∧ fs_ok s' ∧ same_inodes s s' ∧
      (∀ j n, child s' j n = child s j n) ∧ (∀ j, ftype s' j = ftype s j) ∧
      (∀ j, child s i nm = Ok j → is_Some (inodes s' !! j));
  create_law s i ino nm t : fs_ok s → inodes s !! i = Some ino →
    ∃ r s', create (operations ino) nm t s = Done (r, s') ∧ fs_ok s' ∧ same_inodes s s' ∧
      match r with
      | Err _ => (∀ j n, child s' j n = child s j n) ∧ ∀ j, ftype s' j = ftype s j
      | Ok c => inodes s !! c = None ∧ (∀ j n, child s j n ≠ Ok c) ∧ is_Some (inodes s' !! c) ∧ ftype s' c = t ∧ child s' i nm = Ok c ∧
          (∀ j n, (j, n) ≠ (i, nm) → child s' j n = child s j n) ∧ (∀ j, j ≠ c → ftype s' j = ftype s j)
      end
}.

(** A part of a path that names a child. *)
Definition proper (p : str) : Prop := p ≠ [] ∧ p ≠ DOT ∧ p ≠ DOTDOT.

Section refinement.
Context {F O : Type} {IO : InodeOperations F O} {FL : FsLaws F O}.
Implicit Types (v : Vfs F O) (s : Fs F O).

(** ** The reference *)

(** The directory above; the root is its own. *)
Definition go_up (st : list Z) : list Z := match st with _ :: j :: up => j :: up | _ => st end.

(** Resolving a path; the stack holds the inodes from the current directory
    up to the root. *)
Fixpoint resolve s (parts : list str) (st : list Z) : result VfsError (list Z) :=
  match parts with
  | [] => Ok st
  | p :: ps =>
      if decide (p = [] ∨ p = DOT) then resolve s ps st
      else if decide (p = DOTDOT) then resolve s ps (go_up st)
      else match st with
      | [] => Err NotFound
      | i :: _ =>
          if decide (ftype s i = Directory) then match child s i p with Ok j => resolve s ps (j :: st) | Err e => Err e end
          else Err NotADirectory
      end
  end.

(** ** The invariant of the entries *)

Record entry_ok v (d : Z) (e : DirEntry) : Prop := {
  eo_id : d < next_arc v;
  eo_inode : is_Some (inodes (files v) !! inode e);
  eo_children nm c : children e !! nm = Some c → proper nm ∧ d < c ∧ ftype (files v) (inode e) = Directory ∧
    ∃ ec, dentries v !! c = Some ec ∧ name ec = nm ∧ parent ec = Some d ∧ child (files v) (inode e) nm = Ok (inode ec);
  eo_parent p : parent e = Some p → p < d ∧ ∃ ep, dentries v !! p = Some ep ∧ children ep !! name e = Some d;
  eo_root : parent e = None ↔ d = root v
}.

Record vfs_inv v : Prop := {
  vi_fs : fs_ok (files v);
  vi_root : is_Some (dentries v !! root v);
  vi_entry d e : dentries v !! d = Some e → entry_ok v d e
}.

(** The entry stands for the stack of inodes on its path. *)
Inductive stack_of v : Z → list Z → Prop :=
| stack_root e : dentries v !! root v = Some e → stack_of v (root v) [inode e]
| stack_child d e p st : dentries v !! d = Some e → parent e = Some p → stack_of v p st → stack_of v d (inode e :: st).

(** Entries are only added, and keep what they stand for. *)
Record vfs_grows v v' : Prop := {
  vg_root : root v' = root v;
  vg_inodes : same_inodes (files v) (files v');
  vg_entry d e : dentries v !! d = Some e → ∃ e', dentries v' !! d = Some e' ∧ inode e' = inode e ∧ parent e' = parent e ∧ name e' = name e ∧
    ∀ nm c, children e !! nm = Some c → children e' !! nm = Some c
}.

Lemma same_inodes_refl s : same_inodes s s.
Proof. intros i ino Hi. exists (size ino). by destruct ino. Qed.

Lemma same_inodes_trans s1 s2 s3 : same_inodes s1 s2 → same_inodes s2 s3 → same_inodes s1 s3.
Proof. intros H1 H2 i ino Hi. destruct (H1 i ino Hi) as [sz Hs]. destruct (H2 _ _ Hs) as [sz' Hs']. by exists sz'. Qed.

Lemma same_inodes_some s s' i : same_inodes s s' → is_Some (inodes s !! i) → is_Some (inodes s' !! i).
Proof. intros H [ino Hi]. destruct (H i ino Hi) as [sz Hs]. by eexists. Qed.

Lemma grows_refl v : vfs_grows v v.
Proof. split; [done|apply same_inodes_refl|]. intros d e Hd. by exists e. Qed.

Lemma grows_trans v1 v2 v3 : vfs_grows v1 v2 → vfs_grows v2 v3 → vfs_grows v1 v3.
Proof.
  intros [R1 I1 E1] [R2 I2 E2]. split; [congruence|by eapply same_inodes_trans|]. intros d e Hd.
  destruct (E1 d e Hd) as (e' & Hd' & ? & ? & ? & Hc). destruct (E2 d e' Hd') as (e'' & Hd'' & ? & ? & ? & Hc').
  exists e''. split_and!; [done|congruence|congruence|congruence|auto].
Qed.

Lemma stack_grows v v' d st : vfs_grows v v' → stack_of v d st → stack_of v' d st.
Proof.
  intros G. induction 1 as [e He|d e p st Hd Hp _ IH].
  - destruct (vg_entry _ _ G _ _ He) as (e' & He' & <- & _). rewrite <- (vg_root _ _ G) in *. by constructor.
  - destruct (vg_entry _ _ G _ _ Hd) as (e' & Hd' & <- & Ep & _). apply (stack_child _ d e' p); [done|by rewrite Ep|done].
Qed.

Lemma stack_entry v d st : stack_of v d st → ∃ e st', dentries v !! d = Some e ∧ st = inode e :: st'.
Proof. by destruct 1; eexists _, _. Qed.

(** An entry stands for one stack. *)
Lemma stack_unique v d st st' : vfs_inv v → stack_of v d st → stack_of v d st' → st = st'.
Proof.
  intros V H. revert st'. induction H as [e He|d e p st Hd Hp Hs IH]; intros st' H'; inversion H' as [e' He'|d' e' p' st'' Hd' Hp' Hs']; subst.
  - by simplify_eq.
  - simplify_eq. pose proof (eo_root _ _ _ (vi_entry _ V _ _ He)) as Hr. by rewrite (proj2 Hr eq_refl) in Hp'.
  - simplify_eq. pose proof (eo_root _ _ _ (vi_entry _ V _ _ Hd)) as Hr. by rewrite (proj2 Hr eq_refl) in Hp.
  - simplify_eq. f_equal. by apply IH.
Qed.

(** ** Adding to the cache *)

(** The name space is the same. *)
Definition same_names s s' : Prop := (∀ j n, child s' j n = child s j n) ∧ ∀ j, ftype s' j = ftype s j.

Lemma set_files_inv v f : vfs_inv v → fs_ok f → same_inodes (files v) f → same_names (files v) f → vfs_inv (set_files f v) ∧ vfs_grows v (set_files f v).
Proof.
  intros [V1 V2 V3] Hf Hs [Hn Ht]. split; [|split; [done|done|by intros d e Hd; exists e]]. split; [done|done|]. intros d e Hd.
  destruct (V3 d e Hd) as [E1 E2 E3 E4 E5]. split; [done|by eapply same_inodes_some| |done|done]. cbn [files set_files dentries]. intros nm c Hc.
  rewrite Ht, Hn. by apply E3.
Qed.

(** A new entry below [d]. *)
Definition extended v (d : Z) (nm : str) (j : Z) : Vfs F O :=
  {| files := files v; dentries := alter (add_child nm (next_arc v)) d (<[next_arc v := DirEntry_new nm j (Some d)]> (dentries v));
     next_arc := next_arc v + 1; root := root v |}.

Lemma extended_lookup v d nm j x : vfs_inv v → is_Some (dentries v !! d) → dentries (extended v d nm j) !! x =
  if decide (x = d) then add_child nm (next_arc v) <$> (dentries v !! d)
  else if decide (x = next_arc v) then Some (DirEntry_new nm j (Some d)) else dentries v !! x.
Proof.
  intros V [e He]. pose proof (eo_id _ _ _ (vi_entry _ V _ _ He)). unfold extended. cbn [dentries].
  destruct (decide (x = d)) as [->|Hx]; [rewrite lookup_alter_eq, lookup_insert_ne by lia; done|].
  rewrite lookup_alter_ne by done. destruct (decide (x = next_arc v)) as [->|Hx']; [apply lookup_insert_eq|by apply lookup_insert_ne].
Qed.

Lemma extended_grows v d nm j e : vfs_inv v → dentries v !! d = Some e → children e !! nm = None → vfs_grows v (extended v d nm j).
Proof.
  intros V He Hn. split; [done|apply same_inodes_refl|]. intros x ex Hx. rewrite (extended_lookup v) by (done || by eexists).
  destruct (decide (x = d)) as [->|]; [|rewrite decide_False; [by exists ex|]].
  - rewrite He in *. simplify_eq/=. eexists. split_and!; [done|done|done|done|]. intros nm' c Hc. cbn [add_child children].
    rewrite lookup_insert_ne; [done|]. intros ->. congruence.
  - pose proof (eo_id _ _ _ (vi_entry _ V _ _ Hx)). lia.
Qed.

Lemma extended_inv v d nm j e : vfs_inv v → dentries v !! d = Some e → children e !! nm = None → proper nm → ftype (files v) (inode e) = Directory →
  child (files v) (inode e) nm = Ok j → is_Some (inodes (files v) !! j) → vfs_inv (extended v d nm j).
Proof.
  intros V He Hn Hp Hdir Hc Hj. pose proof (extended_grows v d nm j e V He Hn) as G. pose proof (vi_entry _ V _ _ He) as Hde.
  assert (is_Some (dentries v !! d)) as Hsd by by eexists. split; [apply V| |].
  { cbn [root extended]. destruct (vi_root _ V) as [er Hr]. destruct (vg_entry _ _ G _ _ Hr) as (er' & Hr' & _). by exists er'. }
  intros x ex. rewrite (extended_lookup v) by done. destruct (decide (x = d)) as [->|Hxd].
  - rewrite He. intros [= <-]. destruct Hde as [E1 E2 E3 E4 E5]. split; cbn [extended next_arc files root add_child inode parent name children]; [lia|done| | |done].
    + intros nm' c. destruct (decide (nm' = nm)) as [->|Hne].
      * rewrite lookup_insert_eq. intros [= <-]. split_and!; [done|lia|done|]. exists (DirEntry_new nm j (Some d)). change (dentries _) with (dentries (extended v d nm j)).
        rewrite (extended_lookup v), decide_False, decide_True by (done || lia). done.
      * rewrite lookup_insert_ne by done. intros Hc'. destruct (E3 nm' c Hc') as (P1 & P2 & P3 & ec & H1 & H2 & H3 & H4). split_and!; [done|done|done|].
        destruct (vg_entry _ _ G _ _ H1) as (ec' & H1' & I1 & I2 & I3 & _). exists ec'. split_and!; [done|congruence|congruence|congruence].
    + intros p Hpar. destruct (E4 p Hpar) as (P1 & ep & H1 & H2). split; [done|]. destruct (vg_entry _ _ G _ _ H1) as (ep' & H1' & _ & _ & _ & K). exists ep'. auto.
  - destruct (decide (x = next_arc v)) as [->|Hxn]; intros Hx.
    + injection Hx as <-. split; cbn [extended next_arc files root DirEntry_new inode parent name children]; [lia|done|by intros ? ? ?%lookup_empty_Some| |].
      * intros p [= <-]. split; [apply Hde|]. exists (add_child nm (next_arc v) e). change (dentries _) with (dentries (extended v d nm j)).
        rewrite (extended_lookup v), decide_True, He by done. split; [done|]. apply lookup_insert_eq.
      * split; [done|]. intros E. destruct (vi_root _ V) as [er Hr]. pose proof (eo_id _ _ _ (vi_entry _ V _ _ Hr)). lia.
    + destruct (vi_entry _ V _ _ Hx) as [E1 E2 E3 E4 E5]. split; cbn [extended next_arc files root]; [lia|done| | |done].
      * intros nm' c Hc'. destruct (E3 nm' c Hc') as (P1 & P2 & P3 & ec & H1 & H2 & H3 & H4). split_and!; [done|done|done|].
        destruct (vg_entry _ _ G _ _ H1) as (ec' & H1' & I1 & I2 & I3 & _). exists ec'. split_and!; [done|congruence|congruence|congruence].
      * intros p Hpar. destruct (E4 p Hpar) as (P1 & ep & H1 & H2). split; [done|]. destruct (vg_entry _ _ G _ _ H1) as (ep' & H1' & _ & _ & _ & K). exists ep'. auto.
Qed.

Lemma extended_stack v d nm j e st : vfs_inv v → dentries v !! d = Some e → children e !! nm = None → stack_of v d st →
  stack_of (extended v d nm j) (next_arc v) (j :: st).
Proof.
  intros V He Hn Hs. pose proof (eo_id _ _ _ (vi_entry _ V _ _ He)). apply (stack_child _ _ (DirEntry_new nm j (Some d)) d).
  - rewrite (extended_lookup v), decide_False, decide_True by (done || lia || by eexists). done.
  - done.
  - eapply stack_grows; [by eapply extended_grows|done].
Qed.

(** ** Lookups *)

Lemma wp_dir_entry d e v (Q : DirEntry → Vfs F O → Prop) : dentries v !! d = Some e → Q e v → wp (read_entry d) Q v.
Proof. intros E H. unfold wp, read_entry. by rewrite E. Qed.

Lemma wp_read_inode i ino v (Q : Inode O → Vfs F O → Prop) : inodes (files v) !! i = Some ino → Q ino v → wp (read_inode i) Q v.
Proof. intros E H. unfold wp, read_inode. by rewrite E. Qed.

(** What is cached is found without asking the file system. *)
Lemma lookup_child_cached d e nm c v : vfs_inv v → dentries v !! d = Some e → children e !! nm = Some c → vfs_lookup_child d nm v = Done (Ok c, v).
Proof.
  intros V He Hc. destruct (eo_inode _ _ _ (vi_entry _ V _ _ He)) as [ino Hi].
  destruct (eo_children _ _ _ (vi_entry _ V _ _ He) nm c Hc) as (_ & _ & Hd & _). rewrite (ftype_law _ _ _ (vi_fs _ V) Hi) in Hd.
  unfold vfs_lookup_child, bind, read_entry, read_inode. rewrite He, Hi, decide_False, Hc by (intros Hne; by apply Hne). done.
Qed.

(** The result of looking a name up below an entry that stands for [st]. *)
Definition found_child v (st : list Z) (d : Z) (nm : str) (r : result VfsError Z) v' : Prop :=
  ∃ i st0, st = i :: st0 ∧
  match r with
  | Ok c => ftype (files v) i = Directory ∧ (∃ j, child (files v) i nm = Ok j ∧ stack_of v' c (j :: st)) ∧
      ∃ e, dentries v' !! d = Some e ∧ children e !! nm = Some c
  | Err x => if decide (ftype (files v) i = Directory) then child (files v) i nm = Err x else x = NotADirectory
  end.

Lemma wp_lookup_child v d st nm : vfs_inv v → stack_of v d st → proper nm →
  wp (vfs_lookup_child d nm) (λ r v', vfs_inv v' ∧ vfs_grows v v' ∧ same_names (files v) (files v') ∧ found_child v st d nm r v') v.
Proof.
  intros V Hs Hp. destruct (stack_entry v d st Hs) as (e & st0 & He & Est). destruct (eo_inode _ _ _ (vi_entry _ V _ _ He)) as [ino Hi].
  pose proof (ftype_law _ _ _ (vi_fs _ V) Hi) as Hft. unfold vfs_lookup_child. wp_step. eapply wp_dir_entry; [done|]. wp_step. eapply wp_read_inode; [done|].
  case_decide as Hd.
  { wp_steps. split; [done|]. split; [apply grows_refl|]. split; [done|]. exists (inode e), st0. split; [done|]. rewrite decide_False by congruence. done. }
  assert (ftype (files v) (inode e) = Directory) as Hdir by (destruct (decide (file_type ino = Directory)); [congruence|done]).
  destruct (children e !! nm) as [c|] eqn:Ec.
  { wp_steps. split; [done|]. split; [apply grows_refl|]. split; [done|]. exists (inode e), st0. split; [done|]. split; [done|]. split; [|by exists e].
    destruct (eo_children _ _ _ (vi_entry _ V _ _ He) nm c Ec) as (_ & _ & _ & ec & H1 & H2 & H3 & H4). exists (inode ec). split; [done|]. by eapply stack_child. }
  wp_step. eapply wp_dir_entry; [done|]. wp_step. eapply wp_read_inode; [done|].
  destruct (lookup_child_law (files v) (inode e) ino nm (vi_fs _ V) Hi) as (f & El & Hf & Hsi & Hn & Ht & Hin).
  destruct (set_files_inv v f V Hf Hsi (conj Hn Ht)) as [V1 G1].
  apply wp_try. unfold wp at 1, on_files. rewrite El. destruct (child (files v) (inode e) nm) as [j|x] eqn:Ech.
  - wp_step. eapply wp_dir_entry; [exact He|]. rewrite Ec. wp_step. unfold wp at 1, new_entry. wp_steps.
    change (vfs_inv (extended (set_files f v) d nm j) ∧ vfs_grows v (extended (set_files f v) d nm j) ∧ same_names (files v) f ∧
      found_child v st d nm (Ok (next_arc v)) (extended (set_files f v) d nm j)).
    assert (vfs_inv (extended (set_files f v) d nm j)) as V2.
    { apply (extended_inv (set_files f v) d nm j e); [done|done|done|done|cbn [files set_files]; by rewrite Ht|cbn [files set_files]; by rewrite Hn|by apply Hin]. }
    split; [done|]. split; [eapply grows_trans; [exact G1|by eapply extended_grows]|]. split; [done|].
    exists (inode e), st0. split; [done|]. split; [done|]. split.
    + exists j. split; [done|]. apply (extended_stack (set_files f v) d nm j e); [done|done|done|by eapply stack_grows].
    + exists (add_child nm (next_arc v) e). rewrite (extended_lookup (set_files f v)), decide_True by (done || by exists e). cbn [dentries set_files]. rewrite He.
      split; [done|]. apply lookup_insert_eq.
  - split; [done|]. split; [done|]. split; [done|]. exists (inode e), st0. split; [done|]. by rewrite decide_True.
Qed.

(** ** Paths *)

(** A successful walk can be repeated from the cache. *)
Definition replays v' (parts : list str) (d d' : Z) : Prop := ∀ v'', vfs_inv v'' → vfs_grows v' v'' → walk parts d v'' = Done (Ok d', v'').

Definition walked v (parts : list str) (d : Z) (st : list Z) (r : result VfsError Z) v' : Prop :=
  match r with
  | Ok d' => replays v' parts d d' ∧ ∃ st', resolve (files v) parts st = Ok st' ∧ stack_of v' d' st'
  | Err e => resolve (files v) parts st = Err e
  end.

Lemma resolve_names s s' parts st : same_names s s' → resolve s' parts st = resolve s parts st.
Proof.
  intros [Hc Ht]. revert st. induction parts as [|p ps IH]; intros st; [done|]. cbn [resolve]. rewrite IH. repeat case_decide; try done; try apply IH.
  all: destruct st as [|i st]; [done|]; rewrite Ht, Hc; case_decide; try done; destruct (child s i p); [apply IH|done].
Qed.

(** The entry above, or the entry itself at the root. *)
Lemma stack_up v d st : vfs_inv v → stack_of v d st → ∃ e, dentries v !! d = Some e ∧
  stack_of v (match upgrade (parent e) v with Some p => p | None => d end) (go_up st).
Proof.
  intros V Hs. inversion Hs as [e He|d' e p st' Hd Hp Hs']; subst.
  - exists e. split; [done|]. rewrite (proj2 (eo_root _ _ _ (vi_entry _ V _ _ He)) eq_refl). by constructor.
  - exists e. split; [done|]. rewrite Hp. destruct (stack_entry _ _ _ Hs') as (ep & st0 & Hep & ->). unfold upgrade. cbn [mbind option_bind].
    rewrite decide_True by by eexists. exact Hs'.
Qed.

Lemma upgrade_grows v v' d e : vfs_inv v → vfs_inv v' → vfs_grows v v' → dentries v !! d = Some e → upgrade (parent e) v' = upgrade (parent e) v.
Proof.
  intros V V' G He. unfold upgrade. destruct (parent e) as [p|] eqn:Ep; [|done]. cbn [mbind option_bind].
  destruct (eo_parent _ _ _ (vi_entry _ V _ _ He) p Ep) as (_ & ep & Hp & _). destruct (vg_entry _ _ G _ _ Hp) as (ep' & Hp' & _).
  by rewrite !decide_True by by eexists.
Qed.

Lemma walk_up v d e parts : dentries v !! d = Some e → walk (DOTDOT :: parts) d v = walk parts (match upgrade (parent e) v with Some p => p | None => d end) v.
Proof. intros He. cbn [walk]. rewrite decide_False, decide_True by (done || by intros [?|?]). unfold bind, read_entry, gets. by rewrite He. Qed.

Lemma wp_walk parts : ∀ v d st, vfs_inv v → stack_of v d st →
  wp (walk parts d) (λ r v', vfs_inv v' ∧ vfs_grows v v' ∧ same_names (files v) (files v') ∧ walked v parts d st r v') v.
Proof.
  induction parts as [|p ps IH]; intros v d st V Hs.
  { cbn [walk]. wp_steps. split; [done|]. split; [apply grows_refl|]. split; [done|]. split; [by intros v''|]. by exists st. }
  destruct (decide (p = [] ∨ p = DOT)) as [Hd|Hd].
  { eapply wp_mono; [eapply wp_ext; [|apply (IH v d st V Hs)]|].
    - cbn [walk]. by rewrite decide_True.
    - intros r v' (V' & G & N & W). split; [done|]. split; [done|]. split; [done|]. unfold walked in *. cbn [resolve]. rewrite decide_True by done.
      destruct r as [d'|]; [|done]. destruct W as [Wr Ws]. split; [|done]. intros v'' V'' G''. cbn [walk]. rewrite decide_True by done. by apply Wr. }
  destruct (decide (p = DOTDOT)) as [->|Hdd].
  { destruct (stack_up v d st V Hs) as (e & He & Hup). eapply wp_mono; [eapply wp_ext; [by apply walk_up|apply (IH v _ _ V Hup)]|].
    intros r v' (V' & G & N & W). split; [done|]. split; [done|]. split; [done|]. unfold walked in *. cbn [resolve]. rewrite decide_False, decide_True by done.
    destruct r as [d'|]; [|done]. destruct W as [Wr Ws]. split; [|done]. intros v'' V'' G''.
    destruct (vg_entry _ _ (grows_trans _ _ _ G G'') _ _ He) as (e'' & He'' & _ & Ep & _). rewrite (walk_up _ _ _ _ He''), Ep.
    rewrite (upgrade_grows v v'' d e V V'' (grows_trans _ _ _ G G'') He). by apply Wr. }
  assert (proper p) as Hp by (split_and!; [intros ->; apply Hd; by left|intros ->; apply Hd; by right|done]).
  cbn [walk]. rewrite !decide_False by done. apply wp_try. eapply wp_mono; [by apply (wp_lookup_child v d st p)|].
  intros r v1 (V1 & G1 & N1 & i & st0 & -> & Hr). unfold walked. cbn [resolve]. rewrite !decide_False by done. destruct r as [c|x].
  - destruct Hr as (Hdir & (j & Hj & Hsc) & e1 & He1 & Hc1). eapply wp_mono; [apply (IH v1 c _ V1 Hsc)|].
    intros r2 v2 (V2 & G2 & N2 & W). unfold walked in W. rewrite (resolve_names (files v) (files v1)) in W by done. split; [done|]. split; [by eapply grows_trans|].
    split; [destruct N1 as [Na Nb], N2 as [Nc Nd]; split; intros; [by rewrite Nc, Na|by rewrite Nd, Nb]|].
    rewrite decide_True, Hj by done. destruct r2 as [d'|x]; [|done]. destruct W as [Wr Ws]. split; [|done]. intros v'' V'' G''. cbn [walk]. rewrite !decide_False by done.
    destruct (vg_entry _ _ (grows_trans _ _ _ G2 G'') _ _ He1) as (e'' & He'' & _ & _ & _ & Hk). unfold try_, bind.
    rewrite (lookup_child_cached d e'' p c v'' V'' He'' (Hk _ _ Hc1)). by apply Wr.
  - split; [done|]. split; [done|]. split; [done|]. case_decide; [by rewrite Hr|by rewrite Hr].
Qed.

Lemma resolve_app s parts parts' st : resolve s (parts ++ parts') st = match resolve s parts st with Ok st' => resolve s parts' st' | Err e => Err e end.
Proof.
  revert st. induction parts as [|p ps IH]; intros st; [done|]. cbn [resolve app]. case_decide; [apply IH|]. case_decide; [apply IH|].
  destruct st as [|i st]; [done|]. case_decide; [|done]. destruct (child s i p); [apply IH|done].
Qed.

Lemma split_ne path : split path ≠ [].
Proof. destruct path as [|c path]; [done|]. cbn [split]. destruct (c =? SLASH); [done|]. by destruct (split path). Qed.

Lemma split_none path : rfind path = None → split path = [path].
Proof.
  induction path as [|c path IH]; [done|]. cbn [rfind split]. destruct (rfind path); [done|]. destruct (c =? SLASH) eqn:E; [done|]. intros _. by rewrite IH.
Qed.

(** The last part of a path is what follows the last separator. *)
Lemma split_rfind path i : rfind path = Some i → split path = split (take i path) ++ [drop (S i) path].
Proof.
  revert i. induction path as [|c path IH]; intros i; [done|]. cbn [rfind]. destruct (rfind path) as [k|] eqn:Er.
  - intros [= <-]. cbn [split take drop]. rewrite (IH k eq_refl). destruct (c =? SLASH) eqn:E; [done|].
    pose proof (split_ne (take k path)). by destruct (split (take k path)).
  - destruct (c =? SLASH) eqn:E; [|done]. intros [= <-]. cbn [split take drop]. by rewrite E, (split_none path Er).
Qed.

(** The directory and the name of [create_file] make up the path. *)
Lemma resolve_split_last s path dir nm i : split_last path = (dir, nm) →
  resolve s (split path) [i] = match resolve s (split dir) [i] with Ok st => resolve s [nm] st | Err e => Err e end.
Proof.
  unfold split_last. destruct (rfind path) as [k|] eqn:Er; intros [= <- <-].
  - by rewrite (split_rfind path k Er), resolve_app.
  - by rewrite (split_none path Er).
Qed.

(** ** Creation *)

(** A name appeared that was not there. *)
Record created s s' (i : Z) (nm : str) (c : Z) : Prop := {
  cr_ok : fs_ok s';
  cr_inodes : same_inodes s s';
  cr_absent : child s i nm = Err NotFound;
  cr_fresh : inodes s !! c = None;
  cr_unnamed j n : child s j n ≠ Ok c;
  cr_present : is_Some (inodes s' !! c);
  cr_child : child s' i nm = Ok c;
  cr_others j n : (j, n) ≠ (i, nm) → child s' j n = child s j n;
  cr_types j : j ≠ c → ftype s' j = ftype s j
}.

Lemma go_up_elem c st : c ∈ go_up st → c ∈ st.
Proof. destruct st as [|x [|y st]]; [done|done|]. cbn [go_up]. set_solver. Qed.

(** What no directory names is not found. *)
Lemma resolve_unnamed s c parts st st' : (∀ j n, child s j n ≠ Ok c) → c ∉ st → resolve s parts st = Ok st' → c ∉ st'.
Proof.
  intros Hc. revert st. induction parts as [|p ps IH]; intros st Hst; cbn [resolve]; [by intros [= <-]|]. case_decide; [by apply IH|].
  case_decide; [apply IH; intros Hg; by apply Hst, go_up_elem|]. destruct st as [|i st]; [done|]. case_decide; [|done].
  destruct (child s i p) as [j|] eqn:Ej; [|done]. apply IH. intros [->|]%elem_of_cons; [by apply (Hc i p)|done].
Qed.

(** Every path that resolved still does, to the same files. *)
Lemma created_resolve s s' i nm c parts st st' : created s s' i nm c → c ∉ st → resolve s parts st = Ok st' → resolve s' parts st = Ok st'.
Proof.
  intros C. revert st. induction parts as [|p ps IH]; intros st Hc; [done|]. cbn [resolve]. repeat case_decide; try (apply IH; done).
  - apply IH. intros Hg. by apply Hc, go_up_elem.
  - destruct st as [|x st]; [done|]. rewrite (cr_types _ _ _ _ _ C x) by set_solver. case_decide; [|done].
    destruct (child s x p) as [j|] eqn:Ej; [|done]. rewrite (cr_others _ _ _ _ _ C) by (intros [= -> ->]; pose proof (cr_absent _ _ _ _ _ C); congruence).
    rewrite Ej. apply IH. pose proof (cr_unnamed _ _ _ _ _ C x p). intros [->|]%elem_of_cons; [done|set_solver].
Qed.

Lemma new_file_inv v f i nm c : vfs_inv v → created (files v) f i nm c → vfs_inv (set_files f v) ∧ vfs_grows v (set_files f v).
Proof.
  intros [V1 V2 V3] C. split; [|split; [done|apply C|by intros d e Hd; exists e]]. split; [apply C|done|]. intros d e Hd.
  destruct (V3 d e Hd) as [E1 E2 E3 E4 E5]. split; [done|eapply same_inodes_some; [apply C|done]| |done|done]. cbn [files set_files dentries]. intros nm' k Hk.
  destruct (E3 nm' k Hk) as (P1 & P2 & P3 & ec & H1 & H2 & H3 & H4). split; [done|]. split; [done|].
  rewrite (cr_types _ _ _ _ _ C) by (intros E; pose proof (cr_fresh _ _ _ _ _ C); destruct E2; congruence).
  rewrite (cr_others _ _ _ _ _ C) by (intros [= E ->]; pose proof (cr_absent _ _ _ _ _ C); congruence). split; [done|]. by exists ec.
Qed.

Definition root_stack v : list Z := match dentries v !! root v with Some e => [inode e] | None => [] end.

Lemma root_stack_of v : vfs_inv v → stack_of v (root v) (root_stack v).
Proof. intros V. destruct (vi_root _ V) as [e He]. unfold root_stack. rewrite He. by constructor. Qed.

Lemma root_stack_grows v v' : vfs_inv v → vfs_inv v' → vfs_grows v v' → root_stack v' = root_stack v.
Proof.
  intros V V' G. unfold root_stack. rewrite (vg_root _ _ G). destruct (vi_root _ V) as [e He]. destruct (vg_entry _ _ G _ _ He) as (e' & He' & Ei & _).
  by rewrite He, He', Ei.
Qed.

Definition start v (path : str) (pwd : option Z) : Z := if starts_with_slash path then root v else match pwd with Some d => d | None => root v end.

Lemma start_root v path : start v path None = root v.
Proof. unfold start. by destruct (starts_with_slash path). Qed.

(** The result of a lookup, and that it can be had again from the cache. *)
Definition looked_up v (path : str) (pwd : option Z) (st : list Z) (r : result VfsError Z) v' : Prop :=
  match r with
  | Ok d => (∀ v'', vfs_inv v'' → vfs_grows v' v'' → vfs_lookup path pwd v'' = Done (Ok d, v'')) ∧
      ∃ st', resolve (files v) (split path) st = Ok st' ∧ stack_of v' d st'
  | Err e => resolve (files v) (split path) st = Err e
  end.

Lemma wp_vfs_lookup v path pwd st : vfs_inv v → stack_of v (start v path pwd) st →
  wp (vfs_lookup path pwd) (λ r v', vfs_inv v' ∧ vfs_grows v v' ∧ same_names (files v) (files v') ∧ looked_up v path pwd st r v') v.
Proof.
  intros V Hs. unfold vfs_lookup. wp_step. unfold wp at 1, gets. cbn. fold (start v path pwd).
  eapply wp_mono; [by apply (wp_walk (split path) v _ st)|]. intros r v' (V' & G & N & W). split; [done|]. split; [done|]. split; [done|].
  destruct r as [d|]; [|done]. destruct W as [Wr Ws]. split; [|done]. intros v'' V'' G''.
  change (walk (split path) (start v'' path pwd) v'' = Done (Ok d, v'')). rewrite <- (Wr v'' V'' G''). f_equal.
  unfold start. by rewrite (vg_root _ _ G''), (vg_root _ _ G).
Qed.

Lemma lookup_root v path : vfs_inv v →
  wp (vfs_lookup path None) (λ r v', vfs_inv v' ∧ vfs_grows v v' ∧ same_names (files v) (files v') ∧ looked_up v path None (root_stack v) r v') v.
Proof. intros V. apply wp_vfs_lookup; [done|]. rewrite start_root. by apply root_stack_of. Qed.

(** What [create_file] leaves: the parent's file system knows one name more,
    and the entry for it is in the cache. *)
Definition made v (path : str) (r : result VfsError Z) v' : Prop :=
  match r with
  | Ok d => ∃ dir nm i st c, split_last path = (dir, nm) ∧ resolve (files v) (split dir) (root_stack v) = Ok (i :: st) ∧ ftype (files v) i = Directory ∧ proper nm ∧
      created (files v) (files v') i nm c ∧ ftype (files v') c = Normal ∧ stack_of v' d (c :: i :: st) ∧
      ∃ p e, dentries v' !! p = Some e ∧ children e !! nm = Some d ∧ ∀ v'', vfs_inv v'' → vfs_grows v' v'' → vfs_lookup dir None v'' = Done (Ok p, v'')
  | Err _ => same_names (files v) (files v')
  end.

(** A path whose last name is missing: its directory is there. *)
Lemma missing_name s path dir nm i st : split_last path = (dir, nm) → resolve s (split path) [i] = Err NotFound → resolve s (split dir) [i] = Ok st →
  proper nm ∧ match st with [] => True | j :: _ => ftype s j = Directory ∧ child s j nm = Err NotFound end.
Proof.
  intros Es Hr Hd. rewrite (resolve_split_last _ _ _ _ _ Es), Hd in Hr. cbn [resolve] in Hr. case_decide as H1; [done|]. case_decide as H2; [done|].
  split; [by split_and!; intros ->; [apply H1; left|apply H1; right|apply H2]|]. destruct st as [|j st]; [done|]. case_decide; [|done]. split; [done|].
  destruct (child s j nm); congruence.
Qed.

Lemma created_names s s1 s' i nm c : same_names s s1 → same_inodes s s1 → created s1 s' i nm c → created s s' i nm c.
Proof.
  intros [Hn Ht] Hi [C1 C2 C3 C4 C5 C6 C7 C8 C9]. split; [done|by eapply same_inodes_trans|by rewrite <- Hn| |intros j n; by rewrite <- Hn|done|done| |].
  - destruct (inodes s !! c) as [ino|] eqn:E; [|done]. destruct (Hi c ino E). congruence.
  - intros j n H. by rewrite C8.
  - intros j H. by rewrite C9.
Qed.

Lemma wp_create_file v path : vfs_inv v → resolve (files v) (split path) (root_stack v) = Err NotFound →
  wp (create_file path) (λ r v', vfs_inv v' ∧ vfs_grows v v' ∧ made v path r v') v.
Proof.
  intros V Hr. unfold create_file. destruct (split_last path) as [dir nm] eqn:Es. apply wp_try. eapply wp_mono; [by apply lookup_root|].
  intros r v1 (V1 & G1 & N1 & L). destruct r as [p|x]; [|done]. destruct L as [Lr (st1 & Hd & Hs)].
  assert (∃ i0, root_stack v = [i0]) as [i0 E0] by (unfold root_stack; destruct (vi_root _ V) as [e ->]; by eexists).
  destruct (stack_entry _ _ _ Hs) as (e & st & He & ->). rewrite E0 in Hr, Hd.
  destruct (missing_name _ _ _ _ _ _ Es Hr Hd) as (Hp & Hdir & Habs). destruct (eo_inode _ _ _ (vi_entry _ V1 _ _ He)) as [ino Hi].
  wp_step. eapply wp_dir_entry; [done|]. wp_step. eapply wp_read_inode; [done|]. apply wp_try.
  destruct (create_law (files v1) (inode e) ino nm Normal (vi_fs _ V1) Hi) as (rc & f & Ec & Hf & Hsi & Hc). unfold wp at 1, on_files. rewrite Ec.
  destruct rc as [c|x].
  - destruct Hc as (C1 & C2 & C3 & C4 & C5 & C6 & C7). destruct N1 as [Nn Nt].
    assert (created (files v1) f (inode e) nm c) as C by (split; [done|done|by rewrite Nn|done|done|done|done|done|done]).
    destruct (new_file_inv v1 f (inode e) nm c V1 C) as [V2 G2].
    assert (children e !! nm = None) as Hk.
    { destruct (children e !! nm) as [k|] eqn:Ek; [|done]. destruct (eo_children _ _ _ (vi_entry _ V1 _ _ He) nm k Ek) as (_ & _ & _ & ec & _ & _ & _ & H).
      rewrite Nn in H. congruence. }
    wp_step. unfold wp at 1, new_entry. wp_steps. set (v3 := extended (set_files f v1) p nm c).
    change (vfs_inv v3 ∧ vfs_grows v v3 ∧ made v path (Ok (next_arc v1)) v3).
    assert (vfs_inv v3) as V3.
    { apply (extended_inv (set_files f v1) p nm c e); [done|done|done|done| |done|done]. cbn [files set_files]. rewrite C7, Nt; [done|intros E; rewrite E in Hi; congruence]. }
    assert (vfs_grows v1 v3) as G3 by (eapply grows_trans; [exact G2|by eapply extended_grows]).
    split; [done|]. split; [by eapply grows_trans|]. exists dir, nm, (inode e), st, c. split; [done|]. split; [by rewrite E0|]. split; [done|]. split; [done|].
    split; [by eapply (created_names _ (files v1)); [split|apply G1|]|]. split; [done|].
    split; [apply (extended_stack (set_files f v1) p nm c e); [done|done|done|by eapply stack_grows]|].
    exists p, (add_child nm (next_arc v1) e). unfold v3. rewrite (extended_lookup (set_files f v1)), decide_True by (done || by exists e). cbn [dentries set_files]. rewrite He.
    split; [done|]. split; [apply lookup_insert_eq|]. intros v'' V'' G''. apply Lr; [done|]. by eapply grows_trans.
  - destruct (set_files_inv v1 f V1 Hf Hsi Hc) as [V2 G2]. split; [done|]. split; [by eapply grows_trans|]. destruct N1 as [Na Nb], Hc as [Nc Nd].
    split; intros; cbn [files set_files]; [by rewrite Nc, Na|by rewrite Nd, Nb].
Qed.

Lemma walk_app ps qs d v v1 d1 : walk ps d v = Done (Ok d1, v1) → walk (ps ++ qs) d v = walk qs d1 v1.
Proof.
  revert d v. induction ps as [|p ps IH]; intros d v; [by intros [= -> ->]|]. cbn [walk app]. case_decide; [apply IH|]. case_decide.
  - unfold bind, read_entry, gets. destruct (dentries v !! d); [apply IH|done].
  - unfold try_, bind. destruct (vfs_lookup_child d p v) as [[[c|x] v2]|]; [apply IH|done|done].
Qed.

(** A name below a directory whose lookup is cached. *)
Lemma lookup_below v path dir nm p e d : vfs_inv v → split_last path = (dir, nm) → proper nm → vfs_lookup dir None v = Done (Ok p, v) →
  dentries v !! p = Some e → children e !! nm = Some d → vfs_lookup path None v = Done (Ok d, v).
Proof.
  intros V Es Hp Hl He Hc. change (walk (split dir) (start v dir None) v = Done (Ok p, v)) in Hl. change (walk (split path) (start v path None) v = Done (Ok d, v)).
  rewrite start_root in *. assert (walk [nm] p v = Done (Ok d, v)) as Hw.
  { destruct Hp as (P1 & P2 & P3). cbn [walk]. rewrite !decide_False by (done || by intros [?|?]). unfold try_, bind. by rewrite (lookup_child_cached p e nm d v). }
  unfold split_last in Es. destruct (rfind path) as [k|] eqn:Er; injection Es as <- <-.
  - by rewrite (split_rfind path k Er), (walk_app _ _ _ _ _ _ Hl).
  - rewrite (split_none path Er). injection Hl as E. by rewrite E.
Qed.

Lemma made_resolves v path d v' : vfs_inv v → vfs_inv v' → vfs_grows v v' → made v path (Ok d) v' → ∃ c st,
  resolve (files v') (split path) (root_stack v) = Ok (c :: st) ∧ stack_of v' d (c :: st) ∧ inodes (files v) !! c = None ∧ ftype (files v') c = Normal ∧
  ∀ parts st', resolve (files v) parts (root_stack v) = Ok st' → resolve (files v') parts (root_stack v) = Ok st'.
Proof.
  intros V V' G (dir & nm & i & st & c & Es & Hd & Hdir & Hp & C & Hn & Hs & _). exists c, (i :: st).
  destruct (vi_root _ V) as [e0 He0]. destruct (eo_inode _ _ _ (vi_entry _ V _ _ He0)) as [ino0 Hi0]. pose proof (cr_fresh _ _ _ _ _ C) as Hfr.
  assert (root_stack v = [inode e0]) as E0 by (unfold root_stack; by rewrite He0). rewrite E0 in *.
  assert (c ∉ [inode e0]) as Hc0 by (intros ->%list_elem_of_singleton; congruence).
  split_and!; [|done|done|done|intros parts st' H; by eapply created_resolve].
  rewrite (resolve_split_last _ _ _ _ _ Es), (created_resolve _ _ _ _ _ _ _ _ C Hc0 Hd). destruct Hp as (P1 & P2 & P3).
  cbn [resolve]. rewrite !decide_False by (done || by intros [?|?]).
  pose proof (resolve_unnamed _ _ _ _ _ (cr_unnamed _ _ _ _ _ C) Hc0 Hd). rewrite (cr_types _ _ _ _ _ C i) by set_solver.
  by rewrite decide_True, (cr_child _ _ _ _ _ C).
Qed.

(** ** The theorems *)

(** C10: Walking a path through the cache of directory entries, whatever it
    holds, finds what resolving the path in the file system gives, [.] and
    [..] included and with the same error; the cache stays consistent, names
    are unchanged, and from then on the lookup returns the same entry without
    changing anything. *)
Theorem vfs_lookup_spec v path pwd st : vfs_inv v → stack_of v (start v path pwd) st →
  wp (vfs_lookup path pwd) (λ r v', vfs_inv v' ∧ vfs_grows v v' ∧ same_names (files v) (files v') ∧
    match r with
    | Ok d => (∃ st', resolve (files v) (split path) st = Ok st' ∧ stack_of v' d st') ∧
        ∀ v'', vfs_inv v'' → vfs_grows v' v'' → vfs_lookup path pwd v'' = Done (Ok d, v'')
    | Err e => resolve (files v) (split path) st = Err e
    end) v.
Proof.
  intros V Hs. eapply wp_mono; [by apply (wp_vfs_lookup v path pwd st)|]. intros r v' (V' & G & N & L). split; [done|]. split; [done|]. split; [done|].
  destruct r; [|done]. by destruct L.
Qed.

(** C38: Opening a path that does not exist, with creation: when it succeeds the
    path resolves to a new regular file, opened at its start; every path that
    resolved before resolves to the same file as before, and looking the path
    up again gives the entry of the opened file.  When it fails no name has
    changed. *)
Theorem open_create_spec v path rd wr : vfs_inv v → resolve (files v) (split path) (root_stack v) = Err NotFound →
  wp (vfs_open path true rd wr) (λ r v', vfs_inv v' ∧ vfs_grows v v' ∧
    match r with
    | Ok f => (∃ c st, resolve (files v') (split path) (root_stack v') = Ok (c :: st) ∧ stack_of v' (dir_entry f) (c :: st) ∧
          inodes (files v) !! c = None ∧ ftype (files v') c = Normal) ∧
        (∀ parts st', resolve (files v) parts (root_stack v) = Ok st' → resolve (files v') parts (root_stack v') = Ok st') ∧
        vfs_lookup path None v' = Done (Ok (dir_entry f), v') ∧ f = File_new (dir_entry f) rd wr
    | Err _ => same_names (files v) (files v')
    end) v.
Proof.
  intros V Hr. unfold vfs_open. wp_step. eapply wp_mono; [by apply lookup_root|]. intros r v1 (V1 & G1 & N1 & L).
  destruct r as [d|x]; [destruct L as [_ (st & H & _)]; congruence|]. unfold looked_up in L. assert (x = NotFound) as -> by congruence.
  apply wp_try. eapply wp_mono; [apply (wp_create_file v1 path V1); by rewrite (root_stack_grows v v1), (resolve_names (files v))|].
  intros r v2 (V2 & G2 & Hm). pose proof (grows_trans _ _ _ G1 G2) as G. destruct r as [d|x].
  2:{ split; [done|]. split; [done|]. destruct N1 as [Na Nb], Hm as [Nc Nd]. split; intros; [by rewrite Nc, Na|by rewrite Nd, Nb]. }
  destruct (made_resolves v1 path d v2 V1 V2 G2 Hm) as (c & st & R1 & R2 & R3 & R4 & R5).
  destruct Hm as (dir & nm & i & st1 & c1 & Es & _ & _ & Hp & _ & _ & _ & p & ep & Hep & Hck & Hl).
  destruct (stack_entry _ _ _ R2) as (e & st2 & He & Ec). simplify_eq. destruct (eo_inode _ _ _ (vi_entry _ V2 _ _ He)) as [ino Hi].
  wp_step. eapply wp_dir_entry; [done|]. wp_step. eapply wp_read_inode; [done|]. rewrite (ftype_law _ _ _ (vi_fs _ V2) Hi) in R4. rewrite R4.
  rewrite bool_decide_eq_false_2 by done. wp_steps. split; [done|]. split; [done|].
  rewrite (root_stack_grows v1 v2) by done. split_and!.
  - exists (inode e), st2. split; [done|]. split; [done|]. split; [|by rewrite (ftype_law _ _ _ (vi_fs _ V2) Hi)].
    destruct (inodes (files v) !! inode e) as [ino'|] eqn:E; [|done]. destruct (vg_inodes _ _ G1 _ _ E). congruence.
  - intros parts st' H. apply R5. by rewrite (resolve_names (files v)), (root_stack_grows v v1).
  - cbn [dir_entry File_new]. eapply lookup_below; [done|done|done|apply Hl; [done|apply grows_refl]|done|done].
  - done.
Qed.
End refinement.

(** ** Open files *)

Section open_files.
Context {F O : Type} {IO : InodeOperations F O}.
Implicit Types (v : Vfs F O) (o : Open (F := F) (O := O)).

Lemma grow_size_run tries i n old ino v : inodes (files v) !! i = Some ino → old = size ino → true ∈ tries →
  grow_size tries i n old v = Done (tt, set_files {| fs := fs (files v); inodes := <[i := set_inode_size (Z.max (size ino) n) ino]> (inodes (files v)) |} v).
Proof.
  intros Hi ->. assert (∀ k, k = size ino → set_inode_size k ino = ino) as Hsame by (intros k ->; by destruct ino).
  induction tries as [|t ts IH]; intros Ht; [by apply not_elem_of_nil in Ht|]. cbn [grow_size]. destruct (Z.leb_spec n (size ino)).
  { rewrite Hsame by lia. rewrite insert_id by done. destruct v as [[] ?]; done. }
  unfold bind, read_inode. rewrite Hi. destruct t; cbn [andb].
  - rewrite Z.eqb_refl, Z.max_r by lia. unfold set_size, modify. do 3 f_equal. f_equal. apply map_eq. intros j. destruct (decide (j = i)) as [->|].
    + by rewrite lookup_alter_eq, Hi, lookup_insert_eq.
    + by rewrite lookup_alter_ne, lookup_insert_ne.
  - apply IH. by apply elem_of_cons in Ht as [|].
Qed.

(** What a write that the file system accepts leaves: the offset moves past
    what was written and the file is at least that long, however often the
    exchange of the size fails spuriously; the sum of the offset and the count
    must fit a word. *)
Theorem file_write_spec o d ino buf n f ino' tries : dentries (vfs o) !! dir_entry (file o) = Some d → inodes (files (vfs o)) !! inode d = Some ino →
  writable (file o) = true → write_at (operations ino) (offset (file o)) buf (files (vfs o)) = Done (Ok n, f) → inodes f !! inode d = Some ino' →
  0 ≤ offset (file o) → 0 ≤ n → true ∈ tries →
  file_write tries buf o =
    if bool_decide (offset (file o) + n < 2 ^ 64) then
      Done (Ok n, {| file := {| dir_entry := dir_entry (file o); offset := offset (file o) + n; readable := readable (file o); writable := true |};
        vfs := set_files {| fs := fs f; inodes := <[inode d := set_inode_size (Z.max (size ino') (offset (file o) + n)) ino']> (inodes f) |} (vfs o) |})
    else Fault Panic.
Proof.
  intros Hd Hi Hw Hwr Hi' Ho Hn Ht. unfold file_write, bind, get, on_vfs, read_entry, read_inode, on_files, try_. rewrite Hw. cbn [negb]. rewrite Hd. cbn [vfs file].
  rewrite Hi. unfold bind at 1. cbn [vfs file]. rewrite Hwr. cbn [advance modify vfs file]. unfold bind, expect, checked_add, modify, advance. cbn [vfs file].
  case_bool_decide as Hb.
  - rewrite (proj2 (Z.ltb_lt _ _) Hb). cbn [vfs files set_files file]. rewrite Hi'. cbn [vfs file].
    rewrite (grow_size_run tries _ _ _ ino' (set_files f (vfs o)) Hi' eq_refl Ht). unfold ret. do 4 f_equal; [|done]. unfold wrap. by rewrite Z.mod_small by lia.
  - by rewrite (proj2 (Z.ltb_ge _ _)) by lia.
Qed.

(** A file that was not opened for it is neither read nor written. *)
Theorem permission_denied o buf tries :
  (readable (file o) = false → file_read buf o = Done ((Err PermissionDenied, buf), o)) ∧
  (writable (file o) = false → file_write tries buf o = Done (Err PermissionDenied, o)).
Proof. split; intros H; unfold file_read, file_write, bind, get; by rewrite H. Qed.

(** Reading advances the offset by what was read, and not at all on an
    error. *)
Theorem file_read_spec o d ino buf n buf' f : dentries (vfs o) !! dir_entry (file o) = Some d → inodes (files (vfs o)) !! inode d = Some ino →
  readable (file o) = true → read_at (operations ino) (offset (file o)) buf (files (vfs o)) = Done ((n, buf'), f) →
  ∃ o', file_read buf o = Done ((n, buf'), o') ∧ files (vfs o') = f ∧ dir_entry (file o') = dir_entry (file o) ∧
    offset (file o') = match n with Ok k => wrap 64 (offset (file o) + k) | Err _ => offset (file o) end.
Proof.
  intros Hd Hi Hr Hrd. unfold file_read, bind, get, on_vfs, read_entry, read_inode, on_files. rewrite Hr. cbn [negb]. rewrite Hd. cbn [vfs file]. rewrite Hi. cbn [vfs file].
  rewrite Hrd. cbn [fst snd]. destruct n as [k|x]; by eexists.
Qed.
End open_files.

(** ** A file system in memory

    Names, types and contents are the state; an inode is brought into memory
    by the first lookup that finds it. *)
Module RamFs.

Record Ram := { names : gmap (Z * str) Z; types : gmap Z FileType; next_inode : Z; contents : gmap Z (list Z) }.

Definition ram_child (s : Fs Ram Z) (i : Z) (nm : str) : result VfsError Z := match names (fs s) !! (i, nm) with Some j => Ok j | None => Err NotFound end.
Definition ram_type (s : Fs Ram Z) (i : Z) : FileType := match types (fs s) !! i with Some t => t | None => Normal end.

Definition load (s : Fs Ram Z) (j : Z) : Fs Ram Z :=
  match inodes s !! j with
  | Some _ => s
  | None => {| fs := fs s; inodes := <[j := {| number := j; file_type := ram_type s j; size := 0; operations := j |}]> (inodes s) |}
  end.

Definition ram_create (i : Z) (nm : str) (t : FileType) (s : Fs Ram Z) : result VfsError Z * Fs Ram Z :=
  match names (fs s) !! (i, nm) with
  | Some _ => (Err ExistsAlready, s)
  | None =>
      let c := next_inode (fs s) in
      (Ok c, load {| fs := {| names := <[(i, nm) := c]> (names (fs s)); types := <[c := t]> (types (fs s)); next_inode := c + 1; contents := contents (fs s) |};
                     inodes := inodes s |} c)
  end.

Definition ram_write (i off : Z) (buf : list Z) (s : Fs Ram Z) : Fs Ram Z :=
  let old := match contents (fs s) !! i with Some l => l | None => [] end in
  let kept := take (Z.to_nat off) old ++ replicate (Z.to_nat off - length old) 0 in
  {| fs := {| names := names (fs s); types := types (fs s); next_inode := next_inode (fs s);
              contents := <[i := kept ++ buf ++ drop (Z.to_nat off + length buf) old]> (contents (fs s)) |};
     inodes := inodes s |}.

Definition ram_read (i off : Z) (buf : list Z) (s : Fs Ram Z) : list Z :=
  take (length buf) (drop (Z.to_nat off) (match contents (fs s) !! i with Some l => l | None => [] end)).

#[global] Instance ram_operations : InodeOperations Ram Z := {
  read_at i off buf s := let l := ram_read i off buf s in Done ((Ok (Z.of_nat (length l)), l ++ drop (length l) buf), s);
  write_at i off buf s := Done (Ok (Z.of_nat (length buf)), ram_write i off buf s);
  lookup_child i nm s := Done (ram_child s i nm, match ram_child s i nm with Ok j => load s j | Err _ => s end);
  create i nm t s := Done (ram_create i nm t s);
  truncate i n s := Done (Err PermissionDenied, s)
}.

Record ram_ok (s : Fs Ram Z) : Prop := {
  ro_inode i ino : inodes s !! i = Some ino → operations ino = i ∧ file_type ino = ram_type s i ∧ i < next_inode (fs s);
  ro_names k j : names (fs s) !! k = Some j → j < next_inode (fs s)
}.

Lemma load_lookup s j i ino : inodes s !! i = Some ino → inodes (load s j) !! i = Some ino.
Proof. intros Hi. unfold load. destruct (inodes s !! j) eqn:E; [done|]. cbn [inodes]. rewrite lookup_insert_ne; [done|]. intros ->. congruence. Qed.

Lemma load_fs s j : fs (load s j) = fs s.
Proof. unfold load. by destruct (inodes s !! j). Qed.

Lemma load_ok s j : ram_ok s → j < next_inode (fs s) → ram_ok (load s j).
Proof.
  intros [R1 R2] Hj. split; [|by rewrite load_fs]. intros i ino. unfold ram_type. rewrite load_fs. unfold load. destruct (inodes s !! j) eqn:E; [by apply R1|].
  cbn [inodes]. destruct (decide (i = j)) as [->|]; [rewrite lookup_insert_eq; by intros [= <-]|rewrite lookup_insert_ne by done; by apply R1].
Qed.

Lemma load_some s j : is_Some (inodes (load s j) !! j).
Proof. unfold load. destruct (inodes s !! j) eqn:E; [by rewrite E|]. cbn [inodes]. by rewrite lookup_insert_eq. Qed.

Lemma keep_inode (s : Fs Ram Z) i ino : inodes s !! i = Some ino → ∃ sz, inodes s !! i = Some (set_inode_size sz ino).
Proof. intros Hi. exists (size ino). by destruct ino. Qed.

Lemma ram_lookup_law s i ino nm : ram_ok s → inodes s !! i = Some ino →
  ∃ s', lookup_child (operations ino) nm s = Done (ram_child s i nm, s') ∧ ram_ok s' ∧
    (∀ i ino, inodes s !! i = Some ino → ∃ sz, inodes s' !! i = Some (set_inode_size sz ino)) ∧
    (∀ j n, ram_child s' j n = ram_child s j n) ∧ (∀ j, ram_type s' j = ram_type s j) ∧ (∀ j, ram_child s i nm = Ok j → is_Some (inodes s' !! j)).
Proof.
  intros R Hi. destruct (ro_inode s R i ino Hi) as (-> & _ & _). cbn [lookup_child ram_operations]. eexists. split; [done|].
  destruct (ram_child s i nm) as [j|x] eqn:Ec; [|split_and!; [done|apply keep_inode|done|done|done]]. unfold ram_child in Ec.
  destruct (names (fs s) !! (i, nm)) as [j'|] eqn:En; [|done]. injection Ec as ->. split_and!.
  - apply load_ok; [done|]. by eapply ro_names.
  - intros k ink Hk. apply keep_inode. by apply load_lookup.
  - intros k n. unfold ram_child. by rewrite load_fs.
  - intros k. unfold ram_type. by rewrite load_fs.
  - intros k [= <-]. apply load_some.
Qed.

Lemma ram_create_law s i ino nm t : ram_ok s → inodes s !! i = Some ino →
  ∃ r s', create (operations ino) nm t s = Done (r, s') ∧ ram_ok s' ∧ (∀ i ino, inodes s !! i = Some ino → ∃ sz, inodes s' !! i = Some (set_inode_size sz ino)) ∧
    match r with
    | Err _ => (∀ j n, ram_child s' j n = ram_child s j n) ∧ ∀ j, ram_type s' j = ram_type s j
    | Ok c => inodes s !! c = None ∧ (∀ j n, ram_child s j n ≠ Ok c) ∧ is_Some (inodes s' !! c) ∧ ram_type s' c = t ∧ ram_child s' i nm = Ok c ∧
        (∀ j n, (j, n) ≠ (i, nm) → ram_child s' j n = ram_child s j n) ∧ (∀ j, j ≠ c → ram_type s' j = ram_type s j)
    end.
Proof.
  intros R Hi. destruct (ro_inode s R i ino Hi) as (-> & _ & _). cbn [create ram_operations]. unfold ram_create. destruct (names (fs s) !! (i, nm)) as [j|] eqn:En.
  { eexists _, _. split; [done|]. split; [done|]. split; [apply keep_inode|done]. }
  assert (inodes s !! next_inode (fs s) = None) as Hc.
  { destruct (inodes s !! next_inode (fs s)) as [x|] eqn:E; [|done]. destruct (ro_inode s R _ _ E) as (_ & _ & H). lia. }
  eexists _, _. split; [done|]. split_and!.
  - apply load_ok; [|cbn [fs next_inode]; lia]. split; cbn [fs names next_inode inodes].
    + intros k ink Hk. destruct (ro_inode s R k ink Hk) as (H1 & H2 & H3). split_and!; [done| |lia]. rewrite H2. unfold ram_type. cbn [fs types]. by rewrite lookup_insert_ne by lia.
    + intros k j. destruct (decide (k = (i, nm))) as [->|]; [rewrite lookup_insert_eq; intros [= <-]; lia|].
      rewrite lookup_insert_ne by done. intros Hk. pose proof (ro_names s R k j Hk). lia.
  - intros k ink Hk. apply keep_inode. by apply load_lookup.
  - done.
  - intros j n. unfold ram_child. destruct (names (fs s) !! (j, n)) as [k|] eqn:E; [|done]. intros [= ->]. pose proof (ro_names s R _ _ E). lia.
  - apply load_some.
  - unfold ram_type. rewrite load_fs. cbn [fs types]. by rewrite lookup_insert_eq.
  - unfold ram_child. rewrite load_fs. cbn [fs names]. by rewrite lookup_insert_eq.
  - intros j n Hj. unfold ram_child. rewrite load_fs. cbn [fs names]. by rewrite lookup_insert_ne.
  - intros j Hj. unfold ram_type. rewrite load_fs. cbn [fs types]. by rewrite lookup_insert_ne.
Qed.

Lemma ram_type_law s i ino : ram_ok s → inodes s !! i = Some ino → ram_type s i = file_type ino.
Proof. intros R Hi. by destruct (ro_inode s R i ino Hi) as (_ & -> & _). Qed.

#[global] Instance ram_laws : FsLaws Ram Z := {
  child := ram_child; ftype := ram_type; fs_ok := ram_ok;
  ftype_law := ram_type_law; lookup_child_law := ram_lookup_law; create_law := ram_create_law
}.

(** A root directory with one directory [a] in it, nothing cached. *)
Definition ram0 : Vfs Ram Z :=
  {| files := {| fs := {| names := {[ (0, [97]) := 1 ]}; types := {[ 0 := Directory; 1 := Directory ]}; next_inode := 2; contents := ∅ |};
                 inodes := {[ 0 := {| number := 0; file_type := Directory; size := 0; operations := 0 |} ]} |};
     dentries := {[ 0 := DirEntry_new [] 0 None ]}; next_arc := 1; root := 0 |}.

Lemma ram0_inv : vfs_inv ram0.
Proof.
  split.
  - split; cbn [ram0 files fs inodes names next_inode].
    + intros i ino [<- <-]%lookup_singleton_Some. by vm_compute.
    + intros k j [<- <-]%lookup_singleton_Some. lia.
  - by exists (DirEntry_new [] 0 None).
  - intros d e. cbn [ram0 dentries]. intros [<- <-]%lookup_singleton_Some. split; cbn [ram0 next_arc DirEntry_new children parent root inode]; [lia|by vm_compute; eexists| |done|done].
    by intros nm c ?%lookup_empty_Some.
Qed.
End RamFs.

(** [/a/../a] from an empty cache. *)
Lemma vfs_lookup_spec_witness : ∃ d v', vfs_lookup [47; 97; 47; 46; 46; 47; 97] None RamFs.ram0 = Done (Ok d, v') ∧
  resolve (files RamFs.ram0) (split [47; 97; 47; 46; 46; 47; 97]) [0] = Ok [1; 0] ∧ stack_of v' d [1; 0].
Proof.
  pose proof (vfs_lookup_spec RamFs.ram0 [47; 97; 47; 46; 46; 47; 97] None [0] RamFs.ram0_inv (root_stack_of RamFs.ram0 RamFs.ram0_inv)) as H.
  apply wp_run in H as (r & v' & E & _ & _ & _ & Hr). exists 1, v'. assert (r = Ok 1) as ->.
  { assert (∃ w, vfs_lookup [47; 97; 47; 46; 46; 47; 97] None RamFs.ram0 = Done (Ok 1, w)) as [w Ew] by (eexists; vm_compute; reflexivity). congruence. }
  split; [done|]. split; [by vm_compute|]. destruct Hr as [(st' & E' & Hs) _]. assert (Ok [1; 0] = Ok (E := VfsError) st') as [= <-]; [|done].
  rewrite <- E'. by vm_compute.
Defined.

(** [/a/b] is created. *)
Lemma open_create_spec_witness : ∃ f v', vfs_open [47; 97; 47; 98] true true true RamFs.ram0 = Done (Ok f, v') ∧ vfs_lookup [47; 97; 47; 98] None v' = Done (Ok (dir_entry f), v').
Proof.
  pose proof (open_create_spec RamFs.ram0 [47; 97; 47; 98] true true RamFs.ram0_inv ltac:(vm_compute; reflexivity)) as H.
  apply wp_run in H as (r & v' & E & _ & _ & Hr). assert (∃ f, r = Ok f) as [f ->].
  { assert (∃ f w, vfs_open [47; 97; 47; 98] true true true RamFs.ram0 = Done (Ok f, w)) as (f & w & Ew) by (eexists _, _; vm_compute; reflexivity).
    exists f. congruence. }
  exists f, v'. split; [done|]. by destruct Hr as (_ & _ & ? & _).
Defined.
