(* ===== verification/SysRegs.v ===== *)
(** * System registers at start-up

    Models [bootloader/src/page.rs] and [kernel/src/earlyinit/mmu.rs]: the
    writes that set up the memory attributes, the translation control and the
    MMU, the move of the loader's settings from EL2 to EL1, and the exception
    return that enters the kernel.

    The registers and the effect of [HCR_EL2.E2H] are those of the
    architecture: at EL2 with that bit set the names of the EL1 registers
    below reach their EL2 counterparts.  A field is written by [set_bits] at
    its position.  Barriers and TLB maintenance have no effect on the state. *)

From S2P Require Import Prelude Vm Mapper.

(** Registers with a copy at each level. *)
Inductive SysReg := MAIR_EL1 | TCR_EL1 | TTBR0_EL1 | TTBR1_EL1 | SCTLR_EL1 | CPACR_EL1.
(** [CPTR_EL2] is the copy of [CPACR_EL1]. *)
Inductive El2Reg := HCR_EL2 | CNTHCTL_EL2 | CNTVOFF_EL2 | SPSR_EL2 | ELR_EL2.

#[global] Instance SysReg_eq_dec : EqDecision SysReg.
Proof. solve_decision. Defined.
#[global] Instance El2Reg_eq_dec : EqDecision El2Reg.
Proof. solve_decision. Defined.

Record Core := {
  current_el : Z;
  at_el1 : SysReg → Z;
  at_el2 : SysReg → Z;
  el2 : El2Reg → Z;
  tpidr : Z;
  daif : Z;
  x0 : Z;
  pc : Z
}.

(** ** Accesses *)

Definition upd {K} `{EqDecision K} (f : K → Z) (k : K) (v : Z) : K → Z := λ k', if decide (k' = k) then v else f k'.

Definition E2H : Z := 34.
Definition redirected (c : Core) : bool := (current_el c =? 2) && Z.testbit (el2 c HCR_EL2) E2H.

Definition get_reg (r : SysReg) : M Core Z := gets (λ c, if redirected c then at_el2 c r else at_el1 c r).
Definition set_reg (r : SysReg) (v : Z) : M Core unit := modify (λ c,
  if redirected c
  then {| current_el := current_el c; at_el1 := at_el1 c; at_el2 := upd (at_el2 c) r v; el2 := el2 c; tpidr := tpidr c; daif := daif c; x0 := x0 c; pc := pc c |}
  else {| current_el := current_el c; at_el1 := upd (at_el1 c) r v; at_el2 := at_el2 c; el2 := el2 c; tpidr := tpidr c; daif := daif c; x0 := x0 c; pc := pc c |}).
Definition get_el2 (r : El2Reg) : M Core Z := gets (λ c, el2 c r).
Definition set_el2 (r : El2Reg) (v : Z) : M Core unit := modify (λ c,
  {| current_el := current_el c; at_el1 := at_el1 c; at_el2 := at_el2 c; el2 := upd (el2 c) r v; tpidr := tpidr c; daif := daif c; x0 := x0 c; pc := pc c |}).
Definition set_cptr_el2 (v : Z) : M Core unit := modify (λ c,
  {| current_el := current_el c; at_el1 := at_el1 c; at_el2 := upd (at_el2 c) CPACR_EL1 v; el2 := el2 c; tpidr := tpidr c; daif := daif c; x0 := x0 c; pc := pc c |}).
Definition set_tpidr (v : Z) : M Core unit := modify (λ c,
  {| current_el := current_el c; at_el1 := at_el1 c; at_el2 := at_el2 c; el2 := el2 c; tpidr := v; daif := daif c; x0 := x0 c; pc := pc c |}).
Definition set_daif (v : Z) : M Core unit := modify (λ c,
  {| current_el := current_el c; at_el1 := at_el1 c; at_el2 := at_el2 c; el2 := el2 c; tpidr := tpidr c; daif := v; x0 := x0 c; pc := pc c |}).

(** A field and the value it is given. *)
Record FieldValue := F { f_lo : Z; f_width : Z; f_value : Z }.

(** [write] and [modify] of a sum of fields. *)
Definition fields (fs : list FieldValue) (old : Z) : Z := foldl (λ v f, set_bits (f_lo f) (f_width f) (f_value f) v) old fs.
Definition modify_reg (r : SysReg) (fs : list FieldValue) : M Core unit := let* v := get_reg r in set_reg r (fields fs v).
Definition write_reg (r : SysReg) (fs : list FieldValue) : M Core unit := set_reg r (fields fs 0).
Definition modify_el2 (r : El2Reg) (fs : list FieldValue) : M Core unit := let* v := get_el2 r in set_el2 r (fields fs v).

(** ** Fields *)

Definition mair_fields : list FieldValue := [F 0 8 0x04; F 12 4 0xF; F 8 4 0xF].
(** The upper half: [TBI1], [IPS], [TG1], [SH1], [ORGN1], [IRGN1], [EPD1],
    [T1SZ]. *)
Definition tcr_upper : list FieldValue := [F 38 1 1; F 32 3 5; F 30 2 1; F 28 2 3; F 26 2 1; F 24 2 1; F 23 1 0; F 16 6 16].
(** The lower half: [TBI0], [TG0], [SH0], [ORGN0], [IRGN0], [EPD0], [T0SZ]. *)
Definition tcr_lower : list FieldValue := [F 37 1 1; F 14 2 2; F 12 2 3; F 10 2 1; F 8 2 1; F 7 1 0; F 0 6 16].
Definition sctlr_fields : list FieldValue := [F 0 1 1; F 2 1 1; F 12 1 1].
Definition FPEN : FieldValue := F 20 2 3.
Definition ZEN : FieldValue := F 16 2 3.
Definition TTA : FieldValue := F 28 1 0.
Definition DAIF_MASKED : Z := 0x3C0.

(** [set_baddr] of [aarch64_cpu]: the register value that it leaves for a
    table. *)
Class Ttbr := { set_baddr : Z → Z → Z }.
(** The table that the MMU takes from a register value. *)
Definition baddr (v : Z) : Z := Z.shiftl (get_bits 1 47 v) 1.
Class TtbrLaws {TB : Ttbr} := { set_baddr_law old p : table_addr p → baddr (set_baddr old p) = p }.

Section operations.
Context {TB : Ttbr}.

(** ** The boot loader *)

Definition cpu_init : M Core unit :=
  modify_reg MAIR_EL1 mair_fields ;;
  modify_reg CPACR_EL1 [FPEN] ;;
  modify_reg CPACR_EL1 [ZEN] ;;
  modify_reg CPACR_EL1 [TTA].

Definition write_baddr (r : SysReg) (table : Z) : M Core unit := let* v := get_reg r in set_reg r (set_baddr v table).

Definition mmu_init (ttbr1 : Z) : M Core unit :=
  modify_reg MAIR_EL1 mair_fields ;;
  modify_reg TCR_EL1 tcr_upper ;;
  write_baddr TTBR1_EL1 ttbr1 ;;
  modify_reg SCTLR_EL1 sctlr_fields.

Definition mmu_init_post_exit : M Core unit :=
  let* el := gets current_el in
  if el =? 2 then
    let* mair_el1 := get_reg MAIR_EL1 in
    let* tcr_el1 := get_reg TCR_EL1 in
    let* ttbr0_el1 := get_reg TTBR0_EL1 in
    let* ttbr1_el1 := get_reg TTBR1_EL1 in
    let* sctlr_el1 := get_reg SCTLR_EL1 in
    modify_el2 HCR_EL2 [F E2H 1 0] ;;
    set_reg MAIR_EL1 mair_el1 ;;
    set_reg TCR_EL1 tcr_el1 ;;
    set_reg TTBR0_EL1 ttbr0_el1 ;;
    set_reg TTBR1_EL1 ttbr1_el1 ;;
    set_reg SCTLR_EL1 sctlr_el1
  else ret tt.

(** [eret] at EL2: the state in [SPSR_EL2], the address in [ELR_EL2]. *)
Definition eret : M Core unit := modify (λ c,
  let spsr := el2 c SPSR_EL2 in
  {| current_el := get_bits 2 2 spsr; at_el1 := at_el1 c; at_el2 := at_el2 c; el2 := el2 c; tpidr := tpidr c; daif := Z.land spsr DAIF_MASKED; x0 := x0 c; pc := el2 c ELR_EL2 |}).
Definition set_x0 (v : Z) : M Core unit := modify (λ c,
  {| current_el := current_el c; at_el1 := at_el1 c; at_el2 := at_el2 c; el2 := el2 c; tpidr := tpidr c; daif := daif c; x0 := v; pc := pc c |}).
Definition jump (entry : Z) : M Core unit := modify (λ c,
  {| current_el := current_el c; at_el1 := at_el1 c; at_el2 := at_el2 c; el2 := el2 c; tpidr := tpidr c; daif := daif c; x0 := x0 c; pc := entry |}).

Definition drop_to_el1 (entry arg : Z) : M Core unit :=
  let* el := gets current_el in
  if el =? 2 then
    set_el2 HCR_EL2 (fields [F 31 1 1] 0) ;;
    set_cptr_el2 0 ;;
    modify_el2 CNTHCTL_EL2 [F 1 1 1; F 0 1 1] ;;
    set_el2 CNTVOFF_EL2 0 ;;
    set_el2 SPSR_EL2 (fields [F 9 1 1; F 8 1 1; F 7 1 1; F 6 1 1; F 0 4 5] 0) ;;
    set_el2 ELR_EL2 entry ;;
    set_x0 arg ;;
    eret
  else set_x0 arg ;; jump entry.

(** ** The kernel *)

Definition init_mmu (ttbr0 : option Z) : M Core unit :=
  write_reg MAIR_EL1 mair_fields ;;
  modify_reg TCR_EL1 tcr_upper ;;
  match ttbr0 with Some table => write_baddr TTBR0_EL1 table | None => ret tt end ;;
  modify_reg TCR_EL1 tcr_lower ;;
  modify_reg SCTLR_EL1 sctlr_fields.

Definition init_cpu : M Core unit :=
  set_tpidr 0 ;;
  modify_reg CPACR_EL1 [FPEN] ;;
  modify_reg CPACR_EL1 [ZEN] ;;
  modify_reg CPACR_EL1 [TTA] ;;
  set_daif DAIF_MASKED.
End operations.

(** ** What the fields read back as *)

Record fv_ok (f : FieldValue) : Prop := { fv_lo : 0 ≤ f_lo f; fv_width : 0 ≤ f_width f; fv_value : 0 ≤ f_value f < 2 ^ f_width f }.
Definition fv_apart (f g : FieldValue) : Prop := f_lo f + f_width f ≤ f_lo g ∨ f_lo g + f_width g ≤ f_lo f.

Definition holds (v : Z) (f : FieldValue) : Prop := get_bits (f_lo f) (f_width f) v = f_value f.

Fixpoint separate (fs : list FieldValue) : Prop :=
  match fs with [] => True | f :: fs' => fv_ok f ∧ Forall (fv_apart f) fs' ∧ separate fs' end.

Lemma fields_other f fs old : fv_ok f → Forall fv_ok fs → Forall (fv_apart f) fs → holds old f → holds (fields fs old) f.
Proof.
  intros [Hf1 Hf2 _] Hfs Hd. revert old. induction Hd as [|g fs Hg Hd IH]; intros old Ho; [done|]. apply Forall_cons in Hfs as [[Hg1 Hg2 _] Hfs].
  cbn [fields foldl]. apply IH; [done|]. unfold holds. rewrite get_set_bits_other; [done|lia|lia|lia|lia|]. destruct Hg; [by right|by left].
Qed.

Lemma separate_ok fs : separate fs → Forall fv_ok fs.
Proof. induction fs as [|f fs IH]; [done|]. intros (H & _ & Hs). constructor; [done|by apply IH]. Qed.

Lemma fields_hold fs old : separate fs → Forall (holds (fields fs old)) fs.
Proof.
  revert old. induction fs as [|f fs IH]; intros old; [done|]. intros (Hf & Hd & Hs). constructor; [|by apply IH].
  cbn [fields foldl]. apply fields_other; [done|by apply separate_ok|done|]. destruct Hf as [H1 H2 H3]. unfold holds. rewrite get_set_bits by lia. by apply Z.mod_small.
Qed.

Ltac fields_ok := cbn; repeat first [split | apply Forall_cons | apply Forall_nil]; cbn; try exact I; try lia; unfold fv_apart; cbn; lia.

Lemma mair_separate : separate mair_fields.
Proof. fields_ok. Qed.
Lemma tcr_separate : separate (tcr_upper ++ tcr_lower).
Proof. fields_ok. Qed.
Lemma sctlr_separate : separate sctlr_fields.
Proof. fields_ok. Qed.

Lemma separate_app fs gs : separate (fs ++ gs) → separate fs ∧ separate gs ∧ Forall (λ f, Forall (fv_apart f) gs) fs.
Proof.
  induction fs as [|f fs IH]; [done|]. cbn [app separate]. intros (H1 & H2 & (S1 & S2 & S3)%IH). apply Forall_app in H2 as [H2 H3].
  split; [done|]. split; [done|]. by constructor.
Qed.

(** The memory attributes, the control of the upper half and the MMU are as
    the kernel's page tables need them. *)
Record upper_ready (regs : SysReg → Z) : Prop := {
  ur_mair : Forall (holds (regs MAIR_EL1)) mair_fields;
  ur_tcr : Forall (holds (regs TCR_EL1)) tcr_upper;
  ur_sctlr : Forall (holds (regs SCTLR_EL1)) sctlr_fields
}.

(** The registers as the loader sees them. *)
Definition seen (c : Core) (r : SysReg) : Z := if redirected c then at_el2 c r else at_el1 c r.

(** Only registers with two copies have changed. *)
Definition same_core (c c' : Core) : Prop := current_el c' = current_el c ∧ el2 c' = el2 c ∧ daif c' = daif c ∧ x0 c' = x0 c ∧ pc c' = pc c ∧ tpidr c' = tpidr c.

Lemma same_core_redirected c c' : same_core c c' → redirected c' = redirected c.
Proof. intros (H1 & H2 & _). unfold redirected. by rewrite H1, H2. Qed.

Lemma same_core_trans c1 c2 c3 : same_core c1 c2 → same_core c2 c3 → same_core c1 c3.
Proof. intros (? & ? & ? & ? & ? & ?) (? & ? & ? & ? & ? & ?). split_and!; congruence. Qed.

Lemma wp_set_reg r v c : wp (set_reg r v) (λ _ c', same_core c c' ∧ (∀ r', seen c' r' = if decide (r' = r) then v else seen c r') ∧
  (redirected c = false → at_el2 c' = at_el2 c)) c.
Proof.
  unfold wp, set_reg, modify. destruct (redirected c) eqn:E.
  - split; [done|]. split; [|done]. intros r'. unfold seen. rewrite E. change (redirected _) with (redirected c). by rewrite E.
  - split; [done|]. split; [|done]. intros r'. unfold seen. rewrite E. change (redirected _) with (redirected c). by rewrite E.
Qed.

Lemma wp_modify_reg r fs c : wp (modify_reg r fs) (λ _ c', same_core c c' ∧ (∀ r', seen c' r' = if decide (r' = r) then fields fs (seen c r) else seen c r') ∧
  (redirected c = false → at_el2 c' = at_el2 c)) c.
Proof. unfold modify_reg, get_reg. wp_step. unfold wp at 1, gets. apply wp_set_reg. Qed.

Section effects.
Context {TB : Ttbr} {TBL : TtbrLaws}.

Lemma wp_write_baddr r p c : table_addr p → wp (write_baddr r p) (λ _ c', same_core c c' ∧ baddr (seen c' r) = p ∧ ∀ r', r' ≠ r → seen c' r' = seen c r') c.
Proof.
  intros Hp. unfold write_baddr, get_reg. wp_step. unfold wp at 1, gets. eapply wp_mono; [apply wp_set_reg|]. intros _ c' (Hs & Hr & _). split; [done|].
  rewrite Hr, decide_True by done. split; [by apply set_baddr_law|]. intros r' Hne. by rewrite Hr, decide_False.
Qed.

Lemma wp_cpu_init c : wp cpu_init (λ _ c', same_core c c' ∧ ∀ r, r ≠ MAIR_EL1 → r ≠ CPACR_EL1 → seen c' r = seen c r) c.
Proof.
  unfold cpu_init. wp_step. eapply wp_mono; [apply wp_modify_reg|]. intros _ c1 (S1 & H1 & _).
  wp_step. eapply wp_mono; [apply wp_modify_reg|]. intros _ c2 (S2 & H2 & _). wp_step. eapply wp_mono; [apply wp_modify_reg|]. intros _ c3 (S3 & H3 & _).
  eapply wp_mono; [apply wp_modify_reg|]. intros _ c4 (S4 & H4 & _). split; [eauto using same_core_trans|]. intros r Hm Hc.
  rewrite H4, decide_False, H3, decide_False, H2, decide_False, H1, decide_False by done. done.
Qed.

Lemma wp_mmu_init p c : table_addr p → wp (mmu_init p) (λ _ c', same_core c c' ∧ upper_ready (seen c') ∧ baddr (seen c' TTBR1_EL1) = p ∧ seen c' TTBR0_EL1 = seen c TTBR0_EL1) c.
Proof.
  intros Hp. unfold mmu_init. wp_step. eapply wp_mono; [apply wp_modify_reg|]. intros _ c1 (S1 & H1 & _).
  wp_step. eapply wp_mono; [apply wp_modify_reg|]. intros _ c2 (S2 & H2 & _). wp_step. eapply wp_mono; [by apply wp_write_baddr|]. intros _ c3 (S3 & Hb & H3).
  eapply wp_mono; [apply wp_modify_reg|]. intros _ c4 (S4 & H4 & _). split; [eauto using same_core_trans|]. rewrite !H4, !decide_False by done.
  split; [|split; [done|]].
  - split; rewrite H4; [rewrite decide_False by done|rewrite decide_False by done|rewrite decide_True by done].
    + rewrite H3, H2, decide_False by done. rewrite H1, decide_True by done. apply fields_hold, mair_separate.
    + rewrite H3, H2, decide_True by done. apply fields_hold. by apply (separate_app _ _ tcr_separate).
    + apply fields_hold, sctlr_separate.
  - rewrite H3, H2, decide_False, H1, decide_False by done. done.
Qed.

(** The settings made under the names of the EL1 registers are in the EL1
    registers, whether or not the names were redirected before. *)
Lemma wp_mmu_init_post_exit c : current_el c = 1 ∨ current_el c = 2 →
  wp mmu_init_post_exit (λ _ c', current_el c' = current_el c ∧ redirected c' = false ∧ ∀ r, r ≠ CPACR_EL1 → at_el1 c' r = seen c r) c.
Proof.
  intros He. unfold mmu_init_post_exit, get_reg. wp_step. unfold wp at 1, gets. destruct (Z.eqb_spec (current_el c) 2) as [E|E].
  2:{ assert (redirected c = false) as Hr by (unfold redirected; by rewrite (proj2 (Z.eqb_neq _ _) E)). wp_steps. split; [done|]. split; [done|].
      intros r _. unfold seen. by rewrite Hr. }
  do 5 (wp_step; unfold wp at 1, gets; cbn beta iota). fold (seen c MAIR_EL1). fold (seen c TCR_EL1). fold (seen c TTBR0_EL1). fold (seen c TTBR1_EL1). fold (seen c SCTLR_EL1).
  wp_step. unfold modify_el2, get_el2. wp_step. unfold wp at 1, gets. unfold wp at 1, set_el2, modify. set (c0 := {| el2 := upd _ _ _ |}).
  assert (redirected c0 = false) as H0.
  { unfold redirected, c0, upd. cbn [current_el el2]. rewrite decide_True by done. rewrite E. cbn [fields foldl f_lo f_width f_value].
    unfold E2H. rewrite testbit_set_bits by lia. done. }
  cbn beta iota. wp_step. eapply wp_mono; [apply wp_set_reg|]. intros _ c1 (S1 & R1 & _). wp_step. eapply wp_mono; [apply wp_set_reg|]. intros _ c2 (S2 & R2 & _).
  wp_step. eapply wp_mono; [apply wp_set_reg|]. intros _ c3 (S3 & R3 & _). wp_step. eapply wp_mono; [apply wp_set_reg|]. intros _ c4 (S4 & R4 & _).
  eapply wp_mono; [apply wp_set_reg|]. intros _ c5 (S5 & R5 & _). assert (same_core c0 c5) as S by eauto 10 using same_core_trans.
  assert (redirected c5 = false) as Hr5 by by rewrite (same_core_redirected c0). split; [apply S|]. split; [done|]. intros r Hr.
  assert (at_el1 c5 r = seen c5 r) as -> by (unfold seen; by rewrite Hr5). rewrite R5, R4, R3, R2, R1. destruct r; done.
Qed.

(** Entering the kernel. *)
Lemma wp_drop_to_el1 entry arg c : current_el c = 1 ∨ current_el c = 2 →
  wp (drop_to_el1 entry arg) (λ _ c', current_el c' = 1 ∧ pc c' = entry ∧ x0 c' = arg ∧ at_el1 c' = at_el1 c ∧ (current_el c = 2 → daif c' = DAIF_MASKED)) c.
Proof.
  intros He. unfold drop_to_el1. wp_step. unfold wp at 1, gets. destruct (Z.eqb_spec (current_el c) 2) as [E|E].
  - unfold modify_el2, get_el2. wp_steps. by cbn.
  - wp_steps. by cbn; destruct He.
Qed.

(** The kernel's own set-up: both halves are translated with the same
    granule and the table given for the lower half is in place. *)
Theorem init_mmu_spec t c : table_addr t →
  wp (init_mmu (Some t)) (λ _ c', same_core c c' ∧ upper_ready (seen c') ∧ Forall (holds (seen c' TCR_EL1)) tcr_lower ∧
    baddr (seen c' TTBR0_EL1) = t ∧ seen c' TTBR1_EL1 = seen c TTBR1_EL1) c.
Proof.
  intros Ht. destruct (separate_app _ _ tcr_separate) as (T1 & T2 & T3). unfold init_mmu, write_reg.
  wp_step. eapply wp_mono; [apply wp_set_reg|]. intros _ c1 (S1 & H1 & _). wp_step. eapply wp_mono; [apply wp_modify_reg|]. intros _ c2 (S2 & H2 & _).
  wp_step. eapply wp_mono; [by apply wp_write_baddr|]. intros _ c3 (S3 & Hb & H3). wp_step. eapply wp_mono; [apply wp_modify_reg|]. intros _ c4 (S4 & H4 & _).
  eapply wp_mono; [apply wp_modify_reg|]. intros _ c5 (S5 & H5 & _). split; [eauto 10 using same_core_trans|].
  rewrite !H5, !decide_False by done. rewrite (H4 TCR_EL1), decide_True by done. split; [split|split; [|split]].
  - rewrite H5, decide_False, H4, decide_False, H3, H2, decide_False, H1, decide_True by done. apply fields_hold, mair_separate.
  - rewrite H5, decide_False, H4, decide_True, H3, H2, decide_True by done. apply Forall_forall. intros f Hf. pose proof (proj1 (Forall_forall _ _) T3 f Hf) as Hd.
    apply fields_other; [by apply (proj1 (Forall_forall _ _) (separate_ok _ T1))|by apply separate_ok|done|].
    by apply (proj1 (Forall_forall _ _) (fields_hold tcr_upper (seen c1 TCR_EL1) T1)).
  - rewrite H5, decide_True by done. apply fields_hold, sctlr_separate.
  - by apply fields_hold.
  - by rewrite H4, decide_False.
  - rewrite H4, decide_False, H3, H2, decide_False, H1, decide_False by done. done.
Qed.
End effects.
