(* ===== verification/Elf.v ===== *)
(** * Loading the kernel image

    Models [load_kernel] of [bootloader/src/elf.rs] and the ELF structures of
    [bootloader/src/main.rs]: the file is read, its headers are checked, the
    span of the loadable segments is computed, memory is allocated, the
    segments are copied and protected, and the place of the entry point is
    returned.

    The UEFI services are a class of operations on the firmware's state.
    Memory is a map from addresses to bytes, whose domain is the memory the
    loader owns; a write elsewhere is [BadDeref], as is a header read past the
    end of the file buffer.  The casts of the buffer to header structures are
    modelled as little-endian reads, without their alignment. *)

From S2P Require Import Prelude Bytes Vm.

Definition UEFI_PAGE_SIZE : Z := 4096.
(** [Status::LOAD_ERROR] *)
Definition LOAD_ERROR : Z := 2 ^ 63 + 1.
Definition U64_MAX : Z := 2 ^ 64 - 1.

Definition PT_LOAD : Z := 1.

Record Elf64Ehdr := {
  e_ident : list Z; e_type : Z; e_machine : Z; e_version : Z; e_entry : Z; e_phoff : Z; e_shoff : Z; e_flags : Z;
  e_ehsize : Z; e_phentsize : Z; e_phnum : Z; e_shentsize : Z; e_shnum : Z; e_shstrndx : Z
}.
Record Elf64Phdr := { p_type : Z; p_flags : Z; p_offset : Z; p_vaddr : Z; p_paddr : Z; p_filesz : Z; p_memsz : Z; p_align : Z }.

(** [size_of::<Elf64Ehdr>()] and [size_of::<Elf64Phdr>()] *)
Definition EHDR_SIZE : Z := 64.
Definition PHDR_SIZE : Z := 56.

(** A little-endian field of [n] bytes. *)
Definition field (l : list Z) (off n : nat) : Z := from_le (take n (drop off l)).

Definition Elf64Ehdr_at (l : list Z) : Elf64Ehdr := {|
  e_ident := take 16 l; e_type := field l 16 2; e_machine := field l 18 2; e_version := field l 20 4;
  e_entry := field l 24 8; e_phoff := field l 32 8; e_shoff := field l 40 8; e_flags := field l 48 4;
  e_ehsize := field l 52 2; e_phentsize := field l 54 2; e_phnum := field l 56 2; e_shentsize := field l 58 2;
  e_shnum := field l 60 2; e_shstrndx := field l 62 2
|}.
Definition Elf64Phdr_at (l : list Z) : Elf64Phdr := {|
  p_type := field l 0 4; p_flags := field l 4 4; p_offset := field l 8 8; p_vaddr := field l 16 8;
  p_paddr := field l 24 8; p_filesz := field l 32 8; p_memsz := field l 40 8; p_align := field l 48 8
|}.

(** [PhdrFlags] *)
Definition FLAG_EXEC : Z := 0x1.
Definition FLAG_WRITE : Z := 0x2.
Definition FLAG_READ : Z := 0x4.
Definition contains (flags f : Z) : bool := Z.land flags f =? f.

(** [MemoryAttribute] *)
Definition READ_PROTECT : Z := 0x2000.
Definition EXECUTE_PROTECT : Z := 0x4000.

(** ** Interfaces *)

(** The services of the firmware that the loader uses.  [read] returns the
    bytes it puts at the start of the buffer; [allocate_pages] the address of
    the pages and what they hold. *)
Class Uefi (U : Type) := {
  get_info : M U (result Z Z);
  memory_protection : M U bool;
  set_position : Z → M U (result Z unit);
  read : Z → M U (result Z (list Z));
  allocate_pages : Z → M U (result Z (Z * list Z));
  set_memory_attributes : Z → Z → Z → M U (result Z unit)
}.

(** [TTENATIVE::align_down] of [aarch64_cpu_ext]. *)
Class TteAlign := { tte_align_down : Z → Z }.

Record Loader (U : Type) := { firmware : U; memory : gmap Z Z }.
Arguments firmware {U} _.
Arguments memory {U} _.

Section elf.
Context {U : Type} {UE : Uefi U} {TD : TteAlign}.

Definition set_memory (m : gmap Z Z) (s : Loader U) : Loader U := {| firmware := firmware s; memory := m |}.
Definition uefi {A} (c : M U A) : M (Loader U) A := λ s,
  match c (firmware s) with Done (a, u) => Done (a, {| firmware := u; memory := memory s |}) | Fault f => Fault f end.

Definition write_byte (a b : Z) : M (Loader U) unit := λ s,
  if decide (is_Some (memory s !! a)) then Done (tt, set_memory (<[a := b]> (memory s)) s) else Fault BadDeref.
Fixpoint write_bytes (a : Z) (l : list Z) : M (Loader U) unit :=
  match l with
  | [] => ret tt
  | b :: l' => write_byte a b ;; write_bytes (a + 1) l'
  end.
Definition zero_bytes (a n : Z) : M (Loader U) unit := write_bytes a (replicate (Z.to_nat n) 0).

(** [boot::allocate_pages]: the pages become the loader's. *)
Definition allocate (n : Z) : M (Loader U) (result Z Z) :=
  try r := uefi (allocate_pages n) in
  modify (λ s, set_memory (map_seqZ r.1 r.2 ∪ memory s) s) ;;
  ret (Ok r.1).

(** The loop that fills the buffer; [got] is what has been read. *)
Fixpoint read_all (fuel : nat) (file_size : Z) (got : list Z) : M (Loader U) (result Z (list Z)) :=
  if file_size <=? Z.of_nat (length got) then ret (Ok got)
  else match fuel with
  | O => fail OutOfFuel
  | S fuel' =>
      try bs := uefi (read (file_size - Z.of_nat (length got))) in
      if bool_decide (bs = []) then ret (Ok got) else read_all fuel' file_size (got ++ bs)
  end.

(** [&*(elf_bytes.as_ptr().add(off) as *const Elf64Phdr)] *)
Definition phdr (elf : list Z) (off : Z) : M (Loader U) Elf64Phdr := λ s,
  if off + PHDR_SIZE <=? Z.of_nat (length elf) then Done (Elf64Phdr_at (drop (Z.to_nat off) elf), s) else Fault BadDeref.

(** The bounds of the loadable segments. *)
Fixpoint span_loop (n : nat) (i : Z) (elf : list Z) (phoff phentsize min_vaddr max_vaddr : Z) : M (Loader U) (Z * Z) :=
  match n with
  | O => ret (min_vaddr, max_vaddr)
  | S n' =>
      let* ph := phdr elf (phoff + i * phentsize) in
      if p_type ph =? PT_LOAD then
        let min_vaddr := if p_vaddr ph <? min_vaddr then p_vaddr ph else min_vaddr in
        let end_ := Z.min (p_vaddr ph + p_memsz ph) U64_MAX in
        let max_vaddr := if max_vaddr <? end_ then end_ else max_vaddr in
        span_loop n' (i + 1) elf phoff phentsize min_vaddr max_vaddr
      else span_loop n' (i + 1) elf phoff phentsize min_vaddr max_vaddr
  end.

Definition attributes (flags : Z) : Z :=
  Z.lor (if contains flags FLAG_READ then 0 else READ_PROTECT) (if contains flags FLAG_EXEC then 0 else EXECUTE_PROTECT).

(** One iteration of the loop that loads the segments. *)
Definition load_segment (elf : list Z) (ph : Elf64Phdr) (min_vaddr base_phys : Z) : M (Loader U) (result Z unit) :=
  let file_off := p_offset ph in
  let filesz := p_filesz ph in
  let memsz := p_memsz ph in
  let vaddr := tte_align_down (p_vaddr ph) in
  assert (negb (contains (p_flags ph) FLAG_WRITE && contains (p_flags ph) FLAG_EXEC)) ;;
  let* file_end := expect (checked_add 64 file_off filesz) in
  if Z.of_nat (length elf) <? file_end then ret (Err LOAD_ERROR) else
  let* offset := expect (checked_sub vaddr min_vaddr) in
  let* dst := expect (checked_add 64 base_phys offset) in
  let* start_align := expect (align_up dst PAGE_SIZE) in
  let* dst_end := expect (checked_add 64 dst filesz) in
  let* end_align := expect (align_up dst_end PAGE_SIZE) in
  write_bytes dst (take (Z.to_nat filesz) (drop (Z.to_nat file_off) elf)) ;;
  (if filesz <? memsz then zero_bytes (dst + filesz) (memsz - filesz) else ret tt) ;;
  let* r := uefi (set_memory_attributes start_align end_align (attributes (p_flags ph))) in
  match r with
  | Ok _ => ret (Ok tt)
  | Err _ => fail Panic
  end.

Fixpoint load_loop (n : nat) (i : Z) (elf : list Z) (phoff phentsize min_vaddr base_phys : Z) : M (Loader U) (result Z unit) :=
  match n with
  | O => ret (Ok tt)
  | S n' =>
      let* ph := phdr elf (phoff + i * phentsize) in
      if negb (p_type ph =? PT_LOAD) then load_loop n' (i + 1) elf phoff phentsize min_vaddr base_phys
      else load_segment elf ph min_vaddr base_phys ;? load_loop n' (i + 1) elf phoff phentsize min_vaddr base_phys
  end.

(** The image is in memory: from the check of the header on. *)
Definition load_image (elf : list Z) : M (Loader U) (result Z (Z * Z * Z * Z)) :=
  if Z.of_nat (length elf) <? EHDR_SIZE then ret (Err LOAD_ERROR) else
  let ehdr := Elf64Ehdr_at elf in
  if negb (bool_decide (take 4 (e_ident ehdr) = [0x7F; 0x45; 0x4C; 0x46])) || negb (bool_decide (e_ident ehdr !! 4%nat = Some 2)) ||
     negb (bool_decide (e_ident ehdr !! 5%nat = Some 1)) then ret (Err LOAD_ERROR) else
  let phoff := e_phoff ehdr in
  let phentsize := e_phentsize ehdr in
  let phnum := e_phnum ehdr in
  let* size := expect (checked_mul 64 phnum phentsize) in
  let* end_ := expect (checked_add 64 phoff size) in
  if Z.of_nat (length elf) <? end_ then ret (Err LOAD_ERROR) else
  let* '(min_vaddr, max_vaddr) := span_loop (Z.to_nat phnum) 0 elf phoff phentsize U64_MAX 0 in
  if min_vaddr =? U64_MAX then ret (Err LOAD_ERROR) else
  let* load_span := expect (checked_sub max_vaddr min_vaddr) in
  let* load_size := expect (align_up load_span UEFI_PAGE_SIZE) in
  let pages := load_size / UEFI_PAGE_SIZE in
  let extra := PAGE_SIZE / UEFI_PAGE_SIZE in
  try alloc_ptr := allocate (pages + extra) in
  let* base_phys := expect (align_up alloc_ptr PAGE_SIZE) in
  zero_bytes base_phys (pages * UEFI_PAGE_SIZE) ;;
  load_loop (Z.to_nat phnum) 0 elf phoff phentsize min_vaddr base_phys ;?
  let entry_vaddr := e_entry ehdr in
  if (entry_vaddr <? min_vaddr) || (max_vaddr <=? entry_vaddr) then ret (Err LOAD_ERROR) else
  let entry_offset := entry_vaddr - min_vaddr in
  let* entry_paddr := expect (checked_add 64 base_phys entry_offset) in
  ret (Ok (entry_offset, min_vaddr, base_phys, load_size)).

Definition load_kernel : M (Loader U) (result Z (Z * Z * Z * Z)) :=
  try file_size := uefi get_info in
  let* p := uefi memory_protection in
  assert p ;;
  uefi (set_position 0) ;?
  try elf := read_all (Z.to_nat file_size) file_size [] in
  if negb (Z.of_nat (length elf) =? file_size) then ret (Err LOAD_ERROR) else
  load_image elf.
End elf.
