(* ===== verification/ElfTheorems.v ===== *)
(** * The image of the kernel in memory

    For a well-formed file [load_kernel] succeeds and memory holds the image
    that the program headers describe, at one displacement from the virtual
    addresses, with everything else of the loaded range zero; malformed files
    are refused, and what the checks let through is shown by examples. *)

From S2P Require Import Prelude Bytes Vm Elf.

(** ** What the loader relies on *)

(** [held] are the addresses of the pages that have been handed out,
    [available] is the number of pages that are left. *)
Class UefiLaws (U : Type) {UE : Uefi U} := {
  fw_ok : U → Prop;
  content : U → list Z;
  position : U → Z;
  available : U → Z;
  held : U → Z → Prop;
  same_fw (u u' : U) := fw_ok u' ∧ content u' = content u ∧ available u' = available u ∧ ∀ x, held u' x ↔ held u x;
  available_bound u : fw_ok u → available u * UEFI_PAGE_SIZE ≤ 2 ^ VA_WIDTH;
  get_info_law u : fw_ok u → ∃ u', get_info u = Done (Ok (Z.of_nat (length (content u))), u') ∧ same_fw u u';
  memory_protection_law u : fw_ok u → ∃ u', memory_protection u = Done (true, u') ∧ same_fw u u';
  set_position_law u p : fw_ok u → ∃ u', set_position p u = Done (Ok tt, u') ∧ same_fw u u' ∧ position u' = p;
  read_law u n : fw_ok u → 0 ≤ position u → 0 < n → ∃ bs u', read n u = Done (Ok bs, u') ∧ same_fw u u' ∧
    Z.of_nat (length bs) ≤ n ∧ position u' = position u + Z.of_nat (length bs) ∧
    bs = take (length bs) (drop (Z.to_nat (position u)) (content u)) ∧ (position u < Z.of_nat (length (content u)) → bs ≠ []);
  allocate_pages_law u n : fw_ok u → 0 < n → ∃ r u', allocate_pages n u = Done (r, u') ∧
    match r with
    | Ok (ptr, l) => fw_ok u' ∧ content u' = content u ∧ available u - n ≤ available u' ∧
        Z.of_nat (length l) = n * UEFI_PAGE_SIZE ∧ (UEFI_PAGE_SIZE | ptr) ∧ 0 < ptr ∧ ptr + n * UEFI_PAGE_SIZE ≤ 2 ^ VA_WIDTH ∧
        (∀ x, ptr ≤ x < ptr + n * UEFI_PAGE_SIZE → ¬ held u x) ∧ (∀ x, held u' x ↔ held u x ∨ ptr ≤ x < ptr + n * UEFI_PAGE_SIZE)
    | Err _ => available u < n
    end;
  set_attributes_law u s e at_ : fw_ok u → s < e → (UEFI_PAGE_SIZE | s) → (UEFI_PAGE_SIZE | e) →
    ∃ u', set_memory_attributes s e at_ u = Done (Ok tt, u') ∧ same_fw u u'
}.

Class TteAlignLaws {TD : TteAlign} := { tte_align_down_law a : 0 ≤ a < 2 ^ 64 → tte_align_down a = PAGE_SIZE * (a / PAGE_SIZE) }.

(** ** The image *)

(** The program headers, as the loops visit them. *)
Fixpoint headers (elf : list Z) (phoff phentsize : Z) (n : nat) (i : Z) : list Elf64Phdr :=
  match n with
  | O => []
  | S n' => Elf64Phdr_at (drop (Z.to_nat (phoff + i * phentsize)) elf) :: headers elf phoff phentsize n' (i + 1)
  end.

Definition loadable (ph : Elf64Phdr) : Prop := p_type ph = PT_LOAD.
#[global] Instance loadable_dec ph : Decision (loadable ph).
Proof. unfold loadable. apply _. Defined.

Definition segments (elf : list Z) : list Elf64Phdr :=
  let e := Elf64Ehdr_at elf in filter loadable (headers elf (e_phoff e) (e_phentsize e) (Z.to_nat (e_phnum e)) 0).

Definition seg_end (ph : Elf64Phdr) : Z := Z.min (p_vaddr ph + p_memsz ph) U64_MAX.
Definition low (phs : list Elf64Phdr) : Z := foldr (λ ph m, Z.min (p_vaddr ph) m) U64_MAX phs.
Definition high (phs : list Elf64Phdr) : Z := foldr (λ ph m, Z.max (seg_end ph) m) 0 phs.

(** The byte a segment puts at a virtual address. *)
Definition seg_byte (elf : list Z) (ph : Elf64Phdr) (a : Z) : option Z :=
  if decide (p_vaddr ph ≤ a < p_vaddr ph + p_filesz ph) then elf !! Z.to_nat (p_offset ph + (a - p_vaddr ph))
  else if decide (p_vaddr ph ≤ a < p_vaddr ph + p_memsz ph) then Some 0 else None.

Definition overlay (elf : list Z) (phs : list Elf64Phdr) (f : Z → Z) (a : Z) : Z :=
  foldl (λ acc ph, match seg_byte elf ph a with Some b => b | None => acc end) (f a) phs.
Definition image (elf : list Z) (a : Z) : Z := overlay elf (segments elf) (λ _, 0) a.

Record seg_ok (elf : list Z) (ph : Elf64Phdr) : Prop := {
  so_aligned : (PAGE_SIZE | p_vaddr ph);
  so_file : 0 < p_filesz ph ≤ p_memsz ph;
  so_bounds : p_offset ph + p_filesz ph ≤ Z.of_nat (length elf);
  so_end : p_vaddr ph + p_memsz ph < 2 ^ 64;
  so_wx : contains (p_flags ph) FLAG_WRITE && contains (p_flags ph) FLAG_EXEC = false
}.

Record elf_ok (elf : list Z) : Prop := {
  eo_bytes : bytes_ok elf;
  eo_size : EHDR_SIZE ≤ Z.of_nat (length elf) < 2 ^ 47;
  eo_magic : take 6 elf = [0x7F; 0x45; 0x4C; 0x46; 2; 1];
  eo_entsize : PHDR_SIZE ≤ e_phentsize (Elf64Ehdr_at elf);
  eo_table : e_phoff (Elf64Ehdr_at elf) + e_phnum (Elf64Ehdr_at elf) * e_phentsize (Elf64Ehdr_at elf) ≤ Z.of_nat (length elf);
  eo_segments : Forall (seg_ok elf) (segments elf);
  eo_entry : low (segments elf) ≤ e_entry (Elf64Ehdr_at elf) < high (segments elf)
}.

(** What the image occupies, in pages of the firmware. *)
Definition image_size (elf : list Z) : Z := UEFI_PAGE_SIZE * ((high (segments elf) - low (segments elf) + UEFI_PAGE_SIZE - 1) / UEFI_PAGE_SIZE).

Lemma field_range l off n : bytes_ok l → 0 ≤ field l off n < 2 ^ (8 * Z.of_nat n).
Proof.
  intros Hl. unfold field. pose proof (from_le_range (take n (drop off l))) as H. destruct H as [H1 H2]; [by apply Forall_take, Forall_drop|].
  split; [done|]. eapply Z.lt_le_trans; [exact H2|]. apply Z.pow_le_mono_r; [lia|]. rewrite length_take. lia.
Qed.

Definition word (x : Z) : Prop := 0 ≤ x < 2 ^ 64.

Lemma phdr_words l : bytes_ok l → let ph := Elf64Phdr_at l in word (p_offset ph) ∧ word (p_vaddr ph) ∧ word (p_filesz ph) ∧ word (p_memsz ph).
Proof. intros Hl. by split_and!; apply (field_range _ _ 8). Qed.

(** ** Memory *)

Section loading.
Context {U : Type} {UE : Uefi U} {UL : UefiLaws U} {TD : TteAlign} {TDL : TteAlignLaws}.
Implicit Types (s : Loader U).

Lemma same_fw_refl (u : U) : fw_ok u → same_fw u u.
Proof. done. Qed.

Lemma same_fw_trans (u1 u2 u3 : U) : same_fw u1 u2 → same_fw u2 u3 → same_fw u1 u3.
Proof. intros (_ & C1 & A1 & H1) (F2 & C2 & A2 & H2). split_and!; [done|congruence|congruence|]. intros x. by rewrite H2, H1. Qed.

(** The loader owns [n] bytes at [a]. *)
Definition owned s (a n : Z) : Prop := ∀ x, a ≤ x < a + n → is_Some (memory s !! x).

Lemma wp_load_bytes l : ∀ a s, owned s a (Z.of_nat (length l)) → wp (write_bytes a l) (λ _ s', firmware s' = firmware s ∧
  ∀ x, memory s' !! x = if decide (a ≤ x < a + Z.of_nat (length l)) then l !! Z.to_nat (x - a) else memory s !! x) s.
Proof.
  induction l as [|b l IH]; intros a s Ho; cbn [write_bytes].
  { wp_steps. split; [done|]. intros x. rewrite decide_False; [done|cbn [length]; lia]. }
  cbn [length] in *. wp_step. unfold wp at 1, write_byte. rewrite decide_True by (apply Ho; lia).
  eapply wp_mono; [apply IH|].
  - intros x Hx. cbn [memory set_memory]. destruct (decide (x = a)) as [->|]; [by rewrite lookup_insert_eq|]. rewrite lookup_insert_ne by done. apply Ho. lia.
  - intros _ s' [Hf Hm]. split; [done|]. intros x. rewrite Hm. cbn [memory set_memory]. destruct (decide (x = a)) as [->|Hne].
    + rewrite lookup_insert_eq, Z.sub_diag. repeat case_decide; (done || lia).
    + destruct (decide (a ≤ x < a + Z.of_nat (S (length l)))) as [Hin|Hin].
      * rewrite decide_True by lia. replace (Z.to_nat (x - a)) with (S (Z.to_nat (x - (a + 1)))) by lia. done.
      * rewrite decide_False by lia. by rewrite lookup_insert_ne.
Qed.

Lemma wp_zero_bytes a n s : 0 ≤ n → owned s a n → wp (zero_bytes a n) (λ _ s', firmware s' = firmware s ∧
  ∀ x, memory s' !! x = if decide (a ≤ x < a + n) then Some 0 else memory s !! x) s.
Proof.
  intros Hn Ho. unfold zero_bytes. eapply wp_mono; [apply wp_load_bytes; by rewrite length_replicate, Z2Nat.id|].
  intros _ s' [Hf Hm]. split; [done|]. intros x. rewrite Hm, length_replicate, Z2Nat.id by done. case_decide; [|done]. apply lookup_replicate_2. lia.
Qed.

Lemma wp_uefi {A} (c : M U A) (Q : A → Loader U → Prop) s a u : c (firmware s) = Done (a, u) → Q a {| firmware := u; memory := memory s |} → wp (uefi c) Q s.
Proof. intros E H. unfold wp, uefi. by rewrite E. Qed.

(** ** Reading the file *)

Lemma wp_read_all file : ∀ fuel got s, fw_ok (firmware s) → content (firmware s) = file → got = take (length got) file →
  position (firmware s) = Z.of_nat (length got) → (length file ≤ length got + fuel)%nat →
  wp (read_all fuel (Z.of_nat (length file)) got) (λ r s', r = Ok file ∧ same_fw (firmware s) (firmware s') ∧ memory s' = memory s) s.
Proof.
  assert (∀ got, got = take (length got) file → (length file ≤ length got)%nat → got = file) as Hall.
  { intros got Hg H. rewrite Hg. by apply take_ge. }
  induction fuel as [|fuel IH]; intros got s Hf Hc Hg Hp Hl; cbn [read_all]; destruct (Z.leb_spec (Z.of_nat (length file)) (Z.of_nat (length got))).
  1,3: wp_steps; split; [|done]; f_equal; apply Hall; [done|lia].
  { lia. }
  destruct (read_law (firmware s) (Z.of_nat (length file) - Z.of_nat (length got)) Hf) as (bs & u & E & Hsf & Hn & Hp' & Hbs & Hne); [lia|lia|].
  apply wp_try. eapply wp_uefi; [exact E|]. cbn beta iota. rewrite Hp, Nat2Z.id in *. rewrite Hc in Hbs, Hne. rewrite bool_decide_eq_false_2 by (apply Hne; lia).
  eapply wp_mono; [apply IH|]; cbn [firmware memory].
  - apply Hsf.
  - rewrite <- Hc. apply Hsf.
  - rewrite Hg at 1. rewrite Hbs at 1. rewrite length_app, take_take_drop. done.
  - rewrite Hp', length_app. lia.
  - assert (bs ≠ []) as Hb by (apply Hne; lia). destruct bs; [done|]. rewrite length_app. cbn [length]. lia.
  - intros r s' (-> & Hs' & Hm). split; [done|]. split; [by eapply same_fw_trans|done].
Qed.

(** ** The headers *)

Lemma wp_phdr elf off s (Q : Elf64Phdr → Loader U → Prop) : off + PHDR_SIZE ≤ Z.of_nat (length elf) → Q (Elf64Phdr_at (drop (Z.to_nat off) elf)) s → wp (phdr elf off) Q s.
Proof. intros H HQ. unfold wp, phdr. by rewrite (proj2 (Z.leb_le _ _)). Qed.

(** The table of headers from entry [i] on lies in the file. *)
Definition table_in (elf : list Z) (phoff es : Z) (n : nat) (i : Z) : Prop := PHDR_SIZE ≤ es ∧ phoff + (i + Z.of_nat n) * es ≤ Z.of_nat (length elf).

Lemma table_in_S elf phoff es n i : table_in elf phoff es (S n) i → phoff + i * es + PHDR_SIZE ≤ Z.of_nat (length elf) ∧ table_in elf phoff es n (i + 1).
Proof. unfold table_in, PHDR_SIZE. intros [H1 H2]. split; [|split; [done|]]; nia. Qed.

Lemma wp_span_loop elf phoff es n : ∀ i lo hi s, table_in elf phoff es n i → let phs := filter loadable (headers elf phoff es n i) in
  wp (span_loop n i elf phoff es lo hi) (λ r s', r = (foldl (λ m ph, Z.min (p_vaddr ph) m) lo phs, foldl (λ m ph, Z.max (seg_end ph) m) hi phs) ∧ s' = s) s.
Proof.
  induction n as [|n IH]; intros i lo hi s Ht; cbn [span_loop headers]; [by wp_steps|]. apply table_in_S in Ht as [Hb Ht].
  wp_step. apply wp_phdr; [done|]. rewrite filter_cons. unfold loadable at 1 2. set (ph := Elf64Phdr_at _). destruct (Z.eqb_spec (p_type ph) PT_LOAD) as [E|E].
  - rewrite !decide_True by done. cbn [foldl]. eapply wp_mono; [by apply IH|]. intros r s' [-> ->]. split; [|done]. fold (seg_end ph). f_equal; f_equal.
    + destruct (Z.ltb_spec (p_vaddr ph) lo); lia.
    + destruct (Z.ltb_spec hi (seg_end ph)); lia.
  - rewrite !decide_False by done. by apply IH.
Qed.

Lemma low_foldl phs m : foldl (λ m ph, Z.min (p_vaddr ph) m) m phs = Z.min m (foldr (λ ph m, Z.min (p_vaddr ph) m) m phs).
Proof. revert m. induction phs as [|ph phs IH]; intros m; cbn; [lia|]. rewrite IH. clear IH. induction phs as [|q phs IH]; cbn; lia. Qed.

Lemma high_foldl phs m : foldl (λ m ph, Z.max (seg_end ph) m) m phs = Z.max m (foldr (λ ph m, Z.max (seg_end ph) m) m phs).
Proof. revert m. induction phs as [|ph phs IH]; intros m; cbn; [lia|]. rewrite IH. clear IH. induction phs as [|q phs IH]; cbn; lia. Qed.

Lemma low_le phs ph : ph ∈ phs → low phs ≤ p_vaddr ph.
Proof. unfold low. induction 1 as [|? ? ? ? IH]; cbn [foldr]; lia. Qed.

Lemma high_ge phs ph : ph ∈ phs → seg_end ph ≤ high phs.
Proof. unfold high. induction 1 as [|? ? ? ? IH]; cbn [foldr]; lia. Qed.

Lemma low_elem phs : low phs = U64_MAX ∨ ∃ ph, ph ∈ phs ∧ low phs = p_vaddr ph.
Proof.
  unfold low. induction phs as [|ph phs IH]; [by left|]. cbn [foldr]. destruct (Z.min_spec (p_vaddr ph) (foldr (λ ph m, Z.min (p_vaddr ph) m) U64_MAX phs)) as [[_ ->]|[_ ->]].
  - right. exists ph. split; [left|done].
  - destruct IH as [->|(q & Hq & ->)]; [by left|right]. exists q. split; [by right|done].
Qed.

Lemma high_bound phs : 0 ≤ high phs ≤ U64_MAX.
Proof. unfold high, seg_end, U64_MAX. induction phs as [|ph phs IH]; cbn [foldr]; lia. Qed.

(** ** Segments *)

Lemma align_up_page a : 0 ≤ a < 2 ^ 63 → ∃ b, align_up a PAGE_SIZE = Some b ∧ (PAGE_SIZE | b) ∧ a ≤ b < a + PAGE_SIZE.
Proof.
  intros Ha. change PAGE_SIZE with (2 ^ 14). rewrite align_up_eq by lia. change (2 ^ 14) with 16384. rewrite (proj2 (Z.ltb_lt _ _)) by lia.
  eexists. split; [done|]. split; [apply Z.divide_factor_l|]. Z.div_mod_to_equations. lia.
Qed.

(** The memory that the image goes to. *)
Record room_for s (base n : Z) : Prop := {
  rf_base : 0 < base;
  rf_aligned : (PAGE_SIZE | base);
  rf_end : base + n ≤ 2 ^ VA_WIDTH;
  rf_owned : owned s base n;
  rf_fw : fw_ok (firmware s)
}.

Lemma room_for_kept s s' base n : room_for s base n → fw_ok (firmware s') → (∀ x, is_Some (memory s !! x) → is_Some (memory s' !! x)) → room_for s' base n.
Proof. intros [H1 H2 H3 H4 H5] Hf Hm. split; try done. intros x Hx. by apply Hm, H4. Qed.

(** The address in memory of a virtual address. *)
Definition placed (base lo a : Z) : Z := base + (a - lo).

(** Copying a segment and zeroing its tail. *)
Lemma wp_copy_segment elf ph dst s : word (p_offset ph) → seg_ok elf ph → owned s dst (p_memsz ph) →
  wp (write_bytes dst (take (Z.to_nat (p_filesz ph)) (drop (Z.to_nat (p_offset ph)) elf)) ;;
      (if p_filesz ph <? p_memsz ph then zero_bytes (dst + p_filesz ph) (p_memsz ph - p_filesz ph) else ret tt))
    (λ _ s', firmware s' = firmware s ∧ ∀ x, memory s' !! x = match seg_byte elf ph (p_vaddr ph + (x - dst)) with Some b => Some b | None => memory s !! x end) s.
Proof.
  intros [Ho _] [_ Hfm Hb _ _] Hown. set (data := take _ _). assert (Z.of_nat (length data) = p_filesz ph) as Hlen.
  { unfold data. rewrite length_take, length_drop. lia. }
  wp_step. eapply wp_mono; [apply wp_load_bytes; intros x Hx; apply Hown; lia|]. intros _ s1 [Hf1 Hm1]. rewrite Hlen in Hm1.
  assert (∀ x, dst ≤ x < dst + p_filesz ph → seg_byte elf ph (p_vaddr ph + (x - dst)) = data !! Z.to_nat (x - dst)) as Hdata.
  { intros x Hx. unfold seg_byte, data. rewrite decide_True by lia. rewrite lookup_take_lt, lookup_drop by lia. f_equal. lia. }
  assert (∀ x, dst ≤ x < dst + p_filesz ph → is_Some (data !! Z.to_nat (x - dst))) as Hsome by (intros x Hx; apply lookup_lt_is_Some_2; lia).
  assert (∀ s', firmware s' = firmware s1 → (∀ x, memory s' !! x = if decide (dst + p_filesz ph ≤ x < dst + p_memsz ph) then Some 0 else memory s1 !! x) →
    firmware s' = firmware s ∧ ∀ x, memory s' !! x = match seg_byte elf ph (p_vaddr ph + (x - dst)) with Some b => Some b | None => memory s !! x end) as Hfin.
  { intros s' Hf Hm. split; [by rewrite Hf|]. intros x. rewrite Hm, Hm1. destruct (decide (dst ≤ x < dst + p_filesz ph)) as [Hx|Hx].
    - rewrite (decide_False (P := _ ≤ x < _)) by lia. rewrite Hdata by done. destruct (Hsome x Hx) as [b ->]. done.
    - unfold seg_byte. rewrite (decide_False (P := p_vaddr ph ≤ _ < p_vaddr ph + p_filesz ph)) by lia. repeat case_decide; (done || lia). }
  destruct (Z.ltb_spec (p_filesz ph) (p_memsz ph)).
  - eapply wp_mono; [apply wp_zero_bytes; [lia|]|].
    + intros x Hx. rewrite Hm1. case_decide; [by apply Hsome|]. apply Hown. lia.
    + intros _ s2 [Hf2 Hm2]. apply Hfin; [done|]. intros x. rewrite Hm2. replace (dst + p_filesz ph + (p_memsz ph - p_filesz ph)) with (dst + p_memsz ph) by lia. done.
  - wp_steps. apply Hfin; [done|]. intros x. by rewrite decide_False by lia.
Qed.

Lemma wp_load_segment elf ph lo base n s : word (p_offset ph) → 0 ≤ lo ≤ p_vaddr ph → (PAGE_SIZE | lo) → seg_ok elf ph → p_vaddr ph + p_memsz ph - lo ≤ n →
  Z.of_nat (length elf) < 2 ^ 64 → room_for s base n →
  wp (load_segment elf ph lo base) (λ r s', r = Ok tt ∧ room_for s' base n ∧ same_fw (firmware s) (firmware s') ∧
    ∀ a, memory s' !! placed base lo a = match seg_byte elf ph a with Some b => Some b | None => memory s !! placed base lo a end) s.
Proof.
  intros Hoff Hlo Hpl Hs Hn Hlen Hr. pose proof Hs as [Hal Hfm Hb He Hwx]. pose proof Hr as [Hb0 Hba Hbe Hbo Hbf]. change (2 ^ VA_WIDTH) with (2 ^ 48) in Hbe.
  unfold load_segment. rewrite tte_align_down_law by lia. destruct Hal as [k Hk].
  assert (PAGE_SIZE * (p_vaddr ph / PAGE_SIZE) = p_vaddr ph) as -> by (rewrite Hk, Z.div_mul by done; lia).
  wp_step. apply wp_assert; [by rewrite Hwx|]. unfold word in Hoff.
  wp_step. eapply wp_expect; [unfold checked_add; rewrite (proj2 (Z.ltb_lt _ _)); [done|lia]|]. rewrite (proj2 (Z.ltb_ge _ _)) by lia.
  wp_step. eapply wp_expect; [unfold checked_sub; rewrite (proj2 (Z.leb_le _ _)); [done|lia]|].
  wp_step. eapply wp_expect; [unfold checked_add; rewrite (proj2 (Z.ltb_lt _ _)); [done|lia]|]. fold (placed base lo (p_vaddr ph)). set (dst := placed base lo (p_vaddr ph)).
  assert (0 < dst ∧ dst + p_memsz ph ≤ 2 ^ 48) as Hdst by (unfold dst, placed; lia).
  assert ((PAGE_SIZE | dst)) as Hda by (apply Z.divide_add_r; [done|apply Z.divide_sub_r; [by exists k|done]]).
  destruct (align_up_page dst) as (st & Est & Hst & Hst'); [lia|]. wp_step. eapply wp_expect; [exact Est|].
  assert (st = dst) as -> by (destruct Hst as [x ->], Hda as [y Ey]; rewrite Ey in *; change PAGE_SIZE with 16384 in *; lia).
  wp_step. eapply wp_expect; [unfold checked_add; rewrite (proj2 (Z.ltb_lt _ _)); [done|lia]|].
  destruct (align_up_page (dst + p_filesz ph)) as (en & Een & Hen & Hen'); [lia|]. wp_step. eapply wp_expect; [exact Een|].
  apply wp_assoc. eapply wp_mono; [apply wp_copy_segment; [done|done|]|].
  { intros x Hx. apply Hbo. unfold dst, placed in Hx. lia. }
  intros _ s1 [Hf1 Hm1]. destruct (set_attributes_law (firmware s1) dst en (attributes (p_flags ph))) as (u & Eu & Hu).
  { by rewrite Hf1. } { lia. } { eapply Z.divide_trans; [|exact Hda]. by exists 4. } { eapply Z.divide_trans; [|exact Hen]. by exists 4. }
  wp_step. eapply wp_uefi; [exact Eu|]. cbn beta iota. wp_steps. split; [done|]. cbn [firmware memory].
  split; [eapply room_for_kept; [exact Hr|apply Hu|]|split; [by rewrite <- Hf1|]].
  - intros x Hx. cbn [memory]. rewrite Hm1. by destruct (seg_byte _ _ _).
  - intros a. rewrite Hm1. unfold dst, placed. by replace (p_vaddr ph + (base + (a - lo) - (base + (p_vaddr ph - lo)))) with a by lia.
Qed.

Lemma wp_load_loop elf phoff es lo base n m : bytes_ok elf → 0 ≤ lo → (PAGE_SIZE | lo) → Z.of_nat (length elf) < 2 ^ 64 → ∀ i s f,
  table_in elf phoff es m i → let phs := filter loadable (headers elf phoff es m i) in
  Forall (λ ph, seg_ok elf ph ∧ lo ≤ p_vaddr ph ∧ p_vaddr ph + p_memsz ph - lo ≤ n) phs → room_for s base n →
  (∀ a, lo ≤ a < lo + n → memory s !! placed base lo a = Some (f a)) →
  wp (load_loop m i elf phoff es lo base) (λ r s', r = Ok tt ∧ room_for s' base n ∧ same_fw (firmware s) (firmware s') ∧
    ∀ a, lo ≤ a < lo + n → memory s' !! placed base lo a = Some (overlay elf phs f a)) s.
Proof.
  intros Hby Hlo Hpl Hlen. induction m as [|m IH]; intros i s f Ht; cbn [load_loop headers]; intros Hs Hr Hm; [wp_steps; by pose proof (rf_fw _ _ _ Hr)|]. apply table_in_S in Ht as [Hb Ht].
  wp_step. apply wp_phdr; [done|]. rewrite filter_cons in *. unfold loadable at 1 in Hs. unfold loadable at 2. set (ph := Elf64Phdr_at _) in *.
  destruct (Z.eqb_spec (p_type ph) PT_LOAD) as [E|E]; cbn [negb].
  - rewrite decide_True in Hs by done. rewrite decide_True by done. apply Forall_cons in Hs as [(H1 & H2 & H3) Hs].
    destruct (phdr_words (drop (Z.to_nat (phoff + i * es)) elf)) as (W1 & _); [by apply Forall_drop|]. fold ph in W1.
    apply wp_try. eapply wp_mono; [by apply (wp_load_segment elf ph lo base n s)|]. intros r s1 (-> & Hr1 & Hc1 & Hm1).
    eapply wp_mono; [apply (IH (i + 1) s1 (λ a, match seg_byte elf ph a with Some b => b | None => f a end) Ht Hs Hr1)|].
    + intros a Ha. rewrite Hm1. destruct (seg_byte elf ph a); [done|]. by apply Hm.
    + intros r s2 (-> & Hr2 & Hc2 & Hm2). split; [done|]. split; [done|]. split; [by eapply same_fw_trans|]. exact Hm2.
  - rewrite decide_False in Hs by done. rewrite decide_False by done. by apply IH.
Qed.

(** ** The whole image *)

Lemma ident_checks elf : (6 ≤ length elf)%nat → take 6 elf = [0x7F; 0x45; 0x4C; 0x46; 2; 1] →
  take 4 (take 16 elf) = [0x7F; 0x45; 0x4C; 0x46] ∧ take 16 elf !! 4%nat = Some 2 ∧ take 16 elf !! 5%nat = Some 1.
Proof. do 6 (destruct elf as [|? elf]; [done|]). cbn. by intros _ [= -> -> -> -> -> ->]. Qed.

Lemma segments_words elf : bytes_ok elf → Forall (λ ph, word (p_vaddr ph)) (segments elf).
Proof.
  intros Hb. unfold segments. apply Forall_forall. intros ph [_ Hin]%list_elem_of_filter. revert Hin. generalize 0 as i.
  induction (Z.to_nat (e_phnum (Elf64Ehdr_at elf))) as [|n IH]; intros i; cbn [headers]; [by intros ?%elem_of_nil|].
  intros [->|H]%elem_of_cons; [|by apply (IH (i + 1))]. apply (field_range _ _ 8). by apply Forall_drop.
Qed.

Lemma segments_low elf : elf_ok elf → (∃ ph, ph ∈ segments elf ∧ low (segments elf) = p_vaddr ph) ∧ 0 ≤ low (segments elf) < high (segments elf) ∧ (PAGE_SIZE | low (segments elf)).
Proof.
  intros E. pose proof (eo_entry _ E). pose proof (high_bound (segments elf)). destruct (low_elem (segments elf)) as [Hm|(ph & Hin & Hl)]; [lia|].
  pose proof (proj1 (Forall_forall _ _) (eo_segments _ E) ph Hin) as Hs. pose proof (proj1 (Forall_forall _ _) (segments_words elf (eo_bytes _ E)) ph Hin) as [Hw _].
  split; [by exists ph|]. split; [lia|]. rewrite Hl. apply Hs.
Qed.

Lemma segments_within elf : elf_ok elf →
  Forall (λ ph, seg_ok elf ph ∧ low (segments elf) ≤ p_vaddr ph ∧ p_vaddr ph + p_memsz ph - low (segments elf) ≤ image_size elf) (segments elf).
Proof.
  intros E. apply Forall_forall. intros ph Hin. pose proof (proj1 (Forall_forall _ _) (eo_segments _ E) ph Hin) as Hs. split; [done|].
  split; [by apply low_le|]. pose proof (high_ge _ _ Hin) as Hh. pose proof (so_end _ _ Hs). unfold seg_end, U64_MAX in Hh. rewrite Z.min_l in Hh by lia.
  unfold image_size, UEFI_PAGE_SIZE. Z.div_mod_to_equations. lia.
Qed.

(** [n] pages were taken from the firmware, and [len] bytes at [base] are among
    them. *)
Definition took (n base len : Z) (u u' : U) : Prop := fw_ok u' ∧ content u' = content u ∧ available u - n ≤ available u' ∧
  (∀ x, held u x → held u' x) ∧ ∀ x, base ≤ x < base + len → ¬ held u x ∧ held u' x.

Lemma took_same n base len u1 u2 u3 u4 : same_fw u1 u2 → took n base len u2 u3 → same_fw u3 u4 → took n base len u1 u4.
Proof.
  intros (_ & C1 & A1 & H1) (_ & C2 & A2 & H2 & H3) (F3 & C3 & A3 & H4). split_and!; [done|congruence|lia| |].
  - intros x Hx. apply H4, H2. by apply H1.
  - intros x Hx. rewrite H4, <- H1. by apply H3.
Qed.

(** The allocation, rounded up to a page of the kernel. *)
Lemma wp_allocate n s : fw_ok (firmware s) → 0 < n → n + 4 ≤ available (firmware s) →
  wp (try ptr := allocate (n + 4) in let* base := expect (align_up ptr PAGE_SIZE) in ret (Ok base))
    (λ r s', ∃ base, r = Ok base ∧ room_for s' base (n * UEFI_PAGE_SIZE) ∧ took (n + 4) base (n * UEFI_PAGE_SIZE) (firmware s) (firmware s')) s.
Proof.
  intros Hf Hn Ha. destruct (allocate_pages_law (firmware s) (n + 4) Hf) as ([[ptr l]|x] & u & E & Hal); [lia| |lia]. destruct Hal as (Hu & Hc & Hav & Hl & Hal & H0 & Hend & Hh1 & Hh2).
  unfold allocate. apply wp_try. apply wp_try. eapply wp_uefi; [exact E|]. cbn beta iota. wp_steps. change (2 ^ VA_WIDTH) with (2 ^ 48) in Hend.
  destruct (align_up_page ptr) as (base & Eb & Hba & Hb); [unfold UEFI_PAGE_SIZE in *; lia|]. eapply wp_expect; [exact Eb|]. wp_steps.
  assert (base ≤ ptr + 12288) as Hb' by (destruct Hal as [x ->], Hba as [y ->]; unfold UEFI_PAGE_SIZE in *; change PAGE_SIZE with 16384 in *; lia).
  unfold UEFI_PAGE_SIZE in *.
  exists base. split; [done|]. cbn [firmware memory set_memory]. split; [split|].
  - lia.
  - done.
  - change (2 ^ VA_WIDTH) with (2 ^ 48). lia.
  - intros x Hx. cbn [memory set_memory fst snd]. destruct (lookup_lt_is_Some_2 l (Z.to_nat (x - ptr))) as [b Eq]; [lia|]. exists b.
    apply lookup_union_Some_l. rewrite lookup_map_seqZ, option_guard_True by lia. done.
  - done.
  - split_and!; [done|done|done| |].
    + intros x Hx. apply Hh2. by left.
    + intros x Hx. split; [apply Hh1; lia|]. apply Hh2. right. lia.
Qed.

Lemma wp_try_let {S E A B C} (c : M S (result E A)) (d : A → M S B) (k : B → M S (result E C)) Q (s : S) :
  wp (try x := c in let* y := d x in ret (Ok y)) (λ r (t : S), match r with Ok y => wp (k y) Q t | Err e => Q (Err e) t end) s →
  wp (try x := c in let* y := d x in k y) Q s.
Proof.
  unfold wp, try_, bind. destruct (c s) as [[[x|e] s']|]; [|done|done]. by destruct (d x s') as [[y s'']|].
Qed.

(** Where the image is: [base] for the lowest address. *)
Definition loaded elf (base : Z) s : Prop := (PAGE_SIZE | base) ∧ 0 < base ∧ base + image_size elf ≤ 2 ^ VA_WIDTH ∧
  ∀ a, low (segments elf) ≤ a < low (segments elf) + image_size elf → memory s !! placed base (low (segments elf)) a = Some (image elf a).

Lemma wp_load_image elf s : elf_ok elf → fw_ok (firmware s) → image_size elf / UEFI_PAGE_SIZE + 4 ≤ available (firmware s) →
  wp (load_image elf) (λ r s', ∃ base, loaded elf base s' ∧ took (image_size elf / UEFI_PAGE_SIZE + 4) base (image_size elf) (firmware s) (firmware s') ∧
    r = Ok (e_entry (Elf64Ehdr_at elf) - low (segments elf), low (segments elf), base, image_size elf)) s.
Proof.
  intros E Hf Ha. pose proof E as [Hby Hsz Hmag Hes Htab Hseg Hent]. unfold load_image, EHDR_SIZE in *. rewrite (proj2 (Z.ltb_ge _ _)) by lia.
  destruct (ident_checks elf) as (M1 & M2 & M3); [lia|done|]. cbn [e_ident Elf64Ehdr_at]. rewrite M1, M2, M3, !bool_decide_eq_true_2 by done. cbn [negb orb].
  set (eh := Elf64Ehdr_at elf) in *. assert (0 ≤ e_phnum eh < 2 ^ 16) as Hpn by (by apply (field_range _ _ 2)). assert (0 ≤ e_phentsize eh < 2 ^ 16) as Hpe by (by apply (field_range _ _ 2)).
  assert (0 ≤ e_phoff eh) as Hpo by (by apply (field_range _ _ 8)).
  wp_step. eapply wp_expect; [unfold checked_mul; rewrite (proj2 (Z.ltb_lt _ _)); [done|nia]|].
  wp_step. eapply wp_expect; [unfold checked_add; rewrite (proj2 (Z.ltb_lt _ _)); [done|nia]|]. rewrite (proj2 (Z.ltb_ge _ _)) by nia.
  assert (table_in elf (e_phoff eh) (e_phentsize eh) (Z.to_nat (e_phnum eh)) 0) as Hti by (split; [done|]; rewrite Z2Nat.id by lia; nia).
  wp_step. eapply wp_mono; [by apply wp_span_loop|]. intros lh s0 [Er ->]. change (filter loadable _) with (segments elf) in Er. rewrite low_foldl, high_foldl in Er.
  destruct (segments_low elf E) as (_ & Hlh & Hpl). pose proof (high_bound (segments elf)) as Hhb.
  fold (low (segments elf)) in Er. fold (high (segments elf)) in Er. rewrite Z.min_r, Z.max_r in Er by lia. subst lh. cbn beta iota.
  rewrite (proj2 (Z.eqb_neq _ _)) by lia. wp_step. eapply wp_expect; [unfold checked_sub; rewrite (proj2 (Z.leb_le _ _)); [done|lia]|].
  pose proof (available_bound _ Hf) as Hav. change (2 ^ VA_WIDTH) with (2 ^ 48) in Hav.
  assert (0 < image_size elf / UEFI_PAGE_SIZE ∧ image_size elf / UEFI_PAGE_SIZE * UEFI_PAGE_SIZE = image_size elf ∧ high (segments elf) - low (segments elf) ≤ image_size elf) as (Hi0 & Hi1 & Hi2).
  { unfold image_size, UEFI_PAGE_SIZE. Z.div_mod_to_equations. lia. }
  wp_step. eapply wp_expect; [change UEFI_PAGE_SIZE with (2 ^ 12); rewrite align_up_eq by lia; rewrite (proj2 (Z.ltb_lt _ _)); [done|unfold UEFI_PAGE_SIZE in *; lia]|].
  change (2 ^ 12) with UEFI_PAGE_SIZE. fold (image_size elf). apply wp_try_let. change (PAGE_SIZE / UEFI_PAGE_SIZE) with 4.
  eapply wp_mono; [by apply (wp_allocate (image_size elf / UEFI_PAGE_SIZE))|]. intros r s1 (base & -> & Hr & Htk). rewrite Hi1 in Hr, Htk.
  wp_step. rewrite Hi1. eapply wp_mono; [apply wp_zero_bytes; [lia|apply Hr]|]. intros _ s2 [Hf2 Hm2].
  assert (room_for s2 base (image_size elf)) as Hr2.
  { eapply room_for_kept; [exact Hr|rewrite Hf2; apply Hr|]. intros x Hx. rewrite Hm2. by case_decide. }
  apply wp_try. eapply wp_mono; [apply (wp_load_loop elf _ _ (low (segments elf)) base (image_size elf) _ Hby ltac:(lia) Hpl ltac:(lia) 0 s2 (λ _, 0) Hti); [|exact Hr2|]|].
  - by apply segments_within.
  - intros a Ha'. rewrite Hm2, decide_True; [done|]. unfold placed. lia.
  - intros r s3 (-> & Hr3 & Hs3 & Hm3). pose proof Hr3 as [G1 G2 G3 _ _]. rewrite (proj2 (Z.ltb_ge _ _)), (proj2 (Z.leb_gt _ _)) by lia. cbn [orb].
    change (2 ^ VA_WIDTH) with (2 ^ 48) in G3. wp_step. eapply wp_expect; [unfold checked_add; rewrite (proj2 (Z.ltb_lt _ _)); [done|lia]|]. wp_steps. exists base. split; [by split_and!|].
    split; [|done]. rewrite <- Hf2 in Htk. by eapply took_same; [apply same_fw_refl|exact Htk|exact Hs3].
Qed.

Lemma wp_load_kernel s elf : fw_ok (firmware s) → content (firmware s) = elf → elf_ok elf →
  image_size elf / UEFI_PAGE_SIZE + 4 ≤ available (firmware s) →
  wp load_kernel (λ r s', ∃ base, loaded elf base s' ∧ took (image_size elf / UEFI_PAGE_SIZE + 4) base (image_size elf) (firmware s) (firmware s') ∧
    r = Ok (e_entry (Elf64Ehdr_at elf) - low (segments elf), low (segments elf), base, image_size elf)) s.
Proof.
  intros Hf Hc E Ha. unfold load_kernel.
  destruct (get_info_law _ Hf) as (u1 & E1 & S1). apply wp_try. eapply wp_uefi; [exact E1|]. cbn beta iota. rewrite Hc.
  destruct (memory_protection_law u1) as (u2 & E2 & S2); [apply S1|]. wp_step. eapply wp_uefi; [exact E2|]. wp_step. apply wp_assert; [done|].
  destruct (set_position_law u2 0) as (u3 & E3 & S3 & P3); [apply S2|]. apply wp_try. eapply wp_uefi; [exact E3|]. cbn beta iota.
  pose proof (same_fw_trans _ _ _ S1 (same_fw_trans _ _ _ S2 S3)) as S. pose proof S as (F & C & _).
  apply wp_try. rewrite Nat2Z.id. eapply wp_mono; [apply (wp_read_all elf); [done|cbn [firmware]; congruence|done|done|done]|].
  intros r s4 (-> & S4 & _). rewrite Z.eqb_refl. cbn [negb firmware] in *. pose proof (same_fw_trans _ _ _ S S4) as S'. pose proof S' as (F4 & _ & A4 & _).
  eapply wp_mono; [apply wp_load_image; [done|done|by rewrite A4]|]. intros r s5 (base & Hl & Ht & ->). exists base. split; [done|]. split; [|done].
  eapply took_same; [exact S'|exact Ht|apply same_fw_refl, Ht].
Qed.

(** C11: Loading a well-formed kernel file: [load_kernel] reads the whole file
    however the firmware splits the reads, and with enough free pages it
    returns the offset of the entry point, the lowest address, the physical
    base, a multiple of the kernel's page size, and the size; memory then
    holds the byte the program headers give for every address of the loaded
    range, zero where no segment is. *)
Theorem load_kernel_spec s elf : fw_ok (firmware s) → content (firmware s) = elf → elf_ok elf →
  image_size elf / UEFI_PAGE_SIZE + 4 ≤ available (firmware s) →
  wp load_kernel (λ r s', ∃ base, r = Ok (e_entry (Elf64Ehdr_at elf) - low (segments elf), low (segments elf), base, image_size elf) ∧
    (PAGE_SIZE | base) ∧ 0 < base ∧ base + image_size elf ≤ 2 ^ VA_WIDTH ∧
    ∀ a, low (segments elf) ≤ a < low (segments elf) + image_size elf → memory s' !! placed base (low (segments elf)) a = Some (image elf a)) s.
Proof.
  intros Hf Hc E Ha. eapply wp_mono; [by apply wp_load_kernel|]. intros r s' (base & (L1 & L2 & L3 & L4) & _ & ->). by exists base.
Qed.

(** A file that is too short, has another magic number, class or byte order,
    or whose header table passes its end is refused before anything is
    allocated; so is one without loadable segments. *)
Theorem load_image_refuses elf s : bytes_ok elf → Z.of_nat (length elf) < 2 ^ 63 → let eh := Elf64Ehdr_at elf in
  Z.of_nat (length elf) < EHDR_SIZE ∨ take 6 elf ≠ [0x7F; 0x45; 0x4C; 0x46; 2; 1] ∨
    (e_phoff eh < 2 ^ 63 ∧ Z.of_nat (length elf) < e_phoff eh + e_phnum eh * e_phentsize eh) ∨
    (table_in elf (e_phoff eh) (e_phentsize eh) (Z.to_nat (e_phnum eh)) 0 ∧ segments elf = []) →
  load_image elf s = Done (Err LOAD_ERROR, s).
Proof.
  intros Hb Hl eh H. unfold load_image. destruct (Z.ltb_spec (Z.of_nat (length elf)) EHDR_SIZE) as [Hs|Hs]; [done|]. unfold EHDR_SIZE in *. fold eh.
  assert (take 6 elf = take 4 (e_ident eh) ++ [default 0 (e_ident eh !! 4%nat); default 0 (e_ident eh !! 5%nat)]) as E6.
  { unfold eh. cbn [e_ident Elf64Ehdr_at]. do 6 (destruct elf as [|? elf]; [cbn in Hs; lia|]). done. }
  destruct (decide (take 4 (e_ident eh) = [0x7F; 0x45; 0x4C; 0x46])) as [M1|M1]; [rewrite (bool_decide_eq_true_2 _ M1)|by rewrite (bool_decide_eq_false_2 _ M1)].
  destruct (decide (e_ident eh !! 4%nat = Some 2)) as [M2|M2]; [rewrite (bool_decide_eq_true_2 _ M2)|by rewrite (bool_decide_eq_false_2 _ M2)].
  destruct (decide (e_ident eh !! 5%nat = Some 1)) as [M3|M3]; [rewrite (bool_decide_eq_true_2 _ M3)|by rewrite (bool_decide_eq_false_2 _ M3)].
  cbn [negb orb]. rewrite M1, M2, M3 in E6. assert (0 ≤ e_phnum eh < 2 ^ 16) as Hpn by (by apply (field_range _ _ 2)).
  assert (0 ≤ e_phentsize eh < 2 ^ 16) as Hpe by (by apply (field_range _ _ 2)). assert (0 ≤ e_phoff eh) as Hpo by (by apply (field_range _ _ 8)).
  destruct H as [H|[H|H]]; [lia|by rewrite E6 in H|]. assert (e_phoff eh < 2 ^ 63) as Hpo'.
  { destruct H as [[? _]|[[_ H] _]]; [done|]. rewrite Z2Nat.id in H by lia. nia. }
  unfold bind, expect, checked_mul, checked_add. rewrite (proj2 (Z.ltb_lt (e_phnum eh * e_phentsize eh) _)) by nia.
  rewrite (proj2 (Z.ltb_lt (e_phoff eh + e_phnum eh * e_phentsize eh) _)) by nia.
  destruct H as [[_ H]|[Ht He]]; [by rewrite (proj2 (Z.ltb_lt _ _))|]. rewrite (proj2 (Z.ltb_ge _ _)) by (destruct Ht as [_ Ht]; rewrite Z2Nat.id in Ht by lia; lia).
  destruct (proj1 (wp_run _ _ _) (wp_span_loop elf (e_phoff eh) (e_phentsize eh) (Z.to_nat (e_phnum eh)) 0 U64_MAX 0 s Ht)) as (r & s' & E & Er & ->).
  rewrite E. change (filter loadable _) with (segments elf) in Er. rewrite He in Er. cbn in Er. by subst r.
Qed.

(** The lowest segment must start on a page boundary: otherwise the offset
    of the segment, computed from its rounded address, is negative. *)
Theorem load_segment_unaligned elf ph base s : word (p_vaddr ph) → ¬ (PAGE_SIZE | p_vaddr ph) →
  contains (p_flags ph) FLAG_WRITE && contains (p_flags ph) FLAG_EXEC = false → p_offset ph + p_filesz ph ≤ Z.of_nat (length elf) < 2 ^ 64 →
  load_segment elf ph (p_vaddr ph) base s = Fault Panic.
Proof.
  intros Hw Hn Hwx Hf. unfold load_segment, bind, assert, expect, checked_add, checked_sub. rewrite Hwx. cbn [negb].
  rewrite (proj2 (Z.ltb_lt _ _)), (proj2 (Z.ltb_ge _ _)) by lia. rewrite tte_align_down_law by done.
  rewrite (proj2 (Z.leb_gt _ _)); [done|]. assert (p_vaddr ph mod PAGE_SIZE ≠ 0) as Hm by (intros H; by apply Hn, Z.mod_divide).
  change PAGE_SIZE with 16384 in *. Z.div_mod_to_equations. lia.
Qed.
End loading.

(** ** A firmware *)

Module DemoFirmware.

(** The file, the position in it and the pages handed out; a read returns at
    most 50 bytes. *)
Record Fw := { file : list Z; pos : Z; used : Z }.

#[global] Instance demo_uefi : Uefi Fw := {
  get_info u := Done (Ok (Z.of_nat (length (file u))), u);
  memory_protection u := Done (true, u);
  set_position p u := Done (Ok tt, {| file := file u; pos := p; used := used u |});
  read n u := let bs := take (Z.to_nat (Z.min n 50)) (drop (Z.to_nat (pos u)) (file u)) in
    Done (Ok bs, {| file := file u; pos := pos u + Z.of_nat (length bs); used := used u |});
  allocate_pages n u :=
    if decide (used u + n ≤ 4096) then
      Done (Ok (0x45000 + used u * UEFI_PAGE_SIZE, replicate (Z.to_nat (n * UEFI_PAGE_SIZE)) 0xAA), {| file := file u; pos := pos u; used := used u + n |})
    else Done (Err (2 ^ 63 + 9), u);
  set_memory_attributes _ _ _ u := Done (Ok tt, u)
}.

#[global] Instance demo_align : TteAlign := {| tte_align_down a := align_down a PAGE_SIZE |}.

#[global] Instance demo_align_laws : TteAlignLaws.
Proof. split. intros a Ha. cbn [tte_align_down demo_align]. change PAGE_SIZE with (2 ^ 14). by apply align_down_eq. Qed.

#[global, refine] Instance demo_uefi_laws : UefiLaws Fw := {
  fw_ok u := 0 ≤ used u; content := file; position := pos; available u := 4096 - used u; held u x := 0x45000 ≤ x < 0x45000 + used u * UEFI_PAGE_SIZE
}.
Proof.
  - intros u Hu. change (2 ^ VA_WIDTH) with (2 ^ 48). unfold UEFI_PAGE_SIZE. lia.
  - intros u Hu. by exists u.
  - intros u Hu. by exists u.
  - intros u p Hu. eexists. by split.
  - intros u n Hu Hp Hn. eexists _, _. split; [done|]. cbn [file pos]. split; [done|]. rewrite length_take, length_drop. split_and!.
    + lia.
    + lia.
    + rewrite <- take_take. f_equal. rewrite take_ge; [done|]. by rewrite length_drop.
    + intros Hlt E%(f_equal length). rewrite length_take, length_drop in E. cbn in E. lia.
  - intros u n Hu Hn. unfold allocate_pages, demo_uefi. destruct (decide (used u + n ≤ 4096)); eexists _, _; (split; [done|]); cbn beta iota in *; [|lia]. cbn [file pos used]. rewrite length_replicate. change (2 ^ VA_WIDTH) with (2 ^ 48).
    unfold UEFI_PAGE_SIZE in *. split_and!; [lia|done|lia|lia| |lia|lia|lia|lia]. exists (69 + used u). lia.
  - intros u st e at_ Hu _ _ _. by eexists.
Defined.
End DemoFirmware.

(** An executable with one segment of four bytes at [0x4000]. *)
Definition demo_elf : list Z :=
  [0x7F; 0x45; 0x4C; 0x46; 2; 1; 1; 0] ++ replicate 8 0 ++ to_le 2 2 ++ to_le 2 0xB7 ++ to_le 4 1 ++ to_le 8 0x4002 ++ to_le 8 64 ++ to_le 8 0 ++ to_le 4 0 ++
  to_le 2 64 ++ to_le 2 56 ++ to_le 2 1 ++ to_le 2 0 ++ to_le 2 0 ++ to_le 2 0 ++
  to_le 4 1 ++ to_le 4 5 ++ to_le 8 120 ++ to_le 8 0x4000 ++ to_le 8 0x4000 ++ to_le 8 4 ++ to_le 8 8 ++ to_le 8 0x4000 ++ [1; 2; 3; 4].

Lemma demo_elf_ok : elf_ok demo_elf.
Proof.
  split.
  - eapply bool_decide_eq_true_1. vm_compute. reflexivity.
  - vm_compute. split; congruence.
  - reflexivity.
  - vm_compute. congruence.
  - vm_compute. congruence.
  - assert (segments demo_elf = [Elf64Phdr_at (drop 64 demo_elf)]) as -> by (vm_compute; reflexivity). apply Forall_singleton. split.
    + by exists 1.
    + vm_compute. split; congruence.
    + vm_compute. congruence.
    + vm_compute. congruence.
    + reflexivity.
  - vm_compute. split; congruence.
Qed.

Lemma load_kernel_spec_witness : ∃ base s', load_kernel {| firmware := {| DemoFirmware.file := demo_elf; DemoFirmware.pos := 7; DemoFirmware.used := 0 |}; memory := ∅ |} =
    Done (Ok (2, 0x4000, base, 4096), s') ∧ memory s' !! (base + 2) = Some 3 ∧ memory s' !! (base + 5) = Some 0.
Proof.
  assert (image_size demo_elf / UEFI_PAGE_SIZE + 4 ≤ 4096 - 0) as Ha by (apply Z.leb_le; vm_compute; reflexivity).
  destruct (proj1 (wp_run _ _ _) (load_kernel_spec (UL := DemoFirmware.demo_uefi_laws) {| firmware := {| DemoFirmware.file := demo_elf; DemoFirmware.pos := 7; DemoFirmware.used := 0 |}; memory := ∅ |} demo_elf ltac:(done) eq_refl demo_elf_ok Ha))
    as (r & s' & E & base & Er & _ & _ & _ & Hm).
  assert (image_size demo_elf = 4096 ∧ low (segments demo_elf) = 0x4000) as [Ei El] by (clear; split; vm_compute; reflexivity). rewrite El, Ei in Hm.
  exists base, s'. split; [|split].
  - rewrite E, Er, El, Ei. reflexivity.
  - clear E. replace (base + 2) with (placed base 0x4000 0x4002) by (unfold placed; lia). rewrite (Hm 0x4002) by lia. clear. vm_compute. reflexivity.
  - clear E. replace (base + 5) with (placed base 0x4000 0x4005) by (unfold placed; lia). rewrite (Hm 0x4005) by lia. clear. vm_compute. reflexivity.
Defined.
