(* ===== verification/Loader.v ===== *)
(** * The boot loader

    Models [main] of [bootloader/src/main.rs] and the table allocator of
    [bootloader/src/allocator.rs]: the kernel image is loaded ([Elf]), mapped
    at its virtual addresses in a page table for the upper half ([Mapper]), an
    identity map is made for the kernel's use, the registers are set up and
    the kernel is entered at EL1 ([SysRegs]) with a pointer to the boot
    information. *)

From S2P Require Import Prelude Bytes Vm Mapper Elf SysRegs.

#[local] Existing Instance UefiAddressTranslator.

(** ** The table allocator *)

Record UefiTableAlloc (U : Type) := { services : U }.
Arguments services {U} _.

(** [size_of::<TTable<TABLE_ENTRIES>>()] *)
Definition TABLE_SIZE : Z := TABLE_ENTRIES * 8.

Section allocator.
Context {U : Type} {UE : Uefi U}.

Definition uefi_alloc_table (a : UefiTableAlloc U) : outcome (Z * UefiTableAlloc U) :=
  let pages := TABLE_SIZE / UEFI_PAGE_SIZE in
  let extra := PAGE_SIZE / UEFI_PAGE_SIZE in
  match allocate_pages (pages + extra) (services a) with
  | Done (Ok r, u) =>
      match align_up r.1 PAGE_SIZE with
      | Some start => if start =? 0 then Fault Panic else Done (start, {| services := u |})
      | None => Fault Panic
      end
  | Done (Err _, _) => Fault Panic
  | Fault f => Fault f
  end.

(** [unimplemented!()] *)
Definition uefi_free_table (table : Z) (a : UefiTableAlloc U) : outcome (UefiTableAlloc U) := Fault Panic.

#[global] Instance uefi_tables : TableAllocator (UefiTableAlloc U) := {| alloc_table := uefi_alloc_table; free_table := uefi_free_table |}.
End allocator.

(** ** The loader *)

Definition MAIR_DEVICE_INDEX : Z := 0.
Definition MAIR_NORMAL_INDEX : Z := 1.
Definition NOT_FOUND : Z := 2 ^ 63 + 14.
Definition UNSUPPORTED : Z := 2 ^ 63 + 3.

(** The services that only [main] uses. *)
Class UefiBoot (U : Type) := {
  helpers_init : M U (result Z unit);
  get_image_file_system : M U (result Z unit);
  open_volume : M U (result Z unit);
  open_kernel : M U (result Z unit);
  is_regular_file : M U (result Z bool);
  exit_boot_services : M U Z;
  system_table_raw : U → option Z
}.

Record BootInfo := {
  kernel_load_physical_address : Z;
  kernel_size : Z;
  page_table_root : option Z;
  serial_uart_address : Z;
  memory_map : Z;
  system_table : Z
}.

(** Page tables with the firmware behind their allocator, the memory of the
    image, the processor, and what was written to the boot information. *)
Record Boot {D : TTE} (U : Type) := { pt : Pt (UefiTableAlloc U); image_memory : gmap Z Z; core : Core; boot_info : option BootInfo }.
Arguments pt {D U} _.
Arguments image_memory {D U} _.
Arguments core {D U} _.
Arguments boot_info {D U} _.

Section main.
Context {U : Type} {UE : Uefi U} {UB : UefiBoot U} {TD : TteAlign} {D : TTE} {TB : Ttbr}.
Context (PrivilegedReadWrite : AccessPermission) (InnerShareable OuterShareable : Shareability).

Definition on_pt {X} (c : M (Pt (UefiTableAlloc U)) X) : M (Boot U) X := λ s,
  match c (pt s) with
  | Done (x, p) => Done (x, {| pt := p; image_memory := image_memory s; core := core s; boot_info := boot_info s |})
  | Fault f => Fault f
  end.
Definition on_core {X} (c : M Core X) : M (Boot U) X := λ s,
  match c (core s) with
  | Done (x, c') => Done (x, {| pt := pt s; image_memory := image_memory s; core := c'; boot_info := boot_info s |})
  | Fault f => Fault f
  end.
Definition on_loader {X} (c : M (Loader U) X) : M (Boot U) X := λ s,
  match c {| firmware := services (alloc_state (pt s)); memory := image_memory s |} with
  | Done (x, l) =>
      Done (x, {| pt := {| tables := tables (pt s); alloc_state := {| services := firmware l |} |}; image_memory := memory l; core := core s; boot_info := boot_info s |})
  | Fault f => Fault f
  end.
Definition on_firmware {X} (c : M U X) : M (Boot U) X := on_loader (uefi c).

(** [Ok(..)] or return a status. *)
Definition or_return {X} (status : Z) (c : M U (result Z X)) : M (Boot U) (result Z X) :=
  let* r := on_firmware c in ret (match r with Ok x => Ok x | Err _ => Err status end).

Definition set_boot_info (b : BootInfo) : M (Boot U) unit :=
  modify (λ s, {| pt := pt s; image_memory := image_memory s; core := core s; boot_info := Some b |}).

Definition kernel_attrs : Attrs := {| access := PrivilegedReadWrite; share := InnerShareable; uxn := true; pxn := false; attr_index := MAIR_NORMAL_INDEX |}.
Definition id_attrs : Attrs := {| access := PrivilegedReadWrite; share := OuterShareable; uxn := true; pxn := false; attr_index := MAIR_DEVICE_INDEX |}.

(** Once the image is loaded: page tables, registers, and the kernel. *)
Definition start_kernel (boot_info_ptr entry_offset base_virt base_phys load_size : Z) : M (Boot U) (result Z unit) :=
  let base_virt_align := align_down base_virt PAGE_SIZE in
  let base_phys_align := align_down base_phys PAGE_SIZE in
  let* load_size_align := expect (align_up load_size PAGE_SIZE) in
  let* entry_vaddr := expect (checked_add 64 base_virt_align entry_offset) in
  let* entry_paddr := expect (checked_add 64 base_phys_align entry_offset) in
  let* root_ttbr1 := on_pt new_table in
  on_pt (map_region root_ttbr1 base_phys_align base_virt_align load_size_align kernel_attrs) ;;
  let* root_ttbr0 := on_pt new_table in
  on_pt (id_map root_ttbr0 id_attrs) ;;
  on_core (mmu_init root_ttbr1) ;;
  let* mem_map_final := on_firmware exit_boot_services in
  on_core mmu_init_post_exit ;;
  let* s := get in
  let* st := expect (system_table_raw (services (alloc_state (pt s)))) in
  set_boot_info {| kernel_load_physical_address := base_phys; kernel_size := load_size; page_table_root := Some root_ttbr0;
                   serial_uart_address := 0x09000000; memory_map := mem_map_final; system_table := st |} ;;
  on_core (drop_to_el1 entry_vaddr boot_info_ptr) ;;
  ret (Ok tt).

(** [Err] is the status that [main] returns; [Ok] that the kernel has been
    entered, which does not return. *)
Definition main (boot_info_ptr : Z) : M (Boot U) (result Z unit) :=
  let* i := on_firmware helpers_init in
  assert (match i with Ok _ => true | Err _ => false end) ;;
  on_core cpu_init ;;
  or_return NOT_FOUND get_image_file_system ;?
  or_return NOT_FOUND open_volume ;?
  or_return NOT_FOUND open_kernel ;?
  try regular := or_return LOAD_ERROR is_regular_file in
  if negb regular then ret (Err UNSUPPORTED) else
  try r := on_loader load_kernel in
  let '(entry_offset, base_virt, base_phys, load_size) := r in
  start_kernel boot_info_ptr entry_offset base_virt base_phys load_size.
End main.
