(* ===== verification/LoaderTheorems.v ===== *)
(** * From the file to the running kernel

    The whole boot loader on a well-formed kernel file: the processor enters
    the kernel at EL1, at the address the file gives, with the upper half
    translated by tables that lead every address of the image to the memory
    that holds its byte. *)

From S2P Require Import Prelude Bytes Vm Mapper MapperSpec MapperProofs MapperTheorems MapperFrame Elf ElfTheorems SysRegs Loader.

#[local] Existing Instance UefiAddressTranslator.

#[global] Instance uefi_translator_laws : AddressTranslatorLaws UefiAddressTranslator.
Proof. split; cbn; try done. intros p Hp. unfold phys_addr in Hp. change VA_WIDTH with 48 in Hp. lia. Qed.

(** ** The allocator of tables *)

Section allocator.
Context {U : Type} {UE : Uefi U} {UL : UefiLaws U}.

Lemma uefi_alloc_run (a : UefiTableAlloc U) : fw_ok (services a) →
  (available (services a) < 8 ∧ uefi_alloc_table a = Fault Panic) ∨
  ∃ p u, uefi_alloc_table a = Done (p, {| services := u |}) ∧ table_addr p ∧ p ≠ 0 ∧ took 8 p PAGE_SIZE (services a) u.
Proof.
  intros Hf. unfold uefi_alloc_table. change (TABLE_SIZE / UEFI_PAGE_SIZE + PAGE_SIZE / UEFI_PAGE_SIZE) with 8.
  destruct (allocate_pages_law (services a) 8 Hf) as ([[ptr l]|e] & u & E & H); [lia| |]; rewrite E; [|by left]. right.
  destruct H as (Hu & Hc & Hav & Hl & Hal & H0 & Hend & Hh1 & Hh2). unfold UEFI_PAGE_SIZE in *. change (2 ^ VA_WIDTH) with (2 ^ 48) in Hend. cbn [fst].
  destruct (align_up_page ptr) as (b & Eb & Hba & Hb); [lia|]. rewrite Eb, (proj2 (Z.eqb_neq _ _)) by lia.
  assert (b ≤ ptr + 12288) as Hb' by (destruct Hal as [x ->], Hba as [y ->]; change PAGE_SIZE with 16384 in *; lia).
  exists b, u. split; [done|]. change PAGE_SIZE with 16384 in *. split; [split; [split; [lia|change (2 ^ VA_WIDTH) with (2 ^ 48); lia]|done]|]. split; [lia|].
  split_and!; [done|done|done| |].
  - intros x Hx. apply Hh2. by left.
  - intros x Hx. split; [apply Hh1; lia|apply Hh2; right; lia].
Qed.

(** The tables [u] are at addresses that the firmware has handed out. *)
Definition uefi_owns (a : UefiTableAlloc U) (u : gset Z) : Prop := fw_ok (services a) ∧ ∀ p, p ∈ u → held (services a) p.

#[global, refine] Instance uefi_tables_laws : TableAllocatorLaws (UefiTableAlloc U) := {
  owns := uefi_owns;
  room a := Z.to_nat (available (services a) / 8)
}.
Proof.
  - intros a u ptr a' [Hf Hu] E. destruct (uefi_alloc_run a Hf) as [[_ E']|(p & fw & E' & Hp & H0 & Ht)]; cbn [alloc_table uefi_tables] in E; rewrite E' in E; [discriminate E|].
    injection E as <- <-. destruct Ht as (Hf' & _ & Hav & Hold & Hnew). exists p. cbn [services]. destruct (Hnew p) as [Hn Hh]; [change PAGE_SIZE with 16384; lia|].
    split; [done|]. split; [done|]. split; [done|]. split; [intros Hin; by apply Hn, Hu|]. split; [split; [done|]|].
    + intros q [->%elem_of_singleton|Hq]%elem_of_union; [done|]. by apply Hold, Hu.
    + cbn [services]. Z.div_mod_to_equations. lia.
  - intros a u [Hf Hu] Hr. destruct (uefi_alloc_run a Hf) as [[Hlt _]|(p & fw & E' & _)]; [Z.div_mod_to_equations; lia|]. by eexists.
Defined.
End allocator.

(** ** Liftings *)

Section lifting.
Context {U : Type} {UE : Uefi U} {D : TTE}.
Implicit Types (s : Boot U).

Definition with_pt (p : Pt (UefiTableAlloc U)) s : Boot U := {| pt := p; image_memory := image_memory s; core := core s; boot_info := boot_info s |}.
Definition with_core (c : Core) s : Boot U := {| pt := pt s; image_memory := image_memory s; core := c; boot_info := boot_info s |}.
Definition with_loader (l : Loader U) s : Boot U :=
  {| pt := {| tables := tables (pt s); alloc_state := {| services := firmware l |} |}; image_memory := memory l; core := core s; boot_info := boot_info s |}.
Definition loader_of s : Loader U := {| firmware := services (alloc_state (pt s)); memory := image_memory s |}.

Lemma wp_on_pt {X} (c : M (Pt (UefiTableAlloc U)) X) (Q : X → Pt (UefiTableAlloc U) → Prop) (R : X → Boot U → Prop) s :
  wp c Q (pt s) → (∀ x p, Q x p → R x (with_pt p s)) → wp (on_pt c) R s.
Proof. intros (x & p & E & HQ)%wp_run HR. unfold wp, on_pt. rewrite E. by apply HR. Qed.

Lemma wp_on_core {X} (c : M Core X) (Q : X → Core → Prop) (R : X → Boot U → Prop) s :
  wp c Q (core s) → (∀ x p, Q x p → R x (with_core p s)) → wp (on_core c) R s.
Proof. intros (x & p & E & HQ)%wp_run HR. unfold wp, on_core. rewrite E. by apply HR. Qed.

Lemma wp_on_loader {X} (c : M (Loader U) X) (Q : X → Loader U → Prop) (R : X → Boot U → Prop) s :
  wp c Q (loader_of s) → (∀ x l, Q x l → R x (with_loader l s)) → wp (on_loader c) R s.
Proof. intros (x & l & E & HQ)%wp_run HR. unfold wp, on_loader. fold (loader_of s). rewrite E. by apply HR. Qed.

Lemma wp_on_firmware {X} (c : M U X) x u (R : X → Boot U → Prop) s : c (services (alloc_state (pt s))) = Done (x, u) →
  R x (with_loader {| firmware := u; memory := image_memory s |} s) → wp (on_firmware c) R s.
Proof. intros E HR. unfold wp, on_firmware, on_loader, uefi. cbn [firmware]. by rewrite E. Qed.
End lifting.

(** ** The loader *)

(** A boot where the firmware finds the kernel file. *)
Class UefiBootLaws (U : Type) {UE : Uefi U} {UL : UefiLaws U} {UB : UefiBoot U} := {
  helpers_init_law u : fw_ok u → ∃ u', helpers_init u = Done (Ok tt, u') ∧ same_fw u u';
  get_image_file_system_law u : fw_ok u → ∃ u', get_image_file_system u = Done (Ok tt, u') ∧ same_fw u u';
  open_volume_law u : fw_ok u → ∃ u', open_volume u = Done (Ok tt, u') ∧ same_fw u u';
  open_kernel_law u : fw_ok u → ∃ u', open_kernel u = Done (Ok tt, u') ∧ same_fw u u';
  is_regular_file_law u : fw_ok u → ∃ u', is_regular_file u = Done (Ok true, u') ∧ same_fw u u';
  exit_boot_services_law u : fw_ok u → ∃ m u' st, exit_boot_services u = Done (m, u') ∧ system_table_raw u' = Some st
}.

(** The pages of the kernel's size that the image takes. *)
Definition image_pages (elf : list Z) : Z := (image_size elf + PAGE_SIZE - 1) / PAGE_SIZE.

(** The image lies in one half of the address space. *)
Record placeable (elf : list Z) : Prop := {
  pl_canon : canon (low (segments elf)) + image_pages elf * PAGE_SIZE ≤ 2 ^ VA_WIDTH;
  pl_64 : low (segments elf) + image_pages elf * PAGE_SIZE ≤ 2 ^ 64
}.

Lemma image_pages_bounds elf : elf_ok elf →
  0 < image_pages elf ∧ image_pages elf * PAGE_SIZE < image_size elf + PAGE_SIZE ∧ image_size elf ≤ image_pages elf * PAGE_SIZE ∧ 0 < image_size elf.
Proof.
  intros E. destruct (segments_low elf E) as (_ & Hlh & _). assert (0 < image_size elf) as Hsz by (unfold image_size, UEFI_PAGE_SIZE; Z.div_mod_to_equations; lia).
  unfold image_pages. change PAGE_SIZE with 16384 in *. Z.div_mod_to_equations. lia.
Qed.

Section loader.
Context {U : Type} {UE : Uefi U} {UL : UefiLaws U} {UB : UefiBoot U} {UBL : UefiBootLaws U}.
Context {TD : TteAlign} {TDL : TteAlignLaws} {D : TTE} {DL : TTELaws D} {TB : Ttbr} {TBL : TtbrLaws}.
Context (RW : AccessPermission) (IS OS : Shareability).
Implicit Types (s : Boot U).

Definition kernel_page_set (base n : Z) : gset Z := list_to_set ((λ i, base + i * PAGE_SIZE) <$> seqZ 0 n).

Lemma elem_of_kernel_page_set base n p : p ∈ kernel_page_set base n ↔ ∃ i, 0 ≤ i < n ∧ p = base + i * PAGE_SIZE.
Proof.
  unfold kernel_page_set. rewrite elem_of_list_to_set, list_elem_of_fmap. setoid_rewrite elem_of_seqZ. split.
  - intros (i & -> & Hi). exists i. split; [lia|done].
  - intros (i & Hi & ->). exists i. split; [done|lia].
Qed.

(** The tables for the upper half: what they map, and that none of them lies
    in the image. *)
Lemma wp_upper_tables elf base a root : elf_ok elf → placeable elf → (PAGE_SIZE | base) → 0 < base → base + image_size elf ≤ 2 ^ VA_WIDTH →
  let X := kernel_page_set base (image_pages elf) in
  table_addr root → owns a ({[root]} ∪ X) → root ∉ X → 3 * image_pages elf ≤ Z.of_nat (room a) →
  wp (map_region root base (low (segments elf)) (image_pages elf * PAGE_SIZE) (kernel_attrs RW IS)) (λ _ p,
    tree (tables p) root ∧ owns (alloc_state p) (dom (tables p) ∪ X) ∧ dom (tables p) ## X ∧
    Z.of_nat (room a) ≤ 3 * image_pages elf + Z.of_nat (room (alloc_state p)) ∧
    ∀ va, low (segments elf) ≤ va < low (segments elf) + image_pages elf * PAGE_SIZE → translate p root va = Some (base + (va - low (segments elf))))
    (zero_root root a).
Proof.
  intros E [Pc P64] Hba H0 Hbe X Hr Ho Hn Hroom. destruct (segments_low elf E) as (_ & Hlh & Hpl). pose proof (high_bound (segments elf)) as Hhb. unfold U64_MAX in Hhb.
  destruct (image_pages_bounds elf E) as (Hnp & Hnp1 & Hnp2 & Hsz).
  assert (base + image_pages elf * PAGE_SIZE ≤ 2 ^ VA_WIDTH) as Hbe'.
  { destruct Hba as [k ->]. change (2 ^ VA_WIDTH) with (17179869184 * PAGE_SIZE) in *. change PAGE_SIZE with 16384 in *. lia. }
  eapply wp_mono; [apply (wp_map_region (TAL := apart_laws X) root root base (low (segments elf)) (image_pages elf) (kernel_attrs RW IS) (zero_root root a))|].
  - apply (zero_root_inv (TAL := apart_laws X)); [done|]. split; [done|set_solver].
  - done.
  - split; [split; [lia|done]|done|done|]. intros k Hk. unfold block_of. by apply zero_root_leaf.
  - split; [split; [lia|change PAGE_SIZE with 16384 in *; lia]|done].
  - done.
  - done.
  - done.
  - intros _ p [Hm Hr']. destruct (rm_inv _ _ _ _ _ _ Hm) as [Tr [Ho' Hd]]. split; [done|]. split; [done|]. split; [done|]. split; [exact Hr'|].
    intros va Hva. rewrite (rm_translate _ _ _ _ _ _ Hm) by lia.
    assert (canon va = canon (low (segments elf)) + (va - low (segments elf))) as Ec.
    { rewrite <- (canon_add (low (segments elf)) (va - low (segments elf))) by lia. f_equal. lia. }
    rewrite decide_True by lia. f_equal. lia.
Qed.

(** The identity map, in tables of its own. *)
Lemma wp_lower_tables m X a root : table_addr root → owns a ({[root]} ∪ (dom m ∪ X)) → root ∉ dom m ∪ X → (2 ≤ room a)%nat →
  wp (id_map root (id_attrs RW OS)) (λ _ p, ∃ p0, p = beside m p0 ∧ tree (tables p0) root ∧ dom (tables p0) ## dom m ∪ X ∧ owns (alloc_state p) (dom (tables p) ∪ X) ∧
    ∀ va, 0 ≤ va < L1_BLOCK_SIZE → translate p root va = Some va) (beside m (zero_root root a)).
Proof.
  intros Hr Ho Hn Hroom. eapply wp_mono; [apply (wp_framed _ (λ _ p0, pt_inv (TAL := apart_laws (dom m ∪ X)) root p0 ∧
    ∀ va, 0 ≤ va → translate p0 root va = if decide (canon va < L1_BLOCK_SIZE) then Some (canon va) else None))|].
  - apply framed_id_map.
  - destruct (id_map_run (TAL := apart_laws (dom m ∪ X)) root root (id_attrs RW OS) (zero_root root a)) as (p & Ep & I & Htr).
    + apply (zero_root_inv (TAL := apart_laws (dom m ∪ X))); [done|]. split; [done|set_solver].
    + done.
    + intros k _. by apply zero_root_descend.
    + done.
    + apply wp_run. exists tt, p. split; [done|]. split; [done|]. intros va Hva. rewrite Htr by done. by rewrite zero_root_translate.
  - intros _ p0 [[_ [_ Hd]] _]. set_solver.
  - intros _ p (p0 & [[Tr [Ho' Hd]] Htr] & ->). exists p0. split; [done|]. split; [done|]. split; [done|]. split.
    + unfold beside. cbn [tables alloc_state set_tables]. rewrite dom_union_L. by rewrite <- union_assoc_L.
    + intros va Hva. rewrite translate_beside, Htr by (done || lia). assert (canon va = va) as ->.
      { unfold canon. apply Z.mod_small. change (2 ^ VA_WIDTH) with 281474976710656. change L1_BLOCK_SIZE with 68719476736 in Hva. lia. }
      by rewrite decide_True by lia.
Qed.

(** What the kernel finds: [base] is where the image is, [root1] and [root0]
    the page tables. *)
Record booted (elf : list Z) (ptr base root1 root0 : Z) s' : Prop := {
  bt_el : current_el (core s') = 1;
  bt_pc : pc (core s') = e_entry (Elf64Ehdr_at elf);
  bt_arg : x0 (core s') = ptr;
  bt_regs : upper_ready (at_el1 (core s'));
  bt_ttbr1 : baddr (at_el1 (core s') TTBR1_EL1) = root1;
  bt_image va : low (segments elf) ≤ va < low (segments elf) + image_size elf →
    ∃ pa, translate (pt s') root1 va = Some pa ∧ image_memory s' !! pa = Some (image elf va);
  bt_apart root q t : root = root1 ∨ root = root0 → path_ok q → descend (tables (pt s')) root q = Some t → t + PAGE_SIZE ≤ base ∨ base + image_size elf ≤ t;
  bt_identity va : 0 ≤ va < L1_BLOCK_SIZE → translate (pt s') root0 va = Some va;
  bt_info : ∃ m st, boot_info s' = Some {| kernel_load_physical_address := base; kernel_size := image_size elf; page_table_root := Some root0;
    serial_uart_address := 0x09000000; memory_map := m; system_table := st |}
}.

(** Tables are pages, so one that starts at no page of the image lies outside
    of it. *)
Lemma outside_image elf base p : (PAGE_SIZE | base) → (PAGE_SIZE | p) → p ∉ kernel_page_set base (image_pages elf) → p + PAGE_SIZE ≤ base ∨ base + image_size elf ≤ p.
Proof.
  intros [x ->] [y ->] Hp. destruct (decide (y < x)) as [|Hge]; [left; change PAGE_SIZE with 16384; lia|]. right.
  destruct (Z.le_gt_cases (image_pages elf) (y - x)) as [Hle|Hgt].
  - unfold image_pages in Hle. revert Hle. generalize (image_size elf). intros n. change PAGE_SIZE with 16384. intros. Z.div_mod_to_equations. lia.
  - exfalso. apply Hp, elem_of_kernel_page_set. exists (y - x). lia.
Qed.

Lemma tree_outside elf base m m' root q t : tree m root → (PAGE_SIZE | base) → dom m ## kernel_page_set base (image_pages elf) → path_ok q →
  descend (m ∪ m') root q = Some t → t + PAGE_SIZE ≤ base ∨ base + image_size elf ≤ t.
Proof.
  intros Tr Hb Hd Hq Ht. rewrite descend_beside in Ht by done. destruct (tr_table _ _ Tr q t Hq Ht) as ([_ Hal] & es & Hes & _).
  apply outside_image; [done|done|]. apply elem_of_dom_2 in Hes. intros Hx. by apply (Hd t).
Qed.

Lemma align_down_page a : 0 ≤ a < 2 ^ 64 → (PAGE_SIZE | a) → align_down a PAGE_SIZE = a.
Proof. intros Ha [k ->]. change PAGE_SIZE with (2 ^ 14) at 2. rewrite align_down_eq by lia. change PAGE_SIZE with (2 ^ 14). rewrite Z.div_mul by done. lia. Qed.

Lemma align_up_image elf : 0 < image_size elf < 2 ^ 48 → align_up (image_size elf) PAGE_SIZE = Some (image_pages elf * PAGE_SIZE).
Proof.
  intros Hs. unfold image_pages. revert Hs. generalize (image_size elf). intros n Hs. change PAGE_SIZE with (2 ^ 14). rewrite align_up_eq by lia.
  rewrite (proj2 (Z.ltb_lt _ _)) by lia. f_equal. lia.
Qed.

(** Both page tables, in one store. *)
Lemma wp_tables elf base s (Q : result Z unit → Boot U → Prop) (k : Z → Z → M (Boot U) (result Z unit)) :
  elf_ok elf → placeable elf → (PAGE_SIZE | base) → 0 < base → base + image_size elf ≤ 2 ^ VA_WIDTH → tables (pt s) = ∅ →
  let X := kernel_page_set base (image_pages elf) in
  owns (alloc_state (pt s)) X → 3 * image_pages elf + 4 ≤ Z.of_nat (room (alloc_state (pt s))) →
  (∀ root1 root0 p, table_addr root1 → fw_ok (services (alloc_state p)) →
     (∀ va, low (segments elf) ≤ va < low (segments elf) + image_pages elf * PAGE_SIZE → translate p root1 va = Some (base + (va - low (segments elf)))) →
     (∀ va, 0 ≤ va < L1_BLOCK_SIZE → translate p root0 va = Some va) →
     (∀ root q t, root = root1 ∨ root = root0 → path_ok q → descend (tables p) root q = Some t → t + PAGE_SIZE ≤ base ∨ base + image_size elf ≤ t) →
     wp (k root1 root0) Q (with_pt p s)) →
  wp (let* root1 := on_pt new_table in
      on_pt (map_region root1 base (low (segments elf)) (image_pages elf * PAGE_SIZE) (kernel_attrs RW IS)) ;;
      let* root0 := on_pt new_table in
      on_pt (id_map root0 (id_attrs RW OS)) ;; k root1 root0) Q s.
Proof.
  intros E Pl Hba H0 Hbe Ht X Ho Hr Hk. destruct (image_pages_bounds elf E) as (Hnp & _). wp_step. eapply wp_on_pt; [apply (wp_new_root X); [by rewrite Ht, dom_empty_L, union_empty_l_L|lia]|].
  intros ptr1 p1 (root1 & a1 & -> & Hta & Ho1 & Hn1 & Hr1 & ->). rewrite Ht, dom_empty_L, union_empty_l_L in *. cbn [phys_to_dmap UefiAddressTranslator].
  assert (beside ∅ (zero_root root1 a1) = zero_root root1 a1) as -> by (unfold beside, set_tables, zero_root; cbn [tables alloc_state]; by rewrite map_union_empty).
  wp_step. eapply wp_on_pt; [by apply (wp_upper_tables elf base a1 root1); try done; lia|]. intros _ p2 (Tr & Ho2 & Hd2 & Hr2 & Htr).
  wp_step. eapply wp_on_pt; [apply (wp_new_root X); [done|]; cbn [pt with_pt]; lia|]. intros ptr0 p3 (root0 & a3 & -> & Hta0 & Ho3 & Hn3 & Hr3 & ->). cbn [pt with_pt] in *.
  cbn [phys_to_dmap UefiAddressTranslator]. wp_step. eapply wp_on_pt; [apply (wp_lower_tables (tables p2) X a3 root0); [done|done|done|lia]|].
  intros _ p4 (p0 & -> & Tr0 & Hd0 & Ho4 & Htr0). apply Hk; [done|apply Ho4| |done|].
  - intros va Hva. rewrite <- Htr by done. pose proof (segments_low elf E) as (_ & Hlow & _). rewrite <- (translate_beside (tables p0) p2) by (done || lia).
    unfold translate, block_of, page_of, beside. cbn [tables set_tables]. by rewrite (map_union_comm (tables p0)) by (apply map_disjoint_dom; set_solver).
  - intros root q t Hroot Hq. unfold beside. cbn [tables set_tables]. destruct Hroot as [->| ->].
    + rewrite (map_union_comm (tables p0)) by (apply map_disjoint_dom; set_solver). by apply tree_outside.
    + apply tree_outside; [done|done|set_solver|done].
Qed.

Lemma wp_start_kernel elf ptr base s : elf_ok elf → placeable elf → (PAGE_SIZE | base) → 0 < base → base + image_size elf ≤ 2 ^ VA_WIDTH → tables (pt s) = ∅ →
  owns (alloc_state (pt s)) (kernel_page_set base (image_pages elf)) → 3 * image_pages elf + 4 ≤ Z.of_nat (room (alloc_state (pt s))) →
  (∀ a, low (segments elf) ≤ a < low (segments elf) + image_size elf → image_memory s !! placed base (low (segments elf)) a = Some (image elf a)) →
  current_el (core s) = 1 ∨ current_el (core s) = 2 →
  wp (start_kernel RW IS OS ptr (e_entry (Elf64Ehdr_at elf) - low (segments elf)) (low (segments elf)) base (image_size elf))
    (λ r s', r = Ok tt ∧ ∃ root1 root0, booted elf ptr base root1 root0 s') s.
Proof.
  intros E Pl Hba H0 Hbe Ht Ho Hr Him Hel. destruct (segments_low elf E) as (_ & Hlh & Hpl). pose proof (high_bound (segments elf)) as Hhb. unfold U64_MAX in Hhb.
  pose proof (eo_entry _ E) as Hent. destruct (image_pages_bounds elf E) as (Hnp & Hnp1 & Hnp2 & Hsz). change (2 ^ VA_WIDTH) with (2 ^ 48) in Hbe. unfold start_kernel.
  rewrite !align_down_page by (done || lia). wp_step. eapply wp_expect; [apply align_up_image; lia|]. wp_step. eapply wp_expect; [unfold checked_add; rewrite (proj2 (Z.ltb_lt _ _)); [done|lia]|].
  wp_step. eapply wp_expect; [unfold checked_add; rewrite (proj2 (Z.ltb_lt _ _)); [done|]|].
  { unfold image_size, UEFI_PAGE_SIZE in *. Z.div_mod_to_equations. lia. }
  apply (wp_tables elf base s _ _ E Pl Hba H0 Hbe Ht Ho Hr). intros root1 root0 p Hroot Hf Htr1 Htr0 Hout.
  wp_step. eapply wp_on_core; [by apply wp_mmu_init|]. intros _ c1 (Sc1 & Hup & Hb1 & _). cbn [core with_pt] in *.
  destruct (exit_boot_services_law _ Hf) as (m & u & st & Eu & Est). wp_step. eapply wp_on_firmware; [exact Eu|].
  wp_step. eapply wp_on_core; [apply wp_mmu_init_post_exit|].
  { cbn [core with_loader with_core]. rewrite (proj1 Sc1). done. }
  intros _ c2 (He2 & _ & Hc2). cbn [core with_loader with_core] in *. wp_step. unfold wp at 1, get. wp_step. eapply wp_expect; [exact Est|].
  wp_step. unfold wp at 1, set_boot_info, modify. wp_step. eapply wp_on_core; [apply wp_drop_to_el1; cbn [core with_core]; by rewrite He2, (proj1 Sc1)|].
  intros _ c3 (He3 & Hpc & Hx0 & H31 & _). cbn [core with_core with_loader with_pt at_el1] in *. wp_steps. split; [done|]. exists root1, root0.
  split; cbn [core with_core with_loader with_pt pt image_memory boot_info tables].
  - done.
  - rewrite Hpc. lia.
  - done.
  - rewrite H31. destruct Hup as [U1 U2 U3]. by split; rewrite Hc2.
  - by rewrite H31, Hc2.
  - intros va Hva. exists (placed base (low (segments elf)) va). split; [|by apply Him]. apply Htr1. lia.
  - exact Hout.
  - exact Htr0.
  - by eexists _, _.
Qed.

Lemma wp_or_return {X} status (c : M U (result Z X)) x u (R : result Z X → Boot U → Prop) s : c (services (alloc_state (pt s))) = Done (Ok x, u) →
  R (Ok x) (with_loader {| firmware := u; memory := image_memory s |} s) → wp (or_return status c) R s.
Proof. intros E HR. unfold or_return. wp_step. eapply wp_on_firmware; [exact E|]. by wp_steps. Qed.

Lemma image_held elf base n u u' : elf_ok elf → took n base (image_size elf) u u' → uefi_owns {| services := u' |} (kernel_page_set base (image_pages elf)).
Proof.
  intros E (Hf & _ & _ & _ & Hh). split; [done|]. intros p (i & Hi & ->)%elem_of_kernel_page_set. destruct (image_pages_bounds elf E) as (_ & Hn & _).
  apply Hh. change PAGE_SIZE with 16384 in *. lia.
Qed.

(** C4: The boot loader from the file to the kernel: on a firmware that finds
    the kernel file, with a well-formed file and enough free pages, [main]
    enters the kernel at EL1 at the file's entry point, with the pointer to
    the boot information as argument; the upper half is translated by tables
    that lead each address of the image to the memory holding the byte the
    file gives it; the tables lie outside the image, and the boot information
    names the image and a page table that maps the first 64 GiB to
    themselves. *)
Theorem main_spec elf ptr s : fw_ok (services (alloc_state (pt s))) → content (services (alloc_state (pt s))) = elf → elf_ok elf → placeable elf →
  tables (pt s) = ∅ → current_el (core s) = 1 ∨ current_el (core s) = 2 →
  image_size elf / UEFI_PAGE_SIZE + 4 + 8 * (3 * image_pages elf + 4) ≤ available (services (alloc_state (pt s))) →
  wp (main RW IS OS ptr) (λ r s', r = Ok tt ∧ ∃ base root1 root0, booted elf ptr base root1 root0 s') s.
Proof.
  intros Hf Hc E Pl Ht Hel Ha. destruct (image_pages_bounds elf E) as (Hnp & _). unfold main.
  destruct (helpers_init_law _ Hf) as (u1 & E1 & S1). wp_step. eapply wp_on_firmware; [exact E1|]. wp_step. apply wp_assert; [done|].
  wp_step. eapply wp_on_core; [apply wp_cpu_init|]. intros _ c1 [Sc1 _]. cbn [core with_loader] in *.
  destruct (get_image_file_system_law u1) as (u2 & E2 & S2); [apply S1|]. apply wp_try. eapply wp_or_return; [exact E2|]. cbn beta iota.
  destruct (open_volume_law u2) as (u3 & E3 & S3); [apply S2|]. apply wp_try. eapply wp_or_return; [exact E3|]. cbn beta iota.
  destruct (open_kernel_law u3) as (u4 & E4 & S4); [apply S3|]. apply wp_try. eapply wp_or_return; [exact E4|]. cbn beta iota.
  destruct (is_regular_file_law u4) as (u5 & E5 & S5); [apply S4|]. apply wp_try. eapply wp_or_return; [exact E5|]. cbn beta iota. cbn [negb].
  assert (same_fw (services (alloc_state (pt s))) u5) as S by eauto 10 using same_fw_trans. destruct S as (F5 & C5 & A5 & _).
  apply wp_try. eapply wp_on_loader; [apply (wp_load_kernel _ elf); cbn [firmware loader_of with_loader with_core pt alloc_state services]|].
  { done. } { by rewrite C5. } { done. } { rewrite A5. lia. }
  cbn [firmware loader_of with_loader with_core pt alloc_state services]. intros r l (base & (L1 & L2 & L3 & L4) & Htk & ->). cbn beta iota.
  eapply wp_mono; [apply (wp_start_kernel elf ptr base)|]; cbn [firmware loader_of with_loader with_core pt alloc_state services tables image_memory core memory]; try done.
  - by eapply image_held.
  - destruct Htk as (_ & _ & Hav & _). rewrite A5 in Hav. cbn [room uefi_tables_laws services]. rewrite Z2Nat.id by (apply Z.div_pos; lia).
    apply Z.div_le_lower_bound; lia.
  - by rewrite (proj1 Sc1).
  - intros r s' (-> & root1 & root0 & Hb). split; [done|]. by exists base, root1, root0.
Qed.

(** Without the kernel file the loader returns, with a status that says so. *)
Theorem main_no_kernel ptr s u1 u2 u3 u4 e : helpers_init (services (alloc_state (pt s))) = Done (Ok tt, u1) → get_image_file_system u1 = Done (Ok tt, u2) →
  open_volume u2 = Done (Ok tt, u3) → open_kernel u3 = Done (Err e, u4) → wp (main RW IS OS ptr) (λ r s', r = Err NOT_FOUND ∧ tables (pt s') = tables (pt s)) s.
Proof.
  intros E1 E2 E3 E4. unfold main. wp_step. eapply wp_on_firmware; [exact E1|]. wp_step. apply wp_assert; [done|].
  wp_step. eapply wp_on_core; [apply wp_cpu_init|]. intros _ c1 _. apply wp_try. eapply wp_or_return; [exact E2|]. cbn beta iota.
  apply wp_try. eapply wp_or_return; [exact E3|]. cbn beta iota. apply wp_try. unfold or_return. wp_step. eapply wp_on_firmware; [exact E4|]. by wp_steps.
Qed.
End loader.

(** ** A boot *)

Module DemoBoot.
Import DemoFirmware.

#[global] Instance demo_uefi_boot : UefiBoot Fw := {
  helpers_init u := Done (Ok tt, u);
  get_image_file_system u := Done (Ok tt, u);
  open_volume u := Done (Ok tt, u);
  open_kernel u := Done (Ok tt, u);
  is_regular_file u := Done (Ok true, u);
  exit_boot_services u := Done (0x7000, u);
  system_table_raw _ := Some 0x8000
}.

#[global] Instance demo_uefi_boot_laws : UefiBootLaws Fw.
Proof. split; intros u Hu; try (by exists u). by exists 0x7000, u, 0x8000. Qed.

#[global] Instance demo_ttbr : Ttbr := {| set_baddr _ p := set_bits 1 47 (Z.shiftr p 1) 0 |}.

#[global] Instance demo_ttbr_laws : TtbrLaws.
Proof.
  split. intros old p [Hp [k Hk]]. cbn [set_baddr demo_ttbr]. unfold baddr. rewrite get_set_bits by lia. unfold phys_addr in Hp. change VA_WIDTH with 48 in Hp.
  rewrite Z.shiftl_mul_pow2, Z.shiftr_div_pow2 by lia. subst p. change PAGE_SIZE with (8192 * 2) in *. rewrite Z.mul_assoc in *. change (2 ^ 1) with 2. rewrite Z.div_mul by done.
  rewrite Z.mod_small by lia. done.
Qed.

(** At EL2, with the names of the registers redirected. *)
Definition demo_core : Core :=
  {| current_el := 2; at_el1 := λ _, 0; at_el2 := λ _, 0; el2 := λ r, if decide (r = HCR_EL2) then 2 ^ E2H else 0; tpidr := 5; daif := 0; x0 := 0; pc := 0 |}.
Definition demo_boot : Boot Fw :=
  {| pt := {| tables := ∅; alloc_state := {| services := {| file := demo_elf; pos := 0; used := 0 |} |} |}; image_memory := ∅; core := demo_core; boot_info := None |}.
End DemoBoot.

Lemma main_spec_witness : ∃ s' root1 pa, main 0 3 2 0x9000 DemoBoot.demo_boot = Done (Ok tt, s') ∧ current_el (core s') = 1 ∧ pc (core s') = 0x4002 ∧ x0 (core s') = 0x9000 ∧
  baddr (at_el1 (core s') TTBR1_EL1) = root1 ∧ translate (pt s') root1 0x4002 = Some pa ∧ image_memory s' !! pa = Some 3.
Proof.
  assert (image_size demo_elf / UEFI_PAGE_SIZE + 4 + 8 * (3 * image_pages demo_elf + 4) ≤ 4096 - 0) as Ha by (apply Z.leb_le; vm_compute; reflexivity).
  assert (placeable demo_elf) as Pl by (split; apply Z.leb_le; vm_compute; reflexivity).
  destruct (proj1 (wp_run _ _ _) (main_spec (UL := DemoFirmware.demo_uefi_laws) (D := arm_tte) 0 3 2 demo_elf 0x9000 DemoBoot.demo_boot ltac:(done) eq_refl demo_elf_ok Pl eq_refl (or_intror eq_refl) Ha))
    as (r & s' & E & -> & base & root1 & root0 & [B1 B2 B3 _ B5 B6 _ _ _]).
  clear Ha Pl. destruct (B6 0x4002) as (pa & T & I).
  { clear. assert (image_size demo_elf = 4096 ∧ low (segments demo_elf) = 0x4000) as [-> ->] by (split; vm_compute; reflexivity). lia. }
  exists s', root1, pa. split; [exact E|]. clear E. split; [exact B1|]. split; [rewrite B2; clear; vm_compute; reflexivity|]. split; [exact B3|]. split; [exact B5|].
  split; [exact T|]. rewrite I. clear. vm_compute. reflexivity.
Defined.
