(* ===== verification/Timer.v ===== *)
(** * The generic timer and the timer interrupt

    Models [kernel/drivers/generic-timer/src]: the timer and its device
    handlers, the functions of [kernel/src/earlyinit/platform.rs] that drivers
    enable interrupts with, and the interrupt handler of
    [kernel/src/earlyinit/exception.rs], which puts the interrupt controller
    ([Gic]), the timer and the scheduler ([Sched]) together.

    The counter is read as a sequence of values that the hardware supplies;
    a loop on it runs as long as there are values.  [timer_irq] is an
    [AtomicRefCell]; whether it is borrowed elsewhere is part of the state. *)

From S2P Require Import Prelude Vm Device Gic Sched.

Inductive TimerError := DurationTooLarge | CouldntBorrow.

(** [core::time::Duration] *)
Record Duration := { as_secs : Z; subsec_nanos : Z }.

Record Timer := {
  cntfrq : Z;
  cntv_ctl : Z;
  cntv_cval : Z;
  cntvct : list Z;
  timer_irq : option Z;
  borrowed : bool;
  borrowed_mut : bool
}.

Definition set_ctl (v : Z) (t : Timer) : Timer :=
  {| cntfrq := cntfrq t; cntv_ctl := v; cntv_cval := cntv_cval t; cntvct := cntvct t; timer_irq := timer_irq t; borrowed := borrowed t; borrowed_mut := borrowed_mut t |}.
Definition set_cval (v : Z) (t : Timer) : Timer :=
  {| cntfrq := cntfrq t; cntv_ctl := cntv_ctl t; cntv_cval := v; cntvct := cntvct t; timer_irq := timer_irq t; borrowed := borrowed t; borrowed_mut := borrowed_mut t |}.
Definition set_cntvct (l : list Z) (t : Timer) : Timer :=
  {| cntfrq := cntfrq t; cntv_ctl := cntv_ctl t; cntv_cval := cntv_cval t; cntvct := l; timer_irq := timer_irq t; borrowed := borrowed t; borrowed_mut := borrowed_mut t |}.
Definition set_timer_irq (i : option Z) (t : Timer) : Timer :=
  {| cntfrq := cntfrq t; cntv_ctl := cntv_ctl t; cntv_cval := cntv_cval t; cntvct := cntvct t; timer_irq := i; borrowed := borrowed t; borrowed_mut := borrowed_mut t |}.

(** Bits of [CNTV_CTL_EL0]. *)
Definition ENABLE : Z := 0x1.
Definition IMASK : Z := 0x2.
Definition ISTATUS : Z := 0x4.

(** ** The driver *)

Definition set_irq (irq : Z) : M Timer (result TimerError unit) :=
  let* t := get in
  if borrowed t || borrowed_mut t then ret (Err CouldntBorrow)
  else modify (set_timer_irq (Some irq)) ;; ret (Ok tt).
Definition get_irq : M Timer (result TimerError (option Z)) :=
  let* t := get in
  if borrowed_mut t then ret (Err CouldntBorrow) else ret (Ok (timer_irq t)).

Definition freq_hz : M Timer Z := gets cntfrq.
Definition counter : M Timer Z := λ t,
  match cntvct t with
  | c :: l => Done (c, set_cntvct l t)
  | [] => Fault OutOfFuel
  end.

Definition enabled (t : Timer) : bool := Z.testbit (cntv_ctl t) 0.
Definition masked (t : Timer) : bool := Z.testbit (cntv_ctl t) 1.
Definition pending (t : Timer) : bool := Z.testbit (cntv_ctl t) 2.

Definition enable : M Timer unit := modify (set_ctl ENABLE).
Definition disable : M Timer unit := modify (set_ctl 0).
Definition set_masked (m : bool) : M Timer unit := modify (set_ctl (if m then IMASK else 0)).
Definition set_compare (cval : Z) : M Timer unit := modify (set_cval cval).

Definition to_ticks (d : Duration) (freq_hz : Z) : option Z :=
  if freq_hz =? 0 then None else
  a ← checked_mul 64 (as_secs d) freq_hz;
  p ← checked_mul 64 (subsec_nanos d) freq_hz;
  checked_add 64 a (p / 1000000000).

(** The deadline of [arm_after] and [sleep]. *)
Definition deadline_of (delta : Duration) : M Timer (result TimerError Z) :=
  let* f := freq_hz in
  match to_ticks delta f with
  | None => ret (Err DurationTooLarge)
  | Some ticks =>
      let* now := counter in
      ret (match checked_add 64 now ticks with Some d => Ok d | None => Err DurationTooLarge end)
  end.

Definition arm_after (delta : Duration) : M Timer (result TimerError unit) :=
  try deadline := deadline_of delta in
  set_compare deadline ;;
  enable ;;
  ret (Ok tt).

(** [(x.wrapping_sub(y) as i64) < 0] *)
Definition before (x y : Z) : bool := 2 ^ 63 <=? wrap 64 (x - y).

(** The loop of [wait] over the values of the counter. *)
Fixpoint wait_loop (readings : list Z) (deadline : Z) (t : Timer) : outcome (unit * Timer) :=
  match readings with
  | [] => Fault OutOfFuel
  | c :: l => if before c deadline then wait_loop l deadline t else Done (tt, set_cntvct l t)
  end.
Definition wait (deadline : Z) : M Timer unit := λ t, wait_loop (cntvct t) deadline t.

Definition sleep (duration : Duration) : M Timer (result TimerError unit) :=
  try deadline := deadline_of duration in
  wait deadline ;;
  ret (Ok tt).

Definition disarm : M Timer unit :=
  set_masked true ;;
  set_compare (2 ^ 64 - 1) ;;
  disable.

Definition TIMER_DURATION : Duration := {| as_secs := 0; subsec_nanos := 100000000 |}.

Definition init_timer : M Timer unit := disarm ;; set_masked false.
Definition timer_disarm : M Timer unit := disarm.
Definition timer_rearm : M Timer unit := set_masked false ;; enable.
Definition timer_schedule : M Timer unit := let* _ := arm_after TIMER_DURATION in ret tt.

(** ** The interrupt handler *)

Inductive CallbackError := FailedToEnable | FailedToDisable.

Record Kernel (H : Type) := { gic : GicV3 H; timer : Timer; sched : Sched; DAIF : Z }.
Arguments gic {H} _.
Arguments timer {H} _.
Arguments sched {H} _.
Arguments DAIF {H} _.

Section handler.
Context {H : Type} {HD : GicDevice H}.

Definition on_gic {X} (c : M (GicV3 H) X) : M (Kernel H) X := λ k,
  match c (gic k) with Done (x, g) => Done (x, {| gic := g; timer := timer k; sched := sched k; DAIF := DAIF k |}) | Fault f => Fault f end.
Definition on_timer {X} (c : M Timer X) : M (Kernel H) X := λ k,
  match c (timer k) with Done (x, t) => Done (x, {| gic := gic k; timer := t; sched := sched k; DAIF := DAIF k |}) | Fault f => Fault f end.
Definition on_sched {X} (c : M Sched X) : M (Kernel H) X := λ k,
  match c (sched k) with Done (x, s) => Done (x, {| gic := gic k; timer := timer k; sched := s; DAIF := DAIF k |}) | Fault f => Fault f end.
Definition set_DAIF (d : Z) : M (Kernel H) unit := modify (λ k, {| gic := gic k; timer := timer k; sched := sched k; DAIF := d |}).

(** [PreemptionGuard]: saved on entry, written back when it is dropped. *)
Definition with_preemption_guard {X} (c : M (Kernel H) X) : M (Kernel H) X :=
  let* d := gets DAIF in
  let* x := c in
  set_DAIF d ;;
  ret x.

(** [register_file] and the result are addresses of saved registers. *)
Definition irq_current (register_file : Z) : M (Kernel H) Z :=
  with_preemption_guard (
    let* r := on_gic acknowledge_interrupt in
    let* ack := expect (match r with Ok a => Some a | Err _ => None end) in
    let* regs := (match ack with
      | Some int =>
          on_timer timer_disarm ;;
          on_timer timer_rearm ;;
          let* irq := on_timer get_irq in
          let is_timer := match irq with Err _ => false | Ok i => bool_decide (i = Some int) end in
          let* regs := (if is_timer then on_sched (schedule register_file) else ret register_file) in
          let* e := on_gic (end_of_interrupt int) in
          expect (match e with Ok _ => Some tt | Err _ => None end) ;;
          ret regs
      | None => ret register_file
      end) in
    on_timer timer_schedule ;;
    ret regs).

Definition irq_lower (register_file : Z) : M (Kernel H) Z := irq_current register_file.

(** ** Drivers *)

Context {T : AddressTranslator} (fuel : nat).

Definition ENABLE_IRQ (resource : Resource) : M (Kernel H) (result CallbackError unit) :=
  match resource with
  | Irq irq =>
      let* r := on_gic (enable_interrupt fuel irq) in
      ret (match r with Ok _ => Ok tt | Err _ => Err FailedToEnable end)
  | _ => ret (Err FailedToEnable)
  end.
Definition DISABLE_IRQ (resource : Resource) : M (Kernel H) (result CallbackError unit) :=
  match resource with
  | Irq irq =>
      let* r := on_gic (disable_interrupt fuel irq) in
      ret (match r with Ok _ => Ok tt | Err _ => Err FailedToDisable end)
  | _ => ret (Err FailedToDisable)
  end.

Definition is_irq (r : Resource) : bool := match r with Irq _ => true | _ => false end.

(** The loop of [secondary_handle] over the interrupts of the node. *)
Fixpoint enable_all (rs : list Resource) : M (Kernel H) unit :=
  match rs with
  | [] => ret tt
  | r :: rs' =>
      let* e := ENABLE_IRQ r in
      expect (match e with Ok _ => Some tt | Err _ => None end) ;;
      enable_all rs'
  end.

Definition gt_secondary_handle (node : DeviceNode) : M (Kernel H) unit :=
  on_timer init_timer ;;
  enable_all (filter (λ r, is_irq r = true) (resources node)) ;;
  on_timer timer_rearm ;;
  on_timer timer_schedule.
Definition gt_handle (node : DeviceNode) : M (Kernel H) unit := gt_secondary_handle node.
End handler.
