(* ===== verification/TimerTheorems.v ===== *)
(** * What the timer and its interrupt do

    The conversion of durations to ticks is exact and fails only when the
    result does not fit; [sleep] returns with the first reading of the counter
    at or after the deadline; the interrupt handler acknowledges, runs the
    scheduler for the timer's interrupt and for no other, ends the interrupt
    and arms the timer again. *)

From S2P Require Import Prelude Vm Device Gic GicTheorems Sched Timer.

(** ** Durations *)

Record duration_ok (d : Duration) : Prop := { do_secs : 0 ≤ as_secs d < 2 ^ 64; do_nanos : 0 ≤ subsec_nanos d < 1000000000 }.

(** The length of a duration in nanoseconds. *)
Definition nanos (d : Duration) : Z := as_secs d * 1000000000 + subsec_nanos d.

Lemma ticks_sum d f : as_secs d * f + subsec_nanos d * f / 1000000000 = nanos d * f / 1000000000.
Proof.
  unfold nanos. replace ((as_secs d * 1000000000 + subsec_nanos d) * f) with (subsec_nanos d * f + as_secs d * f * 1000000000) by lia.
  rewrite Z.div_add by done. lia.
Qed.

(** C32: Durations are converted to ticks of the counter exactly, rounding down
    to a whole tick, at every frequency below 18.4 GHz: the result is the
    whole part of the duration times the frequency, and there is none only
    when the frequency is zero or the result does not fit 64 bits. *)
Theorem to_ticks_spec d f : duration_ok d → 0 ≤ f → f * 999999999 < 2 ^ 64 →
  to_ticks d f = if decide (0 < f ∧ nanos d * f / 1000000000 < 2 ^ 64) then Some (nanos d * f / 1000000000) else None.
Proof.
  intros [Hs Hn] Hf Hmax. unfold to_ticks. destruct (Z.eqb_spec f 0) as [->|Hf0]; [by rewrite decide_False by lia|].
  unfold checked_mul, checked_add. rewrite <- ticks_sum. assert (0 ≤ subsec_nanos d * f / 1000000000) as Hp by (apply Z.div_pos; nia).
  destruct (Z.ltb_spec (as_secs d * f) (2 ^ 64)); cbn [mbind option_bind]; [|by rewrite decide_False by lia].
  rewrite (proj2 (Z.ltb_lt (subsec_nanos d * f) _)) by nia. cbn [mbind option_bind].
  destruct (Z.ltb_spec (as_secs d * f + subsec_nanos d * f / 1000000000) (2 ^ 64)); [by rewrite decide_True by lia|by rewrite decide_False by lia].
Qed.

Lemma to_ticks_spec_witness : to_ticks {| as_secs := 2; subsec_nanos := 500000001 |} 62500000 = Some 156250000.
Proof. rewrite (to_ticks_spec _ 62500000); [by vm_compute|by split; cbn; lia|lia|lia]. Defined.

(** ** Waiting *)

Lemma before_spec x y t0 : 0 ≤ t0 → t0 ≤ x < t0 + 2 ^ 63 → t0 ≤ y < t0 + 2 ^ 63 → before x y = bool_decide (x < y).
Proof.
  intros H0 Hx Hy. unfold before, wrap. case_bool_decide as H.
  - replace ((x - y) mod 2 ^ 64) with (x - y + 2 ^ 64); [apply Z.leb_le; lia|]. rewrite <- (Z.mod_add _ 1) by done. rewrite Z.mod_small; lia.
  - rewrite Z.mod_small by lia. apply Z.leb_gt. lia.
Qed.

Lemma wait_loop_run pre c post deadline t : Forall (λ r, before r deadline = true) pre → before c deadline = false →
  wait_loop (pre ++ c :: post) deadline t = Done (tt, set_cntvct post t).
Proof. intros Hp Hc. induction Hp as [|r pre Hr Hp IH]; cbn [app wait_loop]; [by rewrite Hc|by rewrite Hr]. Qed.

(** C40: [sleep] waits for the duration: it reads the counter, and returns
    exactly with the first later reading that is at or past the start plus the
    ticks of the duration, as long as that is less than [2^63] ticks and the
    counter is polled within that time. *)
Theorem sleep_spec d t now pre c post ticks : cntvct t = now :: pre ++ c :: post → 0 ≤ now → now + ticks < 2 ^ 64 →
  to_ticks d (cntfrq t) = Some ticks → 0 ≤ ticks < 2 ^ 63 → Forall (λ r, now ≤ r < now + ticks) pre → now + ticks ≤ c < now + 2 ^ 63 →
  sleep d t = Done (Ok tt, set_cntvct post t).
Proof.
  intros Hc H0 Hd Ht Hk Hpre Hlast. unfold sleep, deadline_of, try_, bind, freq_hz, gets, counter. rewrite Ht, Hc. unfold checked_add. rewrite (proj2 (Z.ltb_lt _ _)) by done.
  unfold bind, ret, wait. cbn [cntvct set_cntvct]. rewrite (wait_loop_run pre c post); [done| |].
  - eapply Forall_impl; [exact Hpre|]. intros r Hr. cbn beta in Hr. rewrite (before_spec _ _ now) by lia. apply bool_decide_eq_true_2. lia.
  - rewrite (before_spec _ _ now) by lia. apply bool_decide_eq_false_2. lia.
Qed.

Definition demo_timer : Timer :=
  {| cntfrq := 62500000; cntv_ctl := 0; cntv_cval := 0; cntvct := [1000; 1001; 1062; 1063; 5000]; timer_irq := Some 27; borrowed := false; borrowed_mut := false |}.

Lemma sleep_spec_witness : sleep {| as_secs := 0; subsec_nanos := 1000 |} demo_timer = Done (Ok tt, set_cntvct [1063; 5000] demo_timer).
Proof.
  apply (sleep_spec _ demo_timer 1000 [1001] 1062 [1063; 5000] 62); [done|lia|lia|done|lia| |lia]. apply Forall_singleton. lia.
Defined.

(** A deadline [2^63] ticks away or more counts as past. *)
Theorem sleep_too_long d t now c post ticks : cntvct t = now :: c :: post → now + ticks < 2 ^ 64 →
  to_ticks d (cntfrq t) = Some ticks → 2 ^ 63 ≤ ticks → 0 ≤ now → now ≤ c < now + ticks - 2 ^ 63 → sleep d t = Done (Ok tt, set_cntvct post t).
Proof.
  intros Hc Hd Ht Hk H0 Hlast. unfold sleep, deadline_of, try_, bind, freq_hz, gets, counter. rewrite Ht, Hc. unfold checked_add. rewrite (proj2 (Z.ltb_lt _ _)) by done.
  unfold bind, ret, wait. cbn [cntvct set_cntvct wait_loop]. unfold before, wrap. rewrite (proj2 (Z.leb_gt _ _)); [done|].
  rewrite <- (Z.mod_add _ 1) by done. rewrite Z.mod_small; lia.
Qed.

(** ** The interrupt *)

(** The timer, armed for [deadline]. *)
Definition alarm (deadline : Z) (l : list Z) (t : Timer) : Timer := set_ctl ENABLE (set_cval deadline (set_cntvct l t)).

Lemma timer_schedule_run t now l ticks : cntvct t = now :: l → to_ticks TIMER_DURATION (cntfrq t) = Some ticks → now + ticks < 2 ^ 64 →
  timer_schedule t = Done (tt, alarm (now + ticks) l t).
Proof.
  intros Hc Ht Hd. unfold timer_schedule, arm_after, deadline_of, try_, bind, freq_hz, gets, counter. rewrite Ht, Hc. unfold checked_add.
  by rewrite (proj2 (Z.ltb_lt _ _)) by done.
Qed.

(** Another write of the whole control register is all that is left of the
    earlier ones. *)
Lemma alarm_rearmed deadline l t : alarm deadline l (set_ctl ENABLE (set_ctl 0 (set_ctl 0 (set_cval (2 ^ 64 - 1) (set_ctl IMASK t))))) = alarm deadline l t.
Proof. done. Qed.

Section handler.
Context {H : Type} {HD : GicDevice H}.
Implicit Types (k : Kernel H).

Definition valid_int (id : Z) : bool := (id <? 1020) || is_lpi id.
Definition eoi (id : Z) (g : GicV3 H) : GicV3 H := match end_of_interrupt id g with Done (_, g') => g' | Fault _ => g end.

Lemma end_of_interrupt_run id g : valid_int id = true → end_of_interrupt id g = Done (Ok tt, eoi id g).
Proof. intros Hv. unfold eoi, end_of_interrupt. unfold valid_int in Hv. by rewrite Hv. Qed.

(** Is the interrupt the timer's? *)
Definition is_timer_int (t : Timer) (id : Z) : bool := negb (borrowed_mut t) && bool_decide (timer_irq t = Some id).

(** The interrupt handler.  A spurious interrupt returns to the
    interrupted context; the timer's interrupt returns to the context the
    scheduler chooses; any other valid interrupt returns to the interrupted
    context and leaves the scheduler alone.  Valid interrupts are ended with
    the number that was acknowledged, the timer is armed anew, and the
    interrupt mask is as before.  An interrupt number that is neither below
    1020 nor an LPI panics. *)
Theorem irq_current_spec k r a g1 now l ticks : acknowledge_interrupt (gic k) = Done (Ok a, g1) →
  cntvct (timer k) = now :: l → to_ticks TIMER_DURATION (cntfrq (timer k)) = Some ticks → now + ticks < 2 ^ 64 →
  let t' := alarm (now + ticks) l (timer k) in
  irq_current r k =
    match a with
    | None => Done (r, {| gic := g1; timer := t'; sched := sched k; DAIF := DAIF k |})
    | Some id =>
        match (if is_timer_int (timer k) id then schedule r (sched k) else Done (r, sched k)) with
        | Fault f => Fault f
        | Done (regs, s') => if valid_int id then Done (regs, {| gic := eoi id g1; timer := t'; sched := s'; DAIF := DAIF k |}) else Fault Panic
        end
    end.
Proof.
  intros Ha Hc Ht Hd t'. unfold irq_current, with_preemption_guard, bind, gets, on_gic. rewrite Ha. unfold expect. destruct a as [id|].
  - unfold on_timer, timer_disarm, timer_rearm, disarm, set_masked, set_compare, disable, enable, get_irq, bind, modify, get, ret. cbn [timer gic sched DAIF borrowed_mut timer_irq set_ctl set_cval].
    unfold is_timer_int. destruct (borrowed_mut (timer k)); cbn [negb andb timer gic sched DAIF].
    + destruct (valid_int id) eqn:Hv; [rewrite (end_of_interrupt_run _ _ Hv)|unfold end_of_interrupt; unfold valid_int in Hv; by rewrite Hv].
      cbn [timer gic sched DAIF]. by rewrite (timer_schedule_run _ now l ticks).
    + case_bool_decide as Hi; cbn [timer gic sched DAIF].
      * unfold on_sched. cbn [sched]. destruct (schedule r (sched k)) as [[regs s']|]; [|done]. cbn [timer gic sched DAIF].
        destruct (valid_int id) eqn:Hv; [rewrite (end_of_interrupt_run _ _ Hv)|unfold end_of_interrupt; unfold valid_int in Hv; by rewrite Hv].
        cbn [timer gic sched DAIF]. by rewrite (timer_schedule_run _ now l ticks).
      * destruct (valid_int id) eqn:Hv; [rewrite (end_of_interrupt_run _ _ Hv)|unfold end_of_interrupt; unfold valid_int in Hv; by rewrite Hv].
        cbn [timer gic sched DAIF]. by rewrite (timer_schedule_run _ now l ticks).
  - unfold bind, ret, on_timer. cbn [timer gic sched DAIF]. by rewrite (timer_schedule_run _ now l ticks).
Qed.

(** Nothing tells the driver the number of its interrupt: as long as
    [timer_irq] is empty no interrupt reaches the scheduler. *)
Theorem irq_never_schedules k r k' r' : timer_irq (timer k) = None → irq_current r k = Done (r', k') → r' = r ∧ sched k' = sched k ∧ timer_irq (timer k') = None.
Proof.
  intros Hn. assert (∀ t t' x, timer_schedule t = Done (x, t') → timer_irq t' = timer_irq t) as Hts.
  { intros t t' x. unfold timer_schedule, arm_after, deadline_of, try_, bind, freq_hz, gets, counter. destruct (to_ticks _ _); [|by intros [= _ <-]].
    destruct (cntvct t) as [|now l]; [done|]. unfold ret. destruct (checked_add _ _ _); by intros [= _ <-]. }
  unfold irq_current, with_preemption_guard, bind, gets, on_gic. destruct (acknowledge_interrupt (gic k)) as [[[a|e] g1]|]; [|done|done]. unfold expect.
  assert (∀ k0, sched k0 = sched k → timer_irq (timer k0) = None →
    match match on_timer timer_schedule k0 with Done (_, s') => ret r s' | Fault f => Fault f end with
    | Done (x, s') => match set_DAIF (DAIF k) s' with Done (_, s'0) => ret x s'0 | Fault f => Fault f end | Fault f => Fault f end = Done (r', k') →
    r' = r ∧ sched k' = sched k ∧ timer_irq (timer k') = None) as Hend.
  { intros k0 H1 H2. unfold on_timer. destruct (timer_schedule (timer k0)) as [[u t']|] eqn:E; [|done]. intros [= <- <-]. cbn [sched timer].
    split; [done|]. split; [done|]. by rewrite (Hts _ _ _ E). }
  destruct a as [id|]; [|by apply Hend].
  unfold on_timer at 1 2 3, timer_disarm, timer_rearm, disarm, set_masked, set_compare, disable, enable, get_irq, bind, modify, get, ret at 1 2 3 4.
  cbn [timer gic sched DAIF borrowed_mut timer_irq set_ctl set_cval]. destruct (borrowed_mut (timer k)); cbn [timer gic sched DAIF].
  - destruct (end_of_interrupt id g1) as [[[u|e] g2]|]; [|done|done]. by apply Hend.
  - rewrite Hn, bool_decide_eq_false_2 by done. cbn [timer gic sched DAIF]. unfold ret at 1. cbn [timer gic sched DAIF].
    destruct (end_of_interrupt id g1) as [[[u|e] g2]|]; [|done|done]. by apply Hend.
Qed.
End handler.

(** ** The device handler *)

Section device.
Context {H : Type} {HD : GicDevice H} {T : AddressTranslator} (fuel : nat).
Implicit Types (k : Kernel H).

(** The interrupt numbers of a node, enabled one after the other. *)
Definition irqs_of (node : DeviceNode) : list Z := omap (λ r, match r with Irq n => Some n | _ => None end) (resources node).
Fixpoint enable_each (ids : list Z) : M (GicV3 H) (Result unit) :=
  match ids with
  | [] => ret (Ok tt)
  | i :: ids' => enable_interrupt fuel i ;? enable_each ids'
  end.

Lemma filter_irqs (rs : list Resource) : filter (λ r, is_irq r = true) rs = Irq <$> omap (λ r, match r with Irq n => Some n | _ => None end) rs.
Proof. induction rs as [|r rs IH]; [done|]. rewrite filter_cons. destruct r; cbn [is_irq omap list_omap]; [by rewrite decide_False|by rewrite decide_True, IH]. Qed.

Lemma enable_all_run ids k : enable_all fuel (Irq <$> ids) k =
  match enable_each ids (gic k) with
  | Done (Ok _, g) => Done (tt, {| gic := g; timer := timer k; sched := sched k; DAIF := DAIF k |})
  | Done (Err _, _) => Fault Panic
  | Fault f => Fault f
  end.
Proof.
  revert k. induction ids as [|i ids IH]; intros k; [by destruct k|]. cbn [fmap list_fmap enable_all enable_each ENABLE_IRQ]. unfold bind, on_gic, ret, expect, try_, bind.
  destruct (enable_interrupt fuel i (gic k)) as [[[u|e] g]|]; [|done|done]. by rewrite IH.
Qed.

(** The handler of the timer's device enables every interrupt the node lists,
    in order, leaves the timer unmasked and armed for the first period, and
    panics when an interrupt cannot be enabled. *)
Theorem gt_handle_spec node k now l ticks : cntvct (timer k) = now :: l → to_ticks TIMER_DURATION (cntfrq (timer k)) = Some ticks → now + ticks < 2 ^ 64 →
  gt_handle fuel node k =
    match enable_each (irqs_of node) (gic k) with
    | Done (Ok _, g) => Done (tt, {| gic := g; timer := alarm (now + ticks) l (timer k); sched := sched k; DAIF := DAIF k |})
    | Done (Err _, _) => Fault Panic
    | Fault f => Fault f
    end.
Proof.
  intros Hc Ht Hd. unfold gt_handle, gt_secondary_handle. rewrite filter_irqs. fold (irqs_of node). unfold bind at 1, on_timer at 1, init_timer, disarm, set_masked, set_compare, disable, bind, modify.
  rewrite enable_all_run. cbn [gic timer sched DAIF]. destruct (enable_each (irqs_of node) (gic k)) as [[[u|e] g]|]; [|done|done].
  unfold on_timer, timer_rearm, set_masked, enable, bind, modify. cbn [gic timer sched DAIF]. by rewrite (timer_schedule_run _ now l ticks).
Qed.
End device.

(** ** A timer interrupt *)

(** The state of the device is the pending interrupt. *)
#[local] Instance one_interrupt : GicDevice Z := {|
  mmio_read _ _ h := (0, h); mmio_write _ _ _ h := h; read_iar h := (h, 1023); write_eoir _ h := h; enable_group1 h := h; set_priority_mask _ h := h;
  sre_enable h := h; write_bpr1 _ h := h; alloc_zeroed _ _ h := (0, h); dealloc _ _ _ h := h; this_cpu _ := 0%nat
|}.

Definition demo_kernel : Kernel Z :=
  {| gic := set_hw 27 (demo_gic 0); timer := demo_timer; sched := set_queues [LocalScheduler_new] (sched_new 0 ∅); DAIF := 0 |}.

Lemma irq_current_spec_witness : ∃ k', irq_current 4096 demo_kernel = Done (4096, k') ∧ timer k' = alarm (1000 + 6250000) [1001; 1062; 1063; 5000] demo_timer.
Proof.
  eexists. split.
  - rewrite (irq_current_spec (HD := one_interrupt) demo_kernel 4096 (Some 27) (set_hw 1023 (demo_gic 0)) 1000 [1001; 1062; 1063; 5000] 6250000 eq_refl eq_refl eq_refl eq_refl). reflexivity.
  - reflexivity.
Defined.
