(* ===== verification/Startup.v ===== *)
(** * Start-up of the kernel

    Models the parts of [kernel/src/earlyinit/platform.rs],
    [kernel/src/earlyinit/smp.rs] and [kernel/src/lut.rs] that bring devices
    and cores up, with the helpers they use: [klib/src/cache.rs],
    [klib/src/guard.rs] and [klib/src/stack.rs].

    The handlers of devices are the function [call]; the firmware's power
    control, the global allocator and the other core are arguments too. *)

From S2P Require Import Prelude Bytes Vm Device Cpu Asm.

(** ** The boot information

    [BOOT_INFO] is filled once; tokens stand for the right to fill it and for
    the right to use it. *)
Module Token.

Inductive State := Fresh | Uninit | Init.
#[global] Instance State_eq_dec : EqDecision State.
Proof. solve_decision. Defined.

Record Statics (I : Type) := { STATE : State; BOOT_INFO : option I }.
Arguments STATE {I} _.
Arguments BOOT_INFO {I} _.

Section token.
Context {I : Type}.

(** [Some(Self)], or [None]. *)
Definition init_token_new : M (Statics I) bool :=
  let* s := get in
  if bool_decide (STATE s = Fresh) then modify (λ s, {| STATE := Uninit; BOOT_INFO := BOOT_INFO s |}) ;; ret true
  else ret false.

Definition init_token_init (pointer : I) : M (Statics I) bool :=
  let* s := get in
  if bool_decide (STATE s = Uninit) then
    modify (λ s, {| STATE := STATE s; BOOT_INFO := Some pointer |}) ;;
    modify (λ s, {| STATE := Init; BOOT_INFO := BOOT_INFO s |}) ;;
    ret true
  else ret false.

(** [assume_init_ref] of what was never written is no access to an object. *)
Definition token_get : M (Statics I) I :=
  let* s := get in
  assert (bool_decide (STATE s = Init)) ;;
  match BOOT_INFO s with Some i => ret i | None => fail BadDeref end.
Definition token_set (i : I) : M (Statics I) unit :=
  let* s := get in
  assert (bool_decide (STATE s = Init)) ;;
  match BOOT_INFO s with Some _ => modify (λ s, {| STATE := STATE s; BOOT_INFO := Some i |}) | None => fail BadDeref end.
End token.
End Token.

(** ** Devices *)

Inductive DeviceHandler := gicv3_handle | gicv3_secondary_handle | gt_handle | gt_secondary_handle.
Inductive DeviceCallback := Once (f : DeviceHandler) | EveryCore (f g : DeviceHandler).

(** The bytes of the two compatible strings. *)
Definition GIC_V3 : str := [97; 114; 109; 44; 103; 105; 99; 45; 118; 51].
Definition ARMV8_TIMER : str := [97; 114; 109; 44; 97; 114; 109; 118; 56; 45; 116; 105; 109; 101; 114].

Definition DEVICE_TABLE (tag : str) : option DeviceCallback :=
  if decide (tag = GIC_V3) then Some (EveryCore gicv3_handle gicv3_secondary_handle)
  else if decide (tag = ARMV8_TIMER) then Some (EveryCore gt_handle gt_secondary_handle)
  else None.

#[global] Instance DeviceInitPriority_eq_dec : EqDecision DeviceInitPriority.
Proof. solve_decision. Defined.
(** The derived order. *)
Definition rank (p : DeviceInitPriority) : Z := match p with Regular => 0 | Fundamental => 1 end.

Definition filter_fundamental (n : DeviceNode) : bool := rank Fundamental <=? rank (priority n).
Definition filter_others (n : DeviceNode) : bool := bool_decide (priority n ≠ Fundamental).

(** [node.compatible.iter().find_map(..)] *)
Fixpoint find_callback (tags : list str) : option DeviceCallback :=
  match tags with
  | [] => None
  | t :: ts => match DEVICE_TABLE t with Some c => Some c | None => find_callback ts end
  end.

Section devices.
Context {S : Type} (call : DeviceHandler → DeviceNode → M S unit).

Fixpoint init_devices (ns : list DeviceNode) : M S unit :=
  match ns with
  | [] => ret tt
  | n :: ns' =>
      match find_callback (compatible n) with
      | None => init_devices ns'
      | Some func =>
          let f := match func with Once f => f | EveryCore f _ => f end in
          call f n ;; init_devices ns'
      end
  end.

Definition is_every_core (c : DeviceCallback) : bool := match c with EveryCore _ _ => true | Once _ => false end.

(** [init_devices] of [secondary_main]. *)
Fixpoint init_devices_secondary (ns : list DeviceNode) : M S unit :=
  match ns with
  | [] => ret tt
  | n :: ns' =>
      match (c ← find_callback (compatible n); if is_every_core c then Some c else None) with
      | None => init_devices_secondary ns'
      | Some func =>
          match func with
          | EveryCore _ f => call f n ;; init_devices_secondary ns'
          | Once _ => fail Panic
          end
      end
  end.

(** The two passes of [uefi_arm64_bootstrap], and of [secondary_main]. *)
Definition init_all_devices (dt : DeviceTree) : M S unit :=
  init_devices (filter (λ n, filter_fundamental n = true) (nodes dt)) ;;
  init_devices (filter (λ n, filter_others n = true) (nodes dt)).
Definition secondary_main (dt : DeviceTree) : M S unit :=
  init_devices_secondary (filter (λ n, filter_fundamental n = true) (nodes dt)) ;;
  init_devices_secondary (filter (λ n, filter_others n = true) (nodes dt)).
End devices.

(** ** Interrupt masks *)

(** The bits I and F of DAIF. *)
Definition DAIF_IF : Z := 0xC0.
Definition guard_disable (daif : Z) : Z := Z.lor daif DAIF_IF.
Definition guard_enable (daif : Z) : Z := Z.ldiff daif DAIF_IF.
(** The saved value, and the register. *)
Definition guard_new (daif : Z) : Z * Z := (daif, guard_disable daif).
Definition guard_drop (saved daif : Z) : Z := saved.

(** ** Cache maintenance *)

Definition get_dcache_line_size (ctr : Z) : Z := Z.shiftl 1 (Z.land (Z.shiftr ctr 16) 0xF + 2).

(** [(start..end).step_by(size)] *)
Definition step_by (start end_ size : Z) : list Z :=
  (λ i, start + i * size) <$> seqZ 0 ((end_ - start + size - 1) / size).

(** The addresses that are cleaned, in order; the state is their list. *)
Definition clean_dcache_range (ctr addr len : Z) : M (list Z) unit :=
  let cache_line_size := get_dcache_line_size ctr in
  let start := align_down addr cache_line_size in
  let* e := expect (checked_add 64 addr len) in
  let* end_ := expect (align_up e cache_line_size) in
  modify (λ l, l ++ step_by start end_ cache_line_size).

(** ** Stacks *)

Inductive StackError := BadAlignment | BadSize | LayoutError | AllocFail.
Record Stack := { stack_ptr : Z; stack_size : Z; stack_align : Z }.

Definition is_power_of_two (x : Z) : bool := (0 <? x) && (Z.land x (x - 1) =? 0).

Section stack.
Context {S : Type} (alloc : Z → Z → M S Z).

(** [Layout::from_size_align] also refuses a size that, rounded up to the
    alignment, exceeds [isize::MAX]. *)
Definition stack_new (size alignment : Z) : M S (result StackError Stack) :=
  if negb (is_power_of_two alignment) then ret (Err BadAlignment) else
  if negb (is_power_of_two size) then ret (Err BadSize) else
  if 2 ^ 63 - alignment <? size then ret (Err LayoutError) else
  let* ptr := alloc size alignment in
  if ptr =? 0 then ret (Err AllocFail)
  else ret (Ok {| stack_ptr := ptr; stack_size := size; stack_align := alignment |}).
End stack.

Definition stack_top (s : Stack) : Z := stack_ptr s + stack_size s.
Definition stack_bottom (s : Stack) : Z := stack_ptr s.
Definition as_ptr_range (s : Stack) : Z * Z := (stack_bottom s, stack_top s).
Definition KERNEL_STACK_SIZE : Z := PAGE_SIZE.

(** ** Secondary cores *)

(** The arguments that [boot_secondary] leaves for the new core: its stack
    and this core's registers. *)
Definition boot_args (secondary_init : Z) (c : Core) (logical_id : Z) (stack : Stack) : SecondaryBootArgs :=
  {| stack_top_v := (as_ptr_range stack).2; entry_fn_v := secondary_init; args_cpu_id := logical_id;
     ttbr0 := sys c TTBR0_EL1; ttbr1 := sys c TTBR1_EL1; tcr := sys c TCR_EL1; mair := sys c MAIR_EL1; sctlr := sys c SCTLR_EL1;
     cpacr := sys c CPACR_EL1; vbar := sys c VBAR_EL1 |}.

(** [size_of::<SecondaryBootArgs>()] *)
Definition ARGS_SIZE : Z := 80.

(** This core, the lines cleaned, the arguments in boxes by their address,
    what was freed, and the readings of the new core's ready flag. *)
Record Smp := { this : Core; cleaned : list Z; boxes : gmap Z SecondaryBootArgs; freed : list Z; ready : list bool }.

Definition with_cleaned (l : list Z) (s : Smp) : Smp := {| this := this s; cleaned := l; boxes := boxes s; freed := freed s; ready := ready s |}.
Definition with_boxes (b : gmap Z SecondaryBootArgs) (s : Smp) : Smp := {| this := this s; cleaned := cleaned s; boxes := b; freed := freed s; ready := ready s |}.
Definition free (a : Z) (s : Smp) : Smp := {| this := this s; cleaned := cleaned s; boxes := delete a (boxes s); freed := freed s ++ [a]; ready := ready s |}.

Definition clean (ctr addr len : Z) : M Smp unit := λ s,
  match clean_dcache_range ctr addr len (cleaned s) with Done (u, l) => Done (u, with_cleaned l s) | Fault f => Fault f end.

(** The loop on [pcpu.ready]. *)
Fixpoint spin_ready (l : list bool) (s : Smp) : outcome (unit * Smp) :=
  match l with
  | [] => Fault OutOfFuel
  | r :: l' =>
      if r then Done (tt, {| this := this s; cleaned := cleaned s; boxes := boxes s; freed := freed s; ready := l' |}) else spin_ready l' s
  end.
Definition wait_ready : M Smp unit := λ s, spin_ready (ready s) s.

Section smp.
Context {T : AddressTranslator}.
(** The conduit to the firmware, the addresses of [smp_trampoline] and
    [secondary_init], the cache type register, the per-CPU registry, and the
    address that [Box::new] gets. *)
Context (conduit : bool → Z → Z → Z → Z → M Smp Z) (USE_HVC : bool) (trampoline secondary_init ctr : Z) (registry : Registry) (args_ptr : Z).

(** The drops of the stack and of the arguments. *)
Definition drop_both (stack : Stack) : M Smp unit := modify (λ s, free (stack_ptr stack) (free args_ptr s)).

Definition boot_secondary (core logical_id : Z) (stack : Stack) (addr_translator : Z → option Z) : M Smp (result PsciError unit) :=
  modify (λ s, with_boxes (<[args_ptr := boot_args secondary_init (this s) logical_id stack]> (boxes s)) s) ;;
  clean ctr args_ptr ARGS_SIZE ;;
  let* trampoline_phys := expect (addr_translator trampoline) in
  let args_phys := dmap_to_phys args_ptr in
  let* r := cpu_on conduit USE_HVC core trampoline_phys args_phys in
  match r with
  | Err e => drop_both stack ;; ret (Err e)
  | Ok _ =>
      let* pcpu := expect (percpu_get logical_id registry) in
      wait_ready ;;
      drop_both stack ;;
      ret (Ok tt)
  end.
End smp.

(** ** Waking up the other cores *)

(** The closure that [uefi_arm64_bootstrap] passes. *)
Definition image_phys (KBASE load_addr addr : Z) : option Z := o ← checked_sub addr KBASE; checked_add 64 o load_addr.

(** [create_cpu_iter] *)
Definition create_cpu_iter (dt : DeviceTree) : list Z :=
  omap (λ n, match class n with Device.Cpu id _ => Some id | _ => None end) (filter (λ n, filter_fundamental n = true) (nodes dt)).

Section wake.
Context {S : Type} (alloc : Z → Z → M S Z) (boot : Z → Z → Stack → M S (result PsciError unit)) (current : Z) (maps : CpuMaps).

Fixpoint wake_cpus (cpus : list Z) : M S unit :=
  match cpus with
  | [] => ret tt
  | cpu :: cpus' =>
      if cpu =? current then wake_cpus cpus'
      else
        let* logical := expect (to_logical maps cpu) in
        let* r := stack_new alloc PAGE_SIZE 16 in
        let* stack := expect (match r with Ok s => Some s | Err _ => None end) in
        let* b := boot cpu logical stack in
        expect (match b with Ok _ => Some tt | Err _ => None end) ;;
        wake_cpus cpus'
  end.
End wake.
