(* ===== verification/StartupTheorems.v ===== *)
(** * What start-up guarantees

    The boot information is filled once and only read afterwards; devices are
    initialised once each, fundamental ones first; the cache lines of a range
    are all cleaned; a secondary core starts with the registers of the core
    that woke it, and its stack is freed only when it no longer uses it. *)

From S2P Require Import Prelude Bytes Vm Device Cpu Asm AsmTheorems Startup.

(** ** Tokens *)

Section token.
Import Token.
Context {I : Type}.

(** The statics, and the tokens there are. *)
Record World := { statics : Statics I; init_tokens : nat; tokens : nat }.

Definition fresh_world : World := {| statics := {| STATE := Fresh; BOOT_INFO := None |}; init_tokens := 0; tokens := 0 |}.

(** Tokens are made by the functions that return them and are used up by the
    function that takes them by value. *)
Inductive token_step : World → World → Prop :=
| step_new w b s : init_token_new (statics w) = Done (b, s) →
    token_step w {| statics := s; init_tokens := init_tokens w + (if b then 1 else 0); tokens := tokens w |}
| step_init w n i b s : init_tokens w = S n → init_token_init i (statics w) = Done (b, s) →
    token_step w {| statics := s; init_tokens := n; tokens := tokens w + (if b then 1 else 0) |}
| step_drop_init w n : init_tokens w = S n → token_step w {| statics := statics w; init_tokens := n; tokens := tokens w |}
| step_drop w n : tokens w = S n → token_step w {| statics := statics w; init_tokens := init_tokens w; tokens := n |}
| step_set w n i u s : tokens w = S n → token_set i (statics w) = Done (u, s) → token_step w {| statics := s; init_tokens := init_tokens w; tokens := tokens w |}.

Definition token_inv (w : World) : Prop :=
  match STATE (statics w) with
  | Fresh => init_tokens w = 0%nat ∧ tokens w = 0%nat
  | Uninit => (init_tokens w ≤ 1)%nat ∧ tokens w = 0%nat
  | Init => init_tokens w = 0%nat ∧ (tokens w ≤ 1)%nat ∧ is_Some (BOOT_INFO (statics w))
  end.

Lemma token_step_inv w w' : token_inv w → token_step w w' → token_inv w'.
Proof.
  intros Hi St. unfold token_inv in *.
  destruct St as [w b s E|w n i b s Hn E|w n Hn|w n Hn|w n i u s Hn E]; cbn [statics init_tokens tokens] in *.
  - unfold init_token_new, bind, get, modify, ret in E. destruct (STATE (statics w)) eqn:Es; [rewrite bool_decide_eq_true_2 in E by done|rewrite bool_decide_eq_false_2 in E by done..];
      injection E as <- <-; cbn [STATE]; rewrite ?Es; intuition lia.
  - unfold init_token_init, bind, get, modify, ret in E. destruct (STATE (statics w)) eqn:Es; [lia| |lia].
    rewrite bool_decide_eq_true_2 in E by done. injection E as <- <-. cbn [STATE BOOT_INFO]. split_and!; [lia|lia|done].
  - destruct (STATE (statics w)); intuition lia.
  - destruct (STATE (statics w)); intuition lia.
  - unfold token_set, bind, get, assert, modify in E. destruct (STATE (statics w)) eqn:Es; [lia|lia|]. rewrite bool_decide_eq_true_2 in E by done.
    destruct (BOOT_INFO (statics w)); [|done]. injection E as <- <-. cbn [STATE BOOT_INFO]. rewrite Es. intuition.
Qed.

(** C22: However the tokens are passed around, at most one token of either
    kind exists, and never one of each; whoever holds a token to the boot
    information reads it without a panic and without touching memory that was
    never written. *)
Theorem boot_info_token w : rtc token_step fresh_world w →
  (init_tokens w + tokens w ≤ 1)%nat ∧ ((0 < tokens w)%nat → ∃ i, token_get (statics w) = Done (i, statics w)).
Proof.
  intros H. assert (token_inv w) as Hi.
  { assert (token_inv fresh_world) as H0 by done. revert H0. induction H as [|w1 w2 w3 H1 _ IH]; [done|]. intros H0. by eapply IH, token_step_inv. }
  unfold token_inv in Hi. split; [destruct (STATE (statics w)); lia|]. intros Ht. unfold token_get, bind, get, assert.
  destruct (STATE (statics w)) eqn:Es; [lia|lia|]. destruct Hi as (_ & _ & [i Ei]). exists i. by rewrite bool_decide_eq_true_2, Ei.
Qed.
End token.

(** The life of the boot information in [kentry]. *)
Lemma boot_info_token_witness : ∃ w : World (I := Z), tokens w = 1%nat ∧ ∃ i, Token.token_get (statics w) = Done (i, statics w).
Proof.
  set (w2 := {| statics := {| Token.STATE := Token.Init; Token.BOOT_INFO := Some 5 |}; init_tokens := 0; tokens := 1 |} : World (I := Z)).
  assert (rtc token_step fresh_world w2) as H.
  { set (w1 := {| statics := {| Token.STATE := Token.Uninit; Token.BOOT_INFO := None |}; init_tokens := 1; tokens := 0 |} : World (I := Z)).
    apply (rtc_l _ _ w1); [exact (step_new fresh_world true _ eq_refl)|]. apply (rtc_l _ _ w2); [exact (step_init w1 0 5 true _ eq_refl eq_refl)|apply rtc_refl]. }
  exists w2. split; [done|]. apply (boot_info_token w2 H). apply Nat.lt_0_1.
Defined.

(** ** Devices *)

(** The handlers that are called, and on which node. *)
Definition calls (ns : list DeviceNode) : list (DeviceHandler * DeviceNode) :=
  omap (λ n, c ← find_callback (compatible n); Some (match c with Once f => f | EveryCore f _ => f end, n)) ns.
Definition secondary_calls (ns : list DeviceNode) : list (DeviceHandler * DeviceNode) :=
  omap (λ n, c ← find_callback (compatible n); match c with Once _ => None | EveryCore _ f => Some (f, n) end) ns.

Section devices.
Context {S : Type} (call : DeviceHandler → DeviceNode → M S unit).

Fixpoint run_calls (l : list (DeviceHandler * DeviceNode)) : M S unit :=
  match l with [] => ret tt | (f, n) :: l' => call f n ;; run_calls l' end.

Lemma run_calls_app l k s : run_calls (l ++ k) s = (run_calls l ;; run_calls k) s.
Proof.
  revert s. induction l as [|[f n] l IH]; intros s; [done|]. cbn [app run_calls]. unfold bind. destruct (call f n s) as [[u s']|]; [|done]. by rewrite IH.
Qed.

Lemma init_devices_run ns s : init_devices call ns s = run_calls (calls ns) s.
Proof.
  revert s. induction ns as [|n ns IH]; intros s; [done|]. unfold calls. cbn [init_devices omap list_omap]. destruct (find_callback (compatible n)) as [c|]; cbn [mbind option_bind]; [|apply IH].
  destruct c; cbn [run_calls]; unfold bind; destruct (call _ n s) as [[u s']|]; try done; apply IH.
Qed.

Lemma init_devices_secondary_run ns s : init_devices_secondary call ns s = run_calls (secondary_calls ns) s.
Proof.
  revert s. induction ns as [|n ns IH]; intros s; [done|]. unfold secondary_calls. cbn [init_devices_secondary omap list_omap].
  destruct (find_callback (compatible n)) as [[f|f g]|]; cbn [mbind option_bind is_every_core]; [apply IH| |apply IH].
  cbn [run_calls]. unfold bind. destruct (call g n s) as [[u s']|]; [|done]. apply IH.
Qed.

Lemma partition_nodes ns : filter (λ n, filter_fundamental n = true) ns ++ filter (λ n, filter_others n = true) ns ≡ₚ ns.
Proof.
  induction ns as [|n ns IH]; [done|]. rewrite !filter_cons. assert (filter_others n = negb (filter_fundamental n)) as ->.
  { unfold filter_others, filter_fundamental. by destruct (priority n). }
  destruct (filter_fundamental n).
  - rewrite decide_True, decide_False by done. cbn [app]. by rewrite IH.
  - rewrite decide_False, decide_True by done. rewrite <- Permutation_middle. by rewrite IH.
Qed.

Lemma fundamental_filter (ns : list DeviceNode) n : n ∈ filter (λ n, filter_fundamental n = true) ns → priority n = Fundamental.
Proof. intros [H _]%list_elem_of_filter. unfold filter_fundamental in H. by destruct (priority n). Qed.

Lemma others_filter (ns : list DeviceNode) n : n ∈ filter (λ n, filter_others n = true) ns → priority n ≠ Fundamental.
Proof. intros [H _]%list_elem_of_filter. by apply bool_decide_eq_true_1 in H. Qed.

(** Device initialisation calls the handler of every device node that has
    one exactly once, all fundamental devices (interrupt controller, timer,
    processors) before all others; the secondary cores do the same with the
    handlers for every core. *)
Theorem init_all_devices_spec dt s : ∃ first rest, first ++ rest ≡ₚ nodes dt ∧
  Forall (λ n, priority n = Fundamental) first ∧ Forall (λ n, priority n ≠ Fundamental) rest ∧
  init_all_devices call dt s = run_calls (calls (first ++ rest)) s ∧ secondary_main call dt s = run_calls (secondary_calls (first ++ rest)) s.
Proof.
  eexists _, _. split; [apply partition_nodes|]. split; [apply Forall_forall; apply fundamental_filter|]. split; [apply Forall_forall; apply others_filter|].
  unfold calls, secondary_calls. rewrite !omap_app, !run_calls_app. unfold init_all_devices, secondary_main, bind. rewrite init_devices_run, init_devices_secondary_run.
  split.
  - fold (calls (filter (λ n, filter_fundamental n = true) (nodes dt))). destruct (run_calls _ s) as [[u s']|]; [|done]. apply init_devices_run.
  - fold (secondary_calls (filter (λ n, filter_fundamental n = true) (nodes dt))). destruct (run_calls _ s) as [[u s']|]; [|done]. apply init_devices_secondary_run.
Qed.
End devices.

(** ** Cache maintenance *)

Lemma line_size_pow ctr : ∃ k, 2 ≤ k ≤ 17 ∧ get_dcache_line_size ctr = 2 ^ k.
Proof.
  exists (Z.land (Z.shiftr ctr 16) 0xF + 2). change 0xF with (Z.ones 4). rewrite Z.land_ones by lia. pose proof (Z.mod_pos_bound (Z.shiftr ctr 16) (2 ^ 4) eq_refl) as H.
  change (2 ^ 4) with 16 in *. split; [lia|]. unfold get_dcache_line_size. change 0xF with (Z.ones 4). rewrite Z.land_ones by lia. change (2 ^ 4) with 16. by rewrite Z.shiftl_1_l.
Qed.

Lemma step_by_lines start n size : 0 < size → 0 ≤ n → step_by start (start + n * size) size = (λ i, start + i * size) <$> seqZ 0 n.
Proof.
  intros Hs Hn. unfold step_by. do 2 f_equal. replace (start + n * size - start + size - 1) with (size - 1 + n * size) by lia.
  rewrite Z.div_add by lia. rewrite Z.div_small by lia. lia.
Qed.

Lemma clean_lines ctr addr len l : 0 ≤ addr → 0 < len → addr + len + get_dcache_line_size ctr < 2 ^ 64 →
  ∃ lines, clean_dcache_range ctr addr len l = Done (tt, l ++ lines) ∧
    (∀ b, addr ≤ b < addr + len → ∃ p, p ∈ lines ∧ p ≤ b < p + get_dcache_line_size ctr) ∧
    (∀ p, p ∈ lines → (get_dcache_line_size ctr | p) ∧ ∃ b, addr ≤ b < addr + len ∧ p ≤ b < p + get_dcache_line_size ctr).
Proof.
  intros Ha Hl He. destruct (line_size_pow ctr) as (k & Hk & Es). unfold clean_dcache_range. rewrite Es in *. pose proof (pow2_pos k ltac:(lia)) as Hp.
  rewrite align_down_eq by lia. unfold bind, expect, checked_add. rewrite (proj2 (Z.ltb_lt (addr + len) _)) by lia. rewrite align_up_eq by lia.
  rewrite (proj2 (Z.ltb_lt _ _)) by lia. unfold modify. set (sz := 2 ^ k) in *. set (a := addr / sz). set (n := (addr + len + sz - 1) / sz - a).
  assert (sz * a ≤ addr < sz * a + sz) as Hsa by (unfold a; Z.div_mod_to_equations; nia).
  assert (addr + len ≤ sz * (a + n) < addr + len + sz) as Hsn by (unfold n; replace (a + ((addr + len + sz - 1) / sz - a)) with ((addr + len + sz - 1) / sz) by lia; Z.div_mod_to_equations; nia).
  assert (0 ≤ n) as Hn by nia. replace (sz * ((addr + len + sz - 1) / sz)) with (sz * a + n * sz) by (unfold n; lia). rewrite step_by_lines by done.
  eexists. split; [done|]. split.
  - intros b Hb. exists (sz * (b / sz)). split; [|Z.div_mod_to_equations; nia]. apply list_elem_of_fmap. exists (b / sz - a). split; [lia|].
    apply elem_of_seqZ. assert (a ≤ b / sz) by (apply Z.div_le_mono; lia). assert (b / sz < a + n) by (apply Z.div_lt_upper_bound; nia). lia.
  - intros p (i & -> & Hi%elem_of_seqZ)%list_elem_of_fmap. split; [exists (a + i); lia|]. exists (Z.max addr (sz * a + i * sz)). nia.
Qed.

(** Cleaning a range of memory cleans every cache line that holds one of
    its bytes, and no line that holds none; the range may start and end
    anywhere, as long as rounding its end up stays in the address space. *)
Theorem clean_dcache_range_spec ctr addr len l : 0 ≤ addr → 0 < len → addr + len + get_dcache_line_size ctr < 2 ^ 64 →
  ∃ lines, clean_dcache_range ctr addr len l = Done (tt, l ++ lines) ∧
    (∀ b, addr ≤ b < addr + len → ∃ p, p ∈ lines ∧ p ≤ b < p + get_dcache_line_size ctr) ∧
    (∀ p, p ∈ lines → (get_dcache_line_size ctr | p) ∧ ∃ b, addr ≤ b < addr + len ∧ p ≤ b < p + get_dcache_line_size ctr).
Proof. apply clean_lines. Qed.

Lemma clean_dcache_range_spec_witness : ∃ lines, clean_dcache_range 0x40000 100 80 [] = Done (tt, lines) ∧ ∃ p, p ∈ lines ∧ p ≤ 170 < p + 64.
Proof.
  destruct (clean_dcache_range_spec 0x40000 100 80 []) as (lines & E & Hc & _); [lia|lia|by vm_compute|]. exists lines. split; [exact E|]. apply (Hc 170). lia.
Defined.

(** ** Interrupt masks *)

(** Under a guard interrupts are masked, and dropping it brings the old state
    back, whatever happened to the mask in between; [enable] and [disable]
    touch the two bits only. *)
Theorem guard_spec daif between : let '(saved, masked) := guard_new daif in
  Z.testbit masked 7 = true ∧ Z.testbit masked 6 = true ∧ guard_drop saved between = daif ∧
  (∀ i, 0 ≤ i → i ≠ 6 → i ≠ 7 → Z.testbit (guard_enable daif) i = Z.testbit daif i ∧ Z.testbit (guard_disable daif) i = Z.testbit daif i) ∧
  Z.testbit (guard_enable daif) 7 = false ∧ Z.testbit (guard_enable daif) 6 = false.
Proof.
  unfold guard_new, guard_disable, guard_enable, guard_drop, DAIF_IF. split; [rewrite Z.lor_spec; by destruct (Z.testbit daif 7)|].
  split; [rewrite Z.lor_spec; by destruct (Z.testbit daif 6)|]. split; [done|].
  assert (∀ i, 0 ≤ i → Z.testbit 0xC0 i = (6 <=? i) && (i <? 8)) as Hc.
  { intros i Hi. change 0xC0 with (Z.shiftl (Z.ones 2) 6). destruct (Z.leb_spec 6 i); [|by rewrite Z.shiftl_spec_low by lia].
    rewrite Z.shiftl_spec, testbit_ones by lia. cbn [andb]. destruct (Z.ltb_spec (i - 6) 2), (Z.ltb_spec i 8); (done || lia). }
  split_and!.
  - intros i Hi H6 H7. rewrite Z.ldiff_spec, Z.lor_spec, Hc by done. destruct (Z.leb_spec 6 i), (Z.ltb_spec i 8); try lia; cbn; by rewrite ?andb_true_r, ?orb_false_r.
  - by rewrite Z.ldiff_spec, Hc, andb_false_r by lia.
  - by rewrite Z.ldiff_spec, Hc, andb_false_r by lia.
Qed.

(** ** Secondary cores *)

Section smp.
Context {T : AddressTranslator}.
Context (conduit : bool → Z → Z → Z → Z → M Smp Z) (USE_HVC : bool) (trampoline secondary_init ctr : Z) (registry : Registry) (args_ptr : Z).
Implicit Types (s : Smp).

(** The registers that a core takes over. *)
Definition copied : list SysReg := [TTBR0_EL1; TTBR1_EL1; TCR_EL1; MAIR_EL1; SCTLR_EL1; CPACR_EL1; VBAR_EL1].

(** A core that starts at the trampoline with the arguments in memory. *)
Lemma secondary_start L primary sec logical stack : 0 ≤ x sec 0 → x sec 0 + 80 < 2 ^ 64 → 0 ≤ logical < 2 ^ 32 →
  args_at (mem sec) (x sec 0) (boot_args secondary_init primary logical stack) →
  let '(c, pc) := smp_trampoline L sec in
  pc = secondary_init ∧ SP c = stack_top stack ∧ x c 0 = logical ∧ Forall (λ r, sys c r = sys primary r) copied.
Proof.
  intros H0 H1 Hid Ha. pose proof (smp_trampoline_spec L sec (boot_args secondary_init primary logical stack) H0 H1 Ha Hid) as H.
  destruct (smp_trampoline L sec) as [c pc]. cbn [boot_args stack_top_v entry_fn_v args_cpu_id ttbr0 ttbr1 tcr mair sctlr cpacr vbar as_ptr_range snd] in H.
  destruct H as (H2 & H3 & H4 & H5 & H6 & H7 & H8 & H9 & H10 & H11 & _). split_and!; try done. unfold copied. by repeat constructor.
Qed.

(** The state when the firmware is asked to start the core. *)
Definition at_call s lines logical stack : Smp :=
  {| this := this s; cleaned := cleaned s ++ lines; boxes := <[args_ptr := boot_args secondary_init (this s) logical stack]> (boxes s); freed := freed s; ready := ready s |}.

Lemma spin_ready_run n post s : spin_ready (replicate n false ++ true :: post) s =
  Done (tt, {| this := this s; cleaned := cleaned s; boxes := boxes s; freed := freed s; ready := post |}).
Proof. induction n as [|n IH]; [done|]. exact IH. Qed.

End smp.


(** ** Waking up the other cores *)

Section wake.
Context {S : Type} (alloc : Z → Z → M S Z) (boot : Z → Z → Stack → M S (result PsciError unit)) (current : Z).

(** Starting one core: its logical number is its position in the table. *)
Definition wake_one (maps : CpuMaps) (cpu : Z) : M S unit :=
  let* logical := expect (to_logical maps cpu) in
  let* r := stack_new alloc PAGE_SIZE 16 in
  let* stack := expect (match r with Ok s => Some s | Err _ => None end) in
  let* b := boot cpu logical stack in
  expect (match b with Ok _ => Some tt | Err _ => None end).

Fixpoint wake_list (maps : CpuMaps) (cpus : list Z) : M S unit :=
  match cpus with [] => ret tt | c :: cs => wake_one maps c ;; wake_list maps cs end.

(** Every core of the device tree but the running one is started once, in
    order, and no other. *)
Theorem wake_cpus_spec maps cpus s : wake_cpus alloc boot current maps cpus s = wake_list maps (filter (λ c, c ≠ current) cpus) s.
Proof.
  revert s. induction cpus as [|c cs IH]; intros s; [done|]. cbn [wake_cpus]. rewrite filter_cons. destruct (Z.eqb_spec c current) as [->|Hne].
  - rewrite decide_False by auto. apply IH.
  - rewrite decide_True by done. cbn [wake_list]. unfold wake_one, bind, expect. destruct (to_logical maps c) as [i|]; [|done].
    destruct (stack_new alloc PAGE_SIZE 16 s) as [[[st|e] s1]|]; [|done|done]. destruct (boot c i st s1) as [[[u|e] s2]|]; [|done|done]. apply IH.
Qed.

(** Every processor of the tree has a logical number, so that its look-up
    does not fail; distinct processors have distinct numbers. *)
Theorem cpu_numbers dt m0 : let cpus := create_cpu_iter dt in let maps := init_cpu_maps cpus m0 in NoDup cpus → Z.of_nat (length cpus) ≤ 2 ^ 32 →
  ∀ i c, cpus !! i = Some c → to_logical maps c = Some (Z.of_nat i).
Proof.
  intros cpus maps Hnd Hlen i c Hi. destruct (init_cpu_maps_spec cpus m0 Hlen Hnd) as [_ H]. unfold maps. rewrite H.
  destruct (list_find (eq c) cpus) as [[j y]|] eqn:E.
  - apply list_find_Some in E as (Hj & <- & _). cbn. f_equal. f_equal. by eapply NoDup_lookup.
  - apply list_find_None in E. rewrite Forall_forall in E. by destruct (E c (list_elem_of_lookup_2 _ _ _ Hi)).
Qed.
End wake.

(** ** Stacks *)

(** A stack is a block that the allocator returned for that size and
    alignment, and its top is its end; what is no power of two is refused
    before anything is allocated. *)
Theorem stack_new_spec {S} (alloc : Z → Z → M S Z) size al (s : S) :
  (is_power_of_two al = false → stack_new alloc size al s = Done (Err BadAlignment, s)) ∧
  (is_power_of_two al = true → is_power_of_two size = false → stack_new alloc size al s = Done (Err BadSize, s)) ∧
  (∀ st s', stack_new alloc size al s = Done (Ok st, s') → alloc size al s = Done (stack_bottom st, s') ∧ stack_bottom st ≠ 0 ∧ stack_top st = stack_bottom st + size).
Proof.
  unfold stack_new. split_and!; [by intros ->|by intros -> ->|]. intros st s'. destruct (negb _); [done|]. destruct (negb _); [done|]. destruct (_ <? _); [done|].
  unfold bind. destruct (alloc size al s) as [[p s1]|]; [|done]. destruct (Z.eqb_spec p 0); [done|]. by intros [= <- <-].
Qed.
